(* ===== verification/_CoqProject ===== *)
-Q . S2P
Prelude.v
Queue.v
Runtime.v
Clock.v
Sync.v
Threads.v
Samples.v
Turn.v
RelyGuarantee.v
Exclusion.v
TurnSafety.v
Mutexes.v
Trylock.v
Pause.v
Conds.v
Barriers.v
Processes.v
Machine.v
Ghost.v
Determinism.v
Pairs.v
Tests.v
TestRaces.v
DetLibc.v
DetIO.v
Doubles.v
PerfUtil.v
Bm.v
Pqueue.v
Pfscan.v
Scan.v
Aget.v
Url.v
Ftp.v
Rc.v
Resume.v
HeadReq.v
AgetMain.v
Phases.v
PhaseRule.v
Radix.v
RadixKeys.v
RadixTree.v
RadixSort.v
RadixSweeps.v
RadixCount.v
RadixMain.v
Pauses.v
Lu.v
LuElim.v
LuLayout.v
LuBlocks.v
LuPhases.v
LuMain.v
LuContig.v
LuAlloc.v
LuContigMain.v
PhaseScript.v
Fft.v
FftRow.v
FftTranspose.v
FftMain.v
FftSetup.v
FftExact.v
Cholesky.v
Etree.v
Nonzeros.v
Supernodes.v
FullMatrix.v
RowSort.v
ChildLists.v
Analysis.v
Bfac.v
BfacLoops.v
BfacKernels.v
BfacMain.v
BfacBlocks.v
BfacExact.v
