(* ===== verification/Prelude.v ===== *)
(** * dpthread: a verification development

    ** The program

    dpthread ([src/src], [src/include]) is a runtime that makes multithreaded programs
    deterministic. Every thread has a logical clock: the events a hardware counter has counted
    in it, plus a software correction. A thread may take a lock, signal, create a thread and so
    on only when its clock is the smallest of all (ties go to the smaller thread number), so
    that the order of these operations depends on the program and not on the scheduler. While
    the runtime or a wrapped C library function works, the counter of the calling thread is
    paused; the wrappers charge a fixed number of events instead. Programs are compiled with
    [dpthread-wrapper.h], which renames [pthread_*] and the C library's calls. The repository
    carries programs the runtime is used with: [pfscan] (a parallel file scanner), [aget] (a
    parallel downloader) and the splash2 benchmarks, of which the radix sort, the two LU
    factorisations, the fast Fourier transform, and of the sparse Cholesky factorisation the
    analysis and the dense kernels are modelled here.

    ** Files

    - [Prelude]: machine integers, arrays as lists ([znth], [zset]: [None] is an access out of
      range), the [let?] notation, automation.
    - [Queue] ([queue.c]): the ring of pointers, its invariant and its refinement of a bounded
      FIFO (C8).
    - [Runtime]: the state [rt] ([wa[]], thread-local variables, mutexes, condition variables,
      barriers, globals, statistics, log), the class [PerfCounter] for the hardware counter
      with its laws, the monad [M] for code that does not wait, the language [prog] for code
      that does, its executions [run] (one thread, with fuel) and [step]/[steps] (one action at
      a time).
    - [Clock], [Sync], [Threads] ([dpthread.c]): the operations, one definition per function.
      [Clock] also has the equivalence [sim] of states that differ in log and statistics only,
      with its [Proper] instances.
    - [Samples]: concrete processes for the witnesses.
    - [Turn], [TurnSafety]: the order of the clocks; [wait_for_turn] with the other threads
      standing still (C40), and with the other threads running and creating threads between
      any two reads of its scan (C6).
    - [RelyGuarantee]: a rely-guarantee logic for [prog], sound for every interleaving.
    - [Exclusion]: mutual exclusion of [det_lock] and [det_unlock] for any number of threads
      with nested critical sections, under every schedule (C5).
    - [Mutexes]: the exact effect of a thread's locks and unlocks, as a refinement of a
      recursive lock with logical times (C7). [Trylock]: [det_trylock].
    - [Pause]: pausing and resuming a clock, statement by statement as other threads see it
      (C13), what is counted, leaving and rejoining the order.
    - [Conds], [Barriers]: waiting, waking and the opening of a barrier (C9 - C12).
    - [Processes]: creation of threads (C14) and two executions in which the runtime does not
      keep what it means to keep ([turn_race], and a lemma on stale owners).
    - [Machine]: what threads with mutexes are to do in logical time, as a machine without any
      of the mechanism, whose steps commute. [Ghost]: simulation of such a machine, on top of
      the rely-guarantee logic. [Determinism]: the runtime's locks refine the machine (C2), and
      so every schedule of a program leads to the same variables, mutexes and clocks (C1), and
      one that ends bounds the clocks, and the tries for mutexes, of all (C3). [Pairs]: two
      threads of the machine, followed in logical time. [Tests] ([test/deadlock.c]): which
      input makes the test deadlock (C4). [TestRaces]
      ([test/bankacct.c], [test/order.c]): when an update of the account is lost (C36), when a
      pointer is used before it is set.
    - [DetLibc] ([det-libc.c]): the memory functions against their specification.
    - [DetIO] ([det-libc.c], [det-posix.c]): the wrappers of the C library: fixed cost, signals,
      time of day, [recv].
    - [PerfUtil] ([perf_util.c], [perf_util.h]): the reader of the kernel's ring buffer as a
      byte stream (C35), the list of events, the scaling of counts.
    - [Bm], [Pqueue], [Pfscan], [Scan] ([pfscan-1.0]): the Boyer-Moore search finds exactly the
      occurrences (C15); the queue between the walker and the workers, on [Sync]'s mutexes and
      condition variables (C32, C33); escapes and reports; the scan of a file, the
      workers, the walk and the command line (C16, C34). What a worker does is a trace of
      events, the changes of the shared counters among them, so that their order with the
      locks and the signal to [main] is part of the theorems.
    - [Aget], [Ftp] ([Aget.c], [Download.c], [Ftp.c] of [aget-devel]): the division of a file
      among threads, the transfer over HTTP and FTP, retries. [Url] ([parse_url] of
      [Misc.c]): which URLs are read, what they stand for, and which ones lead outside the
      arrays (C37). [Rc]
      ([loadrc.c]): the rc file (C38). [HeadReq] ([Head.c]): the requests before a
      download. [Resume] ([Resume.c], [Signal.c]): the log of an interrupted job.
      [AgetMain] ([main.c]): the command line (C39) and the whole program: over HTTP
      from the arguments to the complete file, over FTP to the lock of a mutex that nobody has
      initialised (C17), which is also where a resumed job ends (C18).
    - [Phases] ([codes/null_macros/c.m4.null.det] of splash2): programs of P threads that work
      between barriers and may tell each other through pauses, as data ([prog]), with their
      executions one access to the shared memory at a time ([step], [ends]: every execution
      ends). [PhaseRule]: the rule for a phase, which reduces all interleavings to what each
      thread does alone. [Pauses]: the pause macros, instruction by instruction, behave as one
      step each when one thread waits for a pause (C30), which is how [Phases] has them.
    - [Radix] ([kernels/radix/radix.C]): the radix sort. [RadixKeys]: the generator of the keys
      and the partitions (C31). [RadixSort]: sorting by digits in the abstract. [RadixTree],
      [RadixSweeps], [RadixCount]: the prefix tree and its pauses, the sweeps up and down, the
      histograms and the permutation. [RadixMain]: every execution ends with the keys sorted
      (C19), and one with three processors does not end.
    - [Lu], [LuContig] ([kernels/lu]): the two LU factorisations, with the matrix in one array
      and with contiguous blocks. [LuElim]: elimination without blocks, which in exact
      arithmetic factors the matrix and passes the program's test (C22). [LuLayout]: the
      interface ([LayoutOk]) that the two programs implement; [LuBlocks], [LuPhases]: the
      kernels and the phases for any layout. [LuMain]: the first program is elimination, bit
      for bit (C20). [LuAlloc]: the allocation of the blocks; [LuContigMain]: the second
      program gives what the first one gives (C21).
    - [Doubles]: the arithmetic of doubles, as a parameter. [PhaseScript]: the rule for programs
      whose threads share nothing inside a phase; a script says who works where and what the
      memory is at the end of each phase.
    - [Fft] ([kernels/fft/fft.C]): the fast Fourier transform. [FftRow]: what the kernels do to
      a row. [FftTranspose]: the blocked transposition. [FftMain]: the phases of all threads.
      [FftSetup]: the options, the tables and the whole program, which is the sequential
      transform, bit for bit (C23). [FftExact]: in exact arithmetic it is the discrete Fourier
      transform, and transforming back gives the data (C24).
    - [Cholesky] ([kernels/cholesky]: [tree.C], and parts of [util.C], [seg.C], [amal.C],
      [solve.C]): what is done before the numbers of a sparse factor are computed. [Etree]:
      where the factor has elements is defined by elimination ([Filled]); the elimination tree,
      found with path compression, has the first filled row of every column as its parent
      (C26). [Nonzeros]: the counts of the columns. [Supernodes]: the columns with the same
      structure (C27). [FullMatrix], [RowSort]: the full matrix from the lower triangle of the
      file. [ChildLists]: the children of every node. [Analysis]: permutations, the work, and
      the steps of [main] put together, from the triangle to the supernodes (C25).
    - [Bfac] ([kernels/cholesky/bfac.C]): the dense kernels of the factorisation, on a memory
      of numbers. [BfacLoops], [BfacKernels]: loops, unrolled sweeps and the routines for one
      piece of a block; [BfacMain], [BfacBlocks]: the routines for whole blocks, piece by piece.
      [BfacExact]: in exact arithmetic two block columns become their Cholesky factor (C28);
      the update of a block, bit for bit (C29).

    ** How the code is modelled

    - One [Act] of [prog] is one statement or one library call of the C code; other threads may
      run between two [Act]s. The scan of [wait_for_turn] is one [Act] per clock it reads. The
      macros of the debug log are [Act]s too and append to the log.
    - [M] has three results: a value with a state, a wait inside the threading library, and an
      abort (a failed [assert], an access outside an array).
    - Logical clocks are [int64_t] in the code and unbounded integers here: they start at 0 and
      pass [2 * MAX_LOGICAL_CLOCK] (4 * 10^13) by the counted events only. Where a narrower
      type matters ([int], [unsigned], [unsigned short], sizes) the wrap-around is written out.
    - The configuration is the one the sources are built with: [USE_NESTED_LOCK] and
      [USE_MUTEX_RECURSIVE] on, [USE_DET_FASTFORWARD] and the timing off; [pfscan] with
      [HEECHUL].
    - Code outside the repository is a parameter: the counter ([PerfCounter], with
      [PerfCounterLaws]: a stopped counter does not move, a running one counts what happens),
      the C library behind the wrappers, [ctype.h] ([Ctype], [CtypeLaws]), [tolower], [printf]
      of numbers, and what the file system and the servers answer. Each class has an instance
      and each hypothesis a witness.
    - Fuel: [run n] gives every loop [n] turns. Theorems that say an operation returns give a
      bound that is enough: a lock needs one turn per unit of logical time it waits for, a
      broadcast one per waiter; a wait for a turn that has come needs one. The loops of the
      string routines are bounded by the length of the string, and [Ftp.transfer_fuel] shows
      that one turn per answer of the server is enough. The rounds of a download are a list of
      what the servers do in each; [Retrying] is the answer when they are used up, never a
      success. [Rc.config_loop] takes a character at least in every turn. The loops of the
      benchmarks go over a range ([for_]); those that climb the prefix tree have one turn per
      bit of a [long], those over blocks one per row; running out of them is [Fail], which the
      theorems exclude. The loops of [Cholesky] that follow a path of the tree or
      a list have one turn per column, and the theorems show that it is enough.

    ** Not modelled

    Determinism (C1, C2) is about threads that exist from the start and use mutexes; with
    condition variables [det_cond_signal] moves clocks back, and [Processes.turn_race] shows
    what this may do to the turn. [Pqueue] follows one thread whose turn comes first. Of [aget] the
    progress bar is left out. In the benchmarks an access to the shared memory is
    one step of one order of all accesses (the programs have no races, which the proofs show
    by the way), a pause and a barrier are one step ([Pauses] and C12 say why), the times they
    measure and print are left out, and the arithmetic of doubles is a parameter, and so are
    [cos], [sin] and [drand48]. The number of points and the line size of the Fourier transform are shifts of
    an [int]: [Fft.setup] is defined for less than 31 only, and so C23 and C24 are about those. Of the Cholesky factorisation the reading of the numbers, the
    amalgamation of supernodes, the distribution of the blocks and the order in which the
    threads use the kernels are left out. The other programs of splash2 and sqlite are third-party
    programs and are not modelled. *)
From stdpp Require Import base list gmap numbers option.
From Stdlib Require Import ZArith Lia.
#[global] Open Scope Z_scope.

(** ** Machine integers *)

(** Reduction of an integer to an unsigned machine word of [w] bits. *)
Definition wrap_u (w z : Z) : Z := z mod 2 ^ w.

(** Reduction of an integer to a two's complement machine word of [w] bits. *)
Definition wrap_s (w z : Z) : Z := (z + 2 ^ (w - 1)) mod 2 ^ w - 2 ^ (w - 1).

Definition to_int (z : Z) : Z := wrap_s 32 z.
Definition to_int64 (z : Z) : Z := wrap_s 64 z.
Definition to_uint (z : Z) : Z := wrap_u 32 z.
Definition to_uint64 (z : Z) : Z := wrap_u 64 z.
Definition to_uchar (z : Z) : Z := wrap_u 8 z.

Definition INT_MAX : Z := 2147483647.
Definition is_int (z : Z) : Prop := - 2 ^ 31 <= z < 2 ^ 31.
Definition is_byte (z : Z) : Prop := 0 <= z < 256.

#[export] Instance is_int_dec z : Decision (is_int z).
Proof. unfold is_int. apply _. Defined.
#[export] Instance is_byte_dec z : Decision (is_byte z).
Proof. unfold is_byte. apply _. Defined.

Lemma wrap_s_id w z : 0 < w -> - 2 ^ (w - 1) <= z < 2 ^ (w - 1) -> wrap_s w z = z.
Proof.
  intros Hw Hz. unfold wrap_s.
  assert (2 ^ w = 2 * 2 ^ (w - 1)) as E.
  { rewrite <- Z.pow_succ_r by lia. f_equal. lia. }
  rewrite Z.mod_small; lia.
Qed.

Lemma wrap_u_id w z : 0 <= z < 2 ^ w -> wrap_u w z = z.
Proof. intros. unfold wrap_u. apply Z.mod_small. lia. Qed.

Lemma to_int_id z : is_int z -> to_int z = z.
Proof. unfold is_int, to_int. intros. apply wrap_s_id; simpl; lia. Qed.

Lemma to_uint64_id z : 0 <= z < 2 ^ 64 -> to_uint64 z = z.
Proof. apply wrap_u_id. Qed.

Lemma to_uchar_byte z : is_byte (to_uchar z).
Proof. unfold is_byte, to_uchar, wrap_u. apply (Z.mod_pos_bound z (2 ^ 8)). lia. Qed.

(** C's [/] and [%] truncate towards zero; a zero divisor is undefined. *)
Definition c_rem (a b : Z) : option Z := if b =? 0 then None else Some (Z.rem a b).

Lemma c_rem_pos a b : 0 <= a -> 0 < b -> c_rem a b = Some (a mod b).
Proof.
  intros. unfold c_rem. destruct (Z.eqb_spec b 0); [lia|].
  by rewrite Z.rem_mod_nonneg by lia.
Qed.

(** ** Automation *)

(** Splits the boolean comparisons of a goal or hypothesis into their meaning. *)
Ltac zcase :=
  match goal with
  | |- context [Z.eqb ?a ?b] => destruct (Z.eqb_spec a b)
  | |- context [Z.ltb ?a ?b] => destruct (Z.ltb_spec a b)
  | |- context [Z.leb ?a ?b] => destruct (Z.leb_spec a b)
  | H : context [Z.eqb ?a ?b] |- _ => destruct (Z.eqb_spec a b)
  | H : context [Z.ltb ?a ?b] |- _ => destruct (Z.ltb_spec a b)
  | H : context [Z.leb ?a ?b] |- _ => destruct (Z.leb_spec a b)
  end.
Ltac zcases := repeat (zcase; simpl in *; try lia; try congruence).

Create HintDb dp discriminated.
#[export] Hint Resolve to_uchar_byte : dp.

(** ** Lists indexed by [Z] *)

(** [l[i]] of a C array held as a list; [None] is an out-of-range access. *)
Definition znth {A} (l : list A) (i : Z) : option A :=
  if i <? 0 then None else l !! Z.to_nat i.

(** [l[i] = x]; [None] is an out-of-range store. *)
Definition zset {A} (l : list A) (i : Z) (x : A) : option (list A) :=
  if (0 <=? i) && (i <? Z.of_nat (length l)) then Some (<[Z.to_nat i:=x]> l) else None.

Abbreviation zlen l := (Z.of_nat (length l)).

Section ZList.
Context {A : Type}.
Implicit Types (l : list A) (x : A).

Lemma znth_nat l (n : nat) : znth l (Z.of_nat n) = l !! n.
Proof. unfold znth. destruct (Z.ltb_spec (Z.of_nat n) 0); [lia|]. by rewrite Nat2Z.id. Qed.

Lemma znth_Some l i : 0 <= i < zlen l -> exists x, znth l i = Some x.
Proof.
  intros. unfold znth. destruct (Z.ltb_spec i 0); [lia|].
  apply lookup_lt_is_Some. lia.
Qed.

Lemma znth_bound l i x : znth l i = Some x -> 0 <= i < zlen l.
Proof.
  unfold znth. destruct (Z.ltb_spec i 0); [done|].
  intros ?%lookup_lt_Some. lia.
Qed.

Lemma zset_Some l i x : 0 <= i < zlen l -> zset l i x = Some (<[Z.to_nat i:=x]> l).
Proof.
  intros. unfold zset. destruct (Z.leb_spec 0 i), (Z.ltb_spec i (zlen l)); done || lia.
Qed.

Lemma zset_length l l' i x : zset l i x = Some l' -> length l' = length l.
Proof. unfold zset. destruct (_ && _); [|done]. intros [= <-]. apply length_insert. Qed.

Lemma zset_middle l1 l2 x y : zset (l1 ++ x :: l2) (zlen l1) y = Some (l1 ++ y :: l2).
Proof.
  rewrite zset_Some by (rewrite length_app; cbn [length]; lia). rewrite Nat2Z.id, insert_app_r_alt by lia. by rewrite Nat.sub_diag.
Qed.

Lemma znth_zset l l' i x j :
  zset l i x = Some l' -> znth l' j = if j =? i then Some x else znth l j.
Proof.
  unfold zset, znth. destruct (Z.leb_spec 0 i), (Z.ltb_spec i (zlen l)); try done.
  intros [= <-]. destruct (Z.eqb_spec j i) as [->|Hne].
  - destruct (Z.ltb_spec i 0); [lia|]. apply list_lookup_insert_eq. lia.
  - destruct (Z.ltb_spec j 0); [done|]. apply list_lookup_insert_ne. lia.
Qed.
End ZList.

(** The array [l] has [n] elements, and element [i] is [f i]. *)
Definition vec (l : list Z) (n : Z) (f : Z -> Z) : Prop :=
  zlen l = n /\ forall i, 0 <= i < n -> znth l i = Some (f i).

Lemma vec_ext l n f g : vec l n f -> (forall i, 0 <= i < n -> f i = g i) -> vec l n g.
Proof. intros [Hl Hf] He. split; [done|]. intros i Hi. by rewrite Hf, He. Qed.
Lemma vec_set l n f i x : vec l n f -> 0 <= i < n ->
  exists l', zset l i x = Some l' /\ vec l' n (fun k => if k =? i then x else f k).
Proof.
  intros [Hl Hf] Hi. rewrite zset_Some by lia. eexists. split; [done|]. split; [by rewrite length_insert|].
  intros k Hk. rewrite (znth_zset l _ i x k) by (apply zset_Some; lia). destruct (k =? i); [done|by apply Hf].
Qed.

(** ** Option monad notation *)

Declare Scope c_scope.
Notation "'let?' x := a 'in' b" :=
  (match a with Some x => b | None => None end)
  (at level 10, x pattern at level 0, a at level 200, b at level 200) : c_scope.
#[global] Open Scope c_scope.
