(* ===== verification/Queue.v ===== *)
(** The bounded FIFO of [src/src/queue.c]: a ring buffer in which one slot stays
    free, its well-formedness invariant, and its refinement of a bounded list.

    [array] is the block [malloc] returned; a [NULL] or freed block is the empty
    list, so that every access to it is out of range. [None] is undefined
    behaviour: an access outside the block or a remainder by zero. *)
From stdpp Require Import base list.
From Stdlib Require Import ZArith Lia.
From S2P Require Import Prelude.

Module Queue.

Record TQueue (P : Type) := mkQueue { head : Z; tail : Z; array : list P; size : Z }.
Arguments mkQueue {P}.
Arguments head {P}.
Arguments tail {P}.
Arguments array {P}.
Arguments size {P}.

Section Operations.
(** Items are the C [void *] values; [NULL] is what an empty queue answers. *)
Context {P : Type}.
Variable NULL : P.
Implicit Types (q : TQueue P).

(** [fresh] is the block of indeterminate contents [malloc] returns. *)
Definition InitQ (fresh : list P) (sz : Z) : TQueue P := mkQueue 0 0 fresh sz.

(** [memcpy] of [size] items of [src] over the fresh block. *)
Definition InitQ2 (fresh : list P) (src : TQueue P) : option (TQueue P) :=
  let n := Z.to_nat (size src) in
  if (n <=? length (array src))%nat && (n <=? length fresh)%nat then
    Some (mkQueue (head src) (tail src) (take n (array src) ++ drop n fresh) (size src))
  else None.

Definition AddQ q (item : P) : option (Z * TQueue P) :=
  let? next := c_rem (tail q + 1) (size q) in
  if next =? head q then Some (0, q)
  else
    let? a := zset (array q) (tail q) item in
    let? t := c_rem (tail q + 1) (size q) in
    Some (1, mkQueue (head q) t a (size q)).

Definition DelQ q : option (P * TQueue P) :=
  if head q =? tail q then Some (NULL, q)
  else
    let? item := znth (array q) (head q) in
    let? h := c_rem (head q + 1) (size q) in
    Some (item, mkQueue h (tail q) (array q) (size q)).

Definition GetHeadQ q : option P :=
  if head q =? tail q then Some NULL else znth (array q) (head q).

Definition IsEmptyQ q : Z := if head q =? tail q then 1 else 0.

(** The loop of [ClearQ]; the first component lists the items passed to [free]. *)
Fixpoint ClearQ_loop (fuel : nat) q (freeObjs : Z) : option (list P * TQueue P) :=
  if IsEmptyQ q =? 0 then
    match fuel with
    | O => None
    | S fuel =>
        let? (itm, q1) := DelQ q in
        let? (freed, q2) := ClearQ_loop fuel q1 freeObjs in
        Some (if freeObjs =? 1 then itm :: freed else freed, q2)
    end
  else Some ([], q).

(** A queue holds fewer than [size] items, so [size] iterations drain it. *)
Definition ClearQ q (freeObjs : Z) : option (list P * TQueue P) :=
  ClearQ_loop (Z.to_nat (size q)) q freeObjs.

Definition DestroyQ q : TQueue P := mkQueue (head q) (tail q) [] 0.

(** ** Invariant and abstraction *)

Record wf q : Prop := {
  wf_size : 0 < size q;
  wf_array : zlen (array q) = size q;
  wf_head : 0 <= head q < size q;
  wf_tail : 0 <= tail q < size q
}.

Definition count q : nat := Z.to_nat ((tail q - head q) mod size q).
Definition slot q (i : nat) : P :=
  default NULL (znth (array q) ((head q + Z.of_nat i) mod size q)).
Definition contents q : list P := slot q <$> seq 0 (count q).

(** The bounded FIFO a client relies on. *)
Definition spec_add (cap : nat) (l : list P) (item : P) : Z * list P :=
  if decide (length l = cap) then (0, l) else (1, l ++ [item]).
Definition spec_del (l : list P) : P * list P :=
  match l with [] => (NULL, []) | x :: l => (x, l) end.
Definition capacity q : nat := Z.to_nat (size q - 1).
End Operations.

(** ** Lemmas *)

Lemma mod_wrap a n : 0 <= a < 2 * n -> a mod n = if a <? n then a else a - n.
Proof.
  intros. destruct (Z.ltb_spec a n); [apply Z.mod_small; lia|].
  symmetry. apply Z.mod_unique with 1; lia.
Qed.

Lemma mod_wrap_neg a n : - n <= a < n -> a mod n = if 0 <=? a then a else a + n.
Proof.
  intros. destruct (Z.leb_spec 0 a); [apply Z.mod_small; lia|].
  symmetry. apply Z.mod_unique with (-1); lia.
Qed.

Section Lemmas.
Context {P : Type}.
Variable NULL : P.
Implicit Types (q : TQueue P).
Abbreviation contents := (contents NULL).
Abbreviation slot := (slot NULL).

Lemma length_contents q : length (contents q) = count q.
Proof. unfold Queue.contents. by rewrite length_fmap, length_seq. Qed.

Lemma contents_lookup q i : (i < count q)%nat -> contents q !! i = Some (slot q i).
Proof.
  intros. unfold Queue.contents. rewrite list_lookup_fmap, lookup_seq_lt by done. done.
Qed.

Lemma count_eq q : wf q ->
  Z.of_nat (count q) =
    if head q <=? tail q then tail q - head q else tail q - head q + size q.
Proof.
  intros [? ? ? ?]. unfold count. rewrite mod_wrap_neg by lia.
  zcases; lia.
Qed.

Lemma count_lt q : wf q -> (count q < Z.to_nat (size q))%nat.
Proof. intros H. pose proof (count_eq q H). destruct H. zcases. Qed.

Lemma contents_bounded q : wf q -> (length (contents q) <= capacity q)%nat.
Proof.
  intros H. rewrite length_contents. pose proof (count_lt q H).
  unfold capacity. lia.
Qed.

Lemma empty_count q : wf q -> (head q = tail q <-> count q = 0%nat).
Proof. intros H. pose proof (count_eq q H). destruct H. split; intros; zcases. Qed.

Lemma contents_nil q : wf q -> head q = tail q -> contents q = [].
Proof.
  intros H E. apply length_zero_iff_nil. rewrite length_contents.
  by apply empty_count.
Qed.

(** Two queues of which one extends the other have equal slots pointwise. *)
Lemma contents_ext q l :
  length l = count q -> (forall i, (i < count q)%nat -> l !! i = Some (slot q i)) ->
  contents q = l.
Proof.
  intros Hlen Hl. apply list_eq. intros i.
  destruct (decide (i < count q)%nat).
  - rewrite contents_lookup by done. symmetry. auto.
  - rewrite !lookup_ge_None_2; [done|lia|]. rewrite length_contents. lia.
Qed.

Lemma InitQ_wf (fresh : list P) sz : 0 < sz -> zlen fresh = sz -> wf (InitQ fresh sz).
Proof. intros. constructor; simpl; lia. Qed.

Lemma InitQ_contents (fresh : list P) sz :
  0 < sz -> zlen fresh = sz -> contents (InitQ fresh sz) = [].
Proof. intros. apply contents_nil; [by apply InitQ_wf|done]. Qed.

(** The slot the next item goes to is the tail. *)
Lemma full_iff q : wf q -> ((tail q + 1) mod size q = head q <-> count q = capacity q).
Proof.
  intros H. pose proof (count_eq q H) as E. destruct H. unfold capacity.
  rewrite mod_wrap by lia. split; intros; zcases.
Qed.

Lemma slot_insert q item i : wf q -> (i < count q)%nat ->
  slot (mkQueue (head q) ((tail q + 1) mod size q) (<[Z.to_nat (tail q):=item]> (array q))
          (size q)) i = slot q i.
Proof.
  intros H Hi. pose proof (count_eq q H) as E. destruct H.
  unfold Queue.slot. simpl. rewrite (mod_wrap (head q + Z.of_nat i)) by (zcases; lia).
  unfold znth. zcases; rewrite list_lookup_insert_ne by lia; done.
Qed.

Lemma slot_insert_last q item : wf q -> (count q < capacity q)%nat ->
  slot (mkQueue (head q) ((tail q + 1) mod size q) (<[Z.to_nat (tail q):=item]> (array q))
          (size q)) (count q) = item.
Proof.
  intros H Hi. pose proof (count_eq q H) as E. destruct H.
  unfold Queue.slot, capacity in *. simpl. rewrite (mod_wrap (head q + _)) by (zcases; lia).
  unfold znth. zcases;
    match goal with |- default _ (<[?a:=_]> _ !! ?b) = _ => replace b with a by lia end;
    rewrite list_lookup_insert_eq by lia; done.
Qed.

Definition pushed q (item : P) : TQueue P :=
  mkQueue (head q) ((tail q + 1) mod size q) (<[Z.to_nat (tail q):=item]> (array q)) (size q).

Lemma pushed_wf q item : wf q -> wf (pushed q item).
Proof.
  intros []. constructor; simpl; try rewrite length_insert; try lia.
  apply Z.mod_pos_bound. lia.
Qed.

Lemma pushed_count q item : wf q -> (count q < capacity q)%nat ->
  count (pushed q item) = S (count q).
Proof.
  intros H Hi. pose proof (count_eq q H) as E.
  pose proof (count_eq _ (pushed_wf q item H)) as E'. destruct H.
  unfold capacity in *. simpl in *. rewrite mod_wrap in E' by lia. zcases.
Qed.

Lemma AddQ_room q item : wf q -> count q <> capacity q ->
  AddQ q item = Some (1, pushed q item).
Proof.
  intros H Hne. pose proof (full_iff q H) as F. destruct H.
  unfold AddQ. rewrite c_rem_pos, zset_Some by lia. zcases; tauto.
Qed.

Lemma AddQ_full q item : wf q -> count q = capacity q -> AddQ q item = Some (0, q).
Proof.
  intros H Heq. pose proof (full_iff q H) as F. destruct H.
  unfold AddQ. rewrite c_rem_pos by lia. zcases; tauto.
Qed.

Lemma AddQ_spec q item : wf q ->
  exists r q', AddQ q item = Some (r, q') /\ wf q' /\ size q' = size q /\
    (r, contents q') = spec_add (capacity q) (contents q) item.
Proof.
  intros H. unfold spec_add. rewrite length_contents. case_decide as Hc.
  - exists 0, q. rewrite AddQ_full by done. done.
  - exists 1, (pushed q item). rewrite AddQ_room by done.
    split; [done|]. split; [by apply pushed_wf|]. split; [done|]. f_equal.
    pose proof (contents_bounded q H) as Hb. rewrite length_contents in Hb.
    apply contents_ext; rewrite pushed_count by (done || lia).
    + rewrite length_app, length_contents. simpl. lia.
    + intros i Hi. destruct (decide (i < count q)%nat).
      * rewrite lookup_app_l by (by rewrite length_contents).
        rewrite contents_lookup by done. f_equal. symmetry. by apply slot_insert.
      * replace i with (count q) by lia.
        rewrite lookup_app_r by (rewrite length_contents; lia).
        rewrite length_contents, Nat.sub_diag. simpl. f_equal. symmetry.
        apply slot_insert_last; [done|lia].
Qed.

Definition popped q : TQueue P :=
  mkQueue ((head q + 1) mod size q) (tail q) (array q) (size q).

Lemma popped_wf q : wf q -> wf (popped q).
Proof. intros []. constructor; simpl; try lia. apply Z.mod_pos_bound. lia. Qed.

Lemma popped_count q : wf q -> head q <> tail q -> count q = S (count (popped q)).
Proof.
  intros H Hne. pose proof (count_eq q H) as E.
  pose proof (count_eq _ (popped_wf q H)) as E'. destruct H.
  simpl in *. rewrite mod_wrap in E' by lia. zcases.
Qed.

Lemma popped_slot q i : wf q -> (i < count (popped q))%nat ->
  slot (popped q) i = slot q (S i).
Proof.
  intros H Hi. unfold Queue.slot. simpl. do 2 f_equal.
  rewrite Z.add_mod_idemp_l by (destruct H; lia). f_equal. lia.
Qed.

Lemma contents_pop q : wf q -> head q <> tail q ->
  contents q = slot q 0 :: contents (popped q).
Proof.
  intros H Hne. pose proof (popped_count q H Hne) as Hc.
  apply contents_ext; [simpl; by rewrite length_contents|].
  intros [|i] Hi; [done|]. simpl. rewrite contents_lookup by lia.
  f_equal. apply popped_slot; [done|lia].
Qed.

Lemma head_slot q : wf q -> znth (array q) (head q) = Some (slot q 0).
Proof.
  intros []. unfold Queue.slot. rewrite Z.add_0_r, Z.mod_small by lia.
  destruct (znth_Some (array q) (head q)) as [x ->]; [lia|done].
Qed.

Lemma DelQ_spec q : wf q ->
  exists x q', DelQ NULL q = Some (x, q') /\ wf q' /\ size q' = size q /\
    (x, contents q') = spec_del NULL (contents q).
Proof.
  intros H. unfold DelQ. destruct (Z.eqb_spec (head q) (tail q)) as [E|E].
  - exists NULL, q. by rewrite (contents_nil q).
  - exists (slot q 0), (popped q). rewrite head_slot by done.
    rewrite c_rem_pos by (destruct H; lia).
    split; [done|]. split; [by apply popped_wf|]. split; [done|].
    by rewrite (contents_pop q).
Qed.

Lemma GetHeadQ_spec q : wf q -> GetHeadQ NULL q = Some (fst (spec_del NULL (contents q))).
Proof.
  intros H. unfold GetHeadQ. destruct (Z.eqb_spec (head q) (tail q)).
  - by rewrite (contents_nil q).
  - by rewrite head_slot, (contents_pop q).
Qed.

Lemma IsEmptyQ_spec q : wf q -> IsEmptyQ q = if decide (contents q = []) then 1 else 0.
Proof.
  intros H. unfold IsEmptyQ. destruct (Z.eqb_spec (head q) (tail q)).
  - rewrite (contents_nil q) by done. by rewrite decide_True.
  - rewrite decide_False; [done|]. rewrite (contents_pop q) by done. done.
Qed.

Lemma ClearQ_loop_spec q n freeObjs : wf q -> (count q <= n)%nat ->
  exists q', ClearQ_loop NULL n q freeObjs =
      Some (if freeObjs =? 1 then contents q else [], q') /\
    wf q' /\ size q' = size q /\ contents q' = [].
Proof.
  revert q. induction n as [|n IH]; intros q H Hn; simpl;
    rewrite IsEmptyQ_spec by done; case_decide as Hc.
  1, 3: exists q; rewrite Hc; by destruct (freeObjs =? 1).
  - exfalso. apply Hc, length_zero_iff_nil. rewrite length_contents. lia.
  - destruct (DelQ_spec q H) as (x & q1 & E & Hwf & Hsz & Ec). simpl. rewrite E.
    destruct (contents q) as [|y l] eqn:Eq; [done|]. simpl in Ec. injection Ec as -> Ec.
    destruct (IH q1 Hwf) as (q2 & E2 & ? & ? & ?).
    { rewrite <- length_contents in Hn |- *. rewrite Eq in Hn. rewrite Ec. simpl in Hn. lia. }
    exists q2. rewrite E2, Ec. split; [by destruct (freeObjs =? 1)|]. split_and!; congruence.
Qed.

Lemma InitQ2_spec q (fresh : list P) : wf q -> zlen fresh = size q ->
  InitQ2 fresh q = Some q.
Proof.
  intros [] Hf. unfold InitQ2.
  replace (Z.to_nat (size q)) with (length (array q)) at 1 2 by lia.
  replace (length fresh) with (length (array q)) by lia.
  rewrite Nat.leb_refl. simpl. rewrite take_ge, drop_ge by lia. rewrite app_nil_r.
  by destruct q.
Qed.
End Lemmas.

(** ** Runs of a queue

    A client calls the operations in any order and sees their answers. *)
Inductive op (P : Type) := Add (item : P) | Del | Head | Empty | Clear (freeObjs : Z).
Arguments Add {P}.
Arguments Del {P}.
Arguments Head {P}.
Arguments Empty {P}.
Arguments Clear {P}.

Inductive answer (P : Type) := Code (r : Z) | Item (x : P) | Freed (l : list P).
Arguments Code {P}.
Arguments Item {P}.
Arguments Freed {P}.

Section Runs.
Context {P : Type}.
Variable NULL : P.

Definition exec (o : op P) (q : TQueue P) : option (answer P * TQueue P) :=
  match o with
  | Add x => let? (r, q') := AddQ q x in Some (Code r, q')
  | Del => let? (x, q') := DelQ NULL q in Some (Item x, q')
  | Head => let? x := GetHeadQ NULL q in Some (Item x, q)
  | Empty => Some (Code (IsEmptyQ q), q)
  | Clear f => let? (l, q') := ClearQ NULL q f in Some (Freed l, q')
  end.
Fixpoint execs (os : list (op P)) (q : TQueue P) : option (list (answer P) * TQueue P) :=
  match os with
  | [] => Some ([], q)
  | o :: os =>
      let? (a, q1) := exec o q in
      let? (l, q2) := execs os q1 in
      Some (a :: l, q2)
  end.

(** The same calls on a list of at most [cap] items. *)
Definition fifo_exec (cap : nat) (o : op P) (l : list P) : answer P * list P :=
  match o with
  | Add x => let '(r, l') := spec_add cap l x in (Code r, l')
  | Del => let '(x, l') := spec_del NULL l in (Item x, l')
  | Head => (Item (fst (spec_del NULL l)), l)
  | Empty => (Code (if decide (length l = 0%nat) then 1 else 0), l)
  | Clear f => (Freed (if f =? 1 then l else []), [])
  end.
Fixpoint fifo_execs (cap : nat) (os : list (op P)) (l : list P) : list (answer P) * list P :=
  match os with
  | [] => ([], l)
  | o :: os =>
      let '(a, l1) := fifo_exec cap o l in
      let '(r, l2) := fifo_execs cap os l1 in
      (a :: r, l2)
  end.

Lemma exec_refines o q : wf q ->
  exists a q', exec o q = Some (a, q') /\ wf q' /\ size q' = size q /\
    fifo_exec (capacity q) o (contents NULL q) = (a, contents NULL q').
Proof.
  intros H. destruct o as [x| | | |f]; simpl.
  - destruct (AddQ_spec NULL q x H) as (r & q' & -> & ? & ? & <-). by exists (Code r), q'.
  - destruct (DelQ_spec NULL q H) as (x & q' & -> & ? & ? & <-). by exists (Item x), q'.
  - rewrite GetHeadQ_spec by done. by eexists _, q.
  - rewrite (IsEmptyQ_spec NULL) by done. eexists _, q. split; [done|]. split; [done|].
    split; [done|]. repeat case_decide; destruct (contents NULL q); done.
  - destruct (ClearQ_loop_spec NULL q (Z.to_nat (size q)) f H) as (q' & E & ? & ? & Ec).
    { pose proof (count_lt q H). lia. }
    unfold ClearQ. rewrite E. eexists _, q'. by rewrite Ec.
Qed.

Lemma execs_refine os q : wf q ->
  exists l q', execs os q = Some (l, q') /\ wf q' /\ size q' = size q /\
    fifo_execs (capacity q) os (contents NULL q) = (l, contents NULL q').
Proof.
  revert q. induction os as [|o os IH]; intros q H; simpl; [by exists [], q|].
  destruct (exec_refines o q H) as (a & q1 & -> & H1 & S1 & ->).
  destruct (IH q1 H1) as (l & q2 & -> & H2 & S2 & E2).
  unfold capacity in *. rewrite S1 in E2. rewrite E2. eexists _, q2. split_and!; try done. congruence.
Qed.
End Runs.

(** C8. A queue created by [InitQ] with room for [size] pointers behaves, for every
    sequence of [AddQ], [DelQ], [GetHeadQ], [IsEmptyQ] and [ClearQ], exactly like a FIFO
    list of at most [size - 1] items: no call ever reads or writes outside the array, every
    answer is the list's, and the list the array represents at the end is the list's. *)
Theorem queue_refines_fifo {P} (NULL : P) (fresh : list P) sz os :
  0 < sz -> zlen fresh = sz ->
  exists l q, execs NULL os (InitQ fresh sz) = Some (l, q) /\ wf q /\
    fifo_execs NULL (Z.to_nat (sz - 1)) os [] = (l, contents NULL q).
Proof.
  intros Hs Hf. destruct (execs_refine NULL os (InitQ fresh sz)) as (l & q & E & Hw & _ & Eq).
  { by apply InitQ_wf. }
  exists l, q. split; [done|]. split; [done|]. by rewrite InitQ_contents in Eq.
Qed.

Definition a_run : list (op Z) :=
  [Add 5; Add 6; Add 7; Add 8; Head; Del; Add 9; Empty; Clear 1; Empty; Del].
Lemma queue_refines_fifo_witness :
  0 < 4 /\ zlen [0; 0; 0; 0] = 4 /\
  exists l q, execs (-1) a_run (InitQ [0; 0; 0; 0] 4) = Some (l, q) /\ wf q /\
    fifo_execs (-1) 3 a_run [] = (l, contents (-1) q).
Proof.
  split; [lia|]. split; [done|]. apply (queue_refines_fifo (-1) [0; 0; 0; 0] 4 a_run); [lia|done].
Defined.

End Queue.
