(* ===== verification/Runtime.v ===== *)
(** The shared state of the runtime ([src/src/dpthread.c], [src/include/dpthread.h])
    and the languages its operations are written in.

    - [rt] is the process state: [wa[]], the thread-local variables of every thread,
      the mutexes, condition variables and barriers, the global counters, and what the
      threading library keeps (which threads were started, cancelled or have exited).
    - [M] is the state and error monad of the code that runs without waiting.
    - [prog] is the language of the code that waits: a program performs atomic actions
      of [M], and between two of them any other thread may run. *)
From stdpp Require Import base list gmap sets strings countable.
From Stdlib Require Import ZArith Lia.
From S2P Require Import Prelude Queue.

(** ** The hardware event counter

    [perf_event] is the kernel's: a counter is opened stopped, counts the events of its
    thread while enabled, and is read as (raw count, time enabled, time running). *)
Class PerfCounter (C : Type) := {
  pc_open : C;
  pc_enable : C -> C;
  pc_disable : C -> C;
  pc_running : C -> bool;
  pc_values : C -> Z * Z * Z;
  (** [n] events happen in the monitored thread *)
  pc_events : Z -> C -> C
}.

Definition pc_raw `{PerfCounter C} (c : C) : Z := fst (fst (pc_values c)).

(** What the runtime relies on, as documented for a pinned counter. *)
Class PerfCounterLaws (C : Type) `{PerfCounter C} := {
  pc_open_raw : pc_raw pc_open = 0;
  pc_open_running : pc_running pc_open = false;
  pc_enable_raw c : pc_raw (pc_enable c) = pc_raw c;
  pc_enable_running c : pc_running (pc_enable c) = true;
  pc_disable_raw c : pc_raw (pc_disable c) = pc_raw c;
  pc_disable_running c : pc_running (pc_disable c) = false;
  pc_events_raw n c : pc_raw (pc_events n c) = if pc_running c then pc_raw c + n else pc_raw c;
  pc_events_running n c : pc_running (pc_events n c) = pc_running c;
  pc_pinned c : snd (fst (pc_values c)) = snd (pc_values c)
}.

(** A counter that obeys the documentation. *)
Module SimpleCounter.
Record counter := mkCounter { value : Z; on : bool }.
#[export] Instance ops : PerfCounter counter := {
  pc_open := mkCounter 0 false;
  pc_enable c := mkCounter (value c) true;
  pc_disable c := mkCounter (value c) false;
  pc_running := on;
  pc_values c := (value c, 0, 0);
  pc_events n c := mkCounter (if on c then value c + n else value c) (on c)
}.
#[export] Instance laws : PerfCounterLaws counter.
Proof. constructor; intros; unfold pc_raw; simpl; done. Qed.
End SimpleCounter.

(** ** Data *)

Definition MAX_THR : Z := 128.
Definition MAX_LOGICAL_CLOCK : Z := 20000000000000.
Definition EBUSY : Z := 16.

(** Where a mutex or a condition variable lives: an object of the program, the
    [thread_lock]/[thread_cond] of [wa[i]], or the members of barrier [b]. *)
Inductive addr := AObj (n : Z) | AThread (i : Z) | ABarrier (b : Z).

#[export] Instance addr_eq_dec : EqDecision addr.
Proof. solve_decision. Defined.
#[export] Program Instance addr_countable : Countable addr :=
  inj_countable' (fun a => match a with AObj n => (0, n) | AThread i => (1, i) | ABarrier b => (2, b) end)
    (fun p => if decide (fst p = 0) then AObj (snd p)
              else if decide (fst p = 1) then AThread (snd p) else ABarrier (snd p)) _.
Next Obligation. by intros []. Qed.

(** [det_mutex_t]; [m_holder] is the state of its [pthread_mutex_t]: free, or locked by a
    thread. It is a default mutex: [pthread_mutex_unlock] opens it whoever calls. *)
Record det_mutex := mkMutex {
  m_id : Z;
  m_holder : option Z;
  released_logical_time : Z;
  owner : Z;
  ref : Z;
  m_queue : Queue.TQueue Z
}.

Definition mutex0 : det_mutex := mkMutex 0 None 0 0 0 (Queue.mkQueue 0 0 [] 0).

(** [PTHREAD_MUTEX_INITIALIZER] of [dpthread-wrapper.h]. *)
Definition PTHREAD_MUTEX_INITIALIZER : det_mutex :=
  mkMutex (-1) None 0 0 0 (Queue.mkQueue 0 0 [] 0).

(** [det_cond_t]; a pointer to [waiter[i]] is the number [i]. *)
Record det_cond := mkCond {
  c_id : Z;
  c_queue : Queue.TQueue Z;
  waiter : gmap Z det_mutex
}.
Definition cond0 : det_cond := mkCond 0 (Queue.mkQueue 0 0 [] 0) ∅.

Record det_barrier := mkBarrier { b_id : Z; target_count : Z; wait_count : Z }.
Definition barrier0 : det_barrier := mkBarrier 0 0 0.

(** The [fds] pointer of a worker: [NULL], an open counter, or a freed block. *)
Inductive fds_t (C : Type) := FdsNull | FdsOpen (c : C) | FdsFreed.
Arguments FdsNull {C}.
Arguments FdsOpen {C}.
Arguments FdsFreed {C}.

Record worker_args (C : Type) := mkWorker {
  func : Z;
  arg : Z;
  w_id : Z;
  w_tid : Z;
  fds : fds_t C;
  hw_clock : Z;
  sw_clock : Z;
  hw_clock_enabled : bool;
  finished : bool;
  started : bool;
  last_exit_logical_time : Z;
  log_file : bool;
  nondet_count : Z
}.
Arguments mkWorker {C}.
Arguments func {C}.
Arguments arg {C}.
Arguments w_id {C}.
Arguments w_tid {C}.
Arguments fds {C}.
Arguments hw_clock {C}.
Arguments sw_clock {C}.
Arguments hw_clock_enabled {C}.
Arguments finished {C}.
Arguments started {C}.
Arguments last_exit_logical_time {C}.
Arguments log_file {C}.
Arguments nondet_count {C}.

(** The zeroed entry of a static array. *)
Definition worker0 {C} : worker_args C :=
  mkWorker 0 0 0 0 FdsNull 0 0 false false false 0 false 0.

(** Thread-local variables the operations depend on. *)
Record tls_t := mkTls { my_det_clock : Z; my_det_enabled : bool }.
Definition tls0 : tls_t := mkTls 0 false.

(** Thread-local statistics; nothing reads them but the reports. *)
Record stat_t := mkStat {
  hw_read : Z; cache_read : Z; barrier_count : Z; lock_count : Z;
  wait_turn_cnt : Z; enable_cnt : Z; disable_cnt : Z
}.
Definition stat0 : stat_t := mkStat 0 0 0 0 0 0 0.

(** One line of the debug log: thread, logical time, format and arguments. *)
Record log_line := mkLog { l_thread : Z; l_time : Z; l_format : string; l_args : list Z }.

Record globals := mkGlobals {
  max_thr : Z;
  num_thr : Z;
  last_sync_logical_time : Z;
  g_lock_count : Z;
  g_barr_count : Z;
  g_cond_count : Z;
  debug_level : Z;
  num_processors : Z
}.
Definition globals0 : globals := mkGlobals 0 0 0 0 0 0 0 0.

(** What the threading library knows of the threads it created. *)
Record pthreads := mkPthreads {
  spawned : list Z;            (** worker ids handed to [pthread_create], in order *)
  exited : list Z;             (** [pthread_t] of the threads that ended *)
  cancelled : list Z           (** [pthread_t] with a pending cancellation *)
}.
Definition pthreads0 : pthreads := mkPthreads [] [] [].

Record rt (C : Type) := mkRt {
  wa : gmap Z (worker_args C);
  tls : gmap Z tls_t;
  mutexes : gmap addr det_mutex;
  conds : gmap addr det_cond;
  barriers : gmap Z det_barrier;
  umem : gmap Z Z;             (** the shared variables of the program *)
  glob : globals;
  pth : pthreads;
  stats : gmap Z stat_t;
  log : list log_line
}.
Arguments mkRt {C}.
Arguments wa {C}.
Arguments tls {C}.
Arguments mutexes {C}.
Arguments conds {C}.
Arguments barriers {C}.
Arguments umem {C}.
Arguments glob {C}.
Arguments pth {C}.
Arguments stats {C}.
Arguments log {C}.

Definition rt0 {C} : rt C := mkRt ∅ ∅ ∅ ∅ ∅ ∅ globals0 pthreads0 ∅ [].

(** ** Field updates *)

Definition set_func {C} (x : Z) (w : worker_args C) : worker_args C :=
  mkWorker x (arg w) (w_id w) (w_tid w) (fds w) (hw_clock w) (sw_clock w) (hw_clock_enabled w) (finished w) (started w) (last_exit_logical_time w) (log_file w) (nondet_count w).
Definition set_arg {C} (x : Z) (w : worker_args C) : worker_args C :=
  mkWorker (func w) x (w_id w) (w_tid w) (fds w) (hw_clock w) (sw_clock w) (hw_clock_enabled w) (finished w) (started w) (last_exit_logical_time w) (log_file w) (nondet_count w).
Definition set_w_id {C} (x : Z) (w : worker_args C) : worker_args C :=
  mkWorker (func w) (arg w) x (w_tid w) (fds w) (hw_clock w) (sw_clock w) (hw_clock_enabled w) (finished w) (started w) (last_exit_logical_time w) (log_file w) (nondet_count w).
Definition set_w_tid {C} (x : Z) (w : worker_args C) : worker_args C :=
  mkWorker (func w) (arg w) (w_id w) x (fds w) (hw_clock w) (sw_clock w) (hw_clock_enabled w) (finished w) (started w) (last_exit_logical_time w) (log_file w) (nondet_count w).
Definition set_fds {C} (x : fds_t C) (w : worker_args C) : worker_args C :=
  mkWorker (func w) (arg w) (w_id w) (w_tid w) x (hw_clock w) (sw_clock w) (hw_clock_enabled w) (finished w) (started w) (last_exit_logical_time w) (log_file w) (nondet_count w).
Definition set_hw_clock {C} (x : Z) (w : worker_args C) : worker_args C :=
  mkWorker (func w) (arg w) (w_id w) (w_tid w) (fds w) x (sw_clock w) (hw_clock_enabled w) (finished w) (started w) (last_exit_logical_time w) (log_file w) (nondet_count w).
Definition set_sw_clock {C} (x : Z) (w : worker_args C) : worker_args C :=
  mkWorker (func w) (arg w) (w_id w) (w_tid w) (fds w) (hw_clock w) x (hw_clock_enabled w) (finished w) (started w) (last_exit_logical_time w) (log_file w) (nondet_count w).
Definition set_hw_clock_enabled {C} (x : bool) (w : worker_args C) : worker_args C :=
  mkWorker (func w) (arg w) (w_id w) (w_tid w) (fds w) (hw_clock w) (sw_clock w) x (finished w) (started w) (last_exit_logical_time w) (log_file w) (nondet_count w).
Definition set_finished {C} (x : bool) (w : worker_args C) : worker_args C :=
  mkWorker (func w) (arg w) (w_id w) (w_tid w) (fds w) (hw_clock w) (sw_clock w) (hw_clock_enabled w) x (started w) (last_exit_logical_time w) (log_file w) (nondet_count w).
Definition set_started {C} (x : bool) (w : worker_args C) : worker_args C :=
  mkWorker (func w) (arg w) (w_id w) (w_tid w) (fds w) (hw_clock w) (sw_clock w) (hw_clock_enabled w) (finished w) x (last_exit_logical_time w) (log_file w) (nondet_count w).
Definition set_last_exit_logical_time {C} (x : Z) (w : worker_args C) : worker_args C :=
  mkWorker (func w) (arg w) (w_id w) (w_tid w) (fds w) (hw_clock w) (sw_clock w) (hw_clock_enabled w) (finished w) (started w) x (log_file w) (nondet_count w).
Definition set_log_file {C} (x : bool) (w : worker_args C) : worker_args C :=
  mkWorker (func w) (arg w) (w_id w) (w_tid w) (fds w) (hw_clock w) (sw_clock w) (hw_clock_enabled w) (finished w) (started w) (last_exit_logical_time w) x (nondet_count w).
Definition set_nondet_count {C} (x : Z) (w : worker_args C) : worker_args C :=
  mkWorker (func w) (arg w) (w_id w) (w_tid w) (fds w) (hw_clock w) (sw_clock w) (hw_clock_enabled w) (finished w) (started w) (last_exit_logical_time w) (log_file w) x.

Definition set_my_det_clock (x : Z) (t : tls_t) : tls_t :=
  mkTls x (my_det_enabled t).
Definition set_my_det_enabled (x : bool) (t : tls_t) : tls_t :=
  mkTls (my_det_clock t) x.

Definition set_hw_read (x : Z) (t : stat_t) : stat_t :=
  mkStat x (cache_read t) (barrier_count t) (lock_count t) (wait_turn_cnt t) (enable_cnt t) (disable_cnt t).
Definition set_cache_read (x : Z) (t : stat_t) : stat_t :=
  mkStat (hw_read t) x (barrier_count t) (lock_count t) (wait_turn_cnt t) (enable_cnt t) (disable_cnt t).
Definition set_barrier_count (x : Z) (t : stat_t) : stat_t :=
  mkStat (hw_read t) (cache_read t) x (lock_count t) (wait_turn_cnt t) (enable_cnt t) (disable_cnt t).
Definition set_lock_count (x : Z) (t : stat_t) : stat_t :=
  mkStat (hw_read t) (cache_read t) (barrier_count t) x (wait_turn_cnt t) (enable_cnt t) (disable_cnt t).
Definition set_wait_turn_cnt (x : Z) (t : stat_t) : stat_t :=
  mkStat (hw_read t) (cache_read t) (barrier_count t) (lock_count t) x (enable_cnt t) (disable_cnt t).
Definition set_enable_cnt (x : Z) (t : stat_t) : stat_t :=
  mkStat (hw_read t) (cache_read t) (barrier_count t) (lock_count t) (wait_turn_cnt t) x (disable_cnt t).
Definition set_disable_cnt (x : Z) (t : stat_t) : stat_t :=
  mkStat (hw_read t) (cache_read t) (barrier_count t) (lock_count t) (wait_turn_cnt t) (enable_cnt t) x.

Definition set_m_id (x : Z) (m : det_mutex) : det_mutex :=
  mkMutex x (m_holder m) (released_logical_time m) (owner m) (ref m) (m_queue m).
Definition set_m_holder (x : option Z) (m : det_mutex) : det_mutex :=
  mkMutex (m_id m) x (released_logical_time m) (owner m) (ref m) (m_queue m).
Definition set_released_logical_time (x : Z) (m : det_mutex) : det_mutex :=
  mkMutex (m_id m) (m_holder m) x (owner m) (ref m) (m_queue m).
Definition set_owner (x : Z) (m : det_mutex) : det_mutex :=
  mkMutex (m_id m) (m_holder m) (released_logical_time m) x (ref m) (m_queue m).
Definition set_ref (x : Z) (m : det_mutex) : det_mutex :=
  mkMutex (m_id m) (m_holder m) (released_logical_time m) (owner m) x (m_queue m).
Definition set_m_queue (x : Queue.TQueue Z) (m : det_mutex) : det_mutex :=
  mkMutex (m_id m) (m_holder m) (released_logical_time m) (owner m) (ref m) x.

Definition set_c_id (x : Z) (c : det_cond) : det_cond :=
  mkCond x (c_queue c) (waiter c).
Definition set_c_queue (x : Queue.TQueue Z) (c : det_cond) : det_cond :=
  mkCond (c_id c) x (waiter c).
Definition set_waiter (x : gmap Z det_mutex) (c : det_cond) : det_cond :=
  mkCond (c_id c) (c_queue c) x.

Definition set_b_id (x : Z) (b : det_barrier) : det_barrier :=
  mkBarrier x (target_count b) (wait_count b).
Definition set_target_count (x : Z) (b : det_barrier) : det_barrier :=
  mkBarrier (b_id b) x (wait_count b).
Definition set_wait_count (x : Z) (b : det_barrier) : det_barrier :=
  mkBarrier (b_id b) (target_count b) x.

Definition set_max_thr (x : Z) (g : globals) : globals :=
  mkGlobals x (num_thr g) (last_sync_logical_time g) (g_lock_count g) (g_barr_count g) (g_cond_count g) (debug_level g) (num_processors g).
Definition set_num_thr (x : Z) (g : globals) : globals :=
  mkGlobals (max_thr g) x (last_sync_logical_time g) (g_lock_count g) (g_barr_count g) (g_cond_count g) (debug_level g) (num_processors g).
Definition set_last_sync_logical_time (x : Z) (g : globals) : globals :=
  mkGlobals (max_thr g) (num_thr g) x (g_lock_count g) (g_barr_count g) (g_cond_count g) (debug_level g) (num_processors g).
Definition set_g_lock_count (x : Z) (g : globals) : globals :=
  mkGlobals (max_thr g) (num_thr g) (last_sync_logical_time g) x (g_barr_count g) (g_cond_count g) (debug_level g) (num_processors g).
Definition set_g_barr_count (x : Z) (g : globals) : globals :=
  mkGlobals (max_thr g) (num_thr g) (last_sync_logical_time g) (g_lock_count g) x (g_cond_count g) (debug_level g) (num_processors g).
Definition set_g_cond_count (x : Z) (g : globals) : globals :=
  mkGlobals (max_thr g) (num_thr g) (last_sync_logical_time g) (g_lock_count g) (g_barr_count g) x (debug_level g) (num_processors g).
Definition set_debug_level (x : Z) (g : globals) : globals :=
  mkGlobals (max_thr g) (num_thr g) (last_sync_logical_time g) (g_lock_count g) (g_barr_count g) (g_cond_count g) x (num_processors g).
Definition set_num_processors (x : Z) (g : globals) : globals :=
  mkGlobals (max_thr g) (num_thr g) (last_sync_logical_time g) (g_lock_count g) (g_barr_count g) (g_cond_count g) (debug_level g) x.

Definition set_spawned (x : list Z) (p : pthreads) : pthreads :=
  mkPthreads x (exited p) (cancelled p).
Definition set_exited (x : list Z) (p : pthreads) : pthreads :=
  mkPthreads (spawned p) x (cancelled p).
Definition set_cancelled (x : list Z) (p : pthreads) : pthreads :=
  mkPthreads (spawned p) (exited p) x.

Definition set_wa {C} (x : gmap Z (worker_args C)) (s : rt C) : rt C :=
  mkRt x (tls s) (mutexes s) (conds s) (barriers s) (umem s) (glob s) (pth s) (stats s) (log s).
Definition set_tls {C} (x : gmap Z tls_t) (s : rt C) : rt C :=
  mkRt (wa s) x (mutexes s) (conds s) (barriers s) (umem s) (glob s) (pth s) (stats s) (log s).
Definition set_mutexes {C} (x : gmap addr det_mutex) (s : rt C) : rt C :=
  mkRt (wa s) (tls s) x (conds s) (barriers s) (umem s) (glob s) (pth s) (stats s) (log s).
Definition set_conds {C} (x : gmap addr det_cond) (s : rt C) : rt C :=
  mkRt (wa s) (tls s) (mutexes s) x (barriers s) (umem s) (glob s) (pth s) (stats s) (log s).
Definition set_barriers {C} (x : gmap Z det_barrier) (s : rt C) : rt C :=
  mkRt (wa s) (tls s) (mutexes s) (conds s) x (umem s) (glob s) (pth s) (stats s) (log s).
Definition set_umem {C} (x : gmap Z Z) (s : rt C) : rt C :=
  mkRt (wa s) (tls s) (mutexes s) (conds s) (barriers s) x (glob s) (pth s) (stats s) (log s).
Definition set_glob {C} (x : globals) (s : rt C) : rt C :=
  mkRt (wa s) (tls s) (mutexes s) (conds s) (barriers s) (umem s) x (pth s) (stats s) (log s).
Definition set_pth {C} (x : pthreads) (s : rt C) : rt C :=
  mkRt (wa s) (tls s) (mutexes s) (conds s) (barriers s) (umem s) (glob s) x (stats s) (log s).
Definition set_stats {C} (x : gmap Z stat_t) (s : rt C) : rt C :=
  mkRt (wa s) (tls s) (mutexes s) (conds s) (barriers s) (umem s) (glob s) (pth s) x (log s).
Definition set_log {C} (x : list log_line) (s : rt C) : rt C :=
  mkRt (wa s) (tls s) (mutexes s) (conds s) (barriers s) (umem s) (glob s) (pth s) (stats s) x.

(** ** Reading and updating the state

    Every array and every object is zero before it is written, as static storage is. *)

Section Access.
Context {C : Type}.
Implicit Types s : rt C.

Definition worker s (i : Z) : worker_args C := default worker0 (wa s !! i).
Definition upd_worker (i : Z) (f : worker_args C -> worker_args C) s : rt C :=
  set_wa (<[i := f (worker s i)]> (wa s)) s.
Definition tlsv s (i : Z) : tls_t := default tls0 (tls s !! i).
Definition upd_tlsv (i : Z) (f : tls_t -> tls_t) s : rt C :=
  set_tls (<[i := f (tlsv s i)]> (tls s)) s.
Definition statv s (i : Z) : stat_t := default stat0 (stats s !! i).
Definition upd_statv (i : Z) (f : stat_t -> stat_t) s : rt C :=
  set_stats (<[i := f (statv s i)]> (stats s)) s.
Definition mutex s (i : addr) : det_mutex := default mutex0 (mutexes s !! i).
Definition upd_mutex (i : addr) (f : det_mutex -> det_mutex) s : rt C :=
  set_mutexes (<[i := f (mutex s i)]> (mutexes s)) s.
Definition cond s (i : addr) : det_cond := default cond0 (conds s !! i).
Definition upd_cond (i : addr) (f : det_cond -> det_cond) s : rt C :=
  set_conds (<[i := f (cond s i)]> (conds s)) s.
Definition barrier s (i : Z) : det_barrier := default barrier0 (barriers s !! i).
Definition upd_barrier (i : Z) (f : det_barrier -> det_barrier) s : rt C :=
  set_barriers (<[i := f (barrier s i)]> (barriers s)) s.
Definition uvar s (x : Z) : Z := default 0 (umem s !! x).
Definition upd_uvar (x : Z) (f : Z -> Z) s : rt C := set_umem (<[x := f (uvar s x)]> (umem s)) s.
Definition upd_glob (f : globals -> globals) s : rt C := set_glob (f (glob s)) s.
Definition upd_pth (f : pthreads -> pthreads) s : rt C := set_pth (f (pth s)) s.
Definition add_log (l : log_line) s : rt C := set_log (log s ++ [l]) s.

Lemma worker_upd s i f j : worker (upd_worker i f s) j = if decide (j = i) then f (worker s i) else worker s j.
Proof.
  unfold worker at 1. simpl. case_decide as E; [subst; by rewrite lookup_insert_eq|].
  by rewrite lookup_insert_ne.
Qed.
Lemma worker_upd_eq s i f : worker (upd_worker i f s) i = f (worker s i).
Proof. by rewrite worker_upd, decide_True. Qed.
Lemma worker_upd_ne s i f j : j <> i -> worker (upd_worker i f s) j = worker s j.
Proof. intros. by rewrite worker_upd, decide_False. Qed.
Lemma worker_upd_upd s i f h : upd_worker i h (upd_worker i f s) = upd_worker i (fun x => h (f x)) s.
Proof.
  unfold upd_worker at 1. rewrite worker_upd_eq. unfold upd_worker, set_wa. simpl.
  by rewrite insert_insert_eq.
Qed.
Lemma tlsv_upd s i f j : tlsv (upd_tlsv i f s) j = if decide (j = i) then f (tlsv s i) else tlsv s j.
Proof.
  unfold tlsv at 1. simpl. case_decide as E; [subst; by rewrite lookup_insert_eq|].
  by rewrite lookup_insert_ne.
Qed.
Lemma tlsv_upd_eq s i f : tlsv (upd_tlsv i f s) i = f (tlsv s i).
Proof. by rewrite tlsv_upd, decide_True. Qed.
Lemma tlsv_upd_ne s i f j : j <> i -> tlsv (upd_tlsv i f s) j = tlsv s j.
Proof. intros. by rewrite tlsv_upd, decide_False. Qed.
Lemma tlsv_upd_upd s i f h : upd_tlsv i h (upd_tlsv i f s) = upd_tlsv i (fun x => h (f x)) s.
Proof.
  unfold upd_tlsv at 1. rewrite tlsv_upd_eq. unfold upd_tlsv, set_tls. simpl.
  by rewrite insert_insert_eq.
Qed.
Lemma statv_upd s i f j : statv (upd_statv i f s) j = if decide (j = i) then f (statv s i) else statv s j.
Proof.
  unfold statv at 1. simpl. case_decide as E; [subst; by rewrite lookup_insert_eq|].
  by rewrite lookup_insert_ne.
Qed.
Lemma statv_upd_eq s i f : statv (upd_statv i f s) i = f (statv s i).
Proof. by rewrite statv_upd, decide_True. Qed.
Lemma statv_upd_ne s i f j : j <> i -> statv (upd_statv i f s) j = statv s j.
Proof. intros. by rewrite statv_upd, decide_False. Qed.
Lemma statv_upd_upd s i f h : upd_statv i h (upd_statv i f s) = upd_statv i (fun x => h (f x)) s.
Proof.
  unfold upd_statv at 1. rewrite statv_upd_eq. unfold upd_statv, set_stats. simpl.
  by rewrite insert_insert_eq.
Qed.
Lemma mutex_upd s i f j : mutex (upd_mutex i f s) j = if decide (j = i) then f (mutex s i) else mutex s j.
Proof.
  unfold mutex at 1. simpl. case_decide as E; [subst; by rewrite lookup_insert_eq|].
  by rewrite lookup_insert_ne.
Qed.
Lemma mutex_upd_eq s i f : mutex (upd_mutex i f s) i = f (mutex s i).
Proof. by rewrite mutex_upd, decide_True. Qed.
Lemma mutex_upd_ne s i f j : j <> i -> mutex (upd_mutex i f s) j = mutex s j.
Proof. intros. by rewrite mutex_upd, decide_False. Qed.
Lemma mutex_upd_upd s i f h : upd_mutex i h (upd_mutex i f s) = upd_mutex i (fun x => h (f x)) s.
Proof.
  unfold upd_mutex at 1. rewrite mutex_upd_eq. unfold upd_mutex, set_mutexes. simpl.
  by rewrite insert_insert_eq.
Qed.
Lemma cond_upd s i f j : cond (upd_cond i f s) j = if decide (j = i) then f (cond s i) else cond s j.
Proof.
  unfold cond at 1. simpl. case_decide as E; [subst; by rewrite lookup_insert_eq|].
  by rewrite lookup_insert_ne.
Qed.
Lemma cond_upd_eq s i f : cond (upd_cond i f s) i = f (cond s i).
Proof. by rewrite cond_upd, decide_True. Qed.
Lemma cond_upd_ne s i f j : j <> i -> cond (upd_cond i f s) j = cond s j.
Proof. intros. by rewrite cond_upd, decide_False. Qed.
Lemma cond_upd_upd s i f h : upd_cond i h (upd_cond i f s) = upd_cond i (fun x => h (f x)) s.
Proof.
  unfold upd_cond at 1. rewrite cond_upd_eq. unfold upd_cond, set_conds. simpl.
  by rewrite insert_insert_eq.
Qed.
Lemma barrier_upd s i f j : barrier (upd_barrier i f s) j = if decide (j = i) then f (barrier s i) else barrier s j.
Proof.
  unfold barrier at 1. simpl. case_decide as E; [subst; by rewrite lookup_insert_eq|].
  by rewrite lookup_insert_ne.
Qed.
Lemma barrier_upd_eq s i f : barrier (upd_barrier i f s) i = f (barrier s i).
Proof. by rewrite barrier_upd, decide_True. Qed.
Lemma barrier_upd_ne s i f j : j <> i -> barrier (upd_barrier i f s) j = barrier s j.
Proof. intros. by rewrite barrier_upd, decide_False. Qed.
Lemma barrier_upd_upd s i f h : upd_barrier i h (upd_barrier i f s) = upd_barrier i (fun x => h (f x)) s.
Proof.
  unfold upd_barrier at 1. rewrite barrier_upd_eq. unfold upd_barrier, set_barriers. simpl.
  by rewrite insert_insert_eq.
Qed.
Lemma uvar_upd s i f j : uvar (upd_uvar i f s) j = if decide (j = i) then f (uvar s i) else uvar s j.
Proof.
  unfold uvar at 1. simpl. case_decide as E; [subst; by rewrite lookup_insert_eq|].
  by rewrite lookup_insert_ne.
Qed.
Lemma uvar_upd_eq s i f : uvar (upd_uvar i f s) i = f (uvar s i).
Proof. by rewrite uvar_upd, decide_True. Qed.
Lemma uvar_upd_ne s i f j : j <> i -> uvar (upd_uvar i f s) j = uvar s j.
Proof. intros. by rewrite uvar_upd, decide_False. Qed.
End Access.

Arguments uvar : simpl never.
Arguments upd_uvar : simpl never.
Arguments worker : simpl never.
Arguments upd_worker : simpl never.
Arguments tlsv : simpl never.
Arguments upd_tlsv : simpl never.
Arguments statv : simpl never.
Arguments upd_statv : simpl never.
Arguments mutex : simpl never.
Arguments upd_mutex : simpl never.
Arguments cond : simpl never.
Arguments upd_cond : simpl never.
Arguments barrier : simpl never.
Arguments upd_barrier : simpl never.
Arguments upd_glob : simpl never.
Arguments upd_pth : simpl never.
Arguments add_log : simpl never.

(** Reading one part of the state through an update of another: the update is skipped. *)
Ltac skip_update t :=
  lazymatch t with
  | worker (?u ?a ?f ?s) ?j => lazymatch u with @upd_worker _ => fail | _ => constr:(worker s j) end
  | tlsv (?u ?a ?f ?s) ?j => lazymatch u with @upd_tlsv _ => fail | _ => constr:(tlsv s j) end
  | statv (?u ?a ?f ?s) ?j => lazymatch u with @upd_statv _ => fail | _ => constr:(statv s j) end
  | mutex (?u ?a ?f ?s) ?j => lazymatch u with @upd_mutex _ => fail | _ => constr:(mutex s j) end
  | cond (?u ?a ?f ?s) ?j => lazymatch u with @upd_cond _ => fail | _ => constr:(cond s j) end
  | barrier (?u ?a ?f ?s) ?j => lazymatch u with @upd_barrier _ => fail | _ => constr:(barrier s j) end
  | uvar (?u ?a ?f ?s) ?j => lazymatch u with @upd_uvar _ => fail | _ => constr:(uvar s j) end
  | glob (?u ?a ?f ?s) => lazymatch u with @upd_glob => fail | _ => constr:(glob s) end
  | pth (?u ?a ?f ?s) => lazymatch u with @upd_pth => fail | _ => constr:(pth s) end
  | log (?u ?a ?f ?s) => lazymatch u with @add_log => fail | _ => constr:(log s) end
  end.

Ltac rt_frame :=
  match goal with
  | |- context [worker ?s ?j] => let t := skip_update constr:(worker s j) in change (worker s j) with t
  | H : context [worker ?s ?j] |- _ => let t := skip_update constr:(worker s j) in change (worker s j) with t in H
  | |- context [tlsv ?s ?j] => let t := skip_update constr:(tlsv s j) in change (tlsv s j) with t
  | H : context [tlsv ?s ?j] |- _ => let t := skip_update constr:(tlsv s j) in change (tlsv s j) with t in H
  | |- context [statv ?s ?j] => let t := skip_update constr:(statv s j) in change (statv s j) with t
  | H : context [statv ?s ?j] |- _ => let t := skip_update constr:(statv s j) in change (statv s j) with t in H
  | |- context [mutex ?s ?j] => let t := skip_update constr:(mutex s j) in change (mutex s j) with t
  | H : context [mutex ?s ?j] |- _ => let t := skip_update constr:(mutex s j) in change (mutex s j) with t in H
  | |- context [cond ?s ?j] => let t := skip_update constr:(cond s j) in change (cond s j) with t
  | H : context [cond ?s ?j] |- _ => let t := skip_update constr:(cond s j) in change (cond s j) with t in H
  | |- context [barrier ?s ?j] => let t := skip_update constr:(barrier s j) in change (barrier s j) with t
  | H : context [barrier ?s ?j] |- _ => let t := skip_update constr:(barrier s j) in change (barrier s j) with t in H
  | |- context [uvar ?s ?j] => let t := skip_update constr:(uvar s j) in change (uvar s j) with t
  | H : context [uvar ?s ?j] |- _ => let t := skip_update constr:(uvar s j) in change (uvar s j) with t in H
  | |- context [glob ?s] => let t := skip_update constr:(glob s) in change (glob s) with t
  | H : context [glob ?s] |- _ => let t := skip_update constr:(glob s) in change (glob s) with t in H
  | |- context [pth ?s] => let t := skip_update constr:(pth s) in change (pth s) with t
  | H : context [pth ?s] |- _ => let t := skip_update constr:(pth s) in change (pth s) with t in H
  | |- context [log ?s] => let t := skip_update constr:(log s) in change (log s) with t
  | H : context [log ?s] |- _ => let t := skip_update constr:(log s) in change (log s) with t in H
  | |- context [glob (upd_glob ?f ?s)] => change (glob (upd_glob f s)) with (f (glob s))
  | H : context [glob (upd_glob ?f ?s)] |- _ => change (glob (upd_glob f s)) with (f (glob s)) in H
  | |- context [pth (upd_pth ?f ?s)] => change (pth (upd_pth f s)) with (f (pth s))
  end.

Create Rewrite HintDb rt.
#[export] Hint Rewrite @worker_upd_eq @tlsv_upd_eq @statv_upd_eq @mutex_upd_eq @cond_upd_eq @barrier_upd_eq @uvar_upd_eq : rt.
#[export] Hint Rewrite @worker_upd_ne @tlsv_upd_ne @statv_upd_ne @mutex_upd_ne @cond_upd_ne @barrier_upd_ne @uvar_upd_ne using (congruence || lia) : rt.

(** Evaluates reads of updated states. *)
Ltac rt_simpl := repeat (progress (repeat rt_frame; autorewrite with rt; cbn [fst snd])); simpl.
Ltac rt_simpl_all := repeat (progress (repeat rt_frame; autorewrite with rt in *)); simpl in *.

(** ** The monad of code that runs without waiting *)

(** [Blocked]: the action cannot happen yet ([pthread_mutex_lock] of a locked mutex).
    [Abort]: the process ends (a failed [assert], [err], [errx]) or its behaviour is undefined. *)
Inductive res (C A : Type) := Ok (a : A) (s : rt C) | Blocked | Abort (why : string).
Arguments Ok {C A}.
Arguments Blocked {C A}.
Arguments Abort {C A}.

Definition M (C A : Type) : Type := rt C -> res C A.

Definition mret {C A} (a : A) : M C A := fun s => Ok a s.
Definition mbind {C A B} (m : M C A) (k : A -> M C B) : M C B :=
  fun s => match m s with Ok a s' => k a s' | Blocked => Blocked | Abort w => Abort w end.
Definition gets {C A} (f : rt C -> A) : M C A := fun s => Ok (f s) s.
Definition modify {C} (f : rt C -> rt C) : M C unit := fun s => Ok tt (f s).
Definition abort {C A} (why : string) : M C A := fun _ => Abort why.
Definition massert {C} (b : bool) (why : string) : M C unit :=
  if b then mret tt else abort why.
Definition of_option {C A} (o : option A) (why : string) : M C A :=
  match o with Some a => mret a | None => abort why end.
Definition mwhen {C} (b : bool) (m : M C unit) : M C unit := if b then m else mret tt.

Declare Scope m_scope.
Delimit Scope m_scope with M.
Notation "x <- m ;; k" := (mbind m (fun x => k))
  (at level 100, m at next level, right associativity) : m_scope.
Notation "m ;;; k" := (mbind m (fun _ => k))
  (at level 100, right associativity) : m_scope.

(** ** Programs that wait

    [Act m] performs [m] atomically. [Loop body x] runs [body] from [x] until it answers
    [inr]: the [while] and [goto retry] loops. *)
Inductive prog (C : Type) : Type -> Type :=
| Ret {A} (a : A) : prog C A
| Bind {A B} (p : prog C A) (k : A -> prog C B) : prog C B
| Act {A} (m : M C A) : prog C A
| Loop {A B} (body : A -> prog C (A + B)) (x : A) : prog C B.
Arguments Ret {C A}.
Arguments Bind {C A B}.
Arguments Act {C A}.
Arguments Loop {C A B}.

Declare Scope prog_scope.
Delimit Scope prog_scope with prog.
Notation "x <~ p ;; k" := (Bind p (fun x => k))
  (at level 100, p at next level, right associativity) : prog_scope.
Notation "p ;~ k" := (Bind p (fun _ => k))
  (at level 100, right associativity) : prog_scope.

Definition when {C} (b : bool) (p : prog C unit) : prog C unit := if b then p else Ret tt.

(** *** One thread alone

    [run n p s]: the thread runs [p] from [s] and no other thread moves; a loop may go
    round [n] times. *)
Inductive outcome (C A : Type) :=
| Done (a : A) (s : rt C) | Waits | Aborts (why : string) | OutOfFuel.
Arguments Done {C A}.
Arguments Waits {C A}.
Arguments Aborts {C A}.
Arguments OutOfFuel {C A}.

Definition of_res {C A} (r : res C A) : outcome C A :=
  match r with Ok a s => Done a s | Blocked => Waits | Abort w => Aborts w end.

Definition obind {C A B} (o : outcome C A) (k : A -> rt C -> outcome C B) : outcome C B :=
  match o with
  | Done a s => k a s | Waits => Waits | Aborts w => Aborts w | OutOfFuel => OutOfFuel
  end.

Section RunLoop.
Context {C A B : Type}.
Variable runbody : A -> rt C -> outcome C (A + B).
Fixpoint run_loop (n : nat) (x : A) (s : rt C) : outcome C B :=
  match n with
  | O => OutOfFuel
  | S n => obind (runbody x s)
             (fun r s' => match r with inl x' => run_loop n x' s' | inr b => Done b s' end)
  end.
End RunLoop.

Fixpoint run {C A} (n : nat) (p : prog C A) : rt C -> outcome C A :=
  match p with
  | Ret a => fun s => Done a s
  | Act m => fun s => of_res (m s)
  | Bind p k => fun s => obind (run n p s) (fun a s' => run n (k a) s')
  | Loop body x => run_loop (fun x => run n (body x)) n x
  end.

(** *** Interleaving

    One step of a program: administrative, or one atomic action. *)
Inductive stepped (C A : Type) :=
| Next (p : prog C A) (s : rt C) | Stopped (a : A) | Stuck | Crashed (why : string).
Arguments Next {C A}.
Arguments Stopped {C A}.
Arguments Stuck {C A}.
Arguments Crashed {C A}.

Fixpoint step {C A} (p : prog C A) (s : rt C) : stepped C A :=
  match p in prog _ A return stepped C A with
  | Ret a => Stopped a
  | Act m => match m s with
             | Ok a s' => Next (Ret a) s' | Blocked => Stuck | Abort w => Crashed w
             end
  | Bind p k => match step p s with
                | Next p' s' => Next (Bind p' k) s'
                | Stopped a => Next (k a) s
                | Stuck => Stuck
                | Crashed w => Crashed w
                end
  | Loop body x =>
      Next (Bind (body x) (fun r => match r with inl x' => Loop body x' | inr b => Ret b end)) s
  end.

(** Zero or more steps of one thread. *)
Inductive steps {C A} : prog C A -> rt C -> prog C A -> rt C -> Prop :=
| steps_refl p s : steps p s p s
| steps_step p s p1 s1 p2 s2 : step p s = Next p1 s1 -> steps p1 s1 p2 s2 -> steps p s p2 s2.

(** ** Lemmas about the two executions *)

Section Execution.
Context {C : Type}.

Lemma steps_trans {A} (p q r : prog C A) s1 s2 s3 :
  steps p s1 q s2 -> steps q s2 r s3 -> steps p s1 r s3.
Proof. induction 1; eauto using @steps. Qed.

Lemma steps_bind {A B} (p p' : prog C A) (k : A -> prog C B) s s' :
  steps p s p' s' -> steps (Bind p k) s (Bind p' k) s'.
Proof.
  induction 1 as [|? ? ? ? ? ? E]; [apply steps_refl|].
  eapply steps_step; [simpl; by rewrite E|done].
Qed.

Lemma obind_Done {A B} (o : outcome C A) (k : A -> rt C -> outcome C B) b s' :
  obind o k = Done b s' -> exists a s1, o = Done a s1 /\ k a s1 = Done b s'.
Proof. destruct o; simpl; try done. eauto. Qed.

(** What a thread does alone is one of its interleaved behaviours. *)
Lemma run_steps {A} n (p : prog C A) s a s' :
  run n p s = Done a s' -> steps p s (Ret a) s'.
Proof.
  revert s a s'. induction p as [A a0|A B p IHp k IHk|A m|A B body IH x]; intros s a s' E; simpl in E.
  - injection E as -> ->. apply steps_refl.
  - apply obind_Done in E as (b & s1 & E1 & E2).
    eapply steps_trans; [apply steps_bind, IHp, E1|].
    eapply steps_step; [done|]. by apply IHk.
  - destruct (m s) as [b s1| |] eqn:Em; simpl in E; try done. injection E as -> ->.
    eapply steps_step; [simpl; by rewrite Em|apply steps_refl].
  - assert (forall k, run_loop (fun x => run n (body x)) k x s = Done a s' ->
              steps (Loop body x) s (Ret a) s') as H; [|by eapply H].
    clear E. intros k. revert x s. induction k as [|k IHk]; intros x s E; simpl in E; [done|].
    apply obind_Done in E as (r & s1 & E1 & E2).
    eapply steps_step; [done|].
    eapply steps_trans; [apply steps_bind, IH, E1|].
    eapply steps_step; [done|]. destruct r as [x'|b].
    + by apply IHk.
    + injection E2 as -> ->. apply steps_refl.
Qed.

Lemma run_loop_mono {A B} (f g : A -> rt C -> outcome C (A + B)) n m x s b s' :
  (forall x s r s', f x s = Done r s' -> g x s = Done r s') ->
  (n <= m)%nat -> run_loop f n x s = Done b s' -> run_loop g m x s = Done b s'.
Proof.
  intros Hfg. revert m x s. induction n as [|n IH]; intros m x s Hle E; [done|].
  destruct m as [|m]; [lia|]. simpl in *.
  apply obind_Done in E as (r & s1 & E1 & E2). rewrite (Hfg _ _ _ _ E1). simpl.
  destruct r; [|done]. apply IH; [lia|done].
Qed.

(** More fuel does not change a result. *)
Lemma run_mono {A} n m (p : prog C A) s a s' :
  (n <= m)%nat -> run n p s = Done a s' -> run m p s = Done a s'.
Proof.
  intros Hle. revert s a s'.
  induction p as [A a0|A B p IHp k IHk|A m0|A B body IH x]; intros s a s' E; simpl in *; try done.
  - apply obind_Done in E as (b & s1 & E1 & E2). rewrite (IHp _ _ _ E1). simpl. by apply IHk.
  - eapply run_loop_mono; [|exact Hle|exact E]. intros. by apply IH.
Qed.
End Execution.
