(* ===== verification/Clock.v ===== *)
(** The logical clocks of [src/src/dpthread.c]: the hardware event counter of each
    thread, its software correction, and how a thread pauses and resumes its clock.

    Logical clocks are 64-bit in the code; they start at 0, grow by the counted events
    and by at most [2 * MAX_LOGICAL_CLOCK], and are modelled as unbounded integers. *)
From stdpp Require Import base list gmap strings.
From Stdlib Require Import ZArith Lia.
From S2P Require Import Prelude Queue Runtime.
Open Scope m_scope.

Section Clock.
Context {C : Type} `{PerfCounter C}.
Implicit Types s : rt C.

(** The thread whose code runs: the thread-local [myid]. *)
Variable me : Z.

Definition GET_CLOCK s (id : Z) : Z := sw_clock (worker s id) + hw_clock (worker s id).

Definition SET_CLOCK (id clock : Z) s : rt C :=
  upd_worker id (fun w => set_sw_clock (clock - hw_clock w) w) s.

Definition DBG (level : Z) (format : string) (args : list Z) : M C unit :=
  w <- gets (fun s => worker s me) ;;
  massert (negb (hw_clock_enabled w)) "DBG: hw_clock_enabled" ;;;
  dl <- gets (fun s => debug_level (glob s)) ;;
  mwhen (level <=? dl)
    (modify (fun s => add_log (mkLog me (GET_CLOCK s me) format args) s)).

Definition __read_count (f : fds_t C) : M C Z :=
  match f with
  | FdsOpen c =>
      let '(v0, v1, v2) := pc_values c in
      mwhen (negb (v1 =? v2)) (DBG 0 "__read_count: values[]=%lld,%lld,%lld" [v0; v1; v2]) ;;;
      mret v0
  | FdsNull | FdsFreed => abort "read_count: no counter"
  end.

Definition read_count (f : fds_t C) : M C Z := __read_count f.

Definition get_logical_clock (id : Z) : M C Z :=
  w <- gets (fun s => worker s id) ;;
  if negb (hw_clock_enabled w) then
    ret <- gets (fun s => GET_CLOCK s id) ;;
    DBG 4 "clock %d is disabled." [id] ;;;
    modify (upd_statv me (fun t => set_cache_read (cache_read t + 1) t)) ;;;
    mret ret
  else
    hw <- read_count (fds w) ;;
    ret <- gets (fun s => hw + sw_clock (worker s id)) ;;
    modify (upd_statv me (fun t => set_hw_read (hw_read t + 1) t)) ;;;
    mret ret.

(** [ioctl] on the counter of the thread, when it has one. *)
Definition on_counter (f : C -> C) : M C Z :=
  w <- gets (fun s => worker s me) ;;
  match fds w with
  | FdsNull => mret 0
  | FdsOpen c => modify (upd_worker me (set_fds (FdsOpen (f c)))) ;;; mret 0
  | FdsFreed => abort "fds used after free"
  end.

Definition enable_performance_counter : M C Z := on_counter pc_enable.
Definition disable_performance_counter : M C Z := on_counter pc_disable.

Definition fds_null (f : fds_t C) : bool := match f with FdsNull => true | _ => false end.

Definition enable_logical_clock : M C Z :=
  w <- gets (fun s => worker s me) ;;
  if fds_null (fds w) then mret (-1)
  else if hw_clock_enabled w then mret (-1)
  else
    DBG 4 "enable_logical_clock: hw_clock = %lld, enabled=%d" [hw_clock w; 0] ;;;
    modify (upd_worker me (set_hw_clock_enabled true)) ;;;
    enable_performance_counter ;;;
    modify (upd_statv me (fun t => set_enable_cnt (enable_cnt t + 1) t)) ;;;
    mret 0.

Definition disable_logical_clock : M C Z :=
  w <- gets (fun s => worker s me) ;;
  if fds_null (fds w) then mret (-1)
  else if negb (hw_clock_enabled w) then mret (-1)
  else
    disable_performance_counter ;;;
    f <- gets (fun s => fds (worker s me)) ;;
    v <- read_count f ;;
    modify (upd_worker me (set_hw_clock v)) ;;;
    modify (upd_worker me (set_hw_clock_enabled false)) ;;;
    DBG 4 "disable_logical_clock: hw_clock = %lld, enabled=%d" [v; 0] ;;;
    modify (upd_statv me (fun t => set_disable_cnt (disable_cnt t + 1) t)) ;;;
    mret 0.

(** [if ( lret == 0 ) enable_logical_clock();] *)
Definition resume_logical_clock (lret : Z) : M C unit :=
  if lret =? 0 then (enable_logical_clock ;;; mret tt) else mret tt.

Definition det_is_enabled : M C bool :=
  n <- gets (fun s => num_thr (glob s)) ;;
  if n <=? 1 then mret false else gets (fun s => my_det_enabled (tlsv s me)).

Definition incr_sw_clock (incr : Z) : M C unit :=
  modify (upd_worker me (fun w => set_sw_clock (sw_clock w + incr) w)).

Definition det_increase_logical_clock (incr : Z) : M C Z :=
  e <- det_is_enabled ;;
  if negb e then mret (-1) else incr_sw_clock (to_int incr) ;;; mret 0.

(** The parameter is an [int]; callers that declare it [uint64_t] lose the high bits. *)
Definition det_enable_logical_clock (incr : Z) : M C Z :=
  e <- det_is_enabled ;;
  if negb e then mret (-1) else incr_sw_clock (to_int incr) ;;; enable_logical_clock.

Definition det_disable_logical_clock : M C Z :=
  e <- det_is_enabled ;;
  if negb e then mret (-1) else disable_logical_clock.

Definition det_exit_logical_clock : M C Z :=
  e <- det_is_enabled ;;
  if negb e then mret (-1)
  else
    modify (fun s => upd_worker me (set_last_exit_logical_time (GET_CLOCK s me)) s) ;;;
    modify (SET_CLOCK me MAX_LOGICAL_CLOCK) ;;;
    mret 0.

Definition det_adjust_logical_clock : M C Z :=
  e <- det_is_enabled ;;
  if negb e then mret (-1)
  else
    later <- gets (fun s => last_exit_logical_time (worker s me) <? last_sync_logical_time (glob s)) ;;
    if later : bool then
      lret <- disable_logical_clock ;;
      modify (fun s => SET_CLOCK me (last_sync_logical_time (glob s)) s) ;;;
      modify (upd_worker me (fun w => set_nondet_count (nondet_count w + 1) w)) ;;;
      DBG 2 "got alarm" [] ;;;
      resume_logical_clock lret ;;;
      mret 0
    else
      modify (fun s => SET_CLOCK me (last_exit_logical_time (worker s me)) s) ;;;
      mret 0.

Definition det_set_debug (level : Z) : M C unit := modify (upd_glob (set_debug_level level)).

Definition det_get_pid : M C Z := mret me.

(** [n] counted events of the program: what the hardware does, not the runtime. *)
Definition compute (n : Z) : M C unit :=
  modify (upd_worker me (fun w =>
    match fds w with FdsOpen c => set_fds (FdsOpen (pc_events n c)) w | _ => w end)).
End Clock.

(** ** Specification *)

Section Logical.
Context {C : Type} `{PerfCounter C}.
Implicit Types s : rt C.

(** The logical time of a thread: what [get_logical_clock] answers. *)
Definition worker_time (w : worker_args C) : Z :=
  if hw_clock_enabled w then
    match fds w with FdsOpen c => pc_raw c | _ => 0 end + sw_clock w
  else sw_clock w + hw_clock w.
Definition logical_time s (id : Z) : Z := worker_time (worker s id).

(** The counter runs exactly while the clock is enabled, and the cached reading of a
    stopped clock is the counter's. *)
Definition clock_wf (w : worker_args C) : Prop :=
  match fds w with
  | FdsNull => hw_clock_enabled w = false
  | FdsOpen c => pc_running c = hw_clock_enabled w /\
                 (hw_clock_enabled w = false -> hw_clock w = pc_raw c)
  | FdsFreed => hw_clock_enabled w = false
  end.

(** What [disable_logical_clock] and [enable_logical_clock] do to their thread's entry. *)
Definition stop_clock (w : worker_args C) : worker_args C :=
  match fds w with
  | FdsOpen c =>
      if hw_clock_enabled w then
        set_hw_clock_enabled false (set_hw_clock (pc_raw c) (set_fds (FdsOpen (pc_disable c)) w))
      else w
  | _ => w
  end.
Definition start_clock (w : worker_args C) : worker_args C :=
  match fds w with
  | FdsOpen c =>
      if hw_clock_enabled w then w
      else set_fds (FdsOpen (pc_enable c)) (set_hw_clock_enabled true w)
  | _ => w
  end.
Definition tick (n : Z) (w : worker_args C) : worker_args C := set_sw_clock (sw_clock w + n) w.

(** The result of a function that pauses the clock: 0 when it was running. *)
Definition pause_ret (w : worker_args C) : Z := if hw_clock_enabled w then 0 else -1.
End Logical.

(** ** Equality up to the statistics and the debug log *)

Record sim {C} (s1 s2 : rt C) : Prop := {
  sim_worker i : worker s1 i = worker s2 i;
  sim_tls i : tlsv s1 i = tlsv s2 i;
  sim_mutex a : mutex s1 a = mutex s2 a;
  sim_cond a : cond s1 a = cond s2 a;
  sim_barrier b : barrier s1 b = barrier s2 b;
  sim_uvar x : uvar s1 x = uvar s2 x;
  sim_glob : glob s1 = glob s2;
  sim_pth : pth s1 = pth s2
}.
Infix "≈" := sim (at level 70) : m_scope.

#[export] Instance sim_equiv {C} : Equivalence (@sim C).
Proof.
  split.
  - intros s. by constructor.
  - intros s1 s2 []. constructor; intros; symmetry; auto.
  - intros s1 s2 s3 [] []. constructor; intros; etrans; eauto.
Qed.

Ltac solve_sim_proper :=
  intros; subst;
  match goal with
  | E : ?s1 ≈ ?s2 |- _ => destruct E; constructor; intros; repeat rt_frame;
      rewrite ?worker_upd, ?tlsv_upd, ?mutex_upd, ?cond_upd, ?barrier_upd, ?uvar_upd; repeat case_decide; eauto
  end; f_equal; eauto.

#[export] Instance upd_worker_proper {C} i f : Proper (sim ==> sim) (@upd_worker C i f).
Proof. intros ? ?; solve_sim_proper. Qed.
#[export] Instance upd_tlsv_proper {C} i f : Proper (sim ==> sim) (@upd_tlsv C i f).
Proof. intros ? ?; solve_sim_proper. Qed.
#[export] Instance upd_mutex_proper {C} i f : Proper (sim ==> sim) (@upd_mutex C i f).
Proof. intros ? ?; solve_sim_proper. Qed.
#[export] Instance upd_cond_proper {C} i f : Proper (sim ==> sim) (@upd_cond C i f).
Proof. intros ? ?; solve_sim_proper. Qed.
#[export] Instance upd_barrier_proper {C} i f : Proper (sim ==> sim) (@upd_barrier C i f).
Proof. intros ? ?; solve_sim_proper. Qed.
#[export] Instance upd_uvar_proper {C} i f : Proper (sim ==> sim) (@upd_uvar C i f).
Proof. intros ? ?; solve_sim_proper. Qed.
#[export] Instance upd_glob_proper {C} f : Proper (sim ==> sim) (@upd_glob C f).
Proof. intros ? ?; solve_sim_proper. Qed.
#[export] Instance upd_pth_proper {C} f : Proper (sim ==> sim) (@upd_pth C f).
Proof. intros ? ?; solve_sim_proper. Qed.

Lemma upd_statv_sim {C} i f (s : rt C) : upd_statv i f s ≈ s.
Proof. by constructor. Qed.
Lemma add_log_sim {C} l (s : rt C) : add_log l s ≈ s.
Proof. by constructor. Qed.
Lemma upd_worker_ext {C} i f g (s : rt C) :
  f (worker s i) = g (worker s i) -> upd_worker i f s ≈ upd_worker i g s.
Proof.
  intros E. constructor; intros; repeat rt_frame; rewrite ?worker_upd; repeat case_decide; done.
Qed.
Lemma upd_worker_id {C} i f (s : rt C) : f (worker s i) = worker s i -> upd_worker i f s ≈ s.
Proof.
  intros E. constructor; intros; repeat rt_frame; rewrite ?worker_upd; repeat case_decide;
    subst; done.
Qed.
Lemma upd_mutex_ext {C} i f g (s : rt C) :
  f (mutex s i) = g (mutex s i) -> upd_mutex i f s ≈ upd_mutex i g s.
Proof.
  intros E. constructor; intros; repeat rt_frame; rewrite ?mutex_upd; repeat case_decide; done.
Qed.
#[export] Hint Resolve upd_statv_sim add_log_sim : dp.

(** [returns m s a s0]: from [s], [m] answers [a] in a state equal to [s0] up to the
    statistics and the log; [finishes] says the same of a program that nobody interrupts. *)
Definition returns {C A} (m : M C A) (s : rt C) (a : A) (s0 : rt C) : Prop :=
  exists s', m s = Ok a s' /\ s' ≈ s0.
Definition finishes {C A} (n : nat) (p : prog C A) (s : rt C) (a : A) (s0 : rt C) : Prop :=
  exists s', run n p s = Done a s' /\ s' ≈ s0.

#[export] Instance returns_proper {C A} (m : M C A) s a :
  Proper (sim ==> iff) (returns m s a).
Proof.
  intros s1 s2 E. unfold returns. split; intros (s' & ? & E'); exists s'; split; try done.
  - by rewrite E', E.
  - by rewrite E', E.
Qed.
#[export] Instance finishes_proper {C A} n (p : prog C A) s a :
  Proper (sim ==> iff) (finishes n p s a).
Proof.
  intros s1 s2 E. unfold finishes. split; intros (s' & ? & E'); exists s'; split; try done.
  - by rewrite E', E.
  - by rewrite E', E.
Qed.

Section Rules.
Context {C : Type}.
Implicit Types s : rt C.

Lemma returns_ret {A} (a : A) s : returns (mret a) s a s.
Proof. by exists s. Qed.
Lemma returns_gets {A} (f : rt C -> A) s : returns (gets f) s (f s) s.
Proof. by exists s. Qed.
Lemma returns_modify f s : returns (modify f) s tt (f s).
Proof. by exists (f s). Qed.
Lemma returns_bind {A B} (m : M C A) (k : A -> M C B) s a s1 b s2 :
  returns m s a s1 -> (forall s1', s1' ≈ s1 -> returns (k a) s1' b s2) ->
  returns (mbind m k) s b s2.
Proof. intros (s' & E & Hs) Hk. unfold returns, mbind. rewrite E. by apply Hk. Qed.

Lemma returns_gets_bind {A B} (f : rt C -> A) (k : A -> M C B) s b s2 :
  returns (k (f s)) s b s2 -> returns (mbind (gets f) k) s b s2.
Proof. done. Qed.
Lemma returns_modify_bind {B} f (k : unit -> M C B) s b s2 :
  returns (k tt) (f s) b s2 -> returns (mbind (modify f) k) s b s2.
Proof. done. Qed.
Lemma returns_ret_sim {A} (a : A) s s0 : s ≈ s0 -> returns (mret a) s a s0.
Proof. by exists s. Qed.

Lemma finishes_ret {A} n (a : A) s : finishes n (Ret a) s a s.
Proof. by exists s. Qed.
Lemma finishes_act {A} n (m : M C A) s a s0 : returns m s a s0 -> finishes n (Act m) s a s0.
Proof. intros (s' & E & ?). exists s'. simpl. by rewrite E. Qed.
Lemma finishes_bind {A B} n (p : prog C A) (k : A -> prog C B) s a s1 b s2 :
  finishes n p s a s1 -> (forall s1', s1' ≈ s1 -> finishes n (k a) s1' b s2) ->
  finishes n (Bind p k) s b s2.
Proof. intros (s' & E & Hs) Hk. unfold finishes. simpl. rewrite E. by apply Hk. Qed.
Lemma finishes_mono {A} n m (p : prog C A) s a s0 :
  (n <= m)%nat -> finishes n p s a s0 -> finishes m p s a s0.
Proof. intros ? (s' & E & ?). exists s'. split; [by eapply run_mono|done]. Qed.

(** One turn of a loop that goes on, and the last one. The body runs with the fuel of the
    whole loop. *)
Definition loops {A B} (n k : nat) (body : A -> prog C (A + B)) x s b s0 : Prop :=
  exists s', run_loop (fun x => run n (body x)) k x s = Done b s' /\ s' ≈ s0.
Lemma finishes_loop {A B} n (body : A -> prog C (A + B)) x s b s0 :
  loops n n body x s b s0 -> finishes n (Loop body x) s b s0.
Proof. done. Qed.
Lemma loops_next {A B} n k (body : A -> prog C (A + B)) x s x' s1 b s2 :
  finishes n (body x) s (inl x') s1 ->
  (forall s1', s1' ≈ s1 -> loops n k body x' s1' b s2) -> loops n (S k) body x s b s2.
Proof. intros (s' & E & Hs) Hk. unfold loops. simpl. rewrite E. simpl. by apply Hk. Qed.
Lemma loops_last {A B} n k (body : A -> prog C (A + B)) x s b s1 :
  finishes n (body x) s (inr b) s1 -> loops n (S k) body x s b s1.
Proof. intros (s' & E & Hs). unfold loops. simpl. rewrite E. simpl. by exists s'. Qed.
End Rules.

(** Rewrites reads of a state into reads of an equal one. *)
Ltac sim_rw E :=
  rewrite ?(sim_worker _ _ E), ?(sim_tls _ _ E), ?(sim_mutex _ _ E), ?(sim_cond _ _ E),
    ?(sim_barrier _ _ E), ?(sim_uvar _ _ E), ?(sim_glob _ _ E), ?(sim_pth _ _ E).

(** The effects that no later code reads. *)
Ltac drop_obs E := rewrite ?upd_statv_sim, ?add_log_sim in E.

(** Runs the first command of a [returns] goal with [tac]; [s'] names the state after it
    and [E] says what it is. A state known by [E0] is replaced in [E]. *)
Ltac mrun_ tac s' E :=
  eapply returns_bind; [tac|]; intros s' E; cbv beta in E; drop_obs E.
Ltac mget := repeat (apply returns_gets_bind; cbv beta).
Tactic Notation "mrun" tactic3(tac) "as" ident(s') ident(E) := mrun_ tac s' E.
Tactic Notation "mrun" tactic3(tac) "from" hyp(E0) "as" ident(s') ident(E) :=
  mrun_ tac s' E; rewrite E0 in E; drop_obs E.

(** ** Behaviour of the clock operations *)

Section Specs.
Context {C : Type} `{HC : PerfCounter C} `{!PerfCounterLaws C}.
Implicit Types (s : rt C) (w : worker_args C).

Lemma stop_clock_wf w : clock_wf w -> clock_wf (stop_clock w).
Proof.
  unfold clock_wf, stop_clock. destruct (fds w) as [|c|] eqn:E; [try (by rewrite E); done| |try (by rewrite E); done].
  intros [Hr Hv]. destruct (hw_clock_enabled w) eqn:En; simpl; [|by rewrite E, En].
  by rewrite pc_disable_running, pc_disable_raw.
Qed.

Lemma start_clock_wf w : clock_wf w -> clock_wf (start_clock w).
Proof.
  unfold clock_wf, start_clock. destruct (fds w) as [|c|] eqn:E; [try (by rewrite E); done| |try (by rewrite E); done].
  intros [Hr Hv]. destruct (hw_clock_enabled w) eqn:En; simpl; [by rewrite E, En|].
  by rewrite pc_enable_running.
Qed.

Lemma tick_wf n w : clock_wf w -> clock_wf (tick n w).
Proof. done. Qed.

Lemma stop_clock_time w : worker_time (stop_clock w) = worker_time w.
Proof.
  unfold worker_time, stop_clock. destruct (fds w) as [|c|] eqn:E; [try (by rewrite E); done| |try (by rewrite E); done].
  destruct (hw_clock_enabled w) eqn:En; simpl; [lia|]. by rewrite En.
Qed.

Lemma start_clock_time w : clock_wf w -> worker_time (start_clock w) = worker_time w.
Proof.
  unfold clock_wf, worker_time, start_clock.
  destruct (fds w) as [|c|] eqn:E; [try (by rewrite E); done| |try (by rewrite E); done].
  intros [Hr Hv]. destruct (hw_clock_enabled w) eqn:En; simpl; [by rewrite E, En|].
  rewrite pc_enable_raw, Hv by done. lia.
Qed.

Lemma tick_time n w : worker_time (tick n w) = worker_time w + n.
Proof. unfold worker_time, tick. simpl. destruct (hw_clock_enabled w); lia. Qed.

Lemma stop_clock_stopped w : clock_wf w -> hw_clock_enabled (stop_clock w) = false.
Proof.
  unfold clock_wf, stop_clock. destruct (fds w); [done| |done].
  intros _. by destruct (hw_clock_enabled w) eqn:E.
Qed.

Lemma stop_clock_fds w : fds w <> FdsFreed -> fds (stop_clock w) <> FdsFreed.
Proof. unfold stop_clock. destruct (fds w) eqn:E; try congruence. destruct (hw_clock_enabled w); simpl; congruence. Qed.

Lemma stop_clock_sw w : sw_clock (stop_clock w) = sw_clock w.
Proof. unfold stop_clock. destruct (fds w); try done. by destruct (hw_clock_enabled w). Qed.

Lemma stopped_time w : hw_clock_enabled w = false -> worker_time w = sw_clock w + hw_clock w.
Proof. unfold worker_time. by intros ->. Qed.

(** A paused clock is resumed exactly when it was running, with its time unchanged. *)
Lemma restart_time w n : clock_wf w ->
  worker_time (start_clock (tick n (stop_clock w))) = worker_time w + n.
Proof.
  intros. rewrite start_clock_time, tick_time, stop_clock_time; [done|].
  by apply tick_wf, stop_clock_wf.
Qed.

Lemma restart_enabled w n : clock_wf w -> hw_clock_enabled w = true ->
  hw_clock_enabled (start_clock (tick n (stop_clock w))) = true.
Proof.
  unfold clock_wf, start_clock, tick, stop_clock. destruct (fds w) eqn:E; try congruence.
  intros _ Hen. rewrite Hen. done.
Qed.

Lemma DBG_returns me level f a s : hw_clock_enabled (worker s me) = false ->
  returns (DBG me level f a) s tt s.
Proof.
  intros E. unfold DBG. mget. rewrite E. mrun (apply returns_ret) as s1 E1. mget.
  unfold mwhen. destruct (level <=? _); [|by apply returns_ret_sim].
  eexists. split; [done|]. by rewrite add_log_sim.
Qed.

Lemma read_count_returns me c s : returns (read_count me (FdsOpen c)) s (pc_raw c) s.
Proof.
  unfold returns, read_count, __read_count, pc_raw. pose proof (pc_pinned c) as E.
  destruct (pc_values c) as [[v0 v1] v2]. simpl in *. subst.
  rewrite Z.eqb_refl. simpl. by exists s.
Qed.

Lemma get_logical_clock_returns me id s :
  hw_clock_enabled (worker s me) = false -> clock_wf (worker s id) ->
  returns (get_logical_clock me id) s (logical_time s id) s.
Proof.
  intros Hme Hwf. unfold get_logical_clock, logical_time, worker_time, GET_CLOCK. mget.
  destruct (hw_clock_enabled (worker s id)) eqn:E; simpl.
  - unfold clock_wf in Hwf. destruct (fds (worker s id)) as [|c|] eqn:Ef; try congruence.
    mrun (apply read_count_returns) as s1 E1. mget. apply returns_modify_bind.
    sim_rw E1. apply returns_ret_sim. by rewrite upd_statv_sim.
  - mget. mrun (by apply DBG_returns) as s1 E1. apply returns_modify_bind.
    apply returns_ret_sim. by rewrite upd_statv_sim.
Qed.

Lemma stop_clock_id w : hw_clock_enabled w = false -> stop_clock w = w.
Proof. unfold stop_clock. destruct (fds w); [done| |done]. by intros ->. Qed.

Lemma disable_returns me s : clock_wf (worker s me) ->
  returns (disable_logical_clock me) s (pause_ret (worker s me)) (upd_worker me stop_clock s).
Proof.
  intros Hwf. unfold disable_logical_clock, pause_ret. mget.
  destruct (hw_clock_enabled (worker s me)) eqn:E; simpl; last first.
  { destruct (fds_null _); apply returns_ret_sim; symmetry; by apply upd_worker_id, stop_clock_id. }
  unfold clock_wf in Hwf. destruct (fds (worker s me)) as [|c|] eqn:Ef; try congruence. simpl.
  unfold disable_performance_counter, on_counter.
  mrun (mget; rewrite Ef; apply returns_modify_bind, returns_ret) as s1 E1. mget.
  sim_rw E1. rt_simpl. mrun (apply read_count_returns) from E1 as s2 E2.
  do 2 apply returns_modify_bind.
  mrun (apply DBG_returns; by rt_simpl) as s3 E3. apply returns_modify_bind, returns_ret_sim.
  rewrite upd_statv_sim, E3, E2, !worker_upd_upd. apply upd_worker_ext.
  unfold stop_clock. by rewrite Ef, E, pc_disable_raw.
Qed.

Definition enable_ret w : Z :=
  match fds w with FdsOpen _ => if hw_clock_enabled w then -1 else 0 | _ => -1 end.

Lemma start_clock_id w : hw_clock_enabled w = true -> start_clock w = w.
Proof. unfold start_clock. destruct (fds w); [done| |done]. by intros ->. Qed.

Lemma enable_returns me s : fds (worker s me) <> FdsFreed ->
  returns (enable_logical_clock me) s (enable_ret (worker s me)) (upd_worker me start_clock s).
Proof.
  intros Hf. unfold enable_logical_clock, enable_ret. mget.
  destruct (fds (worker s me)) as [|c|] eqn:Ef; [| |done]; simpl.
  { apply returns_ret_sim. symmetry. apply upd_worker_id. unfold start_clock. by rewrite Ef. }
  destruct (hw_clock_enabled (worker s me)) eqn:E.
  { apply returns_ret_sim. symmetry. by apply upd_worker_id, start_clock_id. }
  mrun (by apply DBG_returns) as s1 E1. apply returns_modify_bind.
  unfold enable_performance_counter, on_counter.
  mrun (mget; rt_simpl; sim_rw E1; rewrite Ef; apply returns_modify_bind, returns_ret) as s2 E2.
  apply returns_modify_bind, returns_ret_sim.
  rewrite upd_statv_sim, E2, E1, !worker_upd_upd. apply upd_worker_ext.
  unfold start_clock. by rewrite Ef, E.
Qed.

Lemma resume_returns me lret s : fds (worker s me) <> FdsFreed ->
  returns (resume_logical_clock me lret) s tt
    (if lret =? 0 then upd_worker me start_clock s else s).
Proof.
  intros Hf. unfold resume_logical_clock. destruct (lret =? 0); [|apply returns_ret].
  mrun (by apply enable_returns) as s1 E1. by apply returns_ret_sim.
Qed.

Lemma det_is_enabled_returns me s :
  returns (det_is_enabled me) s ((1 <? num_thr (glob s)) && my_det_enabled (tlsv s me)) s.
Proof.
  unfold det_is_enabled. mget. rewrite Z.ltb_antisym.
  destruct (num_thr (glob s) <=? 1); simpl; [apply returns_ret|apply (returns_gets (fun s => my_det_enabled (tlsv s me)))].
Qed.
End Specs.
