(* ===== verification/Sync.v ===== *)
(** Waiting for the turn, and the mutexes, condition variables and barriers of
    [src/src/dpthread.c] built on it. Every [Act] is one statement (or one library call)
    of the code; other threads may run between two of them. *)
From stdpp Require Import base list gmap strings.
From Stdlib Require Import ZArith Lia.
From S2P Require Import Prelude Queue Runtime Clock.
Open Scope m_scope.
Open Scope prog_scope.

(** What the operations take from the process environment. *)
Record env := mkEnv {
  e_nproc : Z;                    (** [sysconf(_SC_NPROCESSORS_CONF)] *)
  e_debug : option Z;             (** [DPTHREAD_DEBUG] *)
  e_pfm_ok : bool;                (** [pfm_initialize() == PFM_SUCCESS] *)
  e_open_ok : Z -> bool;          (** the counter of thread [i] can be opened *)
  e_block : addr -> list Z;       (** contents of a block [malloc] returns *)
  e_new_tid : Z -> Z;             (** the [pthread_t] given to worker [i] *)
  e_create_ok : Z -> bool         (** [pthread_create] succeeds for worker [i] *)
}.

Section Sync.
Context {C : Type} `{PerfCounter C}.
Variable E : env.
Variable me : Z.

(** *** [pthread_mutex_t] *)

Definition blocked {A} : M C A := fun _ => Blocked.

Definition pthread_mutex_lock (a : addr) : M C Z :=
  m <- gets (fun s => mutex s a) ;;
  match m_holder m with
  | Some _ => blocked
  | None => modify (upd_mutex a (set_m_holder (Some me))) ;;; mret 0
  end.

Definition pthread_mutex_trylock (a : addr) : M C Z :=
  m <- gets (fun s => mutex s a) ;;
  match m_holder m with
  | Some _ => mret EBUSY
  | None => modify (upd_mutex a (set_m_holder (Some me))) ;;; mret 0
  end.

Definition pthread_mutex_unlock (a : addr) : M C Z :=
  modify (upd_mutex a (set_m_holder None)) ;;; mret 0.

(** The mutex of [cond->waiter[i]], used as a binary semaphore. *)
Definition waiter_of (c : det_cond) (i : Z) : det_mutex := default mutex0 (waiter c !! i).
Definition upd_waiter (i : Z) (f : det_mutex -> det_mutex) (c : det_cond) : det_cond :=
  set_waiter (<[i := f (waiter_of c i)]> (waiter c)) c.

Definition waiter_lock (a : addr) (i : Z) : M C Z :=
  c <- gets (fun s => cond s a) ;;
  match m_holder (waiter_of c i) with
  | Some _ => blocked
  | None => modify (upd_cond a (upd_waiter i (set_m_holder (Some me)))) ;;; mret 0
  end.

Definition waiter_unlock (a : addr) (i : Z) : M C Z :=
  modify (upd_cond a (upd_waiter i (set_m_holder None))) ;;; mret 0.

(** *** The turn *)

(** The scan of [wait_for_turn]: [k] threads still to look at, the next being the
    [i]-th after [me]. [false] is the [goto retry]. *)
Fixpoint scan (my_clock nthreads i : Z) (k : nat) : prog C bool :=
  match k with
  | O => Ret true
  | S k =>
      let id := Z.rem (me + i) nthreads in
      other_clock <~ Act (get_logical_clock me id) ;;
      if (other_clock <? my_clock) || ((other_clock =? my_clock) && (id <? me))
      then Ret false
      else scan my_clock nthreads (i + 1) k
  end.

Definition wait_body (my_clock : Z) (_ : unit) : prog C (unit + Z) :=
  nthreads <~ Act (gets (fun s => max_thr (glob s))) ;;
  ok <~ scan my_clock nthreads 1 (Z.to_nat (nthreads - 1)) ;;
  if negb ok then Ret (inl tt)
  else
    mt <~ Act (gets (fun s => max_thr (glob s))) ;;
    if negb (mt =? nthreads) then
      Act (DBG me 3 "thread are changed to %d" [mt]) ;~
      Ret (inl tt)
    else
      Act (DBG me 2 "return from wait_for_turn" []) ;~
      Act (modify (upd_statv me (fun t => set_wait_turn_cnt (wait_turn_cnt t + 1) t))) ;~
      Ret (inr my_clock).

Definition wait_for_turn : prog C Z :=
  mt <~ Act (gets (fun s => max_thr (glob s))) ;;
  if mt =? 0 then Ret 0
  else
    Act (w <- gets (fun s => worker s me) ;;
         massert (negb (hw_clock_enabled w)) "wait_for_turn: hw_clock_enabled") ;~
    my_clock <~ Act (get_logical_clock me me) ;;
    Loop (wait_body my_clock) tt.

(** *** Initialisation *)

(** The counter of thread [i]: its events are set up, and it is opened stopped. *)
Definition open_pfm_counter (i : Z) : M C Z :=
  DBG i 2 "open pfm counter" [] ;;;
  massert (e_open_ok E i) "cannot attach event" ;;;
  modify (upd_worker i (set_fds (FdsOpen pc_open))) ;;;
  mret 0.

Definition det_init : M C Z :=
  modify (upd_glob (set_num_processors (e_nproc E))) ;;;
  massert (0 <? e_nproc E) "det_init: num_processors" ;;;
  match e_debug E with
  | Some n => modify (upd_glob (set_debug_level n))
  | None => mret tt
  end ;;;
  massert (e_pfm_ok E) "pfm_initialize failed" ;;;
  modify (set_wa ∅) ;;;
  mt <- gets (fun s => max_thr (glob s)) ;;
  massert (mt =? 0) "det_init: max_thr" ;;;
  modify (upd_tlsv 0 (fun _ => mkTls 0 true)) ;;;
  modify (upd_glob (fun g => set_max_thr 1 (set_num_thr 1 g))) ;;;
  modify (upd_worker 0 (fun w =>
    set_log_file true (set_hw_clock_enabled false (set_hw_clock 0 (set_sw_clock 0
      (set_arg 0 (set_func 0 (set_w_id 0 w)))))))) ;;;
  open_pfm_counter 0 ;;;
  dl <- gets (fun s => debug_level (glob s)) ;;
  DBG 0 1 "INIT: debug_level=%d. event begin " [dl] ;;;
  mret 0.

(** [if ( max_thr == 0 ) det_init(0, NULL);] *)
Definition ensure_init : M C unit :=
  mt <- gets (fun s => max_thr (glob s)) ;;
  mwhen (mt =? 0) (det_init ;;; mret tt).

Definition det_lock_init (a : addr) : M C Z :=
  ensure_init ;;;
  lret <- disable_logical_clock me ;;
  modify (upd_mutex a (set_m_queue (Queue.InitQ (e_block E a) MAX_THR))) ;;;
  modify (upd_glob (fun g => set_g_lock_count (g_lock_count g + 1) g)) ;;;
  id <- gets (fun s => g_lock_count (glob s)) ;;
  modify (upd_mutex a (fun m =>
    set_ref 0 (set_owner (-1) (set_released_logical_time 0 (set_m_id id m))))) ;;;
  DBG me 1 "mutex_init(%d)" [id] ;;;
  modify (upd_mutex a (set_m_holder None)) ;;;
  resume_logical_clock me lret ;;;
  mret 0.

(** *** Queues of waiting threads *)

Definition mutex_AddQ (a : addr) : M C Z :=
  m <- gets (fun s => mutex s a) ;;
  r <- of_option (Queue.AddQ (m_queue m) me) "AddQ" ;;
  modify (upd_mutex a (set_m_queue (snd r))) ;;;
  mret (fst r).

Definition mutex_GetHeadQ (a : addr) : M C Z :=
  m <- gets (fun s => mutex s a) ;;
  of_option (Queue.GetHeadQ 0 (m_queue m)) "GetHeadQ".

Definition mutex_DelQ (a : addr) : M C Z :=
  m <- gets (fun s => mutex s a) ;;
  r <- of_option (Queue.DelQ 0 (m_queue m)) "DelQ" ;;
  modify (upd_mutex a (set_m_queue (snd r))) ;;;
  mret (fst r).

Definition assert_time : M C unit :=
  c <- gets (fun s => GET_CLOCK s me) ;;
  massert (c <? MAX_LOGICAL_CLOCK) "clock reached MAX_LOGICAL_CLOCK".

Definition update_last_sync : M C unit :=
  modify (fun s => upd_glob (set_last_sync_logical_time (GET_CLOCK s me)) s).

Definition count_lock : M C unit :=
  modify (upd_statv me (fun t => set_lock_count (lock_count t + 1) t)).

(** *** Mutexes *)

(** The body of the [while ( 1 )] of [det_lock] up to the [break]. *)
Definition lock_attempt (a : addr) (clock : Z) : prog C bool :=
  h <~ Act (mutex_GetHeadQ a) ;;
  if negb (h =? me) then Ret false
  else
    r <~ Act (pthread_mutex_trylock a) ;;
    if negb (r =? 0) then Ret false
    else
      last_release <~ Act (gets (fun s => released_logical_time (mutex s a))) ;;
      Act (DBG me 3 "--trylock" []) ;~
      if clock <=? last_release then
        Act (DBG me 3 "--case2: released at %lld" [last_release]) ;~
        Act (pthread_mutex_unlock a) ;~
        Ret false
      else
        sw <~ Act (gets (fun s => sw_clock (worker s me))) ;;
        Act (DBG me 3 "got it. sw_clock = %lld" [sw]) ;~
        Act (modify (upd_mutex a (set_owner me))) ;~
        Act (modify (upd_mutex a (set_ref 1))) ;~
        Ret true.

Definition lock_body (a : addr) (clock : Z) : prog C (Z + unit) :=
  got <~ lock_attempt a clock ;;
  if got : bool then Ret (inr tt)
  else
    Act (assert_time) ;~
    Act (DBG me 1 "--spinning" []) ;~
    Act (incr_sw_clock me 1) ;~
    clock' <~ wait_for_turn ;;
    Ret (inl clock').

(** The part of [det_lock] a thread that already owns the mutex jumps over. *)
Definition lock_acquire (a : addr) (id : Z) : prog C unit :=
  Act (DBG me 1 "acq(%d) - enter" [id]) ;~
  clock <~ wait_for_turn ;;
  Act (mutex_AddQ a) ;~
  Loop (lock_body a) clock ;~
  Act (assert_time) ;~
  Act (DBG me 1 "acq(%d)" [id]) ;~
  Act (update_last_sync) ;~
  Act (mutex_DelQ a) ;~
  Ret tt.

Definition det_lock (a : addr) : prog C Z :=
  id0 <~ Act (gets (fun s => m_id (mutex s a))) ;;
  when (id0 <? 0) (Act (det_lock_init a) ;~ Ret tt) ;~
  id <~ Act (gets (fun s => m_id (mutex s a))) ;;
  Act (massert (0 <? id) "det_lock: mutex->id") ;~
  e <~ Act (det_is_enabled me) ;;
  if negb e then Act (pthread_mutex_lock a)
  else
    lret <~ Act (disable_logical_clock me) ;;
    m <~ Act (gets (fun s => mutex s a)) ;;
    (if (0 <? ref m) && (owner m =? me)
     then Act (modify (upd_mutex a (fun m => set_ref (ref m + 1) m)))
     else lock_acquire a id) ;~
    Act (incr_sw_clock me 1) ;~
    Act (resume_logical_clock me lret) ;~
    Act (count_lock) ;~
    Ret 0.

(** [ret] of [det_trylock] after its attempt; it stays 0 when the thread is not at the
    head of the queue. *)
Definition trylock_attempt (a : addr) (clock : Z) : prog C Z :=
  h <~ Act (mutex_GetHeadQ a) ;;
  if negb (h =? me) then Ret 0
  else
    r <~ Act (pthread_mutex_trylock a) ;;
    if negb (r =? 0) then Ret r
    else
      last_release <~ Act (gets (fun s => released_logical_time (mutex s a))) ;;
      Act (DBG me 3 "--trylock" []) ;~
      if clock <=? last_release then
        Act (DBG me 3 "--case2: released at %lld" [last_release]) ;~
        Act (pthread_mutex_unlock a) ;~
        Ret EBUSY
      else
        Act (modify (upd_mutex a (set_owner me))) ;~
        Act (modify (upd_mutex a (set_ref 1))) ;~
        Ret 0.

Definition trylock_acquire (a : addr) (id : Z) : prog C Z :=
  clock <~ wait_for_turn ;;
  Act (mutex_AddQ a) ;~
  ret <~ trylock_attempt a clock ;;
  Act (assert_time) ;~
  Act (update_last_sync) ;~
  if ret =? 0 then
    Act (DBG me 1 "trylock acq(%d)" [id]) ;~
    Act (count_lock) ;~
    Act (mutex_DelQ a) ;~
    Ret ret
  else
    Act (DBG me 1 "trylock fail(%d)" [id]) ;~
    Ret ret.

Definition det_trylock (a : addr) : prog C Z :=
  id <~ Act (gets (fun s => m_id (mutex s a))) ;;
  Act (massert (0 <? id) "det_trylock: mutex->id") ;~
  e <~ Act (det_is_enabled me) ;;
  if negb e then Act (pthread_mutex_lock a)
  else
    lret <~ Act (disable_logical_clock me) ;;
    Act (DBG me 1 "trylock(%d)" [id]) ;~
    m <~ Act (gets (fun s => mutex s a)) ;;
    ret <~ (if (0 <? ref m) && (owner m =? me)
            then Act (modify (upd_mutex a (fun m => set_ref (ref m + 1) m))) ;~ Ret 0
            else trylock_acquire a id) ;;
    Act (incr_sw_clock me 1) ;~
    Act (resume_logical_clock me lret) ;~
    Ret ret.

Definition det_unlock_and_incr_clock (a : addr) (incr : Z) : prog C Z :=
  id <~ Act (gets (fun s => m_id (mutex s a))) ;;
  Act (massert (0 <? id) "det_unlock: mutex->id") ;~
  e <~ Act (det_is_enabled me) ;;
  if negb e then Act (pthread_mutex_unlock a)
  else
    mt <~ Act (gets (fun s => max_thr (glob s))) ;;
    Act (massert (0 <? mt) "det_unlock: max_thr") ;~
    lret <~ Act (disable_logical_clock me) ;;
    Act (modify (upd_mutex a (fun m => set_ref (ref m - 1) m))) ;~
    r <~ Act (gets (fun s => ref (mutex s a))) ;;
    ret <~ (if 0 <? r then Ret 0
            else
              Act (modify (upd_mutex a (set_owner (-1)))) ;~
              t <~ Act (get_logical_clock me me) ;;
              Act (modify (upd_mutex a (set_released_logical_time t))) ;~
              Act (DBG me 1 "rel(%d)" [id]) ;~
              Act (update_last_sync) ;~
              Act (pthread_mutex_unlock a)) ;;
    Act (incr_sw_clock me incr) ;~
    Act (resume_logical_clock me lret) ;~
    Ret ret.

Definition det_unlock (a : addr) : prog C Z := det_unlock_and_incr_clock a 1.

(** *** Condition variables *)

(** [cond->waiter[i].id = i], then the mutex is initialised and locked. *)
Definition init_waiters : gmap Z det_mutex :=
  list_to_map ((fun i => (Z.of_nat i, set_m_holder (Some me) (set_m_id (Z.of_nat i) mutex0)))
                 <$> seq 0 (Z.to_nat MAX_THR)).

Definition det_cond_init (a : addr) : M C Z :=
  (ensure_init ;;;
   lret <- disable_logical_clock me ;;
   modify (upd_cond a (fun c =>
     set_waiter init_waiters (set_c_queue (Queue.InitQ (e_block E a) MAX_THR) c))) ;;;
   modify (upd_glob (fun g => set_g_cond_count (g_cond_count g + 1) g)) ;;;
   id <- gets (fun s => g_cond_count (glob s)) ;;
   modify (upd_cond a (set_c_id id)) ;;;
   DBG me 1 "cond_init(%d)" [id] ;;;
   resume_logical_clock me lret ;;;
   mret 0)%M.

(** [NULL] of the queue of a condition variable: no waiter has this number. *)
Definition NO_WAITER : Z := -1.

Definition cond_AddQ (a : addr) (i : Z) : M C Z :=
  (c <- gets (fun s => cond s a) ;;
   r <- of_option (Queue.AddQ (c_queue c) i) "AddQ" ;;
   modify (upd_cond a (set_c_queue (snd r))) ;;;
   mret (fst r))%M.

Definition cond_DelQ (a : addr) : M C Z :=
  (c <- gets (fun s => cond s a) ;;
   r <- of_option (Queue.DelQ NO_WAITER (c_queue c)) "DelQ" ;;
   modify (upd_cond a (set_c_queue (snd r))) ;;;
   mret (fst r))%M.

Definition det_cond_wait (c a : addr) : prog C Z :=
  lret <~ Act (disable_logical_clock me) ;;
  cid <~ Act (gets (fun s => c_id (cond s c))) ;;
  Act (DBG me 1 "cond(%d) wait enter" [cid]) ;~
  Act (cond_AddQ c me) ;~
  det_unlock_and_incr_clock a MAX_LOGICAL_CLOCK ;~
  Act (waiter_lock c me) ;~
  Act (assert_time) ;~
  Act (DBG me 1 "cond(%d) wait leave" [cid]) ;~
  Act (resume_logical_clock me lret) ;~
  det_lock a ;~
  Ret 0.

Definition det_cond_signal (c : addr) : prog C Z :=
  lret <~ Act (disable_logical_clock me) ;;
  clock <~ Act (get_logical_clock me me) ;;
  Act (massert (clock <? MAX_LOGICAL_CLOCK) "det_cond_signal: clock") ;~
  empty <~ Act (gets (fun s => Queue.IsEmptyQ (c_queue (cond s c)))) ;;
  when (empty =? 0)
    (lock <~ Act (cond_DelQ c) ;;
     id <~ Act (gets (fun s => m_id (waiter_of (cond s c) lock))) ;;
     Act (modify (SET_CLOCK id clock)) ;~
     Act (waiter_unlock c lock) ;~
     cid <~ Act (gets (fun s => c_id (cond s c))) ;;
     Act (DBG me 1 "cond(%d) signal to %d" [cid; lock])) ;~
  Act (incr_sw_clock me 1) ;~
  Act (resume_logical_clock me lret) ;~
  Ret 0.

Definition broadcast_body (c : addr) (_ : unit) : prog C (unit + unit) :=
  empty <~ Act (gets (fun s => Queue.IsEmptyQ (c_queue (cond s c)))) ;;
  if empty =? 0 then det_cond_signal c ;~ Ret (inl tt) else Ret (inr tt).

Definition det_cond_broadcast (c : addr) : prog C Z :=
  lret <~ Act (disable_logical_clock me) ;;
  Loop (broadcast_body c) tt ;~
  Act (resume_logical_clock me lret) ;~
  Ret 0.

(** *** Barriers *)

Definition det_barrier_init (b count : Z) : M C Z :=
  (ensure_init ;;;
   modify (upd_barrier b (fun x => set_wait_count 0 (set_target_count count x))) ;;;
   modify (upd_glob (fun g => set_g_barr_count (g_barr_count g + 1) g)) ;;;
   id <- gets (fun s => g_barr_count (glob s)) ;;
   modify (upd_barrier b (set_b_id id)) ;;;
   det_lock_init (ABarrier b) ;;;
   det_cond_init (ABarrier b) ;;;
   nl <- gets (fun s => g_lock_count (glob s)) ;;
   DBG me 1 "lock %d is for barrier" [nl] ;;;
   nc <- gets (fun s => g_cond_count (glob s)) ;;
   DBG me 1 "cond %d is for barrier" [nc] ;;;
   mret 0)%M.

Definition det_barrier_wait (b : Z) : prog C Z :=
  lret <~ Act (disable_logical_clock me) ;;
  bid <~ Act (gets (fun s => b_id (barrier s b))) ;;
  Act (DBG me 1 "barrier(%d) enter" [bid]) ;~
  det_lock (ABarrier b) ;~
  mt <~ Act (gets (fun s => max_thr (glob s))) ;;
  Act (massert (0 <? mt) "det_barrier_wait: max_thr") ;~
  Act (modify (upd_barrier b (fun x => set_wait_count (wait_count x + 1) x))) ;~
  bar <~ Act (gets (fun s => barrier s b)) ;;
  (if wait_count bar =? target_count bar then
     Act (modify (upd_barrier b (set_wait_count 0))) ;~
     det_cond_broadcast (ABarrier b)
   else det_cond_wait (ABarrier b) (ABarrier b)) ;~
  det_unlock (ABarrier b) ;~
  Act (DBG me 1 "barrier(%d) leave" [bid]) ;~
  Act (resume_logical_clock me lret) ;~
  Act (modify (upd_statv me (fun t => set_barrier_count (barrier_count t + 1) t))) ;~
  Ret 0.
End Sync.
