(* ===== verification/Threads.v ===== *)
(** Thread creation, termination and the remaining operations of
    [src/src/dpthread.c], and the interleaved execution of the threads of a process. *)
From stdpp Require Import base list gmap strings.
From Stdlib Require Import ZArith Lia.
From S2P Require Import Prelude Queue Runtime Clock Sync.
Open Scope m_scope.
Open Scope prog_scope.

Section Threads.
Context {C : Type} `{PerfCounter C}.
Variable E : env.
(** The functions of the program: [start_routine] and its argument. *)
Variable user : Z -> Z -> prog C unit.

Section Operations.
Variable me : Z.

(** *** The threading library *)

(** The library starts worker [id] when it can; [*thread] receives its identifier. *)
Definition pthread_create (id : Z) : M C Z :=
  if e_create_ok E id
  then modify (upd_pth (fun p => set_spawned (spawned p ++ [id]) p)) ;;; mret 0
  else mret 11.

Definition pthread_join (tid : Z) : M C Z :=
  ex <- gets (fun s => exited (pth s)) ;;
  if bool_decide (tid ∈ ex) then mret 0 else blocked.

Definition pthread_exit : M C unit :=
  modify (fun s => upd_pth (fun p => set_exited (w_tid (worker s me) :: exited p) p) s).

Definition pthread_cancel (tid : Z) : M C Z :=
  modify (upd_pth (fun p => set_cancelled (tid :: cancelled p) p)) ;;; mret 0.

(** *** Termination *)

Definition det_exit : prog C unit :=
  det_lock E me (AThread me) ;~
  Act (modify (upd_worker me (set_finished true))) ;~
  det_cond_signal me (AThread me) ;~
  w <~ Act (gets (fun s => worker s me)) ;;
  det_unlock_and_incr_clock me (AThread me) MAX_LOGICAL_CLOCK ;~
  Act (disable_logical_clock me) ;~
  Act (disable_performance_counter me) ;~
  Act (modify (upd_worker me (set_fds FdsFreed))) ;~
  st <~ Act (gets (fun s => statv s me)) ;;
  nd <~ Act (gets (fun s => nondet_count (worker s me))) ;;
  Act (DBG me 0 "EXIT: (hw_evt:%lld, sw_evt:%lld) ndet_evt:%d, %d locks and %d barriers."
         [hw_clock w; sw_clock w; nd; lock_count st; barrier_count st]) ;~
  Act pthread_exit.

Definition worker_thread : prog C unit :=
  Act (modify (upd_tlsv me (fun _ => mkTls 0 true))) ;~
  np <~ Act (gets (fun s => num_processors (glob s))) ;;
  Act (massert (0 <? np) "worker_thread: num_processors") ;~
  Act (open_pfm_counter E me) ;~
  Act (enable_logical_clock me) ;~
  Act (enable_performance_counter me) ;~
  det_lock E me (AThread me) ;~
  Act (modify (upd_worker me (set_started true))) ;~
  det_cond_signal me (AThread me) ;~
  det_unlock me (AThread me) ;~
  w <~ Act (gets (fun s => worker s me)) ;;
  user (func w) (arg w) ;~
  det_exit.

(** *** Creation *)

(** The entry of the new thread, after [max_thr] and [num_thr] were incremented. *)
Definition init_worker (id start_routine a : Z) : M C unit :=
  modify (upd_worker id (fun w => set_arg a (set_func start_routine (set_w_id id w)))) ;;;
  t <- get_logical_clock me me ;;
  modify (upd_worker id (set_sw_clock (t + 1))) ;;;
  modify (upd_worker id (fun w =>
    set_started false (set_finished false (set_last_exit_logical_time 0 (set_hw_clock 0 w))))).

(** The new thread's number, and its entry: [w->id = max_thr++; num_thr++; ...]. *)
Definition create_entry (start_routine a : Z) : prog C Z :=
  id <~ Act (gets (fun s => max_thr (glob s))) ;;
  Act (massert (id <? MAX_THR) "wa[id]: out of bounds") ;~
  Act (modify (upd_glob (fun g => set_max_thr (max_thr g + 1) g))) ;~
  Act (modify (upd_glob (fun g => set_num_thr (num_thr g + 1) g))) ;~
  Act (init_worker id start_routine a) ;~
  Ret id.

Definition det_create (start_routine a : Z) : prog C Z :=
  Act (ensure_init E) ;~
  n <~ Act (gets (fun s => num_thr (glob s))) ;;
  when (n <=? 1) (Act (enable_logical_clock me) ;~ Ret tt) ;~
  lret <~ Act (disable_logical_clock me) ;;
  mt <~ Act (gets (fun s => max_thr (glob s))) ;;
  Act (DBG me 1 "create thread %d from a child thread %d" [mt; me]) ;~
  wait_for_turn me ;~
  id <~ create_entry start_routine a ;;
  Act (det_lock_init E me (AThread id)) ;~
  Act (det_cond_init E me (AThread id)) ;~
  Act (modify (upd_worker id (set_nondet_count 0))) ;~
  nl <~ Act (gets (fun s => g_lock_count (glob s))) ;;
  Act (DBG me 1 "lock %d is thread %d internal" [nl; id]) ;~
  nc <~ Act (gets (fun s => g_cond_count (glob s))) ;;
  Act (DBG me 1 "cond %d is thread %d internal" [nc; id]) ;~
  w <~ Act (gets (fun s => worker s id)) ;;
  Act (DBG me 2 "Thread %d initial clock = %ld, hw = %d" [id; sw_clock w; hw_clock w]) ;~
  Act (modify (upd_worker id (set_log_file true))) ;~
  Act (pthread_create id) ;~
  Act (modify (upd_worker id (set_w_tid (e_new_tid E id)))) ;~
  det_lock E me (AThread id) ;~
  st <~ Act (gets (fun s => started (worker s id))) ;;
  when (negb st) (det_cond_wait E me (AThread id) (AThread id) ;~ Ret tt) ;~
  det_unlock me (AThread id) ;~
  Act (resume_logical_clock me lret) ;~
  Ret 0.

(** The search for the entry with a given [tid]; [MAX_THR] when there is none. *)
Fixpoint find_tid_from (s : rt C) (tid i : Z) (k : nat) : Z :=
  match k with
  | O => i
  | S k => if w_tid (worker s i) =? tid then i else find_tid_from s tid (i + 1) k
  end.
Definition find_tid (s : rt C) (tid : Z) : Z := find_tid_from s tid 0 (Z.to_nat MAX_THR).

Definition det_join (threadid : Z) : prog C Z :=
  lret <~ Act (disable_logical_clock me) ;;
  i <~ Act (gets (fun s => find_tid s threadid)) ;;
  Act (massert (i <? MAX_THR) "det_join: i < MAX_THR") ;~
  Act (DBG me 1 "JOIN(%d):enter " [i]) ;~
  det_lock E me (AThread i) ;~
  fin <~ Act (gets (fun s => finished (worker s i))) ;;
  when (negb fin) (det_cond_wait E me (AThread i) (AThread i) ;~ Ret tt) ;~
  det_unlock me (AThread i) ;~
  ret <~ Act (pthread_join threadid) ;;
  Act (DBG me 1 "JOIN(%d):exit " [i]) ;~
  Act (modify (upd_glob (fun g => set_num_thr (num_thr g - 1) g))) ;~
  Act (resume_logical_clock me lret) ;~
  n <~ Act (gets (fun s => num_thr (glob s))) ;;
  when (n <=? 1) (Act (disable_logical_clock me) ;~ Ret tt) ;~
  Ret ret.

(** When no entry has [threadid], [w] is the last entry and [i] is [MAX_THR]. *)
Definition det_cancel (threadid : Z) : prog C Z :=
  i <~ Act (gets (fun s => find_tid s threadid)) ;;
  let w := Z.min i (MAX_THR - 1) in
  det_lock E me (AThread w) ;~
  Act (modify (upd_worker w (set_finished true))) ;~
  det_cond_signal me (AThread w) ;~
  det_unlock me (AThread w) ;~
  Act (pthread_cancel threadid) ;~
  lret <~ Act (disable_logical_clock me) ;;
  Act (massert (i <? MAX_THR) "wa[i]: out of bounds") ;~
  Act (modify (SET_CLOCK i (MAX_LOGICAL_CLOCK * 2))) ;~
  x <~ Act (gets (fun s => worker s w)) ;;
  Act (DBG me 1 "EXIT: Thread %d: (hw_evt:%lld, sw_evt:%lld) ndet_evt:%d"
         [w_id x; hw_clock x; sw_clock x; nondet_count x]) ;~
  Act (resume_logical_clock me lret) ;~
  Ret 0.

(** *** Leaving and rejoining the deterministic order *)

Definition det_enable : M C unit :=
  (mt <- gets (fun s => max_thr (glob s)) ;;
   massert (0 <? mt) "det_enable: max_thr" ;;;
   t <- gets (fun s => tlsv s me) ;;
   massert (negb (my_det_enabled t)) "det_enable: my_det_enabled" ;;;
   DBG me 1 "det_enable: " [] ;;;
   modify (SET_CLOCK me (my_det_clock t)) ;;;
   modify (upd_tlsv me (set_my_det_enabled true)) ;;;
   enable_logical_clock me ;;;
   mret tt)%M.

Definition det_disable : M C unit :=
  (ensure_init E ;;;
   t <- gets (fun s => tlsv s me) ;;
   massert (my_det_enabled t) "det_disable: my_det_enabled" ;;;
   disable_logical_clock me ;;;
   c <- get_logical_clock me me ;;
   modify (upd_tlsv me (set_my_det_clock c)) ;;;
   modify (SET_CLOCK me MAX_LOGICAL_CLOCK) ;;;
   modify (upd_tlsv me (set_my_det_enabled false)) ;;;
   DBG me 1 "det_disable: " [] ;;;
   mret tt)%M.

Definition det_get_clock : M C Z :=
  (ensure_init E ;;;
   lret <- disable_logical_clock me ;;
   ret <- get_logical_clock me me ;;
   resume_logical_clock me lret ;;;
   mret ret)%M.

(** [mask]: what [pthread_sigmask] does and answers. *)
Definition det_sigmask (mask : M C Z) : M C Z :=
  (ensure_init E ;;;
   lret <- disable_logical_clock me ;;
   ret <- mask ;;
   resume_logical_clock me lret ;;;
   mret ret)%M.

(** [out]: what [vfprintf] answers. *)
Definition det_dbg (format : string) (args : list Z) (out : Z) : M C Z :=
  (ensure_init E ;;;
   lret <- disable_logical_clock me ;;
   t <- get_logical_clock me me ;;
   modify (add_log (mkLog me t format args)) ;;;
   incr_sw_clock me 1 ;;;
   resume_logical_clock me lret ;;;
   mret out)%M.

Definition det_print_lock (a : addr) (out : Z) : M C unit :=
  (m <- gets (fun s => mutex s a) ;;
   det_dbg "%s: mutex id=%d, owner=%d, ref=%d, qEmpty?=%d"
     [m_id m; owner m; ref m; Queue.IsEmptyQ (m_queue m)] out ;;;
   mret tt)%M.

Definition det_print_stat : M C unit :=
  (lret <- disable_logical_clock me ;;
   w <- gets (fun s => worker s me) ;;
   st <- gets (fun s => statv s me) ;;
   DBG me 0 "EXIT: (hw_evt:%lld, sw_evt:%lld) ndet_evt:%d, %d locks and %d barriers."
     [hw_clock w; sw_clock w; nondet_count w; lock_count st; barrier_count st] ;;;
   resume_logical_clock me lret)%M.
End Operations.

(** *** The process: its threads and the scheduler *)

Record process := mkProcess { state : rt C; threads : gmap Z (prog C unit) }.

(** Thread [i] makes a step; a worker handed to [pthread_create] starts with
    [worker_thread]. [None]: thread [i] cannot move. *)
Definition thread_step (i : Z) (p : process) : option process :=
  match threads p !! i with
  | Some t =>
      match step t (state p) with
      | Next t' s' => Some (mkProcess s' (<[i := t']> (threads p)))
      | Stopped _ | Stuck | Crashed _ => None
      end
  | None =>
      if bool_decide (i ∈ spawned (pth (state p)))
      then Some (mkProcess (state p) (<[i := worker_thread i]> (threads p))) else None
  end.

(** The scheduler runs the threads named by the list, one step each. *)
Fixpoint schedule (l : list Z) (p : process) : option process :=
  match l with
  | [] => Some p
  | i :: l => match thread_step i p with Some p' => schedule l p' | None => None end
  end.

(** Reachability under any scheduling. *)
Inductive reachable (p : process) : process -> Prop :=
| reachable_refl : reachable p p
| reachable_step p1 p2 i : reachable p p1 -> thread_step i p1 = Some p2 -> reachable p p2.
End Threads.
