(* ===== verification/Samples.v ===== *)
(** Concrete processes on which the theorems of the development are exercised. *)
From stdpp Require Import base list gmap strings.
From Stdlib Require Import ZArith Lia.
From S2P Require Import Prelude Queue Runtime Clock Sync Threads.
Import SimpleCounter.

Module Samples.

(** Four processors, every library call succeeds. *)
Definition environment : env :=
  mkEnv 4 None true (fun _ => true) (fun _ => replicate 128 7) (fun i => 100 + i) (fun _ => true).
Definition no_user (f a : Z) : prog counter unit := Ret tt.

Definition a_queue : Queue.TQueue Z := Queue.InitQ (replicate 128 7) MAX_THR.
Definition a_mutex (id : Z) : det_mutex := mkMutex id None 0 (-1) 0 a_queue.

(** An entry whose clock runs, or is paused after [hw] events. *)
Definition running (i clock : Z) : worker_args counter :=
  mkWorker 0 0 i (100 + i) (FdsOpen (mkCounter 0 true)) 0 clock true false true 0 true 0.
Definition stopped (i hw clock : Z) : worker_args counter :=
  mkWorker 0 0 i (100 + i) (FdsOpen (mkCounter hw false)) hw (clock - hw) false false true 0 true 0.

(** Three threads with the given entries; mutexes 1 and 2 are initialised. *)
Definition three (w0 w1 w2 : worker_args counter) : rt counter :=
  mkRt {[0 := w0; 1 := w1; 2 := w2]}
    {[0 := mkTls 0 true; 1 := mkTls 0 true; 2 := mkTls 0 true]}
    {[AObj 1 := a_mutex 1; AObj 2 := a_mutex 2]} ∅ ∅ ∅
    (mkGlobals 3 3 0 2 0 0 0 4) pthreads0 ∅ [].

(** The main thread is parked, the two workers are at time 10. *)
Definition start : rt counter := three (running 0 MAX_LOGICAL_CLOCK) (running 1 10) (running 2 10).

(** The worker entries of [three], for properties that hold of each of them. *)
Lemma three_entries (P : Z -> worker_args counter -> Prop) w0 w1 w2 :
  P 0 w0 -> P 1 w1 -> P 2 w2 -> forall i, 0 <= i < 3 -> P i (worker (three w0 w1 w2) i).
Proof.
  intros ? ? ? i Hi. assert (i = 0 \/ i = 1 \/ i = 2) as [->|[->| ->]] by lia; done.
Qed.
End Samples.
