(* ===== verification/Turn.v ===== *)
(** Whose turn it is: the global order of the logical clocks, and what
    [wait_for_turn] guarantees when the other threads stand still. *)
From stdpp Require Import base list gmap strings.
From Stdlib Require Import ZArith Lia.
From S2P Require Import Prelude Queue Runtime Clock Sync.
Open Scope m_scope.
Open Scope prog_scope.

(** Runs the first command of a [finishes] goal. *)
Ltac prun_ tac s' E :=
  eapply finishes_bind; [tac|]; intros s' E; cbv beta in E; drop_obs E; cbv beta.
Tactic Notation "prun" tactic3(tac) "as" ident(s') ident(E) := prun_ tac s' E.
Tactic Notation "prun" tactic3(tac) "from" hyp(E0) "as" ident(s') ident(E) :=
  prun_ tac s' E; rewrite E0 in E; drop_obs E.

Section Rules.
Context {C : Type}.
Implicit Types s : rt C.
Lemma finishes_gets_bind {A B} n (f : rt C -> A) (k : A -> prog C B) s b s2 :
  finishes n (k (f s)) s b s2 -> finishes n (Bind (Act (gets f)) k) s b s2.
Proof. done. Qed.
Lemma finishes_modify_bind {B} n f (k : unit -> prog C B) s b s2 :
  finishes n (k tt) (f s) b s2 -> finishes n (Bind (Act (modify f)) k) s b s2.
Proof. done. Qed.
Lemma finishes_ret_bind {A B} n (a : A) (k : A -> prog C B) s b s2 :
  finishes n (k a) s b s2 -> finishes n (Bind (Ret a) k) s b s2.
Proof. done. Qed.
Lemma finishes_ret_sim {A} n (a : A) s s0 : s ≈ s0 -> finishes n (Ret a) s a s0.
Proof. by exists s. Qed.
End Rules.
Ltac pget := repeat (first [apply finishes_gets_bind | apply finishes_ret_bind]; cbv beta).
Ltac pmod := apply finishes_modify_bind; cbv beta.

Section Order.
Context {C : Type} `{HC : PerfCounter C}.
Implicit Types s : rt C.

(** Thread [i] comes before thread [j]: earlier clock, the lower number on a tie. *)
Definition precedes s (i j : Z) : Prop :=
  logical_time s i < logical_time s j \/ (logical_time s i = logical_time s j /\ i < j).
#[export] Instance precedes_dec s i j : Decision (precedes s i j).
Proof. unfold precedes. apply _. Defined.

(** It is the turn of [me] when [me] comes before every other created thread. *)
Definition has_turn s (me : Z) : Prop :=
  0 <= me < max_thr (glob s) /\
  forall id, 0 <= id < max_thr (glob s) -> id <> me -> precedes s me id.

Lemma precedes_total s i j : i <> j -> precedes s i j \/ precedes s j i.
Proof. unfold precedes. lia. Qed.
Lemma precedes_trans s i j k : precedes s i j -> precedes s j k -> precedes s i k.
Proof. unfold precedes. lia. Qed.

Lemma has_turn_unique s i j : has_turn s i -> has_turn s j -> i = j.
Proof.
  intros [Hi Ti] [Hj Tj]. destruct (decide (i = j)) as [|Hne]; [done|].
  specialize (Ti j Hj ltac:(congruence)). specialize (Tj i Hi Hne).
  unfold precedes in *. lia.
Qed.

(** Some thread always has the turn. *)
Lemma has_turn_exists s : 0 < max_thr (glob s) -> exists i, has_turn s i.
Proof.
  intros Hpos.
  assert (forall k : nat, Z.of_nat k < max_thr (glob s) -> exists i, 0 <= i <= Z.of_nat k /\
    forall j, 0 <= j <= Z.of_nat k -> j <> i -> precedes s i j) as Hk.
  { induction k as [|k IH]; intros Hk.
    - exists 0. split; [lia|]. intros; lia.
    - destruct IH as (i & Hi & Hmin); [lia|].
      destruct (precedes_total s i (Z.of_nat (S k))) as [Hp|Hp]; [lia| |].
      + exists i. split; [lia|]. intros j Hj Hne.
        destruct (decide (j = Z.of_nat (S k))) as [->|]; [done|]. apply Hmin; lia.
      + exists (Z.of_nat (S k)). split; [lia|]. intros j Hj Hne.
        destruct (decide (j = i)) as [->|]; [done|].
        eapply precedes_trans; [done|]. apply Hmin; lia. }
  destruct (Hk (Z.to_nat (max_thr (glob s) - 1)) ltac:(lia)) as (i & Hi & Hmin).
  exists i. split; [lia|]. intros j Hj Hne. apply Hmin; lia.
Qed.

Lemma logical_time_sim s s' i : s ≈ s' -> logical_time s i = logical_time s' i.
Proof. intros E. unfold logical_time. by sim_rw E. Qed.
Lemma has_turn_sim s s' i : s ≈ s' -> has_turn s i -> has_turn s' i.
Proof.
  intros E. unfold has_turn, precedes. rewrite (sim_glob _ _ E).
  intros [? Hp]. split; [done|]. intros id ? ?.
  rewrite <- !(logical_time_sim _ _ _ E). auto.
Qed.
End Order.

(** What a running thread relies on: every clock entry is well formed, and its own clock
    is paused. *)
Record paused {C} `{PerfCounter C} (s : rt C) (me : Z) : Prop := {
  paused_me : 0 <= me < max_thr (glob s);
  paused_off : hw_clock_enabled (worker s me) = false;
  paused_wf i : 0 <= i < max_thr (glob s) -> clock_wf (worker s i)
}.

Section Wait.
Context {C : Type} `{HC : PerfCounter C} `{!PerfCounterLaws C}.
Implicit Types s : rt C.

Lemma paused_sim s s' me : s ≈ s' -> paused s me -> paused s' me.
Proof.
  intros E []. split; rewrite <- ?(sim_glob _ _ E), <- ?(sim_worker _ _ E); try done.
  intros i Hi. rewrite <- (sim_worker _ _ E). auto.
Qed.

(** One comparison of the scan lets [me] pass thread [id]. *)
Definition passes s (me my_clock id : Z) : bool :=
  negb ((logical_time s id <? my_clock) || ((logical_time s id =? my_clock) && (id <? me))).

Lemma passes_spec s me id :
  id <> me -> passes s me (logical_time s me) id = true <-> precedes s me id.
Proof. unfold passes, precedes. intros. zcases; split; intros; try lia; done. Qed.

(** The scan looks at the [k] threads after the [i]-th. *)
Fixpoint scan_passes s (me my_clock nthreads i : Z) (k : nat) : bool :=
  match k with
  | O => true
  | S k => passes s me my_clock (Z.rem (me + i) nthreads) &&
           scan_passes s me my_clock nthreads (i + 1) k
  end.

Lemma scan_passes_sim s s' me t n i k : s ≈ s' ->
  scan_passes s me t n i k = scan_passes s' me t n i k.
Proof.
  intros E. revert i. induction k as [|k IH]; intros i; simpl; [done|].
  unfold passes. by rewrite (logical_time_sim _ _ _ E), IH.
Qed.

Lemma scan_finishes n s me t i k : paused s me -> 0 <= i ->
  finishes n (scan me t (max_thr (glob s)) i k) s
    (scan_passes s me t (max_thr (glob s)) i k) s.
Proof.
  revert s i. induction k as [|k IH]; intros s i Hp Hi; simpl; [apply finishes_ret|].
  pose proof Hp as [Hme Hoff Hwf].
  prun (apply finishes_act, get_logical_clock_returns; [done|apply Hwf];
        apply Z.rem_bound_pos; lia) as s1 E1.
  unfold passes at 1. destruct (_ || _); simpl; [by apply finishes_ret_sim|].
  rewrite (scan_passes_sim s s1) by done. rewrite <- (sim_glob _ _ E1).
  rewrite <- E1. apply IH; [by eapply paused_sim|lia].
Qed.

(** The scan meets every other thread. *)
Lemma scan_all s me : paused s me ->
  (scan_passes s me (logical_time s me) (max_thr (glob s)) 1
     (Z.to_nat (max_thr (glob s) - 1)) = true <-> has_turn s me).
Proof.
  intros [Hme Hoff Hwf]. set (n := max_thr (glob s)) in *.
  assert (forall k i, 0 < i -> i + Z.of_nat k <= n ->
    scan_passes s me (logical_time s me) n i k = true <->
    forall j, i <= j < i + Z.of_nat k -> precedes s me ((me + j) mod n)) as Hk.
  { induction k as [|k IH]; intros i Hi Hle; simpl.
    - split; [intros; lia|done].
    - rewrite andb_true_iff, IH by lia. rewrite Z.rem_mod_nonneg by lia.
      rewrite passes_spec.
      + split.
        * intros [Hp Hr] j Hj. destruct (decide (j = i)) as [->|]; [done|]. apply Hr. lia.
        * intros Hr. split; [apply Hr; lia|]. intros j Hj. apply Hr. lia.
      + rewrite Queue.mod_wrap by lia. zcases. }
  rewrite Hk by lia. split.
  - intros Hr. split; [done|]. intros id Hid Hne.
    specialize (Hr ((id - me) mod n)). rewrite Z.add_mod_idemp_r in Hr by lia.
    replace (me + (id - me)) with id in Hr by lia. fold n in Hid; rewrite (Z.mod_small id n) in Hr by lia.
    apply Hr. rewrite Queue.mod_wrap_neg by lia. zcases.
  - intros [_ Ht] j Hj. fold n in Ht. apply Ht.
    + apply Z.mod_pos_bound. lia.
    + rewrite Queue.mod_wrap by lia. zcases.
Qed.

Lemma wait_body_turn n s me : paused s me -> has_turn s me ->
  finishes n (wait_body me (logical_time s me) tt) s (inr (logical_time s me)) s.
Proof.
  intros Hp Ht. unfold wait_body. pget.
  prun (apply scan_finishes; [done|lia]) as s1 E1.
  rewrite (proj2 (scan_all s me Hp) Ht). simpl. pget. rewrite (sim_glob _ _ E1), Z.eqb_refl. simpl.
  prun (apply finishes_act, DBG_returns; rewrite (sim_worker _ _ E1); apply Hp) from E1 as s2 E2.
  pmod. apply finishes_ret_sim. by rewrite upd_statv_sim.
Qed.

Lemma wait_body_spin n s me : paused s me -> ~ has_turn s me ->
  finishes n (wait_body me (logical_time s me) tt) s (inl tt) s.
Proof.
  intros Hp Ht. unfold wait_body. pget.
  prun (apply scan_finishes; [done|lia]) as s1 E1.
  destruct (scan_passes _ _ _ _ _ _) eqn:Es; [by apply scan_all in Es|].
  by apply finishes_ret_sim.
Qed.

Lemma wait_turn n s me : paused s me -> has_turn s me ->
  finishes (S n) (wait_for_turn me) s (logical_time s me) s.
Proof.
  intros Hp Ht. unfold wait_for_turn. pget. pose proof Hp as [Hme Hoff Hwf].
  destruct (Z.eqb_spec (max_thr (glob s)) 0); [lia|].
  prun (apply finishes_act; mget; rewrite Hoff; apply returns_ret) as s1 E1.
  prun (apply finishes_act, get_logical_clock_returns; sim_rw E1; auto) from E1 as s2 E2.
  apply finishes_loop, loops_last.
  rewrite (logical_time_sim _ _ _ E1), <- (logical_time_sim _ _ _ E2), <- E2.
  apply wait_body_turn; [by eapply paused_sim|by eapply has_turn_sim].
Qed.

Lemma spin_loop n k s s0 me : s ≈ s0 -> paused s0 me -> ~ has_turn s0 me ->
  run_loop (fun x => run n (wait_body me (logical_time s0 me) x)) k tt s = OutOfFuel.
Proof.
  intros E Hp Ht. revert s E. induction k as [|k IH]; intros s E; cbn [run_loop]; [done|].
  destruct (wait_body_spin n s me) as (s' & Er & Es).
  { by eapply paused_sim. }
  { intros Ht'. by eapply Ht, has_turn_sim. }
  rewrite <- (logical_time_sim _ _ _ E), Er. cbn [obind]. rewrite (logical_time_sim _ _ _ E).
  apply IH. by rewrite Es.
Qed.

Lemma wait_no_turn n s me : paused s me -> ~ has_turn s me ->
  run n (wait_for_turn me) s = OutOfFuel.
Proof.
  intros Hp Ht. pose proof Hp as [Hme Hoff Hwf]. unfold wait_for_turn. simpl.
  destruct (Z.eqb_spec (max_thr (glob s)) 0); [lia|]. simpl.
  unfold mbind at 1. simpl. rewrite Hoff. simpl.
  destruct (get_logical_clock_returns me me s) as (s1 & E1 & Hs1); auto.
  rewrite E1. simpl. by apply spin_loop.
Qed.
End Wait.
