(* ===== verification/RelyGuarantee.v ===== *)
(** A rely-guarantee logic for the interleaved programs of [Runtime]: a thread is
    specified against every interference its environment may cause between two of its
    steps, and the threads of a process that keep their guarantees to one another can
    be run under any schedule. *)
From stdpp Require Import base list gmap strings.
From Stdlib Require Import ZArith Lia.
From S2P Require Import Prelude Queue Runtime Clock Sync Threads.

Section Logic.
Context {C : Type}.
(** What the other threads may do between two steps, what this thread does in one step,
    and the crashes that must not happen. *)
Variables (Rely Guar : rt C -> rt C -> Prop) (bad : string -> Prop).
Context `{!Reflexive Rely} `{!Transitive Rely} `{!Reflexive Guar}.

(** For [n] steps, [p] keeps the guarantee under the rely, does not crash badly, and
    ends, if it does, in [Q]. *)
Fixpoint rg {A} (n : nat) (p : prog C A) (s : rt C) (Q : A -> rt C -> Prop) : Prop :=
  match n with
  | O => True
  | S n => forall s1, Rely s s1 ->
      match step p s1 with
      | Next p' s2 => Guar s1 s2 /\ rg n p' s2 Q
      | Stopped a => Q a s1
      | Stuck => True
      | Crashed w => ~ bad w
      end
  end.

Lemma rg_weaken {A} n (p : prog C A) s Q : rg (S n) p s Q -> rg n p s Q.
Proof.
  revert p s. induction n as [|n IH]; intros p s Hp; [done|].
  intros s1 Hs. specialize (Hp s1 Hs). destruct (step p s1); try done.
  destruct Hp as [? Hp]. split; [done|]. by apply IH.
Qed.

Lemma rg_le {A} n m (p : prog C A) s Q : (m <= n)%nat -> rg n p s Q -> rg m p s Q.
Proof. induction 1; [done|]. intros ?. apply IHle. by apply rg_weaken. Qed.

Lemma rg_stable {A} n (p : prog C A) s s' Q : rg n p s Q -> Rely s s' -> rg n p s' Q.
Proof.
  destruct n as [|n]; [done|]. intros Hp Hs s1 Hs1. apply Hp. by transitivity s'.
Qed.

Lemma rg_conseq {A} n (p : prog C A) s (Q Q' : A -> rt C -> Prop) :
  rg n p s Q -> (forall a s', Q a s' -> Q' a s') -> rg n p s Q'.
Proof.
  intros Hp HQ. revert p s Hp. induction n as [|n IH]; intros p s Hp; [done|].
  intros s1 Hs. specialize (Hp s1 Hs). destruct (step p s1); auto.
  destruct Hp as [? Hp]. split; [done|]. by apply IH.
Qed.

Lemma rg_ret {A} n (a : A) s Q : (forall s1, Rely s s1 -> Q a s1) -> rg n (Ret a) s Q.
Proof. intros HQ. destruct n as [|n]; [done|]. intros s1 Hs. simpl. auto. Qed.

Lemma rg_act {A} n (m : M C A) s Q :
  (forall s1, Rely s s1 ->
    match m s1 with
    | Ok a s2 => Guar s1 s2 /\ (forall s3, Rely s2 s3 -> Q a s3)
    | Blocked => True
    | Abort w => ~ bad w
    end) -> rg n (Act m) s Q.
Proof.
  intros Hm. destruct n as [|n]; [done|]. intros s1 Hs. specialize (Hm s1 Hs). simpl.
  destruct (m s1); try done. destruct Hm as [? Hm]. split; [done|]. by apply rg_ret.
Qed.

Lemma rg_bind {A B} n (p : prog C A) (k : A -> prog C B) s (Q : A -> rt C -> Prop) Q' :
  rg n p s Q -> (forall m a s1, (m < n)%nat -> Q a s1 -> rg m (k a) s1 Q') ->
  rg n (Bind p k) s Q'.
Proof.
  revert p s. induction n as [|n IH]; intros p s Hp Hk; [done|].
  intros s1 Hs. specialize (Hp s1 Hs). simpl. destruct (step p s1); try done.
  - destruct Hp as [? Hp]. split; [done|]. apply IH; [done|]. intros. apply Hk; [lia|done].
  - split; [done|]. apply Hk; [lia|done].
Qed.

(** [I] is the loop's invariant. *)
Lemma rg_loop {A B} n (body : A -> prog C (A + B)) (I : A -> rt C -> Prop) x s Q :
  (forall x s s', I x s -> Rely s s' -> I x s') ->
  (forall m x s, I x s ->
    rg m (body x) s (fun r s' => match r with inl x' => I x' s' | inr b => Q b s' end)) ->
  (forall b s s', Q b s -> Rely s s' -> Q b s') ->
  I x s -> rg n (Loop body x) s Q.
Proof.
  intros Hst Hbody HQ. revert x s. induction n as [n IH] using lt_wf_ind. intros x s HI.
  destruct n as [|n]; [done|]. intros s1 Hs. split; [done|].
  eapply rg_bind; [apply Hbody; by eapply Hst|]. intros m r s2 Hm Hr.
  destruct r as [x'|b]; [apply IH; [lia|done]|]. apply rg_ret. intros. by eapply HQ.
Qed.

(** Executions: steps of the thread, with interference in between. *)
Inductive interleaved {A} : prog C A -> rt C -> prog C A -> rt C -> Prop :=
| inter_refl p s : interleaved p s p s
| inter_self p s p1 s1 p2 s2 :
    interleaved p s p1 s1 -> step p1 s1 = Next p2 s2 -> interleaved p s p2 s2
| inter_others p s p1 s1 s2 :
    interleaved p s p1 s1 -> Rely s1 s2 -> interleaved p s p1 s2.

Lemma rg_sound {A} (p : prog C A) s p' s' Q : interleaved p s p' s' ->
  (forall n, rg n p s Q) -> forall n, rg n p' s' Q.
Proof.
  induction 1 as [p s|p s p1 s1 p2 s2 _ IH E|p s p1 s1 s2 _ IH HR]; intros Hp n; [done| |].
  - specialize (IH Hp (S n) s1 ltac:(reflexivity)). rewrite E in IH. apply IH.
  - eapply rg_stable; eauto.
Qed.

Lemma rg_result {A} (p : prog C A) s a s' Q : interleaved p s (Ret a) s' ->
  (forall n, rg n p s Q) -> Q a s'.
Proof. intros Hi Hp. apply (rg_sound _ _ _ _ Q Hi Hp 1%nat s'). reflexivity. Qed.

Lemma rg_no_crash {A} (p : prog C A) s p' s' Q w : interleaved p s p' s' ->
  (forall n, rg n p s Q) -> step p' s' = Crashed w -> ~ bad w.
Proof.
  intros Hi Hp E. pose proof (rg_sound _ _ _ _ Q Hi Hp 1%nat s' ltac:(reflexivity)) as Hr.
  by rewrite E in Hr.
Qed.
End Logic.

(** ** Programs all of whose actions keep a property of the state *)

Section Inert.
Context {C : Type}.
Variable same : rt C -> rt C -> Prop.
Context `{!Reflexive same} `{!Transitive same}.

(** [m] moves the state within [same] and never crashes with one of the [bad] messages. *)
Variable bad : string -> Prop.
Definition inert {A} (m : M C A) : Prop :=
  forall s, match m s with Ok _ s' => same s s' | Blocked => True | Abort w => ~ bad w end.

Fixpoint pinert {A} (p : prog C A) : Prop :=
  match p with
  | Ret _ => True
  | Act m => inert m
  | Bind p k => pinert p /\ forall a, pinert (k a)
  | Loop body _ => forall x, pinert (body x)
  end.

Lemma inert_ret {A} (a : A) : inert (mret a).
Proof. intros s. simpl. reflexivity. Qed.
Lemma inert_gets {A} (f : rt C -> A) : inert (gets f).
Proof. intros s. simpl. reflexivity. Qed.
Lemma inert_modify f : (forall s, same s (f s)) -> inert (modify f).
Proof. intros Hf s. simpl. auto. Qed.
Lemma inert_bind {A B} (m : M C A) (k : A -> M C B) :
  inert m -> (forall a, inert (k a)) -> inert (mbind m k).
Proof.
  intros Hm Hk s. unfold mbind. specialize (Hm s). destruct (m s) as [a s1| |]; try done.
  specialize (Hk a s1). destruct (k a s1); try done. by etrans.
Qed.
Lemma inert_abort {A} w : ~ bad w -> inert (A:=A) (abort w).
Proof. intros Hw s. done. Qed.
Lemma inert_massert b w : ~ bad w -> inert (massert b w).
Proof. intros Hw. destruct b; [apply inert_ret|by apply inert_abort]. Qed.
Lemma inert_of_option {A} (o : option A) w : ~ bad w -> inert (of_option o w).
Proof. intros Hw. destruct o; [apply inert_ret|by apply inert_abort]. Qed.

Variables Rely Guar : rt C -> rt C -> Prop.
Context `{!Reflexive Rely} `{!Transitive Rely} `{!Reflexive Guar}.

(** An assertion that interference and inert actions keep is kept by inert programs. *)
Lemma rg_inert {A} n (p : prog C A) s (P : rt C -> Prop) :
  (forall s s', P s -> Rely s s' -> P s') ->
  (forall s s', P s -> same s s' -> P s' /\ Guar s s') ->
  pinert p -> P s -> rg Rely Guar bad n p s (fun _ => P).
Proof.
  intros HR HS. revert n s. induction p as [A a|A B p IHp k IHk|A m|A B body IH x];
    intros n s Hp HP.
  - apply rg_ret. intros. by eapply HR.
  - destruct Hp as [Hp Hk]. eapply rg_bind; [done..|by apply IHp|].
    intros. by apply IHk.
  - apply rg_act; [done..|]. intros s1 Hs1. specialize (Hp s1). destruct (m s1) as [a s2| |]; try done.
    destruct (HS s1 s2) as [HP2 HG]; [by eapply HR|done|]. split; [done|]. intros. by eapply HR.
  - eapply (rg_loop _ _ _ _ _ (fun _ => P)); try done; try (intros; by eapply HR).
    intros m y s' HP'. eapply rg_conseq; [apply IH; [apply Hp|done]|].
    intros [] ? ?; done.
Qed.
End Inert.

(** ** Processes *)

Section Pool.
Context {C : Type} `{PerfCounter C}.
Variable E : env.
Variable user : Z -> Z -> prog C unit.
Variables Rely Guar : Z -> rt C -> rt C -> Prop.
Variable bad : string -> Prop.
Context `{!forall i, Reflexive (Rely i)} `{!forall i, Transitive (Rely i)}.
Context `{!forall i, Reflexive (Guar i)}.
Hypothesis compatible : forall i j s s', i <> j -> Guar i s s' -> Rely j s s'.

Definition pool_ok (n : nat) (p : process) : Prop :=
  forall i t, threads p !! i = Some t ->
    rg (Rely i) (Guar i) bad n t (state p) (fun _ _ => True).

(** No worker waits to be started: the threads of the process are the ones it has. *)
Hypothesis no_spawn : forall i s s', Guar i s s' ->
  spawned (pth s) = [] -> spawned (pth s') = [].

Lemma pool_step n p i p' : pool_ok (S n) p -> spawned (pth (state p)) = [] ->
  thread_step E user i p = Some p' ->
  pool_ok n p' /\ spawned (pth (state p')) = [].
Proof.
  intros Hok Hsp Hst. unfold thread_step in Hst.
  destruct (threads p !! i) as [t|] eqn:Ei; last first.
  { rewrite Hsp in Hst. rewrite bool_decide_eq_false_2 in Hst; [done|]. by rewrite elem_of_nil. }
  pose proof (Hok i t Ei (state p) ltac:(reflexivity)) as Hi.
  destruct (step t (state p)) as [t' s'| | |]; try done. injection Hst as <-.
  destruct Hi as [HG Hi]. simpl. split; [|by eapply no_spawn].
  intros j u Hj. simpl in *. destruct (decide (j = i)) as [->|Hne].
  - rewrite lookup_insert_eq in Hj. injection Hj as <-. done.
  - rewrite lookup_insert_ne in Hj by done. eapply rg_stable; [done..| |].
    + apply rg_weaken, Hok, Hj.
    + by eapply compatible.
Qed.

(** A process whose threads keep their guarantees never crashes badly. *)
Lemma pool_safe p0 p : (forall n, pool_ok n p0) -> spawned (pth (state p0)) = [] ->
  reachable E user p0 p ->
  forall i t w, threads p !! i = Some t -> step t (state p) = Crashed w -> ~ bad w.
Proof.
  intros Hok Hsp Hr. assert ((forall n, pool_ok n p) /\ spawned (pth (state p)) = []) as [Hp _].
  { induction Hr as [|p1 p2 i Hr IH Hst]; [done|]. destruct IH as [IH Hs].
    split; [|apply (pool_step 0 p1 i p2); auto]. intros n. apply (pool_step n p1 i p2); auto. }
  intros i t w Ei Hc. specialize (Hp 1%nat i t Ei (state p) ltac:(reflexivity)).
  by rewrite Hc in Hp.
Qed.
End Pool.

(** A schedule reaches the process it ends in. *)
Lemma schedule_reachable {C} `{PerfCounter C} E user l (p p' : process (C:=C)) :
  schedule E user l p = Some p' -> reachable E user p p'.
Proof.
  enough (forall p1, reachable E user p p1 -> schedule E user l p1 = Some p' -> reachable E user p p') as Hs.
  { apply Hs. constructor. }
  induction l as [|i l IH]; simpl; intros p1 H1; [by intros [= <-]|].
  destruct (thread_step E user i p1) as [p2|] eqn:E2; [|done]. apply IH. by econstructor.
Qed.
