(* ===== verification/Exclusion.v ===== *)
(** Mutual exclusion of [det_lock] and [det_unlock] under every interleaving.

    Threads run critical sections [det_lock; enter; compute; leave; det_unlock], where
    [enter] and [leave] count the threads inside in a shared variable without any
    protection of their own, and [enter] checks that the thread is alone. *)
From stdpp Require Import base list gmap strings.
From Stdlib Require Import ZArith Lia.
From S2P Require Import Prelude Queue Runtime Clock Sync Threads Samples RelyGuarantee.
Open Scope m_scope.
Open Scope prog_scope.

Create HintDb inert discriminated.

(** ** What the argument looks at *)

Definition lock_part (m : det_mutex) : Z * option Z * Z * Z := (m_id m, m_holder m, owner m, ref m).

Record same_locks {C} (s s' : rt C) : Prop := {
  same_lock a : lock_part (mutex s a) = lock_part (mutex s' a);
  same_uvar x : uvar s x = uvar s' x;
  same_num_thr : num_thr (glob s) = num_thr (glob s');
  same_enabled i : my_det_enabled (tlsv s i) = my_det_enabled (tlsv s' i);
  same_spawned : spawned (pth s) = spawned (pth s')
}.

#[export] Instance same_locks_preorder {C} : PreOrder (@same_locks C).
Proof.
  split; [by constructor|]. intros s1 s2 s3 [] []. constructor; intros; etrans; eauto.
Qed.

(** The only crash that counts. *)
Definition race : string := "two threads in the critical section".
Definition is_race (w : string) : Prop := w = race.

(** What a client thread does. *)
Inductive script :=
| Finish
| Compute (events : Z) (next : script)
| Critical (x : Z) (body next : script).

Section InertOps.
Context {C : Type} `{PerfCounter C}.
Variable E : env.
Abbreviation inert := (inert (C:=C) same_locks is_race).
Abbreviation pinert := (pinert (C:=C) same_locks is_race).

Ltac same :=
  intros; constructor; intros; repeat rt_frame;
  rewrite ?mutex_upd, ?tlsv_upd, ?uvar_upd; repeat case_decide; subst; done.

Ltac inert_step :=
  first [ solve [eauto with inert]
        | apply inert_ret; apply _
        | apply inert_gets; apply _
        | apply inert_modify; same
        | apply inert_massert; [apply _|done]
        | apply inert_of_option; [apply _|done]
        | apply inert_abort; done
        | apply inert_bind; [apply _| |intros]
        | match goal with
          | |- RelyGuarantee.inert _ _ (if ?b then _ else _) => destruct b
          | |- RelyGuarantee.inert _ _ (match ?x with _ => _ end) => destruct x
          | |- RelyGuarantee.pinert _ _ (if ?b then _ else _) => destruct b
          | |- RelyGuarantee.pinert _ _ (if ?b then _ else _) => destruct b
          | |- RelyGuarantee.pinert _ _ _ => progress simpl
          | |- _ /\ _ => split
          end ].
Ltac inert_all := repeat (intros; try done; inert_step).

Lemma DBG_inert me l f a : inert (DBG me l f a).
Proof. unfold DBG, mwhen. inert_all. Qed.
#[local] Hint Resolve DBG_inert : inert.
Lemma read_count_inert me f : inert (read_count me f).
Proof.
  unfold read_count, __read_count, mwhen. destruct f as [|c|]; [inert_all| |inert_all].
  destruct (pc_values c) as [[v0 v1] v2]. inert_all.
Qed.
#[local] Hint Resolve read_count_inert : inert.
Lemma get_logical_clock_inert me id : inert (get_logical_clock me id).
Proof. unfold get_logical_clock. inert_all. Qed.
#[local] Hint Resolve get_logical_clock_inert : inert.
Lemma on_counter_inert me f : inert (on_counter me f).
Proof. unfold on_counter. inert_all. Qed.
Lemma enable_inert me : inert (enable_logical_clock me).
Proof. pose proof on_counter_inert. unfold enable_logical_clock, enable_performance_counter. inert_all. Qed.
Lemma disable_inert me : inert (disable_logical_clock me).
Proof. pose proof on_counter_inert. unfold disable_logical_clock, disable_performance_counter. inert_all. Qed.
#[local] Hint Resolve enable_inert disable_inert : inert.
Lemma resume_inert me r : inert (resume_logical_clock me r).
Proof. unfold resume_logical_clock. inert_all. Qed.
Lemma assert_time_inert me : inert (assert_time me).
Proof. unfold assert_time. inert_all. Qed.
Lemma update_last_sync_inert me : inert (update_last_sync me).
Proof. unfold update_last_sync. inert_all. Qed.
Lemma count_lock_inert me : inert (count_lock me).
Proof. unfold count_lock. inert_all. Qed.
Lemma incr_inert me n : inert (incr_sw_clock me n).
Proof. unfold incr_sw_clock. inert_all. Qed.
Lemma compute_inert me n : inert (compute me n).
Proof. unfold compute. inert_all. Qed.
Lemma AddQ_inert me a : inert (mutex_AddQ me a).
Proof. unfold mutex_AddQ. inert_all. Qed.
Lemma GetHeadQ_inert a : inert (mutex_GetHeadQ a).
Proof. unfold mutex_GetHeadQ. inert_all. Qed.
Lemma DelQ_inert a : inert (mutex_DelQ a).
Proof. unfold mutex_DelQ. inert_all. Qed.

Lemma scan_inert me t n i k : pinert (scan me t n i k).
Proof. revert i. induction k as [|k IH]; intros i; simpl; inert_all. Qed.
Lemma wait_inert me : pinert (wait_for_turn me).
Proof. pose proof scan_inert. unfold wait_for_turn. inert_all. Qed.
End InertOps.
#[export] Hint Resolve DBG_inert get_logical_clock_inert enable_inert disable_inert resume_inert
  assert_time_inert update_last_sync_inert count_lock_inert incr_inert compute_inert
  AddQ_inert GetHeadQ_inert DelQ_inert wait_inert : inert.

(** ** The protocol of the mutexes *)

Section Protocol.
Context {C : Type} `{PerfCounter C}.
Variable E : env.
(** The threads that use the mutexes, and the mutexes they use. *)
Variables (T X : list Z).
Implicit Types s : rt C.

Abbreviation lock s x := (mutex s (AObj x)).

(** A mutex with a positive count is held by its owner; nobody is inside a free one. *)
Record lock_inv s (x : Z) : Prop := {
  inv_id : 0 < m_id (lock s x);
  inv_owner : 0 < ref (lock s x) -> m_holder (lock s x) = Some (owner (lock s x));
  inv_free : m_holder (lock s x) = None -> uvar s x = 0
}.
Record Inv s : Prop := {
  inv_det : 1 < num_thr (glob s);
  inv_enabled i : i ∈ T -> my_det_enabled (tlsv s i) = true;
  inv_lock x : x ∈ X -> lock_inv s x
}.

(** What thread [j] keeps of the mutexes while others run. *)
Definition kept (j : Z) s s' : Prop := forall x, x ∈ X ->
  (m_holder (lock s x) = Some j <-> m_holder (lock s' x) = Some j) /\
  (m_holder (lock s x) = Some j ->
   owner (lock s x) = owner (lock s' x) /\ ref (lock s x) = ref (lock s' x) /\
   uvar s x = uvar s' x).

Definition Rely (i : Z) s s' : Prop := Inv s -> Inv s' /\ kept i s s'.
Definition Guar (i : Z) s s' : Prop :=
  (Inv s -> Inv s' /\ forall j, j <> i -> kept j s s') /\
  spawned (pth s) = spawned (pth s').

#[export] Instance Rely_refl i : Reflexive (Rely i).
Proof. intros s Hs. split; [done|]. by intros x Hx. Qed.
#[export] Instance Rely_trans i : Transitive (Rely i).
Proof.
  intros s1 s2 s3 H1 H2 Hs. destruct (H1 Hs) as [Hs2 K1]. destruct (H2 Hs2) as [Hs3 K2].
  split; [done|]. intros x Hx. destruct (K1 x Hx) as [A1 B1], (K2 x Hx) as [A2 B2].
  split; [by rewrite A1|]. intros Hh. destruct (B1 Hh) as (-> & -> & ->).
  apply B2. by apply A1.
Qed.
#[export] Instance Guar_refl i : Reflexive (Guar i).
Proof. intros s. split; [|done]. intros Hs. split; [done|]. intros j _. by intros x Hx. Qed.

Lemma Guar_Rely i j s s' : i <> j -> Guar i s s' -> Rely j s s'.
Proof. intros Hne [HG _] Hs. destruct (HG Hs) as [? Hk]. split; [done|]. by apply Hk. Qed.

(** A thread inside the critical section of a mutex, alone, or not. *)
Definition in_section (j : Z) s (y : Z) : Prop :=
  m_holder (lock s y) = Some j /\ owner (lock s y) = j /\ ref (lock s y) = 1 /\ uvar s y = 1.
Definition position (j : Z) (held : list Z) s (y : Z) : Prop :=
  if decide (y ∈ held) then in_section j s y else m_holder (lock s y) <> Some j.

Lemma position_kept j held s s' y : y ∈ X -> kept j s s' -> position j held s y ->
  position j held s' y.
Proof.
  intros Hy Hk. destruct (Hk y Hy) as [A B]. unfold position, in_section.
  case_decide; [|by rewrite A]. intros (Hh & ? & ? & ?). destruct (B Hh) as (<- & <- & <-).
  split; [by apply A|done].
Qed.

(** Assertions of thread [me] about mutex [x]: it does not hold it; or it holds it, with
    owner [o], count [r] and [v] threads counted inside. It is in the critical sections
    of the mutexes of [held] and of no others. *)
Section Thread.
Variables (me x : Z) (held : list Z).
Hypothesis me_in : me ∈ T.
Hypothesis x_in : x ∈ X.

Definition others s : Prop := forall y, y ∈ X -> y <> x -> position me held s y.
Definition outside s : Prop := Inv s /\ m_holder (lock s x) <> Some me /\ others s.
Definition inside (o r v : Z) s : Prop :=
  Inv s /\ m_holder (lock s x) = Some me /\ owner (lock s x) = o /\ ref (lock s x) = r /\
  uvar s x = v /\ others s.

Lemma others_stable s s' : others s -> kept me s s' -> others s'.
Proof. intros Ho Hk y Hy Hne. eapply position_kept; eauto. Qed.
Lemma others_eq s s' : (forall y, y <> x -> lock s y = lock s' y /\ uvar s y = uvar s' y) ->
  others s -> others s'.
Proof.
  intros HE Ho y Hy Hne. specialize (Ho y Hy Hne). destruct (HE y Hne) as [EL EU].
  unfold position, in_section in *. by rewrite <- EL, <- EU.
Qed.

Lemma outside_stable s s' : outside s -> Rely me s s' -> outside s'.
Proof.
  intros (Hs & Hh & Ho) HR. destruct (HR Hs) as [Hs' Hk]. split; [done|].
  split; [|by eapply others_stable]. destruct (Hk x x_in) as [A _]. by rewrite <- A.
Qed.
Lemma inside_stable o r v s s' : inside o r v s -> Rely me s s' -> inside o r v s'.
Proof.
  intros (Hs & Hh & Ho & Hr & Hv & Hoth) HR. destruct (HR Hs) as [Hs' Hk].
  destruct (Hk x x_in) as [A B]. unfold inside. destruct (B Hh) as (<- & <- & <-).
  split_and!; try done; [by apply A|by eapply others_stable].
Qed.

Lemma Inv_same s s' : Inv s -> same_locks s s' -> Inv s'.
Proof.
  intros [Hd He Hl] Hs. constructor.
  - by rewrite <- (same_num_thr _ _ Hs).
  - intros i Hi. rewrite <- (same_enabled _ _ Hs). auto.
  - intros y Hy. destruct (Hl y Hy) as [I1 I2 I3].
    pose proof (same_lock _ _ Hs (AObj y)) as EL. injection EL as E1 E2 E3 E4.
    constructor; rewrite <- ?E1, <- ?E2, <- ?E3, <- ?E4, <- ?(same_uvar _ _ Hs); done.
Qed.
Lemma kept_same j s s' : same_locks s s' -> kept j s s'.
Proof.
  intros Hs y Hy. pose proof (same_lock _ _ Hs (AObj y)) as EL. injection EL as E1 E2 E3 E4.
  by rewrite E2, E3, E4, (same_uvar _ _ Hs).
Qed.
Lemma Guar_same s s' : same_locks s s' -> Guar me s s'.
Proof.
  intros Hs. split; [|apply Hs]. intros. split; [by eapply Inv_same|].
  intros. by apply kept_same.
Qed.
Lemma outside_same s s' : outside s -> same_locks s s' -> outside s' /\ Guar me s s'.
Proof.
  intros (Hs & Hh & Ho) HS. split; [|by apply Guar_same]. split; [by eapply Inv_same|].
  split; [|by eapply others_stable, kept_same].
  pose proof (same_lock _ _ HS (AObj x)) as EL. injection EL as E1 E2 E3 E4. congruence.
Qed.
Lemma inside_same o r v s s' :
  inside o r v s -> same_locks s s' -> inside o r v s' /\ Guar me s s'.
Proof.
  intros (Hs & Hh & Ho & Hr & Hv & Hoth) HS. split; [|by apply Guar_same].
  pose proof (same_lock _ _ HS (AObj x)) as EL. injection EL as E1 E2 E3 E4.
  split_and!; [by eapply Inv_same|congruence..| |by eapply others_stable, kept_same].
  by rewrite <- (same_uvar _ _ HS).
Qed.

Abbreviation rg := (rg (Rely me) (Guar me) is_race).

Lemma rg_outside {A} n (p : prog C A) s : pinert same_locks is_race p -> outside s ->
  rg n p s (fun _ => outside).
Proof.
  intros. eapply rg_inert; eauto using outside_stable, outside_same; apply _.
Qed.
Lemma rg_inside {A} n (p : prog C A) o r v s : pinert same_locks is_race p -> inside o r v s ->
  rg n p s (fun _ => inside o r v).
Proof.
  intros. eapply rg_inert; eauto using inside_stable, inside_same; apply _.
Qed.

(** One action, from an assertion to a stable one. *)
Lemma rg_atomic {A} n (m : M C A) s (P : rt C -> Prop) (Q : A -> rt C -> Prop) :
  (forall s s', P s -> Rely me s s' -> P s') ->
  (forall a s s', Q a s -> Rely me s s' -> Q a s') ->
  (forall s, P s -> match m s with
                    | Ok a s' => Guar me s s' /\ Q a s'
                    | Blocked => True
                    | Abort w => ~ is_race w
                    end) ->
  P s -> rg n (Act m) s Q.
Proof.
  intros HP HQ Hm Hs. apply rg_act. intros s1 Hs1.
  specialize (Hm s1 (HP _ _ Hs Hs1)). destruct (m s1); try done.
  destruct Hm as [? Hm]. split; [done|]. intros. by eapply HQ.
Qed.

(** An update of mutex [x] and of its variable by the thread that holds it, or takes it. *)
Lemma Guar_update s s' :
  num_thr (glob s) = num_thr (glob s') -> (forall i, tlsv s i = tlsv s' i) ->
  spawned (pth s) = spawned (pth s') ->
  (forall y, y <> x -> lock s y = lock s' y /\ uvar s y = uvar s' y) ->
  (forall j, j <> me -> m_holder (lock s x) <> Some j /\ m_holder (lock s' x) <> Some j) ->
  (Inv s -> lock_inv s' x) -> Guar me s s'.
Proof.
  intros E1 E2 E3 Ey Eh Ei. split; [|done]. intros Hs. pose proof Hs as [Hd He Hl]. split.
  - constructor; [by rewrite <- E1|intros; rewrite <- E2; auto|]. intros y Hy.
    destruct (decide (y = x)) as [->|Hne]; [auto|].
    destruct (Ey y Hne) as [EL EU]. destruct (Hl y Hy) as [I1 I2 I3].
    constructor; rewrite <- ?EL, <- ?EU; done.
  - intros j Hj y Hy. destruct (decide (y = x)) as [->|Hne].
    + destruct (Eh j Hj) as [N1 N2]. split; [split; intros; contradiction|intros; contradiction].
    + destruct (Ey y Hne) as [EL EU]. by rewrite <- EL, <- EU.
Qed.

Ltac upd :=
  intros; repeat rt_frame; rewrite ?mutex_upd, ?uvar_upd; repeat case_decide; simplify_eq; simpl; try done.

Lemma others_mutex f s : others s -> others (upd_mutex (AObj x) f s).
Proof. apply others_eq. upd. Qed.

(** [pthread_mutex_trylock] succeeds only when nobody is inside. *)
Lemma rg_trylock n s : outside s ->
  rg n (Act (pthread_mutex_trylock me (AObj x))) s
    (fun r s' => if r =? 0 then exists o q, q <= 0 /\ inside o q 0 s' else outside s').
Proof.
  intros Hs. apply (rg_atomic n _ s outside); [apply outside_stable| | |done].
  { intros r s1 s2. destruct (r =? 0); [|by apply outside_stable].
    intros (o & q & ? & ?) ?. exists o, q. split; [done|]. by eapply inside_stable. }
  intros s1 (HI & Hh & Hoth). unfold pthread_mutex_trylock, mbind, gets.
  destruct (m_holder (lock s1 x)) as [j|] eqn:Eh; simpl.
  { split; [reflexivity|]. split; [done|]. split; [congruence|done]. }
  destruct (inv_lock _ HI x x_in) as [I1 I2 I3].
  assert (ref (lock s1 x) <= 0) as Hr.
  { destruct (Z.leb_spec (ref (lock s1 x)) 0); [done|]. specialize (I2 ltac:(lia)). congruence. }
  assert (Guar me s1 (upd_mutex (AObj x) (set_m_holder (Some me)) s1)) as HG.
  { apply Guar_update; try (by upd).
    - intros j Hj. upd. split; congruence.
    - intros _. constructor; [by upd|rewrite mutex_upd_eq; simpl; intros; lia|intros _; upd; auto]. }
  split; [done|]. exists (owner (lock s1 x)), (ref (lock s1 x)). split; [done|].
  destruct HG as [HG _]. destruct (HG HI) as [HI' _]. unfold inside.
  split; [done|]. rt_simpl. split_and!; auto. by apply others_mutex.
Qed.

(** Updates by the thread that holds the mutex. *)
Lemma rg_held n s o r v o' r' v' f :
  (forall s, glob (f s) = glob s) -> (forall s i, tlsv (f s) i = tlsv s i) ->
  (forall s, pth (f s) = pth s) ->
  (forall s y, y <> x -> lock (f s) y = lock s y /\ uvar (f s) y = uvar s y) ->
  (forall s, inside o r v s -> m_id (lock (f s) x) = m_id (lock s x) /\
     m_holder (lock (f s) x) = Some me /\ owner (lock (f s) x) = o' /\
     ref (lock (f s) x) = r' /\ uvar (f s) x = v') ->
  (0 < r' -> o' = me) ->
  inside o r v s -> rg n (Act (modify f)) s (fun _ => inside o' r' v').
Proof.
  intros Hg Ht Hp Hy Hx Hr Hs. apply (rg_atomic n _ s (inside o r v));
    [apply inside_stable|intros _; apply inside_stable| |done].
  intros s1 H1. pose proof H1 as (HI & Hh & _). destruct (Hx s1 H1) as (E0 & E1 & E2 & E3 & E4).
  simpl. assert (Guar me s1 (f s1)) as HG.
  { apply Guar_update; rewrite ?Hg, ?Hp; try done.
    - intros y Hne. destruct (Hy s1 y Hne) as [-> ->]. done.
    - intros j Hj. rewrite E1, Hh. split; congruence.
    - intros _. destruct (inv_lock _ HI x x_in) as [I1 _ _].
      constructor; rewrite ?E0, ?E1, ?E2, ?E3; [done| |done]. intros. f_equal. symmetry. auto. }
  split; [done|]. destruct HG as [HG _]. destruct (HG HI) as [HI' _].
  split_and!; try done. eapply others_eq; [|apply H1].
  intros y Hne. destruct (Hy s1 y Hne) as [-> ->]. done.
Qed.

(** Opening the mutex with nobody inside. *)
Lemma rg_unlock n s o r : r <= 0 -> inside o r 0 s ->
  rg n (Act (pthread_mutex_unlock (AObj x))) s (fun _ => outside).
Proof.
  intros Hr Hs. apply (rg_atomic n _ s (inside o r 0));
    [apply inside_stable|intros _; apply outside_stable| |done].
  intros s1 (HI & Hh & Ho & Hr1 & Hv & Hoth). simpl.
  destruct (inv_lock _ HI x x_in) as [I1 _ _].
  assert (Guar me s1 (upd_mutex (AObj x) (set_m_holder None) s1)) as HG.
  { apply Guar_update; try (by upd).
    - intros j Hj. upd. split; congruence.
    - intros _. constructor; [by upd|rewrite mutex_upd_eq; simpl; intros; lia|intros _; upd; auto]. }
  split; [done|]. destruct HG as [HG _]. destruct (HG HI) as [HI' _]. split; [done|].
  split; [by rt_simpl|by apply others_mutex].
Qed.

Lemma rg_mutex_held n s o r v f o' r' :
  (forall m, m_id (f m) = m_id m /\ m_holder (f m) = m_holder m) ->
  (forall m, owner m = o -> ref m = r -> owner (f m) = o' /\ ref (f m) = r') ->
  (0 < r' -> o' = me) -> inside o r v s ->
  rg n (Act (modify (upd_mutex (AObj x) f))) s (fun _ => inside o' r' v).
Proof.
  intros Hf Ho Hr. apply rg_held; try (by upd); [|done].
  intros s' (_ & Hh & Ho' & Hr' & Hv & _). repeat rt_frame. rewrite mutex_upd_eq.
  destruct (Hf (lock s' x)) as [-> ->]. destruct (Ho (lock s' x) Ho' Hr') as [-> ->]. done.
Qed.
Lemma rg_uvar_held n s o r v f : (0 < r -> o = me) -> inside o r v s ->
  rg n (Act (modify (upd_uvar x f))) s (fun _ => inside o r (f v)).
Proof.
  intros Hr. apply rg_held; try (by upd); [|done].
  intros s' (_ & Hh & Ho' & Hr' & Hv & _). repeat rt_frame. rewrite uvar_upd_eq, Hv. done.
Qed.

Ltac inert_cmd :=
  first [ solve [auto with inert]
        | simpl; solve [auto with inert | apply inert_gets; apply _
                       | apply inert_massert; [apply _|done] ] ].
(** Runs one inert command, outside or inside the mutex. *)
Ltac run_out := eapply rg_bind; [apply _|apply rg_outside; [inert_cmd|eassumption]|cbv beta; intros].
Ltac run_in := eapply rg_bind; [apply _|apply rg_inside; [inert_cmd|eassumption]|cbv beta; intros].
Ltac ends_out := apply rg_ret; intros; by eapply outside_stable.
Ltac ends_in := apply rg_ret; intros; by eapply inside_stable.

Lemma rg_lock_attempt n clock s : outside s ->
  rg n (lock_attempt me (AObj x) clock) s
    (fun got s' => if got : bool then inside me 1 0 s' else outside s').
Proof.
  intros Hs. unfold lock_attempt. run_out. destruct (negb (_ =? me)); [ends_out|].
  eapply rg_bind; [apply _|by apply rg_trylock|]. cbv beta. intros m1 r s2 _ Hr.
  destruct (r =? 0); simpl; [|ends_out]. destruct Hr as (o & q & Hq & Hr).
  run_in. run_in. destruct (clock <=? _).
  - run_in. eapply rg_bind; [apply _|by eapply rg_unlock|]. intros. ends_out.
  - run_in. run_in. eapply rg_bind; [apply _|apply (rg_mutex_held _ _ o q 0 _ me q); eauto; lia|].
    cbv beta. intros. eapply rg_bind; [apply _|apply (rg_mutex_held _ _ me q 0 _ me 1); eauto|].
    cbv beta. intros. ends_in.
Qed.

(** A value read by a command, with a fact about it. *)
Lemma rg_read {A} n (m : M C A) s (P : rt C -> Prop) (F : A -> Prop) :
  (forall s s', P s -> Rely me s s' -> P s') ->
  (forall s, P s -> exists a, m s = Ok a s /\ F a) ->
  P s -> rg n (Act m) s (fun a s' => P s' /\ F a).
Proof.
  intros HP Hm. apply rg_atomic; [done| |].
  - intros a s1 s2 [? ?] ?. split; [by eapply HP|done].
  - intros s1 H1. destruct (Hm s1 H1) as (a & -> & Ha). by split; [reflexivity|].
Qed.
Ltac run_read F :=
  eapply rg_bind; [apply _|eapply (rg_read _ _ _ _ F); [| |eassumption]|cbv beta; intros].

Lemma enabled_true s : Inv s -> det_is_enabled me s = Ok true s.
Proof.
  intros [Hd He _]. unfold det_is_enabled, mbind, gets. destruct (Z.leb_spec (num_thr (glob s)) 1); [lia|].
  by rewrite He.
Qed.

Lemma rg_lock_body n clock s : outside s ->
  rg n (lock_body me (AObj x) clock) s
    (fun r s' => match r with inl _ => outside s' | inr _ => inside me 1 0 s' end).
Proof.
  intros Hs. unfold lock_body. eapply rg_bind; [apply _|by apply rg_lock_attempt|].
  cbv beta. intros m1 got s1 _ Hg. destruct got; [ends_in|].
  do 4 run_out. ends_out.
Qed.

Lemma rg_lock_acquire n id s : outside s ->
  rg n (lock_acquire me (AObj x) id) s (fun _ => inside me 1 0).
Proof.
  intros Hs. unfold lock_acquire. do 3 run_out.
  eapply rg_bind; [apply _|apply (rg_loop _ _ _ _ _ (fun _ => outside) _ _ (fun _ => inside me 1 0))|].
  - intros ?; apply outside_stable.
  - intros ? ? ? Ho. eapply rg_conseq; [by apply rg_lock_body|]. by intros [].
  - intros ?; apply inside_stable.
  - eassumption.
  - cbv beta. intros. do 4 run_in. ends_in.
Qed.

(** A thread that leaves [det_lock] holds the mutex, alone. *)
Lemma rg_det_lock n s : outside s -> rg n (det_lock E me (AObj x)) s (fun _ => inside me 1 0).
Proof.
  intros Hs. unfold det_lock.
  run_read (fun id => 0 < id).
  { apply outside_stable. }
  { intros s' [HI _]. eexists. split; [done|]. apply (inv_lock _ HI x x_in). }
  match goal with H : _ /\ 0 < ?i |- _ => destruct H as [? ?]; destruct (Z.ltb_spec i 0); [lia|] end.
  eapply rg_bind; [apply _|apply rg_outside; [done|eassumption]|cbv beta; intros].
  do 2 run_out. run_read (fun e => e = true).
  { apply outside_stable. }
  { intros s' [HI _]. exists true. split; [by apply enabled_true|done]. }
  match goal with H : _ /\ _ = true |- _ => destruct H as [? ->] end. simpl.
  run_out. run_read (fun m => (0 <? ref m) && (owner m =? me) = false).
  { apply outside_stable. }
  { intros s' (HI & Hh & _). eexists. split; [done|]. destruct (inv_lock _ HI x x_in) as [_ I2 _].
    destruct (Z.ltb_spec 0 (ref (lock s' x))), (Z.eqb_spec (owner (lock s' x)) me); try done.
    exfalso. apply Hh. rewrite I2 by lia. congruence. }
  match goal with H : _ /\ _ = false |- _ => destruct H as [? ->] end.
  eapply rg_bind; [apply _|by apply rg_lock_acquire|cbv beta; intros]. do 3 run_in. ends_in.
Qed.

(** A thread that leaves [det_unlock] left the critical section first. *)
Lemma rg_det_unlock n s : inside me 1 0 s -> rg n (det_unlock me (AObj x)) s (fun _ => outside).
Proof.
  intros Hs. unfold det_unlock, det_unlock_and_incr_clock. do 2 run_in.
  run_read (fun e => e = true).
  { apply inside_stable. }
  { intros s' [HI _]. exists true. split; [by apply enabled_true|done]. }
  match goal with H : _ /\ _ = true |- _ => destruct H as [? ->] end. simpl.
  do 3 run_in. eapply rg_bind; [apply _|apply (rg_mutex_held _ _ me 1 0 _ me 0); eauto|cbv beta; intros].
  { simpl. intros mx ? ->. done. }
  run_read (fun r => r = 0).
  { apply inside_stable. }
  { intros s' (_ & _ & _ & Hr & _). exists (ref (lock s' x)). done. }
  match goal with H : _ /\ _ = 0 |- _ => destruct H as [? ->] end. simpl.
  eapply rg_bind; [apply _| |].
  { eapply rg_bind; [apply _|apply (rg_mutex_held _ _ me 0 0 _ (-1) 0); eauto; lia|cbv beta; intros].
    run_in. eapply rg_bind; [apply _|apply (rg_mutex_held _ _ (-1) 0 0 _ (-1) 0); eauto; lia|cbv beta; intros].
    do 2 run_in. eapply (rg_unlock _ _ (-1) 0); [lia|eassumption]. }
  cbv beta. intros. do 2 run_out. ends_out.
Qed.

(** The assertions as positions with respect to every mutex. *)
Definition at_positions (h : list Z) s : Prop := Inv s /\ forall y, y ∈ X -> position me h s y.

Lemma at_outside s : x ∉ held -> at_positions held s <-> outside s.
Proof.
  intros Hx. split.
  - intros [HI Hp]. split; [done|]. split; [|by intros y Hy _; apply Hp].
    specialize (Hp x x_in). unfold position in Hp. by rewrite decide_False in Hp.
  - intros (HI & Hh & Ho). split; [done|]. intros y Hy. destruct (decide (y = x)) as [->|Hne].
    + unfold position. by rewrite decide_False.
    + by apply Ho.
Qed.
Lemma at_inside s : x ∉ held -> at_positions (x :: held) s <-> inside me 1 1 s.
Proof.
  intros Hx. assert (forall y, y <> x -> position me (x :: held) s y <-> position me held s y) as HE.
  { intros y Hne. unfold position. repeat case_decide; rewrite elem_of_cons in *; tauto. }
  split.
  - intros [HI Hp]. split; [done|]. pose proof (Hp x x_in) as Hpx. unfold position in Hpx.
    rewrite decide_True in Hpx by (by left). destruct Hpx as (? & ? & ? & ?).
    split_and!; try done. intros y Hy Hne. apply HE; auto.
  - intros (HI & Hh & ? & ? & ? & Ho). split; [done|]. intros y Hy.
    destruct (decide (y = x)) as [->|Hne]; [|by apply HE, Ho].
    unfold position. rewrite decide_True by (by left). done.
Qed.

(** ** The client *)

(** [cs[x]++; assert(cs[x] == 1); ...; cs[x]--;] between [det_lock] and [det_unlock]. *)
Definition critical_section (body : prog C unit) : prog C unit :=
  det_lock E me (AObj x) ;~
  Act (modify (upd_uvar x (fun v => v + 1))) ;~
  v <~ Act (gets (fun s => uvar s x)) ;;
  Act (massert (v =? 1) race) ;~
  body ;~
  Act (modify (upd_uvar x (fun v => v - 1))) ;~
  det_unlock me (AObj x) ;~
  Ret tt.

Lemma rg_critical n body s : x ∉ held ->
  (forall n s, at_positions (x :: held) s -> rg n body s (fun _ => at_positions (x :: held))) ->
  at_positions held s -> rg n (critical_section body) s (fun _ => at_positions held).
Proof.
  intros Hx Hbody Hs. apply at_outside in Hs; [|done]. unfold critical_section.
  eapply rg_bind; [apply _|by apply rg_det_lock|cbv beta; intros].
  eapply rg_bind; [apply _|apply rg_uvar_held; eauto|cbv beta; intros].
  run_read (fun v => v = 1).
  { apply inside_stable. }
  { intros s' (_ & _ & _ & _ & Hv & _). exists (uvar s' x). done. }
  match goal with H : _ /\ _ = 1 |- _ => destruct H as [? ->] end. simpl.
  eapply rg_bind; [apply _|apply rg_inside; [apply inert_ret; apply _|eassumption]|cbv beta; intros].
  eapply rg_bind; [apply _|apply Hbody; by apply at_inside|cbv beta; intros].
  eapply rg_bind; [apply _|apply rg_uvar_held; [|by apply at_inside]; eauto|cbv beta; intros].
  eapply rg_bind; [apply _|by apply rg_det_unlock|cbv beta; intros].
  apply rg_ret. intros. apply at_outside; [done|]. by eapply outside_stable.
Qed.
End Thread.

(** Clients: computation and properly nested critical sections. *)
Fixpoint client (me : Z) (p : script) : prog C unit :=
  match p with
  | Finish => Ret tt
  | Compute n k => Act (compute me n) ;~ client me k
  | Critical x body k => critical_section me x (client me body) ;~ client me k
  end.

Fixpoint well_nested (held : list Z) (p : script) : bool :=
  match p with
  | Finish => true
  | Compute _ k => well_nested held k
  | Critical x body k =>
      bool_decide (x ∈ X) && bool_decide (x ∉ held) &&
      well_nested (x :: held) body && well_nested held k
  end.

Lemma at_positions_stable me held s s' : at_positions me held s -> Rely me s s' ->
  at_positions me held s'.
Proof.
  intros [HI Hp] HR. destruct (HR HI) as [HI' Hk]. split; [done|]. intros y Hy.
  eapply position_kept; eauto.
Qed.
Lemma at_positions_same me held s s' : at_positions me held s -> same_locks s s' ->
  at_positions me held s' /\ Guar me s s'.
Proof.
  intros [HI Hp] HS. split; [|by apply Guar_same]. split; [by eapply Inv_same|]. intros y Hy.
  eapply position_kept; eauto. by apply kept_same.
Qed.

Lemma rg_client me n p held s : me ∈ T -> well_nested held p = true -> at_positions me held s ->
  rg (Rely me) (Guar me) is_race n (client me p) s (fun _ => at_positions me held).
Proof.
  intros Hme. revert n held s. induction p as [|w k IH|x body IHb k IHk]; intros n held s Hw Hs; simpl.
  - apply rg_ret. intros. by eapply at_positions_stable.
  - eapply rg_bind; [apply _| |].
    + eapply (rg_inert _ _ _ _ n _ s); [apply at_positions_stable|apply at_positions_same| |done].
      simpl. auto with inert.
    + cbv beta. intros. by apply IH.
  - simpl in Hw. repeat (apply andb_prop in Hw; destruct Hw as [Hw ?]).
    apply bool_decide_eq_true in Hw.
    match goal with H : bool_decide _ = true |- _ => apply bool_decide_eq_true in H end.
    eapply rg_bind; [apply _|eapply rg_critical; eauto|]. cbv beta. intros. by apply IHk.
Qed.
End Protocol.

(** A process whose threads run the scripts, from a state where nobody holds a mutex. *)
Definition start_process {C} `{PerfCounter C} (E : env) (s : rt C) (scripts : gmap Z script) : process :=
  mkProcess s (map_imap (fun i p => Some (client E i p)) scripts).

Record ready {C} (T X : list Z) (scripts : gmap Z script) (s : rt C) : Prop := {
  ready_inv : Inv T X s;
  ready_free x : x ∈ X -> m_holder (mutex s (AObj x)) = None;
  ready_spawned : spawned (pth s) = [];
  ready_scripts i p : scripts !! i = Some p -> i ∈ T /\ well_nested X [] p = true
}.

Lemma start_pool {C} `{PerfCounter C} E T X scripts s n : ready T X scripts s ->
  pool_ok (Rely T X) (Guar T X) is_race n (start_process E s scripts).
Proof.
  intros [HI Hf _ Hs] i t Hi. simpl in *. rewrite map_lookup_imap in Hi.
  apply bind_Some in Hi as (p & Hp & [= <-]). destruct (Hs i p Hp) as [HT Hw].
  eapply rg_conseq; [apply rg_client; eauto|done]. split; [done|]. intros y Hy.
  unfold position. rewrite decide_False by apply not_elem_of_nil. rewrite Hf; done.
Qed.

(** C5. Mutual exclusion. Threads run any scripts of computation and properly nested
    critical sections, each entered with [det_lock] and left with [det_unlock]; a thread
    that enters counts itself in an unprotected shared variable of the mutex and checks
    that it is alone. Under every schedule of the steps of the threads (every statement of
    the runtime is a step), no thread ever finds another one inside. *)
Theorem mutual_exclusion {C} `{PerfCounter C} E user T X scripts (s : rt C) p i t :
  ready T X scripts s -> reachable E user (start_process E s scripts) p ->
  threads p !! i = Some t -> step t (state p) <> Crashed race.
Proof.
  intros Hr Hp Ht Hc.
  eapply (pool_safe E user (Rely T X) (Guar T X) is_race); [by apply Guar_Rely| |
    by intros; apply start_pool| |exact Hp|exact Ht|exact Hc|done].
  - intros j s1 s2 [_ ->]. done.
  - apply (ready_spawned _ _ _ _ Hr).
Qed.

(** Two threads that contend for mutex 1; thread 1 also nests mutex 2 in it. *)
Import SimpleCounter Samples.
Module TwoThreads.
Definition scripts : gmap Z script :=
  {[1 := Critical 1 (Compute 3 (Critical 2 (Compute 1 Finish) Finish)) Finish;
    2 := Compute 2 (Critical 1 (Compute 5 Finish) (Compute 1 Finish))]}.

(** Both threads move in turn. *)
Definition alternate (n : nat) : list Z := concat (replicate n [1; 2]).

Lemma start_ready : ready [1; 2] [1; 2] scripts start.
Proof.
  split; [split|..]; [vm_compute; reflexivity| | | |reflexivity|].
  - intros i Hi. repeat (apply elem_of_cons in Hi as [->|Hi]; [reflexivity|]). by apply elem_of_nil in Hi.
  - intros i Hi. repeat (apply elem_of_cons in Hi as [->|Hi]; [by split; vm_compute|]).
    by apply elem_of_nil in Hi.
  - intros i Hi. repeat (apply elem_of_cons in Hi as [->|Hi]; [reflexivity|]). by apply elem_of_nil in Hi.
  - intros i p. unfold scripts. rewrite !lookup_insert_Some, lookup_singleton_Some.
    intros [[<- <-]|[_ [<- <-]]]; split; vm_compute; try reflexivity; repeat constructor.
Qed.
End TwoThreads.

(** After a hundred steps of each, thread 1 is inside and thread 2 wants the mutex. *)
Lemma mutual_exclusion_witness :
  match schedule environment no_user (TwoThreads.alternate 100)
          (start_process environment start TwoThreads.scripts) with
  | Some p => forall t, threads p !! 2 = Some t -> step t (state p) <> Crashed race
  | None => False
  end.
Proof.
  destruct (schedule _ _ _ _) as [p|] eqn:Ep; last first.
  { apply (f_equal (fun o => match o with Some _ => true | None => false end)) in Ep.
    by vm_compute in Ep. }
  intros t. eapply mutual_exclusion; [apply TwoThreads.start_ready|by eapply schedule_reachable].
Defined.
