(* ===== verification/TurnSafety.v ===== *)
(** [wait_for_turn] while the other threads run: what it guarantees as long as clocks only
    move forward. *)
From stdpp Require Import base list gmap strings.
From Stdlib Require Import ZArith Lia.
From S2P Require Import Prelude Queue Runtime Clock Sync Threads Samples Turn RelyGuarantee.
Open Scope m_scope.
Open Scope prog_scope.

Section Forward.
Context {C : Type} `{HC : PerfCounter C} `{!PerfCounterLaws C}.
Implicit Types s : rt C.

(** The other threads leave the entry of [me] alone, keep every entry well formed, move
    their own clocks forward only, and give a new thread a later clock than the one of
    some thread other than [me]: its creator. *)
Record forward (me : Z) s s' : Prop := {
  fw_me : worker s' me = worker s me;
  fw_wf : (forall i, 0 <= i < max_thr (glob s) -> clock_wf (worker s i)) ->
          forall i, 0 <= i < max_thr (glob s') -> clock_wf (worker s' i);
  fw_max : max_thr (glob s) <= max_thr (glob s');
  fw_clock i : 0 <= i < max_thr (glob s) -> i <> me -> logical_time s i <= logical_time s' i;
  fw_new i : max_thr (glob s) <= i < max_thr (glob s') -> i <> me ->
    exists c, c <> me /\ 0 <= c < max_thr (glob s) /\ logical_time s c < logical_time s' i
}.

#[export] Instance forward_refl me : Reflexive (forward me).
Proof. intros s. constructor; try done. intros; lia. Qed.
#[export] Instance forward_trans me : Transitive (forward me).
Proof.
  intros s1 s2 s3 [A1 A2 A3 A4 A5] [B1 B2 B3 B4 B5]. constructor.
  - congruence.
  - auto.
  - lia.
  - intros i Hi Hne. etrans; [apply A4; done|]. apply B4; [lia|done].
  - intros i Hi Hne. destruct (decide (i < max_thr (glob s2))).
    + destruct (A5 i ltac:(lia) Hne) as (c & ? & ? & ?). exists c. split_and!; try lia.
      specialize (B4 i ltac:(lia) Hne). lia.
    + destruct (B5 i ltac:(lia) Hne) as (c & Hc & Hc2 & ?).
      destruct (decide (c < max_thr (glob s1))).
      * exists c. split_and!; try lia. specialize (A4 c ltac:(lia) Hc). lia.
      * destruct (A5 c ltac:(lia) Hc) as (c' & ? & ? & ?). exists c'. split_and!; lia.
Qed.

Section Waiting.
Variable me : Z.
Abbreviation rg := (rg (forward me) sim (fun _ => True)).

Lemma forward_time s s' : forward me s s' -> logical_time s' me = logical_time s me.
Proof. intros HF. unfold logical_time. by rewrite (fw_me _ _ _ HF). Qed.
Lemma forward_paused s s' : paused s me -> forward me s s' -> paused s' me.
Proof.
  intros [H1 H2 H3] HF. split.
  - pose proof (fw_max _ _ _ HF). lia.
  - by rewrite (fw_me _ _ _ HF).
  - by apply (fw_wf _ _ _ HF).
Qed.
Lemma forward_precedes s s' i : 0 <= i < max_thr (glob s) -> i <> me -> forward me s s' ->
  precedes s me i -> precedes s' me i.
Proof.
  intros Hi Hne HF. pose proof (fw_clock _ _ _ HF i Hi Hne). unfold precedes.
  rewrite (forward_time s s' HF). lia.
Qed.
Lemma forward_turn s s' : forward me s s' -> has_turn s me -> has_turn s' me.
Proof.
  intros HF [Hme Ht]. pose proof (fw_max _ _ _ HF). split; [lia|]. intros i Hi Hne.
  destruct (decide (i < max_thr (glob s))) as [Hlt|Hge].
  - apply (forward_precedes s s'); try done; [lia|]. apply Ht; [lia|done].
  - destruct (fw_new _ _ _ HF i ltac:(lia) Hne) as (c & Hc & Hr & Hlt).
    specialize (Ht c Hr Hc). unfold precedes in *. rewrite (forward_time s s' HF). lia.
Qed.

(** What [me] knows after [i - 1] comparisons of a scan of [n] threads. *)
Definition scanned (t n i : Z) s : Prop :=
  paused s me /\ logical_time s me = t /\ me < n <= max_thr (glob s) /\
  forall j, 1 <= j < i -> precedes s me ((me + j) mod n).

Lemma mod_ne n j : 0 <= me < n -> 1 <= j < n -> (me + j) mod n <> me.
Proof. intros. rewrite Queue.mod_wrap by lia. zcases. Qed.

Lemma scanned_stable t n i s s' : i <= n -> scanned t n i s -> forward me s s' -> scanned t n i s'.
Proof.
  intros Hi (Hp & Ht & Hn & Hj) HF. split; [by eapply forward_paused|].
  split; [by rewrite (forward_time s s' HF)|].
  pose proof (fw_max _ _ _ HF). split; [lia|]. intros j Hj'. destruct Hp as [Hme _ _].
  pose proof (Z.mod_pos_bound (me + j) n ltac:(lia)).
  apply (forward_precedes s s'); auto; [lia|]. apply mod_ne; lia.
Qed.
Lemma scanned_sim t n i s s' : scanned t n i s -> s ≈ s' -> scanned t n i s'.
Proof.
  intros (Hp & Ht & Hn & Hj) E. split; [by eapply paused_sim|].
  rewrite <- (logical_time_sim _ _ _ E), <- (sim_glob _ _ E). split; [done|]. split; [done|].
  intros j Hj'. specialize (Hj j Hj'). unfold precedes in *. by rewrite <- !(logical_time_sim _ _ _ E).
Qed.

(** One action of the thread, as seen between interferences. *)
Lemma rg_one {A} k (m : M C A) s (P : rt C -> Prop) (Q : A -> rt C -> Prop) :
  (forall s s', P s -> forward me s s' -> P s') ->
  (forall a s s', Q a s -> forward me s s' -> Q a s') ->
  (forall s, P s -> exists a s', m s = Ok a s' /\ s ≈ s' /\ Q a s') ->
  P s -> rg k (Act m) s Q.
Proof.
  intros HP HQ Hm Hs. apply rg_act. intros s1 Hs1.
  destruct (Hm s1) as (a & s2 & -> & ? & ?); [by eapply HP|]. split; [done|]. intros. by eapply HQ.
Qed.
Lemma rg_returns {A} k (m : M C A) s (P : rt C -> Prop) (Q : A -> rt C -> Prop) :
  (forall s s', P s -> forward me s s' -> P s') ->
  (forall a s s', Q a s -> forward me s s' -> Q a s') ->
  (forall a s s', Q a s -> s ≈ s' -> Q a s') ->
  (forall s, P s -> exists a, returns m s a s /\ Q a s) ->
  P s -> rg k (Act m) s Q.
Proof.
  intros HP HQ HE Hm. apply rg_one; try done. intros s1 H1.
  destruct (Hm s1 H1) as (a & (s2 & E & Es) & Hq). exists a, s2. split_and!; try done.
  eapply HE; [done|by symmetry].
Qed.

Lemma rg_scan k t n i c s : 1 <= i -> i + Z.of_nat c = n -> scanned t n i s ->
  rg k (scan me t n i c) s (fun ok s' => paused s' me /\ logical_time s' me = t /\
                              (ok = true -> scanned t n n s')).
Proof.
  revert k i s. induction c as [|c IH]; intros k i s Hi Hc Hs; simpl.
  { apply rg_ret. intros s1 H1. apply (scanned_stable _ _ _ _ s1) in Hs; [|lia|done].
    replace n with i in * by lia. split_and!; [apply Hs..|done]. }
  eapply rg_bind; [apply _| |].
  - apply (rg_returns _ _ _ (scanned t n i) (fun other s' => scanned t n i s' /\
      (negb ((other <? t) || ((other =? t) && (Z.rem (me + i) n <? me))) = true ->
       precedes s' me ((me + i) mod n)))); [| | | |done].
    + intros. eapply scanned_stable; [|done..]. lia.
    + intros o s1 s2 [H1 H2] HF. split; [eapply scanned_stable; [|done..]; lia|].
      intros Ho. destruct H1 as ([Hme _ _] & _ & Hn & _).
      pose proof (Z.mod_pos_bound (me + i) n ltac:(lia)).
      apply (forward_precedes s1 s2); auto; [lia|]. apply mod_ne; lia.
    + intros o s1 s2 [H1 H2] HE. split; [by eapply scanned_sim|]. intros Ho. specialize (H2 Ho).
      unfold precedes in *. by rewrite <- !(logical_time_sim _ _ _ HE).
    + intros s1 (Hp & Ht & Hn & Hj). pose proof Hp as [Hme Hoff Hwf].
      exists (logical_time s1 (Z.rem (me + i) n)). rewrite Z.rem_mod_nonneg by lia.
      pose proof (Z.mod_pos_bound (me + i) n ltac:(lia)).
      split; [apply get_logical_clock_returns; [done|apply Hwf; lia]|]. split; [done|].
      intros Hpass. apply passes_spec; [apply mod_ne; lia|]. unfold passes. by rewrite Ht.
  - cbv beta. intros m o s1 _ [H1 H2]. destruct (_ || _) eqn:Eo.
    + apply rg_ret. intros s2 HF. apply (scanned_stable _ _ _ _ s2) in H1; [|lia|done].
      split_and!; [apply H1..|done].
    + apply IH; [lia|lia|]. destruct H1 as (? & ? & ? & Hj). split_and!; try done; try lia.
      intros j Hj'. destruct (decide (j = i)) as [->|]; [by apply H2|]. apply Hj. lia.
Qed.

Lemma scanned_all t n s : scanned t n n s -> max_thr (glob s) = n -> has_turn s me.
Proof.
  intros ([Hme _ _] & _ & Hn & Hj) E. rewrite E in Hme. split; [lia|]. intros id Hid Hne.
  specialize (Hj ((id - me) mod n)). rewrite Z.add_mod_idemp_r in Hj by lia.
  replace (me + (id - me)) with id in Hj by lia. rewrite (Z.mod_small id n) in Hj by lia.
  apply Hj. rewrite Queue.mod_wrap_neg by lia. zcases.
Qed.

(** [me] is paused at time [t]; and, once it has the turn, that too. *)
Definition at_time (t : Z) s : Prop := paused s me /\ logical_time s me = t.
Definition turn_at (t : Z) s : Prop := at_time t s /\ has_turn s me.

Lemma at_time_stable t s s' : at_time t s -> forward me s s' -> at_time t s'.
Proof. intros [Hp Ht] HF. split; [by eapply forward_paused|]. by rewrite (forward_time s s' HF). Qed.
Lemma at_time_sim t s s' : at_time t s -> s ≈ s' -> at_time t s'.
Proof. intros [Hp Ht] E. split; [by eapply paused_sim|]. by rewrite <- (logical_time_sim _ _ _ E). Qed.
Lemma turn_at_stable t s s' : turn_at t s -> forward me s s' -> turn_at t s'.
Proof. intros [? ?] HF. split; [by eapply at_time_stable|by eapply forward_turn]. Qed.
Lemma turn_at_sim t s s' : turn_at t s -> s ≈ s' -> turn_at t s'.
Proof. intros [? ?] E. split; [by eapply at_time_sim|by eapply has_turn_sim]. Qed.

(** Reports and statistics change nothing. *)
Lemma rg_DBG k l f a s (P : rt C -> Prop) :
  (forall s s', P s -> forward me s s' -> P s') -> (forall s s', P s -> s ≈ s' -> P s') ->
  (forall s, P s -> paused s me) -> P s -> rg k (Act (DBG me l f a)) s (fun _ => P).
Proof.
  intros HP HE Hp. apply rg_returns; try done; [intros _; done..|]. intros s1 H1. exists tt.
  split; [|done]. apply DBG_returns. by apply Hp.
Qed.

Lemma rg_wait_body k t s : at_time t s ->
  rg k (wait_body me t tt) s
    (fun r s' => match r with inl _ => at_time t s' | inr t' => t' = t /\ turn_at t s' end).
Proof.
  intros Hs. unfold wait_body. eapply rg_bind; [apply _| |].
  { apply (rg_one _ _ _ (at_time t) (fun n s' => scanned t n 1 s')); [..|done].
    - apply at_time_stable.
    - intros n a b Ha HF. eapply scanned_stable; [|done..]. destruct Ha as ([? _ _] & _ & ? & _). lia.
    - intros s1 [Hp Ht]. eexists _, s1. split; [done|]. split; [done|].
      split; [done|]. split; [done|]. pose proof (paused_me _ _ Hp). split; [lia|]. intros; lia. }
  cbv beta. intros m n s1 _ H1. eapply rg_bind; [apply _|apply rg_scan; [lia| |done]|].
  { destruct H1 as ([Hme _ _] & _ & Hn & _). lia. }
  cbv beta. intros m2 ok s2 _ (Hp & Ht & Hok). destruct ok; simpl.
  2: { apply rg_ret. intros. eapply at_time_stable; [by split|done]. }
  specialize (Hok eq_refl). eapply rg_bind; [apply _| |].
  { apply (rg_one _ _ _ (scanned t n n) (fun mt s' => at_time t s' /\ (mt = n -> turn_at t s'))); [..|done].
    - intros. eapply scanned_stable; [|done..]. lia.
    - intros mt a b [Ha Hb] HF. split; [by eapply at_time_stable|]. intros. eapply turn_at_stable; eauto.
    - intros a Ha. eexists _, a. split; [done|]. split; [done|]. split; [split; apply Ha|].
      intros E. split; [split; apply Ha|]. by eapply scanned_all. }
  cbv beta. intros m3 mt s3 _ [H3 H4]. destruct (Z.eqb_spec mt n) as [E|]; simpl.
  - specialize (H4 E). eapply rg_bind; [apply _| |].
    { apply (rg_DBG _ _ _ _ _ (turn_at t)); [apply turn_at_stable|apply turn_at_sim| |done].
      by intros ? [[? _] _]. }
    cbv beta. intros m4 _ s4 _ H5. eapply rg_bind; [apply _| |].
    { apply (rg_one _ _ _ (turn_at t) (fun _ => turn_at t)); [apply turn_at_stable|intros _; apply turn_at_stable| |done].
      intros a Ha. eexists tt, _. split; [done|].
      split; [|eapply turn_at_sim; [done|]]; symmetry; apply upd_statv_sim. }
    cbv beta. intros. apply rg_ret. intros. split; [done|]. by eapply turn_at_stable.
  - eapply rg_bind; [apply _| |].
    { apply (rg_DBG _ _ _ _ _ (at_time t)); [apply at_time_stable|apply at_time_sim| |done].
      by intros ? [? _]. }
    cbv beta. intros. apply rg_ret. intros. by eapply at_time_stable.
Qed.

Lemma rg_wait k t s : at_time t s ->
  rg k (wait_for_turn me) s (fun t' s' => t' = t /\ turn_at t s').
Proof.
  intros Hs. unfold wait_for_turn. eapply rg_bind; [apply _| |].
  { apply (rg_one _ _ _ (at_time t) (fun mt s' => at_time t s' /\ mt <> 0)); [..|done].
    - apply at_time_stable.
    - intros a b c [? ?] ?. split; [by eapply at_time_stable|done].
    - intros a Ha. eexists _, a. split_and!; try done. destruct Ha as [[? _ _] _]. lia. }
  cbv beta. intros m mt s1 _ [H1 H2]. destruct (Z.eqb_spec mt 0); [done|].
  eapply rg_bind; [apply _| |].
  { apply (rg_one _ _ _ (at_time t) (fun _ => at_time t)); [apply at_time_stable|intros _; apply at_time_stable| |done].
    intros a Ha. exists tt, a. unfold mbind, gets. simpl. rewrite (paused_off _ _ (proj1 Ha)). done. }
  cbv beta. intros m2 _ s2 _ H3. eapply rg_bind; [apply _| |].
  { apply (rg_returns _ _ _ (at_time t) (fun my s' => at_time t s' /\ my = t)); [..|done].
    - apply at_time_stable.
    - intros a b c [? ?] ?. split; [by eapply at_time_stable|done].
    - intros a b c [? ?] ?. split; [by eapply at_time_sim|done].
    - intros a [Hp Ht]. exists (logical_time a me). split; [|done].
      apply get_logical_clock_returns; [apply Hp|]. apply Hp. apply Hp. }
  cbv beta. intros m3 my s3 _ [H4 ->].
  apply (rg_loop _ _ _ _ _ (fun _ => at_time t)).
  - intros _. apply at_time_stable.
  - intros m4 [] s4 H5. eapply rg_conseq; [by apply rg_wait_body|]. done.
  - intros b a a' [? ?] ?. split; [done|]. by eapply turn_at_stable.
  - done.
Qed.
End Waiting.
End Forward.

(** C6. The turn under interference. While thread [me], its clock paused, is inside
    [wait_for_turn], the other threads run: their clocks move forward and threads are
    created, at any points between the reads of the scan. Then [wait_for_turn] never fails
    its assertion, and if it returns, it returns the logical time of [me], and at that
    moment [me] precedes every other thread. *)
Theorem wait_for_turn_safe {C} `{PerfCounter C} `{!PerfCounterLaws C} (s : rt C) me p' s' :
  paused s me -> interleaved (forward me) (wait_for_turn me) s p' s' ->
  (forall w, step p' s' <> Crashed w) /\
  forall t, p' = Ret t -> t = logical_time s me /\ has_turn s' me.
Proof.
  intros Hp Hi. assert (at_time me (logical_time s me) s) as Ht by done. split.
  - intros w Hw. eapply (rg_no_crash (forward me) sim (fun _ => True)); [exact Hi| |exact Hw|done].
    intros n. by apply rg_wait.
  - intros t ->. destruct (rg_result (forward me) sim (fun _ => True) _ _ _ _
      (fun t s' => t = logical_time s me /\ turn_at me (logical_time s me) s') Hi) as [-> [_ ?]];
      [|done]. intros n. by apply rg_wait.
Qed.

(** At every moment exactly one of the created threads has the turn. *)
Lemma one_thread_has_the_turn {C} `{PerfCounter C} (s : rt C) :
  0 < max_thr (glob s) -> exists i, has_turn s i /\ forall j, has_turn s j -> j = i.
Proof.
  intros Hm. destruct (has_turn_exists s Hm) as [i Hi]. exists i. split; [done|].
  intros j Hj. by eapply has_turn_unique.
Qed.

(** C40. [wait_for_turn] of a thread whose clock is paused, with the other threads standing
    still: it comes back exactly when the thread has the turn, after a single scan, with its
    logical time as the answer and the state unchanged but for the log and the statistics;
    otherwise it scans for ever. *)
Theorem wait_for_turn_iff {C} `{PerfCounter C} `{!PerfCounterLaws C} (s : rt C) me :
  paused s me ->
  (has_turn s me -> forall n, exists s', run (S n) (wait_for_turn me) s = Done (logical_time s me) s' /\ s' ≈ s) /\
  (~ has_turn s me -> forall n, run n (wait_for_turn me) s = OutOfFuel).
Proof.
  intros Hp. split; intros Ht n; [|by apply wait_no_turn].
  by apply (wait_turn n s me).
Qed.

(** *** Witnesses *)

(** Counted events of another thread are interference of the kind the theorem allows. *)
Lemma compute_forward {C} `{PerfCounter C} `{!PerfCounterLaws C} (s : rt C) me i n s' :
  i <> me -> 0 <= n -> compute i n s = Ok tt s' -> forward me s s'.
Proof.
  intros Hne Hn [= <-].
  assert (forall j, worker_time (worker s j) <= worker_time (worker (upd_worker i (fun w =>
    match fds w with FdsOpen c => set_fds (FdsOpen (pc_events n c)) w | _ => w end) s) j)) as Ht.
  { intros j. rewrite worker_upd. case_decide as E; [subst j|done].
    unfold worker_time. destruct (fds (worker s i)) eqn:Ef; rewrite ?Ef; try done.
    cbn [fds set_fds hw_clock_enabled sw_clock hw_clock]. destruct (hw_clock_enabled (worker s i)); [|done]. rewrite pc_events_raw.
    destruct (pc_running c); lia. }
  constructor.
  - by rewrite worker_upd_ne.
  - intros Hwf j Hj. repeat rt_frame. specialize (Hwf j Hj). rewrite worker_upd.
    case_decide as E; [subst j|done]. unfold clock_wf in *. destruct (fds (worker s i)) eqn:Ef; rewrite ?Ef; try done.
    simpl. destruct Hwf as [Hr Hv]. rewrite pc_events_running, pc_events_raw, Hr. split; [done|].
    intros E. rewrite E. auto.
  - done.
  - intros j _ _. apply Ht.
  - intros j Hj. repeat rt_frame. lia.
Qed.

Lemma steps_interleaved {C A} (R : rt C -> rt C -> Prop) (p0 p p' : prog C A) s0 s s' :
  interleaved R p0 s0 p s -> steps p s p' s' -> interleaved R p0 s0 p' s'.
Proof.
  intros Hi Hs. revert Hi. induction Hs as [|? ? ? ? ? ? E _ IH]; [done|].
  intros Hi. apply IH. by eapply inter_self.
Qed.

Import SimpleCounter Samples.

(** Thread 1 is paused at time 10; thread 0 runs at time 8, thread 2 at time 15. *)
Definition waiting : rt counter := three (running 0 8) (stopped 1 4 10) (running 2 15).
Definition later : rt counter := three (mkWorker 0 0 0 100 (FdsOpen (mkCounter 3 true)) 0 8 true false true 0 true 0)
  (stopped 1 4 10) (running 2 15).

Lemma waiting_paused : paused waiting 1.
Proof. split; [done|done|]. apply (three_entries (fun _ => clock_wf)); done. Qed.
Lemma later_paused : paused later 1.
Proof. split; [done|done|]. apply (three_entries (fun _ => clock_wf)); done. Qed.
Lemma later_turn : has_turn later 1.
Proof.
  split; [done|]. intros i Hi Hne. assert (i = 0 \/ i = 2) as [->| ->] by (simpl in Hi; lia);
    unfold precedes; by left.
Qed.

(** Thread 0 moves from 8 to 11 and thread 1 gets the turn. *)
Lemma wait_for_turn_safe_witness :
  exists s', interleaved (forward 1) (wait_for_turn 1) waiting (Ret 10) s' /\ has_turn s' 1.
Proof.
  assert (forward 1 waiting later) as HF by (by apply (compute_forward _ _ 0 3)).
  destruct (wait_turn 1 later 1 later_paused later_turn) as (s' & Er & _).
  assert (interleaved (forward 1) (wait_for_turn 1) waiting (Ret 10) s') as Hi.
  { eapply steps_interleaved; [|by apply (run_steps 2)].
    eapply inter_others; [apply inter_refl|exact HF]. }
  exists s'. split; [exact Hi|].
  exact (proj2 (proj2 (wait_for_turn_safe waiting 1 (Ret 10) s' waiting_paused Hi) 10 eq_refl)).
Defined.

Lemma one_thread_has_the_turn_witness :
  exists i, has_turn waiting i /\ forall j, has_turn waiting j -> j = i.
Proof. exact (one_thread_has_the_turn waiting eq_refl). Defined.

Lemma wait_for_turn_iff_witness :
  (forall n, exists s', run (S n) (wait_for_turn 1) later = Done 10 s' /\ s' ≈ later) /\
  (forall n, run n (wait_for_turn 1) waiting = OutOfFuel).
Proof.
  split.
  - exact (proj1 (wait_for_turn_iff later 1 later_paused) later_turn).
  - apply (proj2 (wait_for_turn_iff waiting 1 waiting_paused)). intros [_ Ht].
    destruct (Ht 0 ltac:(done) ltac:(done)) as [Hl|[Hl _]]; done.
Defined.
