(* ===== verification/Mutexes.v ===== *)
(** What [det_lock] and [det_unlock] do when they run to their end: every branch, as exact
    state changes, and the specification of a recursive lock they refine. *)
From stdpp Require Import base list gmap strings.
From Stdlib Require Import ZArith Lia.
From S2P Require Import Prelude Queue Runtime Clock Sync Threads Samples Turn.
Open Scope m_scope.
Open Scope prog_scope.

Section Mutexes.
Context {C : Type} `{HC : PerfCounter C} `{!PerfCounterLaws C}.
Variable E : env.
Implicit Types s : rt C.

(** *** Commuting updates *)

Lemma worker_mutex_comm i a f g s :
  upd_worker i g (upd_mutex a f s) = upd_mutex a f (upd_worker i g s).
Proof. done. Qed.
Lemma worker_glob_comm i f g s : upd_worker i g (upd_glob f s) = upd_glob f (upd_worker i g s).
Proof. done. Qed.
Lemma mutex_glob_comm a f g s : upd_mutex a g (upd_glob f s) = upd_glob f (upd_mutex a g s).
Proof. done. Qed.
Lemma tick_tick j k (w : worker_args C) : tick j (tick k w) = tick (k + j) w.
Proof. unfold tick, set_sw_clock. simpl. f_equal. lia. Qed.
Lemma tick_0 (w : worker_args C) : tick 0 w = w.
Proof. unfold tick, set_sw_clock. destruct w. simpl. f_equal. lia. Qed.

(** *** The state of a thread inside an operation

    [paused_at me a s k f]: [s] after [me] stopped its clock, advanced it by [k], and
    updated mutex [a] by [f]. *)
Section Operation.
Variables (me : Z) (a : addr).

Definition paused_at s (k : Z) (f : det_mutex -> det_mutex) : rt C :=
  upd_mutex a f (upd_worker me (fun w => tick k (stop_clock w)) s).

(** The end of an operation: the clock runs again if it ran at the start. *)
Definition resumed (w0 w : worker_args C) : worker_args C :=
  if hw_clock_enabled w0 then start_clock w else w.
Definition back_at s (k : Z) (f : det_mutex -> det_mutex) : rt C :=
  upd_mutex a f (upd_worker me (fun w => resumed w (tick k (stop_clock w))) s).

Record entered s : Prop := {
  in_range : 0 <= me < max_thr (glob s);
  in_wf i : 0 <= i < max_thr (glob s) -> clock_wf (worker s i)
}.
Record enabled s : Prop := {
  is_entered : entered s;
  is_multi : 1 < num_thr (glob s);
  is_enabled : my_det_enabled (tlsv s me) = true
}.

(** The other threads have all passed time [t] of [me]. *)
Definition ahead s (t : Z) : Prop :=
  forall id, 0 <= id < max_thr (glob s) -> id <> me ->
    t < logical_time s id \/ (t = logical_time s id /\ me < id).

Lemma paused_at_mutex s k f g : upd_mutex a g (paused_at s k f) = paused_at s k (fun m => g (f m)).
Proof. apply mutex_upd_upd. Qed.
Lemma paused_at_tick s k j f :
  upd_worker me (fun w => set_sw_clock (sw_clock w + j) w) (paused_at s k f) ≈ paused_at s (k + j) f.
Proof.
  unfold paused_at. rewrite worker_mutex_comm, worker_upd_upd. apply upd_mutex_proper, upd_worker_ext.
  apply tick_tick.
Qed.
Lemma paused_at_self s k f : worker (paused_at s k f) me = tick k (stop_clock (worker s me)).
Proof. unfold paused_at. by rt_simpl. Qed.
Lemma paused_at_other s k f i : i <> me -> worker (paused_at s k f) i = worker s i.
Proof. intros. unfold paused_at. by rt_simpl. Qed.
Lemma paused_at_lock s k f : mutex (paused_at s k f) a = f (mutex s a).
Proof. unfold paused_at. by rt_simpl. Qed.
Lemma paused_at_glob s k f : glob (paused_at s k f) = glob s.
Proof. done. Qed.

Lemma paused_at_paused s k f : entered s -> paused (paused_at s k f) me.
Proof.
  intros [Hr Hw]. split; [done|..].
  - rewrite paused_at_self. unfold tick. simpl. apply stop_clock_stopped. auto.
  - intros i Hi. destruct (decide (i = me)) as [->|Hne].
    + rewrite paused_at_self. apply tick_wf, stop_clock_wf. auto.
    + rewrite paused_at_other by done. auto.
Qed.
Lemma paused_at_time s k f : logical_time (paused_at s k f) me = logical_time s me + k.
Proof. unfold logical_time. by rewrite paused_at_self, tick_time, stop_clock_time. Qed.
Lemma paused_at_clock s k f : entered s ->
  sw_clock (worker (paused_at s k f) me) + hw_clock (worker (paused_at s k f) me) =
  logical_time s me + k.
Proof.
  intros He. rewrite <- (paused_at_time s k f). unfold logical_time, worker_time.
  by rewrite (paused_off _ _ (paused_at_paused s k f He)).
Qed.
Lemma paused_at_turn s k f t : entered s -> ahead s t -> logical_time s me + k <= t ->
  has_turn (paused_at s k f) me.
Proof.
  intros [Hr _] Ha Hk. split; [done|]. intros id Hid Hne. unfold precedes.
  rewrite paused_at_time. unfold logical_time at 2 4. rewrite paused_at_other by done.
  specialize (Ha id Hid Hne). unfold logical_time in *. lia.
Qed.

(** *** The commands of the operations, from such a state *)

Section Commands.
Variables (s : rt C) (k : Z) (f : det_mutex -> det_mutex) (s1 : rt C).
Hypothesis He : entered s.
Hypothesis E1 : s1 ≈ paused_at s k f.

Lemma off1 : hw_clock_enabled (worker s1 me) = false.
Proof. rewrite (sim_worker _ _ E1). apply (paused_at_paused s k f He). Qed.

Lemma op_DBG l fm ar : returns (DBG me l fm ar) s1 tt (paused_at s k f).
Proof. rewrite <- E1. apply DBG_returns, off1. Qed.

Lemma op_wait n t : ahead s t -> logical_time s me + k <= t ->
  finishes (S n) (wait_for_turn me) s1 (logical_time s me + k) (paused_at s k f).
Proof.
  intros Ha Hk. rewrite <- (paused_at_time s k f), <- (logical_time_sim _ _ _ E1), <- E1.
  apply wait_turn; [eapply paused_sim|eapply has_turn_sim]; try (symmetry; exact E1).
  - by apply paused_at_paused.
  - by eapply paused_at_turn.
Qed.

Lemma op_clock : returns (get_logical_clock me me) s1 (logical_time s me + k) (paused_at s k f).
Proof.
  rewrite <- (paused_at_time s k f), <- (logical_time_sim _ _ _ E1), <- E1.
  apply get_logical_clock_returns; [apply off1|].
  pose proof (paused_at_paused s k f He) as [_ _ Hw]. rewrite (sim_worker _ _ E1). apply Hw, He.
Qed.

Lemma op_tick j : returns (incr_sw_clock me j) s1 tt (paused_at s (k + j) f).
Proof.
  eexists. split; [done|]. rewrite <- paused_at_tick. by rewrite E1.
Qed.

Lemma op_mutex g : returns (modify (upd_mutex a g)) s1 tt (paused_at s k (fun m => g (f m))).
Proof. eexists. split; [done|]. by rewrite E1, paused_at_mutex. Qed.

Lemma op_assert_time : logical_time s me + k < MAX_LOGICAL_CLOCK ->
  returns (assert_time me) s1 tt (paused_at s k f).
Proof.
  intros Hk. unfold assert_time, GET_CLOCK. mget. sim_rw E1. rewrite paused_at_clock by done.
  destruct (Z.ltb_spec (logical_time s me + k) MAX_LOGICAL_CLOCK); [|lia]. by apply returns_ret_sim.
Qed.

Lemma op_AddQ q : m_queue (f (mutex s a)) = q -> Queue.wf q -> Queue.count q <> Queue.capacity q ->
  returns (mutex_AddQ me a) s1 1 (paused_at s k (fun m => set_m_queue (Queue.pushed q me) (f m))).
Proof.
  intros Eq Hw Hc. unfold mutex_AddQ. mget. sim_rw E1. rewrite paused_at_lock, Eq.
  rewrite Queue.AddQ_room by done. eexists. split; [done|]. cbn [snd]. by rewrite E1, paused_at_mutex.
Qed.
Lemma op_DelQ q : m_queue (f (mutex s a)) = q -> Queue.wf q -> Queue.head q <> Queue.tail q ->
  returns (mutex_DelQ a) s1 (Queue.slot 0 q 0)
    (paused_at s k (fun m => set_m_queue (Queue.popped q) (f m))).
Proof.
  intros Eq Hw Hne. unfold mutex_DelQ. mget. sim_rw E1. rewrite paused_at_lock, Eq.
  unfold Queue.DelQ. destruct (Z.eqb_spec (Queue.head q) (Queue.tail q)); [done|].
  rewrite (Queue.head_slot 0), c_rem_pos by (done || destruct Hw; lia).
  eexists. split; [done|]. cbn [snd]. rewrite E1, paused_at_mutex. done.
Qed.
Lemma op_GetHeadQ q : m_queue (f (mutex s a)) = q -> Queue.wf q -> Queue.head q <> Queue.tail q ->
  returns (mutex_GetHeadQ a) s1 (Queue.slot 0 q 0) (paused_at s k f).
Proof.
  intros Eq Hw Hne. unfold mutex_GetHeadQ. mget. sim_rw E1. rewrite paused_at_lock, Eq.
  rewrite (Queue.GetHeadQ_spec 0) by done. rewrite (Queue.contents_pop 0) by done.
  by apply returns_ret_sim.
Qed.

Lemma op_resume : fds (worker s me) <> FdsFreed ->
  returns (resume_logical_clock me (pause_ret (worker s me))) s1 tt (back_at s k f).
Proof.
  intros Hf.
  assert (fds (worker s1 me) <> FdsFreed) as Hf1.
  { rewrite (sim_worker _ _ E1), paused_at_self. by apply stop_clock_fds. }
  destruct (resume_returns me (pause_ret (worker s me)) s1 Hf1) as (s2 & Er & Es).
  exists s2. split; [done|]. rewrite Es. unfold pause_ret, back_at. 
  destruct (hw_clock_enabled (worker s me)) eqn:Eh; simpl; rewrite E1; unfold paused_at.
  - rewrite worker_mutex_comm, worker_upd_upd. apply upd_mutex_proper, upd_worker_ext.
    unfold resumed. by rewrite Eh.
  - apply upd_mutex_proper, upd_worker_ext. unfold resumed. by rewrite Eh.
Qed.
End Commands.

#[export] Instance paused_at_proper k f : Proper (sim ==> sim) (fun s => paused_at s k f).
Proof. intros s1 s2 Es. unfold paused_at. by rewrite Es. Qed.
#[export] Instance back_at_proper k f : Proper (sim ==> sim) (fun s => back_at s k f).
Proof. intros s1 s2 Es. unfold back_at. by rewrite Es. Qed.
Lemma entered_sim s s1 : s1 ≈ s -> entered s -> entered s1.
Proof.
  intros E1 [Hr Hw]. split; rewrite (sim_glob _ _ E1); [done|]. intros i Hi.
  rewrite (sim_worker _ _ E1). auto.
Qed.

Lemma op_pause s s1 : entered s -> s1 ≈ s ->
  returns (disable_logical_clock me) s1 (pause_ret (worker s me)) (paused_at s 0 (fun m => m)).
Proof.
  intros He E1. pose proof (entered_sim _ _ E1 He) as [Hr Hw].
  destruct (disable_returns me s1 (Hw me Hr)) as (s' & Er & Es).
  exists s'. rewrite <- (sim_worker _ _ E1). split; [done|]. rewrite Es. unfold paused_at. rewrite E1.
  transitivity (upd_worker me (fun w => tick 0 (stop_clock w)) s).
  - apply upd_worker_ext. by rewrite tick_0.
  - constructor; intros; repeat rt_frame; rewrite ?mutex_upd; repeat case_decide; subst; done.
Qed.

(** [update_last_sync] moves the base state. *)
Definition synced (t : Z) s : rt C := upd_glob (set_last_sync_logical_time t) s.
Lemma synced_entered t s : entered s -> entered (synced t s).
Proof. by intros []. Qed.
Lemma op_sync s k f s1 : entered s -> s1 ≈ paused_at s k f ->
  returns (modify (fun s => upd_glob (set_last_sync_logical_time (GET_CLOCK s me)) s)) s1 tt
    (paused_at (synced (logical_time s me + k) s) k f).
Proof.
  intros He E1. eexists. split; [done|]. unfold GET_CLOCK. sim_rw E1.
  rewrite paused_at_clock by done. by rewrite E1.
Qed.

Ltac odbg := apply finishes_act; eapply op_DBG; eassumption.
Ltac omutex := apply finishes_act; eapply op_mutex; eassumption.

(** *** [det_lock] *)

(** The mutex during the attempts of [me], and once [me] has it. *)
Definition queued q (m : det_mutex) : det_mutex := set_m_queue (Queue.pushed q me) m.
Definition taken q (m : det_mutex) : det_mutex :=
  set_ref 1 (set_owner me (set_m_holder (Some me) (queued q m))).

Section Acquire.
Variables (s : rt C) (q : Queue.TQueue Z).
Hypothesis He : entered s.
Hypothesis Eq : m_queue (mutex s a) = q.
Hypothesis Hq : Queue.wf q.
Hypothesis Hempty : Queue.head q = Queue.tail q.
Hypothesis Hsize : 1 < Queue.size q.
Hypothesis Hfree : m_holder (mutex s a) = None.

Lemma room : Queue.count q <> Queue.capacity q.
Proof. apply Queue.empty_count in Hempty; [|done]. rewrite Hempty. unfold Queue.capacity. lia. Qed.
Lemma queued_wf : Queue.wf (Queue.pushed q me).
Proof. by apply Queue.pushed_wf. Qed.
Lemma queued_one : Queue.contents 0 (Queue.pushed q me) = [me].
Proof.
  destruct (Queue.AddQ_spec 0 q me Hq) as (r & q' & Ea & _ & _ & Es).
  rewrite Queue.AddQ_room in Ea by (done || apply room). injection Ea as <- <-.
  unfold Queue.spec_add in Es. rewrite (Queue.contents_nil 0 q) in Es by done.
  simpl in Es. case_decide as Hc; [|by injection Es].
  pose proof room. apply Queue.empty_count in Hempty; [|done]. lia.
Qed.
Lemma queued_nonempty : Queue.head (Queue.pushed q me) <> Queue.tail (Queue.pushed q me).
Proof. intros Hn. pose proof queued_one as Ho. by rewrite Queue.contents_nil in Ho by auto using queued_wf. Qed.
Lemma queued_head : Queue.slot 0 (Queue.pushed q me) 0 = me.
Proof.
  pose proof queued_one as Ho. rewrite (Queue.contents_pop 0) in Ho by auto using queued_wf, queued_nonempty.
  by injection Ho.
Qed.

Lemma op_trylock k s1 : s1 ≈ paused_at s k (queued q) ->
  returns (pthread_mutex_trylock me a) s1 0
    (paused_at s k (fun m => set_m_holder (Some me) (queued q m))).
Proof.
  intros E1. unfold pthread_mutex_trylock. mget. sim_rw E1. rewrite paused_at_lock. simpl.
  rewrite Hfree. eexists. split; [done|]. by rewrite E1, paused_at_mutex.
Qed.

(** The clock of [me] has passed the release: the attempt succeeds. *)
Lemma attempt_ok n k s1 : s1 ≈ paused_at s k (queued q) ->
  released_logical_time (mutex s a) < logical_time s me + k ->
  finishes n (lock_attempt me a (logical_time s me + k)) s1 true (paused_at s k (taken q)).
Proof.
  intros E1 Hr. unfold lock_attempt.
  prun (apply finishes_act, (op_GetHeadQ s k _ s1 E1 (Queue.pushed q me) eq_refl); auto using queued_wf, queued_nonempty) as s2 E2.
  rewrite queued_head, Z.eqb_refl. simpl. prun (by apply finishes_act, op_trylock) as s3 E3. simpl. pget.
  sim_rw E3. rewrite paused_at_lock. simpl. prun (odbg) as s4 E4.
  destruct (Z.leb_spec (logical_time s me + k) (released_logical_time (mutex s a))); [lia|]. pget.
  prun (odbg) as s5 E5.
  prun (omutex) as s6 E6. prun (omutex) as s7 E7.
  by apply finishes_ret_sim.
Qed.

(** It has not: the mutex is opened again. *)
Lemma attempt_early n k s1 : s1 ≈ paused_at s k (queued q) ->
  logical_time s me + k <= released_logical_time (mutex s a) ->
  finishes n (lock_attempt me a (logical_time s me + k)) s1 false (paused_at s k (queued q)).
Proof.
  intros E1 Hr. unfold lock_attempt.
  prun (apply finishes_act, (op_GetHeadQ s k _ s1 E1 (Queue.pushed q me) eq_refl); auto using queued_wf, queued_nonempty) as s2 E2.
  rewrite queued_head, Z.eqb_refl. simpl. prun (by apply finishes_act, op_trylock) as s3 E3. simpl. pget.
  sim_rw E3. rewrite paused_at_lock. simpl. prun (odbg) as s4 E4.
  destruct (Z.leb_spec (logical_time s me + k) (released_logical_time (mutex s a))); [|lia].
  prun (odbg) as s5 E5. 
  prun (apply finishes_act; eexists; split; [done|]; rewrite E5, paused_at_mutex; reflexivity) as s6 E6.
  apply finishes_ret_sim. rewrite E6. apply upd_mutex_ext. rt_simpl. unfold queued, set_m_queue, set_m_holder.
  by rewrite Hfree.
Qed.

Lemma lock_loop n j k s1 : s1 ≈ paused_at s k (queued q) ->
  Z.of_nat j = Z.max 0 (released_logical_time (mutex s a) + 1 - (logical_time s me + k)) ->
  ahead s (logical_time s me + k + Z.of_nat j) ->
  logical_time s me + k + Z.of_nat j < MAX_LOGICAL_CLOCK ->
  loops (S n) (S j) (lock_body me a) (logical_time s me + k) s1 tt
    (paused_at s (k + Z.of_nat j) (taken q)).
Proof.
  revert k s1. induction j as [|j IH]; intros k s1 E1 Hj Ha Hm.
  - apply loops_last. unfold lock_body. prun (apply attempt_ok; [done|lia]) as s2 E2.
    apply finishes_ret_sim. by rewrite E2, Z.add_0_r.
  - eapply loops_next.
    + unfold lock_body. prun (apply attempt_early; [done|lia]) as s2 E2.
      prun (apply finishes_act; eapply op_assert_time; [done|eassumption|lia]) as s3 E3.
      prun (odbg) as s4 E4.
      prun (apply finishes_act; eapply op_tick; eassumption) as s5 E5.
      prun (eapply op_wait; [done|eassumption|eassumption|lia]) as s6 E6.
      by apply finishes_ret_sim.
    + intros s7 E7. replace (k + Z.of_nat (S j)) with (k + 1 + Z.of_nat j) by lia.
      apply IH; [done|lia|..].
      * by replace (logical_time s me + (k + 1) + Z.of_nat j) with (logical_time s me + k + Z.of_nat (S j)) by lia.
      * lia.
Qed.

(** The time at which [me] gets the mutex: not before it was released. *)
Definition acquire_time : Z :=
  Z.max (logical_time s me) (released_logical_time (mutex s a) + 1).
Definition acquired (m : det_mutex) : det_mutex :=
  set_m_queue (Queue.popped (Queue.pushed q me)) (taken q m).

Lemma lock_acquires n id s1 : s1 ≈ paused_at s 0 (fun m => m) ->
  ahead s acquire_time -> acquire_time < MAX_LOGICAL_CLOCK ->
  (Z.to_nat (acquire_time - logical_time s me) <= n)%nat ->
  finishes (S n) (lock_acquire me a id) s1 tt
    (paused_at (synced acquire_time s) (acquire_time - logical_time s me) acquired).
Proof.
  intros E1 Ha Hm Hn. assert (logical_time s me <= acquire_time) as Ht by (unfold acquire_time; lia).
  unfold lock_acquire. prun (odbg) as s2 E2.
  prun (eapply op_wait; [done|eassumption|eassumption|lia]) as s3 E3.
  prun (apply finishes_act; eapply op_AddQ; [eassumption|exact Eq|done|apply room]) as s4 E4.
  set (d := acquire_time - logical_time s me) in *.
  assert (Z.of_nat (Z.to_nat d) = d) as Ed by lia.
  eapply finishes_bind with (a := tt) (s1 := paused_at s d (taken q)).
  { apply (finishes_mono (S (Z.to_nat d))); [lia|]. apply finishes_loop.
    replace d with (0 + Z.of_nat (Z.to_nat d)) at 3 by lia.
    apply lock_loop; [exact E4|unfold d, acquire_time in *; lia|..]; rewrite Ed.
    - by replace (logical_time s me + 0 + d) with acquire_time by lia.
    - lia. }
  intros s5 E5. cbv beta.
  prun (apply finishes_act; eapply op_assert_time; [done|eassumption|lia]) as s6 E6.
  prun (odbg) as s7 E7. prun (apply finishes_act; eapply op_sync; eassumption) as s8 E8.
  replace (logical_time s me + d) with acquire_time in E8 by lia.
  prun (apply finishes_act; eapply (op_DelQ _ _ _ _ E8 (Queue.pushed q me)); auto using queued_wf, queued_nonempty) as s9 E9.
  by apply finishes_ret_sim.
Qed.
End Acquire.

Section Lock.
Variables (s : rt C).
Hypothesis Hen : enabled s.
Hypothesis Hfds : fds (worker s me) <> FdsFreed.
Hypothesis Hid : 0 < m_id (mutex s a).

Lemma is_det s1 : s1 ≈ s -> returns (det_is_enabled me) s1 true s.
Proof.
  intros E1. rewrite <- E1. destruct Hen as [_ Hn Ht].
  destruct (det_is_enabled_returns me s1) as (s2 & Er & ?). exists s2. split; [|done]. rewrite Er.
  rewrite (sim_glob _ _ E1), (sim_tls _ _ E1), Ht. by destruct (Z.ltb_spec 1 (num_thr (glob s))); [|lia].
Qed.

Lemma lock_entry n (b : Z) s2 :
  (forall s1, s1 ≈ s -> finishes n (
      lret <~ Act (disable_logical_clock me) ;;
      m <~ Act (gets (fun s => mutex s a)) ;;
      (if (0 <? ref m) && (owner m =? me)
       then Act (modify (upd_mutex a (fun m => set_ref (ref m + 1) m)))
       else lock_acquire me a (m_id (mutex s a))) ;~
      Act (incr_sw_clock me 1) ;~
      Act (resume_logical_clock me lret) ;~
      Act (count_lock me) ;~
      Ret 0) s1 b s2) ->
  finishes n (det_lock E me a) s b s2.
Proof.
  intros Hk. unfold det_lock, when. pget. destruct (Z.ltb_spec (m_id (mutex s a)) 0); [lia|]. pget.
  prun (apply finishes_act; destruct (Z.ltb_spec 0 (m_id (mutex s a))); [apply returns_ret|lia]) as s1 E1.
  prun (by apply finishes_act, is_det) as s3 E3. simpl. by apply Hk.
Qed.

Lemma count_lock_returns s1 : returns (count_lock me) s1 tt s1.
Proof. eexists. split; [done|]. apply upd_statv_sim. Qed.

Lemma det_lock_acquires n q : m_queue (mutex s a) = q -> Queue.wf q -> Queue.head q = Queue.tail q ->
  1 < Queue.size q -> m_holder (mutex s a) = None ->
  ~ (0 < ref (mutex s a) /\ owner (mutex s a) = me) ->
  ahead s (acquire_time s) -> acquire_time s < MAX_LOGICAL_CLOCK ->
  (Z.to_nat (acquire_time s - logical_time s me) <= n)%nat ->
  finishes (S n) (det_lock E me a) s 0
    (back_at (synced (acquire_time s) s) (acquire_time s - logical_time s me + 1) (acquired q)).
Proof.
  intros Eq Hq He Hs Hf Hrec Ha Hm Hn. apply lock_entry. intros s1 E1.
  pose proof (is_entered _ Hen) as Hin.
  prun (apply finishes_act; by eapply op_pause) as s2 E2. pget. sim_rw E2. rewrite paused_at_lock.
  replace ((0 <? ref (mutex s a)) && (owner (mutex s a) =? me)) with false; last first.
  { destruct (Z.ltb_spec 0 (ref (mutex s a))), (Z.eqb_spec (owner (mutex s a)) me); try done. tauto. }
  prun (by apply (lock_acquires s q)) as s3 E3.
  prun (apply finishes_act; eapply op_tick; eassumption) as s4 E4.
  prun (apply finishes_act; by eapply (op_resume (synced (acquire_time s) s))) as s5 E5.
  prun (apply finishes_act, count_lock_returns) as s6 E6. by apply finishes_ret_sim; rewrite E6.
Qed.

Lemma det_lock_again n : 0 < ref (mutex s a) -> owner (mutex s a) = me ->
  finishes n (det_lock E me a) s 0 (back_at s 1 (fun m => set_ref (ref m + 1) m)).
Proof.
  intros Hr Ho. apply lock_entry. intros s1 E1. pose proof (is_entered _ Hen) as Hin.
  prun (apply finishes_act; by eapply op_pause) as s2 E2. pget. sim_rw E2. rewrite paused_at_lock.
  destruct (Z.ltb_spec 0 (ref (mutex s a))); [|lia]. rewrite Ho, Z.eqb_refl. simpl.
  prun (omutex) as s3 E3. prun (apply finishes_act; eapply op_tick; eassumption) as s4 E4.
  prun (apply finishes_act; by eapply op_resume) as s5 E5.
  prun (apply finishes_act, count_lock_returns) as s6 E6. by apply finishes_ret_sim; rewrite E6.
Qed.

(** *** [det_unlock] *)

Definition released_at (t : Z) (m : det_mutex) : det_mutex :=
  set_m_holder None (set_released_logical_time t (set_owner (-1) (set_ref (ref m - 1) m))).

Lemma unlock_entry n incr (b : Z) s2 :
  (forall s1, s1 ≈ paused_at s 0 (fun m => set_ref (ref m - 1) m) -> finishes n (
      ret <~ (if 0 <? ref (mutex s a) - 1 then Ret 0
              else
                Act (modify (upd_mutex a (set_owner (-1)))) ;~
                t <~ Act (get_logical_clock me me) ;;
                Act (modify (upd_mutex a (set_released_logical_time t))) ;~
                Act (DBG me 1 "rel(%d)" [m_id (mutex s a)]) ;~
                Act (update_last_sync me) ;~
                Act (pthread_mutex_unlock a)) ;;
      Act (incr_sw_clock me incr) ;~
      Act (resume_logical_clock me (pause_ret (worker s me))) ;~
      Ret ret) s1 b s2) ->
  finishes n (det_unlock_and_incr_clock me a incr) s b s2.
Proof.
  intros Hk. unfold det_unlock_and_incr_clock. pget. pose proof (is_entered _ Hen) as Hin.
  prun (apply finishes_act; destruct (Z.ltb_spec 0 (m_id (mutex s a))); [apply returns_ret|lia]) as s1 E1.
  prun (by apply finishes_act, is_det) as s3 E3. simpl. pget.
  prun (apply finishes_act; pose proof (in_range _ Hin); sim_rw E3;
        destruct (Z.ltb_spec 0 (max_thr (glob s))); [apply returns_ret|lia]) from E3 as s4 E4.
  prun (apply finishes_act; by eapply op_pause) as s5 E5.
  prun (omutex) as s6 E6. pget. sim_rw E6. rewrite paused_at_lock. simpl. by apply Hk.
Qed.

Lemma det_unlock_nested n incr : 1 < ref (mutex s a) ->
  finishes n (det_unlock_and_incr_clock me a incr) s 0
    (back_at s incr (fun m => set_ref (ref m - 1) m)).
Proof.
  intros Hr. pose proof (is_entered _ Hen) as Hin. apply unlock_entry. intros s1 E1.
  destruct (Z.ltb_spec 0 (ref (mutex s a) - 1)); [|lia]. pget.
  prun (apply finishes_act; eapply op_tick; eassumption) as s4 E4.
  prun (apply finishes_act; by eapply op_resume) as s5 E5. by apply finishes_ret_sim.
Qed.

Lemma det_unlock_last n incr : ref (mutex s a) <= 1 ->
  finishes n (det_unlock_and_incr_clock me a incr) s 0
    (back_at (synced (logical_time s me) s) incr (released_at (logical_time s me))).
Proof.
  intros Hr. pose proof (is_entered _ Hen) as Hin. apply unlock_entry. intros s1 E1.
  destruct (Z.ltb_spec 0 (ref (mutex s a) - 1)); [lia|].
  eapply finishes_bind with (a := 0) (s1 := paused_at (synced (logical_time s me) s) 0 (released_at (logical_time s me))).
  { prun (omutex) as s2 E2. prun (apply finishes_act; eapply op_clock; eassumption) as s3 E3.
    rewrite Z.add_0_r. prun (omutex) as s4 E4. prun (odbg) as s5 E5.
    prun (apply finishes_act; eapply op_sync; eassumption) as s6 E6. rewrite Z.add_0_r in E6.
    apply finishes_act. eexists. split; [done|]. by rewrite E6, paused_at_mutex. }
  intros s2 E2. cbv beta. prun (apply finishes_act; eapply op_tick; eassumption) as s4 E4.
  prun (apply finishes_act; by eapply (op_resume (synced (logical_time s me) s))) as s5 E5.
  by apply finishes_ret_sim.
Qed.
End Lock.

(** *** Facts about the end of an operation *)

Lemma back_at_self s k f : worker (back_at s k f) me = resumed (worker s me) (tick k (stop_clock (worker s me))).
Proof. unfold back_at. by rt_simpl. Qed.
Lemma back_at_other s k f i : i <> me -> worker (back_at s k f) i = worker s i.
Proof. intros. unfold back_at. by rt_simpl. Qed.
Lemma back_at_lock s k f : mutex (back_at s k f) a = f (mutex s a).
Proof. unfold back_at. by rt_simpl. Qed.

Lemma resumed_wf w k : clock_wf w -> clock_wf (resumed w (tick k (stop_clock w))).
Proof.
  intros Hw. unfold resumed. destruct (hw_clock_enabled w); [apply start_clock_wf|]; by apply tick_wf, stop_clock_wf.
Qed.
Lemma resumed_time w k : clock_wf w -> worker_time (resumed w (tick k (stop_clock w))) = worker_time w + k.
Proof.
  intros Hw. unfold resumed. destruct (hw_clock_enabled w); [by apply restart_time|].
  by rewrite tick_time, stop_clock_time.
Qed.
Lemma resumed_fds w k : fds w <> FdsFreed -> fds (resumed w (tick k (stop_clock w))) <> FdsFreed.
Proof.
  intros Hf. apply stop_clock_fds in Hf. unfold resumed, start_clock, tick.
  destruct (hw_clock_enabled w); [|done]. simpl. destruct (fds (stop_clock w)) eqn:Ef; simpl; rewrite ?Ef; try done.
  by destruct (hw_clock_enabled (stop_clock w)); simpl; rewrite ?Ef.
Qed.
Lemma resumed_null w k : fds_null (fds (resumed w (tick k (stop_clock w)))) = fds_null (fds w).
Proof.
  unfold resumed, start_clock, stop_clock, tick. destruct w as [? ? ? ? [| |] ? ? [|] ? ? ? ? ?]; done.
Qed.
Lemma resumed_running w k : clock_wf w ->
  hw_clock_enabled (resumed w (tick k (stop_clock w))) = hw_clock_enabled w.
Proof.
  intros Hw. unfold resumed. destruct (hw_clock_enabled w) eqn:Eh; [by apply restart_enabled|].
  by rewrite stop_clock_id.
Qed.

Lemma back_at_time s k f : entered s -> logical_time (back_at s k f) me = logical_time s me + k.
Proof. intros He. unfold logical_time. rewrite back_at_self. apply resumed_time, He, He. Qed.
Lemma back_at_entered s k f : entered s -> entered (back_at s k f).
Proof.
  intros He. pose proof He as [Hr Hw]. split; [done|]. intros i Hi. destruct (decide (i = me)) as [->|Hne].
  - rewrite back_at_self. by apply resumed_wf, Hw.
  - rewrite back_at_other by done. by apply Hw.
Qed.
End Operation.
End Mutexes.

(** The commands of every operation, for the files on the other operations. *)
Ltac run_dbg := apply finishes_act; eapply op_DBG; [|eassumption]; eassumption.
Ltac run_tick := apply finishes_act; eapply op_tick; eassumption.
Ltac run_mutex := apply finishes_act; eapply op_mutex; eassumption.
Ltac run_sync := apply finishes_act; eapply op_sync; [|eassumption]; eassumption.
Ltac run_clock := apply finishes_act; eapply op_clock; [|eassumption]; eassumption.

(** ** The mutex a thread sees

    The specification of a mutex used by one thread while the others are at later times:
    the thread's logical time, how often it has locked the mutex, and when it was released. *)
Record lock_view := mkView { v_time : Z; v_depth : nat; v_released : Z }.
Inductive call := Lock | Unlock.

Definition view_call (c : call) (v : lock_view) : option lock_view :=
  match c, v_depth v with
  | Lock, O => Some (mkView (Z.max (v_time v) (v_released v + 1) + 1) 1 (v_released v))
  | Lock, S d => Some (mkView (v_time v + 1) (S (S d)) (v_released v))
  | Unlock, O => None
  | Unlock, S O => Some (mkView (v_time v + 1) 0 (v_time v))
  | Unlock, S (S d) => Some (mkView (v_time v + 1) (S d) (v_released v))
  end.
Fixpoint view_calls (cs : list call) (v : lock_view) : option lock_view :=
  match cs with
  | [] => Some v
  | c :: cs => match view_call c v with Some v' => view_calls cs v' | None => None end
  end.

Section View.
Context {C : Type} `{HC : PerfCounter C} `{!PerfCounterLaws C}.
Variables (E : env) (me : Z) (a : addr).
Implicit Types s : rt C.

Definition do_call (c : call) : prog C Z :=
  match c with Lock => det_lock E me a | Unlock => det_unlock me a end.
Fixpoint do_calls (cs : list call) : prog C unit :=
  match cs with [] => Ret tt | c :: cs => do_call c ;~ do_calls cs end.

Record represents s (v : lock_view) : Prop := {
  rep_enabled : enabled me s;
  rep_fds : fds (worker s me) <> FdsFreed;
  rep_id : 0 < m_id (mutex s a);
  rep_time : logical_time s me = v_time v;
  rep_released : released_logical_time (mutex s a) = v_released v;
  rep_queue : Queue.wf (m_queue (mutex s a));
  rep_empty : Queue.head (m_queue (mutex s a)) = Queue.tail (m_queue (mutex s a));
  rep_size : 1 < Queue.size (m_queue (mutex s a));
  rep_holder : m_holder (mutex s a) = if (0 <? v_depth v)%nat then Some me else None;
  rep_ref : ref (mutex s a) = Z.of_nat (v_depth v);
  rep_owner : (0 < v_depth v)%nat -> owner (mutex s a) = me
}.

Lemma represents_sim s s' v : s' ≈ s -> represents s v -> represents s' v.
Proof.
  intros Es [[He Hm Ht] ? ? ? ? ? ? ? ? ? ?].
  split; rewrite ?(logical_time_sim _ _ _ Es), ?(sim_worker _ _ Es), ?(sim_mutex _ _ Es); try done.
  split; rewrite ?(sim_glob _ _ Es), ?(sim_tls _ _ Es); try done. by eapply entered_sim.
Qed.

(** What the calls leave alone: the entries of the other threads, the condition variables,
    the barriers, the program's variables, and whether the caller's clock runs. *)
Record same_others s s' : Prop := {
  so_max : max_thr (glob s') = max_thr (glob s);
  so_worker i : i <> me -> worker s' i = worker s i;
  so_cond c : cond s' c = cond s c;
  so_barrier b : barrier s' b = barrier s b;
  so_uvar x : uvar s' x = uvar s x;
  so_running : hw_clock_enabled (worker s' me) = hw_clock_enabled (worker s me);
  so_counter : fds_null (fds (worker s' me)) = fds_null (fds (worker s me))
}.
#[export] Instance same_others_preorder : PreOrder same_others.
Proof.
  split; [by constructor|]. intros s1 s2 s3 A B. split; intros;
    [rewrite (so_max _ _ B)|rewrite (so_worker _ _ B) by done|rewrite (so_cond _ _ B)
    |rewrite (so_barrier _ _ B)|rewrite (so_uvar _ _ B)|rewrite (so_running _ _ B)|rewrite (so_counter _ _ B)]; by apply A.
Qed.
Lemma same_others_sim s s1 s2 : s2 ≈ s1 -> same_others s s1 -> same_others s s2.
Proof.
  intros Es []. split; intros; rewrite ?(sim_glob _ _ Es), ?(sim_worker _ _ Es), ?(sim_cond _ _ Es),
    ?(sim_barrier _ _ Es), ?(sim_uvar _ _ Es); auto.
Qed.
Lemma ahead_others s s' t t' : same_others s s' -> t' <= t -> ahead me s t -> ahead me s' t'.
Proof.
  intros Hs Ht Ha id Hid Hne. rewrite (so_max _ _ Hs) in Hid. specialize (Ha id Hid Hne).
  unfold logical_time in *. rewrite (so_worker _ _ Hs) by done. lia.
Qed.

Lemma popped_pushed_empty (q : Queue.TQueue Z) x : Queue.wf q -> Queue.head q = Queue.tail q ->
  1 < Queue.size q ->
  Queue.wf (Queue.popped (Queue.pushed q x)) /\
  Queue.head (Queue.popped (Queue.pushed q x)) = Queue.tail (Queue.popped (Queue.pushed q x)).
Proof.
  intros Hq He Hs. split; [by apply Queue.popped_wf, Queue.pushed_wf|]. simpl. by rewrite He.
Qed.

(** The state at the end of an operation represents what its mutex and clock say. *)
Lemma represents_back s v v' k f t : represents s v -> v_time v' = v_time v + k ->
  m_id (f (mutex s a)) = m_id (mutex s a) ->
  released_logical_time (f (mutex s a)) = v_released v' ->
  Queue.wf (m_queue (f (mutex s a))) ->
  Queue.head (m_queue (f (mutex s a))) = Queue.tail (m_queue (f (mutex s a))) ->
  Queue.size (m_queue (f (mutex s a))) = Queue.size (m_queue (mutex s a)) ->
  m_holder (f (mutex s a)) = (if (0 <? v_depth v')%nat then Some me else None) ->
  ref (f (mutex s a)) = Z.of_nat (v_depth v') ->
  ((0 < v_depth v')%nat -> owner (f (mutex s a)) = me) ->
  represents (back_at me a (synced t s) k f) v' /\ same_others s (back_at me a (synced t s) k f).
Proof.
  intros [[He Hm Ht] Hf Hid Hti Hre Hq Hem Hsz Hho Hrf How] Hv. intros. split.
  - split; rewrite ?back_at_lock; try done.
    + split; [by apply back_at_entered, synced_entered|done|done].
    + rewrite back_at_self. by apply resumed_fds.
    + change (mutex (synced t s) a) with (mutex s a). congruence.
    + rewrite back_at_time by (by apply synced_entered). rewrite Hv, <- Hti. done.
    + change (mutex (synced t s) a) with (mutex s a). congruence.
  - split; try done.
    + intros i Hi. by rewrite back_at_other.
    + rewrite back_at_self. apply resumed_running, He, He.
    + rewrite back_at_self. apply resumed_null.
Qed.

Lemma synced_same s : synced (last_sync_logical_time (glob s)) s = s.
Proof. destruct s as [? ? ? ? ? ? [] ? ? ?]. done. Qed.

Lemma finishes_represents {A} n (p : prog C A) s r s0 v : finishes n p s r s0 ->
  represents s0 v /\ same_others s s0 ->
  exists s', run n p s = Done r s' /\ represents s' v /\ same_others s s'.
Proof.
  intros (s' & Er & Es) [Hr Hs]. exists s'. split; [done|]. split; [by eapply represents_sim|].
  by eapply same_others_sim.
Qed.

Ltac rep_back := eapply represents_back; [eassumption|simpl..]; simpl in *; try done; try lia; auto.

Lemma lock_first n v s : represents s v -> v_depth v = 0%nat ->
  let v' := mkView (Z.max (v_time v) (v_released v + 1) + 1) 1 (v_released v) in
  ahead me s (v_time v') -> v_time v' <= MAX_LOGICAL_CLOCK -> v_time v' - v_time v <= Z.of_nat n ->
  exists s', run (S n) (det_lock E me a) s = Done 0 s' /\ represents s' v' /\ same_others s s'.
Proof.
  intros Hrep Hd v' Ha Hm Hn. pose proof Hrep as [He Hf Hid Hti Hre Hq Hem Hsz Hho Hrf How].
  rewrite Hd in *. assert (acquire_time me a s = v_time v' - 1) as Eat.
  { unfold acquire_time. rewrite Hti, Hre. simpl. lia. }
  eapply finishes_represents.
  - apply (det_lock_acquires E me a s He Hf Hid n (m_queue (mutex s a))); try done; try lia.
    eapply ahead_others; [reflexivity| |exact Ha]. lia.
  - destruct (popped_pushed_empty (m_queue (mutex s a)) me Hq Hem Hsz). rep_back.
Qed.

Lemma lock_again n v s d : represents s v -> v_depth v = S d ->
  exists s', run n (det_lock E me a) s = Done 0 s' /\
    represents s' (mkView (v_time v + 1) (S (S d)) (v_released v)) /\ same_others s s'.
Proof.
  intros Hrep Hd. pose proof Hrep as [He Hf Hid Hti Hre Hq Hem Hsz Hho Hrf How]. rewrite Hd in *.
  eapply finishes_represents.
  - apply det_lock_again; try done; [lia|]. apply How. lia.
  - rewrite <- (synced_same s) at 1 3. rep_back.
Qed.

Lemma unlock_last n v s : represents s v -> v_depth v = 1%nat ->
  exists s', run n (det_unlock me a) s = Done 0 s' /\
    represents s' (mkView (v_time v + 1) 0 (v_time v)) /\ same_others s s'.
Proof.
  intros Hrep Hd. pose proof Hrep as [He Hf Hid Hti Hre Hq Hem Hsz Hho Hrf How]. rewrite Hd in *.
  eapply finishes_represents; [apply det_unlock_last; try done; lia|]. rep_back.
Qed.

Lemma unlock_nested n v s d : represents s v -> v_depth v = S (S d) ->
  exists s', run n (det_unlock me a) s = Done 0 s' /\
    represents s' (mkView (v_time v + 1) (S d) (v_released v)) /\ same_others s s'.
Proof.
  intros Hrep Hd. pose proof Hrep as [He Hf Hid Hti Hre Hq Hem Hsz Hho Hrf How]. rewrite Hd in *.
  eapply finishes_represents; [apply det_unlock_nested; try done; lia|].
  rewrite <- (synced_same s) at 1 3. rep_back.
Qed.

Lemma do_call_ok n c v v' s : represents s v -> view_call c v = Some v' ->
  ahead me s (v_time v') -> v_time v' <= MAX_LOGICAL_CLOCK -> v_time v' - v_time v <= Z.of_nat n ->
  exists r s', run (S n) (do_call c) s = Done r s' /\ represents s' v' /\ same_others s s'.
Proof.
  intros Hrep Hv Ha Hm Hn. unfold view_call in Hv.
  destruct c, (v_depth v) as [|[|d]] eqn:Hd; try done; injection Hv as <-; exists 0.
  - by apply lock_first.
  - by apply lock_again.
  - by apply lock_again.
  - by apply unlock_last.
  - by apply unlock_nested.
Qed.

Lemma view_call_time c v v' : view_call c v = Some v' -> v_time v < v_time v'.
Proof.
  unfold view_call. destruct c, (v_depth v) as [|[|d]]; try done; intros [= <-]; simpl; lia.
Qed.
Lemma view_calls_time cs v v' : view_calls cs v = Some v' -> v_time v <= v_time v'.
Proof.
  revert v. induction cs as [|c cs IH]; simpl; intros v Hv; [by injection Hv as <-|].
  destruct (view_call c v) as [v1|] eqn:E1; [|done]. apply view_call_time in E1. apply IH in Hv. lia.
Qed.

End View.

(** C7. The mutex implements its specification. For every sequence of [det_lock] and
    [det_unlock] by one thread, recursive locking included, in which it does not unlock more
    often than it locked, while the other threads stand at later logical times: every call
    returns, the mutex is held exactly while the thread has more locks than unlocks, it is
    acquired at the later of the thread's time and the first time after the last release,
    each call advances the thread's logical clock by one beyond that, the release time is
    recorded, and the other threads' entries, the condition variables, the barriers and
    whether the clock runs stay as they were. The fuel bounds the spins: one for each
    unit of logical time. *)
Theorem lock_calls_refine {C} `{PerfCounter C} `{!PerfCounterLaws C} E me a n cs v v' (s : rt C) :
  represents me a s v -> view_calls cs v = Some v' ->
  ahead me s (v_time v') -> v_time v' <= MAX_LOGICAL_CLOCK -> v_time v' - v_time v <= Z.of_nat n ->
  exists s', run (S n) (do_calls E me a cs) s = Done tt s' /\ represents me a s' v' /\ same_others me s s'.
Proof.
  intros H1 H2 H3 H4 H5. revert v s H1 H2 H3 H4 H5. induction cs as [|c cs IH]; intros v s Hrep Hv Ha Hm Hn; cbn [do_calls view_calls] in *.
  { injection Hv as <-. exists s. split; [done|]. by split. }
  destruct (view_call c v) as [v1|] eqn:E1; [|done].
  pose proof (view_call_time _ _ _ E1). pose proof (view_calls_time _ _ _ Hv).
  destruct (do_call_ok E me a n c v v1 s) as (r & s1 & Er & Hr1 & Ho1); try done; try lia.
  { eapply ahead_others; [reflexivity| |exact Ha]. lia. }
  destruct (IH v1 s1) as (s2 & Er2 & Hr2 & Ho2); try done; try lia.
  { eapply ahead_others; [done| |done]. lia. }
  exists s2. cbn [run]. rewrite Er. cbn [obind]. rewrite Er2. split; [done|]. split; [done|]. by etrans.
Qed.

(** Thread 1 of three at times 40, 10, 50, and a mutex last released at time 20. *)
Module OneLocker.
Import SimpleCounter Samples.
Definition state : rt counter :=
  upd_mutex (AObj 1) (set_released_logical_time 20) (three (running 0 40) (running 1 10) (running 2 50)).
Lemma state_represents : represents 1 (AObj 1) state (mkView 10 0 20).
Proof.
  split; try done; [|by split; vm_compute..|simpl; lia].
  split; [split|done|done]; [done|]. by apply (three_entries (fun _ => clock_wf)).
Qed.
Lemma state_ahead : ahead 1 state 25.
Proof. intros i Hi Hne. assert (i = 0 \/ i = 2) as [->| ->] by (simpl in Hi; lia); by left. Qed.
End OneLocker.
Import SimpleCounter Samples.

(** Two nested locks and unlocks: acquired at 21, released at 24. *)
Lemma lock_calls_refine_witness :
  exists s', run 17 (do_calls environment 1 (AObj 1) [Lock; Lock; Unlock; Unlock]) OneLocker.state = Done tt s' /\
    represents 1 (AObj 1) s' (mkView 25 0 24) /\ same_others 1 OneLocker.state s'.
Proof.
  apply (lock_calls_refine environment 1 (AObj 1) 16 [Lock; Lock; Unlock; Unlock]
           (mkView 10 0 20) (mkView 25 0 24)); try done.
  - apply OneLocker.state_represents.
  - apply OneLocker.state_ahead.
Defined.
