(* ===== verification/Trylock.v ===== *)
(** [det_trylock]: what it answers and what it leaves behind on every branch, also where
    the answer does not say whether the caller holds the mutex. *)
From stdpp Require Import base list gmap strings.
From Stdlib Require Import ZArith Lia.
From S2P Require Import Prelude Queue Runtime Clock Sync Threads Samples Turn Mutexes.
Open Scope m_scope.
Open Scope prog_scope.

Section Trylock.
Context {C : Type} `{HC : PerfCounter C} `{!PerfCounterLaws C}.
Variables (me : Z) (a : addr) (s : rt C) (q : Queue.TQueue Z).
Hypothesis Hen : enabled me s.
Hypothesis Hfds : fds (worker s me) <> FdsFreed.
Hypothesis Hid : 0 < m_id (mutex s a).
Hypothesis Eq : m_queue (mutex s a) = q.
Hypothesis Hq : Queue.wf q.
Hypothesis Hroom : Queue.count q <> Queue.capacity q.
Hypothesis Hrec : ~ (0 < ref (mutex s a) /\ owner (mutex s a) = me).
Hypothesis Hahead : ahead me s (logical_time s me).
Hypothesis Hmax : logical_time s me < MAX_LOGICAL_CLOCK.
Let He : entered me s := is_entered _ _ Hen.

Lemma pushed_contents : Queue.contents 0 (Queue.pushed q me) = Queue.contents 0 q ++ [me].
Proof.
  destruct (Queue.AddQ_spec 0 q me Hq) as (r & q' & Ea & _ & _ & Es).
  rewrite Queue.AddQ_room in Ea by done. injection Ea as <- <-.
  unfold Queue.spec_add in Es. rewrite Queue.length_contents in Es.
  rewrite decide_False in Es by done. by injection Es.
Qed.
Lemma pushed_nonempty : Queue.head (Queue.pushed q me) <> Queue.tail (Queue.pushed q me).
Proof.
  intros Hn. pose proof pushed_contents as Ho.
  rewrite Queue.contents_nil in Ho by auto using Queue.pushed_wf. by destruct (Queue.contents 0 q).
Qed.
Lemma pushed_head : Queue.slot 0 (Queue.pushed q me) 0 :: Queue.contents 0 (Queue.popped (Queue.pushed q me)) =
  Queue.contents 0 q ++ [me].
Proof.
  rewrite <- pushed_contents. symmetry. apply Queue.contents_pop; auto using Queue.pushed_wf, pushed_nonempty.
Qed.

(** What remains to do once the attempt has answered [ret] and left the mutex as [f] makes it. *)
Definition try_end (ret : Z) (f : det_mutex -> det_mutex) (m : det_mutex) : det_mutex :=
  if ret =? 0 then set_m_queue (Queue.popped (Queue.pushed q me)) (f m) else f m.

Lemma trylock_runs n ret f :
  (forall m, m_queue (f m) = Queue.pushed q me) ->
  (forall s1, s1 ≈ paused_at me a s 0 (queued me q) ->
    finishes (S n) (trylock_attempt me a (logical_time s me)) s1 ret (paused_at me a s 0 f)) ->
  finishes (S n) (det_trylock me a) s ret
    (back_at me a (synced (logical_time s me) s) 1 (try_end ret f)).
Proof.
  intros Hf Hatt. unfold det_trylock. pget.
  pose proof (synced_entered me (logical_time s me) s He) as Hes.
  prun (apply finishes_act; destruct (Z.ltb_spec 0 (m_id (mutex s a))); [apply returns_ret|lia]) as s1 E1.
  prun (by apply finishes_act, is_det) as s2 E2. simpl.
  prun (apply finishes_act; by eapply (op_pause me a s)) as s3 E3. prun (run_dbg) as s4 E4. pget.
  sim_rw E4. rewrite paused_at_lock.
  replace ((0 <? ref (mutex s a)) && (owner (mutex s a) =? me)) with false; last first.
  { destruct (Z.ltb_spec 0 (ref (mutex s a))), (Z.eqb_spec (owner (mutex s a)) me); try done. tauto. }
  eapply finishes_bind with (a := ret) (s1 := paused_at me a (synced (logical_time s me) s) 0 (try_end ret f)).
  - unfold trylock_acquire. prun (eapply (op_wait me a s); [done|eassumption|eassumption|lia]) as s5 E5.
    prun (apply finishes_act; eapply op_AddQ; [eassumption|exact Eq|done|done]) as s6 E6.
    rewrite Z.add_0_r. prun (by apply Hatt) as s7 E7.
    prun (apply finishes_act; eapply (op_assert_time me a s); [done|eassumption|lia]) as s8 E8.
    prun (run_sync) as s9 E9. rewrite Z.add_0_r in E9.
    unfold try_end. destruct (ret =? 0).
    + prun (run_dbg) as s10 E10. prun (apply finishes_act, count_lock_returns) from E10 as s11 E11.
      prun (apply finishes_act; eapply (op_DelQ _ _ _ _ _ _ E11 (Queue.pushed q me));
            auto using Queue.pushed_wf, pushed_nonempty) as s12 E12.
      by apply finishes_ret_sim.
    + prun (run_dbg) as s10 E10. by apply finishes_ret_sim.
  - intros s5 E5. cbv beta. prun (run_tick) as s6 E6.
    prun (apply finishes_act; by eapply (op_resume _ _ (synced (logical_time s me) s))) as s7 E7.
    by apply finishes_ret_sim.
Qed.

Lemma try_head s1 : s1 ≈ paused_at me a s 0 (queued me q) ->
  returns (mutex_GetHeadQ a) s1 (Queue.slot 0 (Queue.pushed q me) 0) (paused_at me a s 0 (queued me q)).
Proof.
  intros E1. eapply (op_GetHeadQ _ _ _ _ _ _ E1 (Queue.pushed q me)); auto using Queue.pushed_wf, pushed_nonempty.
Qed.

(** Another thread is first in the queue: the answer is 0, the mutex is not touched. *)
Lemma trylock_not_first n s1 h l : Queue.contents 0 q = h :: l -> h <> me ->
  s1 ≈ paused_at me a s 0 (queued me q) ->
  finishes n (trylock_attempt me a (logical_time s me)) s1 0 (paused_at me a s 0 (queued me q)).
Proof.
  intros Hc Hne E1. unfold trylock_attempt. prun (by apply finishes_act, try_head) as s2 E2.
  pose proof pushed_head as Hp. rewrite Hc in Hp. simpl in Hp. injection Hp as -> _.
  destruct (Z.eqb_spec h me); [done|]. simpl. by apply finishes_ret_sim.
Qed.

(** Nobody waits: the answer says whether [me] has the mutex. *)
Definition opened (m : det_mutex) : det_mutex := set_m_holder None (queued me q m).
Definition try_answer : Z :=
  match m_holder (mutex s a) with
  | Some _ => EBUSY
  | None => if logical_time s me <=? released_logical_time (mutex s a) then EBUSY else 0
  end.
Definition try_mutex : det_mutex -> det_mutex :=
  match m_holder (mutex s a) with
  | Some _ => queued me q
  | None => if logical_time s me <=? released_logical_time (mutex s a) then opened
            else taken me q
  end.

Lemma trylock_first n s1 : Queue.contents 0 q = [] -> s1 ≈ paused_at me a s 0 (queued me q) ->
  finishes n (trylock_attempt me a (logical_time s me)) s1 try_answer (paused_at me a s 0 try_mutex).
Proof.
  intros Hc E1. unfold trylock_attempt. prun (by apply finishes_act, try_head) as s2 E2.
  pose proof pushed_head as Hp. rewrite Hc in Hp. simpl in Hp. injection Hp as -> _.
  rewrite Z.eqb_refl. unfold try_answer, try_mutex. simpl. pget.
  destruct (m_holder (mutex s a)) as [j|] eqn:Eh.
  - prun (apply finishes_act; unfold pthread_mutex_trylock; mget; sim_rw E2; rewrite paused_at_lock; simpl;
          rewrite Eh; apply returns_ret) from E2 as s3 E3. by apply finishes_ret_sim.
  - prun (by apply finishes_act, op_trylock) as s3 E3. simpl. pget. sim_rw E3. rewrite paused_at_lock. simpl.
    prun (run_dbg) as s4 E4. destruct (logical_time s me <=? _).
    + prun (run_dbg) as s5 E5.
      prun (apply finishes_act; eexists; split; [done|]; rewrite E5, paused_at_mutex; reflexivity) as s6 E6.
      by apply finishes_ret_sim.
    + prun (run_mutex) as s5 E5. prun (run_mutex) as s6 E6. by apply finishes_ret_sim.
Qed.
End Trylock.

(** The caller is a thread with the turn, outside the mutex, and the queue has room. *)
Record can_try {C} `{PerfCounter C} (me : Z) (a : addr) (s : rt C) : Prop := {
  try_enabled : enabled me s;
  try_fds : fds (worker s me) <> FdsFreed;
  try_id : 0 < m_id (mutex s a);
  try_queue : Queue.wf (m_queue (mutex s a));
  try_room : Queue.count (m_queue (mutex s a)) <> Queue.capacity (m_queue (mutex s a));
  try_outside : ~ (0 < ref (mutex s a) /\ owner (mutex s a) = me);
  try_ahead : ahead me s (logical_time s me);
  try_time : logical_time s me < MAX_LOGICAL_CLOCK
}.

(** [det_trylock] with nobody waiting for the mutex. It always returns. It answers 0
    exactly when the mutex is free and was released before the caller's logical time, and
    then the caller holds it, once, and the queue is empty again. Otherwise it answers
    [EBUSY] and the mutex keeps its holder, owner and count, but the caller's number stays
    in the queue. The clock of the caller advances by one in both cases. *)
Theorem det_trylock_answer {C} `{PerfCounter C} `{!PerfCounterLaws C} me a n (s : rt C) :
  can_try me a s -> Queue.contents 0 (m_queue (mutex s a)) = [] ->
  exists r s', run (S n) (det_trylock me a) s = Done r s' /\
    logical_time s' me = logical_time s me + 1 /\
    ((r = 0 /\ m_holder (mutex s a) = None /\ released_logical_time (mutex s a) < logical_time s me /\
      m_holder (mutex s' a) = Some me /\ owner (mutex s' a) = me /\ ref (mutex s' a) = 1 /\
      Queue.contents 0 (m_queue (mutex s' a)) = []) \/
     (r = EBUSY /\
      (m_holder (mutex s a) <> None \/ logical_time s me <= released_logical_time (mutex s a)) /\
      m_holder (mutex s' a) = m_holder (mutex s a) /\ owner (mutex s' a) = owner (mutex s a) /\
      ref (mutex s' a) = ref (mutex s a) /\
      Queue.contents 0 (m_queue (mutex s' a)) = [me])).
Proof.
  intros [Hen Hf Hid Hq Hr Ho Ha Ht] Hc. pose proof (is_entered _ _ Hen) as He.
  destruct (trylock_runs me a s _ Hen Hf Hid eq_refl Hq Hr Ho Ha Ht n (try_answer me a s)
              (try_mutex me a s (m_queue (mutex s a)))) as (s' & Er & Es).
  { intros m. unfold try_mutex. destruct (m_holder _); [done|]. by destruct (_ <=? _). }
  { intros. by apply trylock_first. }
  exists (try_answer me a s), s'. split; [done|].
  rewrite (logical_time_sim _ _ _ Es), (sim_mutex _ _ Es), back_at_lock.
  rewrite back_at_time by (by apply synced_entered). split; [done|].
  pose proof (pushed_head me (m_queue (mutex s a)) Hq Hr) as Hp. rewrite Hc in Hp. injection Hp as _ Hp.
  pose proof (pushed_contents me (m_queue (mutex s a)) Hq Hr) as Hp'. rewrite Hc in Hp'.
  change (mutex (synced (logical_time s me) s) a) with (mutex s a).
  unfold try_answer, try_mutex, try_end, opened, taken.
  destruct (m_holder (mutex s a)) as [j|] eqn:Eh; simpl; [right|].
  - split_and!; try done. by left.
  - destruct (Z.leb_spec (logical_time s me) (released_logical_time (mutex s a))); simpl; [right|left];
      split_and!; try done. by right.
Qed.

(** [det_trylock] when another thread waits first in the queue, which can happen as soon
    as that thread is spinning in [det_lock]. It answers 0, success, although the caller does
    not get the mutex: holder, owner and count are unchanged. And it removes the first entry
    of the queue, the other thread's, and leaves its own. *)
Lemma det_trylock_false_success {C} `{PerfCounter C} `{!PerfCounterLaws C} me a n (s : rt C) h l :
  can_try me a s -> Queue.contents 0 (m_queue (mutex s a)) = h :: l -> h <> me ->
  exists s', run (S n) (det_trylock me a) s = Done 0 s' /\
    m_holder (mutex s' a) = m_holder (mutex s a) /\ owner (mutex s' a) = owner (mutex s a) /\
    ref (mutex s' a) = ref (mutex s a) /\
    Queue.contents 0 (m_queue (mutex s' a)) = l ++ [me].
Proof.
  intros [Hen Hf Hid Hq Hr Ho Ha Ht] Hc Hne. pose proof (is_entered _ _ Hen) as He.
  destruct (trylock_runs me a s _ Hen Hf Hid eq_refl Hq Hr Ho Ha Ht n 0 (queued me (m_queue (mutex s a))))
    as (s' & Er & Es); [done|intros; by eapply trylock_not_first|].
  exists s'. split; [done|]. rewrite (sim_mutex _ _ Es), back_at_lock.
  pose proof (pushed_head me (m_queue (mutex s a)) Hq Hr) as Hp. rewrite Hc in Hp. by injection Hp.
Qed.

Import SimpleCounter Samples.
(** Thread 1 at time 30, the others later; mutex 1 was released at 20, mutex 2 is held by
    thread 2 and thread 0 waits for it. *)
Definition trying : rt counter :=
  upd_mutex (AObj 2) (fun m => set_m_queue (Queue.pushed a_queue 0) (set_ref 1 (set_owner 2 (set_m_holder (Some 2) m))))
    (upd_mutex (AObj 1) (set_released_logical_time 20)
       (three (running 0 40) (running 1 30) (running 2 50))).

Lemma trying_ok x : x = 1 \/ x = 2 -> can_try 1 (AObj x) trying.
Proof.
  intros Hx. split; try done; destruct Hx as [-> | ->]; try done; try (by vm_compute);
    try (by split; vm_compute); try (intros [? ?]; done).
  1, 2: split; [split|done|done]; [done|]; by apply (three_entries (fun _ => clock_wf)).
  all: intros i Hi Hne; assert (i = 0 \/ i = 2) as [->| ->] by (simpl in Hi; lia); by left.
Qed.

Lemma det_trylock_answer_witness :
  exists s', run 1 (det_trylock 1 (AObj 1)) trying = Done 0 s' /\ m_holder (mutex s' (AObj 1)) = Some 1.
Proof.
  destruct (det_trylock_answer 1 (AObj 1) 0 trying (trying_ok 1 ltac:(by left)) eq_refl)
    as (r & s' & Er & _ & [(-> & _ & _ & Hh & _)|(_ & [Hn|Hn] & _)]); [by exists s'|done|done].
Defined.

Lemma det_trylock_false_success_witness :
  exists s', run 1 (det_trylock 1 (AObj 2)) trying = Done 0 s' /\
    m_holder (mutex s' (AObj 2)) = Some 2 /\ owner (mutex s' (AObj 2)) = 2 /\
    ref (mutex s' (AObj 2)) = 1 /\ Queue.contents 0 (m_queue (mutex s' (AObj 2))) = [1].
Proof.
  exact (det_trylock_false_success 1 (AObj 2) 0 trying 0 [] (trying_ok 2 ltac:(by right)) eq_refl ltac:(done)).
Defined.
