(* ===== verification/Pause.v ===== *)
(** Pausing and resuming a logical clock: the work of the runtime itself is not counted,
    other threads never see a clock jump while it is being paused, and a thread can leave
    the deterministic order and come back. *)
From stdpp Require Import base list gmap strings.
From Stdlib Require Import ZArith Lia.
From S2P Require Import Prelude Queue Runtime Clock Sync Threads Samples Turn Mutexes.
Open Scope m_scope.
Open Scope prog_scope.

(** ** All the states of a run *)

(** [P] holds at the start of [p] and after each of its steps. *)
Definition always {C A} (P : rt C -> Prop) (p : prog C A) (s : rt C) : Prop :=
  forall p' s', steps p s p' s' -> P s'.

Section Always.
Context {C : Type}.
Implicit Types (s : rt C) (P : rt C -> Prop).

Lemma always_ret {A} P (a : A) s : P s -> always P (Ret a) s.
Proof. intros Hs p' s' Hst. inversion Hst as [|? ? ? ? ? ? E]; [by simplify_eq|done]. Qed.

Lemma always_bind_ret {A B} P (a : A) (k : A -> prog C B) s :
  always P (k a) s -> always P (Bind (Ret a) k) s.
Proof.
  intros Hk p' s' Hst. inversion Hst as [|? ? p1 s1 p2 s2 E Hr]; simplify_eq.
  - apply (Hk (k a)). apply steps_refl.
  - simpl in E. simplify_eq. by eapply Hk.
Qed.

Lemma always_bind_act {A B} P (m : M C A) (k : A -> prog C B) s :
  P s -> (forall a s1, m s = Ok a s1 -> always P (k a) s1) -> always P (Bind (Act m) k) s.
Proof.
  intros Hs Hk p' s' Hst. inversion Hst as [|? ? p1 s1 p2 s2 E Hr]; simplify_eq; [done|].
  simpl in E. destruct (m s) as [a s2'| |] eqn:Em; try done. simplify_eq.
  eapply always_bind_ret; [by apply Hk|done].
Qed.
End Always.

(** ** The clock switches, one statement at a time *)

Section Statements.
Context {C : Type} `{HC : PerfCounter C} `{!PerfCounterLaws C}.
Variable me : Z.
Implicit Types s : rt C.

Definition disable_statements : prog C Z :=
  w <~ Act (gets (fun s => worker s me)) ;;
  if fds_null (fds w) then Ret (-1)
  else if negb (hw_clock_enabled w) then Ret (-1)
  else
    Act (disable_performance_counter me) ;~
    f <~ Act (gets (fun s => fds (worker s me))) ;;
    v <~ Act (read_count me f) ;;
    Act (modify (upd_worker me (set_hw_clock v))) ;~
    Act (modify (upd_worker me (set_hw_clock_enabled false))) ;~
    Act (DBG me 4 "disable_logical_clock: hw_clock = %lld, enabled=%d" [v; 0]) ;~
    Act (modify (upd_statv me (fun t => set_disable_cnt (disable_cnt t + 1) t))) ;~
    Ret 0.

Definition enable_statements : prog C Z :=
  w <~ Act (gets (fun s => worker s me)) ;;
  if fds_null (fds w) then Ret (-1)
  else if hw_clock_enabled w then Ret (-1)
  else
    Act (DBG me 4 "enable_logical_clock: hw_clock = %lld, enabled=%d" [hw_clock w; 0]) ;~
    Act (modify (upd_worker me (set_hw_clock_enabled true))) ;~
    Act (enable_performance_counter me) ;~
    Act (modify (upd_statv me (fun t => set_enable_cnt (enable_cnt t + 1) t))) ;~
    Ret 0.

(** The atomic definitions do what the statements do. *)
Lemma disable_statements_run n s : run n disable_statements s = of_res (disable_logical_clock me s).
Proof.
  unfold disable_statements, disable_logical_clock, mbind, gets, modify, mret. cbn [run of_res obind].
  destruct (fds_null _); [done|]. destruct (negb _); [done|]. cbn [run of_res obind].
  destruct (disable_performance_counter me s) as [? s1| |]; try done. cbn [run of_res obind].
  destruct (read_count me (fds (worker s1 me)) s1) as [? s2| |]; try done. cbn [run of_res obind].
  by destruct (DBG _ _ _ _ _).
Qed.
Lemma enable_statements_run n s : run n enable_statements s = of_res (enable_logical_clock me s).
Proof.
  unfold enable_statements, enable_logical_clock, mbind, gets, modify, mret. cbn [run of_res obind].
  destruct (fds_null _); [done|]. destruct (hw_clock_enabled _); [done|]. cbn [run of_res obind].
  destruct (DBG _ _ _ _ s) as [? s1| |]; try done. cbn [run of_res obind].
  by destruct (enable_performance_counter me _).
Qed.

(** Everybody reads the times of [s]. *)
Definition same_times s s' : Prop := forall i, logical_time s' i = logical_time s i.

Lemma same_times_upd s s' f : same_times s s' ->
  worker_time (f (worker s' me)) = worker_time (worker s' me) -> same_times s (upd_worker me f s').
Proof.
  intros Hs Hf i. rewrite <- Hs. unfold logical_time. rewrite worker_upd.
  case_decide; [by subst|done].
Qed.
Lemma same_times_sim s s1 s2 : s2 ≈ s1 -> same_times s s1 -> same_times s s2.
Proof. intros Es Hs i. by rewrite (logical_time_sim _ _ _ Es). Qed.

Lemma on_counter_open s f c : fds (worker s me) = FdsOpen c ->
  on_counter me f s = Ok 0 (upd_worker me (set_fds (FdsOpen (f c))) s).
Proof. intros Ef. unfold on_counter, mbind, gets. by rewrite Ef. Qed.
Lemma DBG_sim l fm ar s a s1 : DBG me l fm ar s = Ok a s1 -> s1 ≈ s.
Proof.
  unfold DBG, mbind, gets, massert, mwhen, modify, mret, abort. destruct (negb _); [|done].
  destruct (l <=? _); intros [= <- <-]; [apply add_log_sim|done].
Qed.

Lemma disable_times s : clock_wf (worker s me) -> always (same_times s) disable_statements s.
Proof.
  intros Hwf. unfold disable_statements. apply always_bind_act; [done|]. intros w s1 [= <- <-].
  destruct (fds (worker s me)) as [|c|] eqn:Ef; simpl; [by apply always_ret| |].
  2: { unfold clock_wf in Hwf. rewrite Ef in Hwf. rewrite Hwf. by apply always_ret. }
  destruct (hw_clock_enabled (worker s me)) eqn:Eh; simpl; [|by apply always_ret].
  apply always_bind_act; [done|]. intros r s1. unfold disable_performance_counter.
  rewrite (on_counter_open _ _ c) by done. intros [= <- <-].
  assert (same_times s (upd_worker me (set_fds (FdsOpen (pc_disable c))) s)) as H1.
  { apply same_times_upd; [done|]. unfold worker_time. simpl. by rewrite Eh, Ef, pc_disable_raw. }
  apply always_bind_act; [done|]. intros f s1 [= <- <-]. rewrite worker_upd_eq. cbn [fds set_fds].
  apply always_bind_act; [done|].
  intros v s2. destruct (read_count_returns me (pc_disable c) (upd_worker me (set_fds (FdsOpen (pc_disable c))) s))
    as (s2' & -> & E2). intros [= <- <-]. rewrite pc_disable_raw.
  pose proof (same_times_sim _ _ _ E2 H1) as H2.
  apply always_bind_act; [done|]. intros [] s3 [= <-].
  assert (same_times s (upd_worker me (set_hw_clock (pc_raw c)) s2')) as H3.
  { apply same_times_upd; [done|]. unfold worker_time. sim_rw E2. rt_simpl. by rewrite Eh. }
  apply always_bind_act; [done|]. intros [] s4 [= <-].
  assert (same_times s (upd_worker me (set_hw_clock_enabled false) (upd_worker me (set_hw_clock (pc_raw c)) s2'))) as H4.
  { apply same_times_upd; [done|]. rt_simpl. unfold worker_time. simpl. sim_rw E2. rt_simpl.
    rewrite Eh, pc_disable_raw. lia. }
  apply always_bind_act; [done|]. intros [] s5 E5%DBG_sim. pose proof (same_times_sim _ _ _ E5 H4) as H5.
  apply always_bind_act; [done|]. intros [] s6 [= <-]. apply always_ret.
  eapply same_times_sim; [apply upd_statv_sim|done].
Qed.

Lemma enable_times s : clock_wf (worker s me) -> fds (worker s me) <> FdsFreed ->
  always (same_times s) enable_statements s.
Proof.
  intros Hwf Hf. unfold enable_statements. apply always_bind_act; [done|]. intros w s1 [= <- <-].
  destruct (fds (worker s me)) as [|c|] eqn:Ef; simpl; [by apply always_ret| |done].
  destruct (hw_clock_enabled (worker s me)) eqn:Eh; simpl; [by apply always_ret|].
  unfold clock_wf in Hwf. rewrite Ef, Eh in Hwf. destruct Hwf as [_ Hv].
  apply always_bind_act; [done|]. intros [] s1 E1%DBG_sim. assert (same_times s s1) as H1 by (by eapply same_times_sim).
  apply always_bind_act; [done|]. intros [] s2 [= <-].
  assert (same_times s (upd_worker me (set_hw_clock_enabled true) s1)) as H2.
  { apply same_times_upd; [done|]. unfold worker_time. simpl. sim_rw E1. rewrite Eh, Ef, Hv by done. lia. }
  apply always_bind_act; [done|]. intros r s3. unfold enable_performance_counter.
  rewrite (on_counter_open _ _ c) by (rt_simpl; by sim_rw E1). intros [= <- <-].
  assert (same_times s (upd_worker me (set_fds (FdsOpen (pc_enable c))) (upd_worker me (set_hw_clock_enabled true) s1))) as H3.
  { apply same_times_upd; [done|]. rt_simpl. unfold worker_time. simpl. sim_rw E1. by rewrite Ef, pc_enable_raw. }
  apply always_bind_act; [done|]. intros [] s6 [= <-]. apply always_ret.
  eapply same_times_sim; [apply upd_statv_sim|done].
Qed.
End Statements.

(** C13. No thread sees a clock jump while its owner pauses or resumes it. After every single
    statement of [disable_logical_clock] and of [enable_logical_clock] (the counter is
    stopped before its value is cached, and the cached value is used until the counter is
    declared live again) the logical time that any thread reads of any thread is the one
    before the call; and the statements together do what the call does. *)
Theorem clock_switch_invisible {C} `{PerfCounter C} `{!PerfCounterLaws C} me (s : rt C) :
  clock_wf (worker s me) -> fds (worker s me) <> FdsFreed ->
  always (same_times s) (disable_statements me) s /\
  always (same_times s) (enable_statements me) s /\
  (forall n, run n (disable_statements me) s = of_res (disable_logical_clock me s)) /\
  (forall n, run n (enable_statements me) s = of_res (enable_logical_clock me s)).
Proof.
  intros Hw Hf. split_and!; intros; [by apply disable_times|by apply enable_times
    |apply disable_statements_run|apply enable_statements_run].
Qed.

(** ** Brackets *)

Section Brackets.
Context {C : Type} `{HC : PerfCounter C} `{!PerfCounterLaws C}.
Variable me : Z.
Implicit Types (s : rt C) (w : worker_args C).

(** What [n] events do to the entry of their thread. *)
Definition burn (n : Z) w : worker_args C :=
  match fds w with FdsOpen c => set_fds (FdsOpen (pc_events n c)) w | _ => w end.

(** The shape of every operation: [events] are counted while the runtime works. *)
Definition bracket (events k : Z) : M C unit :=
  lret <- disable_logical_clock me ;;
  compute me events ;;;
  incr_sw_clock me k ;;;
  resume_logical_clock me lret.

Lemma burn_stopped n w : hw_clock_enabled w = false -> clock_wf w ->
  clock_wf (burn n w) /\ worker_time (burn n w) = worker_time w /\ hw_clock_enabled (burn n w) = false /\
  (fds w <> FdsFreed -> fds (burn n w) <> FdsFreed).
Proof.
  intros Hoff. unfold burn, clock_wf, worker_time. destruct (fds w) as [|c|] eqn:Ef; rewrite ?Ef, ?Hoff; try done.
  cbn [fds set_fds hw_clock_enabled hw_clock sw_clock]. rewrite Hoff. intros [Hr Hv].
  rewrite pc_events_running, pc_events_raw, Hr. auto.
Qed.

Lemma burn_running n w : hw_clock_enabled w = true -> clock_wf w -> worker_time (burn n w) = worker_time w + n.
Proof.
  intros Hon. unfold burn, clock_wf, worker_time. destruct (fds w) as [|c|] eqn:Ef; rewrite ?Ef, ?Hon; try done.
  cbn [fds set_fds hw_clock_enabled hw_clock sw_clock]. rewrite Hon. intros [Hr Hv].
  rewrite pc_events_raw, Hr. lia.
Qed.

Lemma bracket_returns events k s : clock_wf (worker s me) -> fds (worker s me) <> FdsFreed ->
  returns (bracket events k) s tt
    (upd_worker me (fun w => resumed w (tick k (burn events (stop_clock w)))) s).
Proof.
  intros Hw Hf. unfold bracket. mrun (by apply disable_returns) as s1 E1.
  apply returns_modify_bind, returns_modify_bind.
  set (s2 := upd_worker me _ (upd_worker me _ s1)).
  assert (s2 ≈ upd_worker me (fun w => tick k (burn events (stop_clock w))) s) as E2.
  { unfold s2. by rewrite E1, !worker_upd_upd. }
  destruct (burn_stopped events (stop_clock (worker s me))) as (_ & _ & _ & Hf2);
    [by apply stop_clock_stopped|by apply stop_clock_wf|].
  destruct (resume_returns me (pause_ret (worker s me)) s2) as (s3 & Er & E3).
  { rewrite (sim_worker _ _ E2), worker_upd_eq. apply Hf2, stop_clock_fds, Hf. }
  exists s3. split; [done|]. rewrite E3. unfold pause_ret.
  destruct (hw_clock_enabled (worker s me)) eqn:Eh; simpl; rewrite E2, ?worker_upd_upd;
    apply upd_worker_ext; unfold resumed; by rewrite Eh.
Qed.
End Brackets.

(** The runtime is not counted. Whatever number of hardware events happens in a thread
    between [disable_logical_clock] and the matching [enable_logical_clock] of an operation,
    its logical time moves by exactly what the operation adds to the software clock, the
    clock runs afterwards if and only if it ran before, it stays well formed, and no other
    thread's entry changes; while events of a running thread outside move its time by their
    number. *)
Theorem runtime_not_counted {C} `{PerfCounter C} `{!PerfCounterLaws C} me events k (s : rt C) :
  clock_wf (worker s me) -> fds (worker s me) <> FdsFreed ->
  (exists s', bracket me events k s = Ok tt s' /\
    logical_time s' me = logical_time s me + k /\
    hw_clock_enabled (worker s' me) = hw_clock_enabled (worker s me) /\
    clock_wf (worker s' me) /\ forall i, i <> me -> worker s' i = worker s i) /\
  (hw_clock_enabled (worker s me) = true ->
   exists s', compute me events s = Ok tt s' /\ logical_time s' me = logical_time s me + events).
Proof.
  intros Hw Hf. split.
  - destruct (bracket_returns me events k s Hw Hf) as (s' & Er & Es). exists s'. split; [done|].
    unfold logical_time. rewrite !(sim_worker _ _ Es), worker_upd_eq.
    destruct (burn_stopped events (stop_clock (worker s me))) as (Bw & Bt & Bo & _);
      [by apply stop_clock_stopped|by apply stop_clock_wf|].
    unfold resumed. destruct (hw_clock_enabled (worker s me)) eqn:Eh.
    + split_and!.
      * rewrite start_clock_time by (by apply tick_wf). by rewrite tick_time, Bt, stop_clock_time.
      * clear -Hw Eh. unfold clock_wf, start_clock, tick, burn, stop_clock in *.
        destruct (fds (worker s me)) eqn:Ef; rewrite ?Eh; simpl; congruence.
      * by apply start_clock_wf, tick_wf.
      * intros. by rewrite (sim_worker _ _ Es), worker_upd_ne.
    + split_and!; [by rewrite tick_time, Bt, stop_clock_time|done|by apply tick_wf|].
      intros. by rewrite (sim_worker _ _ Es), worker_upd_ne.
  - intros Hon. eexists. split; [done|]. unfold logical_time. rewrite worker_upd_eq. by apply burn_running.
Qed.

(** ** Leaving the deterministic order *)

Section Detach.
Context {C : Type} `{HC : PerfCounter C} `{!PerfCounterLaws C}.
Variables (E : env) (me : Z).
Implicit Types (s : rt C) (w : worker_args C).

(** [SET_CLOCK] on an entry. *)
Definition clock_set (t : Z) w : worker_args C := set_sw_clock (t - hw_clock w) w.

Lemma tls_worker_comm i f g s : upd_tlsv i f (upd_worker i g s) = upd_worker i g (upd_tlsv i f s).
Proof. done. Qed.

Lemma det_disable_returns s : enabled me s ->
  returns (det_disable E me) s tt
    (upd_worker me (fun w => clock_set MAX_LOGICAL_CLOCK (stop_clock w))
       (upd_tlsv me (fun _ => mkTls (logical_time s me) false) s)).
Proof.
  intros [[Hr Hw] Hn He]. unfold det_disable, ensure_init.
  mrun (mget; destruct (Z.eqb_spec (max_thr (glob s)) 0); [lia|]; apply returns_ret) as s1 E1.
  mget. mrun (sim_rw E1; rewrite He; apply returns_ret) from E1 as s2 E2.
  mrun (apply disable_returns; sim_rw E2; auto) from E2 as s3 E3.
  assert (worker s3 me = stop_clock (worker s me)) as Ew by (sim_rw E3; by rewrite worker_upd_eq).
  mrun (apply get_logical_clock_returns; rewrite Ew; [apply stop_clock_stopped|apply stop_clock_wf]; auto) from E3 as s4 E4.
  replace (logical_time s3 me) with (logical_time s me) by (unfold logical_time; by rewrite Ew, stop_clock_time).
  apply returns_modify_bind, returns_modify_bind, returns_modify_bind.
  mrun (apply DBG_returns; repeat rt_frame; unfold SET_CLOCK; rewrite worker_upd_eq; repeat rt_frame;
        simpl; rewrite (sim_worker _ _ E4), worker_upd_eq; apply stop_clock_stopped; auto) as s5 E5.
  apply returns_ret_sim. rewrite E5. unfold SET_CLOCK.
  rewrite tls_worker_comm, tlsv_upd_upd, E4, tls_worker_comm, worker_upd_upd. done.
Qed.

Lemma det_enable_returns s t : 0 < max_thr (glob s) -> tlsv s me = mkTls t false ->
  hw_clock_enabled (worker s me) = false -> fds (worker s me) <> FdsFreed ->
  returns (det_enable me) s tt
    (upd_worker me (fun w => start_clock (clock_set t w)) (upd_tlsv me (set_my_det_enabled true) s)).
Proof.
  intros Hm Ht Hoff Hf. unfold det_enable. mget.
  mrun (destruct (Z.ltb_spec 0 (max_thr (glob s))); [apply returns_ret|lia]) as s1 E1. mget.
  mrun (sim_rw E1; rewrite Ht; apply returns_ret) from E1 as s2 E2.
  mrun (apply DBG_returns; by sim_rw E2) from E2 as s3 E3.
  apply returns_modify_bind, returns_modify_bind. sim_rw E1. rewrite Ht. cbn [my_det_clock].
  set (s4 := upd_tlsv _ _ _). assert (s4 ≈ upd_worker me (clock_set t) (upd_tlsv me (set_my_det_enabled true) s)) as E4.
  { unfold s4, SET_CLOCK. by rewrite tls_worker_comm, E3. }
  mrun (apply enable_returns; rewrite (sim_worker _ _ E4), worker_upd_eq; done) as s5 E5.
  apply returns_ret_sim. by rewrite E5, E4, worker_upd_upd.
Qed.
End Detach.

(** Leaving and rejoining the deterministic order. [det_disable] saves the caller's
    logical time and moves its clock to [MAX_LOGICAL_CLOCK], so that every thread at an
    earlier time precedes it and nobody waits for it; whatever the thread executes while
    detached is not counted, and [det_enable] puts it back at exactly the logical time at
    which it left, enabled, with its clock well formed. *)
Lemma detach_round_trip {C} `{PerfCounter C} `{!PerfCounterLaws C} E me events (s : rt C) :
  enabled me s -> fds (worker s me) <> FdsFreed ->
  exists s1 s2 s3, det_disable E me s = Ok tt s1 /\ compute me events s1 = Ok tt s2 /\
    det_enable me s2 = Ok tt s3 /\
    logical_time s1 me = MAX_LOGICAL_CLOCK /\ det_is_enabled me s1 = Ok false s1 /\
    (forall j, j <> me -> logical_time s j < MAX_LOGICAL_CLOCK -> precedes s1 j me) /\
    logical_time s3 me = logical_time s me /\ my_det_enabled (tlsv s3 me) = true /\
    clock_wf (worker s3 me).
Proof.
  intros Hen Hf. pose proof Hen as [[Hr Hw] Hn He]. specialize (Hw me Hr).
  destruct (det_disable_returns E me s Hen) as (s1 & R1 & E1).
  set (w1 := clock_set MAX_LOGICAL_CLOCK (stop_clock (worker s me))).
  assert (worker s1 me = w1) as W1 by (rewrite (sim_worker _ _ E1); by rewrite worker_upd_eq).
  assert (hw_clock_enabled w1 = false /\ clock_wf w1 /\ fds w1 <> FdsFreed) as (O1 & V1 & F1).
  { split_and!; [by apply stop_clock_stopped|by apply (stop_clock_wf _ Hw)|by apply (stop_clock_fds _ Hf)]. }
  destruct (burn_stopped events w1 O1 V1) as (V2 & T2 & O2 & F2).
  destruct (det_enable_returns me (upd_worker me (burn events) s1) (logical_time s me)) as (s3 & R3 & E3).
  { repeat rt_frame. rewrite (sim_glob _ _ E1). repeat rt_frame. lia. }
  { repeat rt_frame. rewrite (sim_tls _ _ E1). repeat rt_frame. by rewrite tlsv_upd_eq. }
  { by rewrite worker_upd_eq, W1. }
  { rewrite worker_upd_eq, W1. auto. }
  exists s1, (upd_worker me (burn events) s1), s3. split; [done|]. split; [done|]. split; [done|].
  assert (worker s3 me = start_clock (clock_set (logical_time s me) (burn events w1))) as W3.
  { rewrite (sim_worker _ _ E3), worker_upd_eq. repeat rt_frame. by rewrite worker_upd_eq, W1. }
  assert (logical_time s1 me = MAX_LOGICAL_CLOCK) as T1.
  { unfold logical_time. rewrite W1, stopped_time by done. unfold w1, clock_set. simpl. lia. }
  split_and!; [done|..].
  - unfold det_is_enabled, mbind, gets. destruct (_ <=? _); [done|].
    rewrite (sim_tls _ _ E1). repeat rt_frame. by rewrite tlsv_upd_eq.
  - intros j Hj Hlt. left. rewrite T1. unfold logical_time. rewrite (sim_worker _ _ E1).
    rewrite worker_upd_ne by done. exact Hlt.
  - unfold logical_time at 1. rewrite W3, start_clock_time by exact V2.
    rewrite stopped_time by exact O2. unfold clock_set. simpl. lia.
  - rewrite (sim_tls _ _ E3). repeat rt_frame. by rewrite tlsv_upd_eq.
  - rewrite W3. apply start_clock_wf, V2.
Qed.

(** *** Witnesses *)
Import SimpleCounter Samples.
Lemma start_enabled : enabled 1 start.
Proof. split; [split|done|done]; [done|]. by apply (three_entries (fun _ => clock_wf)). Qed.

Lemma clock_switch_invisible_witness :
  always (same_times start) (disable_statements 1) start /\
  always (same_times start) (enable_statements 1) start /\
  (forall n, run n (disable_statements 1) start = of_res (disable_logical_clock 1 start)) /\
  (forall n, run n (enable_statements 1) start = of_res (enable_logical_clock 1 start)).
Proof. apply (clock_switch_invisible 1 start); done. Defined.

(** 500 events inside an operation that adds 3: thread 1 goes from 10 to 13. *)
Lemma runtime_not_counted_witness :
  exists s', bracket 1 500 3 start = Ok tt s' /\ logical_time s' 1 = 13.
Proof.
  destruct (runtime_not_counted 1 500 3 start) as [(s' & Hs & Ht & _) _]; [done|done|by exists s'].
Defined.

Lemma detach_round_trip_witness :
  exists s1 s2 s3, det_disable environment 1 start = Ok tt s1 /\ compute 1 99 s1 = Ok tt s2 /\
    det_enable 1 s2 = Ok tt s3 /\ logical_time s1 1 = MAX_LOGICAL_CLOCK /\ logical_time s3 1 = 10.
Proof.
  destruct (detach_round_trip environment 1 99 start start_enabled ltac:(done))
    as (s1 & s2 & s3 & ? & ? & ? & ? & _ & _ & ? & _). by exists s1, s2, s3.
Defined.
