(* ===== verification/Conds.v ===== *)
(** Condition variables: whom [det_cond_signal] and [det_cond_broadcast] wake and at which
    logical time, and how [det_cond_wait] parks its caller. *)
From stdpp Require Import base list gmap strings.
From Stdlib Require Import ZArith Lia.
From S2P Require Import Prelude Queue Runtime Clock Sync Threads Samples Turn Mutexes Pause.
Open Scope m_scope.
Open Scope prog_scope.

Section Conds.
Context {C : Type} `{HC : PerfCounter C} `{!PerfCounterLaws C}.
Variables (E : env) (me : Z) (c : addr).
Implicit Types s : rt C.

(** The framework of paused states, with no mutex involved. *)
Abbreviation at_pause s k := (paused_at me (AObj 0) s k (fun m => m)).
Abbreviation at_end s k := (back_at me (AObj 0) s k (fun m => m)).
Abbreviation queue_of s := (Queue.contents NO_WAITER (c_queue (cond s c))).

(** Waking [x] at time [t]: its clock is set, its semaphore opened, its entry removed. *)
Definition wake (t x : Z) s : rt C :=
  upd_cond c (fun cc => upd_waiter x (set_m_holder None) (set_c_queue (Queue.popped (c_queue cc)) cc))
    (upd_worker x (clock_set t) s).

(** The waiters [l] of the condition variable, first come first; all of them parked. *)
Record waiting (l : list Z) s : Prop := {
  w_queue : Queue.wf (c_queue (cond s c));
  w_contents : queue_of s = l;
  w_nodup : NoDup l;
  w_me : me ∉ l;
  w_id x : x ∈ l -> m_id (waiter_of (cond s c) x) = x;
  w_off x : x ∈ l -> hw_clock_enabled (worker s x) = false
}.

Lemma cond_worker_comm i f g s : upd_worker i g (upd_cond c f s) = upd_cond c f (upd_worker i g s).
Proof. done. Qed.
Lemma at_pause_cond s k g : upd_cond c g (at_pause s k) = at_pause (upd_cond c g s) k.
Proof. done. Qed.
Lemma at_pause_worker s k i g : i <> me -> upd_worker i g (at_pause s k) ≈ at_pause (upd_worker i g s) k.
Proof.
  intros Hne. unfold paused_at. constructor; intros;
    repeat first [rt_frame | rewrite worker_upd | rewrite mutex_upd]; repeat case_decide; subst; done.
Qed.

Lemma wake_entered t x s : entered me s -> entered me (wake t x s).
Proof.
  intros [Hr Hw]. split; [done|]. intros i Hi. unfold wake. repeat rt_frame. rewrite worker_upd.
  case_decide; subst; apply Hw, Hi.
Qed.
Lemma wake_other t x s i : i <> x -> worker (wake t x s) i = worker s i.
Proof. intros. unfold wake. repeat rt_frame. by rewrite worker_upd_ne. Qed.
Lemma wake_cond t x s : cond (wake t x s) c =
  upd_waiter x (set_m_holder None) (set_c_queue (Queue.popped (c_queue (cond s c))) (cond s c)).
Proof. unfold wake. by rewrite cond_upd_eq. Qed.
Lemma waiter_of_wake t x s y : waiter_of (cond (wake t x s) c) y =
  if decide (y = x) then set_m_holder None (waiter_of (cond s c) x) else waiter_of (cond s c) y.
Proof.
  rewrite wake_cond. unfold upd_waiter, waiter_of. simpl. case_decide as Hd.
  - subst. by rewrite lookup_insert_eq.
  - by rewrite lookup_insert_ne.
Qed.

Lemma waiting_head x l s : waiting (x :: l) s ->
  Queue.head (c_queue (cond s c)) <> Queue.tail (c_queue (cond s c)) /\
  Queue.slot NO_WAITER (c_queue (cond s c)) 0 = x /\
  Queue.contents NO_WAITER (Queue.popped (c_queue (cond s c))) = l.
Proof.
  intros [Hq Hc _ _ _ _].
  assert (Queue.head (c_queue (cond s c)) <> Queue.tail (c_queue (cond s c))) as Hn.
  { intros Hn. by rewrite Queue.contents_nil in Hc. }
  rewrite Queue.contents_pop in Hc by done. by injection Hc.
Qed.

Lemma waiting_wake t x l s : waiting (x :: l) s -> waiting l (wake t x s).
Proof.
  intros Hw. destruct (waiting_head _ _ _ Hw) as (Hn & Hs & Hp). destruct Hw as [Hq Hc Hnd Hme Hid Hoff].
  apply NoDup_cons in Hnd as [Hx Hnd]. split.
  - rewrite wake_cond. by apply Queue.popped_wf.
  - by rewrite wake_cond.
  - done.
  - intros Hin. apply Hme. by right.
  - intros y Hy. rewrite waiter_of_wake. rewrite decide_False by congruence. apply Hid. by right.
  - intros y Hy. rewrite wake_other by congruence. apply Hoff. by right.
Qed.

(** *** [det_cond_signal] *)

(** The commands of [det_cond_signal] after the clock was paused; [lret] is what pausing it
    answered. (The text is the one of [det_cond_signal].) *)
Definition signal_rest (lret : Z) : prog C Z :=
  clock <~ Act (get_logical_clock me me) ;;
  Act (massert (clock <? MAX_LOGICAL_CLOCK) "det_cond_signal: clock") ;~
  empty <~ Act (gets (fun s => Queue.IsEmptyQ (c_queue (cond s c)))) ;;
  when (empty =? 0)
    (lock <~ Act (cond_DelQ c) ;;
     id <~ Act (gets (fun s => m_id (waiter_of (cond s c) lock))) ;;
     Act (modify (SET_CLOCK id clock)) ;~
     Act (waiter_unlock c lock) ;~
     cid <~ Act (gets (fun s => c_id (cond s c))) ;;
     Act (DBG me 1 "cond(%d) signal to %d" [cid; lock])) ;~
  Act (incr_sw_clock me 1) ;~
  Act (resume_logical_clock me lret) ;~
  Ret 0.
Lemma signal_split : det_cond_signal me c = (lret <~ Act (disable_logical_clock me) ;; signal_rest lret).
Proof. done. Qed.

Lemma signal_wakes n s k x l s1 lret s2 : entered me s -> s1 ≈ at_pause s k ->
  logical_time s me + k < MAX_LOGICAL_CLOCK -> waiting (x :: l) s ->
  (forall s3, s3 ≈ at_pause (wake (logical_time s me + k) x s) (k + 1) ->
     finishes n (Act (resume_logical_clock me lret) ;~ Ret 0) s3 0 s2) ->
  finishes n (signal_rest lret) s1 0 s2.
Proof.
  intros He E1 Hm Hw Hk. unfold signal_rest. destruct (waiting_head _ _ _ Hw) as (Hn & Hs & Hp).
  prun (run_clock) as s3 E3.
  prun (apply finishes_act; destruct (Z.ltb_spec (logical_time s me + k) MAX_LOGICAL_CLOCK);
        [apply returns_ret|lia]) from E3 as s4 E4.
  pget. unfold Queue.IsEmptyQ. sim_rw E4. change (cond (at_pause s k) c) with (cond s c).
  destruct (Z.eqb_spec (Queue.head (c_queue (cond s c))) (Queue.tail (c_queue (cond s c)))); [done|]. simpl.
  set (t := logical_time s me + k) in *.
  eapply finishes_bind with (a := tt) (s1 := at_pause (wake t x s) k).
  - prun (apply finishes_act; unfold cond_DelQ; mget; unfold Queue.DelQ; sim_rw E4;
          change (cond (at_pause s k) c) with (cond s c);
          destruct (Z.eqb_spec (Queue.head (c_queue (cond s c))) (Queue.tail (c_queue (cond s c)))); [done|];
          rewrite (Queue.head_slot NO_WAITER), c_rem_pos by (apply Hw || destruct (w_queue _ _ Hw); lia);
          apply returns_modify_bind, returns_ret) as s5 E5.
    cbn [fst snd] in *. rewrite Hs in *. rewrite E4 in E5. pget.
    assert (m_id (waiter_of (cond s5 c) x) = x) as Hx.
    { rewrite (sim_cond _ _ E5), cond_upd_eq. change (cond (at_pause s k) c) with (cond s c).
      apply (w_id _ _ Hw). by left. }
    rewrite Hx. pget. set (s6 := upd_cond c _ (SET_CLOCK x t s5)).
    assert (x <> me) as Hne. { intros ->. apply (w_me _ _ Hw). by left. }
    assert (s6 ≈ at_pause (wake t x s) k) as E7.
    { unfold s6, SET_CLOCK. rewrite E5. rewrite at_pause_cond, at_pause_worker by done.
      rewrite at_pause_cond. apply (paused_at_proper me (AObj 0)). unfold wake.
      by rewrite cond_worker_comm, cond_upd_upd. }
    apply finishes_act. eapply op_DBG; [|exact E7]. by apply wake_entered.
  - intros s5 E5. cbv beta. prun (run_tick) as s6 E6. by apply Hk.
Qed.

Lemma signal_empty n s k s1 lret s2 : entered me s -> s1 ≈ at_pause s k ->
  logical_time s me + k < MAX_LOGICAL_CLOCK -> waiting [] s ->
  (forall s3, s3 ≈ at_pause s (k + 1) ->
     finishes n (Act (resume_logical_clock me lret) ;~ Ret 0) s3 0 s2) ->
  finishes n (signal_rest lret) s1 0 s2.
Proof.
  intros He E1 Hm Hw Hk. unfold signal_rest. prun (run_clock) as s3 E3.
  prun (apply finishes_act; destruct (Z.ltb_spec (logical_time s me + k) MAX_LOGICAL_CLOCK);
        [apply returns_ret|lia]) from E3 as s4 E4.
  pget. rewrite (Queue.IsEmptyQ_spec NO_WAITER) by (sim_rw E4; apply Hw).
  rewrite decide_True by (sim_rw E4; apply Hw). simpl. pget.
  prun (run_tick) as s5 E5. by apply Hk.
Qed.

(** From outside an operation, and from inside one. *)
Lemma resume_ends n s k s1 lret : entered me s -> fds (worker s me) <> FdsFreed -> s1 ≈ at_pause s k ->
  lret = pause_ret (worker s me) ->
  finishes n (Act (resume_logical_clock me lret) ;~ Ret 0) s1 0 (at_end s k).
Proof.
  intros He Hf E1 ->. prun (apply finishes_act; by eapply op_resume) as s2 E2. by apply finishes_ret_sim.
Qed.
Lemma resume_inside n s k s1 : s1 ≈ at_pause s k ->
  finishes n (Act (resume_logical_clock me (-1)) ;~ Ret 0) s1 0 (at_pause s k).
Proof. intros E1. prun (apply finishes_act, returns_ret) from E1 as s2 E2. by apply finishes_ret_sim. Qed.
Lemma pause_inside s k s1 : entered me s -> s1 ≈ at_pause s k ->
  returns (disable_logical_clock me) s1 (-1) (at_pause s k).
Proof.
  intros He E1. pose proof (paused_at_paused me (AObj 0) s k (fun m => m) He) as [Hr Hoff Hw].
  destruct (disable_returns me s1) as (s2 & Er & E2); [rewrite (sim_worker _ _ E1); auto|].
  exists s2. rewrite Er. unfold pause_ret. rewrite (sim_worker _ _ E1), Hoff. split; [done|].
  rewrite E2, <- E1. apply upd_worker_id, stop_clock_id. by rewrite (sim_worker _ _ E1).
Qed.

Lemma signal_outside n s x l : entered me s -> fds (worker s me) <> FdsFreed ->
  logical_time s me < MAX_LOGICAL_CLOCK -> waiting (x :: l) s ->
  finishes n (det_cond_signal me c) s 0 (at_end (wake (logical_time s me) x s) 1).
Proof.
  intros He Hf Hm Hw. rewrite signal_split.
  assert (x <> me) as Hne. { intros ->. apply (w_me _ _ Hw). by left. }
  prun (apply finishes_act; by eapply (op_pause me (AObj 0) s)) as s1 E1.
  eapply signal_wakes; try done; [lia|]. rewrite Z.add_0_r. intros s3 E3.
  apply resume_ends; try done; [by apply wake_entered|by rewrite wake_other|by rewrite wake_other].
Qed.

Lemma signal_inside n s k x l s1 : entered me s -> s1 ≈ at_pause s k ->
  logical_time s me + k < MAX_LOGICAL_CLOCK -> waiting (x :: l) s ->
  finishes n (det_cond_signal me c) s1 0 (at_pause (wake (logical_time s me + k) x s) (k + 1)).
Proof.
  intros He E1 Hm Hw. rewrite signal_split. prun (apply finishes_act; by eapply pause_inside) as s2 E2.
  eapply signal_wakes; try done. intros s3 E3. by apply resume_inside.
Qed.

(** *** [det_cond_broadcast] *)

Fixpoint wake_all (t : Z) (l : list Z) s : rt C :=
  match l with [] => s | x :: l => wake_all (t + 1) l (wake t x s) end.

Lemma broadcast_loop n l s k s1 : entered me s -> s1 ≈ at_pause s k ->
  logical_time s me + k + Z.of_nat (length l) <= MAX_LOGICAL_CLOCK -> waiting l s ->
  loops n (S (length l)) (broadcast_body me c) tt s1 tt
    (at_pause (wake_all (logical_time s me + k) l s) (k + Z.of_nat (length l))).
Proof.
  revert s k s1. induction l as [|x l IH]; intros s k s1 He E1 Hm Hw; cbn [length wake_all] in *.
  - apply loops_last. unfold broadcast_body. pget.
    rewrite (Queue.IsEmptyQ_spec NO_WAITER) by (sim_rw E1; apply Hw).
    rewrite decide_True by (sim_rw E1; apply Hw). simpl. apply finishes_ret_sim. by rewrite Z.add_0_r.
  - eapply loops_next.
    + unfold broadcast_body. pget. rewrite (Queue.IsEmptyQ_spec NO_WAITER) by (sim_rw E1; apply Hw).
      rewrite decide_False by (sim_rw E1; change (cond (at_pause s k) c) with (cond s c); rewrite (w_contents _ _ Hw); done). simpl.
      prun (eapply signal_inside; eauto; lia) as s2 E2. by apply finishes_ret_sim.
    + intros s2 E2. assert (x <> me) as Hne. { intros ->. apply (w_me _ _ Hw). by left. }
      set (t := logical_time s me + k) in *.
      assert (logical_time (wake t x s) me = logical_time s me) as Et
        by (unfold logical_time; by rewrite wake_other).
      replace (k + Z.of_nat (S (length l))) with (k + 1 + Z.of_nat (length l)) by lia.
      replace (t + 1) with (logical_time (wake t x s) me + (k + 1)) by (rewrite Et; lia).
      apply IH; [by apply wake_entered|done|rewrite Et; lia|by apply waiting_wake].
Qed.

Lemma wake_all_other t l s i : i ∉ l -> worker (wake_all t l s) i = worker s i.
Proof.
  revert t s. induction l as [|x l IH]; intros t s Hi; [done|]. simpl.
  rewrite IH by (intros ?; apply Hi; by right). apply wake_other. intros ->. apply Hi. by left.
Qed.
Lemma wake_all_entered t l s : entered me s -> entered me (wake_all t l s).
Proof. revert t s. induction l as [|x l IH]; intros t s He; [done|]. by apply IH, wake_entered. Qed.
Lemma wake_all_waiting t l s : waiting l s -> waiting [] (wake_all t l s).
Proof. revert t s. induction l as [|x l IH]; intros t s Hw; [done|]. by apply IH, waiting_wake. Qed.
Lemma wake_all_waiter t l s y : y ∉ l -> waiter_of (cond (wake_all t l s) c) y = waiter_of (cond s c) y.
Proof.
  revert t s. induction l as [|x l IH]; intros t s Hi; [done|]. simpl.
  rewrite IH by (intros ?; apply Hi; by right). rewrite waiter_of_wake, decide_False; [done|].
  intros ->. apply Hi. by left.
Qed.

Lemma broadcast_ends n l s : entered me s -> fds (worker s me) <> FdsFreed ->
  logical_time s me + Z.of_nat (length l) <= MAX_LOGICAL_CLOCK -> waiting l s -> (length l <= n)%nat ->
  finishes (S n) (det_cond_broadcast me c) s 0
    (at_end (wake_all (logical_time s me) l s) (Z.of_nat (length l))).
Proof.
  intros He Hf Hm Hw Hn. unfold det_cond_broadcast. set (b := wake_all (logical_time s me) l s).
  prun (apply finishes_act; by eapply (op_pause me (AObj 0) s)) as s1 E1.
  eapply finishes_bind with (a := tt) (s1 := at_pause b (Z.of_nat (length l))).
  { apply (finishes_mono (S (length l))); [lia|]. apply finishes_loop.
    unfold b. rewrite <- (Z.add_0_r (logical_time s me)). change (Z.of_nat (length l)) with (0 + Z.of_nat (length l)).
    apply broadcast_loop; try done. lia. }
  intros s2 E2. cbv beta. apply resume_ends; try done; unfold b.
  - by apply wake_all_entered.
  - rewrite wake_all_other; [done|]. apply Hw.
  - rewrite wake_all_other; [done|]. apply Hw.
Qed.

Lemma wake_time t x s : hw_clock_enabled (worker s x) = false -> logical_time (wake t x s) x = t.
Proof.
  intros Hoff. unfold logical_time, wake. repeat rt_frame. rewrite worker_upd_eq.
  rewrite stopped_time by done. simpl. lia.
Qed.

(** The [i]-th waiter is released at time [t + i]. *)
Lemma wake_all_lookup t l s i x : waiting l s -> l !! i = Some x ->
  logical_time (wake_all t l s) x = t + Z.of_nat i /\
  m_holder (waiter_of (cond (wake_all t l s) c) x) = None.
Proof.
  revert t s i. induction l as [|y l IH]; intros t s i Hw Hi; [done|].
  pose proof (w_nodup _ _ Hw) as Hnd. apply NoDup_cons in Hnd as [Hy _]. simpl.
  destruct i as [|i]; simpl in Hi.
  - injection Hi as ->. unfold logical_time. rewrite wake_all_other, wake_all_waiter by done.
    rewrite waiter_of_wake, decide_True by done. split; [|done].
    pose proof (wake_time t x s) as Ht. unfold logical_time in Ht. rewrite Ht; [lia|]. apply (w_off _ _ Hw). by left.
  - destruct (IH (t + 1) (wake t y s) i) as [Ht Hh]; [by apply waiting_wake|done|]. split; [rewrite Ht; lia|done].
Qed.

(** *** [det_cond_wait] *)

(** [p] gets from [s] to [p'] in a state equal to [s0]. *)
Definition reaches {A} (p : prog C A) s (p' : prog C A) (s0 : rt C) : Prop :=
  exists s', steps p s p' s' /\ s' ≈ s0.
Lemma reaches_refl {A} (p : prog C A) s s0 : s ≈ s0 -> reaches p s p s0.
Proof. intros. exists s. split; [apply steps_refl|done]. Qed.
Lemma reaches_bind {A B} n (p : prog C A) (k : A -> prog C B) s a s1 p' s0 :
  finishes n p s a s1 -> (forall s1', s1' ≈ s1 -> reaches (k a) s1' p' s0) -> reaches (Bind p k) s p' s0.
Proof.
  intros (s' & Er & Es) Hk. destruct (Hk s' Es) as (s2 & St & E2). exists s2. split; [|done].
  eapply steps_trans; [by eapply steps_bind, run_steps|]. eapply steps_step; [done|exact St].
Qed.

Record can_wait (a : addr) s : Prop := {
  cw_enabled : enabled me s;
  cw_fds : fds (worker s me) <> FdsFreed;
  cw_id : 0 < m_id (mutex s a);
  cw_ref : ref (mutex s a) <= 1;
  cw_queue : Queue.wf (c_queue (cond s c));
  cw_room : Queue.count (c_queue (cond s c)) <> Queue.capacity (c_queue (cond s c));
  cw_closed : m_holder (waiter_of (cond s c) me) <> None
}.

(** The state in which the caller waits. *)
Definition parked_state (a : addr) s : rt C :=
  back_at me a (synced (logical_time s me)
    (upd_cond c (set_c_queue (Queue.pushed (c_queue (cond s c)) me)) (at_pause s 0)))
    MAX_LOGICAL_CLOCK (released_at (logical_time s me)).

Lemma cond_AddQ_returns s s1 : s1 ≈ at_pause s 0 -> Queue.wf (c_queue (cond s c)) ->
  Queue.count (c_queue (cond s c)) <> Queue.capacity (c_queue (cond s c)) ->
  returns (cond_AddQ c me) s1 1
    (upd_cond c (set_c_queue (Queue.pushed (c_queue (cond s c)) me)) (at_pause s 0)).
Proof.
  intros E1 Hq Hr. unfold cond_AddQ. mget. sim_rw E1. change (cond (at_pause s 0) c) with (cond s c).
  rewrite Queue.AddQ_room by done. apply returns_modify_bind, returns_ret_sim. by rewrite E1.
Qed.

Lemma at_pause_mutex s k a : mutex (at_pause s k) a = mutex s a.
Proof. unfold paused_at. repeat rt_frame. rewrite mutex_upd. case_decide; by subst. Qed.
Lemma enabled_sim s s1 : s1 ≈ s -> enabled me s -> enabled me s1.
Proof.
  intros Es [He Hm Ht]. split; rewrite ?(sim_glob _ _ Es), ?(sim_tls _ _ Es); try done. by eapply entered_sim.
Qed.
Lemma parked_queue_enabled s : enabled me s ->
  enabled me (upd_cond c (set_c_queue (Queue.pushed (c_queue (cond s c)) me)) (at_pause s 0)).
Proof.
  intros [He Hm Ht]. split; [|done|done]. destruct (paused_at_paused me (AObj 0) s 0 (fun m => m) He). by split.
Qed.

Lemma wait_parks a s : can_wait a s ->
  exists k, reaches (det_cond_wait E me c a) s (Bind (Act (waiter_lock me c me)) k) (parked_state a s).
Proof.
  intros [Hen Hf Hid Hr Hq Hroom Hc]. pose proof (is_entered _ _ Hen) as He. unfold det_cond_wait. eexists.
  eapply (reaches_bind 0); [apply finishes_act; by eapply (op_pause me (AObj 0) s)|]. intros s1 E1. cbv beta.
  eapply (reaches_bind 0 _ _ _ (c_id (cond (at_pause s 0) c)) (at_pause s 0)).
  { apply finishes_act. exists s1. split; [|done]. unfold gets. by rewrite (sim_cond _ _ E1). }
  intros s2 E2. cbv beta. eapply (reaches_bind 0); [run_dbg|]. intros s3 E3. cbv beta.
  eapply (reaches_bind 0); [apply finishes_act; by eapply cond_AddQ_returns|]. intros s4 E4. cbv beta.
  eapply (reaches_bind 0).
  { pose proof (parked_queue_enabled s Hen) as Hen4. apply det_unlock_last.
    - by eapply enabled_sim.
    - rewrite (sim_worker _ _ E4). repeat rt_frame. rewrite paused_at_self. by apply stop_clock_fds.
    - rewrite (sim_mutex _ _ E4). repeat rt_frame. by rewrite at_pause_mutex.
    - rewrite (sim_mutex _ _ E4). repeat rt_frame. by rewrite at_pause_mutex. }
  intros s5 E5. cbv beta. apply reaches_refl. rewrite E5.
  rewrite (logical_time_sim _ _ _ E4). unfold parked_state.
  change (logical_time (upd_cond ?c ?f ?s) me) with (logical_time s me).
  rewrite paused_at_time, Z.add_0_r. apply back_at_proper. unfold synced. by rewrite E4.
Qed.
End Conds.

(** C10. [det_cond_signal] with threads waiting. It returns; the thread that waited longest is
    taken off the queue, the others keep their order; its semaphore is opened, and its clock
    is set to the signaler's time, so that it becomes runnable at a deterministic moment,
    before the signaler's own next operation; the signaler's clock advances by one; no other
    waiter and no other thread is touched. *)
Theorem signal_wakes_longest_waiter {C} `{PerfCounter C} `{!PerfCounterLaws C} me c n (s : rt C) x l :
  entered me s -> fds (worker s me) <> FdsFreed -> logical_time s me < MAX_LOGICAL_CLOCK ->
  waiting me c (x :: l) s ->
  exists s', run n (det_cond_signal me c) s = Done 0 s' /\
    waiting me c l s' /\
    m_holder (waiter_of (cond s' c) x) = None /\ logical_time s' x = logical_time s me /\
    logical_time s' me = logical_time s me + 1 /\
    (forall y, y <> x -> waiter_of (cond s' c) y = waiter_of (cond s c) y) /\
    (forall y, y <> x -> y <> me -> worker s' y = worker s y).
Proof.
  intros He Hf Hm Hw. assert (x <> me) as Hne. { intros ->. apply (w_me _ _ _ _ Hw). by left. }
  destruct (signal_outside me c n s x l He Hf Hm Hw) as (s' & Er & Es). exists s'. split; [done|].
  pose proof (waiting_wake me c (logical_time s me) x l s Hw) as [V1 V2 V3 V4 V5 V6].
  assert (forall y, y <> me -> worker s' y = worker (wake c (logical_time s me) x s) y) as Hwk.
  { intros y Hy. by rewrite (sim_worker _ _ Es), back_at_other. }
  assert (cond s' c = cond (wake c (logical_time s me) x s) c) as Ec by apply (sim_cond _ _ Es).
  split_and!.
  - split; rewrite ?Ec; try done. intros y Hy. rewrite Hwk by congruence. auto.
  - by rewrite Ec, waiter_of_wake, decide_True.
  - unfold logical_time at 1. rewrite Hwk by done. apply wake_time. apply (w_off _ _ _ _ Hw). by left.
  - rewrite (logical_time_sim _ _ _ Es), back_at_time by (by apply wake_entered).
    unfold logical_time. by rewrite wake_other.
  - intros y Hy. by rewrite Ec, waiter_of_wake, decide_False.
  - intros y Hy Hy'. by rewrite Hwk, wake_other.
Qed.

(** C11. [det_cond_broadcast] terminates and wakes everybody, in the order in which they
    waited: with [t] the caller's time, the [i]-th waiter's semaphore is opened and its clock
    set to [t + i], the queue is empty afterwards, and the caller's clock has advanced by the
    number of waiters. One turn of the loop per waiter is enough. *)
Theorem broadcast_wakes_all {C} `{PerfCounter C} `{!PerfCounterLaws C} me c n (s : rt C) l :
  entered me s -> fds (worker s me) <> FdsFreed ->
  logical_time s me + Z.of_nat (length l) <= MAX_LOGICAL_CLOCK ->
  waiting me c l s -> (length l <= n)%nat ->
  exists s', run (S n) (det_cond_broadcast me c) s = Done 0 s' /\
    Queue.contents NO_WAITER (c_queue (cond s' c)) = [] /\
    logical_time s' me = logical_time s me + Z.of_nat (length l) /\
    forall i x, l !! i = Some x ->
      m_holder (waiter_of (cond s' c) x) = None /\ logical_time s' x = logical_time s me + Z.of_nat i.
Proof.
  intros He Hf Hm Hw Hn. set (b := wake_all c (logical_time s me) l s).
  destruct (broadcast_ends me c n l s He Hf Hm Hw Hn) as (s' & Er & Es). fold b in Es.
  assert (cond s' c = cond b c) as Ec by apply (sim_cond _ _ Es).
  exists s'. split; [done|]. split_and!.
  - rewrite Ec. by apply (wake_all_waiting me c (logical_time s me) l s Hw).
  - rewrite (logical_time_sim _ _ _ Es), back_at_time by (by apply wake_all_entered).
    unfold logical_time, b. rewrite wake_all_other; [done|]. apply Hw.
  - intros i x Hx. assert (x <> me) as Hne.
    { intros ->. apply (w_me _ _ _ _ Hw). by eapply list_elem_of_lookup_2. }
    destruct (wake_all_lookup me c (logical_time s me) l s i x Hw Hx) as [Ht Hh].
    rewrite Ec. split; [done|]. unfold logical_time at 1. rewrite (sim_worker _ _ Es), back_at_other by done. exact Ht.
Qed.

(** C9. [det_cond_wait] parks its caller. From a thread that holds the mutex once, running
    alone, it reaches a point where it is blocked: there the caller is last in the queue of
    the condition variable, the mutex is open and was released at the caller's time, and the
    caller's clock is [MAX_LOGICAL_CLOCK] later, so that it comes after every thread that was
    less than that ahead and nobody waits for it; and as soon as its semaphore is opened,
    whatever else has changed, the caller can go on. *)
Theorem cond_wait_parks {C} `{PerfCounter C} `{!PerfCounterLaws C} E me c a (s : rt C) :
  can_wait me c a s ->
  exists p' s', steps (det_cond_wait E me c a) s p' s' /\ step p' s' = Stuck /\
    Queue.contents NO_WAITER (c_queue (cond s' c)) = Queue.contents NO_WAITER (c_queue (cond s c)) ++ [me] /\
    m_holder (mutex s' a) = None /\ released_logical_time (mutex s' a) = logical_time s me /\
    logical_time s' me = logical_time s me + MAX_LOGICAL_CLOCK /\
    hw_clock_enabled (worker s' me) = false /\
    (forall j, j <> me -> logical_time s j < logical_time s me + MAX_LOGICAL_CLOCK -> precedes s' j me) /\
    (forall s2, m_holder (waiter_of (cond s2 c) me) = None -> exists p3 s3, step p' s2 = Next p3 s3).
Proof.
  intros Hcw. destruct (wait_parks E me c a s Hcw) as (k & s' & St & Es).
  destruct Hcw as [Hen Hf Hid Hr Hq Hroom Hc]. pose proof (is_entered _ _ Hen) as He.
  pose proof (is_entered _ _ (parked_queue_enabled me c s Hen)) as He2.
  assert (logical_time s' me = logical_time s me + MAX_LOGICAL_CLOCK) as Ht.
  { rewrite (logical_time_sim _ _ _ Es). unfold parked_state. rewrite back_at_time by (by apply synced_entered).
    change (logical_time (synced ?t (upd_cond ?c ?f ?s)) me) with (logical_time s me).
    by rewrite paused_at_time, Z.add_0_r. }
  eexists _, s'. split; [exact St|].
  assert (cond s' c = set_c_queue (Queue.pushed (c_queue (cond s c)) me) (cond s c)) as Ec.
  { rewrite (sim_cond _ _ Es). unfold parked_state, back_at, synced. repeat rt_frame. by rewrite cond_upd_eq. }
  split_and!; try done.
  - simpl. unfold waiter_lock, mbind, gets. rewrite Ec.
    destruct (m_holder (waiter_of (cond s c) me)) eqn:Eh; [|done]. unfold waiter_of in *. simpl. by rewrite Eh.
  - rewrite Ec. simpl. destruct (Queue.AddQ_spec NO_WAITER (c_queue (cond s c)) me Hq) as (r & q' & Ea & _ & _ & Eq).
    rewrite Queue.AddQ_room in Ea by done. injection Ea as <- <-. unfold Queue.spec_add in Eq.
    rewrite Queue.length_contents, decide_False in Eq by done. by injection Eq.
  - rewrite (sim_mutex _ _ Es). unfold parked_state. by rewrite back_at_lock.
  - rewrite (sim_mutex _ _ Es). unfold parked_state. by rewrite back_at_lock.
  - rewrite (sim_worker _ _ Es). unfold parked_state. rewrite back_at_self.
    repeat rt_frame. unfold synced. repeat rt_frame. rewrite paused_at_self.
    destruct He2 as [Hr2 Hw2]. rewrite resumed_running; [apply stop_clock_stopped, He, He|].
    apply tick_wf, stop_clock_wf, He, He.
  - intros j Hj Hlt. left. rewrite Ht. unfold logical_time at 1. rewrite (sim_worker _ _ Es).
    unfold parked_state. rewrite back_at_other by done. unfold synced. repeat rt_frame.
    by rewrite paused_at_other.
  - intros s2 H2. simpl. unfold waiter_lock, mbind, gets. rewrite H2. simpl. eauto.
Qed.

(** *** Witnesses *)
Import SimpleCounter Samples.

(** Thread 1 at time 10 holds mutex 1; threads 0 and 2 wait on condition variable 1. *)
Definition waiters : rt counter :=
  upd_cond (AObj 1) (fun _ => mkCond 1 (Queue.pushed (Queue.pushed a_queue 2) 0) (init_waiters 0))
    (upd_mutex (AObj 1) (fun m => set_ref 1 (set_owner 1 (set_m_holder (Some 1) m)))
       (three (stopped 0 3 (MAX_LOGICAL_CLOCK + 4)) (running 1 10) (stopped 2 5 (MAX_LOGICAL_CLOCK + 6)))).

Lemma waiters_waiting : waiting 1 (AObj 1) [2; 0] waiters.
Proof.
  split.
  - split; by vm_compute.
  - by vm_compute.
  - by apply (bool_decide_unpack _).
  - by apply (bool_decide_unpack _).
  - intros x Hx. repeat (apply elem_of_cons in Hx as [->|Hx]; [by vm_compute|]). by apply elem_of_nil in Hx.
  - intros x Hx. repeat (apply elem_of_cons in Hx as [->|Hx]; [done|]). by apply elem_of_nil in Hx.
Qed.
Lemma waiters_enabled : enabled 1 waiters.
Proof. split; [split|done|done]; [done|]. by apply (three_entries (fun _ => clock_wf)). Qed.

Lemma signal_wakes_longest_waiter_witness :
  exists s', run 0 (det_cond_signal 1 (AObj 1)) waiters = Done 0 s' /\
    waiting 1 (AObj 1) [0] s' /\ logical_time s' 2 = 10 /\ logical_time s' 1 = 11.
Proof.
  destruct (signal_wakes_longest_waiter 1 (AObj 1) 0 waiters 2 [0] (is_entered _ _ waiters_enabled)
    ltac:(done) ltac:(done) waiters_waiting) as (s' & ? & ? & _ & ? & ? & _). by exists s'.
Defined.

Lemma broadcast_wakes_all_witness :
  exists s', run 3 (det_cond_broadcast 1 (AObj 1)) waiters = Done 0 s' /\
    logical_time s' 2 = 10 /\ logical_time s' 0 = 11 /\ logical_time s' 1 = 12.
Proof.
  destruct (broadcast_wakes_all 1 (AObj 1) 2 waiters [2; 0] (is_entered _ _ waiters_enabled)
    ltac:(done) ltac:(done) waiters_waiting ltac:(simpl; lia)) as (s' & Hs & _ & Ht & Hl).
  exists s'. split; [exact Hs|]. split; [exact (proj2 (Hl 0%nat 2 eq_refl))|].
  split; [exact (proj2 (Hl 1%nat 0 eq_refl))|exact Ht].
Defined.

Lemma cond_wait_parks_witness :
  exists p' s', steps (det_cond_wait environment 1 (AObj 1) (AObj 1)) waiters p' s' /\ step p' s' = Stuck /\
    Queue.contents NO_WAITER (c_queue (cond s' (AObj 1))) = [2; 0; 1] /\ m_holder (mutex s' (AObj 1)) = None.
Proof.
  destruct (cond_wait_parks environment 1 (AObj 1) (AObj 1) waiters) as (p' & s' & ? & ? & ? & ? & _).
  - split; [apply waiters_enabled|done|done|done|apply waiters_waiting|by vm_compute|by vm_compute].
  - by exists p', s'.
Defined.
