(* ===== verification/Barriers.v ===== *)
(** Barriers: the thread that arrives last opens the barrier for everybody. *)
From stdpp Require Import base list gmap strings.
From Stdlib Require Import ZArith Lia.
From S2P Require Import Prelude Queue Runtime Clock Sync Threads Samples Turn Mutexes Pause Conds.
Open Scope m_scope.
Open Scope prog_scope.

(** [p], run to its end by one thread, ends in [Q]. *)
Definition ends {C A} (n : nat) (p : prog C A) (s : rt C) (Q : A -> rt C -> Prop) : Prop :=
  exists a s', run n p s = Done a s' /\ Q a s'.
Lemma ends_bind {C A B} n (p : prog C A) (k : A -> prog C B) s Q Q' :
  ends n p s Q -> (forall a s1, Q a s1 -> ends n (k a) s1 Q') -> ends n (Bind p k) s Q'.
Proof. intros (a & s1 & Er & Hq) Hk. unfold ends. cbn [run]. rewrite Er. cbn [obind]. by apply Hk. Qed.
Lemma ends_finishes {C A} n (p : prog C A) s a (s0 : rt C) :
  finishes n p s a s0 -> ends n p s (fun b s' => b = a /\ s' ≈ s0).
Proof. intros (s' & Er & Es). by exists a, s'. Qed.
Lemma ends_gets {C A B} n (f : rt C -> A) (k : A -> prog C B) s Q :
  ends n (k (f s)) s Q -> ends n (Bind (Act (gets f)) k) s Q.
Proof. done. Qed.
Lemma ends_modify {C B} n f (k : unit -> prog C B) (s : rt C) Q :
  ends n (k tt) (f s) Q -> ends n (Bind (Act (modify f)) k) s Q.
Proof. done. Qed.

Section Barriers.
Context {C : Type} `{HC : PerfCounter C} `{!PerfCounterLaws C}.
Variables (E : env) (me b : Z).
Implicit Types s : rt C.
Abbreviation lk := (ABarrier b).
Abbreviation at_pause s k := (paused_at me (AObj 0) s k (fun m => m)).

Lemma represents_pause s v : represents me lk s v -> represents me lk (at_pause s 0) v.
Proof.
  intros [[He Hm Ht] ? ? ? ? ? ? ? ? ? ?].
  destruct (paused_at_paused me (AObj 0) s 0 (fun m => m) He) as [Hr _ Hw].
  split; rewrite ?at_pause_mutex, ?paused_at_time, ?Z.add_0_r; try done.
  rewrite paused_at_self. by apply stop_clock_fds.
Qed.

Lemma represents_barrier s v f : represents me lk s v -> represents me lk (upd_barrier b f s) v.
Proof. intros [[[Hr Hw] Hm Ht] ? ? ? ? ? ? ? ? ? ?]. split; try done. Qed.

(** Waking threads touches neither the mutex nor the caller. *)
Lemma wake_all_mutex c t l s m : mutex (wake_all c t l s) m = mutex s m.
Proof. revert t s. induction l as [|x l IH]; intros t s; [done|]. simpl. by rewrite IH. Qed.
Lemma wake_all_barrier c t l s i : barrier (wake_all c t l s) i = barrier s i.
Proof. revert t s. induction l as [|x l IH]; intros t s; [done|]. simpl. by rewrite IH. Qed.
Lemma wake_all_enabled c t l s : me ∉ l -> enabled me s -> enabled me (wake_all c t l s).
Proof.
  intros Hl [He Hm Ht]. split; [by apply wake_all_entered|..].
  - clear -Hm. revert t s Hm. induction l as [|x l IH]; intros t s Hm; [done|]. by apply IH.
  - clear -Ht. revert t s Ht. induction l as [|x l IH]; intros t s Ht; [done|]. by apply IH.
Qed.
Lemma represents_broadcast a c l s v s' k : me ∉ l -> represents me a s v ->
  s' ≈ back_at me (AObj 0) (wake_all c (v_time v) l s) k (fun m => m) ->
  represents me a s' (mkView (v_time v + k) (v_depth v) (v_released v)) /\
  hw_clock_enabled (worker s' me) = hw_clock_enabled (worker s me) /\
  fds_null (fds (worker s' me)) = fds_null (fds (worker s me)).
Proof.
  intros Hl [Hen Hf ? Hti ? ? ? ? ? ? ?] Es. set (s1 := wake_all c (v_time v) l s) in *.
  assert (enabled me s1) as Hen1 by (by apply wake_all_enabled). pose proof (is_entered _ _ Hen1) as He1.
  assert (worker s1 me = worker s me) as Ew by (by apply wake_all_other).
  assert (mutex s' a = mutex s a) as Em.
  { rewrite (sim_mutex _ _ Es). unfold back_at. rewrite mutex_upd. repeat rt_frame.
    unfold s1. case_decide; by rewrite wake_all_mutex; subst. }
  split; [split; rewrite ?Em; try done|split].
  - destruct Hen1 as [_ Hm Ht]. split; [eapply entered_sim; [exact Es|by apply back_at_entered]|..].
    + by rewrite (sim_glob _ _ Es).
    + by rewrite (sim_tls _ _ Es).
  - rewrite (sim_worker _ _ Es), back_at_self, Ew. by apply resumed_fds.
  - rewrite (logical_time_sim _ _ _ Es), back_at_time by done. unfold logical_time. rewrite Ew.
    simpl. rewrite <- Hti. done.
  - rewrite (sim_worker _ _ Es), back_at_self, Ew. apply resumed_running. rewrite <- Ew. apply He1, He1.
  - rewrite (sim_worker _ _ Es), back_at_self, Ew. apply resumed_null.
Qed.

(** Between two states with the same waiters. *)
Lemma waiting_frame c l s s' : waiting me c l s -> cond s' c = cond s c ->
  (forall i, i <> me -> worker s' i = worker s i) -> waiting me c l s'.
Proof.
  intros [? ? ? Hme ? Hoff] Ec Ew. split; rewrite ?Ec; try done.
  intros x Hx. rewrite Ew by congruence. auto.
Qed.

Lemma represents_start s v : represents me lk s v -> represents me lk (upd_worker me start_clock s) v.
Proof.
  intros [[[Hr Hw] Hm Ht] Hf ? Hti ? ? ? ? ? ? ?]. split; try done.
  - split; [|done|done]. split; [done|]. intros i Hi. rewrite worker_upd. case_decide; [subst|by apply Hw].
    by apply start_clock_wf, Hw.
  - rewrite worker_upd_eq. unfold start_clock. destruct (fds (worker s me)) eqn:Ef; rewrite ?Ef; try done.
    by destruct (hw_clock_enabled (worker s me)); simpl; rewrite ?Ef.
  - unfold logical_time in *. rewrite worker_upd_eq, start_clock_time by auto. done.
Qed.

(** The end of [det_barrier_wait]. *)
Lemma leave n v s lret bid : represents me lk s v -> hw_clock_enabled (worker s me) = false ->
  ends n (Act (DBG me 1 "barrier(%d) leave" [bid]) ;~
          Act (resume_logical_clock me lret) ;~
          Act (modify (upd_statv me (fun t => set_barrier_count (barrier_count t + 1) t))) ;~
          Ret 0) s (fun r s' => r = 0 /\ represents me lk s' v /\
    ((forall i, i <> me -> worker s' i = worker s i) /\ (forall c, cond s' c = cond s c) /\
     (forall i, barrier s' i = barrier s i)) /\
    hw_clock_enabled (worker s' me) = (lret =? 0) && negb (fds_null (fds (worker s me)))).
Proof.
  intros Hrep Hoff. pose proof (is_entered _ _ (rep_enabled _ _ _ _ Hrep)) as He.
  set (s0 := if lret =? 0 then upd_worker me start_clock s else s).
  assert (finishes n (Act (DBG me 1 "barrier(%d) leave" [bid]) ;~ Act (resume_logical_clock me lret) ;~
    Act (modify (upd_statv me (fun t => set_barrier_count (barrier_count t + 1) t))) ;~ Ret 0) s 0 s0) as (s' & Er & Es).
  { prun (by apply finishes_act, DBG_returns) as s1 E1.
    prun (apply finishes_act, resume_returns; rewrite (sim_worker _ _ E1); apply Hrep) as s2 E2.
    pmod. apply finishes_ret_sim. rewrite upd_statv_sim, E2. unfold s0. destruct (lret =? 0); by rewrite E1. }
  exists 0, s'. split; [done|]. split; [done|]. split; [|split].
  - eapply represents_sim; [exact Es|]. unfold s0. destruct (lret =? 0); [by apply represents_start|done].
  - unfold s0 in Es. split_and!; intros; rewrite ?(sim_worker _ _ Es), ?(sim_cond _ _ Es), ?(sim_barrier _ _ Es);
      destruct (lret =? 0); try done. by rewrite worker_upd_ne.
  - rewrite (sim_worker _ _ Es). unfold s0. destruct (lret =? 0); simpl; [|done]. rewrite worker_upd_eq.
    pose proof (rep_fds _ _ _ _ Hrep) as Hf. unfold start_clock.
    destruct (fds (worker s me)) eqn:Ef; simpl; rewrite ?Hoff; done.
Qed.

Section Last.
Variables (s : rt C) (t rel : Z) (l : list Z) (n : nat).
Let T : Z := Z.max t (rel + 1).
Let len : Z := Z.of_nat (length l).
Hypothesis Hrep : represents me lk s (mkView t 0 rel).
Hypothesis Hwait : waiting me lk l s.
Hypothesis Hlast : wait_count (barrier s b) + 1 = target_count (barrier s b).
Hypothesis Hahead : ahead me s (T + 1).
Hypothesis Hmax : T + 1 + len <= MAX_LOGICAL_CLOCK.
Hypothesis Hn1 : T + 1 - t <= Z.of_nat n.
Hypothesis Hn2 : (length l <= n)%nat.

(** After the broadcast the mutex is still held, and everybody is awake. *)
Definition opened_barrier s' : Prop :=
  represents me lk s' (mkView (T + 1 + len) 1 rel) /\
  hw_clock_enabled (worker s' me) = false /\
  fds_null (fds (worker s' me)) = fds_null (fds (worker s me)) /\
  wait_count (barrier s' b) = 0 /\
  Queue.contents NO_WAITER (c_queue (cond s' lk)) = [] /\
  forall i x, l !! i = Some x ->
    m_holder (waiter_of (cond s' lk) x) = None /\ logical_time s' x = T + 1 + Z.of_nat i.

Lemma arrive s1 : s1 ≈ at_pause s 0 ->
  ends (S n) (det_lock E me lk) s1 (fun _ s4 =>
    represents me lk s4 (mkView (T + 1) 1 rel) /\ same_others me s1 s4).
Proof.
  intros E1. assert (represents me lk s1 (mkView t 0 rel)) as R1.
  { eapply represents_sim; [exact E1|]. by apply represents_pause. }
  destruct (lock_first E me lk n (mkView t 0 rel) s1 R1 eq_refl) as (s4 & Er & R4 & O4); simpl; try lia.
  { intros i Hi Hne. unfold logical_time. rewrite (sim_worker _ _ E1), paused_at_other by done.
    apply Hahead; [|done]. by rewrite (sim_glob _ _ E1) in Hi. }
  by exists 0, s4.
Qed.

Lemma open_barrier s4 s1 : s1 ≈ at_pause s 0 -> represents me lk s4 (mkView (T + 1) 1 rel) ->
  same_others me s1 s4 ->
  ends (S n) (det_cond_broadcast me lk)
    (upd_barrier b (set_wait_count 0) (upd_barrier b (fun x => set_wait_count (wait_count x + 1) x) s4))
    (fun _ => opened_barrier).
Proof.
  intros E1 R4 O4. set (s5 := upd_barrier b (set_wait_count 0) _).
  assert (represents me lk s5 (mkView (T + 1) 1 rel)) as R5 by (by apply represents_barrier, represents_barrier).
  assert (waiting me lk l s5) as W5.
  { eapply waiting_frame; [exact Hwait|..].
    - unfold s5. repeat rt_frame. by rewrite (so_cond _ _ _ O4), (sim_cond _ _ E1).
    - intros i Hi. unfold s5. repeat rt_frame. by rewrite (so_worker _ _ _ O4), (sim_worker _ _ E1), paused_at_other. }
  pose proof R5 as [Hen5 Hf5 _ Ht5 _ _ _ _ _ _ _]. simpl in Ht5. pose proof (is_entered _ _ Hen5) as He5.
  destruct (broadcast_ends me lk n l s5 He5 Hf5) as (s' & Er & Es); [rewrite Ht5; unfold len in Hmax; lia|done|done|].
  exists 0, s'. split; [done|]. rewrite Ht5 in Es.
  destruct (represents_broadcast lk lk l s5 _ s' len (w_me _ _ _ _ W5) R5 Es) as (R6 & H6 & H7).
  assert (cond s' lk = cond (wake_all lk (T + 1) l s5) lk) as Ec by apply (sim_cond _ _ Es).
  split; [exact R6|]. split; [|split; [|split; [|split]]].
  - rewrite H6. unfold s5. repeat rt_frame. rewrite (so_running _ _ _ O4), (sim_worker _ _ E1), paused_at_self.
    apply stop_clock_stopped. destruct Hrep as [[[Hr Hw] _ _] _ _ _ _ _ _ _ _ _ _]. auto.
  - rewrite H7. unfold s5. repeat rt_frame. rewrite (so_counter _ _ _ O4), (sim_worker _ _ E1), paused_at_self.
    unfold stop_clock, tick. by destruct (worker s me) as [? ? ? ? [| |] ? ? [|] ? ? ? ? ?].
  - rewrite (sim_barrier _ _ Es). unfold back_at. repeat rt_frame.
    rewrite wake_all_barrier. unfold s5. by rewrite barrier_upd_eq.
  - rewrite Ec. by apply (wake_all_waiting me lk (T + 1) l s5 W5).
  - intros i x Hx. assert (x <> me) as Hne.
    { intros ->. apply (w_me _ _ _ _ Hwait). by eapply list_elem_of_lookup_2. }
    destruct (wake_all_lookup me lk (T + 1) l s5 i x W5 Hx) as [Hwt Hh]. rewrite Ec. split; [done|].
    unfold logical_time. rewrite (sim_worker _ _ Es), back_at_other by done. exact Hwt.
Qed.
End Last.
End Barriers.

(** C12. The last thread at a barrier. When the caller's arrival completes the count, with the
    threads of [l] waiting, [det_barrier_wait] returns: the count is back to 0 for the next
    round, every waiter's semaphore is opened, in order of arrival, at consecutive logical
    times after the caller got the barrier's mutex, nobody is left in the queue, the mutex is
    open again with its release time after all of them, the caller ends later than every
    thread it woke, and its clock runs again if it ran before. *)
Theorem barrier_opens {C} `{PerfCounter C} `{!PerfCounterLaws C} E me b n (s : rt C) t rel l :
  let T := Z.max t (rel + 1) in let len := Z.of_nat (length l) in
  represents me (ABarrier b) s (mkView t 0 rel) -> waiting me (ABarrier b) l s ->
  wait_count (barrier s b) + 1 = target_count (barrier s b) ->
  ahead me s (T + 1) -> T + 1 + len <= MAX_LOGICAL_CLOCK ->
  T + 1 - t <= Z.of_nat n -> (length l <= n)%nat ->
  exists s', run (S n) (det_barrier_wait E me b) s = Done 0 s' /\
    represents me (ABarrier b) s' (mkView (T + 2 + len) 0 (T + 1 + len)) /\
    wait_count (barrier s' b) = 0 /\
    Queue.contents NO_WAITER (c_queue (cond s' (ABarrier b))) = [] /\
    hw_clock_enabled (worker s' me) = hw_clock_enabled (worker s me) /\
    forall i x, l !! i = Some x ->
      m_holder (waiter_of (cond s' (ABarrier b)) x) = None /\ logical_time s' x = T + 1 + Z.of_nat i.
Proof.
  intros T len Hrep Hwait Hlast Ha Hmax Hn1 Hn2.
  pose proof Hrep as [Hen Hf _ _ _ _ _ _ _ _ _]. pose proof (is_entered _ _ Hen) as He.
  assert (ends (S n) (det_barrier_wait E me b) s (fun r s' => r = 0 /\
    represents me (ABarrier b) s' (mkView (T + 2 + len) 0 (T + 1 + len)) /\
    wait_count (barrier s' b) = 0 /\
    Queue.contents NO_WAITER (c_queue (cond s' (ABarrier b))) = [] /\
    hw_clock_enabled (worker s' me) = hw_clock_enabled (worker s me) /\
    forall i x, l !! i = Some x ->
      m_holder (waiter_of (cond s' (ABarrier b)) x) = None /\ logical_time s' x = T + 1 + Z.of_nat i))
    as (r & s' & Er & -> & Hpost); [|by exists s'].
  unfold det_barrier_wait.
  eapply ends_bind; [apply ends_finishes, finishes_act, (op_pause me (AObj 0) s s He); reflexivity|].
  cbv beta. intros lret s1 [-> E1]. apply ends_gets.
  eapply ends_bind; [apply ends_finishes; run_dbg|]. cbv beta. intros _ s2 [_ E2].
  eapply ends_bind; [by apply (arrive E me b s t rel l n)|]. cbv beta. intros _ s3 [R3 O3].
  apply ends_gets. eapply ends_bind.
  { apply ends_finishes, finishes_act. pose proof (in_range _ _ (is_entered _ _ (rep_enabled _ _ _ _ R3))).
    destruct (Z.ltb_spec 0 (max_thr (glob s3))); [apply returns_ret|lia]. }
  cbv beta. intros _ s4 [_ E4]. apply ends_modify, ends_gets.
  assert (represents me (ABarrier b) s4 (mkView (T + 1) 1 rel)) as R4 by (by eapply represents_sim).
  assert (same_others me s2 s4) as O4 by (by eapply same_others_sim).
  assert (barrier s4 b = barrier s b) as Eb by (rewrite (so_barrier _ _ _ O4), (sim_barrier _ _ E2); done).
  rewrite barrier_upd_eq, Eb. cbn [wait_count target_count set_wait_count]. rewrite Hlast, Z.eqb_refl.
  eapply ends_bind; [apply ends_modify; by apply (open_barrier me b s t rel l n Hrep Hwait Hmax Hn2 s4 s2)|].
  cbv beta. intros _ s5 (R5 & Hoff5 & Hn5 & Hc5 & Hq5 & Hw5).
  destruct (unlock_last me (ABarrier b) (S n) _ s5 R5 eq_refl) as (s6 & Er6 & R6 & O6). cbn [v_time] in R6.
  eapply (ends_bind _ _ _ _ (fun _ s' => s' = s6)); [by exists 0, s6|]. cbv beta. intros _ ? ->.
  destruct (leave me b (S n) _ s6 (pause_ret (worker s me)) (b_id (barrier s1 b)) R6) as (r & s7 & Er & -> & R7 & O7 & Hh7).
  { by rewrite (so_running _ _ _ O6). }
  exists 0, s7. split; [exact Er|]. split; [done|].
  split; [replace (T + 2 + len) with (T + 1 + len + 1) by lia; exact R7|].
  destruct O7 as (Ow7 & Oc7 & Ob7). rewrite Ob7, Oc7, (so_barrier _ _ _ O6), (so_cond _ _ _ O6).
  split; [done|]. split; [done|]. split.
  - rewrite Hh7, (so_counter _ _ _ O6), Hn5. unfold pause_ret.
    pose proof (in_wf _ _ He me (in_range _ _ He)) as Hwf. unfold clock_wf in Hwf.
    destruct (hw_clock_enabled (worker s me)); [|done]. by destruct (fds (worker s me)).
  - intros i x Hx. assert (x <> me) as Hne.
    { intros ->. apply (w_me _ _ _ _ Hwait). by eapply list_elem_of_lookup_2. }
    unfold logical_time. rewrite Ow7, (so_worker _ _ _ O6) by done. apply Hw5, Hx.
Qed.

Import SimpleCounter Samples.
(** Threads 2 and 0 wait at a barrier for three; thread 1 arrives at time 10. *)
Definition arriving : rt counter :=
  upd_barrier 1 (fun _ => mkBarrier 1 3 2)
    (upd_cond (ABarrier 1) (fun _ => mkCond 1 (Queue.pushed (Queue.pushed a_queue 2) 0) (init_waiters 0))
       (upd_mutex (ABarrier 1) (fun _ => set_released_logical_time 6 (a_mutex 1))
          (three (stopped 0 3 (MAX_LOGICAL_CLOCK + 4)) (running 1 10) (stopped 2 5 (MAX_LOGICAL_CLOCK + 6))))).

Lemma arriving_represents : represents 1 (ABarrier 1) arriving (mkView 10 0 6).
Proof.
  split; [|done|done|done|done|by split; vm_compute|done|done|done|done|simpl; lia].
  split; [split|done|done]; [done|]. by apply (three_entries (fun _ => clock_wf)).
Qed.
Lemma arriving_waiting : waiting 1 (ABarrier 1) [2; 0] arriving.
Proof.
  split; [by split; vm_compute|by vm_compute|by apply (bool_decide_unpack _)|by apply (bool_decide_unpack _)| |];
    intros x Hx; repeat (apply elem_of_cons in Hx as [->|Hx]; [by vm_compute|]); by apply elem_of_nil in Hx.
Qed.
Lemma arriving_ahead : ahead 1 arriving 11.
Proof. intros i Hi Hne. assert (i = 0 \/ i = 2) as [->| ->] by (simpl in Hi; lia); by left. Qed.

Lemma barrier_opens_witness :
  exists s', run 3 (det_barrier_wait environment 1 1) arriving = Done 0 s' /\
    represents 1 (ABarrier 1) s' (mkView 14 0 13) /\ wait_count (barrier s' 1) = 0 /\
    logical_time s' 2 = 11 /\ logical_time s' 0 = 12.
Proof.
  destruct (barrier_opens environment 1 1 2 arriving 10 6 [2; 0] arriving_represents arriving_waiting
    eq_refl arriving_ahead ltac:(vm_compute; discriminate) ltac:(vm_compute; discriminate) ltac:(simpl; lia))
    as (s' & Hs & Hr & Hc & _ & _ & Hl).
  exists s'. split; [exact Hs|]. split; [exact Hr|]. split; [exact Hc|].
  split; [exact (proj2 (Hl 0%nat 2 eq_refl))|exact (proj2 (Hl 1%nat 0 eq_refl))].
Defined.
