(* ===== verification/Processes.v ===== *)
(** Threads: numbering and creation, and two executions in which the runtime does not keep
    what it means to keep. *)
From stdpp Require Import base list gmap strings.
From Stdlib Require Import ZArith Lia.
From S2P Require Import Prelude Queue Runtime Clock Sync Threads Samples Turn Mutexes Pause.
Open Scope m_scope.
Open Scope prog_scope.

Section Processes.
Context {C : Type} `{HC : PerfCounter C} `{!PerfCounterLaws C}.
Implicit Types s : rt C.

(** ** The search for a thread *)

Lemma find_tid_from_spec s tid i k : let j := find_tid_from s tid i k in
  i <= j <= i + Z.of_nat k /\
  (forall x, i <= x < j -> w_tid (worker s x) <> tid) /\
  (j < i + Z.of_nat k -> w_tid (worker s j) = tid).
Proof.
  revert i. induction k as [|k IH]; intros i; cbn [find_tid_from]; [split_and!; intros; lia|].
  destruct (Z.eqb_spec (w_tid (worker s i)) tid) as [Ei|Ei]; [split_and!; intros; lia|].
  destruct (IH (i + 1)) as (Hb & Hn & Hf). split; [lia|]. split; [|intros; apply Hf; lia].
  intros x Hx. destruct (decide (x = i)) as [->|]; [done|]. apply Hn. lia.
Qed.

(** ** Creation *)

Lemma create_entry_returns n me f x s : paused s me -> has_turn s me -> max_thr (glob s) < MAX_THR ->
  clock_wf (worker s (max_thr (glob s))) -> hw_clock_enabled (worker s (max_thr (glob s))) = false ->
  exists s', run n (create_entry me f x) s = Done (max_thr (glob s)) s' /\
    glob s' = set_num_thr (num_thr (glob s) + 1) (set_max_thr (max_thr (glob s) + 1) (glob s)) /\
    (forall i, i <> max_thr (glob s) -> worker s' i = worker s i) /\
    worker s' (max_thr (glob s)) =
      set_started false (set_finished false (set_last_exit_logical_time 0 (set_hw_clock 0
        (set_sw_clock (logical_time s me + 1)
          (set_arg x (set_func f (set_w_id (max_thr (glob s)) (worker s (max_thr (glob s)))))))))).
Proof.
  intros [Hme Hoff Hwf] Ht Hmax Hw Ho. unfold create_entry. set (id := max_thr (glob s)) in *.
  cbn [run obind of_res]. unfold gets at 1. cbn [of_res obind]. fold id.
  destruct (Z.ltb_spec id MAX_THR); [|lia]. cbn [run obind of_res massert mret modify].
  set (s1 := upd_glob _ (upd_glob _ s)). unfold init_worker, mbind. cbn [modify].
  set (s2 := upd_worker id _ s1).
  assert (worker s2 me = worker s me) as E2 by (unfold s2; rewrite worker_upd_ne by lia; done).
  destruct (get_logical_clock_returns me me s2) as (s3 & E3 & Es); rewrite ?E2; auto.
  rewrite E3. cbn [of_res obind run modify]. eexists. split; [done|].
  assert (logical_time s2 me = logical_time s me) as -> by (unfold logical_time; by rewrite E2).
  split_and!.
  - repeat rt_frame. rewrite (sim_glob _ _ Es). done.
  - intros i Hi. rewrite !worker_upd_ne, (sim_worker _ _ Es) by done. unfold s2. by rewrite worker_upd_ne.
  - rewrite !worker_upd_eq, (sim_worker _ _ Es). unfold s2. by rewrite worker_upd_eq.
Qed.
End Processes.

(** C14. A new thread starts right after its creator. When thread [me], with its clock paused
    and the turn in hand, executes the statements of [det_create] that enter the new thread,
    the new thread gets the next free number, is neither started nor finished, and its
    logical time is the creator's plus one; the creator keeps the turn, the thread counts
    grow by one, every entry stays well formed and no other entry changes. *)
Theorem created_thread_follows_creator {C} `{PerfCounter C} `{!PerfCounterLaws C} n me f x (s : rt C) :
  let id := max_thr (glob s) in
  paused s me -> has_turn s me -> id < MAX_THR ->
  fds (worker s id) = FdsNull -> hw_clock_enabled (worker s id) = false ->
  exists s', run n (create_entry me f x) s = Done id s' /\
    logical_time s' id = logical_time s me + 1 /\
    started (worker s' id) = false /\ finished (worker s' id) = false /\
    func (worker s' id) = f /\ arg (worker s' id) = x /\
    max_thr (glob s') = id + 1 /\ num_thr (glob s') = num_thr (glob s) + 1 /\
    has_turn s' me /\ paused s' me /\
    forall i, i <> id -> worker s' i = worker s i.
Proof.
  intros id Hp Ht Hmax Hf Ho. pose proof Hp as [Hme Hoff Hwf].
  destruct (create_entry_returns n me f x s Hp Ht Hmax) as (s' & Er & Eg & Ew & En); [|done|].
  { unfold clock_wf. fold id. by rewrite Hf. }
  fold id in Er, Eg, Ew, En. exists s'.
  assert (logical_time s' id = logical_time s me + 1) as Hid.
  { unfold logical_time at 1. rewrite En, stopped_time by exact Ho. simpl. lia. }
  assert (logical_time s' me = logical_time s me) as Hlt by (unfold logical_time; rewrite Ew by lia; done).
  rewrite Eg, En. do 8 (split; [done|]). split; [|split; [|exact Ew]].
  - split; [rewrite Eg; simpl; lia|]. rewrite Eg. simpl. fold id. intros i Hi Hne. unfold precedes.
    destruct (decide (i = id)) as [->|Hi']; [lia|]. rewrite Hlt. unfold logical_time at 2 4. rewrite Ew by done.
    apply (proj2 Ht); [fold id; lia|done].
  - split; [rewrite Eg; simpl; lia|by rewrite Ew by lia|]. rewrite Eg. simpl. fold id. intros i Hi.
    destruct (decide (i = id)) as [->|Hi']; [|rewrite Ew by done; apply Hwf; lia].
    rewrite En. unfold clock_wf. simpl. by rewrite Hf.
Qed.

(** [det_join] and [det_cancel] look a thread up by its [pthread_t]: the search answers
    the first entry of the table that has it, and [MAX_THR] exactly when no entry has it. *)
Theorem find_tid_first {C} (s : rt C) tid :
  (find_tid s tid = MAX_THR /\ forall x, 0 <= x < MAX_THR -> w_tid (worker s x) <> tid) \/
  (0 <= find_tid s tid < MAX_THR /\ w_tid (worker s (find_tid s tid)) = tid /\
   forall x, 0 <= x < find_tid s tid -> w_tid (worker s x) <> tid).
Proof.
  unfold find_tid. pose proof (find_tid_from_spec s tid 0 (Z.to_nat MAX_THR)) as (Hb & Hn & Hf).
  rewrite Z2Nat.id in * by done. rewrite Z.add_0_l in *.
  destruct (decide (find_tid_from s tid 0 (Z.to_nat MAX_THR) = MAX_THR)) as [Em|Em].
  - left. split; [done|]. rewrite Em in Hn. done.
  - right. split; [lia|]. split; [apply Hf; lia|done].
Qed.

(** A mutex that is locked while several threads run and unlocked after the last of them
    was joined keeps its owner and its count, because [det_unlock] then only opens the
    [pthread_mutex_t]. From there on, whenever several threads run again, [det_lock] by the
    old owner takes the path of a recursive lock and returns success without taking the
    mutex, which any other thread can take as well. *)
Lemma stale_owner_enters_unlocked {C} `{PerfCounter C} `{!PerfCounterLaws C} E me a (s : rt C) :
  num_thr (glob s) <= 1 -> 0 < m_id (mutex s a) -> owner (mutex s a) = me -> 0 < ref (mutex s a) ->
  exists s1, run 0 (det_unlock me a) s = Done 0 s1 /\ m_holder (mutex s1 a) = None /\
    owner (mutex s1 a) = me /\ ref (mutex s1 a) = ref (mutex s a) /\
    forall s2 n, mutex s2 a = mutex s1 a -> enabled me s2 -> fds (worker s2 me) <> FdsFreed ->
      exists s3, run n (det_lock E me a) s2 = Done 0 s3 /\ m_holder (mutex s3 a) = None.
Proof.
  intros Hn Hid Ho Hr. eexists. split.
  { unfold det_unlock, det_unlock_and_incr_clock. cbn [run obind of_res gets].
    destruct (Z.ltb_spec 0 (m_id (mutex s a))); [|lia]. cbn [run obind of_res massert mret].
    unfold det_is_enabled, mbind, gets. destruct (Z.leb_spec (num_thr (glob s)) 1); [|lia].
    cbn [run obind of_res negb mret]. unfold pthread_mutex_unlock. reflexivity. }
  rewrite mutex_upd_eq. split_and!; try done.
  intros s2 n Em Hen Hf. destruct (det_lock_again E me a s2 Hen Hf) with (n := n) as (s3 & Er & Es);
    rewrite ?Em; try done.
  exists s3. split; [done|]. by rewrite (sim_mutex _ _ Es), back_at_lock, Em.
Qed.

(** ** A race in the scan

    Thread 0 waits for its turn at time 10. Thread 1 is parked on a condition variable.
    Thread 2, at time 9, signals it and computes on. *)
Import SimpleCounter Samples.
Definition race_state : rt counter :=
  upd_cond (AObj 1) (fun _ => mkCond 1 (Queue.pushed a_queue 1) (init_waiters 2))
    (three (stopped 0 0 10) (stopped 1 0 (MAX_LOGICAL_CLOCK + 3)) (running 2 9)).
Definition race_process : process :=
  mkProcess race_state
    {[0 := wait_for_turn 0 ;~ Ret tt;
      1 := Act (waiter_lock 1 (AObj 1) 1) ;~ wait_for_turn 1 ;~ Ret tt;
      2 := det_cond_signal 2 (AObj 1) ;~ Act (compute 2 5) ;~ Ret tt]}.

(** Thread 0 reads the clock of thread 1, thread 2 runs, thread 0 reads the clock of
    thread 2 and goes on, thread 1 runs. *)
Definition race_schedule : list Z :=
  replicate 10 0 ++ replicate 27 2 ++ replicate 12 0 ++ replicate 24 1.

(** Thread [i] has run to its end. *)
Definition has_returned (p : process (C:=counter)) (i : Z) : bool :=
  match threads p !! i with
  | Some t => match step t (state p) with Stopped _ => true | _ => false end
  | None => false
  end.

(** Two threads can have passed [wait_for_turn] at the same time. The scan reads the
    clocks one after the other, and [det_cond_signal] moves the clock of a parked thread back
    to the signaler's. Here thread 0 passes the parked thread 1, thread 2 wakes thread 1 at
    time 9 and moves on, thread 0 passes thread 2 and returns at time 10; and thread 1,
    which is at time 9 and does have the turn, returns too, nothing having changed in
    between. *)
Lemma turn_race :
  exists p, schedule environment no_user race_schedule race_process = Some p /\
    has_returned p 0 = true /\ has_returned p 1 = true /\
    logical_time (state p) 0 = 10 /\ logical_time (state p) 1 = 9 /\ precedes (state p) 1 0.
Proof.
  assert (match schedule environment no_user race_schedule race_process with
          | Some p => has_returned p 0 && has_returned p 1 && (logical_time (state p) 0 =? 10)
                      && (logical_time (state p) 1 =? 9)
          | None => false end = true) as Hc by (vm_compute; reflexivity).
  destruct (schedule environment no_user race_schedule race_process) as [p|]; [|done].
  repeat (apply andb_prop in Hc; destruct Hc as [Hc ?]). repeat match goal with H : (_ =? _) = true |- _ => apply Z.eqb_eq in H end.
  exists p. split; [done|]. split; [done|]. split; [done|]. split; [done|]. split; [done|]. left. lia.
Qed.

(** *** Witnesses *)

(** Thread 1 creates thread 3. *)
Definition creating : rt counter := three (running 0 40) (stopped 1 4 10) (running 2 15).
Lemma created_thread_follows_creator_witness :
  exists s', run 0 (create_entry 1 7 9) creating = Done 3 s' /\ logical_time s' 3 = 11 /\ has_turn s' 1.
Proof.
  destruct (created_thread_follows_creator 0 1 7 9 creating) as (s' & ? & ? & _ & _ & _ & _ & _ & _ & ? & _);
    [| |done|done|done|by exists s'].
  - split; [done|done|]. by apply (three_entries (fun _ => clock_wf)).
  - split; [done|]. intros i Hi Hne. assert (i = 0 \/ i = 2) as [->| ->] by (simpl in Hi; lia); by left.
Defined.

(** The main thread alone, still owner of mutex 1; then three threads again. *)
Definition owned : rt counter :=
  upd_mutex (AObj 1) (fun m => set_ref 1 (set_owner 0 (set_m_holder (Some 0) m))) start.
Definition alone : rt counter := upd_glob (set_num_thr 1) owned.
Definition reopened : rt counter := upd_mutex (AObj 1) (set_m_holder None) owned.
Lemma stale_owner_enters_unlocked_witness :
  exists s3, run 0 (det_lock environment 0 (AObj 1)) reopened = Done 0 s3 /\ m_holder (mutex s3 (AObj 1)) = None.
Proof.
  destruct (stale_owner_enters_unlocked environment 0 (AObj 1) alone ltac:(done) ltac:(done) ltac:(done) ltac:(done))
    as (s1 & Er & _ & _ & _ & Hl). apply Hl; [by injection Er as <-| |done].
  split; [split|done|done]; [done|]. by apply (three_entries (fun _ => clock_wf)).
Defined.
