(* ===== verification/Machine.v ===== *)
(** The reference machine: what a program of threads, mutexes and protected variables is to
    do in logical time, with none of the runtime's mechanism.

    A thread computes, releases a mutex and uses the variables of the mutexes it holds
    whenever it likes; it queues up for a mutex and tries to take it only when its logical
    time is the smallest. A try succeeds when the thread is first in the queue and the mutex
    was released before the thread's time; a try that fails costs one unit of time. Steps of
    different threads commute, so that whatever the schedule there is one result. *)
From stdpp Require Import base list gmap sets relations.
From Stdlib Require Import ZArith Lia.
From S2P Require Import Prelude.

Module Machine.

(** What a thread does; a [Load] may decide what comes next. *)
Inductive task :=
| Finish
| Compute (events : Z) (k : task)
| Acquire (x : Z) (k : task)
| Release (x incr : Z) (k : task)
| Load (x : Z) (k : Z -> task)
| Store (x v : Z) (k : task).

(** A mutex is taken once and released by its holder; variable [x] belongs to mutex [x];
    time does not go back. *)
Fixpoint disciplined (X held : gset Z) (t : task) : Prop :=
  match t with
  | Finish => True
  | Compute n k => 0 <= n /\ disciplined X held k
  | Acquire x k => x ∈ X /\ (x ∉ held) /\ disciplined X ({[x]} ∪ held) k
  | Release x incr k => x ∈ held /\ 0 < incr /\ disciplined X (held ∖ {[x]}) k
  | Load x k => x ∈ held /\ (forall v, disciplined X held (k v))
  | Store x v k => x ∈ held /\ disciplined X held k
  end.

Record thread := mkThread { time : Z; queued : bool; held : gset Z; todo : task }.
Record lock := mkLock { holder : option Z; released : Z; waiters : list Z }.
Record machine := mkMachine { thr : gmap Z thread; lks : gmap Z lock; mem : gmap Z Z }.

Definition lock0 : lock := mkLock None 0 [].
Definition lock_of (m : machine) (x : Z) : lock := default lock0 (lks m !! x).
Definition var_of (m : machine) (x : Z) : Z := default 0 (mem m !! x).

(** Thread [i] at time [t] comes before thread [j] at time [u]. *)
Definition before (t i u j : Z) : Prop := t < u \/ (t = u /\ i < j).
#[export] Instance before_dec t i u j : Decision (before t i u j).
Proof. unfold before. apply _. Defined.
Definition first (m : machine) (i : Z) (t : Z) : bool :=
  bool_decide (map_Forall (fun j u => j = i \/ before t i (time u) j) (thr m)).

(** What a step changes: the thread, at most one mutex, at most one variable. *)
Record effect := mkEffect { new_thread : thread; new_lock : option (Z * lock); new_var : option (Z * Z) }.

Definition at_time (t : thread) (n : Z) (k : task) : thread := mkThread n (queued t) (held t) k.

Definition attempt (m : machine) (i x : Z) (k : task) (t : thread) : effect :=
  let l := lock_of m x in
  if bool_decide (head (waiters l) = Some i /\ holder l = None /\ released l < time t) then
    mkEffect (mkThread (time t + 1) false ({[x]} ∪ held t) k)
      (Some (x, mkLock (Some i) (released l) (tail (waiters l)))) None
  else mkEffect (at_time t (time t + 1) (Acquire x k)) None None.

Definition effect_of (m : machine) (i : Z) (t : thread) : option effect :=
  match todo t with
  | Finish => None
  | Compute n k => Some (mkEffect (at_time t (time t + n) k) None None)
  | Acquire x k =>
      if first m i (time t) then
        Some (if queued t then attempt m i x k t
              else mkEffect (mkThread (time t) true (held t) (Acquire x k))
                     (Some (x, mkLock (holder (lock_of m x)) (released (lock_of m x)) (waiters (lock_of m x) ++ [i]))) None)
      else None
  | Release x incr k =>
      Some (mkEffect (mkThread (time t + incr) (queued t) (held t ∖ {[x]}) k)
              (Some (x, mkLock None (time t) (waiters (lock_of m x)))) None)
  | Load x k => Some (mkEffect (at_time t (time t) (k (var_of m x))) None None)
  | Store x v k => Some (mkEffect (at_time t (time t) k) None (Some (x, v)))
  end.

Definition insert_opt {A} (o : option (Z * A)) (m : gmap Z A) : gmap Z A :=
  match o with Some (x, a) => <[x := a]> m | None => m end.
Definition apply_effect (i : Z) (e : effect) (m : machine) : machine :=
  mkMachine (<[i := new_thread e]> (thr m)) (insert_opt (new_lock e) (lks m)) (insert_opt (new_var e) (mem m)).

(** Thread [i] makes a step, if it can. *)
Definition mstep (i : Z) (m : machine) : option machine :=
  let? t := thr m !! i in
  let? e := effect_of m i t in
  Some (apply_effect i e m).

(** ** The invariant *)

Record machine_ok (X : gset Z) (m : machine) : Prop := {
  ok_task i t : thr m !! i = Some t -> disciplined X (held t) (todo t);
  ok_held i t x : thr m !! i = Some t -> (x ∈ held t <-> holder (lock_of m x) = Some i);
  ok_waiters x : NoDup (waiters (lock_of m x));
  ok_waiting x j : j ∈ waiters (lock_of m x) -> exists t k, thr m !! j = Some t /\ queued t = true /\ todo t = Acquire x k;
  ok_queued i t : thr m !! i = Some t -> queued t = true -> exists x k, todo t = Acquire x k /\ i ∈ waiters (lock_of m x)
}.

Lemma lock_of_insert m x l y th me : lock_of (mkMachine th (<[x := l]> (lks m)) me) y = if decide (y = x) then l else lock_of m y.
Proof.
  unfold lock_of. simpl. case_decide as E; [subst; by rewrite lookup_insert_eq|]. by rewrite lookup_insert_ne.
Qed.
Lemma thr_insert (th : gmap Z thread) i t j u : <[i := t]> th !! j = Some u -> (j = i /\ u = t) \/ (j <> i /\ th !! j = Some u).
Proof. destruct (decide (j = i)) as [->|]; [rewrite lookup_insert_eq; intros [= <-]; by left|rewrite lookup_insert_ne by done; by right]. Qed.

(** A step that leaves the mutexes alone and the thread queued as it was. *)
Lemma ok_local X m i t t' v : machine_ok X m -> thr m !! i = Some t -> disciplined X (held t) (todo t') ->
  held t' = held t -> queued t' = queued t -> ((exists x k, todo t = Acquire x k) -> todo t' = todo t) ->
  machine_ok X (apply_effect i (mkEffect t' None v) m).
Proof.
  intros [H1 H2 H3 H4 H5] Ht Hd Hh Hq Ha. unfold apply_effect. simpl. split; simpl.
  - intros j u Hj. apply thr_insert in Hj as [[-> ->]|[_ Hj]]; [by rewrite Hh|eauto].
  - intros j u x Hj. apply thr_insert in Hj as [[-> ->]|[_ Hj]]; [rewrite Hh; by apply H2|by apply H2].
  - apply H3.
  - intros x j Hj. destruct (H4 x j Hj) as (u & k & Hu & Hq' & Ht'). destruct (decide (j = i)) as [->|].
    + rewrite Ht in Hu. injection Hu as <-. exists t', k. rewrite lookup_insert_eq. split; [done|]. split; [congruence|].
      rewrite Ha; [done|eauto].
    + exists u, k. by rewrite lookup_insert_ne.
  - intros j u Hj Hqu. apply thr_insert in Hj as [[-> ->]|[_ Hj]]; [|by apply H5 in Hj].
    rewrite Hq in Hqu. destruct (H5 i t Ht Hqu) as (x & k & Et & Hw). exists x, k. split; [rewrite Ha; eauto|done].
Qed.

(** A step that changes mutex [x]. *)
Lemma ok_lock X m i t t' x l : machine_ok X m -> thr m !! i = Some t -> disciplined X (held t') (todo t') ->
  (forall y, y ∈ held t' <-> if decide (y = x) then holder l = Some i else y ∈ held t) ->
  (forall j, j <> i -> holder l = Some j <-> holder (lock_of m x) = Some j) ->
  NoDup (waiters l) ->
  (forall j, j <> i -> j ∈ waiters l <-> j ∈ waiters (lock_of m x)) ->
  (i ∈ waiters l -> queued t' = true /\ exists k, todo t' = Acquire x k) ->
  (queued t' = true -> i ∈ waiters l) ->
  (forall y, y <> x -> i ∉ waiters (lock_of m y)) ->
  machine_ok X (apply_effect i (mkEffect t' (Some (x, l)) None) m).
Proof.
  intros [H1 H2 H3 H4 H5] Ht Hd Hh Ho Hn Hw Hi Hqi Hy. unfold apply_effect. simpl. split; simpl.
  - intros j u Hj. apply thr_insert in Hj as [[-> ->]|[_ Hj]]; [done|eauto].
  - intros j u y Hj. rewrite lock_of_insert. apply thr_insert in Hj as [[-> ->]|[Hne Hj]].
    + rewrite Hh. case_decide; [done|]. by apply H2.
    + case_decide as E; [subst; rewrite Ho by done|]; by apply H2.
  - intros y. rewrite lock_of_insert. case_decide; [done|apply H3].
  - intros y j Hj. rewrite lock_of_insert in Hj. destruct (decide (j = i)) as [->|Hne].
    + case_decide as E; [subst y|by apply Hy in Hj]. destruct (Hi Hj) as [? [k ?]]. exists t', k. by rewrite lookup_insert_eq.
    + rewrite lookup_insert_ne by done. apply H4. case_decide as E; [subst y|done]. by apply Hw.
  - intros j u Hj Hq. apply thr_insert in Hj as [[-> ->]|[Hne Hj]].
    + destruct (Hi (Hqi Hq)) as [_ [k ?]]. exists x, k. rewrite lock_of_insert, decide_True by done. auto.
    + destruct (H5 j u Hj Hq) as (y & k & Eu & Hj'). exists y, k. split; [done|]. rewrite lock_of_insert. case_decide as E; [subst y; by apply Hw|done].
Qed.

Lemma not_waiting X m i t y : machine_ok X m -> thr m !! i = Some t ->
  (queued t = true -> forall k, todo t <> Acquire y k) -> i ∉ waiters (lock_of m y).
Proof. intros Hok Ht Hn Hi. destruct (ok_waiting _ _ Hok y i Hi) as (u & k & Hu & Hq & Ha). rewrite Ht in Hu. injection Hu as <-. by apply (Hn Hq k). Qed.

Lemma mstep_ok X m i m' : machine_ok X m -> mstep i m = Some m' -> machine_ok X m'.
Proof.
  intros Hok Hs. unfold mstep in Hs. destruct (thr m !! i) as [t|] eqn:Ht; [|done].
  pose proof (ok_task _ _ Hok i t Ht) as Hd. pose proof (fun y => ok_held _ _ Hok i t y Ht) as Hh.
  unfold effect_of in Hs. destruct (todo t) as [|n k|x k|x incr k|x k|x v k] eqn:Et; [done| | | | |]; simpl in Hd.
  - injection Hs as <-. eapply ok_local; eauto; [apply Hd|]. intros (x & k' & E). by rewrite E in Et.
  - destruct (first m i (time t)); [|done]. destruct Hd as (Hx & Hnx & Hd). injection Hs as <-. destruct (queued t) eqn:Eq.
    + unfold attempt. case_bool_decide as E.
      * destruct E as (E1 & E2 & _). destruct (waiters (lock_of m x)) as [|i' ws] eqn:Ew; [done|]. injection E1 as ->.
        pose proof (ok_waiters _ _ Hok x) as Hnd. rewrite Ew in Hnd. apply NoDup_cons in Hnd as [Hni Hnd].
        apply (ok_lock X m i t); simpl; try done.
        -- intros y. rewrite elem_of_union, elem_of_singleton. case_decide; [split; auto|]. split; [by intros [|]|by right].
        -- intros j Hj. rewrite E2. split; [intros [= ->]|]; done.
        -- intros j Hj. rewrite Ew, elem_of_cons. split; [by right|by intros [|]].
        -- intros y Hy. eapply not_waiting; eauto. rewrite Et. intros _ k' [= ? _]. congruence.
      * eapply ok_local; eauto; simpl; try (by rewrite Et). done.
    + apply (ok_lock X m i t); simpl; try done.
      * intros y. case_decide as E; [subst; by apply Hh|done].
      * apply NoDup_app. split; [apply (ok_waiters _ _ Hok)|]. split; [|apply NoDup_singleton].
        intros j Hj Hj'. apply list_elem_of_singleton in Hj' as ->. by apply (not_waiting X m i t x Hok Ht) in Hj; [|rewrite Eq].
      * intros j Hne. rewrite elem_of_app, list_elem_of_singleton. split; [by intros [|]|by left].
      * intros _. split; [done|]. by exists k.
      * intros _. apply elem_of_app. right. by apply list_elem_of_singleton.
      * intros y Hy. eapply not_waiting; eauto. by rewrite Eq.
  - destruct Hd as (Hx & Hi & Hd). injection Hs as <-. apply (ok_lock X m i t); simpl; try done.
    + intros y. rewrite elem_of_difference, elem_of_singleton. case_decide; split; (done || tauto || by intros []).
    + intros j Hj. split; [done|]. intros E. apply Hh in Hx. congruence.
    + apply (ok_waiters _ _ Hok).
    + intros Hw. by apply (not_waiting X m i t x Hok Ht) in Hw; [|rewrite Et].
    + intros Hq. destruct (ok_queued _ _ Hok i t Ht Hq) as (y & k' & E & _). by rewrite E in Et.
    + intros y _. eapply not_waiting; eauto. by rewrite Et.
  - destruct Hd as (Hx & Hd). injection Hs as <-. apply (ok_local X m i t); [done|done|apply Hd|done|done|]. intros (y & k' & E). by rewrite E in Et.
  - destruct Hd as (Hx & Hd). injection Hs as <-. apply (ok_local X m i t); [done|done|apply Hd|done|done|]. intros (y & k' & E). by rewrite E in Et.
Qed.

(** ** Steps of different threads commute *)

Definition apart {A B} (o : option (Z * A)) (o' : option (Z * B)) : Prop :=
  forall x a y b, o = Some (x, a) -> o' = Some (y, b) -> x <> y.

Lemma insert_opt_comm {A} (o o' : option (Z * A)) m : apart o o' -> insert_opt o (insert_opt o' m) = insert_opt o' (insert_opt o m).
Proof. destruct o as [[x a]|], o' as [[y b]|]; simpl; try done. intros Ha. apply insert_insert_ne. by eapply Ha. Qed.
Lemma apply_comm i j e f m : i <> j -> apart (new_lock e) (new_lock f) -> apart (new_var e) (new_var f) ->
  apply_effect j f (apply_effect i e m) = apply_effect i e (apply_effect j f m).
Proof.
  intros Hne Hl Hv. unfold apply_effect. simpl. f_equal; [by apply insert_insert_ne| |]; symmetry; by apply insert_opt_comm.
Qed.

Lemma lock_of_apply i e m y : lock_of (apply_effect i e m) y =
  match new_lock e with Some (x, l) => if decide (y = x) then l else lock_of m y | None => lock_of m y end.
Proof. unfold apply_effect. destruct (new_lock e) as [[x l]|]; simpl; [apply lock_of_insert|done]. Qed.
Lemma var_of_apply i e m y : (forall v, new_var e <> Some (y, v)) -> var_of (apply_effect i e m) y = var_of m y.
Proof.
  intros Hv. unfold var_of, apply_effect. simpl. destruct (new_var e) as [[x v]|]; simpl; [|done].
  rewrite lookup_insert_ne; [done|]. intros ->. by apply (Hv v).
Qed.

Lemma effect_of_ext m m' j t :
  (forall y k, todo t = Acquire y k -> first m' j (time t) = first m j (time t) /\ lock_of m' y = lock_of m y) ->
  (forall y n k, todo t = Release y n k -> waiters (lock_of m' y) = waiters (lock_of m y)) ->
  (forall y k, todo t = Load y k -> var_of m' y = var_of m y) ->
  effect_of m' j t = effect_of m j t.
Proof.
  intros Ha Hr Hl. unfold effect_of, attempt. destruct (todo t) as [|n k|x k|x incr k|x k|x v k]; try done.
  - destruct (Ha x k eq_refl) as [-> ->]. done.
  - by rewrite (Hr x incr k eq_refl).
  - by rewrite (Hl x k eq_refl).
Qed.

Section Diamond.
Variables (X : gset Z) (m : machine).
Hypothesis ok : machine_ok X m.

Lemma effect_time i t e : thr m !! i = Some t -> effect_of m i t = Some e -> time t <= time (new_thread e).
Proof.
  intros Ht He. pose proof (ok_task _ _ ok i t Ht) as Hd. unfold effect_of, attempt in He.
  destruct (todo t) as [|n k|x k|x incr k|x k|x v k]; simpl in Hd; [done| | | | |].
  1: injection He as <-; simpl; lia.
  2-4: injection He as <-; simpl; lia.
  destruct (first m i (time t)); [|done]. injection He as <-. destruct (queued t); [|simpl; lia]. case_bool_decide; simpl; lia.
Qed.

(** A step of another thread takes nobody's turn. *)
Lemma first_apply i j ti e n : thr m !! j = Some ti -> effect_of m j ti = Some e -> i <> j ->
  first m i n = true -> first (apply_effect j e m) i n = true.
Proof.
  intros Hj He Hne Hf. apply bool_decide_eq_true. apply bool_decide_eq_true in Hf. intros k u Hk.
  apply thr_insert in Hk as [[-> ->]|[_ Hk]]; [|by apply (Hf k)]. right. destruct (Hf j ti Hj) as [|Hb]; [congruence|].
  pose proof (effect_time j ti e Hj He). unfold before in *. lia.
Qed.
Lemma first_unique i j ti tj : thr m !! i = Some ti -> thr m !! j = Some tj -> first m i (time ti) = true -> first m j (time tj) = true -> i = j.
Proof.
  intros Hi Hj Fi Fj. apply bool_decide_eq_true in Fi, Fj. destruct (Fi j tj Hj) as [|Bi]; [done|]. destruct (Fj i ti Hi) as [|Bj]; [done|].
  unfold before in *. lia.
Qed.

(** Mutexes of different threads are different. *)
Lemma held_apart i j ti tj x y : i <> j -> thr m !! i = Some ti -> thr m !! j = Some tj -> x ∈ held ti -> y ∈ held tj -> x <> y.
Proof.
  intros Hne Hi Hj Hx Hy ->. apply (ok_held _ _ ok i ti y Hi) in Hx. apply (ok_held _ _ ok j tj y Hj) in Hy. congruence.
Qed.

Definition acquiring (t : thread) : Prop := exists x k, todo t = Acquire x k.

(** The mutex and the variable a step of a thread that does not acquire changes are its own. *)
Lemma effect_own i t e : thr m !! i = Some t -> ~ acquiring t -> effect_of m i t = Some e ->
  (forall x l, new_lock e = Some (x, l) -> x ∈ held t) /\ (forall x v, new_var e = Some (x, v) -> x ∈ held t).
Proof.
  intros Ht Hn He. pose proof (ok_task _ _ ok i t Ht) as Hd. unfold effect_of in He.
  destruct (todo t) as [|n k|x k|x incr k|x k|x v k] eqn:Et; simpl in Hd; [done| | | | |].
  2: { exfalso. apply Hn. by exists x, k. }
  all: injection He as <-; simpl; split; intros ? ? [= <- <-] || intros ? ? [=]; apply Hd.
Qed.

Lemma both_local i j ti tj ei ej : i <> j -> thr m !! i = Some ti -> thr m !! j = Some tj -> ~ acquiring ti -> ~ acquiring tj ->
  effect_of m i ti = Some ei -> effect_of m j tj = Some ej ->
  effect_of (apply_effect i ei m) j tj = Some ej /\ apply_effect j ej (apply_effect i ei m) = apply_effect i ei (apply_effect j ej m).
Proof.
  intros Hne Hi Hj Ni Nj Ei Ej. destruct (effect_own i ti ei Hi Ni Ei) as [Li Vi]. destruct (effect_own j tj ej Hj Nj Ej) as [Lj Vj].
  pose proof (ok_task _ _ ok j tj Hj) as Hd. split.
  - rewrite <- Ej. apply effect_of_ext.
    + intros y k E. exfalso. apply Nj. by exists y, k.
    + intros y n k E. rewrite E in Hd. destruct Hd as [Hy _]. rewrite lock_of_apply. destruct (new_lock ei) as [[x l]|]; [|done].
      rewrite decide_False; [done|]. intros ->. by apply (held_apart i j ti tj x x Hne Hi Hj (Li x l eq_refl) Hy).
    + intros y k E. rewrite E in Hd. destruct Hd as [Hy _]. apply var_of_apply. intros v Ev. by apply (held_apart i j ti tj y y Hne Hi Hj (Vi y v Ev) Hy).
  - apply apply_comm; [done| |].
    + intros x l y l' E E'. eapply (held_apart i j ti tj); eauto.
    + intros x v y v' E E'. eapply (held_apart i j ti tj); eauto.
Qed.

(** One thread acquires, the other does not. *)
Lemma acquire_local i j ti tj ei ej : i <> j -> thr m !! i = Some ti -> thr m !! j = Some tj -> acquiring ti -> ~ acquiring tj ->
  effect_of m i ti = Some ei -> effect_of m j tj = Some ej ->
  exists ei' ej', effect_of (apply_effect j ej m) i ti = Some ei' /\ effect_of (apply_effect i ei m) j tj = Some ej' /\
    apply_effect j ej' (apply_effect i ei m) = apply_effect i ei' (apply_effect j ej m).
Proof.
  intros Hne Hi Hj (x & k & Ti) Nj Ei Ej. destruct (effect_own j tj ej Hj Nj Ej) as [Lj Vj].
  pose proof (ok_task _ _ ok j tj Hj) as Hd. assert (first m i (time ti) = true) as Hf.
  { unfold effect_of in Ei. rewrite Ti in Ei. by destruct (first m i (time ti)). }
  pose proof (first_apply i j tj ej (time ti) Hj Ej Hne Hf) as Hf'.
  assert (new_var ei = None /\ forall y l, new_lock ei = Some (y, l) -> y = x) as [Vi Li].
  { unfold effect_of, attempt in Ei. rewrite Ti, Hf in Ei. injection Ei as <-. destruct (queued ti); [case_bool_decide|]; (split; [done|]); by intros ? ? [= <- _] || by intros ? ? [=]. }
  assert ((exists n k', todo tj = Release x n k') \/ forall n k', todo tj <> Release x n k') as [(incr & k' & Tj)|Hnr].
  { destruct (todo tj) as [|? ?|? ?|y n k'|? ?|? ? ?]; try (by right). destruct (decide (y = x)) as [->|]; [left; eauto|right; congruence]. }
  - (* the other one releases the mutex: the try fails before and after *)
    rewrite Tj in Hd. destruct Hd as [Hx _]. apply (ok_held _ _ ok j tj x Hj) in Hx.
    assert (time ti <= time tj) as Hle.
    { apply bool_decide_eq_true in Hf. destruct (Hf j tj Hj) as [|Hb]; [congruence|]. unfold before in Hb. lia. }
    unfold effect_of in Ej. rewrite Tj in Ej. injection Ej as <-.
    unfold effect_of, attempt in Ei |- *. rewrite Ti, Hf' in *. rewrite Hf in Ei. rewrite Tj. injection Ei as <-.
    rewrite !lock_of_apply. simpl. rewrite decide_True by done. simpl. destruct (queued ti).
    + rewrite !bool_decide_false by (rewrite ?Hx; (by intros (_ & ? & _)) || (intros (_ & _ & ?); lia)). eexists _, _. split; [done|]. split; [done|].
      simpl. apply apply_comm; [done| |]; intros ? ? ? ? [=].
    + eexists _, _. split; [done|]. split; [done|]. simpl. rewrite decide_True by done. unfold apply_effect. simpl.
      rewrite !insert_insert_eq. f_equal. by apply insert_insert_ne.
  - exists ei, ej. split; [|split].
    + rewrite <- Ei. apply effect_of_ext; rewrite Ti; [|done|done]. intros y k' [= <- <-]. split; [congruence|]. rewrite lock_of_apply.
      destruct (new_lock ej) as [[z l]|] eqn:El; [|done]. case_decide as E; [subst z|done]. exfalso.
      unfold effect_of in Ej. destruct (todo tj) as [|? ?|? ?|y n k'|? ?|? ? ?] eqn:Tj; try (by injection Ej as <-); [done|by apply Nj; eexists _, _|].
      injection Ej as <-. injection El as -> _. by apply (Hnr n k').
    + rewrite <- Ej. apply effect_of_ext.
      * intros y k' E. exfalso. apply Nj. by exists y, k'.
      * intros y n k' E. rewrite lock_of_apply. destruct (new_lock ei) as [[z l]|] eqn:El; [|done]. assert (z = x) as -> by (by eapply Li).
        rewrite decide_False; [done|]. intros ->. by apply (Hnr n k').
      * intros y k' E. apply var_of_apply. by rewrite Vi.
    + apply apply_comm; [done| |rewrite Vi; by intros ? ? ? ? [=]]. intros y l z l' E E' ->. apply Li in E as ->.
      unfold effect_of in Ej. destruct (todo tj) as [|? ?|? ?|y n k'|? ?|? ? ?] eqn:Tj; try (by injection Ej as <-); [done|by apply Nj; eexists _, _|].
      injection Ej as <-. injection E' as -> _. by apply (Hnr n k').
Qed.

Lemma mstep_diamond i j m1 m2 : i <> j -> mstep i m = Some m1 -> mstep j m = Some m2 ->
  exists m', mstep j m1 = Some m' /\ mstep i m2 = Some m'.
Proof.
  intros Hne H1 H2. unfold mstep in *. destruct (thr m !! i) as [ti|] eqn:Hi; [|done]. destruct (thr m !! j) as [tj|] eqn:Hj; [|done].
  destruct (effect_of m i ti) as [ei|] eqn:Ei; [|done]. destruct (effect_of m j tj) as [ej|] eqn:Ej; [|done].
  injection H1 as <-. injection H2 as <-. simpl. rewrite !lookup_insert_ne, Hi, Hj by done.
  assert (forall t, acquiring t \/ ~ acquiring t) as Hac.
  { intros t. unfold acquiring. destruct (todo t); try (right; intros (? & ? & ?); done). left. eauto. }
  destruct (Hac ti) as [Ai|Ai], (Hac tj) as [Aj|Aj].
  - exfalso. apply Hne. destruct Ai as (x & k & Ti), Aj as (y & k' & Tj). unfold effect_of in Ei, Ej. rewrite Ti in Ei. rewrite Tj in Ej.
    destruct (first m i (time ti)) eqn:Fi; [|done]. destruct (first m j (time tj)) eqn:Fj; [|done]. by eapply (first_unique i j ti tj).
  - destruct (acquire_local i j ti tj ei ej Hne Hi Hj Ai Aj Ei Ej) as (ei' & ej' & -> & -> & E). eexists. split; [done|]. by rewrite E.
  - destruct (acquire_local j i tj ti ej ei) as (ej' & ei' & -> & -> & E); try done. eexists. split; [done|]. by rewrite E.
  - destruct (both_local i j ti tj ei ej) as [-> E1]; try done. destruct (both_local j i tj ti ej ei) as [-> E2]; try done. eexists. split; [done|]. by rewrite E1.
Qed.
End Diamond.

(** ** One result *)

Definition moves (X : gset Z) (m m' : machine) : Prop := machine_ok X m /\ exists i, mstep i m = Some m'.

Lemma moves_ok X m m' : rtc (moves X) m m' -> machine_ok X m -> machine_ok X m'.
Proof. induction 1 as [|m m1 m' [_ [i Hs]] _ IH]; [done|]. intros Hok. apply IH. by eapply mstep_ok. Qed.

(** The diamond of [relations], up to the case of the same step. *)
Lemma moves_confluent X : confluent (moves X).
Proof.
  set (R := fun m m' => m = m' \/ moves X m m'). assert (diamond R) as Hd.
  { intros m m1 m2 [<-|H1] [<-|H2]; [exists m; by split; left|exists m2; split; [by right|by left]|exists m1; split; [by left|by right]|].
    destruct H1 as [Hok [i Hi]], H2 as [_ [j Hj]]. destruct (decide (i = j)) as [->|Hne].
    - rewrite Hi in Hj. injection Hj as <-. exists m1. by split; left.
    - destruct (mstep_diamond X m Hok i j m1 m2 Hne Hi Hj) as (m' & H1 & H2). exists m'.
      split; right; (split; [eapply mstep_ok; [|eassumption]; done|eauto]). }
  assert (forall m m', rtc R m m' <-> rtc (moves X) m m') as Hr.
  { intros m m'. split; induction 1 as [|? ? ? H1 _ IH]; [done| |done|eapply rtc_l; [by right|done]]. destruct H1 as [<-|H1]; [done|by eapply rtc_l]. }
  intros m m1 m2 H1 H2. apply Hr in H1, H2. destruct (diamond_confluent Hd m m1 m2 H1 H2) as (z & Z1 & Z2). exists z. by rewrite <- !Hr.
Qed.

Definition finished (m : machine) : Prop := map_Forall (fun _ t => todo t = Finish) (thr m).
Lemma finished_nf X m : finished m -> nf (moves X) m.
Proof.
  intros Hf [m' [_ [i Hs]]]. unfold mstep in Hs. destruct (thr m !! i) as [t|] eqn:Et; [|done]. unfold effect_of in Hs. by rewrite (Hf i t Et) in Hs.
Qed.

(** Whatever order the steps are taken in, the program ends in the same state. *)
Lemma one_result X m m1 m2 : rtc (moves X) m m1 -> finished m1 -> rtc (moves X) m m2 -> finished m2 -> m1 = m2.
Proof. intros. eapply (confluent_rtc_nf m); eauto using moves_confluent, finished_nf. Qed.

(** ** One length *)

(** When a program ends in [k] steps, every first step leads to a state from which it ends in
    [k - 1]: whatever is done, the end comes nearer. *)
Lemma nsteps_finish X k m m1 m2 : nsteps (moves X) k m m1 -> finished m1 -> moves X m m2 -> exists k', k = S k' /\ nsteps (moves X) k' m2 m1.
Proof.
  intros Hn Hf. revert m2. induction Hn as [m|k m ma m1 Ha Hn IH]; intros m2 H2.
  { destruct (finished_nf X m Hf). by exists m2. }
  exists k. split; [done|]. destruct Ha as [Hok [i Hi]], H2 as [_ [j Hj]]. destruct (decide (i = j)) as [->|Hne]; [congruence|].
  destruct (mstep_diamond X m Hok i j ma m2 Hne Hi Hj) as (m3 & H3 & H3'). destruct (IH Hf m3) as (k' & -> & Hk).
  - split; [by eapply mstep_ok|by exists j].
  - eapply nsteps_l; [|exact Hk]. split; [by eapply mstep_ok|by exists i].
Qed.
Lemma runs_bounded X k k' m m1 m2 : nsteps (moves X) k m m1 -> finished m1 -> nsteps (moves X) k' m m2 ->
  (k' <= k)%nat /\ nsteps (moves X) (k - k') m2 m1.
Proof.
  intros Hk Hf Hk'. revert k Hk. induction Hk' as [m|k' m ma m2 Ha _ IH]; intros k Hk; [split; [lia|by rewrite Nat.sub_0_r]|].
  destruct (nsteps_finish X k m m1 ma Hk Hf Ha) as (k0 & -> & H0). destruct (IH k0 H0) as [? ?]. split; [lia|done].
Qed.
Lemma ends_from X m m1 m2 : rtc (moves X) m m1 -> finished m1 -> rtc (moves X) m m2 -> rtc (moves X) m2 m1.
Proof.
  intros (k & Hk)%rtc_nsteps Hf (k' & Hk')%rtc_nsteps. destruct (runs_bounded X k k' m m1 m2 Hk Hf Hk') as [_ Hr]. apply rtc_nsteps. eauto.
Qed.
Lemma time_grows X m m' i t : rtc (moves X) m m' -> thr m !! i = Some t -> exists t', thr m' !! i = Some t' /\ time t <= time t'.
Proof.
  intros Hr. revert t. induction Hr as [m|m m1 m' [Hok [j Hj]] _ IH]; intros t Ht; [by exists t|].
  assert (exists t1, thr m1 !! i = Some t1 /\ time t <= time t1) as (t1 & H1 & Hle).
  { unfold mstep in Hj. destruct (thr m !! j) as [tj|] eqn:Etj; [|done]. destruct (effect_of m j tj) as [e|] eqn:Ee; [|done]. injection Hj as <-. simpl.
    destruct (decide (i = j)) as [->|Hne]; [|exists t; rewrite lookup_insert_ne by done; split; [done|lia]]. rewrite lookup_insert_eq. eexists. split; [done|].
    rewrite Etj in Ht. injection Ht as <-. by eapply effect_time. }
  destruct (IH t1 H1) as (t' & ? & ?). exists t'. split; [done|lia].
Qed.
End Machine.
