(* ===== verification/Ghost.v ===== *)
(** Simulation of a machine by the threads of a process: the rely-guarantee logic of
    [RelyGuarantee] with a second, ghost state beside the process's own. A step of a thread
    may be accompanied by a step of the ghost; the guarantee says which. *)
From stdpp Require Import base list gmap relations strings.
From Stdlib Require Import ZArith Lia.
From S2P Require Import Prelude Queue Runtime Clock Sync Threads RelyGuarantee.
Open Scope m_scope.

Section Logic.
Context {C G : Type}.
Abbreviation conf := (rt C * G)%type.
Variables Rely Guar : conf -> conf -> Prop.
Context `{!Reflexive Rely} `{!Transitive Rely} `{!Reflexive Guar}.

(** For [n] steps, [p] keeps the guarantee under the rely, with some ghost, and ends, if it
    does, in [Q]. *)
Fixpoint gs {A} (n : nat) (p : prog C A) (c : conf) (Q : A -> conf -> Prop) : Prop :=
  match n with
  | O => True
  | S n => forall c1, Rely c c1 ->
      match step p (fst c1) with
      | Next p' s2 => exists g2, Guar c1 (s2, g2) /\ gs n p' (s2, g2) Q
      | Stopped a => Q a c1
      | Stuck | Crashed _ => True
      end
  end.

Lemma gs_weaken {A} n (p : prog C A) c Q : gs (S n) p c Q -> gs n p c Q.
Proof.
  revert p c. induction n as [|n IH]; intros p c Hp; [done|]. intros c1 Hc. specialize (Hp c1 Hc).
  destruct (step p (fst c1)); try done. destruct Hp as (g2 & ? & Hp). exists g2. split; [done|]. by apply IH.
Qed.
Lemma gs_stable {A} n (p : prog C A) c c' Q : gs n p c Q -> Rely c c' -> gs n p c' Q.
Proof. destruct n as [|n]; [done|]. intros Hp Hc c1 Hc1. apply Hp. by transitivity c'. Qed.
Lemma gs_conseq {A} n (p : prog C A) c (Q Q' : A -> conf -> Prop) :
  gs n p c Q -> (forall a c', Q a c' -> Q' a c') -> gs n p c Q'.
Proof.
  intros Hp HQ. revert p c Hp. induction n as [|n IH]; intros p c Hp; [done|]. intros c1 Hc. specialize (Hp c1 Hc).
  destruct (step p (fst c1)); auto. destruct Hp as (g2 & ? & Hp). exists g2. split; [done|]. by apply IH.
Qed.
Lemma gs_ret {A} n (a : A) c Q : (forall c1, Rely c c1 -> Q a c1) -> gs n (Ret a) c Q.
Proof. intros HQ. destruct n as [|n]; [done|]. intros c1 Hc. simpl. auto. Qed.
Lemma gs_bind {A B} n (p : prog C A) (k : A -> prog C B) c (Q : A -> conf -> Prop) Q' :
  gs n p c Q -> (forall m a c1, (m < n)%nat -> Q a c1 -> gs m (k a) c1 Q') -> gs n (Bind p k) c Q'.
Proof.
  revert p c. induction n as [|n IH]; intros p c Hp Hk; [done|]. intros c1 Hc. specialize (Hp c1 Hc). simpl.
  destruct (step p (fst c1)); try done.
  - destruct Hp as (g2 & ? & Hp). exists g2. split; [done|]. apply IH; [done|]. intros. apply Hk; [lia|done].
  - exists (snd c1). destruct c1. split; [done|]. apply Hk; [lia|done].
Qed.
Lemma gs_loop {A B} n (body : A -> prog C (A + B)) (I : A -> conf -> Prop) x c Q :
  (forall x c c', I x c -> Rely c c' -> I x c') ->
  (forall m x c, I x c -> gs m (body x) c (fun r c' => match r with inl x' => I x' c' | inr b => Q b c' end)) ->
  (forall b c c', Q b c -> Rely c c' -> Q b c') ->
  I x c -> gs n (Loop body x) c Q.
Proof.
  intros Hst Hbody HQ. revert x c. induction n as [n IH] using lt_wf_ind. intros x c HI.
  destruct n as [|n]; [done|]. intros c1 Hc. exists (snd c1). destruct c1 as [s1 g1]. split; [done|].
  eapply gs_bind; [apply Hbody; by eapply Hst|]. intros m r c2 Hm Hr.
  destruct r as [x'|b]; [apply IH; [lia|done]|]. apply gs_ret. intros. by eapply HQ.
Qed.

(** One action, from an assertion to a stable one. *)
Lemma gs_act {A} n (m : M C A) c (P : conf -> Prop) (Q : A -> conf -> Prop) :
  (forall c c', P c -> Rely c c' -> P c') -> (forall a c c', Q a c -> Rely c c' -> Q a c') ->
  (forall s g, P (s, g) -> match m s with Ok a s' => exists g', Guar (s, g) (s', g') /\ Q a (s', g') | _ => True end) ->
  P c -> gs n (Act m) c Q.
Proof.
  intros HP HQ Hm Hc. destruct n as [|n]; [done|]. intros [s1 g1] H1. specialize (Hm s1 g1 (HP _ _ Hc H1)). simpl in *.
  destruct (m s1); try done. destruct Hm as (g' & ? & Hq). exists g'. split; [done|]. apply gs_ret. intros. by eapply HQ.
Qed.

(** A program that keeps a property in the first logic keeps it beside any ghost. *)
Lemma gs_rg {A} (R Gu : rt C -> rt C -> Prop) bad n (p : prog C A) s g (Q : A -> rt C -> Prop) (L : conf -> Prop) :
  (forall c c', L c -> Rely c c' -> L c' /\ R (fst c) (fst c')) ->
  (forall s s' g, L (s, g) -> Gu s s' -> L (s', g) /\ Guar (s, g) (s', g)) ->
  rg R Gu bad n p s Q -> L (s, g) -> gs n p (s, g) (fun a c => Q a (fst c) /\ L c).
Proof.
  intros HR HG. revert p s g. induction n as [|n IH]; intros p s g Hp HL; [done|].
  intros [s1 g1] H1. destruct (HR _ _ HL H1) as [HL1 Hs1]. specialize (Hp s1 Hs1). simpl in *.
  destruct (step p s1) as [p' s2|a| |w]; try done. destruct Hp as [Hg Hp]. destruct (HG s1 s2 g1 HL1 Hg) as [HL2 ?].
  exists g1. split; [done|]. by apply IH.
Qed.
End Logic.

(** ** Processes *)

Section Pool.
Context {C G : Type} `{PerfCounter C}.
Variables (E : env) (user : Z -> Z -> prog C unit).
Variables (Rely Guar : Z -> rt C * G -> rt C * G -> Prop) (Post : Z -> rt C * G -> Prop).
Context `{!forall i, Reflexive (Rely i)} `{!forall i, Transitive (Rely i)}.
Hypothesis compatible : forall i j c c', i <> j -> Guar i c c' -> Rely j c c'.
Hypothesis no_spawn : forall i c c', Guar i c c' -> spawned (pth (fst c)) = [] -> spawned (pth (fst c')) = [].

Definition pool_sim (n : nat) (p : process) (g : G) : Prop :=
  spawned (pth (state p)) = [] /\
  forall i t, threads p !! i = Some t -> gs (Rely i) (Guar i) n t (state p, g) (fun _ => Post i).

Lemma pool_sim_step n p g i p' : pool_sim (S n) p g -> thread_step E user i p = Some p' ->
  exists g', Guar i (state p, g) (state p', g') /\ pool_sim n p' g'.
Proof.
  intros [Hsp Hok] Hst. unfold thread_step in Hst. destruct (threads p !! i) as [t|] eqn:Ei; last first.
  { rewrite Hsp in Hst. rewrite bool_decide_eq_false_2 in Hst; [done|]. by rewrite elem_of_nil. }
  pose proof (Hok i t Ei (state p, g) ltac:(reflexivity)) as Hi. simpl in Hi.
  destruct (step t (state p)) as [t' s'| | |]; try done. injection Hst as <-. destruct Hi as (g' & HG & Hi).
  exists g'. split; [done|]. split; [by apply (no_spawn i (state p, g) (s', g'))|].
  intros j u Hj. cbn [threads state] in *. destruct (decide (j = i)) as [->|Hne].
  - rewrite lookup_insert_eq in Hj. injection Hj as <-. done.
  - rewrite lookup_insert_ne in Hj by done. eapply gs_stable; [done| |by eapply compatible].
    apply gs_weaken. by apply Hok.
Qed.

(** The ghost of an execution. *)
Lemma pool_sim_reachable p0 g0 p : (forall n, pool_sim n p0 g0) -> reachable E user p0 p ->
  forall n, exists g, rtc (fun c c' => exists i, Guar i c c') (state p0, g0) (state p, g) /\ pool_sim n p g.
Proof.
  intros Hp0 Hr. induction Hr as [|p1 p2 i Hr IH Hst]; intros n; [exists g0; by split|].
  destruct (IH (S n)) as (g & Hg & Hp). destruct (pool_sim_step n p1 g i p2 Hp Hst) as (g' & HG & Hp').
  exists g'. split; [|done]. eapply rtc_r; [exact Hg|]. by exists i.
Qed.
Lemma pool_sim_end p g i : pool_sim 1 p g -> threads p !! i = Some (Ret tt) -> Post i (state p, g).
Proof. intros [_ Hok] Hi. apply (Hok i (Ret tt) Hi (state p, g)). reflexivity. Qed.
End Pool.
