(* ===== verification/Determinism.v ===== *)
(** Determinism: threads that synchronise with [det_lock] and [det_unlock_and_incr_clock]
    and use shared variables under their mutexes compute the same result under every
    schedule, the one of the reference machine of [Machine].

    The proof simulates the machine (module [Ghost]): the machine's step of a thread is
    taken at one action of the code, its clock may run ahead of the clock of the thread,
    and between two actions of the thread that has the turn the mutex it is working on
    may differ from the machine's ([pending]). *)
From stdpp Require Import base list gmap sets relations strings.
From Stdlib Require Import ZArith Lia.
From S2P Require Import Prelude Queue Runtime Clock Sync Threads Samples Turn RelyGuarantee TurnSafety Machine Ghost.
Import Machine.
Open Scope m_scope.
Open Scope prog_scope.

(** What a thread that runs a task calls. *)
Fixpoint client {C} `{PerfCounter C} (E : env) (me : Z) (t : task) : prog C unit :=
  match t with
  | Finish => Ret tt
  | Compute n k => Act (compute me n) ;~ client E me k
  | Acquire x k => det_lock E me (AObj x) ;~ client E me k
  | Release x incr k => det_unlock_and_incr_clock me (AObj x) incr ;~ client E me k
  | Load x k => v <~ Act (gets (fun s => uvar s x)) ;; client E me (k v)
  | Store x v k => Act (modify (upd_uvar x (fun _ => v))) ;~ client E me k
  end.

(** The thread that has the turn has the [pthread_mutex_t] of a mutex that it is about to
    give back; or it has taken the mutex and is still in its queue. *)
Inductive pending := Nobody | Trying (j x : Z) | Popping (j x : Z).
Record ghost := mkGhost { mach : machine; pend : pending }.

Definition trying (p : pending) (y : Z) : option Z :=
  match p with Trying j x => if decide (y = x) then Some j else None | _ => None end.
Definition popping (p : pending) (y : Z) : list Z :=
  match p with Popping j x => if decide (y = x) then [j] else [] | _ => [] end.
Definition pend_of (j : Z) (p : pending) : pending :=
  match p with Trying i _ | Popping i _ => if decide (i = j) then p else Nobody | Nobody => Nobody end.

Section Protocol.
Context {C : Type} `{HC : PerfCounter C} `{!PerfCounterLaws C}.
Variable E : env.
(** The number of threads and the mutexes they use. *)
Variables (N : Z) (X : gset Z).
Hypothesis room : N < MAX_THR.
Implicit Types (s : rt C) (g : ghost) (c : rt C * ghost).

Abbreviation lock s x := (mutex s (AObj x)).

(** ** The link between a process and the machine *)

Record lock_linked s g (x : Z) : Prop := {
  ll_id : 0 < m_id (lock s x);
  ll_owner : 0 < ref (lock s x) -> m_holder (lock s x) = Some (owner (lock s x));
  ll_holder : match trying (pend g) x with
              | Some j => m_holder (lock s x) = Some j /\ holder (lock_of (mach g) x) = None
              | None => m_holder (lock s x) = holder (lock_of (mach g) x)
              end;
  ll_wf : Queue.wf (m_queue (lock s x));
  ll_size : Queue.size (m_queue (lock s x)) = MAX_THR;
  ll_queue : Queue.contents 0 (m_queue (lock s x)) = popping (pend g) x ++ waiters (lock_of (mach g) x);
  ll_released : holder (lock_of (mach g) x) = None ->
    released_logical_time (lock s x) = released (lock_of (mach g) x);
  ll_var : uvar s x = var_of (mach g) x
}.
Record thread_linked s g (i : Z) : Prop := {
  tl_time : exists t, thr (mach g) !! i = Some t /\ logical_time s i <= time t;
  tl_wf : clock_wf (worker s i);
  tl_fds : exists k, fds (worker s i) = FdsOpen k;
  tl_enabled : my_det_enabled (tlsv s i) = true
}.
Record linked c : Prop := {
  lk_ok : machine_ok X (mach (snd c));
  lk_dom i t : thr (mach (snd c)) !! i = Some t -> 0 <= i < N;
  lk_max : max_thr (glob (fst c)) = N;
  lk_num : 1 < num_thr (glob (fst c));
  lk_thread i : 0 <= i < N -> thread_linked (fst c) (snd c) i;
  lk_lock x : x ∈ X -> lock_linked (fst c) (snd c) x;
  lk_turn : match pend (snd c) with Nobody => True | Trying j _ | Popping j _ => has_turn (fst c) j end
}.

(** What the others leave alone of thread [j]. *)
Definition held_part (m : det_mutex) : option Z * Z * Z * Z := (m_holder m, owner m, ref m, released_logical_time m).
Record kept (j : Z) c c' : Prop := {
  k_worker : worker (fst c') j = worker (fst c) j;
  k_thr : thr (mach (snd c')) !! j = thr (mach (snd c)) !! j;
  k_time i : 0 <= i < N -> logical_time (fst c) i <= logical_time (fst c') i;
  k_lock x : x ∈ X -> m_holder (lock (fst c) x) = Some j -> held_part (lock (fst c') x) = held_part (lock (fst c) x);
  k_new x : x ∈ X -> m_holder (lock (fst c') x) = Some j -> m_holder (lock (fst c) x) = Some j;
  k_turn x : x ∈ X -> has_turn (fst c) j -> waiters (lock_of (mach (snd c')) x) = waiters (lock_of (mach (snd c)) x);
  k_pend : pend_of j (pend (snd c')) = pend_of j (pend (snd c))
}.

Definition Rely (i : Z) c c' : Prop := linked c -> linked c' /\ kept i c c'.
Definition Guar (i : Z) c c' : Prop :=
  spawned (pth (fst c')) = spawned (pth (fst c)) /\
  (linked c -> linked c' /\ (mach (snd c') = mach (snd c) \/ mstep i (mach (snd c)) = Some (mach (snd c'))) /\
    forall j, j <> i -> kept j c c').

Lemma kept_refl j c : kept j c c.
Proof. constructor; try done. Qed.
Lemma kept_turn j c c' : linked c -> linked c' -> kept j c c' -> has_turn (fst c) j -> has_turn (fst c') j.
Proof.
  intros L1 L2 K [Hj Ht]. unfold has_turn. rewrite (lk_max _ L1) in *. rewrite (lk_max _ L2). split; [done|].
  intros i Hi Hne. specialize (Ht i Hi Hne). pose proof (k_time _ _ _ K i Hi). unfold precedes, logical_time in *.
  rewrite (k_worker _ _ _ K). lia.
Qed.
#[export] Instance Rely_refl i : Reflexive (Rely i).
Proof. intros c Hc. split; [done|apply kept_refl]. Qed.
#[export] Instance Rely_trans i : Transitive (Rely i).
Proof.
  intros c1 c2 c3 H1 H2 L1. destruct (H1 L1) as [L2 K1]. destruct (H2 L2) as [L3 K2]. split; [done|].
  pose proof (kept_turn i c1 c2 L1 L2 K1) as Ht. destruct K1 as [A1 A2 A3 A4 A5 A6 A7], K2 as [B1 B2 B3 B4 B5 B6 B7]. constructor.
  - congruence.
  - congruence.
  - intros j Hj. etrans; [by apply A3|by apply B3].
  - intros x Hx Hh. pose proof (A4 x Hx Hh) as Ea. rewrite <- Ea. apply B4; [done|].
    apply (f_equal (fun p => fst (fst (fst p)))) in Ea. simpl in Ea. congruence.
  - auto.
  - intros x Hx Hu. rewrite B6 by auto. by apply A6.
  - congruence.
Qed.
#[export] Instance Guar_refl i : Reflexive (Guar i).
Proof. intros c. split; [done|]. intros Hc. split; [done|]. split; [by left|]. intros. apply kept_refl. Qed.
Lemma Guar_others i j c c' : i <> j -> Guar i c c' -> Rely j c c'.
Proof. intros Hne [_ HG] Hc. destruct (HG Hc) as (? & _ & Hk). split; [done|]. apply Hk. congruence. Qed.

Lemma has_turn_thread c j : linked c -> has_turn (fst c) j -> 0 <= j < N.
Proof. intros L [Hj _]. by rewrite (lk_max _ L) in Hj. Qed.

(** Only one thread has the turn, and only it is working on a mutex. *)
Lemma pend_mine me c : linked c -> has_turn (fst c) me -> pend (snd c) = pend_of me (pend (snd c)).
Proof.
  intros L Ht. pose proof (lk_turn _ L) as Hp. unfold pend_of.
  destruct (pend (snd c)) as [|j x|j x]; [done| |]; (rewrite decide_True; [done|by eapply has_turn_unique]).
Qed.

(** ** The steps of a thread *)

Section Thread.
Variable me : Z.

(** A change of the thread's own entry, of mutex [x], of its variable and of the machine. *)
Record change (x : Z) c c' : Prop := {
  ch_glob : max_thr (glob (fst c')) = max_thr (glob (fst c)) /\ num_thr (glob (fst c')) = num_thr (glob (fst c));
  ch_pth : spawned (pth (fst c')) = spawned (pth (fst c));
  ch_tls i : tlsv (fst c') i = tlsv (fst c) i;
  ch_worker i : i <> me -> worker (fst c') i = worker (fst c) i;
  ch_mach : mach (snd c') = mach (snd c) \/ mstep me (mach (snd c)) = Some (mach (snd c'));
  ch_me : thread_linked (fst c') (snd c') me;
  ch_time : logical_time (fst c) me <= logical_time (fst c') me;
  ch_other y : y <> x -> lock (fst c') y = lock (fst c) y /\ lock_of (mach (snd c')) y = lock_of (mach (snd c)) y /\
    uvar (fst c') y = uvar (fst c) y /\ var_of (mach (snd c')) y = var_of (mach (snd c)) y;
  ch_lock : x ∈ X -> lock_linked (fst c') (snd c') x;
  ch_holder : held_part (lock (fst c') x) = held_part (lock (fst c) x) \/
    forall j, j <> me -> m_holder (lock (fst c) x) <> Some j /\ m_holder (lock (fst c') x) <> Some j;
  ch_waiters : waiters (lock_of (mach (snd c')) x) = waiters (lock_of (mach (snd c)) x) \/ has_turn (fst c) me;
  ch_pend : (pend (snd c') = pend (snd c) /\ (pend_of me (pend (snd c)) = Nobody \/ logical_time (fst c') me = logical_time (fst c) me)) \/
    ((pend (snd c) = Nobody \/ pend (snd c) = Trying me x \/ pend (snd c) = Popping me x) /\
     (pend (snd c') = Nobody \/ (has_turn (fst c') me /\ (pend (snd c') = Trying me x \/ pend (snd c') = Popping me x))))
}.

Lemma mstep_inv m m' : mstep me m = Some m' -> exists t e, thr m !! me = Some t /\ effect_of m me t = Some e /\ m' = apply_effect me e m.
Proof.
  unfold mstep. destruct (thr m !! me) as [t|] eqn:Et; [|done]. destruct (effect_of m me t) as [e|] eqn:Ee; [|done].
  intros [= <-]. by exists t, e.
Qed.
Lemma change_thr x c c' j : change x c c' -> j <> me -> thr (mach (snd c')) !! j = thr (mach (snd c)) !! j.
Proof.
  intros Hc Hne. destruct (ch_mach _ _ _ Hc) as [->|Hm]; [done|]. apply mstep_inv in Hm as (t & e & _ & _ & ->).
  simpl. by rewrite lookup_insert_ne.
Qed.
Lemma change_time x c c' i : change x c c' -> logical_time (fst c) i <= logical_time (fst c') i.
Proof.
  intros Hc. destruct (decide (i = me)) as [->|Hne]; [apply Hc|]. unfold logical_time. rewrite (ch_worker _ _ _ Hc); done.
Qed.
(** Somebody else's turn is not taken by a step. *)
Lemma change_turn x c c' j : change x c c' -> (j <> me \/ logical_time (fst c') me = logical_time (fst c) me) ->
  has_turn (fst c) j -> has_turn (fst c') j.
Proof.
  intros Hc Hj [Hr Ht]. destruct (ch_glob _ _ _ Hc) as [Em _]. unfold has_turn. rewrite Em. split; [done|]. intros i Hi Hne.
  specialize (Ht i Hi Hne). pose proof (change_time x c c' i Hc).
  assert (logical_time (fst c') j = logical_time (fst c) j) as Ej.
  { destruct Hj as [Hj|Hj]; [unfold logical_time; by rewrite (ch_worker _ _ _ Hc)|]. destruct (decide (j = me)) as [->|]; [done|].
    unfold logical_time. by rewrite (ch_worker _ _ _ Hc). }
  unfold precedes in *. rewrite Ej. lia.
Qed.
Lemma change_pend x c c' y : change x c c' -> y <> x ->
  trying (pend (snd c')) y = trying (pend (snd c)) y /\ popping (pend (snd c')) y = popping (pend (snd c)) y.
Proof.
  intros Hc Hne. destruct (ch_pend _ _ _ Hc) as [[-> _]|[H1 H2]]; [done|].
  assert (forall p, p = Nobody \/ p = Trying me x \/ p = Popping me x -> trying p y = None /\ popping p y = []) as Hp.
  { intros p [->|[->| ->]]; simpl; rewrite ?decide_False by done; done. }
  destruct (Hp _ H1) as [-> ->]. apply Hp. destruct H2 as [|[_ []]]; auto.
Qed.

Lemma change_linked x c c' : 0 <= me < N -> change x c c' -> linked c -> linked c'.
Proof.
  intros Hme Hc L. pose proof L as [L1 L2 L3 L4 L5 L6 L7]. destruct (ch_glob _ _ _ Hc) as [G1 G2]. constructor.
  - destruct (ch_mach _ _ _ Hc) as [->|Hm]; [done|by eapply mstep_ok].
  - intros i t Hi. destruct (decide (i = me)) as [->|Hne]; [done|]. rewrite (change_thr x c c') in Hi by done. by eapply L2.
  - by rewrite G1.
  - by rewrite G2.
  - intros i Hi. destruct (decide (i = me)) as [->|Hne]; [apply Hc|]. destruct (L5 i Hi) as [T1 T2 T3 T4].
    constructor; unfold logical_time; rewrite ?(change_thr x c c'), ?(ch_worker _ _ _ Hc), ?(ch_tls _ _ _ Hc) by done; done.
  - intros y Hy. destruct (decide (y = x)) as [->|Hne]; [by apply Hc|]. destruct (ch_other _ _ _ Hc y Hne) as (E1 & E2 & E3 & E4).
    destruct (change_pend x c c' y Hc Hne) as [P1 P2]. destruct (L6 y Hy). constructor; rewrite ?E1, ?E2, ?E3, ?E4, ?P1, ?P2; done.
  - destruct (ch_pend _ _ _ Hc) as [[-> Hn]|[_ [->|[Ht [->| ->]]]]]; [|done..].
    destruct (pend (snd c)) as [|j y|j y] eqn:Ep; [done| |]; (eapply change_turn; [exact Hc| |done]);
      simpl in Hn; (destruct Hn as [Hn|Hn]; [|by right]); case_decide; [done|by left|done|by left].
Qed.
Lemma change_kept x c c' j : linked c -> change x c c' -> j <> me -> kept j c c'.
Proof.
  intros L Hc Hne. constructor.
  - by apply (ch_worker _ _ _ Hc).
  - by eapply change_thr.
  - intros. by eapply change_time.
  - intros y Hy Hh. destruct (decide (y = x)) as [->|Hy']; [|by destruct (ch_other _ _ _ Hc y Hy') as [-> _]].
    destruct (ch_holder _ _ _ Hc) as [|Hn]; [done|]. by destruct (Hn j Hne) as [[] _].
  - intros y Hy Hh. destruct (decide (y = x)) as [->|Hy']; [|by destruct (ch_other _ _ _ Hc y Hy') as [<- _]].
    destruct (ch_holder _ _ _ Hc) as [Eh|Hn]; [by injection Eh as <- _|]. by destruct (Hn j Hne) as [_ []].
  - intros y Hy Ht. destruct (decide (y = x)) as [->|Hy']; [|by destruct (ch_other _ _ _ Hc y Hy') as (_ & -> & _)].
    destruct (ch_waiters _ _ _ Hc) as [|Hm]; [done|]. destruct Hne. by eapply has_turn_unique.
  - destruct (ch_pend _ _ _ Hc) as [[-> _]|[H1 H2]]; [done|].
    assert (forall p, p = Nobody \/ p = Trying me x \/ p = Popping me x -> pend_of j p = Nobody) as Hp.
    { intros p [->|[->| ->]]; simpl; rewrite ?decide_False by done; done. }
    rewrite (Hp _ H1). apply Hp. destruct H2 as [|[_ []]]; auto.
Qed.
Lemma change_Guar x c c' : 0 <= me < N -> change x c c' -> Guar me c c'.
Proof.
  intros Hme Hc. split; [apply Hc|]. intros L. split; [by eapply change_linked|]. split; [apply Hc|].
  intros. by eapply change_kept.
Qed.

(** ** What a thread knows *)

Hypothesis me_ok : 0 <= me < N.

(** The mutexes the thread has: their owner, count and release time. *)
Abbreviation hold := (Z -> option (Z * Z * Z)).
Definition put (F : hold) (x : Z) (v : option (Z * Z * Z)) : hold := fun y => if decide (y = x) then v else F y.
Definition has (F : hold) s : Prop := forall y, y ∈ X ->
  match F y with
  | Some (o, r, rel) => held_part (lock s y) = (Some me, o, r, rel)
  | None => m_holder (lock s y) <> Some me
  end.

(** The thread has no turn, has it, or has it and is at the head of a queue. *)
Inductive mode := Free | InTurn | AtHead (x : Z).
Definition in_mode (md : mode) c : Prop :=
  match md with
  | Free => True
  | InTurn => has_turn (fst c) me
  | AtHead x => has_turn (fst c) me /\ x ∈ X /\ head (waiters (lock_of (mach (snd c)) x)) = Some me
  end.
Record view (md : mode) (w : worker_args C) (t : thread) (pd : pending) (F : hold) c : Prop := {
  v_linked : linked c;
  v_worker : worker (fst c) me = w;
  v_thr : thr (mach (snd c)) !! me = Some t;
  v_pend : pend_of me (pend (snd c)) = pd;
  v_has : has F (fst c);
  v_mode : in_mode md c
}.

Lemma view_worker md w t pd F s g : view md w t pd F (s, g) -> worker s me = w.
Proof. apply v_worker. Qed.
Lemma view_stable md w t pd F c c' : view md w t pd F c -> Rely me c c' -> view md w t pd F c'.
Proof.
  intros [V1 V2 V3 V4 V5 V6] HR. destruct (HR V1) as [L K]. constructor; [done|..].
  - by rewrite (k_worker _ _ _ K).
  - by rewrite (k_thr _ _ _ K).
  - by rewrite (k_pend _ _ _ K).
  - intros y Hy. specialize (V5 y Hy). destruct (F y) as [[[o r] rel]|].
    + rewrite <- V5. apply (k_lock _ _ _ K); [done|]. by injection V5 as -> _ _ _.
    + intros Hh. by apply V5, (k_new _ _ _ K).
  - destruct md as [| |x]; simpl in *; [done|by apply (kept_turn me c c')|]. destruct V6 as (Ht & Hx & Hh).
    split; [by apply (kept_turn me c c')|]. split; [done|]. by rewrite (k_turn _ _ _ K).
Qed.

Lemma change_sim x s s' g : linked (s, g) -> s ≈ s' -> change x (s, g) (s', g).
Proof.
  intros L Es. pose proof (lk_thread _ L me me_ok) as [T1 T2 T3 T4]. simpl in *.
  assert (forall y, y ∈ X -> lock_linked s' g y) as HL.
  { intros y Hy. destruct (lk_lock _ L y Hy). constructor; rewrite <- ?(sim_mutex _ _ Es), <- ?(sim_uvar _ _ Es); done. }
  constructor; simpl; rewrite <- ?(sim_glob _ _ Es), <- ?(sim_pth _ _ Es), <- ?(logical_time_sim _ _ _ Es), <- ?(sim_mutex _ _ Es); auto; try done.
  - intros. by rewrite (sim_tls _ _ Es).
  - intros. by rewrite (sim_worker _ _ Es).
  - constructor; rewrite <- ?(logical_time_sim _ _ _ Es), <- ?(sim_worker _ _ Es), <- ?(sim_tls _ _ Es); done.
  - intros. by rewrite (sim_mutex _ _ Es), (sim_uvar _ _ Es).
Qed.
Lemma view_sim md w t pd F s s' g : s ≈ s' -> view md w t pd F (s, g) -> view md w t pd F (s', g).
Proof.
  intros Es [V1 V2 V3 V4 V5 V6]. constructor; simpl in *; try done.
  - eapply change_linked; [done|by apply (change_sim 0)|done].
  - by rewrite <- (sim_worker _ _ Es).
  - intros y Hy. rewrite <- (sim_mutex _ _ Es). by apply V5.
  - destruct md; simpl in *; [done|by eapply has_turn_sim|]. destruct V6. split; [by eapply has_turn_sim|done].
Qed.
Lemma change_sim_r x c s s' g : s ≈ s' -> change x c (s, g) -> change x c (s', g).
Proof.
  intros Es []. simpl in *. constructor; simpl; rewrite <- ?(sim_glob _ _ Es), <- ?(sim_pth _ _ Es), <- ?(logical_time_sim _ _ _ Es), <- ?(sim_mutex _ _ Es); try done.
  - intros. rewrite <- (sim_tls _ _ Es). auto.
  - intros. rewrite <- (sim_worker _ _ Es). auto.
  - destruct ch_me0. constructor; rewrite <- ?(logical_time_sim _ _ _ Es), <- ?(sim_worker _ _ Es), <- ?(sim_tls _ _ Es); done.
  - intros. rewrite <- (sim_mutex _ _ Es), <- (sim_uvar _ _ Es). auto.
  - intros Hx. destruct (ch_lock0 Hx). constructor; rewrite <- ?(sim_mutex _ _ Es), <- ?(sim_uvar _ _ Es); done.
  - destruct ch_pend0 as [|[? [|[? ?]]]]; [by left|right; auto..]. split; [done|]. right. split; [by eapply has_turn_sim|done].
Qed.

Abbreviation gs := (gs (Rely me) (Guar me)).

(** One action of the thread: what it changes, and what the thread knows then. *)
Lemma gs_change {A} n (m : M C A) c md w t pd F (Q : A -> rt C * ghost -> Prop) :
  (forall a c c', Q a c -> Rely me c c' -> Q a c') ->
  (forall a s s' g, Q a (s, g) -> s ≈ s' -> Q a (s', g)) ->
  (forall s g, view md w t pd F (s, g) -> match m s with
     | Ok a s' => exists x s0 g', s' ≈ s0 /\ change x (s, g) (s0, g') /\ (linked (s0, g') -> Q a (s0, g'))
     | _ => True end) ->
  view md w t pd F c -> gs n (Act m) c Q.
Proof.
  intros HQ HE Hm. apply gs_act; [by apply view_stable|done|]. intros s g V. specialize (Hm s g V).
  destruct (m s) as [a s'| |]; [|done..]. destruct Hm as (x & s0 & g' & Es & Hc & Hq). exists g'.
  apply (change_sim_r x (s, g) s0 s' g' ltac:(by symmetry)) in Hc as Hc'.
  split; [by eapply change_Guar|]. eapply HE; [apply Hq|by symmetry]. eapply change_linked; [done|exact Hc|apply V].
Qed.
Lemma gs_view {A} n (m : M C A) c md w t pd F (S : A -> mode -> worker_args C -> thread -> pending -> hold -> Prop) :
  (forall s g, view md w t pd F (s, g) -> match m s with
     | Ok a s' => exists x s0 g' md' w' t' pd' F', s' ≈ s0 /\ change x (s, g) (s0, g') /\ S a md' w' t' pd' F' /\
         (linked (s0, g') -> view md' w' t' pd' F' (s0, g'))
     | _ => True end) ->
  view md w t pd F c ->
  gs n (Act m) c (fun a c' => exists md' w' t' pd' F', S a md' w' t' pd' F' /\ view md' w' t' pd' F' c').
Proof.
  intros Hm. apply gs_change.
  - intros a c1 c2 (md' & w' & t' & pd' & F' & HS & V) HR. exists md', w', t', pd', F'. split; [done|]. by eapply view_stable.
  - intros a s1 s2 g (md' & w' & t' & pd' & F' & HS & V) HR. exists md', w', t', pd', F'. split; [done|]. by eapply view_sim.
  - intros s g V. specialize (Hm s g V). destruct (m s) as [a s'| |]; [|done..].
    destruct Hm as (x & s0 & g' & md' & w' & t' & pd' & F' & ? & ? & ? & ?). exists x, s0, g'. split_and!; try done.
    intros L. exists md', w', t', pd', F'. auto.
Qed.

(** Actions that change nothing but reports. *)
Lemma gs_quiet {A} n (m : M C A) c md w t pd F (Φ : A -> Prop) :
  (forall s g, view md w t pd F (s, g) -> match m s with Ok a s' => s' ≈ s /\ Φ a | _ => True end) ->
  view md w t pd F c -> gs n (Act m) c (fun a c' => view md w t pd F c' /\ Φ a).
Proof.
  intros Hm V0. eapply gs_conseq; [apply (gs_view n m c md w t pd F (fun a md' w' t' pd' F' => md' = md /\ w' = w /\ t' = t /\ pd' = pd /\ F' = F /\ Φ a)); [|done]|].
  - intros s g V. specialize (Hm s g V). destruct (m s) as [a s'| |]; [|done..]. destruct Hm as [Es Ha].
    exists 0, s, g, md, w, t, pd, F. split; [done|]. split; [apply change_sim; [apply V|done]|]. done.
  - intros a c' (md' & w' & t' & pd' & F' & (-> & -> & -> & -> & -> & ?) & ?). done.
Qed.
Lemma gs_gets {A} n (f : rt C -> A) c md w t pd F (Φ : A -> Prop) :
  (forall s g, view md w t pd F (s, g) -> Φ (f s)) ->
  view md w t pd F c -> gs n (Act (gets f)) c (fun a c' => view md w t pd F c' /\ Φ a).
Proof. intros Hf. apply gs_quiet. intros s g V. simpl. split; [done|]. by eapply Hf. Qed.
Lemma gs_DBG n l f a c md w t pd F : hw_clock_enabled w = false -> view md w t pd F c ->
  gs n (Act (DBG me l f a)) c (fun _ c' => view md w t pd F c').
Proof.
  intros Hw V0. eapply gs_conseq; [apply (gs_quiet n _ c md w t pd F (fun _ => True)); [|done]|by intros ? ? []].
  intros s g V. destruct (DBG_returns me l f a s) as (s' & -> & Es); [|done]. by rewrite (view_worker _ _ _ _ _ _ _ V).
Qed.

(** *** The clock of the thread *)

Lemma view_entry md w t pd F c : view md w t pd F c -> clock_wf w /\ (exists k, fds w = FdsOpen k) /\ worker_time w <= time t.
Proof.
  intros V. destruct (lk_thread _ (v_linked _ _ _ _ _ _ V) me me_ok) as [(t' & Ht & Hl) T2 T3 T4].
  rewrite (v_thr _ _ _ _ _ _ V) in Ht. injection Ht as <-. unfold logical_time in Hl. rewrite (v_worker _ _ _ _ _ _ V) in *. done.
Qed.

(** The machine's step, if any, changes the thread alone. *)
Lemma change_local md md' w w' t t' pd F s g :
  view md w t pd F (s, g) -> clock_wf w' -> (exists k, fds w' = FdsOpen k) -> worker_time w <= worker_time w' <= time t' ->
  (worker_time w' = worker_time w /\ md' = md) \/ (pd = Nobody /\ md' = Free) ->
  t' = t \/ effect_of (mach g) me t = Some (mkEffect t' None None) ->
  exists g', change 0 (s, g) (upd_worker me (fun _ => w') s, g') /\
    (linked (upd_worker me (fun _ => w') s, g') -> view md' w' t' pd F (upd_worker me (fun _ => w') s, g')).
Proof.
  intros V Hwf Hf Ht Hmd He. pose proof V as [V1 V2 V3 V4 V5 V6]. simpl in *.
  assert (exists m', thr m' !! me = Some t' /\ (m' = mach g \/ mstep me (mach g) = Some m') /\
    (forall y, lock_of m' y = lock_of (mach g) y) /\ (forall y, var_of m' y = var_of (mach g) y)) as (m' & M1 & M2 & M3 & M4).
  { destruct He as [->|He]; [exists (mach g); auto|]. exists (apply_effect me (mkEffect t' None None) (mach g)). split_and!; try done.
    - simpl. by rewrite lookup_insert_eq.
    - right. unfold mstep. by rewrite V3, He. }
  assert (logical_time s me = worker_time w) as Ew by (unfold logical_time; by rewrite V2).
  assert (logical_time (upd_worker me (fun _ => w') s) me = worker_time w') as Ew' by (unfold logical_time; by rewrite worker_upd_eq).
  assert (change 0 (s, g) (upd_worker me (fun _ => w') s, mkGhost m' (pend g))) as Hc.
  { constructor; simpl; repeat rt_frame; try done; rewrite ?Ew, ?Ew'.
    - intros. by rewrite worker_upd_ne.
    - constructor; repeat rt_frame; rewrite ?worker_upd_eq, ?Ew'; try done; [exists t'; by split; [|lia]|]. apply (lk_thread _ V1 me me_ok).
    - lia.
    - intros Hx0. destruct (lk_lock _ V1 0 Hx0). simpl in *. constructor; repeat rt_frame; simpl; rewrite ?M3, ?M4; done.
    - by left.
    - left. by rewrite M3.
    - left. split; [done|]. destruct Hmd as [[? _]|[-> _]]; auto. }
  eexists. split; [exact Hc|]. intros L. constructor; simpl; try done.
  - by rewrite worker_upd_eq.
  - destruct Hmd as [[Et ->]|[_ ->]]; [|done]. destruct md as [| |x]; simpl in *; [done| |].
    + apply (change_turn 0 (s, g) _ me Hc); [right; by etrans; [exact Ew'|etrans; [exact Et|]]|done].
    + destruct V6 as (? & ? & ?). split; [|by rewrite M3]. apply (change_turn 0 (s, g) _ me Hc); [right; by etrans; [exact Ew'|etrans; [exact Et|]]|done].
Qed.

Lemma gs_worker {A} n (m : M C A) a c md md' w f t pd F :
  (forall s, worker s me = w -> returns m s a (upd_worker me f s)) ->
  clock_wf (f w) -> (exists k, fds (f w) = FdsOpen k) -> worker_time w <= worker_time (f w) <= time t ->
  (worker_time (f w) = worker_time w /\ md' = md) \/ (pd = Nobody /\ md' = Free) ->
  view md w t pd F c -> gs n (Act m) c (fun b c' => b = a /\ view md' (f w) t pd F c').
Proof.
  intros Hm Hwf Hf Ht Hmd. apply gs_change.
  - intros b c1 c2 [-> V] HR. split; [done|]. by eapply view_stable.
  - intros b s1 s2 g [-> V] Es. split; [done|]. by eapply view_sim.
  - intros s g V. pose proof (view_worker _ _ _ _ _ _ _ V) as Ew. destruct (Hm s Ew) as (s' & -> & Es).
    destruct (change_local md md' w (f w) t t pd F s g) as (g' & Hc & Hv); auto.
    exists 0, (upd_worker me (fun _ => f w) s), g'. split; [|by auto]. rewrite Es. apply upd_worker_ext. by rewrite Ew.
Qed.

Lemma stop_open w : (exists k, fds w = FdsOpen k) -> exists k, fds (stop_clock w) = FdsOpen k.
Proof. intros [k Hk]. unfold stop_clock. rewrite Hk. destruct (hw_clock_enabled w); simpl; eauto. Qed.
Lemma start_open w : (exists k, fds w = FdsOpen k) -> exists k, fds (start_clock w) = FdsOpen k.
Proof. intros [k Hk]. unfold start_clock. rewrite Hk. destruct (hw_clock_enabled w); simpl; eauto. Qed.

Lemma gs_disable n c md w t pd F : view md w t pd F c ->
  gs n (Act (disable_logical_clock me)) c (fun b c' => b = pause_ret w /\ view md (stop_clock w) t pd F c').
Proof.
  intros V. destruct (view_entry _ _ _ _ _ _ V) as (Hwf & Ho & Ht). apply (gs_worker _ _ _ _ md); [..|done].
  - intros s <-. by apply disable_returns.
  - by apply stop_clock_wf.
  - by apply stop_open.
  - rewrite stop_clock_time. lia.
  - left. split; [apply stop_clock_time|done].
Qed.
Lemma gs_resume n c md w t pd F : view md w t pd F c ->
  gs n (Act (resume_logical_clock me 0)) c (fun _ c' => view md (start_clock w) t pd F c').
Proof.
  intros V. destruct (view_entry _ _ _ _ _ _ V) as (Hwf & Ho & Ht).
  eapply gs_conseq; [apply (gs_worker _ _ tt _ md md w start_clock); [..|done]|by intros ? ? []].
  - intros s <-. apply (resume_returns me 0). by destruct Ho as [k ->].
  - by apply start_clock_wf.
  - by apply start_open.
  - rewrite start_clock_time by done. lia.
  - left. split; [by apply start_clock_time|done].
Qed.
Lemma gs_incr n k c md w t F : view md w t Nobody F c -> 0 <= k -> worker_time w + k <= time t ->
  gs n (Act (incr_sw_clock me k)) c (fun _ c' => view Free (tick k w) t Nobody F c').
Proof.
  intros V Hk Ht. destruct (view_entry _ _ _ _ _ _ V) as (Hwf & Ho & _).
  eapply gs_conseq; [apply (gs_worker _ _ tt _ md Free w (tick k)); [..|done]|by intros ? ? []].
  - intros s _. by eexists.
  - by apply tick_wf.
  - done.
  - rewrite tick_time. lia.
  - auto.
Qed.

(** *** Waiting for the turn *)

Lemma Rely_forward c c' : linked c -> Rely me c c' -> forward me (fst c) (fst c').
Proof.
  intros L HR. destruct (HR L) as [L' K]. constructor; rewrite ?(lk_max _ L), ?(lk_max _ L').
  - apply K.
  - intros _ i Hi. apply (lk_thread _ L' i Hi).
  - lia.
  - intros i Hi _. by apply (k_time _ _ _ K).
  - intros; lia.
Qed.
Lemma gs_wait n c w t F : hw_clock_enabled w = false -> view Free w t Nobody F c ->
  gs n (wait_for_turn me) c (fun v c' => v = worker_time w /\ view InTurn w t Nobody F c').
Proof.
  intros Hw V. destruct c as [s g]. pose proof (view_worker _ _ _ _ _ _ _ V) as Ew.
  eapply gs_conseq; [apply (gs_rg (Rely me) (Guar me) (forward me) sim (fun _ => True) n _ s g
    (fun v s' => v = worker_time w /\ turn_at me (worker_time w) s') (view Free w t Nobody F))|].
  - intros c c' V1 HR. split; [by eapply view_stable|]. apply Rely_forward; [apply V1|done].
  - intros s1 s2 g1 V1 Es. split; [by eapply view_sim|]. eapply change_Guar; [done|]. apply (change_sim 0); [apply V1|done].
  - apply rg_wait. split; [|unfold logical_time; by rewrite Ew]. pose proof (v_linked _ _ _ _ _ _ V) as L.
    pose proof (lk_max _ L) as Em. simpl in Em. constructor; rewrite ?Em, ?Ew; [done..|]. intros i Hi. apply (lk_thread _ L i Hi).
  - done.
  - simpl. intros v [s' g'] [[-> [_ Ht]] [V1 V2 V3 V4 V5 V6]]. done.
Qed.

(** The thread that has the turn comes first in the machine. *)
Lemma turn_first c w t pd F : view InTurn w t pd F c -> worker_time w = time t -> first (mach (snd c)) me (time t) = true.
Proof.
  intros V Ew. pose proof (v_linked _ _ _ _ _ _ V) as L. destruct (v_mode _ _ _ _ _ _ V) as [_ Ht]. rewrite (lk_max _ L) in Ht.
  apply bool_decide_eq_true. intros j u Hj. destruct (decide (j = me)) as [|Hne]; [by left|right].
  pose proof (lk_dom _ L j u Hj) as Hr. specialize (Ht j Hr Hne). destruct (lk_thread _ L j Hr) as [(u' & Hu & Hl) _ _ _].
  rewrite Hj in Hu. injection Hu as <-. unfold precedes in Ht. unfold logical_time at 1 3 in Ht. rewrite (v_worker _ _ _ _ _ _ V) in Ht.
  unfold before. lia.
Qed.

(** *** The mutexes *)

Lemma lock_upd x f s y : lock (upd_mutex (AObj x) f s) y = if decide (y = x) then f (lock s x) else lock s y.
Proof. rewrite mutex_upd. repeat case_decide; congruence. Qed.
Lemma lock_upd_eq x f s : lock (upd_mutex (AObj x) f s) x = f (lock s x).
Proof. by rewrite lock_upd, decide_True. Qed.

(** An update of mutex [x], with or without a step of the machine. *)
Lemma mutex_step x f md md' w t t' pd F v m' p' s g :
  let s' := upd_mutex (AObj x) f s in let g' := mkGhost m' p' in
  view md w t pd F (s, g) -> x ∈ X ->
  (m' = mach g \/ mstep me (mach g) = Some m') -> thr m' !! me = Some t' -> time t <= time t' ->
  (forall y, y <> x -> lock_of m' y = lock_of (mach g) y) -> (forall y, var_of m' y = var_of (mach g) y) ->
  lock_linked s' g' x ->
  (held_part (f (lock s x)) = held_part (lock s x) \/
   forall j, j <> me -> m_holder (lock s x) <> Some j /\ m_holder (f (lock s x)) <> Some j) ->
  (waiters (lock_of m' x) = waiters (lock_of (mach g) x) \/ has_turn s me) ->
  (p' = pend g \/ ((pend g = Nobody \/ pend g = Trying me x \/ pend g = Popping me x) /\
    (p' = Nobody \/ (has_turn s me /\ (p' = Trying me x \/ p' = Popping me x))))) ->
  match v with
  | Some (o, r, rel) => held_part (f (lock s x)) = (Some me, o, r, rel)
  | None => m_holder (f (lock s x)) <> Some me
  end ->
  in_mode md' (s', g') ->
  change x (s, g) (s', g') /\ (linked (s', g') -> view md' w t' (pend_of me p') (put F x v) (s', g')).
Proof.
  intros s' g' V Hx Hm Ht Hle Hl Hv HL Hh Hw Hp Hf Hmd. pose proof V as [V1 V2 V3 V4 V5 V6]. simpl in *.
  destruct (lk_thread _ V1 me me_ok) as [(u & Hu & Hul) T2 T3 T4]. simpl in *. rewrite V3 in Hu. injection Hu as <-. split.
  - constructor; simpl; unfold s'; repeat rt_frame; rewrite ?lock_upd_eq; try done.
    + constructor; simpl; repeat rt_frame; try done. exists t'. split; [done|]. change (logical_time s me <= time t'). lia.
    + intros y Hy. rewrite lock_upd, decide_False by done. auto.
    + destruct Hp as [Hp|Hp]; [left|by right]. auto.
  - intros L. constructor; simpl; try done. intros y Hy. unfold put, s'. rewrite lock_upd. case_decide; [done|by apply V5].
Qed.

Lemma gs_mutex {A} n (m : M C A) c md w t pd F (Q : A -> rt C * ghost -> Prop) x :
  (forall a c c', Q a c -> Rely me c c' -> Q a c') ->
  (forall a s s' g, Q a (s, g) -> s ≈ s' -> Q a (s', g)) ->
  (forall s g, view md w t pd F (s, g) ->
     exists a s' g', m s = Ok a s' /\ change x (s, g) (s', g') /\ (linked (s', g') -> Q a (s', g'))) ->
  view md w t pd F c -> gs n (Act m) c Q.
Proof.
  intros HQ HE Hm. apply gs_change; [done..|]. intros s g V. destruct (Hm s g V) as (a & s' & g' & -> & ? & ?). by exists x, s', g'.
Qed.

(** Updates of a mutex the thread has. *)
Lemma gs_hold n f c md w t pd F x o r rel o' r' rel' : x ∈ X -> F x = Some (o, r, rel) -> pd <> Trying me x ->
  (forall m, m_id (f m) = m_id m /\ m_queue (f m) = m_queue m /\
    (held_part m = (Some me, o, r, rel) -> held_part (f m) = (Some me, o', r', rel'))) ->
  (0 < r' -> o' = me) ->
  view md w t pd F c ->
  gs n (Act (modify (upd_mutex (AObj x) f))) c (fun _ c' => view md w t pd (put F x (Some (o', r', rel'))) c').
Proof.
  intros Hx HF Hpd Hf Hr. apply (gs_mutex _ _ _ _ _ _ _ _ _ x).
  - intros _. apply view_stable.
  - intros. by eapply view_sim.
  - intros s g V. pose proof V as [V1 V2 V3 V4 V5 V6]. simpl in *. destruct (Hf (lock s x)) as (F1 & F2 & F3).
    pose proof (V5 x Hx) as Hh. rewrite HF in Hh. specialize (F3 Hh). injection Hh as H1 H2 H3 H4. injection F3 as G1 G2 G3 G4.
    destruct (lk_lock _ V1 x Hx) as [L1 L2 L3 L4 L5 L6 L7 L8]. simpl in *.
    assert (trying (pend g) x = None) as Et.
    { destruct (pend g) as [|j y|j y]; simpl in *; try done. case_decide as E1; [subst y|done]. destruct L3 as [L3 _]. rewrite H1 in L3. injection L3 as <-.
      rewrite decide_True in V4 by done. congruence. }
    rewrite Et in L3. assert (pd = pend_of me (pend g)) as -> by done. eexists tt, _, (mkGhost (mach g) (pend g)). split; [reflexivity|]. eapply mutex_step; try done; auto.
    + constructor; simpl; repeat rt_frame; rewrite ?lock_upd_eq, ?F1, ?F2, ?Et, ?G1, ?G2, ?G3; try done; [|congruence|congruence].
      intros Hp. rewrite Hr; done.
    + right. intros j Hj. rewrite H1, G1. split; congruence.
    + unfold held_part. congruence.
Qed.

(** The machine's steps of a thread that acquires mutex [x]. *)
Definition queued_up (t : thread) : thread := mkThread (time t) true (held t) (todo t).
Definition failed (t : thread) : thread := at_time t (time t + 1) (todo t).
Definition won (x : Z) (k : task) (t : thread) : thread := mkThread (time t + 1) false ({[x]} ∪ held t) k.

Lemma mstep_effect m t e : thr m !! me = Some t -> effect_of m me t = Some e -> mstep me m = Some (apply_effect me e m).
Proof. intros Ht He. unfold mstep. by rewrite Ht, He. Qed.
Lemma apply_thr e m : thr (apply_effect me e m) !! me = Some (new_thread e).
Proof. simpl. by rewrite lookup_insert_eq. Qed.
Lemma view_no_pend c md w t F : view md w t Nobody F c -> has_turn (fst c) me -> pend (snd c) = Nobody.
Proof. intros V Ht. rewrite (pend_mine me c (v_linked _ _ _ _ _ _ V) Ht). apply V. Qed.
Lemma turn_of c md w t pd F : view md w t pd F c -> md <> Free -> has_turn (fst c) me.
Proof. intros V. pose proof (v_mode _ _ _ _ _ _ V) as Hm. destruct md; [done|done|]. by destruct Hm. Qed.

(** There is room for a thread that is not in the queue. *)
Lemma queue_room c x : linked c -> x ∈ X -> me ∉ waiters (lock_of (mach (snd c)) x) ->
  Z.of_nat (length (waiters (lock_of (mach (snd c)) x))) < MAX_THR - 1.
Proof.
  intros L Hx Hn. assert (NoDup (me :: waiters (lock_of (mach (snd c)) x))) as Hd.
  { apply NoDup_cons. split; [done|]. apply (ok_waiters _ _ (lk_ok _ L)). }
  assert (me :: waiters (lock_of (mach (snd c)) x) ⊆+ seqZ 0 N) as Hs.
  { apply NoDup_submseteq; [done|]. intros j Hj. apply elem_of_seqZ. apply elem_of_cons in Hj as [->|Hj]; [lia|].
    apply (ok_waiting _ _ (lk_ok _ L)) in Hj as (u & k & Hu & _). apply (lk_dom _ L) in Hu. lia. }
  apply submseteq_length in Hs. rewrite length_seqZ in Hs. simpl in Hs. lia.
Qed.

Section Acquiring.
Variables (x : Z) (k : task).
Hypothesis x_in : x ∈ X.

Lemma put_same F v y : F x = v -> put F x v y = F y.
Proof. intros <-. unfold put. by case_decide; subst. Qed.
Lemma view_put md w t pd F v c : F x = v -> view md w t pd (put F x v) c -> view md w t pd F c.
Proof.
  intros HF [V1 V2 V3 V4 V5 V6]. constructor; try done. intros y Hy. specialize (V5 y Hy). by rewrite put_same in V5.
Qed.

Lemma gs_AddQ n c w t F : todo t = Acquire x k -> queued t = false -> worker_time w = time t -> F x = None ->
  view InTurn w t Nobody F c ->
  gs n (Act (mutex_AddQ me (AObj x))) c (fun _ c' => view InTurn w (queued_up t) Nobody F c').
Proof.
  intros Ha Hq Hw HF. apply (gs_mutex _ _ _ _ _ _ _ _ _ x).
  - intros _. apply view_stable.
  - intros. by eapply view_sim.
  - intros s g V. pose proof V as [V1 V2 V3 V4 V5 V6]. simpl in *. pose proof (view_no_pend _ _ _ _ _ V V6) as Ep. simpl in Ep.
    destruct (lk_lock _ V1 x x_in) as [L1 L2 L3 L4 L5 L6 L7 L8]. simpl in *. rewrite Ep in L3, L6. simpl in *.
    assert (me ∉ waiters (lock_of (mach g) x)) as Hn.
    { eapply (not_waiting X (mach g) me t x); [apply (lk_ok _ V1)|done|]. by rewrite Hq. }
    pose proof (queue_room _ x V1 x_in Hn) as Hr. simpl in Hr.
    destruct (Queue.AddQ_spec 0 (m_queue (lock s x)) me L4) as (r & q & Eq & Q1 & Q2 & Q3).
    unfold Queue.spec_add in Q3. rewrite decide_False in Q3 by (rewrite L6; unfold Queue.capacity; rewrite L5; lia). injection Q3 as -> Q3.
    set (e := mkEffect (queued_up t) (Some (x, mkLock (holder (lock_of (mach g) x)) (released (lock_of (mach g) x)) (waiters (lock_of (mach g) x) ++ [me]))) None).
    assert (effect_of (mach g) me t = Some e) as He.
    { unfold effect_of, e, queued_up. rewrite Ha, Hq. pose proof (turn_first _ _ _ _ _ V Hw) as Hf. simpl in Hf. by rewrite Hf. }
    exists 1, (upd_mutex (AObj x) (set_m_queue q) s), (mkGhost (apply_effect me e (mach g)) Nobody).
    split; [unfold mutex_AddQ, mbind, gets; by rewrite Eq|].
    destruct (mutex_step x (set_m_queue q) InTurn InTurn w t (queued_up t) Nobody F None (apply_effect me e (mach g)) Nobody s g) as [Hc Hv]; try done; auto.
    + right. by apply mstep_effect with t.
    + apply apply_thr.
    + intros y Hy. rewrite lock_of_apply. simpl. by rewrite decide_False.
    + constructor; simpl; repeat rt_frame; rewrite ?lock_upd_eq, ?lock_of_apply; simpl; rewrite ?decide_True by done; simpl; try done; [congruence|by rewrite Q3, L6].
    + pose proof (V5 x x_in) as Hh. by rewrite HF in Hh.
    + split; [done|]. intros L. eapply view_put; [exact HF|]. by apply Hv.
Qed.

(** The effect of a try. *)
Lemma attempt_fails m t : todo t = Acquire x k -> queued t = true -> first m me (time t) = true ->
  ~ (head (waiters (lock_of m x)) = Some me /\ holder (lock_of m x) = None /\ released (lock_of m x) < time t) ->
  effect_of m me t = Some (mkEffect (failed t) None None).
Proof. intros Ha Hq Hf Hn. unfold effect_of, attempt. rewrite Ha, Hf, Hq, bool_decide_false by done. unfold failed. by rewrite Ha. Qed.

(** A try that fails at an action that changes nothing. *)
Lemma view_failed c w t F : todo t = Acquire x k -> queued t = true -> worker_time w = time t -> view InTurn w t Nobody F c ->
  ~ (head (waiters (lock_of (mach (snd c)) x)) = Some me /\ holder (lock_of (mach (snd c)) x) = None /\ released (lock_of (mach (snd c)) x) < time t) ->
  exists y s0 g', fst c ≈ s0 /\ change y c (s0, g') /\ (linked (s0, g') -> view InTurn w (failed t) Nobody F (s0, g')).
Proof.
  intros Ha Hq Hw V Hn. destruct c as [s g]. destruct (view_entry _ _ _ _ _ _ V) as (Hwf & Ho & Ht).
  destruct (change_local InTurn InTurn w w t (failed t) Nobody F s g) as (g' & Hc & Hv); auto.
  - simpl. lia.
  - right. apply attempt_fails; auto. by apply (turn_first _ _ _ _ _ V).
  - exists 0, (upd_worker me (fun _ => w) s), g'. split; [|done]. symmetry. apply upd_worker_id. symmetry. apply (view_worker _ _ _ _ _ _ _ V).
Qed.

Lemma gs_GetHeadQ n c w t F : todo t = Acquire x k -> queued t = true -> worker_time w = time t -> view InTurn w t Nobody F c ->
  gs n (Act (mutex_GetHeadQ (AObj x))) c
    (fun h c' => if h =? me then view (AtHead x) w t Nobody F c' else view InTurn w (failed t) Nobody F c').
Proof.
  intros Ha Hq Hw. apply gs_change.
  - intros h c1 c2. destruct (h =? me); apply view_stable.
  - intros h s1 s2 g V Es. destruct (h =? me); by eapply view_sim.
  - intros s g V. pose proof V as [V1 V2 V3 V4 V5 V6]. simpl in *. pose proof (view_no_pend _ _ _ _ _ V V6) as Ep. simpl in Ep.
    destruct (lk_lock _ V1 x x_in) as [L1 L2 L3 L4 L5 L6 L7 L8]. simpl in *. rewrite Ep in L6. simpl in L6.
    unfold mutex_GetHeadQ, mbind, gets. rewrite (Queue.GetHeadQ_spec 0), L6 by done. simpl.
    destruct (ok_queued _ _ (lk_ok _ V1) me t V3 Hq) as (y & k' & Ey & Hin). rewrite Ha in Ey. injection Ey as <- <-. simpl in Hin.
    destruct (waiters (lock_of (mach g) x)) as [|h ws] eqn:Ew; [by apply elem_of_nil in Hin|]. simpl.
    destruct (Z.eqb_spec h me) as [->|Hne].
    + exists 0, s, g. split; [done|]. split; [by apply change_sim|]. intros L. constructor; try done. simpl. by rewrite Ew.
    + destruct (view_failed (s, g) w t F) as (y & s0 & g' & Es & ? & ?); try done; [|by exists y, s0, g'].
      simpl. rewrite Ew. intros [[=] _]. congruence.
Qed.

Lemma view_head md w t pd F c : view (AtHead x) w t pd F c -> md = InTurn -> view md w t pd F c.
Proof. intros [V1 V2 V3 V4 V5 (? & ? & ?)] ->. done. Qed.

(** What the thread knows when [pthread_mutex_trylock] has answered. *)
Definition tried w t F (r : Z) c : Prop :=
  (r <> 0 /\ view InTurn w (failed t) Nobody F c) \/
  (r = 0 /\ exists o q rel, q <= 0 /\
     if rel <? time t then view InTurn w (won x k t) (Popping me x) (put F x (Some (o, q, rel))) c
     else view InTurn w (failed t) (Trying me x) (put F x (Some (o, q, rel))) c).
Lemma gs_trylock n c w t F : todo t = Acquire x k -> queued t = true -> worker_time w = time t -> F x = None ->
  view (AtHead x) w t Nobody F c -> gs n (Act (pthread_mutex_trylock me (AObj x))) c (tried w t F).
Proof.
  intros Ha Hq Hw HF. apply gs_change.
  - intros r c1 c2 [[? V]|(? & o & q & rel & ? & V)] HR; [left; split; [done|by eapply view_stable]|].
    right. split; [done|]. exists o, q, rel. split; [done|]. destruct (rel <? time t); by eapply view_stable.
  - intros r s1 s2 g [[? V]|(? & o & q & rel & ? & V)] Es; [left; split; [done|by eapply view_sim]|].
    right. split; [done|]. exists o, q, rel. split; [done|]. destruct (rel <? time t); by eapply view_sim.
  - intros s g V0. pose proof V0 as [_ _ _ _ _ (Hturn & _ & Hhd)]. apply (view_head InTurn) in V0 as V; [|done].
    pose proof V as [V1 V2 V3 V4 V5 V6]. simpl in *. pose proof (view_no_pend _ _ _ _ _ V V6) as Ep. simpl in Ep.
    destruct (lk_lock _ V1 x x_in) as [L1 L2 L3 L4 L5 L6 L7 L8]. simpl in *. rewrite Ep in L3, L6. simpl in *.
    unfold pthread_mutex_trylock, mbind, gets. destruct (m_holder (lock s x)) as [j|] eqn:Eh; simpl.
    { destruct (view_failed (s, g) w t F) as (y & s0 & g' & Es & ? & ?); try done; [|exists y, s0, g'; split_and!; try done].
      - simpl. intros (_ & ? & _). congruence.
      - intros. left. split; [done|]. auto. }
    assert (ref (lock s x) <= 0) as Hr by (destruct (Z.le_gt_cases (ref (lock s x)) 0); [done|]; specialize (L2 ltac:(lia)); congruence).
    specialize (L7 (eq_sym L3)). pose proof (turn_first _ _ _ _ _ V Hw) as Hfst. simpl in Hfst.
    destruct (Z.ltb_spec (released (lock_of (mach g) x)) (time t)) as [Hlt|Hge].
    + set (e := mkEffect (won x k t) (Some (x, mkLock (Some me) (released (lock_of (mach g) x)) (tail (waiters (lock_of (mach g) x))))) None).
      assert (effect_of (mach g) me t = Some e) as He.
      { unfold effect_of, attempt. rewrite Ha, Hfst, Hq, bool_decide_true by done. done. }
      exists x, (upd_mutex (AObj x) (set_m_holder (Some me)) s), (mkGhost (apply_effect me e (mach g)) (Popping me x)). split; [done|].
      destruct (mutex_step x (set_m_holder (Some me)) InTurn InTurn w t (won x k t) Nobody F
        (Some (owner (lock s x), ref (lock s x), released_logical_time (lock s x))) (apply_effect me e (mach g)) (Popping me x) s g) as [Hc Hv]; try done; auto.
      * right. by apply mstep_effect with t.
      * apply apply_thr.
      * simpl. lia.
      * intros y Hy. rewrite lock_of_apply. simpl. by rewrite decide_False.
      * constructor; simpl; repeat rt_frame; rewrite ?lock_upd_eq, ?lock_of_apply; simpl; rewrite ?decide_True by done; simpl; try done; [lia|].
        rewrite L6. destruct (waiters (lock_of (mach g) x)); [done|]. by injection Hhd as ->.
      * right. intros j Hj. rewrite Eh. simpl. split; congruence.
      * right. auto.
      * split; [done|]. intros L. right. split; [done|]. exists (owner (lock s x)), (ref (lock s x)), (released_logical_time (lock s x)). split; [exact Hr|].
        replace (_ <? _) with true by (rewrite L7; symmetry; by apply Z.ltb_lt).
        specialize (Hv L). simpl in Hv. by rewrite decide_True in Hv.
    + assert (effect_of (mach g) me t = Some (mkEffect (failed t) None None)) as He by (apply attempt_fails; auto; intros (_ & _ & ?); lia).
      exists x, (upd_mutex (AObj x) (set_m_holder (Some me)) s), (mkGhost (apply_effect me (mkEffect (failed t) None None) (mach g)) (Trying me x)). split; [done|].
      destruct (mutex_step x (set_m_holder (Some me)) InTurn InTurn w t (failed t) Nobody F
        (Some (owner (lock s x), ref (lock s x), released_logical_time (lock s x))) (apply_effect me (mkEffect (failed t) None None) (mach g)) (Trying me x) s g) as [Hc Hv]; try done; auto.
      * right. by apply mstep_effect with t.
      * apply apply_thr.
      * simpl. lia.
      * constructor; simpl; repeat rt_frame; rewrite ?lock_upd_eq, ?lock_of_apply; simpl; rewrite ?decide_True by done; simpl; try done. lia.
      * right. intros j Hj. rewrite Eh. simpl. split; congruence.
      * right. auto.
      * split; [done|]. intros L. right. split; [done|]. exists (owner (lock s x)), (ref (lock s x)), (released_logical_time (lock s x)). split; [exact Hr|].
        replace (_ <? _) with false by (rewrite L7; symmetry; by apply Z.ltb_ge).
        specialize (Hv L). simpl in Hv. by rewrite decide_True in Hv.
Qed.

(** A mutex released too late is given back. *)
Lemma gs_give_back n c md w t F o r rel : F x = Some (o, r, rel) -> r <= 0 -> view md w t (Trying me x) F c ->
  gs n (Act (pthread_mutex_unlock (AObj x))) c (fun _ c' => view md w t Nobody (put F x None) c').
Proof.
  intros HF Hr. apply (gs_mutex _ _ _ _ _ _ _ _ _ x).
  - intros _. apply view_stable.
  - intros. by eapply view_sim.
  - intros s g V. pose proof V as [V1 V2 V3 V4 V5 V6]. simpl in *.
    assert (pend g = Trying me x) as Ep by (unfold pend_of in V4; destruct (pend g); [done|by case_decide|by case_decide]).
    destruct (lk_lock _ V1 x x_in) as [L1 L2 L3 L4 L5 L6 L7 L8]. simpl in *. rewrite Ep in L3, L6. simpl in *. rewrite decide_True in L3 by done. destruct L3 as [L3 L3'].
    pose proof (V5 x x_in) as Hh. rewrite HF in Hh. injection Hh as H1 H2 H3 H4.
    eexists 0, _, (mkGhost (mach g) Nobody). split; [reflexivity|].
    eapply (mutex_step x (set_m_holder None) md md w t t (Trying me x) F None (mach g) Nobody s g); try done; auto.
    + constructor; simpl; repeat rt_frame; rewrite ?lock_upd_eq; simpl; try done. lia.
    + right. intros j Hj. rewrite H1. split; simpl; congruence.
Qed.

(** The thread leaves the queue of the mutex it has taken. *)
Lemma gs_DelQ n c md w t F o r rel : F x = Some (o, r, rel) -> view md w t (Popping me x) F c ->
  gs n (Act (mutex_DelQ (AObj x))) c (fun _ c' => view md w t Nobody F c').
Proof.
  intros HF. apply (gs_mutex _ _ _ _ _ _ _ _ _ x).
  - intros _. apply view_stable.
  - intros. by eapply view_sim.
  - intros s g V. pose proof V as [V1 V2 V3 V4 V5 V6]. simpl in *.
    assert (pend g = Popping me x) as Ep by (unfold pend_of in V4; destruct (pend g); [done|by case_decide|by case_decide]).
    destruct (lk_lock _ V1 x x_in) as [L1 L2 L3 L4 L5 L6 L7 L8]. simpl in *. rewrite Ep in L3, L6. simpl in *. rewrite decide_True in L6 by done.
    destruct (Queue.DelQ_spec 0 (m_queue (lock s x)) L4) as (h & q & Eq & Q1 & Q2 & Q3). rewrite L6 in Q3. simpl in Q3. injection Q3 as -> Q3.
    exists me, (upd_mutex (AObj x) (set_m_queue q) s), (mkGhost (mach g) Nobody). split; [unfold mutex_DelQ, mbind, gets; by rewrite Eq|].
    destruct (mutex_step x (set_m_queue q) md md w t t (Popping me x) F (Some (o, r, rel)) (mach g) Nobody s g) as [Hc Hv]; try done; auto.
    + constructor; simpl; repeat rt_frame; rewrite ?lock_upd_eq; simpl; try done. congruence.
    + pose proof (V5 x x_in) as Hh. by rewrite HF in Hh.
    + split; [done|]. intros L. eapply view_put; [exact HF|]. by apply Hv.
Qed.

Lemma view_ext md w t pd F F' c : (forall y, F y = F' y) -> view md w t pd F c -> view md w t pd F' c.
Proof. intros HF [V1 V2 V3 V4 V5 V6]. constructor; try done. intros y Hy. rewrite <- HF. by apply V5. Qed.
Lemma put_put F v v' y : put (put F x v) x v' y = put F x v' y.
Proof. unfold put. by case_decide. Qed.

Lemma view_put_put md w t pd F v v' c : view md w t pd (put (put F x v) x v') c -> view md w t pd (put F x v') c.
Proof. apply view_ext. intros y. apply put_put. Qed.

(** *** [det_lock] *)

Lemma gs_attempt n c w t F : hw_clock_enabled w = false -> todo t = Acquire x k -> queued t = true -> worker_time w = time t -> F x = None ->
  view InTurn w t Nobody F c ->
  gs n (lock_attempt me (AObj x) (time t)) c (fun got c' =>
    if got : bool then exists rel, view InTurn w (won x k t) (Popping me x) (put F x (Some (me, 1, rel))) c'
    else view InTurn w (failed t) Nobody F c').
Proof.
  intros Hoff Ha Hq Hw HF V. unfold lock_attempt. eapply gs_bind; [apply _|by apply gs_GetHeadQ|]. cbv beta. intros n1 h c1 _ H1.
  destruct (h =? me); simpl; [|apply gs_ret; intros; by eapply view_stable].
  eapply gs_bind; [apply _|by apply gs_trylock|]. cbv beta. intros n2 r c2 _ [[Hr H2]|(-> & o & q & rel & Hq0 & H2)].
  { rewrite (proj2 (Z.eqb_neq r 0) Hr). apply gs_ret. intros. by eapply view_stable. }
  simpl. set (t' := if rel <? time t then won x k t else failed t). set (pd := if rel <? time t then Popping me x else Trying me x).
  assert (view InTurn w t' pd (put F x (Some (o, q, rel))) c2) as H2' by (unfold t', pd; by destruct (rel <? time t)).
  assert (put F x (Some (o, q, rel)) x = Some (o, q, rel)) as Hput by (unfold put; by rewrite decide_True).
  eapply gs_bind; [apply _|apply (gs_gets _ _ _ InTurn w t' pd (put F x (Some (o, q, rel))) (fun l => l = rel)); [|done]|].
  { intros s g V'. pose proof (v_has _ _ _ _ _ _ V' x x_in) as Hh. rewrite Hput in Hh. by injection Hh. }
  cbv beta. intros n3 l c3 _ [H3 ->]. eapply gs_bind; [apply _|by apply gs_DBG|]. cbv beta. intros n4 _ c4 _ H4.
  rewrite Z.leb_antisym. unfold t', pd in H4. destruct (rel <? time t); simpl.
  - eapply gs_bind; [apply _|eapply (gs_gets _ _ _ _ _ _ _ _ (fun _ => True)); [done|exact H4]|]. cbv beta. intros n5 sw c5 _ [H5 _].
    eapply gs_bind; [apply _|by apply gs_DBG|]. cbv beta. intros n6 _ c6 _ H6.
    eapply gs_bind; [apply _|apply (gs_hold _ _ _ InTurn w (won x k t) (Popping me x) _ x o q rel me q rel x_in Hput); [done| |done|exact H6]|].
    { intros m. split_and!; [done..|]. unfold held_part. simpl. by intros [= -> _ -> ->]. }
    cbv beta. intros n7 _ c7 _ H7. apply view_put_put in H7.
    eapply gs_bind; [apply _|apply (gs_hold _ _ _ InTurn w (won x k t) (Popping me x) (put F x (Some (me, q, rel))) x me q rel me 1 rel x_in); [|done| |done|exact H7]|].
    { unfold put. by rewrite decide_True. }
    { intros m. split_and!; [done..|]. unfold held_part. simpl. by intros [= -> -> _ ->]. }
    cbv beta. intros n8 _ c8 _ H8. apply view_put_put in H8. apply gs_ret. intros. exists rel. by eapply view_stable.
  - eapply gs_bind; [apply _|by apply gs_DBG|]. cbv beta. intros n5 _ c5 _ H5.
    eapply gs_bind; [apply _|by eapply gs_give_back|]. cbv beta. intros n6 _ c6 _ H6. apply gs_ret. intros.
    eapply view_put; [exact HF|]. eapply view_put_put. by eapply view_stable.
Qed.

(** In the queue; and with the mutex taken. *)
Definition waiting (hs : gset Z) F (clock : Z) c : Prop := exists w t,
  hw_clock_enabled w = false /\ todo t = Acquire x k /\ queued t = true /\ held t = hs /\ worker_time w = time t /\ clock = time t /\
  view InTurn w t Nobody F c.
Definition taken (pd : pending) (hs : gset Z) F c : Prop := exists w t rel,
  hw_clock_enabled w = false /\ held t = hs /\ worker_time w = time t /\ view InTurn w (won x k t) pd (put F x (Some (me, 1, rel))) c.
Lemma waiting_stable hs F v c c' : waiting hs F v c -> Rely me c c' -> waiting hs F v c'.
Proof. intros (w & t & ? & ? & ? & ? & ? & ? & V) HR. exists w, t. split_and!; try done. by eapply view_stable. Qed.
Lemma taken_stable pd hs F c c' : taken pd hs F c -> Rely me c c' -> taken pd hs F c'.
Proof. intros (w & t & rel & ? & ? & ? & V) HR. exists w, t, rel. split_and!; try done. by eapply view_stable. Qed.

Lemma gs_assert_time n c md w t pd F : view md w t pd F c -> gs n (Act (assert_time me)) c (fun _ => view md w t pd F).
Proof.
  intros V. eapply gs_conseq; [eapply (gs_quiet _ _ _ _ _ _ _ _ (fun _ => True)); [|exact V]|by intros ? ? []].
  intros s g _. unfold assert_time, mbind, gets, massert. by destruct (_ <? _).
Qed.

Lemma gs_lock_body n clock c hs F : F x = None -> waiting hs F clock c ->
  gs n (lock_body me (AObj x) clock) c (fun r c' => match r with inl v => waiting hs F v c' | inr _ => taken (Popping me x) hs F c' end).
Proof.
  intros HF (w & t & Hoff & Ha & Hq & Hh & Hw & -> & V). unfold lock_body. eapply gs_bind; [apply _|by apply gs_attempt|].
  cbv beta. intros n1 got c1 _ H1. destruct got.
  { destruct H1 as [rel H1]. apply gs_ret. intros c' HR. exists w, t, rel. split_and!; try done. by eapply view_stable. }
  eapply gs_bind; [apply _|by apply gs_assert_time|]. cbv beta. intros n2 _ c2 _ H2. eapply gs_bind; [apply _|by apply gs_DBG|]. cbv beta. intros n3 _ c3 _ H3.
  eapply gs_bind; [apply _|eapply (gs_incr _ 1); [exact H3|lia|simpl; lia]|]. cbv beta. intros n4 _ c4 _ H4.
  eapply gs_bind; [apply _|eapply gs_wait; [|exact H4]; done|]. cbv beta. intros n5 v c5 _ [-> H5]. apply gs_ret. intros c' HR.
  exists (tick 1 w), (failed t). rewrite tick_time. simpl. split_and!; try done; [lia..|by eapply view_stable].
Qed.

(** [update_last_sync] writes a global that the threads of the machine do not read. *)
Lemma gs_last_sync n c md w t pd F : view md w t pd F c -> gs n (Act (update_last_sync me)) c (fun _ => view md w t pd F).
Proof.
  apply (gs_mutex _ _ _ _ _ _ _ _ _ 0).
  - intros _. apply view_stable.
  - intros. by eapply view_sim.
  - intros s g V. pose proof V as [V1 V2 V3 V4 V5 V6]. destruct (lk_thread _ V1 me me_ok).
    eexists tt, _, g. split; [reflexivity|]. split; [|intros L; by constructor].
    constructor; simpl; repeat rt_frame; try done; auto. intros Hx. destruct (lk_lock _ V1 0 Hx). by constructor.
Qed.

Lemma gs_acquire n id c w t F : hw_clock_enabled w = false -> todo t = Acquire x k -> queued t = false -> worker_time w = time t -> F x = None ->
  view Free w t Nobody F c -> gs n (lock_acquire me (AObj x) id) c (fun _ => taken Nobody (held t) F).
Proof.
  intros Hoff Ha Hq Hw HF V. unfold lock_acquire. eapply gs_bind; [apply _|by apply gs_DBG|]. cbv beta. intros n1 _ c1 _ H1.
  eapply gs_bind; [apply _|by apply gs_wait|]. cbv beta. intros n2 v c2 _ [-> H2].
  eapply gs_bind; [apply _|by apply gs_AddQ|]. cbv beta. intros n3 _ c3 _ H3.
  eapply gs_bind; [apply _|apply (gs_loop _ _ _ _ (waiting (held t) F) _ _ (fun _ => taken (Popping me x) (held t) F))|].
  { apply waiting_stable. }
  { intros. by apply gs_lock_body. }
  { intros _. apply taken_stable. }
  { by exists w, (queued_up t). }
  cbv beta. intros n4 _ c4 _ (w' & t' & rel & Hoff' & Hh' & Hw' & H4).
  eapply gs_bind; [apply _|by apply gs_assert_time|]. cbv beta. intros n5 _ c5 _ H5. eapply gs_bind; [apply _|by apply gs_DBG|]. cbv beta. intros n6 _ c6 _ H6.
  eapply gs_bind; [apply _|by apply gs_last_sync|]. cbv beta. intros n7 _ c7 _ H7.
  eapply gs_bind; [apply _|eapply gs_DelQ; [|exact H7]; unfold put; by rewrite decide_True|]. cbv beta. intros n8 _ c8 _ H8.
  apply gs_ret. intros. exists w', t', rel. split_and!; try done. by eapply view_stable.
Qed.
End Acquiring.

(** *** Between two operations *)

(** The clock runs and agrees with the machine's; the thread has the mutexes of [held t]. *)
Definition owns (hs : gset Z) (F : hold) : Prop := forall y, y ∈ X -> if decide (y ∈ hs) then exists rel, F y = Some (me, 1, rel) else F y = None.
Definition idle (t : thread) c : Prop := exists w F,
  hw_clock_enabled w = true /\ worker_time w = time t /\ queued t = false /\ held t ⊆ X /\ owns (held t) F /\ view Free w t Nobody F c.
Lemma idle_stable t c c' : idle t c -> Rely me c c' -> idle t c'.
Proof. intros (w & F & ? & ? & ? & ? & ? & V) HR. exists w, F. split_and!; try done. by eapply view_stable. Qed.
Lemma idle_task t c : idle t c -> disciplined X (held t) (todo t).
Proof. intros (w & F & _ & _ & _ & _ & _ & V). apply (ok_task _ _ (lk_ok _ (v_linked _ _ _ _ _ _ V)) me), V. Qed.
Lemma owns_none hs F x : owns hs F -> x ∈ X -> x ∉ hs -> F x = None.
Proof. intros Ho Hx Hn. specialize (Ho x Hx). by rewrite decide_False in Ho. Qed.
Lemma owns_some hs F x : owns hs F -> x ∈ X -> x ∈ hs -> exists rel, F x = Some (me, 1, rel).
Proof. intros Ho Hx Hn. specialize (Ho x Hx). by rewrite decide_True in Ho. Qed.
Lemma owns_add hs F x rel : owns hs F -> owns ({[x]} ∪ hs) (put F x (Some (me, 1, rel))).
Proof.
  intros Ho y Hy. unfold put. specialize (Ho y Hy). destruct (decide (y = x)) as [->|Hne].
  - rewrite decide_True; [eauto|]. apply elem_of_union. left. by apply elem_of_singleton.
  - by rewrite (decide_ext _ (y ∈ hs)) by (rewrite elem_of_union, elem_of_singleton; tauto).
Qed.
Lemma owns_remove hs F x : owns hs F -> owns (hs ∖ {[x]}) (put F x None).
Proof.
  intros Ho y Hy. unfold put. specialize (Ho y Hy). destruct (decide (y = x)) as [->|Hne].
  - rewrite decide_False; [done|]. rewrite elem_of_difference, elem_of_singleton. tauto.
  - by rewrite (decide_ext _ (y ∈ hs)) by (rewrite elem_of_difference, elem_of_singleton; tauto).
Qed.
Lemma start_clock_runs w : (exists j, fds w = FdsOpen j) -> hw_clock_enabled (start_clock w) = true.
Proof. intros [j Hj]. unfold start_clock. rewrite Hj. by destruct (hw_clock_enabled w) eqn:E1. Qed.

(** The end of an operation: the clock catches up with the machine's and goes on. *)
Lemma gs_leave {A} n d (p : prog C A) c w t F (Q : A -> rt C * ghost -> Prop) :
  hw_clock_enabled w = false -> 0 <= d -> worker_time w + d = time t -> queued t = false -> held t ⊆ X -> owns (held t) F ->
  view Free w t Nobody F c -> (forall m c', idle t c' -> gs m p c' Q) ->
  gs n (Act (incr_sw_clock me d) ;~ Act (resume_logical_clock me 0) ;~ p) c Q.
Proof.
  intros Hoff Hd Hw Hq Hh Ho V Hp. eapply gs_bind; [apply _|eapply (gs_incr _ d); [exact V|lia|lia]|]. cbv beta. intros n1 _ c1 _ H1.
  eapply gs_bind; [apply _|eapply gs_resume; exact H1|]. cbv beta. intros n2 _ c2 _ H2. apply Hp.
  destruct (view_entry _ _ _ _ _ _ H1) as (Hwf & Hopen & _). exists (start_clock (tick d w)), F. split_and!; try done.
  - by apply start_clock_runs.
  - rewrite start_clock_time, tick_time by done. lia.
Qed.

Lemma view_free md w t pd F c : view md w t pd F c -> view Free w t pd F c.
Proof. by intros []. Qed.
Lemma gs_det_enabled n md w t pd F c : view md w t pd F c -> gs n (Act (det_is_enabled me)) c (fun b c' => view md w t pd F c' /\ b = true).
Proof.
  intros V. eapply gs_quiet; [|exact V]. intros s g V'. pose proof (v_linked _ _ _ _ _ _ V') as L.
  destruct (det_is_enabled_returns me s) as (s' & -> & Es). split; [done|]. pose proof (lk_num _ L) as Hn. simpl in Hn.
  pose proof (tl_enabled _ _ _ (lk_thread _ L me me_ok)) as He. simpl in He. rewrite He, andb_true_r. by apply Z.ltb_lt.
Qed.
Lemma gs_id n md w t pd F c x : x ∈ X -> view md w t pd F c ->
  gs n (Act (gets (fun s => m_id (mutex s (AObj x))))) c (fun i c' => view md w t pd F c' /\ 0 < i).
Proof. intros Hx. apply gs_gets. intros s g V. apply (ll_id _ _ _ (lk_lock _ (v_linked _ _ _ _ _ _ V) x Hx)). Qed.
Lemma gs_massert n b why c md w t pd F : b = true -> view md w t pd F c -> gs n (Act (massert b why)) c (fun _ => view md w t pd F).
Proof. intros -> V. eapply gs_conseq; [eapply (gs_quiet _ _ _ _ _ _ _ _ (fun _ => True)); [done|exact V]|by intros ? ? []]. Qed.

Lemma gs_count n t c : idle t c -> gs n (Act (count_lock me)) c (fun _ => idle t).
Proof.
  intros (w & F & ? & ? & ? & ? & ? & V). eapply gs_conseq; [eapply (gs_quiet _ _ _ _ _ _ _ _ (fun _ => True)); [|exact V]|].
  - intros s g _. simpl. split; [apply upd_statv_sim|done].
  - intros _ c' [V' _]. by exists w, F.
Qed.

Lemma gs_lock n t x k c : todo t = Acquire x k -> idle t c ->
  gs n (det_lock E me (AObj x)) c (fun _ c' => exists t', todo t' = k /\ idle t' c').
Proof.
  intros Ha Hi. pose proof (idle_task _ _ Hi) as Hd. rewrite Ha in Hd. destruct Hd as (Hx & Hnx & _).
  destruct Hi as (w & F & Hon & Hw & Hq & Hh & Ho & V). unfold det_lock.
  eapply gs_bind; [apply _|by apply gs_id|]. cbv beta. intros n1 i1 c1 _ [H1 I1]. rewrite (proj2 (Z.ltb_ge i1 0) ltac:(lia)). unfold when.
  eapply gs_bind; [apply _|apply (gs_ret _ _ _ _ _ (fun _ => view Free w t Nobody F)); intros; by eapply view_stable|]. cbv beta. intros n2 _ c2 _ H2.
  eapply gs_bind; [apply _|by apply gs_id|]. cbv beta. intros n3 i3 c3 _ [H3 I3].
  eapply gs_bind; [apply _|apply gs_massert; [by apply Z.ltb_lt|exact H3]|]. cbv beta. intros n4 _ c4 _ H4.
  eapply gs_bind; [apply _|by apply gs_det_enabled|]. cbv beta. intros n5 e c5 _ [H5 ->]. simpl.
  destruct (view_entry _ _ _ _ _ _ V) as (Hwf & Hopen & _).
  eapply gs_bind; [apply _|by apply gs_disable|]. cbv beta. intros n6 l c6 _ [-> H6]. unfold pause_ret. rewrite Hon.
  pose proof (owns_none _ _ _ Ho Hx Hnx) as HF.
  eapply gs_bind; [apply _|eapply (gs_gets _ _ _ _ _ _ _ _ (fun m => (0 <? ref m) && (owner m =? me) = false)); [|exact H6]|].
  { intros s g V'. pose proof (ll_owner _ _ _ (lk_lock _ (v_linked _ _ _ _ _ _ V') x Hx)) as Hown. simpl in Hown.
    pose proof (v_has _ _ _ _ _ _ V' x Hx) as Hh'. rewrite HF in Hh'. simpl in Hh'.
    destruct (Z.ltb_spec 0 (ref (lock s x))); [|done]. simpl. apply Z.eqb_neq. intros E1. apply Hh'. rewrite Hown by done. by rewrite E1. }
  cbv beta. intros n7 m c7 _ [H7 ->].
  eapply gs_bind; [apply _|apply (gs_acquire x k Hx _ _ _ (stop_clock w) t F); auto; [by apply stop_clock_stopped|by rewrite stop_clock_time]|].
  cbv beta. intros n8 _ c8 _ (w' & t' & rel & Hoff & Ht' & Hw' & H8).
  apply (gs_leave _ 1 _ _ w' (won x k t') (put F x (Some (me, 1, rel)))); simpl; auto;
    [lia|lia|rewrite Ht'; apply union_subseteq; split; [by apply singleton_subseteq_l|done]| |by eapply view_free|].
  { rewrite Ht'. by apply owns_add. }
  intros n9 c9 H9. eapply gs_bind; [apply _|by apply gs_count|].
  cbv beta. intros n10 _ c10 _ H10. apply gs_ret. intros c' HR. exists (won x k t'). split; [done|]. by eapply idle_stable.
Qed.

(** *** [det_unlock_and_incr_clock] *)

Definition gave_back (x incr : Z) (k : task) (t : thread) : thread := mkThread (time t + incr) (queued t) (held t ∖ {[x]}) k.
Lemma gs_release n c x incr k w t F o r : todo t = Release x incr k -> 0 <= incr -> x ∈ X -> F x = Some (o, r, time t) -> r <= 0 ->
  view Free w t Nobody F c ->
  gs n (Act (pthread_mutex_unlock (AObj x))) c (fun _ => view Free w (gave_back x incr k t) Nobody (put F x None)).
Proof.
  intros Ha Hincr Hx HF Hr. apply (gs_mutex _ _ _ _ _ _ _ _ _ x).
  - intros _. apply view_stable.
  - intros. by eapply view_sim.
  - intros s g V. pose proof V as [V1 V2 V3 V4 V5 V6]. simpl in *. pose proof (V5 x Hx) as Hh. rewrite HF in Hh. injection Hh as H1 H2 H3 H4.
    destruct (lk_lock _ V1 x Hx) as [L1 L2 L3 L4 L5 L6 L7 L8]. simpl in *.
    assert (trying (pend g) x = None /\ popping (pend g) x = popping (pend g) x) as [Et _].
    { split; [|done]. destruct (trying (pend g) x) as [j|] eqn:Et; [|done]. destruct L3 as [L3 _]. rewrite H1 in L3. injection L3 as <-.
      unfold trying in Et. destruct (pend g) as [|j y|j y]; try done. case_decide; [|done]. injection Et as ->. simpl in V4. by rewrite decide_True in V4. }
    rewrite Et in L3.
    set (e := mkEffect (gave_back x incr k t) (Some (x, mkLock None (time t) (waiters (lock_of (mach g) x)))) None).
    assert (effect_of (mach g) me t = Some e) as He by (unfold effect_of; by rewrite Ha).
    eexists 0, _, (mkGhost (apply_effect me e (mach g)) (pend g)). split; [reflexivity|]. rewrite <- V4.
    eapply (mutex_step x (set_m_holder None) Free Free w t (gave_back x incr k t) Nobody F None (apply_effect me e (mach g)) (pend g) s g); try done; auto.
    + right. by apply mstep_effect with t.
    + apply apply_thr.
    + simpl. lia.
    + intros y Hy. rewrite lock_of_apply. simpl. by rewrite decide_False.
    + constructor; simpl; repeat rt_frame; rewrite ?lock_upd_eq, ?lock_of_apply; simpl; rewrite ?decide_True, ?Et by done; simpl; try done. lia.
    + right. intros j Hj. rewrite H1. split; simpl; congruence.
    + left. rewrite lock_of_apply. simpl. by rewrite decide_True.
Qed.

Lemma gs_my_clock n md w t pd F c : hw_clock_enabled w = false -> view md w t pd F c ->
  gs n (Act (get_logical_clock me me)) c (fun v c' => view md w t pd F c' /\ v = worker_time w).
Proof.
  intros Hoff V. eapply gs_quiet; [|exact V]. intros s g V'. pose proof (view_worker _ _ _ _ _ _ _ V') as Ew.
  destruct (view_entry _ _ _ _ _ _ V') as (Hwf & _). destruct (get_logical_clock_returns me me s) as (s' & -> & Es); rewrite ?Ew; try done.
  split; [done|]. unfold logical_time. by rewrite Ew.
Qed.

Lemma gs_unlock n t x incr k c : todo t = Release x incr k -> idle t c ->
  gs n (det_unlock_and_incr_clock me (AObj x) incr) c (fun _ c' => exists t', todo t' = k /\ idle t' c').
Proof.
  intros Ha Hi. pose proof (idle_task _ _ Hi) as Hd. rewrite Ha in Hd. destruct Hd as (Hx & Hincr & _).
  destruct Hi as (w & F & Hon & Hw & Hq & Hh & Ho & V). unfold det_unlock_and_incr_clock. pose proof (Hh x Hx) as HxX.
  destruct (owns_some _ _ _ Ho HxX Hx) as [rel HF]. destruct (view_entry _ _ _ _ _ _ V) as (Hwf & Hopen & _).
  eapply gs_bind; [apply _|by apply gs_id|]. cbv beta. intros n1 i1 c1 _ [H1 I1].
  eapply gs_bind; [apply _|apply gs_massert; [by apply Z.ltb_lt|exact H1]|]. cbv beta. intros n2 _ c2 _ H2.
  eapply gs_bind; [apply _|by apply gs_det_enabled|]. cbv beta. intros n3 e c3 _ [H3 ->]. simpl.
  eapply gs_bind; [apply _|eapply (gs_gets _ _ _ _ _ _ _ _ (fun m => 0 < m)); [|exact H3]|].
  { intros s g V'. pose proof (lk_max _ (v_linked _ _ _ _ _ _ V')) as Em. simpl in Em. lia. }
  cbv beta. intros n4 mt c4 _ [H4 Hmt]. eapply gs_bind; [apply _|apply gs_massert; [by apply Z.ltb_lt|exact H4]|]. cbv beta. intros n5 _ c5 _ H5.
  eapply gs_bind; [apply _|by apply gs_disable|]. cbv beta. intros n6 l c6 _ [-> H6]. unfold pause_ret. rewrite Hon.
  assert (hw_clock_enabled (stop_clock w) = false) as Hoff by (by apply stop_clock_stopped).
  assert (forall v, put F x v x = v) as Hput by (intros v; unfold put; by rewrite decide_True).
  eapply gs_bind; [apply _|apply (gs_hold _ _ _ Free (stop_clock w) t Nobody F x me 1 rel me 0 rel HxX HF); [done| |done|exact H6]|].
  { intros m. split_and!; [done..|]. unfold held_part. simpl. by intros [= -> -> -> ->]. }
  cbv beta. intros n7 _ c7 _ H7.
  eapply gs_bind; [apply _|eapply (gs_gets _ _ _ _ _ _ _ _ (fun r => r = 0)); [|exact H7]|].
  { intros s g V'. pose proof (v_has _ _ _ _ _ _ V' x HxX) as Hh'. rewrite Hput in Hh'. by injection Hh'. }
  cbv beta. intros n8 r c8 _ [H8 ->]. simpl. eapply gs_bind; [apply _| |].
  - eapply gs_bind; [apply _|apply (gs_hold _ _ _ Free (stop_clock w) t Nobody _ x me 0 rel (-1) 0 rel HxX (Hput _)); [done| |lia|exact H8]|].
    { intros m. split_and!; [done..|]. unfold held_part. simpl. by intros [= -> _ -> ->]. }
    cbv beta. intros n9 _ c9 _ H9. apply view_put_put in H9.
    eapply gs_bind; [apply _|by apply gs_my_clock|]. cbv beta. intros n10 v c10 _ [H10 ->]. rewrite stop_clock_time, Hw.
    eapply gs_bind; [apply _|apply (gs_hold _ _ _ Free (stop_clock w) t Nobody _ x (-1) 0 rel (-1) 0 (time t) HxX (Hput _)); [done| |lia|exact H10]|].
    { intros m. split_and!; [done..|]. unfold held_part. simpl. by intros [= -> -> -> _]. }
    cbv beta. intros n11 _ c11 _ H11. apply view_put_put in H11.
    eapply gs_bind; [apply _|by apply gs_DBG|]. cbv beta. intros n12 _ c12 _ H12.
    eapply gs_bind; [apply _|by apply gs_last_sync|]. cbv beta. intros n13 _ c13 _ H13.
    apply (gs_release _ _ x incr k (stop_clock w) t (put F x (Some (-1, 0, time t))) (-1) 0); auto; lia.
  - cbv beta. intros n9 r c9 _ H9. apply view_put_put in H9.
    apply (gs_leave _ incr _ _ (stop_clock w) (gave_back x incr k t) (put F x None)); simpl; auto; [lia|rewrite stop_clock_time; lia|by apply subseteq_difference_l|by apply owns_remove|].
    intros n10 c10 H10. apply gs_ret. intros c' HR. exists (gave_back x incr k t). split; [done|]. by eapply idle_stable.
Qed.

(** *** Computation and shared variables *)

Lemma gs_idle {A} n (m : M C A) t c (T : A -> thread) (D : A -> Prop) :
  (forall w F s g, idle t (s, g) -> hw_clock_enabled w = true -> worker_time w = time t -> view Free w t Nobody F (s, g) -> exists a s' g' x w',
     m s = Ok a s' /\ change x (s, g) (s', g') /\ D a /\ hw_clock_enabled w' = true /\ worker_time w' = time (T a) /\
     queued (T a) = queued t /\ held (T a) = held t /\ (linked (s', g') -> view Free w' (T a) Nobody F (s', g'))) ->
  idle t c -> gs n (Act m) c (fun a c' => D a /\ idle (T a) c').
Proof.
  intros Hm (w & F & Hon & Hw & Hq & Hh & Ho & V). eapply gs_change; [..|exact V].
  - intros a c1 c2 [? ?] HR. split; [done|]. by eapply idle_stable.
  - intros a s1 s2 g [? (w1 & F1 & ? & ? & ? & ? & ? & V1)] Es. split; [done|]. exists w1, F1. split_and!; try done. by eapply view_sim.
  - intros s g V'. destruct (Hm w F s g) as (a & s' & g' & x & w' & -> & Hc & Hd & ? & ? & Eq & Eh & Hv); try done; [by exists w, F|].
    exists x, s', g'. split; [done|]. split; [done|]. intros L. split; [done|]. exists w', F. rewrite Eq, Eh. split_and!; auto.
Qed.

Lemma gs_compute n t j k c : todo t = Compute j k -> idle t c ->
  gs n (Act (compute me j)) c (fun _ => idle (at_time t (time t + j) k)).
Proof.
  intros Ha Hi. pose proof (idle_task _ _ Hi) as Hd. rewrite Ha in Hd. destruct Hd as [Hj _].
  eapply gs_conseq; [apply (gs_idle _ _ t _ (fun _ => at_time t (time t + j) k) (fun _ => True)); [|done]|by intros ? ? []].
  intros w F s g _ Hon Hw V. destruct (view_entry _ _ _ _ _ _ V) as (Hwf & [q Hopen] & _).
  set (w' := set_fds (FdsOpen (pc_events j q)) w).
  assert (clock_wf w' /\ worker_time w' = time t + j) as [Hwf' Ht'].
  { unfold clock_wf in *. rewrite Hopen in Hwf. destruct Hwf as [Hr Hv]. unfold w', worker_time in *. simpl. rewrite Hopen, Hon in *.
    rewrite pc_events_running, pc_events_raw, Hr. split; [done|lia]. }
  destruct (change_local Free Free w w' t (at_time t (time t + j) k) Nobody F s g) as (g' & Hc & Hv); auto.
  - unfold w'. simpl. eauto.
  - simpl. lia.
  - right. unfold effect_of. by rewrite Ha.
  - exists tt, (upd_worker me (fun _ => w') s), g', 0, w'. split_and!; try done.
    unfold compute, modify. unfold upd_worker at 1. rewrite (view_worker _ _ _ _ _ _ _ V), Hopen. done.
Qed.
Lemma gs_load n t x k c : todo t = Load x k -> idle t c ->
  gs n (Act (gets (fun s => uvar s x))) c (fun v => idle (at_time t (time t) (k v))).
Proof.
  intros Ha Hi. pose proof (idle_task _ _ Hi) as Hd. rewrite Ha in Hd. destruct Hd as [Hx _].
  eapply gs_conseq; [apply (gs_idle _ _ t _ (fun v => at_time t (time t) (k v)) (fun _ => True)); [|done]|by intros ? ? []].
  intros w F s g (_ & _ & _ & _ & _ & Hh & _) Hon Hw V. destruct (view_entry _ _ _ _ _ _ V) as (Hwf & Hopen & _).
  pose proof (ll_var _ _ _ (lk_lock _ (v_linked _ _ _ _ _ _ V) x (Hh x Hx))) as Ev. simpl in Ev.
  destruct (change_local Free Free w w t (at_time t (time t) (k (uvar s x))) Nobody F s g) as (g' & Hc & Hv); auto.
  - simpl. lia.
  - right. unfold effect_of. by rewrite Ha, Ev.
  - assert (upd_worker me (fun _ => w) s ≈ s) as Es by (apply upd_worker_id; symmetry; apply (view_worker _ _ _ _ _ _ _ V)).
    exists (uvar s x), s, g', 0, w. split_and!; try done; [by eapply change_sim_r|]. intros L. eapply view_sim; [exact Es|]. apply Hv.
    eapply change_linked; [done|exact Hc|apply V].
Qed.
Lemma gs_store n t x v k c : todo t = Store x v k -> idle t c ->
  gs n (Act (modify (upd_uvar x (fun _ => v)))) c (fun _ => idle (at_time t (time t) k)).
Proof.
  intros Ha Hi. pose proof (idle_task _ _ Hi) as Hd. rewrite Ha in Hd. destruct Hd as [Hx _].
  eapply gs_conseq; [apply (gs_idle _ _ t _ (fun _ => at_time t (time t) k) (fun _ => True)); [|done]|by intros ? ? []].
  intros w F s g (_ & _ & _ & _ & _ & Hh & _) Hon Hw V. pose proof V as [V1 V2 V3 V4 V5 V6]. simpl in *.
  destruct (lk_thread _ V1 me me_ok) as [(u & Hu & Hul) T2 T3 T4]. simpl in *. rewrite V3 in Hu. injection Hu as <-.
  set (e := mkEffect (at_time t (time t) k) None (Some (x, v))).
  assert (effect_of (mach g) me t = Some e) as He by (unfold effect_of; by rewrite Ha).
  assert (forall y, var_of (apply_effect me e (mach g)) y = if decide (y = x) then v else var_of (mach g) y) as Ev.
  { intros y. unfold var_of, apply_effect. simpl. case_decide; [subst; by rewrite lookup_insert_eq|by rewrite lookup_insert_ne]. }
  exists tt, (upd_uvar x (fun _ => v) s), (mkGhost (apply_effect me e (mach g)) (pend g)), x, w. split_and!; try done.
  - constructor; simpl; repeat rt_frame; try done; auto.
    + right. by apply mstep_effect with t.
    + constructor; simpl; repeat rt_frame; try done. eexists. split; [by rewrite lookup_insert_eq|]. exact Hul.
    + intros y Hy. rewrite Ev, uvar_upd_ne, decide_False by done. done.
    + intros HxX. destruct (lk_lock _ V1 x HxX). simpl in *. constructor; simpl; repeat rt_frame; rewrite ?Ev, ?uvar_upd_eq, ?decide_True by done; done.
  - intros L. constructor; simpl; try done. by rewrite lookup_insert_eq.
Qed.

(** ** A thread that runs its task *)

Lemma gs_client n t c : idle t c -> gs n (client E me (todo t)) c (fun _ c' => exists t', todo t' = Finish /\ idle t' c').
Proof.
  remember (todo t) as tk eqn:Et. revert n t c Et. induction tk as [|j k IH|x k IH|x incr k IH|x k IH|x v k IH]; intros n t c Et Hi; simpl.
  - apply gs_ret. intros c' HR. exists t. split; [done|]. by eapply idle_stable.
  - eapply gs_bind; [apply _|by eapply gs_compute|]. cbv beta. intros. by eapply IH; [|done].
  - eapply gs_bind; [apply _|by eapply gs_lock|]. cbv beta. intros n1 _ c1 _ (t' & <- & ?). by eapply IH.
  - eapply gs_bind; [apply _|by eapply gs_unlock|]. cbv beta. intros n1 _ c1 _ (t' & <- & ?). by eapply IH.
  - eapply gs_bind; [apply _|by eapply gs_load|]. cbv beta. intros. by eapply IH; [|done].
  - eapply gs_bind; [apply _|by eapply gs_store|]. cbv beta. intros. by eapply IH; [|done].
Qed.
End Thread.
End Protocol.

(** ** Processes *)

(** Threads [0 .. N-1] run tasks, from a state where the clocks run and the mutexes are
    initialised and free. *)
Record ready {C} `{PerfCounter C} (N : Z) (X : gset Z) (tasks : gmap Z task) (s : rt C) : Prop := {
  rd_room : N < MAX_THR;
  rd_max : max_thr (glob s) = N;
  rd_num : 1 < num_thr (glob s);
  rd_spawned : spawned (pth s) = [];
  rd_tasks i : is_Some (tasks !! i) <-> 0 <= i < N;
  rd_task i tk : tasks !! i = Some tk -> disciplined X ∅ tk;
  rd_thread i : 0 <= i < N -> clock_wf (worker s i) /\ hw_clock_enabled (worker s i) = true /\
    (exists k, fds (worker s i) = FdsOpen k) /\ my_det_enabled (tlsv s i) = true;
  rd_lock x : x ∈ X -> 0 < m_id (mutex s (AObj x)) /\ ref (mutex s (AObj x)) <= 0 /\ m_holder (mutex s (AObj x)) = None /\
    Queue.wf (m_queue (mutex s (AObj x))) /\ Queue.size (m_queue (mutex s (AObj x))) = MAX_THR /\
    Queue.contents 0 (m_queue (mutex s (AObj x))) = []
}.

Definition start_tasks {C} `{PerfCounter C} (E : env) (s : rt C) (tasks : gmap Z task) : process :=
  mkProcess s (map_imap (fun i tk => Some (client E i tk)) tasks).
Definition all_done {C} (N : Z) (p : process (C:=C)) : Prop := forall i, 0 <= i < N -> threads p !! i = Some (Ret tt).

(** The machine that starts where the process starts. *)
Definition reference {C} `{PerfCounter C} (X : gset Z) (tasks : gmap Z task) (s : rt C) : machine :=
  mkMachine (map_imap (fun i tk => Some (mkThread (logical_time s i) false ∅ tk)) tasks)
    (set_to_map (fun x => (x, mkLock None (released_logical_time (mutex s (AObj x))) [])) X)
    (umem s).

(** The process shows what the machine has: its variables, mutexes and clocks. *)
Record shows {C} `{PerfCounter C} (X : gset Z) (s : rt C) (m : machine) : Prop := {
  sh_var x : x ∈ X -> uvar s x = var_of m x;
  sh_holder x : x ∈ X -> m_holder (mutex s (AObj x)) = holder (lock_of m x);
  sh_released x : x ∈ X -> holder (lock_of m x) = None -> released_logical_time (mutex s (AObj x)) = released (lock_of m x);
  sh_queue x : x ∈ X -> Queue.contents 0 (m_queue (mutex s (AObj x))) = waiters (lock_of m x);
  sh_time i t : thr m !! i = Some t -> logical_time s i = time t
}.

Section Start.
Context {C : Type} `{HC : PerfCounter C} `{!PerfCounterLaws C}.
Variables (E : env) (user : Z -> Z -> prog C unit) (N : Z) (X : gset Z) (tasks : gmap Z task) (s : rt C).
Hypothesis start : ready N X tasks s.

Lemma reference_thr i t : thr (reference X tasks s) !! i = Some t -> exists tk, tasks !! i = Some tk /\ t = mkThread (logical_time s i) false ∅ tk.
Proof. simpl. rewrite map_lookup_imap. intros (tk & Ht & [= <-])%bind_Some. eauto. Qed.
Lemma reference_lock x : lock_of (reference X tasks s) x = if decide (x ∈ X) then mkLock None (released_logical_time (mutex s (AObj x))) [] else lock0.
Proof.
  unfold lock_of. simpl. set (f := fun x => (x, mkLock None (released_logical_time (mutex s (AObj x))) [])).
  destruct (set_to_map f X !! x) as [l|] eqn:El; simpl.
  - apply lookup_set_to_map in El as (y & Hy & [= -> <-]); [|by intros]. by rewrite decide_True.
  - rewrite decide_False; [done|]. intros Hx. assert ((set_to_map f X : gmap Z lock) !! x = Some (snd (f x))) as E1; [|congruence].
    apply lookup_set_to_map; [by intros|]. by exists x.
Qed.
Lemma reference_ok : machine_ok X (reference X tasks s).
Proof.
  assert (forall x, holder (lock_of (reference X tasks s) x) = None /\ waiters (lock_of (reference X tasks s) x) = []) as Hl.
  { intros x. rewrite reference_lock. by case_decide. }
  constructor.
  - intros i t (tk & Ht & ->)%reference_thr. simpl. by eapply (rd_task _ _ _ _ start).
  - intros i t x (tk & Ht & ->)%reference_thr. destruct (Hl x) as [-> _]. simpl. rewrite elem_of_empty. by split.
  - intros x. destruct (Hl x) as [_ ->]. constructor.
  - intros x j. destruct (Hl x) as [_ ->]. by intros ?%elem_of_nil.
  - by intros i t (tk & Ht & ->)%reference_thr.
Qed.
Lemma start_linked : linked N X (s, mkGhost (reference X tasks s) Nobody).
Proof.
  constructor; simpl; try apply start.
  - apply reference_ok.
  - intros i t (tk & Ht & _)%reference_thr. by apply (rd_tasks _ _ _ _ start).
  - intros i Hi. destruct (rd_thread _ _ _ _ start i Hi) as (? & ? & ? & ?). constructor; try done.
    apply (rd_tasks _ _ _ _ start) in Hi as [tk Htk]. exists (mkThread (logical_time s i) false ∅ tk). simpl. by rewrite map_lookup_imap, Htk.
  - intros x Hx. destruct (rd_lock _ _ _ _ start x Hx) as (? & ? & ? & ? & ? & ?).
    constructor; simpl; rewrite ?reference_lock, ?decide_True by done; simpl; try done. lia.
  - done.
Qed.

Definition ends (i : Z) (c : rt C * ghost) : Prop := exists t, todo t = Finish /\ idle N X i t c.
Lemma tasks_pool n : pool_sim (Rely N X) (Guar N X) ends n (start_tasks E s tasks) (mkGhost (reference X tasks s) Nobody).
Proof.
  split; [apply start|]. intros i p Hi. simpl in *. rewrite map_lookup_imap in Hi. apply bind_Some in Hi as (tk & Htk & [= <-]).
  assert (0 <= i < N) as Hr by (apply (rd_tasks _ _ _ _ start); eauto).
  apply (gs_client E N X (rd_room _ _ _ _ start) i Hr n (mkThread (logical_time s i) false ∅ tk)).
  destruct (rd_thread _ _ _ _ start i Hr) as (? & ? & ? & ?). exists (worker s i), (fun _ => None). split_and!; try done.
  constructor; simpl; try done; [apply start_linked|by rewrite map_lookup_imap, Htk|].
  intros y Hy. destruct (rd_lock _ _ _ _ start y Hy) as (_ & _ & -> & _). done.
Qed.

(** The steps the guarantee allows are steps of the machine. *)
Lemma Guar_moves c c' : rtc (fun c c' => exists i, Guar N X i c c') c c' -> linked N X c ->
  linked N X c' /\ rtc (moves X) (mach (snd c)) (mach (snd c')).
Proof.
  induction 1 as [|c c1 c' [i [_ HG]] _ IH]; intros L; [done|]. destruct (HG L) as (L1 & Hm & _). destruct (IH L1) as [? Hr]. split; [done|].
  destruct Hm as [<-|Hm]; [done|]. eapply rtc_l; [|exact Hr]. split; [apply L|by exists i].
Qed.

Lemma reach_machine p : reachable E user (start_tasks E s tasks) p -> exists g,
  linked N X (state p, g) /\ rtc (moves X) (reference X tasks s) (mach g) /\ pool_sim (Rely N X) (Guar N X) ends 1 p g.
Proof.
  intros Hr. destruct (pool_sim_reachable E user (Rely N X) (Guar N X) ends (Guar_others N X)
    (fun i c c' HG => eq_trans (proj1 HG)) _ _ p tasks_pool Hr 1%nat) as (g & Hg & Hp).
  destruct (Guar_moves _ _ Hg start_linked) as [L Hm]. by exists g.
Qed.

Lemma done_shows p g : linked N X (state p, g) -> pool_sim (Rely N X) (Guar N X) ends 1 p g -> all_done N p ->
  finished (mach g) /\ shows X (state p) (mach g).
Proof.
  intros L Hp Hd. assert (forall i t, thr (mach g) !! i = Some t -> idle N X i t (state p, g) /\ todo t = Finish) as He.
  { intros i t Ht. pose proof (lk_dom _ _ _ L i t Ht) as Hi. destruct (pool_sim_end _ _ _ p g i Hp (Hd i Hi)) as (t' & Ef & Hid).
    assert (t' = t) as ->; [|done]. destruct Hid as (w & F & _ & _ & _ & _ & _ & V). pose proof (v_thr _ _ _ _ _ _ _ _ _ V) as Ht'. simpl in Ht'. congruence. }
  assert (pend g = Nobody) as Ep.
  { pose proof (lk_turn _ _ _ L) as Ht. simpl in Ht. destruct (pend g) as [|j x|j x] eqn:Eg; [done|exfalso..];
      pose proof (has_turn_thread _ _ _ _ L Ht) as Hj; destruct (lk_thread _ _ _ L j Hj) as [(t & Hj' & _) _ _ _]; destruct (He j t Hj') as [(w & F & _ & _ & _ & _ & _ & V) _];
      pose proof (v_pend _ _ _ _ _ _ _ _ _ V) as Ev; simpl in Ev; rewrite Eg in Ev; simpl in Ev; by rewrite decide_True in Ev. }
  split; [intros i t Ht; by destruct (He i t Ht)|]. constructor.
  - intros x Hx. apply (ll_var _ _ _ (lk_lock _ _ _ L x Hx)).
  - intros x Hx. pose proof (ll_holder _ _ _ (lk_lock _ _ _ L x Hx)) as Hh. simpl in Hh. by rewrite Ep in Hh.
  - intros x Hx. apply (ll_released _ _ _ (lk_lock _ _ _ L x Hx)).
  - intros x Hx. pose proof (ll_queue _ _ _ (lk_lock _ _ _ L x Hx)) as Hh. simpl in Hh. by rewrite Ep in Hh.
  - intros i t Ht. destruct (He i t Ht) as [(w & F & _ & Hw & _ & _ & _ & V) _]. unfold logical_time.
    pose proof (v_worker _ _ _ _ _ _ _ _ _ V) as Ew. simpl in Ew. by rewrite Ew.
Qed.
End Start.

(** C2. Refinement. Threads run tasks: computation, [det_lock] and
    [det_unlock_and_incr_clock] on the mutexes of [X], and uses of the shared variables of
    the mutexes they hold. Every state that the process reaches, under any schedule of the
    statements of the runtime, belongs to a state the machine reaches from the same start:
    the shared variables are the machine's, and no clock is ahead of the machine's. When all
    threads are done the machine has finished, and mutexes, queues, release times and clocks
    are the machine's too. *)
Theorem runtime_refines_machine {C} `{PerfCounter C} `{!PerfCounterLaws C} E user N X tasks (s : rt C) p :
  ready N X tasks s -> reachable E user (start_tasks E s tasks) p ->
  exists m, rtc (moves X) (reference X tasks s) m /\
    (forall x, x ∈ X -> uvar (state p) x = var_of m x) /\
    (forall i t, thr m !! i = Some t -> logical_time (state p) i <= time t) /\
    (all_done N p -> finished m /\ shows X (state p) m).
Proof.
  intros Hs Hr. destruct (reach_machine E user N X tasks s Hs p Hr) as (g & L & Hm & Hp). exists (mach g). split_and!; [done|..].
  - intros x Hx. apply (ll_var _ _ _ (lk_lock _ _ _ L x Hx)).
  - intros i t Ht. destruct (lk_thread _ _ _ L i (lk_dom _ _ _ L i t Ht)) as [(t' & Ht' & Hl) _ _ _]. simpl in *. by simplify_eq.
  - intros Hd. by eapply done_shows.
Qed.

(** C1. Determinism. Whatever the schedules, two executions of the same tasks from the same
    state that come to an end do so with the same shared variables, the same mutexes free,
    with the same release times, and the same logical clocks. *)
Theorem determinism {C} `{PerfCounter C} `{!PerfCounterLaws C} E user N X tasks (s : rt C) p1 p2 :
  ready N X tasks s ->
  reachable E user (start_tasks E s tasks) p1 -> all_done N p1 ->
  reachable E user (start_tasks E s tasks) p2 -> all_done N p2 ->
  (forall x, x ∈ X -> uvar (state p1) x = uvar (state p2) x /\
    m_holder (mutex (state p1) (AObj x)) = m_holder (mutex (state p2) (AObj x)) /\
    (m_holder (mutex (state p1) (AObj x)) = None ->
     released_logical_time (mutex (state p1) (AObj x)) = released_logical_time (mutex (state p2) (AObj x)))) /\
  (forall i, 0 <= i < N -> logical_time (state p1) i = logical_time (state p2) i).
Proof.
  intros Hs R1 D1 R2 D2.
  destruct (reach_machine E user N X tasks s Hs p1 R1) as (g1 & L1 & M1 & P1).
  destruct (reach_machine E user N X tasks s Hs p2 R2) as (g2 & L2 & M2 & P2).
  destruct (done_shows N X p1 g1 L1 P1 D1) as [F1 S1]. destruct (done_shows N X p2 g2 L2 P2 D2) as [F2 S2].
  pose proof (one_result X _ _ _ M1 F1 M2 F2) as Em. rewrite <- Em in S2. split.
  - intros x Hx. rewrite (sh_var _ _ _ S1), (sh_var _ _ _ S2), (sh_holder _ _ _ S1), (sh_holder _ _ _ S2) by done. split_and!; [done..|].
    intros Hn. by rewrite (sh_released _ _ _ S1), (sh_released _ _ _ S2).
  - intros i Hi. destruct (lk_thread _ _ _ L1 i Hi) as [(t & Ht & _) _ _ _]. by rewrite (sh_time _ _ _ S1 i t Ht), (sh_time _ _ _ S2 i t Ht).
Qed.

(** C3. One execution that ends bounds all. If one execution of the tasks comes to an end,
    then in no execution, under any schedule, does a clock ever pass what it is at that end.
    A try for a mutex that fails costs its thread a unit of logical time, so that no thread
    tries for ever: the threads of a deadlock would. *)
Theorem end_bounds_all {C} `{PerfCounter C} `{!PerfCounterLaws C} E user N X tasks (s : rt C) p1 p :
  ready N X tasks s ->
  reachable E user (start_tasks E s tasks) p1 -> all_done N p1 ->
  reachable E user (start_tasks E s tasks) p ->
  forall i, 0 <= i < N -> logical_time (state p) i <= logical_time (state p1) i.
Proof.
  intros Hs R1 D1 R i Hi.
  destruct (reach_machine E user N X tasks s Hs p1 R1) as (g1 & L1 & M1 & P1). destruct (reach_machine E user N X tasks s Hs p R) as (g & L & M & _).
  destruct (done_shows N X p1 g1 L1 P1 D1) as [F1 S1]. pose proof (ends_from X _ _ _ M1 F1 M) as Hend.
  destruct (lk_thread _ _ _ L i Hi) as [(t & Ht & Hl) _ _ _]. destruct (time_grows X _ _ i t Hend Ht) as (t1 & Ht1 & Hle). rewrite (sh_time _ _ _ S1 i t1 Ht1). simpl in *. lia.
Qed.

(** Threads 1 and 2 change variable 1 under mutex 1; the result depends on who comes first. *)
Import SimpleCounter Samples.
Module TwoWriters.
Definition tasks : gmap Z task :=
  {[0 := Finish;
    1 := Acquire 1 (Load 1 (fun v => Store 1 (2 * v + 1) (Release 1 1 (Compute 1000 Finish))));
    2 := Compute 2 (Acquire 1 (Load 1 (fun v => Store 1 (v * v + 3) (Release 1 1 Finish))))]}.

(** Thread 1 runs to its end, then thread 2; or they move in turn, thread 2 first. *)
Definition in_order : list Z := replicate 114 1 ++ replicate 114 2.
Definition in_turn : list Z := concat (replicate 114 [2; 1]) ++ replicate 90 2.
Definition run_all (l : list Z) : option process := schedule environment no_user l (start_tasks environment start tasks).

Lemma writers_ready : ready 3 {[1]} tasks start.
Proof.
  split; try done.
  - intros i. unfold tasks. rewrite !lookup_insert_is_Some, lookup_singleton_is_Some. lia.
  - intros i tk. unfold tasks. rewrite !lookup_insert_Some, lookup_singleton_Some.
    intros [[_ <-]|[_ [[_ <-]|[_ [_ <-]]]]]; simpl; repeat (set_solver || lia || split).
  - intros i Hi. apply (three_entries (fun i w => clock_wf w /\ hw_clock_enabled w = true /\ (exists k, fds w = FdsOpen k) /\ my_det_enabled (tlsv start i) = true));
      [..|done]; split_and!; try done; eexists; reflexivity.
  - intros x ->%elem_of_singleton. by split_and!.
Qed.
Lemma run_all_done l p : run_all l = Some p ->
  (match run_all l with Some p => threads p !! 1 | None => None end) = Some (Ret tt) ->
  (match run_all l with Some p => threads p !! 2 | None => None end) = Some (Ret tt) ->
  (match run_all l with Some p => threads p !! 0 | None => None end) = Some (Ret tt) -> all_done 3 p.
Proof. intros ->. intros H1 H2 H0 i Hi. assert (i = 0 \/ i = 1 \/ i = 2) as [->|[->| ->]] by lia; done. Qed.
Lemma run_all_reachable l p : run_all l = Some p -> reachable environment no_user (start_tasks environment start tasks) p.
Proof. apply schedule_reachable. Qed.
End TwoWriters.

Lemma runtime_refines_machine_witness :
  match TwoWriters.run_all TwoWriters.in_order with
  | Some p => exists m, rtc (moves {[1]}) (reference {[1]} TwoWriters.tasks start) m /\ finished m /\ var_of m 1 = 4
  | None => False
  end.
Proof.
  destruct (TwoWriters.run_all TwoWriters.in_order) as [p|] eqn:Ep; last first.
  { apply (f_equal (fun o => match o with Some _ => true | None => false end)) in Ep. by vm_compute in Ep. }
  destruct (runtime_refines_machine environment no_user 3 {[1]} TwoWriters.tasks start p TwoWriters.writers_ready
    (TwoWriters.run_all_reachable _ _ Ep)) as (m & Hm & Hv & _ & Hd).
  exists m. split; [done|]. split.
  - apply Hd. apply (TwoWriters.run_all_done TwoWriters.in_order); [done|vm_compute; reflexivity..].
  - rewrite <- Hv by (by apply elem_of_singleton).
    transitivity (match TwoWriters.run_all TwoWriters.in_order with Some p => uvar (state p) 1 | None => 0 end); [by rewrite Ep|vm_compute; reflexivity].
Defined.

Lemma determinism_witness :
  match TwoWriters.run_all TwoWriters.in_order, TwoWriters.run_all TwoWriters.in_turn with
  | Some p1, Some p2 => uvar (state p1) 1 = uvar (state p2) 1 /\ logical_time (state p1) 2 = logical_time (state p2) 2
  | _, _ => False
  end.
Proof.
  destruct (TwoWriters.run_all TwoWriters.in_order) as [p1|] eqn:E1; last first.
  { apply (f_equal (fun o => match o with Some _ => true | None => false end)) in E1. by vm_compute in E1. }
  destruct (TwoWriters.run_all TwoWriters.in_turn) as [p2|] eqn:E2; last first.
  { apply (f_equal (fun o => match o with Some _ => true | None => false end)) in E2. by vm_compute in E2. }
  destruct (determinism environment no_user 3 {[1]} TwoWriters.tasks start p1 p2 TwoWriters.writers_ready) as [Hx Hi].
  - by eapply TwoWriters.run_all_reachable.
  - apply (TwoWriters.run_all_done TwoWriters.in_order); [done|vm_compute; reflexivity..].
  - by eapply TwoWriters.run_all_reachable.
  - apply (TwoWriters.run_all_done TwoWriters.in_turn); [done|vm_compute; reflexivity..].
  - split; [apply Hx|apply Hi]; clear; [by apply elem_of_singleton|lia].
Defined.

(** After seventy turns each the threads are in the middle of their work. *)
Lemma end_bounds_all_witness :
  match TwoWriters.run_all TwoWriters.in_order, TwoWriters.run_all (concat (replicate 70 [2; 1])) with
  | Some p1, Some p => forall i, 0 <= i < 3 -> logical_time (state p) i <= logical_time (state p1) i
  | _, _ => False
  end.
Proof.
  destruct (TwoWriters.run_all TwoWriters.in_order) as [p1|] eqn:E1; last first.
  { apply (f_equal (fun o => match o with Some _ => true | None => false end)) in E1. by vm_compute in E1. }
  destruct (TwoWriters.run_all (concat (replicate 70 [2; 1]))) as [p|] eqn:E2; last first.
  { apply (f_equal (fun o => match o with Some _ => true | None => false end)) in E2. by vm_compute in E2. }
  apply (end_bounds_all environment no_user 3 {[1]} TwoWriters.tasks start p1 p TwoWriters.writers_ready).
  - by eapply TwoWriters.run_all_reachable.
  - apply (TwoWriters.run_all_done TwoWriters.in_order); [done|vm_compute; reflexivity..].
  - by eapply TwoWriters.run_all_reachable.
Defined.
