(* ===== verification/Pairs.v ===== *)
(** Two threads of the reference machine: how a run of two threads that use mutexes is
    followed in logical time, whatever the other threads' finished state. Since all runs of the
    machine lead to one result, it is enough to follow one. *)
From stdpp Require Import base list gmap sets relations.
From Stdlib Require Import ZArith Lia.
From S2P Require Import Prelude Machine.
Import Machine.

(** ** A variable with one writer left *)

Fixpoint no_store (x : Z) (t : task) : Prop :=
  match t with
  | Finish => True
  | Compute _ k | Acquire _ k | Release _ _ k => no_store x k
  | Load _ k => forall v, no_store x (k v)
  | Store y _ k => y <> x /\ no_store x k
  end.
(** [v] is the value of variable [x] at the end of [t], when it is [w] before and nobody else
    stores to it. *)
Fixpoint stores_last (x v : Z) (t : task) (w : Z) : Prop :=
  match t with
  | Finish => w = v
  | Compute _ k | Acquire _ k | Release _ _ k => stores_last x v k w
  | Load y k => if decide (y = x) then stores_last x v (k w) w else forall u, stores_last x v (k u) w
  | Store y u k => stores_last x v k (if decide (y = x) then u else w)
  end.
Lemma stores_nothing x t w : no_store x t -> stores_last x w t w.
Proof.
  induction t as [|n k IH|y k IH|y n k IH|y k IH|y u k IH]; simpl; intros H; auto.
  - case_decide; [by apply IH|]. intros u. by apply IH.
  - destruct H as [Hy H]. rewrite decide_False by done. auto.
Qed.
Record sole_writer (x v j : Z) (m : machine) : Prop := {
  sw_others i t : thr m !! i = Some t -> i <> j -> no_store x (todo t);
  sw_writer : exists t, thr m !! j = Some t /\ stores_last x v (todo t) (var_of m x)
}.
Lemma effect_no_store x m i t e : effect_of m i t = Some e -> no_store x (todo t) ->
  no_store x (todo (new_thread e)) /\ forall u, new_var e <> Some (x, u).
Proof.
  unfold effect_of, attempt. intros He Hn. destruct (todo t) as [|n k|y k|y n k|y k|y u k] eqn:Et; simpl in Hn; [done|..]; try (injection He as <-; simpl; done).
  - destruct (first m i (time t)); [|done]. injection He as <-. destruct (queued t); [case_bool_decide|]; simpl; by rewrite ?Et.
  - injection He as <-. simpl. destruct Hn as [Hne Hn]. split; [done|]. intros w [= ? _]. done.
Qed.
Lemma effect_stores_last x v m i t e : effect_of m i t = Some e -> stores_last x v (todo t) (var_of m x) ->
  stores_last x v (todo (new_thread e)) (var_of (apply_effect i e m) x).
Proof.
  unfold effect_of, attempt. intros He Hn. destruct (todo t) as [|n k|y k|y n k|y k|y u k] eqn:Et; simpl in Hn; [done|..]; try (injection He as <-; simpl; done).
  - destruct (first m i (time t)); [|done]. injection He as <-. destruct (queued t); [case_bool_decide|]; simpl; by rewrite ?Et.
  - injection He as <-. cbn [new_thread todo at_time]. rewrite var_of_apply by done. case_decide as Hd; [by subst|done].
  - injection He as <-. cbn [new_thread todo at_time]. unfold apply_effect, var_of. cbn [new_var insert_opt mem].
    case_decide as Hd; [subst; by rewrite lookup_insert_eq|by rewrite lookup_insert_ne].
Qed.
Lemma sole_writer_step x v j i m m' : sole_writer x v j m -> mstep i m = Some m' -> sole_writer x v j m'.
Proof.
  intros [Ho (tj & Hj & Hs)] Hm. unfold mstep in Hm. destruct (thr m !! i) as [t|] eqn:Et; [|done]. destruct (effect_of m i t) as [e|] eqn:Ee; [|done]. injection Hm as <-.
  destruct (decide (i = j)) as [->|Hne].
  - rewrite Hj in Et. injection Et as <-. split.
    + intros i' t' H' Hne. cbn [thr apply_effect] in H'. rewrite lookup_insert_ne in H' by done. by eapply Ho.
    + exists (new_thread e). cbn [thr apply_effect]. split; [apply lookup_insert_eq|]. by eapply effect_stores_last.
  - destruct (effect_no_store x m i t e Ee (Ho i t Et Hne)) as [Hn Hv]. split.
    + intros i' t' H' Hne'. cbn [thr apply_effect] in H'. apply thr_insert in H' as [[-> ->]|[_ H']]; [done|by eapply Ho].
    + exists tj. cbn [thr apply_effect]. rewrite lookup_insert_ne by done. split; [done|]. by rewrite var_of_apply.
Qed.
Lemma sole_writer_end x v j m m' Y : sole_writer x v j m -> rtc (moves Y) m m' -> finished m' -> var_of m' x = v.
Proof.
  intros Hw Hr Hf. induction Hr as [m|m m1 m' [_ [i Hi]] _ IH]; [|apply IH; [by eapply sole_writer_step|done]].
  destruct Hw as [_ (t & Ht & Hs)]. by rewrite (Hf j t Ht) in Hs.
Qed.

(** The same when [t] also reads the variable [c], which stays [u]. *)
Fixpoint stores_seeing (c u x v : Z) (t : task) (w : Z) : Prop :=
  match t with
  | Finish => w = v
  | Compute _ k | Acquire _ k | Release _ _ k => stores_seeing c u x v k w
  | Load y k => if decide (y = c) then stores_seeing c u x v (k u) w else forall z, stores_seeing c u x v (k z) w
  | Store y z k => stores_seeing c u x v k (if decide (y = x) then z else w)
  end.
Record seeing_writer (c u x v j : Z) (m : machine) : Prop := {
  se_value : var_of m c = u;
  se_constant i t : thr m !! i = Some t -> no_store c (todo t);
  se_others i t : thr m !! i = Some t -> i <> j -> no_store x (todo t);
  se_writer : exists t, thr m !! j = Some t /\ stores_seeing c u x v (todo t) (var_of m x)
}.
Lemma effect_stores_seeing c x v m i t e : effect_of m i t = Some e -> stores_seeing c (var_of m c) x v (todo t) (var_of m x) ->
  stores_seeing c (var_of m c) x v (todo (new_thread e)) (var_of (apply_effect i e m) x).
Proof.
  unfold effect_of, attempt. intros He Hn. destruct (todo t) as [|n k|y k|y n k|y k|y u k] eqn:Et; simpl in Hn; [done|..]; try (injection He as <-; simpl; done).
  - destruct (first m i (time t)); [|done]. injection He as <-. destruct (queued t); [case_bool_decide|]; simpl; by rewrite ?Et.
  - injection He as <-. cbn [new_thread todo at_time]. rewrite var_of_apply by done. case_decide as Hd; [by subst|done].
  - injection He as <-. cbn [new_thread todo at_time]. unfold apply_effect, var_of at 2. cbn [new_var insert_opt mem].
    case_decide as Hd; [subst; by rewrite lookup_insert_eq|by rewrite lookup_insert_ne].
Qed.
Lemma seeing_writer_step c u x v j i m m' : seeing_writer c u x v j m -> mstep i m = Some m' -> seeing_writer c u x v j m'.
Proof.
  intros [<- Hc Ho (tj & Hj & Hs)] Hm. unfold mstep in Hm. destruct (thr m !! i) as [t|] eqn:Et; [|done]. destruct (effect_of m i t) as [e|] eqn:Ee; [|done]. injection Hm as <-.
  destruct (effect_no_store c m i t e Ee (Hc i t Et)) as [Hn Hv].
  assert (forall i' t', thr (apply_effect i e m) !! i' = Some t' -> no_store c (todo t')) as Hc'.
  { intros i' t' H'. cbn [thr apply_effect] in H'. apply thr_insert in H' as [[-> ->]|[_ H']]; [done|by eapply Hc]. }
  destruct (decide (i = j)) as [->|Hne].
  - rewrite Hj in Et. injection Et as <-. split; [by apply var_of_apply|done| |].
    + intros i' t' H' Hne. cbn [thr apply_effect] in H'. rewrite lookup_insert_ne in H' by done. by eapply Ho.
    + exists (new_thread e). cbn [thr apply_effect]. split; [apply lookup_insert_eq|]. by eapply effect_stores_seeing.
  - destruct (effect_no_store x m i t e Ee (Ho i t Et Hne)) as [Hn' Hv']. split; [by apply var_of_apply|done| |].
    + intros i' t' H' Hne'. cbn [thr apply_effect] in H'. apply thr_insert in H' as [[-> ->]|[_ H']]; [done|by eapply Ho].
    + exists tj. cbn [thr apply_effect]. rewrite lookup_insert_ne by done. split; [done|]. by rewrite (var_of_apply _ _ _ x).
Qed.
Lemma seeing_writer_end c u x v j m m' Y : seeing_writer c u x v j m -> rtc (moves Y) m m' -> finished m' -> var_of m' x = v.
Proof.
  intros Hw Hr Hf. induction Hr as [m|m m1 m' [_ [i Hi]] _ IH]; [|apply IH; [by eapply seeing_writer_step|done]].
  destruct Hw as [_ _ _ (t & Ht & Hs)]. by rewrite (Hf j t Ht) in Hs.
Qed.

(** ** Two threads *)

Section Pair.
Variables (Y : gset Z) (i j : Z).
Hypothesis Hij : i <> j.

(** The threads are [i], [j] and others, which are done and whose time is at least [t0]. *)
Record pair (m : machine) (t0 : Z) (ti tj : thread) : Prop := {
  pr_ok : machine_ok Y m;
  pr_i : thr m !! i = Some ti;
  pr_j : thr m !! j = Some tj;
  pr_only u t : thr m !! u = Some t -> u = i \/ u = j \/ (t0 <= time t /\ todo t = Finish)
}.
Lemma pair_first m t0 ti tj t : pair m t0 ti tj -> t < t0 -> before t i (time tj) j -> first m i t = true.
Proof.
  intros [_ Hi Hj Ho] B0 Bj. unfold first. apply bool_decide_eq_true_2. intros u tu Hu.
  destruct (Ho u tu Hu) as [->|[->|[Ht _]]]; [by left|right; by simplify_eq|right; left; lia].
Qed.
(** A step of thread [i]. *)
Lemma pair_step m t0 ti tj e : pair m t0 ti tj -> effect_of m i ti = Some e ->
  moves Y m (apply_effect i e m) /\ pair (apply_effect i e m) t0 (new_thread e) tj.
Proof.
  intros [Hok Hi Hj Ho] He. assert (mstep i m = Some (apply_effect i e m)) as Hs by (unfold mstep; by rewrite Hi, He).
  split; [split; [done|by exists i]|]. split; cbn [thr apply_effect].
  - by eapply mstep_ok.
  - apply lookup_insert_eq.
  - by rewrite lookup_insert_ne.
  - intros u t Hu. apply thr_insert in Hu as [[-> _]|[_ Hu]]; [auto|by eapply Ho].
Qed.

(** What stays: mutexes and variables, but one of them. *)
Definition keeps (x : option Z) (m m' : machine) : Prop :=
  (forall b, Some b <> x -> lock_of m' b = lock_of m b) /\ (forall b, var_of m' b = var_of m b).

(** [i] computes, loads, stores, releases. *)
Lemma pair_compute m t0 t q h n k tj : pair m t0 (mkThread t q h (Compute n k)) tj -> exists m',
  rtc (moves Y) m m' /\ pair m' t0 (mkThread (t + n) q h k) tj /\ keeps None m m'.
Proof.
  intros Hp. destruct (pair_step m t0 _ tj _ Hp eq_refl) as [Hm Hp']. eexists. split; [by apply rtc_once|]. split; [exact Hp'|].
  split; intros b; [by rewrite lock_of_apply|by rewrite var_of_apply].
Qed.
Lemma pair_load m t0 t q h a k tj : pair m t0 (mkThread t q h (Load a k)) tj -> exists m',
  rtc (moves Y) m m' /\ pair m' t0 (mkThread t q h (k (var_of m a))) tj /\ keeps None m m'.
Proof.
  intros Hp. destruct (pair_step m t0 _ tj _ Hp eq_refl) as [Hm Hp']. eexists. split; [by apply rtc_once|]. split; [exact Hp'|].
  split; intros b; [by rewrite lock_of_apply|by rewrite var_of_apply].
Qed.
Lemma pair_store m t0 t q h a v k tj : pair m t0 (mkThread t q h (Store a v k)) tj -> exists m',
  rtc (moves Y) m m' /\ pair m' t0 (mkThread t q h k) tj /\ (forall b, lock_of m' b = lock_of m b) /\ var_of m' a = v.
Proof.
  intros Hp. destruct (pair_step m t0 _ tj _ Hp eq_refl) as [Hm Hp']. eexists. split; [by apply rtc_once|]. split; [exact Hp'|].
  split; [intros b; by rewrite lock_of_apply|]. unfold apply_effect, var_of. cbn [new_var insert_opt mem]. by rewrite lookup_insert_eq.
Qed.
Lemma pair_release m t0 t q h a n k tj : pair m t0 (mkThread t q h (Release a n k)) tj -> exists m',
  rtc (moves Y) m m' /\ pair m' t0 (mkThread (t + n) q (h ∖ {[a]}) k) tj /\
  lock_of m' a = mkLock None t (waiters (lock_of m a)) /\ keeps (Some a) m m'.
Proof.
  intros Hp. destruct (pair_step m t0 _ tj _ Hp eq_refl) as [Hm Hp']. eexists. split; [by apply rtc_once|]. split; [exact Hp'|].
  split; [rewrite lock_of_apply; cbn [new_lock]; by rewrite decide_True|].
  split; intros b; [intros Hb; rewrite lock_of_apply; cbn [new_lock]; rewrite decide_False by congruence; done|by rewrite var_of_apply].
Qed.

(** [i] waits in the queue until the mutex, which is free, was released before its time. *)
Lemma pair_spin m t0 t h a k tj r : pair m t0 (mkThread t true h (Acquire a k)) tj -> lock_of m a = mkLock None r [i] ->
  Z.max t (r + 1) < t0 -> before (Z.max t (r + 1)) i (time tj) j -> exists m',
  rtc (moves Y) m m' /\ pair m' t0 (mkThread (Z.max t (r + 1) + 1) false ({[a]} ∪ h) k) tj /\
  lock_of m' a = mkLock (Some i) r [] /\ keeps (Some a) m m'.
Proof.
  remember (Z.to_nat (r + 1 - t)) as n eqn:Hn. revert m t Hn. induction n as [|n IH]; intros m t Hn Hp Hl H0 Bj.
  - assert (Z.max t (r + 1) = t) as Et by lia. rewrite Et in *.
    assert (effect_of m i (mkThread t true h (Acquire a k)) = Some (mkEffect (mkThread (t + 1) false ({[a]} ∪ h) k) (Some (a, mkLock (Some i) r [])) None)) as E.
    { unfold effect_of. cbn [todo time]. rewrite (pair_first m t0 _ tj t Hp H0 Bj). unfold attempt. rewrite Hl. cbn [queued holder released waiters head tail time held].
      by rewrite bool_decide_eq_true_2 by (split_and!; [done|done|lia]). }
    destruct (pair_step m t0 _ tj _ Hp E) as [M1 P1]. eexists. split; [by apply rtc_once|]. split; [exact P1|].
    split; [rewrite lock_of_apply; cbn [new_lock]; by rewrite decide_True|].
    split; intros b; [intros Hb; rewrite lock_of_apply; cbn [new_lock]; rewrite decide_False by congruence; done|by rewrite var_of_apply].
  - assert (effect_of m i (mkThread t true h (Acquire a k)) = Some (mkEffect (mkThread (t + 1) true h (Acquire a k)) None None)) as E.
    { unfold effect_of. cbn [todo time]. rewrite (pair_first m t0 _ tj t Hp) by (unfold before in *; lia). unfold attempt. rewrite Hl. cbn [queued holder released waiters head tail time held].
      by rewrite bool_decide_eq_false_2 by (intros (_ & _ & ?); lia). }
    destruct (pair_step m t0 _ tj _ Hp E) as [M1 P1]. cbn [new_thread] in P1.
    destruct (IH _ (t + 1) ltac:(lia) P1) as (m' & M2 & P2 & L2 & K2); [by rewrite lock_of_apply|lia| |].
    { by replace (Z.max (t + 1) (r + 1)) with (Z.max t (r + 1)) by lia. }
    exists m'. split; [by eapply rtc_l|]. replace (Z.max t (r + 1)) with (Z.max (t + 1) (r + 1)) by lia. split; [done|]. split; [done|].
    destruct K2 as [K2 K2']. split; intros b; [intros Hb; rewrite K2 by done; by rewrite lock_of_apply|rewrite K2'; by rewrite var_of_apply].
Qed.
(** [i] asks for a free mutex, and gets it. *)
Lemma pair_acquire m t0 t h a k tj r : pair m t0 (mkThread t false h (Acquire a k)) tj -> lock_of m a = mkLock None r [] ->
  Z.max t (r + 1) < t0 -> before (Z.max t (r + 1)) i (time tj) j -> exists m',
  rtc (moves Y) m m' /\ pair m' t0 (mkThread (Z.max t (r + 1) + 1) false ({[a]} ∪ h) k) tj /\
  lock_of m' a = mkLock (Some i) r [] /\ keeps (Some a) m m'.
Proof.
  intros Hp Hl H0 Bj.
  assert (effect_of m i (mkThread t false h (Acquire a k)) = Some (mkEffect (mkThread t true h (Acquire a k)) (Some (a, mkLock None r [i])) None)) as E1.
  { unfold effect_of. cbn [todo time]. rewrite (pair_first m t0 _ tj t Hp) by (unfold before in *; lia). by rewrite Hl. }
  destruct (pair_step m t0 _ tj _ Hp E1) as [M1 P1]. cbn [new_thread] in P1.
  destruct (pair_spin _ t0 t h a k tj r P1) as (m' & M2 & P2 & L2 & K2 & K2'); [rewrite lock_of_apply; cbn [new_lock]; by rewrite decide_True|done|done|].
  exists m'. split; [by eapply rtc_l|]. split; [done|]. split; [done|].
  split; intros b; [intros Hb; rewrite K2 by done; rewrite lock_of_apply; cbn [new_lock]; rewrite decide_False by congruence; done|].
  rewrite K2'. by rewrite var_of_apply.
Qed.
End Pair.

Lemma pair_sym Y i j m t0 ti tj : pair Y i j m t0 ti tj -> pair Y j i m t0 tj ti.
Proof. intros [? ? ? Ho]. split; try done. intros u t Hu. destruct (Ho u t Hu) as [?|[?|?]]; auto. Qed.

(** After [i] has stored for the last time, [j] decides. *)
Lemma pair_outcome Y i j m t0 ti tj x v m' : pair Y i j m t0 ti tj -> no_store x (todo ti) -> stores_last x v (todo tj) (var_of m x) ->
  rtc (moves Y) m m' -> finished m' -> var_of m' x = v.
Proof.
  intros [_ Hi Hj Ho] Hn Hs Hr Hf. eapply (sole_writer_end x v j); [|exact Hr|done]. split; [|by exists tj].
  intros u t Hu Hne. destruct (Ho u t Hu) as [->|[->|[_ E]]]; [by simplify_eq|done|by rewrite E].
Qed.
