(* ===== verification/Tests.v ===== *)
(** A test of the runtime, [src/test/deadlock.c]: two threads take two mutexes in opposite
    order. Its [README] says that whether it deadlocks is decided by the input alone; here it
    is shown which input does what. *)
From stdpp Require Import base list gmap sets relations strings.
From Stdlib Require Import ZArith Lia.
From S2P Require Import Prelude Queue Runtime Clock Sync Threads Samples Turn RelyGuarantee TurnSafety Machine Ghost Determinism Pairs.
Import Machine.

Module Tests.

(** Mutex 1 and variable 1 are [l1] and [val1], 2 are [l2] and [val2]; 3 and 4 are the
    mutexes of the two threads' own entries. *)
Definition X : gset Z := {[1; 2; 3; 4]}.

Section Deadlock.
(** The events counted in [compute(input)], and between the calls of thread [i] that follow. *)
Variables (ev : Z -> Z) (cost : Z -> nat -> Z).

(** The end of a thread that nobody waits for: [det_exit] takes the mutex of its entry and
    releases it, and the clock moves behind all others. *)
Definition leave (own : Z) : task := Acquire own (Release own MAX_LOGICAL_CLOCK Finish).

Definition worker1 (input : Z) : task :=
  Compute (ev input) (Acquire 1 (Compute (cost 1 0) (Store 1 1
    (Acquire 2 (Compute (cost 1 1) (Store 2 1 (Compute (cost 1 2) (Release 2 1 (Compute (cost 1 3) (Release 1 1 (leave 3))))))))))).
Definition worker2 (input : Z) : task :=
  Compute (ev input) (Acquire 2 (Compute (cost 2 0) (Store 2 2
    (Acquire 1 (Compute (cost 2 1) (Store 1 2 (Compute (cost 2 2) (Release 1 1 (Compute (cost 2 3) (Release 2 1 (leave 4))))))))))).
(** The main thread, 0, waits for them. *)
Definition workers (x y : Z) : gmap Z task := {[0 := Finish; 1 := worker1 x; 2 := worker2 y]}.
End Deadlock.

(** ** Two threads and two mutexes *)

Section Pair.
Variables (Y : gset Z) (i j : Z).
Hypothesis Hij : i <> j.
(** [i], whose turn it is, takes a free mutex, computes and stores. *)
Lemma pair_take m t0 t h a c v k tj r : pair Y i j m t0 (mkThread t false h (Acquire a (Compute c (Store a v k)))) tj ->
  lock_of m a = mkLock None r [] -> r < t -> t < t0 -> before t i (time tj) j -> exists m',
  rtc (moves Y) m m' /\ pair Y i j m' t0 (mkThread (t + 1 + c) false ({[a]} ∪ h) k) tj /\
  lock_of m' a = mkLock (Some i) r [] /\ forall b, b <> a -> lock_of m' b = lock_of m b.
Proof.
  intros Hp Hl Hr B0 Bj. assert (Z.max t (r + 1) = t) as Et by lia.
  destruct (pair_acquire Y i j Hij m t0 t h a _ tj r Hp Hl) as (m1 & M1 & P1 & L1 & K1 & _); [by rewrite Et..|]. rewrite Et in P1.
  destruct (pair_compute Y i j Hij m1 t0 _ _ _ _ _ _ P1) as (m2 & M2 & P2 & K2 & _).
  destruct (pair_store Y i j Hij m2 t0 _ _ _ _ _ _ _ P2) as (m3 & M3 & P3 & K3 & _).
  exists m3. split; [etrans; [exact M1|]; by etrans|]. split; [done|]. split; [by rewrite K3, K2, L1|].
  intros b Hb. by rewrite K3, K2, K1 by congruence.
Qed.
(** [i] gets both mutexes before [j] asks for one. *)
Lemma pair_take_both m t0 t h a b c c' v k tj r r' : a <> b -> 0 <= c ->
  pair Y i j m t0 (mkThread t false h (Acquire a (Compute c (Store a v (Acquire b (Compute c' (Store b v k))))))) tj ->
  lock_of m a = mkLock None r [] -> lock_of m b = mkLock None r' [] -> r < t -> r' < t -> t + 1 + c < t0 -> before (t + 1 + c) i (time tj) j ->
  exists m' t', rtc (moves Y) m m' /\ pair Y i j m' t0 (mkThread t' false ({[b]} ∪ ({[a]} ∪ h)) k) tj.
Proof.
  intros Hab Hc Hp La Lb Ra Rb H0 Bj. destruct (pair_take m t0 t h a c v _ tj r Hp La Ra) as (m1 & M1 & P1 & _ & O1); [lia|unfold before in *; lia|].
  destruct (pair_take m1 t0 _ _ b c' v k tj r' P1) as (m2 & M2 & P2 & _); [by rewrite O1|lia|lia|done|].
  exists m2, (t + 1 + c + 1 + c'). split; [by etrans|done].
Qed.
End Pair.

(** Each of two threads has a mutex and asks for the other's. *)
Record crossed (Y : gset Z) (i j a b : Z) (m : machine) : Prop := {
  cr_pair : exists t0 ti tj, pair Y i j m t0 ti tj /\ (exists k, todo ti = Acquire b k) /\ (exists k, todo tj = Acquire a k);
  cr_a : holder (lock_of m a) = Some i;
  cr_b : holder (lock_of m b) = Some j
}.
Lemma crossed_sym Y i j a b m : crossed Y i j a b m -> crossed Y j i b a m.
Proof. intros [(t0 & ti & tj & Hp & ? & ?) ? ?]. split; [|done..]. exists t0, tj, ti. split; [by apply pair_sym|done]. Qed.
(** Asking for a mutex that someone has changes nothing of this. *)
Lemma asks_in_vain m i t x k e : todo t = Acquire x k -> holder (lock_of m x) <> None -> effect_of m i t = Some e ->
  todo (new_thread e) = Acquire x k /\ forall y, holder (lock_of (apply_effect i e m) y) = holder (lock_of m y).
Proof.
  intros Ht Hh He. unfold effect_of in He. rewrite Ht in He. destruct (first m i (time t)); [|done]. injection He as <-. destruct (queued t).
  - unfold attempt. rewrite bool_decide_eq_false_2 by (by intros (_ & ? & _)). split; [done|]. intros y. by rewrite lock_of_apply.
  - split; [done|]. intros y. rewrite lock_of_apply. cbn [new_lock]. by case_decide; subst.
Qed.
Section Crossed.
Variables (Y : gset Z) (i j : Z).
Hypothesis Hij : i <> j.
Lemma crossed_step_i a b m m' : crossed Y i j a b m -> mstep i m = Some m' -> crossed Y i j a b m'.
Proof.
  intros [(t0 & ti & tj & Hp & (k & Hi) & Hj) Ha Hb] Hs. unfold mstep in Hs. rewrite (pr_i _ _ _ _ _ _ _ Hp) in Hs. destruct (effect_of m i ti) as [e|] eqn:Ee; [|done]. injection Hs as <-.
  destruct (asks_in_vain m i ti b k e Hi) as [Ht Hh]; [by rewrite Hb|done|]. destruct (pair_step Y i j Hij m t0 ti tj e Hp Ee) as [_ Hp'].
  split; [|by rewrite Hh..]. exists t0, (new_thread e), tj. split; [done|]. split; [by exists k|done].
Qed.
End Crossed.
Lemma crossed_stays Y i j a b m m' : i <> j -> crossed Y i j a b m -> rtc (moves Y) m m' -> crossed Y i j a b m'.
Proof.
  intros Hij Hc Hr. induction Hr as [m|m m1 m' [_ [u Hu]] _ IH]; [done|]. apply IH.
  assert (u = i \/ u = j) as [-> | ->].
  - destruct Hc as [(t0 & ti & tj & Hp & _) _ _]. unfold mstep in Hu. destruct (thr m !! u) as [t|] eqn:Eu; [|done].
    destruct (pr_only _ _ _ _ _ _ _ Hp u t Eu) as [?|[?|[_ E]]]; [by left|by right|]. unfold effect_of in Hu. by rewrite E in Hu.
  - by eapply crossed_step_i.
  - apply crossed_sym. eapply crossed_step_i; try done. by apply crossed_sym.
Qed.
Lemma crossed_unfinished Y i j a b m : crossed Y i j a b m -> ~ finished m.
Proof. intros [(t0 & ti & tj & Hp & (k & Hi) & _) _ _] Hf. pose proof (Hf i ti (pr_i _ _ _ _ _ _ _ Hp)). congruence. Qed.
(** [i] gets one mutex, then [j] the other, before [i] asks for it. *)
Lemma pair_cross Y i j m t0 t u a b c d v w ki kj r r' : i <> j -> a <> b -> 0 <= c ->
  pair Y i j m t0 (mkThread t false ∅ (Acquire a (Compute c (Store a v (Acquire b ki))))) (mkThread u false ∅ (Acquire b (Compute d (Store b w (Acquire a kj))))) ->
  lock_of m a = mkLock None r [] -> lock_of m b = mkLock None r' [] -> r < t -> r' < u -> t < t0 -> u < t0 -> before t i u j -> before u j (t + 1 + c) i ->
  exists m', rtc (moves Y) m m' /\ crossed Y i j a b m'.
Proof.
  intros Hij Hab Hc Hp La Lb Ra Rb Ht Hu Bi Bj.
  destruct (pair_take Y i j Hij m t0 t ∅ a c v _ _ r Hp La Ra) as (m1 & M1 & P1 & La1 & O1); [done|done|].
  destruct (pair_take Y j i (not_eq_sym Hij) m1 t0 u ∅ b d w _ _ r' (pair_sym _ _ _ _ _ _ _ P1)) as (m2 & M2 & P2 & Lb2 & O2); [by rewrite O1|done|done|done|].
  exists m2. split; [by etrans|]. split; [|by rewrite O2, La1|by rewrite Lb2]. eexists t0, _, _. split; [apply pair_sym; exact P2|]. split; by eexists.
Qed.

(** ** The test *)

Section Outcome.
Context {C : Type} `{HC : PerfCounter C} `{!PerfCounterLaws C}.
Variables (ev : Z -> Z) (cost : Z -> nat -> Z) (x y : Z) (s : rt C).
Hypothesis start : ready 3 X (workers ev cost x y) s.

(** The times at which the threads ask for their first mutex. *)
Definition asks1 : Z := logical_time s 1 + ev x.
Definition asks2 : Z := logical_time s 2 + ev y.
(** The main thread waits behind all others; the mutexes are new. *)
Record fresh : Prop := {
  fr_main : asks1 + 1 + cost 1 0 < logical_time s 0 /\ asks2 + 1 + cost 2 0 < logical_time s 0;
  fr_locks a : a ∈ X -> released_logical_time (mutex s (AObj a)) < logical_time s 1 /\ released_logical_time (mutex s (AObj a)) < logical_time s 2
}.
Hypothesis new : fresh.

Lemma costs_ok : 0 <= ev x /\ 0 <= ev y /\ 0 <= cost 1 0 /\ 0 <= cost 2 0.
Proof.
  pose proof (rd_task _ _ _ _ start 1 (worker1 ev cost x) eq_refl) as H1. pose proof (rd_task _ _ _ _ start 2 (worker2 ev cost y) eq_refl) as H2. simpl in H1, H2. tauto.
Qed.
Lemma at_start : exists m tk1 tk2, rtc (moves X) (reference X (workers ev cost x y) s) m /\ worker1 ev cost x = Compute (ev x) tk1 /\ worker2 ev cost y = Compute (ev y) tk2 /\
  pair X 1 2 m (logical_time s 0) (mkThread asks1 false ∅ tk1) (mkThread asks2 false ∅ tk2) /\
  forall a, a ∈ X -> lock_of m a = mkLock None (released_logical_time (mutex s (AObj a))) [].
Proof.
  assert (pair X 1 2 (reference X (workers ev cost x y) s) (logical_time s 0) (mkThread (logical_time s 1) false ∅ (worker1 ev cost x)) (mkThread (logical_time s 2) false ∅ (worker2 ev cost y))) as P0.
  { split; try done; [by eapply reference_ok|]. intros u t Hu. apply reference_thr in Hu as (tk & Htk & ->).
    assert (0 <= u < 3) by (apply (rd_tasks _ _ _ _ start); eauto). assert (u = 0 \/ u = 1 \/ u = 2) as [->|[->| ->]] by lia; auto.
    injection Htk as <-. right. right. done. }
  destruct (pair_compute X 1 2 ltac:(done) _ _ _ _ _ _ _ _ P0) as (m1 & M1 & P1 & L1 & _).
  destruct (pair_compute X 2 1 ltac:(done) _ _ _ _ _ _ _ _ (pair_sym _ _ _ _ _ _ _ P1)) as (m2 & M2 & P2 & L2 & _).
  eexists m2, _, _. split; [by etrans|]. split; [reflexivity|]. split; [reflexivity|]. split; [by apply pair_sym|].
  intros a Ha. rewrite L2, L1 by done. rewrite (reference_lock X (workers ev cost x y) s). by rewrite decide_True.
Qed.

(** After one thread has had both mutexes the other is the only one to store. *)
Lemma last_writer i j v m t0 ti tj m' : pair X i j m t0 ti tj -> (forall a, a = 1 \/ a = 2 -> no_store a (todo ti)) ->
  (forall a w, a = 1 \/ a = 2 -> stores_last a v (todo tj) w) -> rtc (moves X) m m' -> finished m' -> var_of m' 1 = v /\ var_of m' 2 = v.
Proof. intros Hp Hn Hs Hr Hf. split; eapply pair_outcome; eauto. Qed.
Lemma machine_outcome m : rtc (moves X) (reference X (workers ev cost x y) s) m -> finished m ->
  (asks1 + 1 + cost 1 0 <= asks2 /\ var_of m 1 = 2 /\ var_of m 2 = 2) \/ (asks2 + 1 + cost 2 0 < asks1 /\ var_of m 1 = 1 /\ var_of m 2 = 1).
Proof.
  intros Hr Hf. destruct at_start as (m0 & tk1 & tk2 & M0 & [= <-] & [= <-] & P0 & L0). pose proof (ends_from X _ _ _ Hr Hf M0) as Hr0.
  destruct costs_ok as (C1 & C2 & C3 & C4), new as [[N1 N2] Hnew].
  assert (forall a, a = 1 \/ a = 2 -> exists r, lock_of m0 a = mkLock None r [] /\ r < asks1 /\ r < asks2) as Hlk.
  { intros a Ha. assert (a ∈ X) as HX by (destruct Ha as [-> | ->]; unfold X; set_solver). rewrite L0 by done. destruct (Hnew a HX). eexists. split; [done|]. unfold asks1, asks2. lia. }
  destruct (Hlk 1) as (r1 & K1 & R1 & R1'); [by left|]. destruct (Hlk 2) as (r2 & K2 & R2 & R2'); [by right|].
  assert (forall i j a b m', i <> j -> rtc (moves X) m0 m' -> ~ crossed X i j a b m') as Hno.
  { intros i j a b m' Hij Hm' Hcr. eapply (crossed_unfinished X i j a b m); [|done]. by eapply crossed_stays; [..|eapply ends_from]. }
  destruct (Z_le_gt_dec (asks1 + 1 + cost 1 0) asks2) as [HA|HA]; [left; split; [done|]|].
  { destruct (pair_take_both X 1 2 ltac:(done) m0 _ _ _ 1 2 _ _ _ _ _ r1 r2 ltac:(done) C3 P0) as (m1 & t' & M1 & P1); try done; [simpl; unfold before; lia|].
    eapply (last_writer 1 2 2 m1 _ _ _ m P1); [by intros a [-> | ->]|by intros a w [-> | ->]|by eapply ends_from|done]. }
  destruct (Z_lt_le_dec (asks2 + 1 + cost 2 0) asks1) as [HB|HB]; [right; split; [done|]|].
  { destruct (pair_take_both X 2 1 ltac:(done) m0 _ _ _ 2 1 _ _ _ _ _ r2 r1 ltac:(done) C4 (pair_sym _ _ _ _ _ _ _ P0)) as (m1 & t' & M1 & P1); try done; [simpl; unfold before; lia|].
    eapply (last_writer 2 1 1 m1 _ _ _ m P1); [by intros a [-> | ->]|by intros a w [-> | ->]|by eapply ends_from|done]. }
  exfalso. destruct (Z_le_gt_dec asks1 asks2) as [Hle|Hgt].
  - destruct (pair_cross X 1 2 m0 _ _ _ 1 2 _ _ _ _ _ _ r1 r2 ltac:(done) ltac:(done) C3 P0 K1 K2) as (m1 & M1 & Hc); try lia; [unfold before; lia..|].
    by apply Hno in Hc.
  - destruct (pair_cross X 2 1 m0 _ _ _ 2 1 _ _ _ _ _ _ r2 r1 ltac:(done) ltac:(done) C4 (pair_sym _ _ _ _ _ _ _ P0) K2 K1) as (m1 & M1 & Hc);
      try lia; [unfold before; lia..|]. by apply Hno in Hc.
Qed.
End Outcome.

(** C4. [deadlock.c] on the runtime. The outcome is decided by the input alone, whatever the
    schedule: when thread 1 asks for its second mutex before thread 2 asks for its first (in
    logical time, ties go to thread 1), every execution that ends leaves what thread 2 wrote;
    when thread 2 is that much ahead, what thread 1 wrote; otherwise the threads deadlock and
    no execution ends. *)
Theorem deadlock_test {C} `{PerfCounter C} `{!PerfCounterLaws C} E user ev cost x y (s : rt C) p :
  ready 3 X (workers ev cost x y) s -> fresh ev cost x y s ->
  reachable E user (start_tasks E s (workers ev cost x y)) p -> all_done 3 p ->
  (asks1 ev x s + 1 + cost 1 0%nat <= asks2 ev y s /\ uvar (state p) 1 = 2 /\ uvar (state p) 2 = 2) \/
  (asks2 ev y s + 1 + cost 2 0%nat < asks1 ev x s /\ uvar (state p) 1 = 1 /\ uvar (state p) 2 = 1).
Proof.
  intros Hs Hn Hr Hd. destruct (reach_machine E user 3 X _ s Hs p Hr) as (g & L & Hm & Hp). destruct (done_shows 3 X p g L Hp Hd) as [Hf Hsh].
  rewrite !(sh_var _ _ _ Hsh) by (unfold X; set_solver). by eapply machine_outcome.
Qed.

(** ** Samples *)

Import SimpleCounter Samples.
(** Thread [i] runs as far as it can. *)
Fixpoint drive (fuel : nat) (i : Z) (p : process) : process :=
  match fuel with
  | O => p
  | S fuel => match thread_step environment no_user i p with Some p' => drive fuel i p' | None => p end
  end.
Lemma drive_reachable fuel i p0 p : reachable environment no_user p0 p -> reachable environment no_user p0 (drive fuel i p).
Proof.
  revert p. induction fuel as [|fuel IH]; intros p Hr; [done|]. cbn [drive]. destruct (thread_step environment no_user i p) as [p'|] eqn:E; [|done].
  apply IH. by eapply reachable_step.
Qed.

Definition test_start : rt counter :=
  mkRt {[0 := running 0 MAX_LOGICAL_CLOCK; 1 := running 1 10; 2 := running 2 10]}
    {[0 := mkTls 0 true; 1 := mkTls 0 true; 2 := mkTls 0 true]}
    {[AObj 1 := a_mutex 1; AObj 2 := a_mutex 2; AObj 3 := a_mutex 3; AObj 4 := a_mutex 4]} ∅ ∅ ∅
    (mkGlobals 3 3 0 4 0 0 0 4) pthreads0 ∅ [].
Definition ev0 (n : Z) : Z := n.
Definition cost0 (i : Z) (k : nat) : Z := 2.
Definition test_process (x y : Z) : process := start_tasks environment test_start (workers ev0 cost0 x y).
(** Thread 2 computes, then thread 1 runs, then thread 2. *)
Definition test_run (x y : Z) : process := drive 2000 2 (drive 2000 1 (drive 1 2 (test_process x y))).
Lemma test_entries (P : Z -> worker_args counter -> Prop) : P 0 (running 0 MAX_LOGICAL_CLOCK) -> P 1 (running 1 10) -> P 2 (running 2 10) ->
  forall i, 0 <= i < 3 -> P i (worker test_start i).
Proof. intros ? ? ? i Hi. assert (i = 0 \/ i = 1 \/ i = 2) as [->|[->| ->]] by lia; done. Qed.
Lemma in_X a : a ∈ X -> a = 1 \/ a = 2 \/ a = 3 \/ a = 4.
Proof. unfold X. rewrite !elem_of_union, !elem_of_singleton. tauto. Qed.
Lemma test_ready x y : 0 <= x -> 0 <= y -> ready 3 X (workers ev0 cost0 x y) test_start.
Proof.
  intros Hx Hy. split; try done.
  - intros i. unfold workers. rewrite !lookup_insert_is_Some, lookup_singleton_is_Some. lia.
  - intros i tk. unfold workers. rewrite !lookup_insert_Some, lookup_singleton_Some. unfold worker1, worker2, leave, ev0, cost0, X, MAX_LOGICAL_CLOCK.
    intros [[_ <-]|[_ [[_ <-]|[_ [_ <-]]]]]; cbn [disciplined]; repeat (lia || split || (apply (bool_decide_unpack _); vm_compute; exact I)).
  - intros i Hi. apply (test_entries (fun i w => clock_wf w /\ hw_clock_enabled w = true /\ (exists k, fds w = FdsOpen k) /\ my_det_enabled (tlsv test_start i) = true));
      [..|done]; split_and!; try done; eexists; reflexivity.
  - intros a [->|[->|[->| ->]]]%in_X; by split_and!.
Qed.
Lemma test_fresh x y : 0 <= x < 1000 -> 0 <= y < 1000 -> fresh ev0 cost0 x y test_start.
Proof.
  intros Hx Hy. assert (logical_time test_start 0 = MAX_LOGICAL_CLOCK /\ logical_time test_start 1 = 10 /\ logical_time test_start 2 = 10) as (E0 & E1 & E2) by done.
  split; unfold asks1, asks2, ev0, cost0; rewrite ?E0, ?E1, ?E2; [unfold MAX_LOGICAL_CLOCK; lia|]. by intros a [->|[->|[->| ->]]]%in_X.
Qed.
Lemma test_run_done : all_done 3 (test_run 0 20).
Proof. intros i Hi. assert (i = 0 \/ i = 1 \/ i = 2) as [->|[->| ->]] by lia; vm_compute; reflexivity. Qed.

(** Thread 2 starts late; or both start at once. *)
Lemma deadlock_test_witness :
  (all_done 3 (test_run 0 20) /\ uvar (state (test_run 0 20)) 1 = 2 /\ uvar (state (test_run 0 20)) 2 = 2) /\
  (forall p, reachable environment no_user (test_process 0 0) p -> ~ all_done 3 p).
Proof.
  split.
  - split; [exact test_run_done|]. destruct (deadlock_test environment no_user ev0 cost0 0 20 test_start (test_run 0 20)) as [[_ H]|[H _]];
      [by apply test_ready|by apply test_fresh|do 3 apply drive_reachable; apply reachable_refl|exact test_run_done|exact H|by vm_compute in H].
  - intros p Hp Hd. destruct (deadlock_test environment no_user ev0 cost0 0 0 test_start p) as [[H _]|[H _]];
      [by apply test_ready|by apply test_fresh|exact Hp|exact Hd|by vm_compute in H..].
Defined.
End Tests.
