(* ===== verification/TestRaces.v ===== *)
(** Two more tests of the runtime. [src/test/bankacct.c]: two threads read and update an
    account in two critical sections each, so that an update may be lost; [src/test/order.c]:
    a thread uses a pointer that another one sets. Here it is shown which input does what, for
    every schedule. *)
From stdpp Require Import base list gmap sets relations strings.
From Stdlib Require Import ZArith Lia.
From S2P Require Import Prelude Queue Runtime Clock Sync Threads Samples Turn RelyGuarantee TurnSafety Machine Ghost Determinism Pairs Tests.
Import Machine.

(** ** Two critical sections each *)

(** The events counted around the calls of one thread. *)
Record costs := Costs { to_read : Z; reading : Z; after_read : Z; to_write : Z; writing : Z; after_write : Z; to_leave : Z }.

Definition write_part (c : costs) (x v : Z) (k : task) : task :=
  Acquire x (Compute (writing c) (Store x v (Compute (after_write c) (Release x 1 k)))).
Definition read_part (c : costs) (x : Z) (k : Z -> task) : task :=
  Acquire x (Compute (reading c) (Load x (fun b => Compute (after_read c) (Release x 1 (Compute (to_write c) (k b)))))).

(** When a thread that gets the mutex at time [t] releases it, and asks for it again. *)
Definition released_at (c : costs) (t : Z) : Z := t + 1 + reading c + after_read c.
Definition asks_again (c : costs) (t : Z) : Z := released_at c t + 1 + to_write c.
(** What is in the variable at the end, when [i] asks for it at [ti] and then [j] at [tj], the
    value is [v], and the two make [f] and [g] of it. *)
Definition outcome (c d : costs) (i j ti tj : Z) (f g : Z -> Z) (v : Z) : Z :=
  if bool_decide (before (asks_again c ti) i tj j) then g (f v)
  else if bool_decide (before (asks_again c ti) i (asks_again d (Z.max tj (released_at c ti + 1))) j) then g v else f v.

Section Sections.
Variables (Y : gset Z) (x : Z).

Section One.
Variables (i j : Z).
Hypothesis Hij : i <> j.
Lemma read_part_ok c k m t0 t h tj r : pair Y i j m t0 (mkThread t false h (read_part c x k)) tj -> lock_of m x = mkLock None r [] ->
  let T := Z.max t (r + 1) in T < t0 -> before T i (time tj) j -> exists m' h',
  rtc (moves Y) m m' /\ pair Y i j m' t0 (mkThread (asks_again c T) false h' (k (var_of m x))) tj /\
  lock_of m' x = mkLock None (released_at c T) [] /\ var_of m' x = var_of m x.
Proof.
  intros Hp Hl T H0 Bj. destruct (pair_acquire Y i j Hij _ _ _ _ _ _ _ _ Hp Hl H0 Bj) as (m1 & M1 & P1 & L1 & K1 & V1). fold T in P1.
  destruct (pair_compute Y i j Hij _ _ _ _ _ _ _ _ P1) as (m2 & M2 & P2 & K2 & V2).
  destruct (pair_load Y i j Hij _ _ _ _ _ _ _ _ P2) as (m3 & M3 & P3 & K3 & V3).
  destruct (pair_compute Y i j Hij _ _ _ _ _ _ _ _ P3) as (m4 & M4 & P4 & K4 & V4).
  destruct (pair_release Y i j Hij _ _ _ _ _ _ _ _ _ P4) as (m5 & M5 & P5 & L5 & K5 & V5).
  destruct (pair_compute Y i j Hij _ _ _ _ _ _ _ _ P5) as (m6 & M6 & P6 & K6 & V6).
  eexists m6, _. split; [do 5 (etrans; [eassumption|]); done|]. rewrite V2, V1 in P6. split; [exact P6|]. split.
  - by rewrite K6, L5, K4, K3, K2, L1.
  - by rewrite V6, V5, V4, V3, V2, V1.
Qed.
Lemma write_part_ok c v k m t0 t h tj r : pair Y i j m t0 (mkThread t false h (write_part c x v k)) tj -> lock_of m x = mkLock None r [] ->
  Z.max t (r + 1) < t0 -> before (Z.max t (r + 1)) i (time tj) j -> exists m' t' h',
  rtc (moves Y) m m' /\ pair Y i j m' t0 (mkThread t' false h' (Compute (after_write c) (Release x 1 k))) tj /\ var_of m' x = v.
Proof.
  intros Hp Hl H0 Bj. destruct (pair_acquire Y i j Hij _ _ _ _ _ _ _ _ Hp Hl H0 Bj) as (m1 & M1 & P1 & _).
  destruct (pair_compute Y i j Hij _ _ _ _ _ _ _ _ P1) as (m2 & M2 & P2 & _).
  destruct (pair_store Y i j Hij _ _ _ _ _ _ _ _ _ P2) as (m3 & M3 & P3 & _ & V3).
  eexists m3, _, _. split; [etrans; [exact M1|]; by etrans|]. by split.
Qed.
End One.

(** [i] comes first. *)
Lemma two_sections i j c d f g ki kj m t0 ti tj hi hj r m' : i <> j -> 0 <= reading c -> 0 <= after_read c -> 1 <= to_write c ->
  0 <= reading d -> 0 <= after_read d -> 1 <= to_write d -> no_store x ki -> no_store x kj ->
  pair Y i j m t0 (mkThread ti false hi (read_part c x (fun b => write_part c x (f b) ki)))
    (mkThread tj false hj (read_part d x (fun b => write_part d x (g b) kj))) ->
  lock_of m x = mkLock None r [] -> r < ti -> before ti i tj j ->
  asks_again c ti < t0 -> asks_again d (Z.max tj (released_at c ti + 1)) < t0 ->
  rtc (moves Y) m m' -> finished m' -> var_of m' x = outcome c d i j ti tj f g (var_of m x).
Proof.
  intros Hij C1 C2 C3 D1 D2 D3 Ni Nj Hp Hl Hr Bij T1 T2 Hm Hf. set (v := var_of m x).
  set (si := asks_again c ti) in *. set (ri := released_at c ti) in *. assert (ti < ri /\ ri + 1 < si) as [Hri Hsi] by (unfold si, ri, asks_again, released_at; lia).
  set (aj := Z.max tj (ri + 1)) in *. set (sj := asks_again d aj) in *. set (rj := released_at d aj) in *.
  assert (aj < rj /\ rj + 1 < sj) as [Hrj Hsj] by (unfold sj, rj, asks_again, released_at; lia).
  assert (Z.max ti (r + 1) = ti) as Et by lia. unfold before in Bij.
  destruct (read_part_ok i j Hij c _ m t0 ti hi _ r Hp Hl) as (m1 & h1 & M1 & P1 & L1 & V1); [rewrite Et; lia|rewrite Et; exact Bij|].
  rewrite Et in P1, L1. fold si in P1. fold ri in L1. fold v in P1, V1. pose proof (ends_from Y _ _ _ Hm Hf M1) as E1.
  unfold outcome. fold si ri aj sj. case_bool_decide as HA.
  - destruct (write_part_ok i j Hij c (f v) ki m1 t0 si h1 _ ri P1 L1) as (m2 & t2 & h2 & M2 & P2 & V2); [lia|replace (Z.max si (ri + 1)) with si by lia; exact HA|].
    eapply (pair_outcome Y i j); [exact P2|done| |by eapply ends_from|done]. rewrite V2. simpl. rewrite !decide_True by done. by apply stores_nothing.
  - assert (before tj j si i) as HA' by (unfold before in *; lia).
    destruct (read_part_ok j i (not_eq_sym Hij) d _ m1 t0 tj hj _ ri (pair_sym _ _ _ _ _ _ _ P1) L1) as (m2 & h2 & M2 & P2 & L2 & V2).
    { unfold before in HA'. lia. } { simpl. fold aj. unfold before in *. lia. }
    fold aj in P2, L2. fold sj in P2. fold rj in L2. rewrite V1 in P2, V2. pose proof (ends_from Y _ _ _ E1 Hf M2) as E2. case_bool_decide as HB.
    + destruct (write_part_ok i j Hij c (f v) ki m2 t0 si h1 _ rj (pair_sym _ _ _ _ _ _ _ P2) L2) as (m3 & t3 & h3 & M3 & P3 & V3).
      { lia. } { simpl. unfold before in *. lia. }
      eapply (pair_outcome Y i j); [exact P3|done| |by eapply ends_from|done]. simpl. rewrite !decide_True by done. by apply stores_nothing.
    + destruct (write_part_ok j i (not_eq_sym Hij) d (g v) kj m2 t0 sj h2 _ rj P2 L2) as (m3 & t3 & h3 & M3 & P3 & V3).
      { lia. } { simpl. unfold before in *. lia. }
      eapply (pair_outcome Y j i); [exact P3|done| |by eapply ends_from|done]. simpl. rewrite !decide_True by done. by apply stores_nothing.
Qed.
End Sections.

(** ** [bankacct.c] *)

Module Bank.

(** Mutex 1 and variable 1 are [lock] and [g_account]; 2 are the mutex and [finished] of the
    entry of thread 1. *)
Definition X : gset Z := {[1; 2]}.

Section Account.
Variable (cost : Z -> costs).

(** [amount] is added, or taken; [k] follows. *)
Definition Deposit (i amount : Z) (k : task) : task :=
  Compute (to_read (cost i)) (read_part (cost i) 1 (fun balance => write_part (cost i) 1 (balance + amount) k)).
Definition Withdraw (i amount : Z) (k : task) : task :=
  Compute (to_read (cost i)) (read_part (cost i) 1 (fun balance => write_part (cost i) 1 (balance - amount) k)).

(** The end of the created thread ([det_exit]), and [pthread_join] up to the point where the
    main thread waits, or does not. The signal that wakes a waiting main thread is left out:
    nobody uses the account after it. *)
Definition leave : task := Compute (to_leave (cost 1)) (Acquire 2 (Store 2 1 (Release 2 MAX_LOGICAL_CLOCK Finish))).
Definition join : task := Compute (to_leave (cost 0)) (Acquire 2 (Load 2 (fun finished =>
  if finished =? 0 then Release 2 MAX_LOGICAL_CLOCK Finish else Release 2 1 Finish))).
(** The threads after [pthread_create]. *)
Definition main : gmap Z task := {[0 := Withdraw 0 2 join; 1 := Deposit 1 1 leave]}.
End Account.

Section Outcome.
Context {C : Type} `{HC : PerfCounter C} `{!PerfCounterLaws C}.
Variables (cost : Z -> costs) (s : rt C).
Hypothesis start : ready 2 X (main cost) s.

Definition asks (i : Z) : Z := logical_time s i + to_read (cost i).
Definition withdraw (b : Z) : Z := b - 2.
Definition deposit (b : Z) : Z := b + 1.
(** What is on the account at the end. *)
Definition balance : Z :=
  if bool_decide (before (asks 0) 0 (asks 1) 1) then outcome (cost 0) (cost 1) 0 1 (asks 0) (asks 1) withdraw deposit (uvar s 1)
  else outcome (cost 1) (cost 0) 1 0 (asks 1) (asks 0) deposit withdraw (uvar s 1).
(** The mutex is new, and something is counted between two critical sections. *)
Record fresh : Prop := {
  fr_lock i : i = 0 \/ i = 1 -> released_logical_time (mutex s (AObj 1)) < logical_time s i;
  fr_gap i : i = 0 \/ i = 1 -> 1 <= to_write (cost i)
}.
Hypothesis new : fresh.

Lemma bank_costs_ok i : i = 0 \/ i = 1 -> 0 <= to_read (cost i) /\ 0 <= reading (cost i) /\ 0 <= after_read (cost i).
Proof.
  pose proof (rd_task _ _ _ _ start 0 _ eq_refl) as H0. pose proof (rd_task _ _ _ _ start 1 _ eq_refl) as H1. simpl in H0, H1.
  intros [-> | ->]; [destruct H0 as (? & _ & _ & ? & _ & H)|destruct H1 as (? & _ & _ & ? & _ & H)]; destruct (H 0) as [? _]; done.
Qed.
Lemma machine_balance m : rtc (moves X) (reference X (main cost) s) m -> finished m -> var_of m 1 = balance.
Proof.
  intros Hr Hf. destruct (bank_costs_ok 0) as (A1 & A2 & A3); [by left|]. destruct (bank_costs_ok 1) as (B1 & B2 & B3); [by right|].
  destruct new as [Fl Fg]. pose proof (Fl 0 ltac:(by left)). pose proof (Fl 1 ltac:(by right)). pose proof (Fg 0 ltac:(by left)). pose proof (Fg 1 ltac:(by right)).
  set (m0 := reference X (main cost) s) in *.
  assert (forall t0, pair X 0 1 m0 t0 (mkThread (logical_time s 0) false ∅ (Withdraw cost 0 2 (join cost))) (mkThread (logical_time s 1) false ∅ (Deposit cost 1 1 (leave cost)))) as P0.
  { intros t0. split; try done; [by eapply reference_ok|]. intros u t Hu. apply reference_thr in Hu as (tk & Htk & ->).
    assert (0 <= u < 2) by (apply (rd_tasks _ _ _ _ start); eauto). lia. }
  unfold Withdraw, Deposit in P0. set (t0 := 1 + Z.max (Z.max (asks_again (cost 0) (asks 0)) (asks_again (cost 1) (Z.max (asks 1) (released_at (cost 0) (asks 0) + 1))))
    (Z.max (asks_again (cost 1) (asks 1)) (asks_again (cost 0) (Z.max (asks 0) (released_at (cost 1) (asks 1) + 1))))).
  destruct (pair_compute X 0 1 ltac:(done) _ _ _ _ _ _ _ _ (P0 t0)) as (m1 & M1 & P1 & L1 & V1).
  destruct (pair_compute X 1 0 ltac:(done) _ _ _ _ _ _ _ _ (pair_sym _ _ _ _ _ _ _ P1)) as (m2 & M2 & P2 & L2 & V2).
  assert (lock_of m2 1 = mkLock None (released_logical_time (mutex s (AObj 1))) []) as Hl.
  { rewrite L2, L1 by done. unfold m0. rewrite reference_lock. by rewrite decide_True by (unfold X; set_solver). }
  assert (var_of m2 1 = uvar s 1) as Hv by (rewrite V2, V1; done). fold (asks 0) in P2. fold (asks 1) in P2.
  assert (rtc (moves X) m2 m) as E2 by (eapply ends_from; [exact Hr|done|by etrans]).
  unfold balance. rewrite <- Hv. case_bool_decide as HB.
  - eapply (two_sections X 1 0 1 (cost 0) (cost 1) withdraw deposit (join cost) (leave cost) m2 t0); try done;
      [intros v; by destruct (v =? 0)|apply pair_sym; exact P2|unfold asks; lia|lia|lia].
  - eapply (two_sections X 1 1 0 (cost 1) (cost 0) deposit withdraw (leave cost) (join cost) m2 t0); try done;
      [intros v; by destruct (v =? 0)|unfold asks; lia|unfold before in *; lia|lia|lia].
Qed.
End Outcome.

(** C36. [bankacct.c] on the runtime, from the point where both threads exist, the mutex of
    the account was last released before the time of either thread, and each thread counts at
    least one event between its first critical section and its second. What is on the account
    at the end is decided by the logical times alone, whatever the schedule; and the assertion
    of the test holds exactly when one of the threads asks for the account the second time, to
    update it, before the other one asks for it the first time (in logical time, ties go to
    the main thread). Otherwise an update is lost. *)
Theorem bank_account_test {C} `{PerfCounter C} `{!PerfCounterLaws C} E user cost (s : rt C) p :
  ready 2 X (main cost) s -> fresh cost s -> uvar s 1 = 10 ->
  reachable E user (start_tasks E s (main cost)) p -> all_done 2 p ->
  uvar (state p) 1 = balance cost s /\
  (uvar (state p) 1 = 9 <->
     before (asks_again (cost 0) (asks cost s 0)) 0 (asks cost s 1) 1 \/
     before (asks_again (cost 1) (asks cost s 1)) 1 (asks cost s 0) 0).
Proof.
  intros Hs Hn H10 Hr Hd. destruct (reach_machine E user 2 X _ s Hs p Hr) as (g & L & Hm & Hp). destruct (done_shows 2 X p g L Hp Hd) as [Hf Hsh].
  assert (uvar (state p) 1 = balance cost s) as Eb by (rewrite (sh_var _ _ _ Hsh) by (unfold X; set_solver); by eapply machine_balance).
  split; [exact Eb|]. rewrite Eb. unfold balance, outcome, withdraw, deposit. rewrite H10.
  destruct (bank_costs_ok cost s Hs 0) as (A1 & A2 & A3); [by left|]. destruct (bank_costs_ok cost s Hs 1) as (B1 & B2 & B3); [by right|].
  pose proof (fr_gap _ _ Hn 0 ltac:(by left)). pose proof (fr_gap _ _ Hn 1 ltac:(by right)). unfold asks_again, released_at in *.
  repeat case_bool_decide; unfold before in *; lia.
Qed.

(** *** Samples *)

Import SimpleCounter Samples.
Definition bank_start : rt counter :=
  mkRt {[0 := running 0 10; 1 := running 1 10]} {[0 := mkTls 0 true; 1 := mkTls 0 true]}
    {[AObj 1 := a_mutex 1; AObj 2 := a_mutex 2]} ∅ ∅ {[1 := 10]} (mkGlobals 2 2 0 2 0 0 0 2) pthreads0 ∅ [].
(** The created thread needs [n] events to come to its first lock. *)
Definition bank_cost (n i : Z) : costs := Costs (if i =? 1 then n else 0) 1 1 1 1 1 1.
Definition bank_process (n : Z) : process := start_tasks environment bank_start (main (bank_cost n)).
Definition bank_run (n : Z) : process :=
  Tests.drive 2000 1 (Tests.drive 2000 0 (Tests.drive 2000 1 (Tests.drive 2000 0 (Tests.drive 2000 1 (Tests.drive 2000 0 (Tests.drive 1 1 (bank_process n))))))).

Lemma bank_ready n : 0 <= n -> ready 2 X (main (bank_cost n)) bank_start.
Proof.
  intros Hn. split; try done.
  - intros i. unfold main. rewrite lookup_insert_is_Some, lookup_singleton_is_Some. lia.
  - intros i tk. unfold main. rewrite lookup_insert_Some, lookup_singleton_Some. unfold Withdraw, Deposit, join, leave, read_part, write_part, bank_cost, X, MAX_LOGICAL_CLOCK.
    intros [[_ <-]|[_ [_ <-]]]; cbn; repeat (lia || (apply (bool_decide_unpack _); vm_compute; exact I) || split || intros ?).
    destruct (_ =? 0); cbn; repeat (lia || (apply (bool_decide_unpack _); vm_compute; exact I) || split).
  - intros i Hi. assert (i = 0 \/ i = 1) as [-> | ->] by lia; split_and!; try done; eexists; reflexivity.
  - intros a Ha. assert (a = 1 \/ a = 2) as [-> | ->] by (unfold X in Ha; by rewrite elem_of_union, !elem_of_singleton in Ha); by split_and!.
Qed.
Lemma bank_fresh n : 0 <= n -> fresh (bank_cost n) bank_start.
Proof. intros Hn. split; intros i [-> | ->]; vm_compute; congruence || reflexivity. Qed.
Lemma bank_run_done n : n = 0 \/ n = 50 -> all_done 2 (bank_run n).
Proof. intros Hn i Hi. assert (i = 0 \/ i = 1) as [-> | ->] by lia; destruct Hn as [-> | ->]; vm_compute; reflexivity. Qed.

(** The created thread starts late, and nothing is lost; or at once, and the withdrawal is. *)
Lemma bank_account_test_witness : uvar (state (bank_run 50)) 1 = 9 /\ uvar (state (bank_run 0)) 1 = 11.
Proof.
  split.
  - apply (bank_account_test environment no_user (bank_cost 50) bank_start (bank_run 50)); [by apply bank_ready|by apply bank_fresh|reflexivity|
      do 7 apply Tests.drive_reachable; apply reachable_refl|apply bank_run_done; auto|left; left; vm_compute; reflexivity].
  - destruct (bank_account_test environment no_user (bank_cost 0) bank_start (bank_run 0)) as [-> _]; [by apply bank_ready|by apply bank_fresh|reflexivity|
      do 7 apply Tests.drive_reachable; apply reachable_refl|apply bank_run_done; auto|vm_compute; reflexivity].
Defined.
End Bank.

(** ** [order.c] *)

Module Order.
Import Tests.

(** Mutex 1 and variable 1 are [lock] and [my_thread_ptr], which is null when it is 0; 3 and 4
    are the mutexes of the threads' own entries, and variable 4 keeps the pointer that
    [worker2] has used: with the null pointer the program crashes there. *)
Section Workers.
Variables (ev : Z -> Z) (cost : Z -> nat -> Z).
Definition worker1 (input : Z) : task :=
  Compute (ev input) (Acquire 1 (Compute (cost 1 0) (Store 1 1 (Compute (cost 1 1) (Release 1 1 (leave 3)))))).
Definition worker2 (input : Z) : task :=
  Compute (ev input) (Acquire 1 (Compute (cost 2 0) (Load 1 (fun ptr => Compute (cost 2 1) (Release 1 1
    (Acquire 4 (Store 4 ptr (Release 4 MAX_LOGICAL_CLOCK Finish)))))))).
(** The main thread, 0, waits for them. *)
Definition workers (x y : Z) : gmap Z task := {[0 := Finish; 1 := worker1 x; 2 := worker2 y]}.
End Workers.

Section Outcome.
Context {C : Type} `{HC : PerfCounter C} `{!PerfCounterLaws C}.
Variables (ev : Z -> Z) (cost : Z -> nat -> Z) (x y : Z) (s : rt C).
Hypothesis start : ready 3 X (workers ev cost x y) s.

(** The main thread waits behind the others, the mutex is new, and the pointer is null. *)
Record fresh : Prop := {
  fr_main : asks1 ev x s < logical_time s 0 /\ asks2 ev y s < logical_time s 0;
  fr_lock : released_logical_time (mutex s (AObj 1)) < asks1 ev x s /\ released_logical_time (mutex s (AObj 1)) < asks2 ev y s;
  fr_null : uvar s 1 = 0
}.
Hypothesis new : fresh.

Lemma machine_order m : rtc (moves X) (reference X (workers ev cost x y) s) m -> finished m ->
  var_of m 4 = if asks1 ev x s <=? asks2 ev y s then 1 else 0.
Proof.
  intros Hr Hf. set (m0 := reference X (workers ev cost x y) s) in *. destruct new as [[N1 N2] [R1 R2] Hnull].
  assert (pair X 1 2 m0 (logical_time s 0) (mkThread (logical_time s 1) false ∅ (worker1 ev cost x)) (mkThread (logical_time s 2) false ∅ (worker2 ev cost y))) as P0.
  { split; try done; [by eapply reference_ok|]. intros u t Hu. apply reference_thr in Hu as (tk & Htk & ->).
    assert (0 <= u < 3) by (apply (rd_tasks _ _ _ _ start); eauto). assert (u = 0 \/ u = 1 \/ u = 2) as [->|[->| ->]] by lia; auto.
    injection Htk as <-. right. right. done. }
  unfold worker1, worker2 in P0. destruct (pair_compute X 1 2 ltac:(done) _ _ _ _ _ _ _ _ P0) as (m1 & M1 & P1 & L1 & V1).
  destruct (pair_compute X 2 1 ltac:(done) _ _ _ _ _ _ _ _ (pair_sym _ _ _ _ _ _ _ P1)) as (m2 & M2 & P2 & L2 & V2).
  fold (asks1 ev x s) in P2. fold (asks2 ev y s) in P2. set (r := released_logical_time (mutex s (AObj 1))) in *.
  assert (lock_of m2 1 = mkLock None r []) as Hl.
  { rewrite L2, L1 by done. unfold m0. rewrite reference_lock. by rewrite decide_True by (unfold X; set_solver). }
  assert (var_of m2 1 = 0) as Hv by (rewrite V2, V1; exact Hnull).
  assert (rtc (moves X) m2 m) as E2 by (eapply ends_from; [exact Hr|done|by etrans]). destruct (Z.leb_spec (asks1 ev x s) (asks2 ev y s)) as [Hle|Hgt].
  - assert (Z.max (asks1 ev x s) (r + 1) = asks1 ev x s) as Em by lia.
    destruct (pair_acquire X 1 2 ltac:(done) _ _ _ _ _ _ _ _ (pair_sym _ _ _ _ _ _ _ P2) Hl) as (m3 & M3 & P3 & _); [lia|rewrite Em; unfold before; simpl; lia|].
    destruct (pair_compute X 1 2 ltac:(done) _ _ _ _ _ _ _ _ P3) as (m4 & M4 & P4 & _).
    destruct (pair_store X 1 2 ltac:(done) _ _ _ _ _ _ _ _ _ P4) as (m5 & M5 & P5 & _ & V5).
    assert (rtc (moves X) m5 m) as E5 by (eapply ends_from; [exact E2|done|]; etrans; [exact M3|]; by etrans).
    destruct P5 as [_ Hi Hj Ho]. eapply (seeing_writer_end 1 1 4 1 2); [|exact E5|done]. split; [exact V5| | |by eexists].
    + intros u t Hu. destruct (Ho u t Hu) as [->|[->|[_ E]]]; [by simplify_eq..|by rewrite E].
    + intros u t Hu Hne. destruct (Ho u t Hu) as [->|[->|[_ E]]]; [by simplify_eq|done|by rewrite E].
  - assert (Z.max (asks2 ev y s) (r + 1) = asks2 ev y s) as Em by lia.
    destruct (pair_acquire X 2 1 ltac:(done) _ _ _ _ _ _ _ _ P2 Hl) as (m3 & M3 & P3 & _ & _ & V3); [lia|rewrite Em; unfold before; simpl; lia|].
    destruct (pair_compute X 2 1 ltac:(done) _ _ _ _ _ _ _ _ P3) as (m4 & M4 & P4 & _ & V4).
    destruct (pair_load X 2 1 ltac:(done) _ _ _ _ _ _ _ _ P4) as (m5 & M5 & P5 & _). rewrite V4, V3, Hv in P5.
    eapply (pair_outcome X 1 2); [apply pair_sym; exact P5|done|done| |done].
    eapply ends_from; [exact E2|done|]. etrans; [exact M3|]. by etrans.
Qed.
End Outcome.

(** [order.c] on the runtime: whatever the schedule, [worker2] uses the pointer that [worker1]
    has set exactly when [worker1] asks for the mutex first (in logical time, ties go to it);
    otherwise it uses the null pointer. *)
Lemma order_test {C} `{PerfCounter C} `{!PerfCounterLaws C} E user ev cost x y (s : rt C) p :
  ready 3 X (workers ev cost x y) s -> fresh ev x y s ->
  reachable E user (start_tasks E s (workers ev cost x y)) p -> all_done 3 p ->
  uvar (state p) 4 = if asks1 ev x s <=? asks2 ev y s then 1 else 0.
Proof.
  intros Hs Hn Hr Hd. destruct (reach_machine E user 3 X _ s Hs p Hr) as (g & L & Hm & Hp). destruct (done_shows 3 X p g L Hp Hd) as [Hf Hsh].
  rewrite (sh_var _ _ _ Hsh) by (unfold X; set_solver). by eapply machine_order.
Qed.
End Order.
