(* ===== verification/DetLibc.v ===== *)
(** The memory functions of [src/src/det-libc.c], which programs use in place of the C
    library's so that their events are counted deterministically: byte-by-byte loops over a
    flat memory, and the functions of the C library they must agree with. *)
From stdpp Require Import base list gmap.
From Stdlib Require Import ZArith Lia.
From S2P Require Import Prelude.

Module DetLibc.

(** Bytes at addresses; an address that is not mapped may be neither read nor written. *)
Abbreviation mem := (gmap Z Z).
Definition load (m : mem) (a : Z) : option Z := m !! a.
Definition store (m : mem) (a v : Z) : option mem :=
  match m !! a with Some _ => Some (<[a := v]> m) | None => None end.

(** ** The functions *)

(** [while (--n != 0) *d++ = 0;] with [n] zeros left to write. *)
Fixpoint pad (n : nat) (m : mem) (d : Z) : option mem :=
  match n with
  | O => Some m
  | S n => let? m := store m d 0 in pad n m (d + 1)
  end.

(** The [do ... while (--n != 0)] loop, entered with [n] bytes left, [n > 0]. *)
Fixpoint strncpy_loop (n : nat) (m : mem) (d s : Z) : option mem :=
  match n with
  | O => Some m
  | S n =>
      let? c := load m s in
      let? m := store m d c in
      if c =? 0 then pad n m (d + 1) else strncpy_loop n m (d + 1) (s + 1)
  end.
Definition detio_strncpy (m : mem) (dst src : Z) (n : nat) : option (Z * mem) :=
  let? m := if (n =? 0)%nat then Some m else strncpy_loop n m dst src in Some (dst, m).

Fixpoint memset_loop (count : nat) (m : mem) (a s : Z) : option mem :=
  match count with
  | O => Some m
  | S count => let? m := store m a (to_uchar s) in memset_loop count m (a + 1) s
  end.
Definition detio_memset (m : mem) (dst s : Z) (count : nat) : option (Z * mem) :=
  let? m := memset_loop count m dst s in Some (dst, m).

(** [*a++ = *b++] and [*a-- = *b--], [count] times. *)
Fixpoint copy_up (count : nat) (m : mem) (a b : Z) : option mem :=
  match count with
  | O => Some m
  | S count => let? c := load m b in let? m := store m a c in copy_up count m (a + 1) (b + 1)
  end.
Fixpoint copy_down (count : nat) (m : mem) (a b : Z) : option mem :=
  match count with
  | O => Some m
  | S count => let? c := load m b in let? m := store m a c in copy_down count m (a - 1) (b - 1)
  end.

Definition detio_memmove (m : mem) (dst src : Z) (count : nat) : option (Z * mem) :=
  if src =? dst then Some (dst, m)
  else if dst <? src then
    let? m := copy_up count m dst src in Some (dst, m)
  else
    let? m := copy_down count m (dst + Z.of_nat count - 1) (src + Z.of_nat count - 1) in Some (dst, m).

Definition detio_memcpy (m : mem) (destaddr srcaddr : Z) (len : nat) : option (Z * mem) :=
  let? m := copy_up len m destaddr srcaddr in Some (destaddr, m).

(** ** Specification *)

Definition mapped (m : mem) (a : Z) (n : nat) : Prop :=
  forall x, a <= x < a + Z.of_nat n -> is_Some (m !! x).

(** [m'] is [m] with the [n] bytes at [dst] replaced by what [f] says. *)
Definition replaced (m m' : mem) (dst : Z) (n : nat) (f : Z -> option Z) : Prop :=
  forall x, m' !! x = if decide (dst <= x < dst + Z.of_nat n) then f x else m !! x.

(** The memory after copying [n] bytes: the bytes of the source as they were before. *)
Definition copied (m m' : mem) (dst src : Z) (n : nat) : Prop :=
  replaced m m' dst n (fun x => m !! (src + (x - dst))).

(** The bytes of the string at [src], without the terminating NUL, followed by NULs. *)
Definition str_at (m : mem) (src : Z) (l : list Z) : Prop :=
  Forall (fun c => c <> 0) l /\
  forall i : nat, (i <= length l)%nat -> m !! (src + Z.of_nat i) = (l ++ [0]) !! i.

(** ** Lemmas *)

Lemma store_mapped m a v : is_Some (m !! a) -> store m a v = Some (<[a := v]> m).
Proof. unfold store. by intros [? ->]. Qed.
Lemma mapped_insert m a n x v : mapped m a n -> mapped (<[x := v]> m) a n.
Proof. intros Hm y Hy. rewrite lookup_insert_is_Some'. right. auto. Qed.
Lemma mapped_le m a b n k : mapped m a n -> a <= b -> b + Z.of_nat k <= a + Z.of_nat n -> mapped m b k.
Proof. intros Hm Ha Hb x Hx. apply Hm. lia. Qed.

Lemma memset_loop_spec n m a s : mapped m a n ->
  exists m', memset_loop n m a s = Some m' /\ replaced m m' a n (fun _ => Some (to_uchar s)).
Proof.
  revert m a. induction n as [|n IH]; intros m a Hm; simpl.
  - exists m. split; [done|]. intros x. rewrite decide_False by lia. done.
  - rewrite store_mapped by (apply Hm; lia).
    destruct (IH (<[a := to_uchar s]> m) (a + 1)) as (m' & -> & Hr).
    { apply mapped_insert. eapply mapped_le; [done|lia|lia]. }
    exists m'. split; [done|]. intros x. rewrite Hr. repeat case_decide; try lia; try done.
    + replace x with a by lia. by rewrite lookup_insert_eq.
    + by rewrite lookup_insert_ne by lia.
Qed.

(** Copying upwards is right when the destination does not start inside the source. *)
Lemma copy_up_spec n m a b : mapped m a n -> mapped m b n -> a <= b \/ b + Z.of_nat n <= a ->
  exists m', copy_up n m a b = Some m' /\ copied m m' a b n.
Proof.
  revert m a b. induction n as [|n IH]; intros m a b Ha Hb Hd; cbn [copy_up].
  - exists m. split; [done|]. intros x. rewrite decide_False by lia. done.
  - destruct (Hb b ltac:(lia)) as [c Hc]. unfold load. rewrite Hc. simpl.
    rewrite store_mapped by (apply Ha; lia).
    destruct (IH (<[a := c]> m) (a + 1) (b + 1)) as (m' & -> & Hr).
    { apply mapped_insert. eapply mapped_le; [exact Ha|lia|lia]. }
    { apply mapped_insert. eapply mapped_le; [exact Hb|lia|lia]. }
    { lia. }
    exists m'. split; [done|]. intros x. rewrite Hr. repeat case_decide; try lia.
    + rewrite lookup_insert_ne by lia. f_equal. lia.
    + replace x with a by lia. rewrite lookup_insert_eq, Z.sub_diag, Z.add_0_r. done.
    + by rewrite lookup_insert_ne by lia.
Qed.

(** Copying downwards, from the last bytes [a] and [b], when it does not end inside. *)
Lemma copy_down_spec n m a b :
  mapped m (a - Z.of_nat n + 1) n -> mapped m (b - Z.of_nat n + 1) n ->
  b <= a \/ a < b - Z.of_nat n + 1 ->
  exists m', copy_down n m a b = Some m' /\ copied m m' (a - Z.of_nat n + 1) (b - Z.of_nat n + 1) n.
Proof.
  revert m a b. induction n as [|n IH]; intros m a b Ha Hb Hd; cbn [copy_down].
  - exists m. split; [done|]. intros x. rewrite decide_False by lia. done.
  - destruct (Hb b ltac:(lia)) as [c Hc]. unfold load. rewrite Hc. simpl.
    rewrite store_mapped by (apply Ha; lia).
    destruct (IH (<[a := c]> m) (a - 1) (b - 1)) as (m' & -> & Hr).
    { apply mapped_insert. eapply mapped_le; [exact Ha|lia|lia]. }
    { apply mapped_insert. eapply mapped_le; [exact Hb|lia|lia]. }
    { lia. }
    exists m'. split; [done|]. intros x. rewrite Hr. repeat case_decide; try lia.
    + rewrite lookup_insert_ne by lia. f_equal. lia.
    + replace x with a by lia. rewrite lookup_insert_eq. rewrite <- Hc. f_equal. lia.
    + by rewrite lookup_insert_ne by lia.
Qed.

Lemma pad_spec n m d : mapped m d n ->
  exists m', pad n m d = Some m' /\ replaced m m' d n (fun _ => Some 0).
Proof.
  revert m d. induction n as [|n IH]; intros m d Hm; simpl.
  - exists m. split; [done|]. intros x. rewrite decide_False by lia. done.
  - rewrite store_mapped by (apply Hm; lia).
    destruct (IH (<[d := 0]> m) (d + 1)) as (m' & -> & Hr).
    { apply mapped_insert. eapply mapped_le; [done|lia|lia]. }
    exists m'. split; [done|]. intros x. rewrite Hr. repeat case_decide; try lia; try done.
    + replace x with d by lia. by rewrite lookup_insert_eq.
    + by rewrite lookup_insert_ne by lia.
Qed.

Lemma memmove_spec m dst src n : mapped m dst n -> mapped m src n ->
  exists m', detio_memmove m dst src n = Some (dst, m') /\ copied m m' dst src n.
Proof.
  intros Hd Hs. unfold detio_memmove. destruct (Z.eqb_spec src dst) as [->|Hne].
  { exists m. split; [done|]. intros x. case_decide; [|done]. f_equal. lia. }
  destruct (Z.ltb_spec dst src).
  - destruct (copy_up_spec n m dst src Hd Hs ltac:(lia)) as (m' & -> & Hc). by exists m'.
  - destruct (copy_down_spec n m (dst + Z.of_nat n - 1) (src + Z.of_nat n - 1)) as (m' & -> & Hc).
    + by replace (dst + Z.of_nat n - 1 - Z.of_nat n + 1) with dst by lia.
    + by replace (src + Z.of_nat n - 1 - Z.of_nat n + 1) with src by lia.
    + lia.
    + exists m'. split; [done|].
      replace (dst + Z.of_nat n - 1 - Z.of_nat n + 1) with dst in Hc by lia.
      by replace (src + Z.of_nat n - 1 - Z.of_nat n + 1) with src in Hc by lia.
Qed.

(** Reads of the rest of a string through a write in front of it. *)
Lemma str_at_tail m src c l : str_at m src (c :: l) -> str_at m (src + 1) l.
Proof.
  intros [Hn Hl]. apply Forall_cons in Hn as [_ Hn]. split; [done|]. intros i Hi.
  specialize (Hl (S i) ltac:(simpl; lia)). simpl in Hl. rewrite <- Hl. f_equal. lia.
Qed.
Lemma str_at_insert m src l d v k : str_at m src l -> d < src \/ src + Z.of_nat k <= d ->
  (length l < k)%nat -> str_at (<[d := v]> m) src l.
Proof.
  intros [Hn Hl] Hd Hk. split; [done|]. intros i Hi. rewrite lookup_insert_ne by lia. auto.
Qed.

(** The bytes [strncpy] leaves at the destination. *)
Definition strncpy_bytes (l : list Z) (dst x : Z) : option Z := Some (default 0 (l !! Z.to_nat (x - dst))).

Lemma strncpy_loop_spec n m dst src l : str_at m src l -> mapped m dst n ->
  dst + Z.of_nat n <= src \/ src + Z.of_nat (length l) < dst ->
  exists m', strncpy_loop n m dst src = Some m' /\ replaced m m' dst n (strncpy_bytes l dst).
Proof.
  revert m dst src l. induction n as [|n IH]; intros m dst src l Hs Hm Hd; cbn [strncpy_loop].
  { exists m. split; [done|]. intros x. rewrite decide_False by lia. done. }
  pose proof (proj2 Hs 0%nat ltac:(lia)) as H0. rewrite Z.add_0_r in H0. unfold load. rewrite H0.
  destruct l as [|c l]; simpl.
  - rewrite store_mapped by (apply Hm; lia). simpl.
    destruct (pad_spec n (<[dst := 0]> m) (dst + 1)) as (m' & -> & Hr).
    { apply mapped_insert. eapply mapped_le; [exact Hm|lia|lia]. }
    exists m'. split; [done|]. intros x. rewrite Hr. unfold strncpy_bytes. repeat case_decide; try lia; try done.
    + replace x with dst by lia. by rewrite lookup_insert_eq.
    + by rewrite lookup_insert_ne by lia.
  - rewrite store_mapped by (apply Hm; lia). pose proof (proj1 Hs) as Hnz. apply Forall_cons in Hnz as [Hc _].
    destruct (Z.eqb_spec c 0); [done|].
    destruct (IH (<[dst := c]> m) (dst + 1) (src + 1) l) as (m' & -> & Hr).
    { apply (str_at_insert _ _ _ _ _ (S (length l))); [by eapply str_at_tail|simpl in Hd; lia|lia]. }
    { apply mapped_insert. eapply mapped_le; [exact Hm|lia|lia]. }
    { simpl in Hd. lia. }
    exists m'. split; [done|]. intros x. rewrite Hr. unfold strncpy_bytes. repeat case_decide; try lia.
    + replace (Z.to_nat (x - dst)) with (S (Z.to_nat (x - (dst + 1)))) by lia. done.
    + replace x with dst by lia. by rewrite lookup_insert_eq, Z.sub_diag.
    + by rewrite lookup_insert_ne by lia.
Qed.

(** [detio_memmove] is [memmove]: with both ranges accessible and overlapping in any way,
    it makes no invalid access, returns the destination, the destination receives the bytes
    the source held before the call, and no other byte changes. *)
Theorem memmove_correct m dst src n : mapped m dst n -> mapped m src n ->
  exists m', detio_memmove m dst src n = Some (dst, m') /\
    forall x, m' !! x = if decide (dst <= x < dst + Z.of_nat n) then m !! (src + (x - dst)) else m !! x.
Proof. apply memmove_spec. Qed.

(** [detio_memcpy] agrees with [detio_memmove], result and memory, whenever the destination
    does not start inside the source. *)
Theorem memcpy_is_memmove m dst src n : mapped m dst n -> mapped m src n ->
  dst <= src \/ src + Z.of_nat n <= dst ->
  detio_memcpy m dst src n = detio_memmove m dst src n /\ is_Some (detio_memcpy m dst src n).
Proof.
  intros Hd Hs Ho. destruct (memmove_spec m dst src n Hd Hs) as (m1 & -> & H1).
  unfold detio_memcpy. destruct (copy_up_spec n m dst src Hd Hs Ho) as (m2 & -> & H2).
  split; [|by eexists]. do 2 f_equal. apply map_eq. intros x. by rewrite H1, H2.
Qed.

(** [detio_strncpy] is [strncpy]: from a source string that does not overlap the
    destination it makes no invalid access (in particular it does not read past the
    terminating NUL), the destination receives the first [n] bytes of the string, padded with
    NULs when it is shorter, and no other byte changes; [detio_memset] fills its range with
    the low byte of its argument and changes nothing else. *)
Lemma strncpy_memset_correct m dst src n l c : mapped m dst n -> str_at m src l ->
  dst + Z.of_nat n <= src \/ src + Z.of_nat (length l) < dst ->
  (exists m', detio_strncpy m dst src n = Some (dst, m') /\
    replaced m m' dst n (fun x => Some (default 0 (l !! Z.to_nat (x - dst))))) /\
  (exists m', detio_memset m dst c n = Some (dst, m') /\ replaced m m' dst n (fun _ => Some (c mod 256))).
Proof.
  intros Hd Hs Ho. split.
  - unfold detio_strncpy. destruct (strncpy_loop_spec n m dst src l Hs Hd Ho) as (m' & Hm & Hr).
    destruct n as [|n]; simpl; [|exists m'; cbn [strncpy_loop] in Hm; by rewrite Hm].
    exists m. split; [done|]. intros x. rewrite decide_False by lia. done.
  - unfold detio_memset. destruct (memset_loop_spec n m dst c Hd) as (m' & -> & Hr). by exists m'.
Qed.

(** *** Witnesses *)

(** The string "abc" at 100, and six more bytes at 110. *)
Definition a_memory : mem :=
  list_to_map (zip [100; 101; 102; 103; 110; 111; 112; 113; 114; 115]
                   [97; 98; 99; 0; 1; 2; 3; 4; 5; 6]).
Lemma a_memory_mapped n a : bool_decide (Forall (fun i => is_Some (a_memory !! (a + Z.of_nat i))) (seq 0 n)) = true ->
  mapped a_memory a n.
Proof.
  intros Hb%bool_decide_eq_true x Hx. rewrite Forall_forall in Hb.
  specialize (Hb (Z.to_nat (x - a))). rewrite elem_of_seq in Hb. specialize (Hb ltac:(lia)).
  by replace (a + Z.of_nat (Z.to_nat (x - a))) with x in Hb by lia.
Qed.

(** Overlapping: four bytes from 110 to 112. *)
Lemma memmove_correct_witness :
  exists m', detio_memmove a_memory 112 110 4 = Some (112, m') /\ m' !! 114 = Some 3 /\ m' !! 111 = Some 2.
Proof.
  destruct (memmove_correct a_memory 112 110 4) as (m' & Hm & Hx); [by apply a_memory_mapped..|].
  exists m'. split; [exact Hm|]. rewrite !Hx. done.
Defined.
Lemma memcpy_is_memmove_witness : detio_memcpy a_memory 110 112 4 = detio_memmove a_memory 110 112 4.
Proof. apply (memcpy_is_memmove a_memory 110 112 4); [by apply a_memory_mapped..|lia]. Defined.
Lemma strncpy_memset_correct_witness :
  exists m', detio_strncpy a_memory 110 100 5 = Some (110, m') /\ m' !! 112 = Some 99 /\ m' !! 114 = Some 0.
Proof.
  destruct (strncpy_memset_correct a_memory 110 100 5 [97; 98; 99] 7) as [(m' & Hm & Hx) _];
    [by apply a_memory_mapped| |simpl; lia|].
  - split; [repeat constructor; done|]. intros i Hi. do 4 (destruct i as [|i]; [done|]). simpl in Hi. lia.
  - exists m'. split; [exact Hm|]. rewrite !Hx. done.
Defined.
End DetLibc.
