(* ===== verification/DetIO.v ===== *)
(** The input and output calls of [src/src/det-libc.c] and [src/src/det-posix.c]: each runs
    the C library's function with the caller's clock stopped and then charges a fixed number
    of events, so that the logical time does not depend on how long the call took. *)
From stdpp Require Import base list gmap strings.
From Stdlib Require Import ZArith Lia.
From S2P Require Import Prelude Queue Runtime Clock Sync Threads Samples Turn Mutexes Pause.
Open Scope m_scope.

(** The functions of the C library and the system. Pointers, descriptors and flags are
    numbers; the arguments of a variadic function are a list. *)
Record libc (C : Type) := mkLibc {
  x_usleep : Z -> M C Z;
  x_sleep : Z -> M C Z;
  x_sysconf : Z -> M C Z;
  x_getopt : Z -> Z -> Z -> M C Z;
  x_sigwait : Z -> Z -> M C Z;
  x_sigfillset : Z -> M C Z;
  x_valloc : Z -> M C Z;
  x_free : Z -> M C Z;
  x_realloc : Z -> Z -> M C Z;
  x_getenv : Z -> M C Z;
  x_putchar : Z -> M C Z;
  x_vsnprintf : Z -> Z -> Z -> list Z -> M C Z;
  x_fflush : Z -> M C Z;
  x_vfprintf : Z -> Z -> list Z -> M C Z;
  x_fgets : Z -> Z -> Z -> M C Z;
  x_fgetc : Z -> M C Z;
  x_vfscanf : Z -> Z -> list Z -> M C Z;
  x_vsscanf : Z -> Z -> list Z -> M C Z;
  x_fclose : Z -> M C Z;
  x_fopen : Z -> Z -> M C Z;
  x_fcntl : Z -> Z -> Z -> M C Z;
  x_fsync : Z -> M C Z;
  x_getcwd : Z -> Z -> M C Z;
  x_open : Z -> Z -> Z -> M C Z;
  x_lseek : Z -> Z -> Z -> M C Z;
  x_ftruncate : Z -> Z -> M C Z;
  x_FD_ZERO : Z -> M C Z;
  x_pread : Z -> Z -> Z -> Z -> M C Z;
  x_pwrite : Z -> Z -> Z -> Z -> M C Z;
  x_read : Z -> Z -> Z -> M C Z;
  x_write : Z -> Z -> Z -> M C Z;
  x_stat : Z -> Z -> M C Z;
  x_fstat : Z -> Z -> M C Z;
  x_send : Z -> Z -> Z -> Z -> M C Z;
  x_select : Z -> Z -> Z -> Z -> Z -> M C Z
}.

Definition EVENTS_PER_USEC : Z := 122.
Definition EVENTS_free : Z := 1.
Definition EVENTS_printf : Z := 1.
Definition EVENTS_fgets : Z := 1.
Definition EVENTS_fgetc : Z := 1.
Definition EVENTS_fscanf : Z := 1.
Definition EVENTS_sscanf : Z := 1.
Definition EVENTS_fclose : Z := 1.
Definition EVENTS_fopen : Z := 1.

Section DetIO.
Context {C : Type} `{PerfCounter C}.
Variable X : libc C.
Variable me : Z.

(** The shape of the wrappers: [int lret = det_disable_logical_clock(); ret = ...;
    if ( lret == 0 ) det_enable_logical_clock(incr); return ret;] *)
Definition det_call {A} (ext : M C A) (incr : Z) : M C A :=
  lret <- det_disable_logical_clock me ;;
  ret <- ext ;;
  mwhen (lret =? 0) (det_enable_logical_clock me incr ;;; mret tt) ;;;
  mret ret.

Definition detio_usleep (usecs : Z) : M C Z :=
  det_call (x_usleep C X usecs) (to_uint64 (usecs * EVENTS_PER_USEC)).
Definition detio_sleep (seconds : Z) : M C Z :=
  det_call (x_sleep C X seconds) (to_uint64 (seconds * 1000000 * EVENTS_PER_USEC)).
Definition detio_sysconf (name : Z) : M C Z := det_call (x_sysconf C X name) 0.
Definition detio_getopt (argc argv optstring : Z) : M C Z := det_call (x_getopt C X argc argv optstring) 0.
Definition detio_sigwait (set sig : Z) : M C Z :=
  det_exit_logical_clock me ;;;
  ret <- x_sigwait C X set sig ;;
  det_adjust_logical_clock me ;;;
  mret ret.
Definition detio_sigfillset (set : Z) : M C Z := det_call (x_sigfillset C X set) 0.
Definition detio_valloc (size : Z) : M C Z := det_call (x_valloc C X size) 0.
Definition detio_free (ptr : Z) : M C Z := det_call (x_free C X ptr) EVENTS_free.
Definition detio_realloc (ptr size : Z) : M C Z := det_call (x_realloc C X ptr size) 0.
Definition detio_getenv (name : Z) : M C Z := det_call (x_getenv C X name) 0.
Definition detio_putchar (c : Z) : M C Z := det_call (x_putchar C X c) 0.
Definition detio_snprintf (str size format : Z) (ap : list Z) : M C Z :=
  det_call (x_vsnprintf C X str size format ap) 0.
Definition detio_fflush (stream : Z) : M C Z := det_call (x_fflush C X stream) 0.
Definition detio_fprintf (fp format : Z) (ap : list Z) : M C Z :=
  det_call (ret <- x_vfprintf C X fp format ap ;; x_fflush C X fp ;;; mret ret) EVENTS_printf.
Definition detio_fgets (s size stream : Z) : M C Z := det_call (x_fgets C X s size stream) EVENTS_fgets.
Definition detio_fgetc (stream : Z) : M C Z := det_call (x_fgetc C X stream) EVENTS_fgetc.
Definition detio_fscanf (stream format : Z) (ap : list Z) : M C Z :=
  det_call (x_vfscanf C X stream format ap) EVENTS_fscanf.
Definition detio_sscanf (str format : Z) (ap : list Z) : M C Z :=
  det_call (x_vsscanf C X str format ap) EVENTS_sscanf.
Definition detio_fclose (fp : Z) : M C Z := det_call (x_fclose C X fp) EVENTS_fclose.
Definition detio_fopen (path mode : Z) : M C Z := det_call (x_fopen C X path mode) EVENTS_fopen.
Definition detio_fcntl (fd cmd arg : Z) : M C Z := det_call (x_fcntl C X fd cmd arg) 0.
Definition detio_fsync (fd : Z) : M C Z := det_call (x_fsync C X fd) 0.
Definition detio_getcwd (buf size : Z) : M C Z := det_call (x_getcwd C X buf size) 0.

Definition detio_open (pathname flags mode : Z) : M C Z := det_call (x_open C X pathname flags mode) 0.
Definition detio_lseek (fd offset whence : Z) : M C Z := det_call (x_lseek C X fd offset whence) 0.
Definition detio_ftruncate (fd length : Z) : M C Z := det_call (x_ftruncate C X fd length) 0.
Definition det_FD_ZERO (set : Z) : M C Z := det_call (x_FD_ZERO C X set) 0.
Definition detio_pread (fd buf count offset : Z) : M C Z := det_call (x_pread C X fd buf count offset) 0.
Definition detio_pwrite (fd buf count offset : Z) : M C Z := det_call (x_pwrite C X fd buf count offset) 0.
Definition detio_read (fd buf count : Z) : M C Z := det_call (x_read C X fd buf count) 0.
Definition detio_write (fd buf count : Z) : M C Z := det_call (x_write C X fd buf count) 0.
Definition detio_stat (path buf : Z) : M C Z := det_call (x_stat C X path buf) 0.
Definition detio_fstat (fd buf : Z) : M C Z := det_call (x_fstat C X fd buf) 0.
(** The result of [send] is kept in an [int]. *)
Definition detio_send (sockfd buf len flags : Z) : M C Z :=
  det_call (ret <- x_send C X sockfd buf len flags ;; mret (to_int ret)) 0.
Definition detio_select (nfds readfds writefds exceptfds timeout : Z) : M C Z :=
  det_call (x_select C X nfds readfds writefds exceptfds timeout) 0.

(** [tv->tv_sec], [tv->tv_usec] and the result. *)
Definition detio_gettimeofday (E : env) : M C (Z * Z * Z) :=
  clock <- det_get_clock E me ;;
  let usecs := to_uint64 clock / EVENTS_PER_USEC in
  mret (usecs / 1000000, usecs mod 1000000, 0).

(** *** [detio_recv]

    What one call of [recv] brings: bytes, the end of the stream, or an error. *)
Inductive recv_answer := Chunk (l : list Z) | Shutdown | Failure.

(** [recv] writes the bytes at the start of the buffer. *)
Definition overlay (l buf : list Z) : list Z := l ++ drop (length l) buf.

(** The loop, over the answers of the successive calls; [None]: the next call has not
    answered yet. [remain] and [requested] are [size_t]. *)
Fixpoint recv_loop (answers : list recv_answer) (buf : list Z) (remain requested retry_cnt : Z)
    : option (Z * list Z * list recv_answer) :=
  if remain =? 0 then Some (requested, buf, answers)
  else
    match answers with
    | [] => None
    | Shutdown :: rest => Some (to_uint64 (requested - remain), buf, rest)
    | Failure :: rest =>
        if retry_cnt <? 3 then recv_loop rest buf remain requested (retry_cnt + 1)
        else recv_loop rest buf (to_uint64 (remain - (-1))) requested retry_cnt
    | Chunk l :: rest =>
        recv_loop rest (overlay l buf) (to_uint64 (remain - Z.of_nat (length l))) requested retry_cnt
    end.
Definition detio_recv (answers : list recv_answer) (buf : list Z) (len : Z) : M C (option (Z * list Z * list recv_answer)) :=
  det_call (mret (recv_loop answers buf len len 0)) 0.
End DetIO.

(** ** What the wrappers promise *)

(** The wrappers, with their arguments. *)
Inductive io_op :=
| Io_usleep (usecs : Z)
| Io_sleep (seconds : Z)
| Io_sysconf (name : Z)
| Io_getopt (argc argv optstring : Z)
| Io_sigfillset (set : Z)
| Io_valloc (size : Z)
| Io_free (ptr : Z)
| Io_realloc (ptr size : Z)
| Io_getenv (name : Z)
| Io_putchar (c : Z)
| Io_snprintf (str size format : Z) (ap : list Z)
| Io_fflush (stream : Z)
| Io_fprintf (fp format : Z) (ap : list Z)
| Io_fgets (s size stream : Z)
| Io_fgetc (stream : Z)
| Io_fscanf (stream format : Z) (ap : list Z)
| Io_sscanf (str format : Z) (ap : list Z)
| Io_fclose (fp : Z)
| Io_fopen (path mode : Z)
| Io_fcntl (fd cmd arg : Z)
| Io_fsync (fd : Z)
| Io_getcwd (buf size : Z)
| Io_open (pathname flags mode : Z)
| Io_lseek (fd offset whence : Z)
| Io_ftruncate (fd length : Z)
| Io_FD_ZERO (set : Z)
| Io_pread (fd buf count offset : Z)
| Io_pwrite (fd buf count offset : Z)
| Io_read (fd buf count : Z)
| Io_write (fd buf count : Z)
| Io_stat (path buf : Z)
| Io_fstat (fd buf : Z)
| Io_send (sockfd buf len flags : Z)
| Io_select (nfds readfds writefds exceptfds timeout : Z).

Section Promise.
Context {C : Type} `{HC : PerfCounter C} `{!PerfCounterLaws C}.
Variable X : libc C.
Variable me : Z.
Implicit Types s : rt C.

Definition io_run (o : io_op) : M C Z :=
  match o with
  | Io_usleep usecs => detio_usleep X me usecs
  | Io_sleep seconds => detio_sleep X me seconds
  | Io_sysconf name => detio_sysconf X me name
  | Io_getopt argc argv optstring => detio_getopt X me argc argv optstring
  | Io_sigfillset set => detio_sigfillset X me set
  | Io_valloc size => detio_valloc X me size
  | Io_free ptr => detio_free X me ptr
  | Io_realloc ptr size => detio_realloc X me ptr size
  | Io_getenv name => detio_getenv X me name
  | Io_putchar c => detio_putchar X me c
  | Io_snprintf str size format ap => detio_snprintf X me str size format ap
  | Io_fflush stream => detio_fflush X me stream
  | Io_fprintf fp format ap => detio_fprintf X me fp format ap
  | Io_fgets s size stream => detio_fgets X me s size stream
  | Io_fgetc stream => detio_fgetc X me stream
  | Io_fscanf stream format ap => detio_fscanf X me stream format ap
  | Io_sscanf str format ap => detio_sscanf X me str format ap
  | Io_fclose fp => detio_fclose X me fp
  | Io_fopen path mode => detio_fopen X me path mode
  | Io_fcntl fd cmd arg => detio_fcntl X me fd cmd arg
  | Io_fsync fd => detio_fsync X me fd
  | Io_getcwd buf size => detio_getcwd X me buf size
  | Io_open pathname flags mode => detio_open X me pathname flags mode
  | Io_lseek fd offset whence => detio_lseek X me fd offset whence
  | Io_ftruncate fd length => detio_ftruncate X me fd length
  | Io_FD_ZERO set => det_FD_ZERO X me set
  | Io_pread fd buf count offset => detio_pread X me fd buf count offset
  | Io_pwrite fd buf count offset => detio_pwrite X me fd buf count offset
  | Io_read fd buf count => detio_read X me fd buf count
  | Io_write fd buf count => detio_write X me fd buf count
  | Io_stat path buf => detio_stat X me path buf
  | Io_fstat fd buf => detio_fstat X me fd buf
  | Io_send sockfd buf len flags => detio_send X me sockfd buf len flags
  | Io_select nfds readfds writefds exceptfds timeout => detio_select X me nfds readfds writefds exceptfds timeout
  end.

(** The call of the C library inside. *)
Definition io_ext (o : io_op) : M C Z :=
  match o with
  | Io_usleep usecs => x_usleep C X usecs
  | Io_sleep seconds => x_sleep C X seconds
  | Io_sysconf name => x_sysconf C X name
  | Io_getopt argc argv optstring => x_getopt C X argc argv optstring
  | Io_sigfillset set => x_sigfillset C X set
  | Io_valloc size => x_valloc C X size
  | Io_free ptr => x_free C X ptr
  | Io_realloc ptr size => x_realloc C X ptr size
  | Io_getenv name => x_getenv C X name
  | Io_putchar c => x_putchar C X c
  | Io_snprintf str size format ap => x_vsnprintf C X str size format ap
  | Io_fflush stream => x_fflush C X stream
  | Io_fprintf fp format ap => (ret <- x_vfprintf C X fp format ap ;; x_fflush C X fp ;;; mret ret)
  | Io_fgets s size stream => x_fgets C X s size stream
  | Io_fgetc stream => x_fgetc C X stream
  | Io_fscanf stream format ap => x_vfscanf C X stream format ap
  | Io_sscanf str format ap => x_vsscanf C X str format ap
  | Io_fclose fp => x_fclose C X fp
  | Io_fopen path mode => x_fopen C X path mode
  | Io_fcntl fd cmd arg => x_fcntl C X fd cmd arg
  | Io_fsync fd => x_fsync C X fd
  | Io_getcwd buf size => x_getcwd C X buf size
  | Io_open pathname flags mode => x_open C X pathname flags mode
  | Io_lseek fd offset whence => x_lseek C X fd offset whence
  | Io_ftruncate fd length => x_ftruncate C X fd length
  | Io_FD_ZERO set => x_FD_ZERO C X set
  | Io_pread fd buf count offset => x_pread C X fd buf count offset
  | Io_pwrite fd buf count offset => x_pwrite C X fd buf count offset
  | Io_read fd buf count => x_read C X fd buf count
  | Io_write fd buf count => x_write C X fd buf count
  | Io_stat path buf => x_stat C X path buf
  | Io_fstat fd buf => x_fstat C X fd buf
  | Io_send sockfd buf len flags => (ret <- x_send C X sockfd buf len flags ;; mret (to_int ret))
  | Io_select nfds readfds writefds exceptfds timeout => x_select C X nfds readfds writefds exceptfds timeout
  end.

(** The events it is charged; every call costs the same whatever happened in it. *)
Definition io_cost (o : io_op) : Z :=
  match o with
  | Io_usleep usecs => to_uint64 (usecs * EVENTS_PER_USEC)
  | Io_sleep seconds => to_uint64 (seconds * 1000000 * EVENTS_PER_USEC)
  | Io_free _ | Io_fprintf _ _ _ | Io_fgets _ _ _ | Io_fgetc _ | Io_fscanf _ _ _ | Io_sscanf _ _ _ | Io_fclose _ | Io_fopen _ _ => 1
  | _ => 0
  end.

Lemma io_run_call o : io_run o = det_call me (io_ext o) (io_cost o).
Proof. by destruct o. Qed.

(** What the C library does to the runtime's state: it counts events of the calling thread. *)
Definition external {A} (m : M C A) : Prop :=
  forall s, exists a n, returns m s a (upd_worker me (burn n) s).

Lemma det_call_returns {A} (ext : M C A) incr s : external ext -> enabled me s ->
  fds (worker s me) <> FdsFreed ->
  exists a n, returns (det_call me ext incr) s a
    (upd_worker me (fun w => resumed w (tick (if hw_clock_enabled w then to_int incr else 0)
                                         (burn n (stop_clock w)))) s).
Proof.
  intros Hext Hen Hf. pose proof Hen as [[Hr Hw] _ _]. specialize (Hw me Hr).
  destruct (disable_returns me s Hw) as (s2 & R2 & E2).
  destruct (Hext s2) as (a & n & s3 & R3 & E3). rewrite E2 in E3. rewrite worker_upd_upd in E3.
  destruct (burn_stopped n (stop_clock (worker s me))) as (Bw & Bt & Bo & Bf);
    [by apply stop_clock_stopped|by apply stop_clock_wf|].
  exists a, n. unfold det_call, det_disable_logical_clock. unfold returns, mbind at 1 2.
  destruct (is_det me s Hen s ltac:(reflexivity)) as (s1 & R1 & E1).
  unfold det_is_enabled, mbind, gets, mret in R1. destruct (num_thr (glob s) <=? 1) eqn:En; [done|].
  injection R1 as Et <-. unfold det_is_enabled at 1. unfold mbind at 1, gets at 1 2. rewrite En, Et. cbn [negb].
  rewrite R2. cbn beta iota. unfold mbind at 1. rewrite R3. unfold pause_ret. unfold mwhen.
  destruct (hw_clock_enabled (worker s me)) eqn:Eh; cbn [Z.eqb]; unfold mbind at 1; last first.
  { simpl. eexists. split; [done|]. rewrite E3. apply upd_worker_ext. unfold resumed. by rewrite Eh, tick_0. }
  assert (enabled me s3) as Hen3.
  { clear -Hen E3 Bw. destruct Hen as [[Hr Hw] Hn Ht].
    split; [split|..]; rewrite ?(sim_glob _ _ E3), ?(sim_tls _ _ E3); try done.
    intros i Hi. rewrite (sim_worker _ _ E3), worker_upd. case_decide; [subst; exact Bw|]. by apply Hw. }
  unfold det_enable_logical_clock. unfold mbind at 1 2.
  destruct (is_det me s3 Hen3 s3 ltac:(reflexivity)) as (s4 & -> & E4). cbn [negb].
  unfold mbind at 1. cbn [incr_sw_clock modify].
  set (s5 := upd_worker me _ s4).
  assert (s5 ≈ upd_worker me (fun w => tick (to_int incr) (burn n (stop_clock w))) s) as E5.
  { unfold s5. by rewrite E4, E3, worker_upd_upd. }
  destruct (enable_returns me s5) as (s6 & -> & E6).
  { rewrite (sim_worker _ _ E5), worker_upd_eq. apply Bf, stop_clock_fds, Hf. }
  simpl. eexists. split; [done|]. rewrite E6, E5, worker_upd_upd. apply upd_worker_ext.
  unfold resumed. by rewrite Eh.
Qed.

Lemma resumed_burn n k w : clock_wf w -> hw_clock_enabled w = true ->
  hw_clock_enabled (start_clock (tick k (burn n (stop_clock w)))) = true.
Proof.
  unfold clock_wf, start_clock, tick, burn, stop_clock. destruct (fds w) eqn:Ef; try congruence.
  intros _ Hon. rewrite Hon. done.
Qed.

Lemma det_call_time {A} (ext : M C A) incr s : external ext -> enabled me s -> fds (worker s me) <> FdsFreed ->
  exists a s', det_call me ext incr s = Ok a s' /\
    logical_time s' me = logical_time s me + (if hw_clock_enabled (worker s me) then to_int incr else 0) /\
    hw_clock_enabled (worker s' me) = hw_clock_enabled (worker s me) /\
    clock_wf (worker s' me) /\ forall i, i <> me -> worker s' i = worker s i.
Proof.
  intros Hext Hen Hf. destruct (det_call_returns ext incr s Hext Hen Hf) as (a & n & s' & Er & Es).
  pose proof Hen as [[Hr Hw] _ _]. specialize (Hw me Hr). exists a, s'. split; [done|].
  unfold logical_time. rewrite !(sim_worker _ _ Es), worker_upd_eq.
  destruct (burn_stopped n (stop_clock (worker s me))) as (Bw & Bt & Bo & _);
    [by apply stop_clock_stopped|by apply stop_clock_wf|].
  set (k := if hw_clock_enabled (worker s me) then to_int incr else 0).
  assert (forall i, i <> me -> worker s' i = worker s i) as Ho.
  { intros. by rewrite (sim_worker _ _ Es), worker_upd_ne. }
  unfold resumed. destruct (hw_clock_enabled (worker s me)) eqn:Eh.
  - split_and!; [|apply resumed_burn; done|by apply start_clock_wf, tick_wf|done].
    rewrite start_clock_time by (by apply tick_wf). by rewrite tick_time, Bt, stop_clock_time.
  - split_and!; [by rewrite tick_time, Bt, stop_clock_time|done|by apply tick_wf|done].
Qed.

(** *** [detio_gettimeofday] *)

Lemma det_get_clock_returns E s : entered me s -> fds (worker s me) <> FdsFreed ->
  returns (det_get_clock E me) s (logical_time s me) (upd_worker me (fun w => resumed w (stop_clock w)) s).
Proof.
  intros [Hr Hw] Hf. unfold det_get_clock, ensure_init. specialize (Hw me Hr).
  mrun (mget; destruct (Z.eqb_spec (max_thr (glob s)) 0); [lia|]; apply returns_ret) as s1 E1.
  mrun (apply disable_returns; by sim_rw E1) from E1 as s2 E2. sim_rw E1.
  assert (worker s2 me = stop_clock (worker s me)) as Ew by (by rewrite (sim_worker _ _ E2), worker_upd_eq).
  mrun (apply get_logical_clock_returns; rewrite Ew; [by apply stop_clock_stopped|by apply stop_clock_wf]) from E2 as s3 E3.
  assert (worker s3 me = stop_clock (worker s me)) as Ew3 by (by rewrite (sim_worker _ _ E3), worker_upd_eq).
  replace (logical_time s2 me) with (logical_time s me) by (unfold logical_time; by rewrite Ew, stop_clock_time).
  mrun (apply resume_returns; rewrite Ew3; by apply stop_clock_fds) as s4 E4. apply returns_ret_sim. rewrite E4.
  unfold pause_ret. destruct (hw_clock_enabled (worker s me)) eqn:Eh; simpl; rewrite E3, ?worker_upd_upd;
    apply upd_worker_ext; unfold resumed; by rewrite Eh.
Qed.

(** *** [detio_sigwait] *)

Lemma exit_returns s : enabled me s ->
  returns (det_exit_logical_clock me) s 0
    (upd_worker me (fun w => clock_set MAX_LOGICAL_CLOCK (set_last_exit_logical_time (sw_clock w + hw_clock w) w)) s).
Proof.
  intros Hen. unfold det_exit_logical_clock. mrun (by apply is_det) as s1 E1. simpl.
  do 2 apply returns_modify_bind. apply returns_ret_sim. unfold SET_CLOCK, GET_CLOCK.
  rewrite worker_upd_upd, E1. apply upd_worker_ext. simpl. by rewrite (sim_worker _ _ E1).
Qed.
End Promise.

(** Every input or output call costs a fixed logical time. Whatever the C library's
    function does and however many events it takes, the wrapper returns its answer, and the
    caller's logical time has advanced by the wrapper's constant (for the sleeps, by the
    duration converted to events and reduced to an [int]); called with the clock already
    stopped it does not advance it at all. The clock runs afterwards exactly if it ran
    before, it stays well formed, and no other thread's entry changes. *)
Theorem io_calls_cost_fixed {C} `{PerfCounter C} `{!PerfCounterLaws C} (X : libc C) me o (s : rt C) :
  external me (io_ext X o) -> enabled me s -> fds (worker s me) <> FdsFreed ->
  exists r s', io_run X me o s = Ok r s' /\
    logical_time s' me = logical_time s me +
      (if hw_clock_enabled (worker s me) then to_int (io_cost o) else 0) /\
    hw_clock_enabled (worker s' me) = hw_clock_enabled (worker s me) /\
    clock_wf (worker s' me) /\ forall i, i <> me -> worker s' i = worker s i.
Proof. rewrite io_run_call. apply det_call_time. Qed.

(** [detio_sleep] charges [seconds * 1000000 * EVENTS_PER_USEC] events through a function
    whose parameter is an [int]: up to 17 seconds the logical time advances by exactly that;
    from 18 to 35 seconds the number no longer fits and the caller's logical time moves
    back. *)
Theorem sleep_overflow {C} `{PerfCounter C} `{!PerfCounterLaws C} (X : libc C) me seconds (s : rt C) :
  external me (x_sleep C X seconds) -> enabled me s -> fds (worker s me) <> FdsFreed ->
  hw_clock_enabled (worker s me) = true ->
  exists r s', detio_sleep X me seconds s = Ok r s' /\
    (0 <= seconds <= 17 -> logical_time s' me = logical_time s me + seconds * 122000000) /\
    (18 <= seconds <= 35 -> logical_time s' me < logical_time s me).
Proof.
  intros Hext Hen Hf Hon. unfold detio_sleep.
  destruct (det_call_time me _ (to_uint64 (seconds * 1000000 * EVENTS_PER_USEC)) s Hext Hen Hf) as (r & s' & Er & Ht & _).
  exists r, s'. split; [done|]. rewrite Ht, Hon. unfold EVENTS_PER_USEC.
  replace (seconds * 1000000 * 122) with (seconds * 122000000) by lia. split; intros Hs.
  - rewrite to_uint64_id, to_int_id; [done|unfold is_int; simpl; lia|simpl; lia].
  - rewrite to_uint64_id by (simpl; lia). unfold to_int, wrap_s. change (2 ^ 32) with 4294967296.
    change (2 ^ (32 - 1)) with 2147483648.
    rewrite <- (Z.mod_unique (seconds * 122000000 + 2147483648) 4294967296 1
      (seconds * 122000000 + 2147483648 - 4294967296)); lia.
Qed.

(** [detio_gettimeofday] is a function of the logical time alone: it answers the caller's
    logical time converted at [EVENTS_PER_USEC], split into seconds and microseconds below a
    million, and leaves the caller's logical time as it was. *)
Lemma gettimeofday_deterministic {C} `{PerfCounter C} `{!PerfCounterLaws C} E me (s : rt C) :
  entered me s -> fds (worker s me) <> FdsFreed -> 0 <= logical_time s me < 2 ^ 64 ->
  exists sec usec s', detio_gettimeofday me E s = Ok (sec, usec, 0) s' /\
    0 <= usec < 1000000 /\ sec * 1000000 + usec = logical_time s me / 122 /\
    logical_time s' me = logical_time s me.
Proof.
  intros He Hf Ht. destruct (det_get_clock_returns me E s He Hf) as (s' & Er & Es).
  unfold detio_gettimeofday, mbind. rewrite Er, to_uint64_id by done. eexists _, _, s'. split; [done|].
  unfold EVENTS_PER_USEC. split; [apply Z.mod_pos_bound; lia|]. split.
  - pose proof (Z.div_mod (logical_time s me / 122) 1000000 ltac:(lia)). lia.
  - unfold logical_time. rewrite (sim_worker _ _ Es), worker_upd_eq.
    pose proof (in_wf _ _ He me (in_range _ _ He)) as Hw. rewrite <- (tick_0 (stop_clock (worker s me))).
    rewrite resumed_time by done. lia.
Qed.

(** *** [detio_sigwait] *)

Section Sigwait.
Context {C : Type} `{HC : PerfCounter C} `{!PerfCounterLaws C}.
Variable me : Z.
Implicit Types (s : rt C) (w : worker_args C).

Lemma adjust_keeps s : enabled me s ->
  last_sync_logical_time (glob s) <= last_exit_logical_time (worker s me) ->
  returns (det_adjust_logical_clock me) s 0
    (upd_worker me (fun w => clock_set (last_exit_logical_time w) w) s).
Proof.
  intros Hen Hl. unfold det_adjust_logical_clock. mrun (by apply is_det) as s1 E1. simpl. mget.
  sim_rw E1. destruct (Z.ltb_spec (last_exit_logical_time (worker s me)) (last_sync_logical_time (glob s))); [lia|].
  apply returns_modify_bind, returns_ret_sim. unfold SET_CLOCK. rewrite E1. apply upd_worker_ext.
  by rewrite (sim_worker _ _ E1).
Qed.

Definition alarmed (t : Z) w : worker_args C :=
  set_nondet_count (nondet_count w + 1) (clock_set t w).
Lemma adjust_jumps s : enabled me s -> fds (worker s me) <> FdsFreed ->
  last_exit_logical_time (worker s me) < last_sync_logical_time (glob s) ->
  returns (det_adjust_logical_clock me) s 0
    (upd_worker me (fun w => resumed w (alarmed (last_sync_logical_time (glob s)) (stop_clock w))) s).
Proof.
  intros Hen Hf Hl. pose proof Hen as [[Hr Hw] _ _]. specialize (Hw me Hr).
  unfold det_adjust_logical_clock. mrun (by apply is_det) as s1 E1. simpl. mget. sim_rw E1.
  destruct (Z.ltb_spec (last_exit_logical_time (worker s me)) (last_sync_logical_time (glob s))); [|lia].
  mrun (apply disable_returns; by sim_rw E1) from E1 as s2 E2. sim_rw E1. do 2 apply returns_modify_bind.
  set (s3 := upd_worker me _ _).
  assert (s3 ≈ upd_worker me (fun w => alarmed (last_sync_logical_time (glob s)) (stop_clock w)) s) as E3.
  { unfold s3, SET_CLOCK. rewrite (sim_glob _ _ E2). repeat rt_frame. by rewrite E2, !worker_upd_upd. }
  mrun (apply DBG_returns; rewrite (sim_worker _ _ E3), worker_upd_eq; by apply stop_clock_stopped) from E3 as s4 E4.
  mrun (apply resume_returns; rewrite (sim_worker _ _ E4), worker_upd_eq; by apply stop_clock_fds) as s5 E5.
  apply returns_ret_sim. rewrite E5. unfold pause_ret.
  destruct (hw_clock_enabled (worker s me)) eqn:Eh; simpl; rewrite E4, ?worker_upd_upd;
    apply upd_worker_ext; unfold resumed; by rewrite Eh.
Qed.
End Sigwait.

(** [detio_sigwait] leaves the deterministic order while the thread waits for a signal
    and rejoins it. If no synchronization of any thread happened at a time later than the
    caller's recorded exit time, the caller continues where it was, its own events counted;
    otherwise it jumps to the time of the last synchronization, and the event is counted as
    nondeterministic. The exit time is recorded as [sw_clock + hw_clock] while the counter is
    running, that is without the events since the clock was last stopped, so that the jump
    can go back in time: the third part is such a case. *)
Lemma sigwait_rejoins {C} `{PerfCounter C} `{!PerfCounterLaws C} (X : libc C) me set sig (s : rt C) :
  external me (x_sigwait C X set sig) -> enabled me s -> hw_clock_enabled (worker s me) = true ->
  let g := GET_CLOCK s me in let l := last_sync_logical_time (glob s) in
  exists r n s', detio_sigwait X me set sig s = Ok r s' /\
    (l <= g -> logical_time s' me = logical_time s me + n) /\
    (g < l -> logical_time s' me = l /\ nondet_count (worker s' me) = nondet_count (worker s me) + 1) /\
    (g < l < logical_time s me -> logical_time s' me < logical_time s me).
Proof.
  intros Hext Hen Hon g l. pose proof Hen as [[Hr Hw] Hn Ht]. specialize (Hw me Hr) as Hwf.
  assert (exists c, fds (worker s me) = FdsOpen c) as [c Hc].
  { unfold clock_wf in Hwf. destruct (fds (worker s me)) as [|c|]; [congruence|by exists c|congruence]. }
  destruct (exit_returns me s Hen) as (s1 & R1 & E1). destruct (Hext s1) as (r & n & s2 & R2 & E2).
  rewrite E1, worker_upd_upd in E2.
  assert (enabled me s2) as Hen2.
  { split; [split|..]; rewrite ?(sim_glob _ _ E2), ?(sim_tls _ _ E2); try done.
    intros i Hi. rewrite (sim_worker _ _ E2), worker_upd. case_decide; [subst i|by apply Hw].
    unfold burn, clock_set, clock_wf in *. simpl. rewrite Hc in *. simpl.
    rewrite pc_events_running, Hon in *. split; [apply Hwf|done]. }
  assert (worker s2 me = burn n (clock_set MAX_LOGICAL_CLOCK (set_last_exit_logical_time g (worker s me)))) as W2
    by (by rewrite (sim_worker _ _ E2), worker_upd_eq).
  assert (fds (worker s2 me) = FdsOpen (pc_events n c) /\ hw_clock_enabled (worker s2 me) = true /\
          hw_clock (worker s2 me) = hw_clock (worker s me) /\
          last_exit_logical_time (worker s2 me) = g /\ nondet_count (worker s2 me) = nondet_count (worker s me))
    as (F2 & O2 & H2 & X2 & N2) by (rewrite W2; unfold burn; simpl; rewrite Hc; simpl; done).
  assert (glob s2 = glob s) as G2 by (by rewrite (sim_glob _ _ E2)).
  destruct (decide (l <= g)) as [Hle|Hgt].
  - destruct (adjust_keeps me s2 Hen2) as (s3 & R3 & E3); [rewrite G2, X2; exact Hle|].
    exists r, n, s3. split; [unfold detio_sigwait, mbind; by rewrite R1, R2, R3|].
    split; [|split; intros; lia]. intros _. unfold logical_time. rewrite (sim_worker _ _ E3), worker_upd_eq.
    unfold worker_time, clock_set. cbn [hw_clock_enabled set_sw_clock fds sw_clock]. rewrite O2, F2, X2, H2, Hon, Hc.
    rewrite pc_events_raw. unfold clock_wf in Hwf. rewrite Hc, Hon in Hwf. destruct Hwf as [-> _].
    unfold g, GET_CLOCK. lia.
  - destruct (adjust_jumps me s2 Hen2) as (s3 & R3 & E3); [congruence|rewrite G2, X2; fold l; lia|].
    rewrite G2 in E3. fold l in E3.
    assert (logical_time s3 me = l /\ nondet_count (worker s3 me) = nondet_count (worker s me) + 1) as [T3 N3].
    { unfold logical_time. rewrite (sim_worker _ _ E3), worker_upd_eq. unfold resumed. rewrite O2.
      unfold worker_time, start_clock, alarmed, clock_set, stop_clock. rewrite F2, O2. simpl.
      rewrite pc_enable_raw, pc_disable_raw, N2. split; [lia|done]. }
    exists r, n, s3. split; [unfold detio_sigwait, mbind; by rewrite R1, R2, R3|]. split_and!; intros; lia || done.
Qed.

(** *** [detio_recv] *)

(** The bytes that arrive, and what the buffer holds after them. *)
Definition total (chunks : list (list Z)) : Z := Z.of_nat (sum_list_with length chunks).
Definition received (chunks : list (list Z)) (buf : list Z) : list Z :=
  fold_left (fun b l => overlay l b) chunks buf.

Lemma recv_chunks chunks rest buf remain requested retry :
  Forall (fun l => l <> []) chunks -> total chunks <= remain < 2 ^ 64 ->
  recv_loop (map Chunk chunks ++ rest) buf remain requested retry =
  recv_loop rest (received chunks buf) (remain - total chunks) requested retry.
Proof.
  unfold total. revert buf remain. induction chunks as [|l chunks IH]; intros buf remain Hne Hr; cbn [map app].
  { simpl. by rewrite Z.sub_0_r. }
  apply Forall_cons in Hne as [Hl Hne]. assert (0 < length l)%nat by (destruct l; [done|simpl; lia]).
  cbn [sum_list_with] in *. cbn [recv_loop]. destruct (Z.eqb_spec remain 0); [lia|].
  rewrite to_uint64_id by lia. rewrite IH by (done || lia). cbn [received fold_left]. f_equal. lia.
Qed.

(** [detio_recv] counts right and stores wrong. When the bytes come in non-empty chunks,
    and the stream ends before [len] bytes unless they all came, the loop stops and answers
    the number of bytes received, without a further call of [recv]. But every call stores at
    the start of the buffer: the last chunk is what the buffer starts with, over the ones
    before it. *)
Lemma recv_counts_and_overwrites chunks l buf len :
  Forall (fun l => l <> []) (chunks ++ [l]) -> total (chunks ++ [l]) <= len < 2 ^ 64 ->
  exists buf', recv_loop (map Chunk (chunks ++ [l]) ++ (if decide (total (chunks ++ [l]) = len) then [] else [Shutdown]))
                 buf len len 0 = Some (total (chunks ++ [l]), buf', []) /\
    take (length l) buf' = l.
Proof.
  intros Hne Hl. exists (received (chunks ++ [l]) buf). split.
  - rewrite recv_chunks by done. case_decide as Hd; cbn [recv_loop].
    + rewrite Hd, Z.sub_diag. done.
    + destruct (Z.eqb_spec (len - total (chunks ++ [l])) 0); [lia|].
      replace (len - (len - total (chunks ++ [l]))) with (total (chunks ++ [l])) by lia.
      rewrite to_uint64_id; [done|]. unfold total in *. lia.
  - unfold received. rewrite fold_left_app. simpl. unfold overlay. by rewrite take_app_length.
Qed.

(** *** Witnesses *)
Import SimpleCounter Samples.

(** A C library whose every call takes 50 events and answers 0. *)
Definition slow : M counter Z := compute 1 50 ;;; mret 0.
Definition slow_libc : libc counter :=
  mkLibc counter (fun _ => slow) (fun _ => slow) (fun _ => slow) (fun _ _ _ => slow) (fun _ _ => slow)
    (fun _ => slow) (fun _ => slow) (fun _ => slow) (fun _ _ => slow) (fun _ => slow) (fun _ => slow)
    (fun _ _ _ _ => slow) (fun _ => slow) (fun _ _ _ => slow) (fun _ _ _ => slow) (fun _ => slow)
    (fun _ _ _ => slow) (fun _ _ _ => slow) (fun _ => slow) (fun _ _ => slow) (fun _ _ _ => slow)
    (fun _ => slow) (fun _ _ => slow) (fun _ _ _ => slow) (fun _ _ _ => slow) (fun _ _ => slow)
    (fun _ => slow) (fun _ _ _ _ => slow) (fun _ _ _ _ => slow) (fun _ _ _ => slow) (fun _ _ _ => slow)
    (fun _ _ => slow) (fun _ _ => slow) (fun _ _ _ _ => slow) (fun _ _ _ _ _ => slow).
Lemma slow_external : external 1 slow.
Proof. intros s. exists 0, 50. eexists. split; [done|]. done. Qed.

Lemma io_calls_cost_fixed_witness :
  exists r s', detio_fgets slow_libc 1 100 80 7 start = Ok r s' /\ logical_time s' 1 = 11.
Proof.
  destruct (io_calls_cost_fixed slow_libc 1 (Io_fgets 100 80 7) start slow_external start_enabled ltac:(done))
    as (r & s' & Hr & Ht & _). by exists r, s'.
Defined.

Lemma sleep_overflow_witness :
  exists r s', detio_sleep slow_libc 1 20 start = Ok r s' /\ logical_time s' 1 < 10.
Proof.
  destruct (sleep_overflow slow_libc 1 20 start slow_external start_enabled ltac:(done) ltac:(done))
    as (r & s' & Hr & _ & Ht). exists r, s'. split; [exact Hr|]. apply Ht. lia.
Defined.

Lemma gettimeofday_deterministic_witness :
  exists sec usec s', detio_gettimeofday 1 environment (three (running 0 5) (running 1 250000000) (running 2 5)) = Ok (sec, usec, 0) s' /\
    sec * 1000000 + usec = 2049180.
Proof.
  destruct (gettimeofday_deterministic environment 1 (three (running 0 5) (running 1 250000000) (running 2 5)))
    as (sec & usec & s' & Hr & _ & Ht & _); [|done|done|by exists sec, usec, s'].
  split; [done|]. by apply (three_entries (fun _ => clock_wf)).
Defined.

(** Thread 1 has run for 30 events since it last looked; another thread synchronized at 25. *)
Definition signalled : rt counter :=
  upd_glob (set_last_sync_logical_time 25)
    (three (running 0 5) (mkWorker 0 0 1 101 (FdsOpen (mkCounter 30 true)) 0 10 true false true 0 true 0) (running 2 5)).
Lemma sigwait_rejoins_witness :
  exists r s', detio_sigwait slow_libc 1 0 0 signalled = Ok r s' /\
    logical_time signalled 1 = 40 /\ logical_time s' 1 = 25.
Proof.
  destruct (sigwait_rejoins slow_libc 1 0 0 signalled slow_external) as (r & n & s' & Hr & _ & Ht & _); [|done|].
  - split; [split|done|done]; [done|]. by apply (three_entries (fun _ => clock_wf)).
  - exists r, s'. split; [exact Hr|]. split; [done|]. by apply Ht.
Defined.

(** Five bytes wanted, two and then three come: the first two are lost. *)
Lemma recv_counts_and_overwrites_witness :
  exists buf', recv_loop [Chunk [1; 2]; Chunk [3; 4; 5]] [0; 0; 0; 0; 0] 5 5 0 = Some (5, buf', []) /\
    take 3 buf' = [3; 4; 5].
Proof.
  apply (recv_counts_and_overwrites [[1; 2]] [3; 4; 5] [0; 0; 0; 0; 0] 5); [by repeat constructor|by vm_compute].
Defined.
