(* ===== verification/Doubles.v ===== *)
(** * Doubles: the arithmetic of the benchmarks

    The benchmarks calculate with numbers of type [double].  What the operations
    answer is a parameter, so that what is proved of a program holds for the
    arithmetic of every machine; where a result is about exact numbers, the
    operations are those of a field. *)

From Stdlib Require Import QArith.Qcanon.

Record arith (V : Type) := Arith {
  fadd : V -> V -> V; fsub : V -> V -> V; fmul : V -> V -> V; fdiv : V -> V -> V; fneg : V -> V }.
Arguments fadd {_} _ _ _.
Arguments fsub {_} _ _ _.
Arguments fmul {_} _ _ _.
Arguments fdiv {_} _ _ _.
Arguments fneg {_} _ _.

(** Exact arithmetic that can be run: the rational numbers. *)
Definition Qc_arith : arith Qc := Arith Qc Qcplus Qcminus Qcmult Qcdiv Qcopp.
