(* ===== verification/PerfUtil.v ===== *)
(** The helpers for performance events of [src/src/perf_util.c] and [perf_util.h]: the table
    of events and its growth, the list of event names, the reader of the kernel's ring
    buffer, the look-ups in the table, and the scaling of counts (the arithmetic of doubles is a
    parameter). *)
From stdpp Require Import base list gmap.
From Stdlib Require Import ZArith Lia QArith Qround Qcanon.
From S2P Require Import Prelude Doubles.
#[local] Open Scope Z_scope.

Module PerfUtil.

(** Characters are numbers; names are lists of them. *)
Record perf_event_desc := mkDesc { hw : Z; name : list Z; id : Z; fd : Z }.
Definition desc0 : perf_event_desc := mkDesc 0 [] 0 0.

(** *** [perf_setup_argv_events] *)
Section Setup.
(** [pfm_get_perf_event_encoding], and whether [realloc] can give that many entries. *)
Variable encoding : list Z -> option Z.
Variable realloc_ok : Z -> bool.

(** [max_fd << 1] is an [int]. *)
Definition new_max (max_fd : Z) : Z := if max_fd =? 0 then 2 else to_int (Z.shiftl max_fd 1).

(** The table [fdt] with [num] entries used of [max_fd]; [None] is the [error] exit. *)
Fixpoint setup_loop (argv : list (list Z)) (fdt : list perf_event_desc) (num max_fd : Z)
    : option (list perf_event_desc * Z) :=
  match argv with
  | [] => Some (fdt, num)
  | a :: argv =>
      let? (fdt, max_fd) :=
        if num =? max_fd then
          if new_max max_fd <? max_fd then None
          else if negb (realloc_ok (new_max max_fd)) then None
          else Some (fdt ++ replicate (Z.to_nat (new_max max_fd - max_fd)) desc0, new_max max_fd)
        else Some (fdt, max_fd) in
      let? e := encoding a in
      let? d := znth fdt num in
      let? fdt := zset fdt num (mkDesc e a (id d) (fd d)) in
      setup_loop argv fdt (num + 1) max_fd
  end.
Definition perf_setup_argv_events (argv : list (list Z)) : Z * list perf_event_desc :=
  match setup_loop argv [] 0 0 with
  | Some (fdt, num) => (num, fdt)
  | None => (-1, [])
  end.

(** *** [perf_setup_list_events] *)

Definition COMMA : Z := 44.
(** The characters before the first [c] and those after it. *)
Fixpoint strchr (q : list Z) (c : Z) : option (list Z * list Z) :=
  match q with
  | [] => None
  | x :: q => if x =? c then Some ([], q) else let? (u, v) := strchr q c in Some (x :: u, v)
  end.

(** [while ((p = strchr(q, ','))) { num++; q = p + 1; }]; a string of [n] characters is left
    after at most [n] turns. *)
Fixpoint count_loop (fuel : nat) (q : list Z) (num : Z) : Z :=
  match fuel, strchr q COMMA with
  | S fuel, Some (_, q') => count_loop fuel q' (num + 1)
  | _, _ => num
  end.

(** [for (i = 0, q = events; i < num - 2; i++, q = p + 1) { ... argv[i] = q; }] and the last
    piece; [None] if [strchr] answered [NULL]. *)
Fixpoint split_loop (k : nat) (q : list Z) : option (list (list Z)) :=
  match k with
  | O => Some [q]
  | S k => let? (u, q') := strchr q COMMA in let? l := split_loop k q' in Some (u :: l)
  end.

Definition list_argv (ev : list Z) : option (list (list Z)) :=
  let num := count_loop (length ev) ev 0 + 2 in
  split_loop (Z.to_nat (num - 2)) ev.
Definition perf_setup_list_events (ev : list Z) : option (Z * list perf_event_desc) :=
  let? argv := list_argv ev in Some (perf_setup_argv_events argv).
End Setup.

(** *** The ring buffer *)

Record ring := mkRing { data_head : Z; data_tail : Z; data : list Z }.

(** [memcpy(buf, &data[from], n)]; [None] is a read outside the buffer. *)
Definition slice (l : list Z) (from n : Z) : option (list Z) :=
  if (0 <=? from) && (0 <=? n) && (from + n <=? Z.of_nat (length l))
  then Some (take (Z.to_nat n) (drop (Z.to_nat from) l)) else None.

(** The result, the bytes stored in [buf], and the buffer afterwards. *)
Definition perf_read_buffer (r : ring) (pgmsk sz : Z) : option (Z * list Z * ring) :=
  let tail := Z.land (data_tail r) pgmsk in
  let head := Z.land (data_head r) pgmsk in
  let avail_sz := to_uint64 (data_head r - data_tail r) in
  if avail_sz <? sz then Some (-1, [], r)
  else
    let? buf :=
      if to_uint64 (tail + avail_sz) =? head then slice (data r) tail sz
      else
        let c := to_uint64 (pgmsk + 1 - tail) in
        let m := if c <? sz then c else sz in
        let? b1 := slice (data r) tail m in
        if 0 <? to_uint64 (sz - m) then
          let? b2 := slice (data r) 0 (to_uint64 (sz - m)) in Some (b1 ++ b2)
        else Some b1 in
    Some (0, buf, mkRing (data_head r) (to_uint64 (data_tail r + sz)) (data r)).

Definition perf_skip_buffer (r : ring) (sz : Z) : ring :=
  let sz := if data_head r <? to_uint64 (data_tail r + sz) then to_uint64 (data_head r - data_tail r) else sz in
  mkRing (data_head r) (to_uint64 (data_tail r + sz)) (data r).

Definition perf_read_buffer_32 (r : ring) (pgmsk : Z) := perf_read_buffer r pgmsk 4.
Definition perf_read_buffer_64 (r : ring) (pgmsk : Z) := perf_read_buffer r pgmsk 8.

(** *** [perf_scale], [perf_scale_ratio] *)

(** The count [values[0]] of a counter that ran for [values[2]] of [values[1]] units of time;
    the conversions between [uint64_t] and [double] are parameters. *)
Definition perf_scale {D} (F : arith D) (of_u64 : Z -> D) (to_u64 : D -> Z) (values : list Z) : option Z :=
  let? v2 := znth values 2 in
  if v2 =? 0 then Some 0
  else
    let? v0 := znth values 0 in
    let? v1 := znth values 1 in
    Some (to_u64 (fdiv F (fmul F (of_u64 v0) (of_u64 v1)) (of_u64 v2))).
Definition perf_scale_ratio {D} (F : arith D) (of_u64 : Z -> D) (zero one : D) (values : list Z) : option D :=
  let? v1 := znth values 1 in
  if v1 =? 0 then Some zero
  else
    let? v2 := znth values 2 in
    Some (fdiv F (fmul F (of_u64 v2) one) (of_u64 v1)).

(** *** Look-ups; the table has at least [n] entries *)

Fixpoint fd2event_loop (fds : list perf_event_desc) (n : nat) (i x : Z) : option Z :=
  match n with
  | O => Some (-1)
  | S n => let? d := znth fds i in if fd d =? x then Some i else fd2event_loop fds n (i + 1) x
  end.
Definition perf_fd2event (fds : list perf_event_desc) (num_events x : Z) : option Z :=
  fd2event_loop fds (Z.to_nat num_events) 0 x.
Fixpoint id2event_loop (fds : list perf_event_desc) (n : nat) (j x : Z) : option Z :=
  match n with
  | O => Some (-1)
  | S n => let? d := znth fds j in if id d =? x then Some j else id2event_loop fds n (j + 1) x
  end.
Definition perf_id2event (fds : list perf_event_desc) (num_events x : Z) : option Z :=
  id2event_loop fds (Z.to_nat num_events) 0 x.

(** ** Lemmas *)

(** *** The table *)

Lemma new_max_grows m : 0 <= m < 2 ^ 30 -> m < new_max m /\ new_max m <= 2 ^ 31.
Proof.
  intros Hm. unfold new_max. destruct (Z.eqb_spec m 0); [lia|].
  rewrite Z.shiftl_mul_pow2, to_int_id by (unfold is_int; lia). lia.
Qed.

(** Entry [i] describes event [a]. *)
Definition describes (encoding : list Z -> option Z) (d : perf_event_desc) (a : list Z) : Prop :=
  name d = a /\ encoding a = Some (hw d).

Lemma setup_loop_ok encoding realloc_ok argv fdt num max done :
  (forall n, realloc_ok n = true) -> Forall (fun a => is_Some (encoding a)) argv ->
  Z.of_nat (length fdt) = max -> num = Z.of_nat (length done) -> num <= max ->
  Forall2 (describes encoding) (take (Z.to_nat num) fdt) done ->
  num + Z.of_nat (length argv) <= 2 ^ 30 ->
  exists fdt', setup_loop encoding realloc_ok argv fdt num max = Some (fdt', num + Z.of_nat (length argv)) /\
    Forall2 (describes encoding) (take (Z.to_nat (num + Z.of_nat (length argv))) fdt') (done ++ argv).
Proof.
  intros Hok Henc. revert fdt num max done. induction argv as [|a argv IH]; intros fdt num max done Hlen Hnum Hle Hd Hb.
  { exists fdt. simpl. by rewrite Z.add_0_r, app_nil_r. }
  apply Forall_cons in Henc as [[e He] Henc]. cbn [setup_loop length] in *.
  assert (exists fdt1 max1, (if num =? max then
      if new_max max <? max then None else if negb (realloc_ok (new_max max)) then None
      else Some (fdt ++ replicate (Z.to_nat (new_max max - max)) desc0, new_max max)
    else Some (fdt, max)) = Some (fdt1, max1) /\ Z.of_nat (length fdt1) = max1 /\ num < max1 /\
    take (Z.to_nat num) fdt1 = take (Z.to_nat num) fdt) as (fdt1 & max1 & -> & Hl1 & Hn1 & Ht1).
  { destruct (Z.eqb_spec num max) as [E|E]; [|exists fdt, max; split_and!; (done || lia)].
    destruct (new_max_grows max ltac:(lia)) as [Hg _]. destruct (Z.ltb_spec (new_max max) max); [lia|].
    rewrite Hok. simpl. eexists _, _. split; [done|]. rewrite length_app, length_replicate.
    split; [lia|]. split; [lia|]. rewrite take_app_le by lia. done. }
  rewrite He. destruct (znth_Some fdt1 num) as [d Hz]; [lia|]. rewrite Hz.
  rewrite zset_Some by lia.
  destruct (IH Henc (<[Z.to_nat num := mkDesc e a (id d) (fd d)]> fdt1) (num + 1) max1 (done ++ [a]))
    as (fdt' & -> & Hf); rewrite ?length_insert, ?length_app; simpl; try lia.
  { replace (Z.to_nat (num + 1)) with (S (Z.to_nat num)) by lia.
    rewrite (take_S_r _ _ (mkDesc e a (id d) (fd d))) by (apply list_lookup_insert_eq; lia).
    rewrite take_insert_ge by lia. rewrite Ht1. apply Forall2_app; [done|]. by repeat constructor. }
  exists fdt'. replace (num + Z.of_nat (S (length argv))) with (num + 1 + Z.of_nat (length argv)) by lia.
  split; [done|]. by rewrite <- app_assoc in Hf.
Qed.

Lemma setup_loop_unknown encoding realloc_ok argv fdt num max :
  Exists (fun a => encoding a = None) argv -> setup_loop encoding realloc_ok argv fdt num max = None.
Proof.
  intros Hex. revert fdt num max. induction Hex as [a argv Ha|a argv _ IH]; intros fdt num max; cbn [setup_loop].
  - destruct (if num =? max then _ else _) as [[? ?]|]; [|done]. by rewrite Ha.
  - destruct (if num =? max then _ else _) as [[? ?]|]; [|done]. destruct (encoding a); [|done].
    destruct (znth _ _); [|done]. destruct (zset _ _ _); [|done]. apply IH.
Qed.

(** *** The list of names *)

Lemma strchr_spec q c : match strchr q c with
  | Some (u, v) => q = u ++ c :: v /\ c ∉ u
  | None => c ∉ q
  end.
Proof.
  induction q as [|x q IH]; simpl; [by apply not_elem_of_nil|].
  destruct (Z.eqb_spec x c) as [->|Hne]; [split; [done|apply not_elem_of_nil]|].
  destruct (strchr q c) as [[u v]|].
  - destruct IH as [-> Hu]. split; [done|]. rewrite elem_of_cons. intros [->|?]; done.
  - rewrite elem_of_cons. intros [->|?]; done.
Qed.

Fixpoint commas (q : list Z) : nat :=
  match q with [] => O | x :: q => if x =? COMMA then S (commas q) else commas q end.
Lemma commas_app u v : commas (u ++ v) = (commas u + commas v)%nat.
Proof. induction u as [|x u IH]; simpl; [done|]. destruct (x =? COMMA); simpl; by rewrite IH. Qed.
Lemma commas_none u : COMMA ∉ u -> commas u = O.
Proof.
  induction u as [|x u IH]; simpl; [done|]. rewrite not_elem_of_cons. intros [Hx Hu].
  destruct (Z.eqb_spec x COMMA); [congruence|auto].
Qed.
Lemma commas_length q : (commas q <= length q)%nat.
Proof. induction q as [|x q IH]; simpl; [done|]. destruct (x =? COMMA); simpl; lia. Qed.

Lemma count_loop_commas fuel q num : (length q <= fuel)%nat -> count_loop fuel q num = num + Z.of_nat (commas q).
Proof.
  revert q num. induction fuel as [|fuel IH]; intros q num Hl.
  - destruct q; [simpl; lia|simpl in Hl; lia].
  - cbn [count_loop]. pose proof (strchr_spec q COMMA) as Hs. destruct (strchr q COMMA) as [[u v]|].
    + destruct Hs as [-> Hu]. rewrite length_app in Hl. simpl in Hl. rewrite IH by lia.
      rewrite commas_app, (commas_none u) by done. simpl. lia.
    + rewrite commas_none by done. lia.
Qed.

Fixpoint join (l : list (list Z)) : list Z :=
  match l with [] => [] | [a] => a | a :: l => a ++ COMMA :: join l end.

Lemma split_loop_spec q : exists l, split_loop (commas q) q = Some l /\ join l = q /\
  Forall (fun a => COMMA ∉ a) l /\ length l = S (commas q).
Proof.
  remember (commas q) as k eqn:Ek. revert q Ek. induction k as [|k IH]; intros q Ek; cbn [split_loop].
  - exists [q]. split; [done|]. split; [done|]. split; [|done]. constructor; [|done].
    pose proof (strchr_spec q COMMA) as Hs. destruct (strchr q COMMA) as [[u v]|]; [|done].
    destruct Hs as [-> _]. rewrite commas_app in Ek. simpl in Ek. lia.
  - pose proof (strchr_spec q COMMA) as Hs. destruct (strchr q COMMA) as [[u v]|].
    + destruct Hs as [-> Hu]. rewrite commas_app, (commas_none u) in Ek by done. simpl in Ek.
      destruct (IH v ltac:(lia)) as (l & -> & Hj & Hc & Hl). exists (u :: l). split; [done|].
      destruct l as [|b l]; [done|]. split; [simpl; simpl in Hj; by rewrite Hj|]. split; [by constructor|simpl in *; lia].
    + rewrite commas_none in Ek by done. lia.
Qed.

Lemma list_argv_spec ev : exists l, list_argv ev = Some l /\ join l = ev /\ Forall (fun a => COMMA ∉ a) l.
Proof.
  unfold list_argv. rewrite count_loop_commas by done.
  replace (Z.to_nat (0 + Z.of_nat (commas ev) + 2 - 2)) with (commas ev) by lia.
  destruct (split_loop_spec ev) as (l & ? & ? & ? & _). by exists l.
Qed.

(** *** The ring *)

Lemma slice_spec l from n pending off :
  0 <= from -> 0 <= n -> from + n <= Z.of_nat (length l) -> (off + Z.to_nat n <= length pending)%nat ->
  (forall i : nat, (i < Z.to_nat n)%nat -> l !! (Z.to_nat from + i)%nat = pending !! (off + i)%nat) ->
  slice l from n = Some (take (Z.to_nat n) (drop off pending)).
Proof.
  intros H1 H2 H3 H4 Hi. unfold slice. destruct (Z.leb_spec 0 from), (Z.leb_spec 0 n), (Z.leb_spec (from + n) (Z.of_nat (length l))); try lia.
  simpl. f_equal. apply list_eq. intros i. destruct (decide (i < Z.to_nat n)%nat).
  - rewrite !lookup_take_lt, !lookup_drop by done. auto.
  - rewrite !lookup_take_ge by lia. done.
Qed.

(** The buffer of [2 ^ k] bytes holds the bytes [l], in order, not yet read. *)
Record pending (k : Z) (r : ring) (l : list Z) : Prop := {
  p_k : 0 <= k <= 62;
  p_size : Z.of_nat (length (data r)) = 2 ^ k;
  p_tail : 0 <= data_tail r;
  p_head : data_head r < 2 ^ 64;
  p_avail : data_head r - data_tail r = Z.of_nat (length l);
  p_fits : Z.of_nat (length l) <= 2 ^ k;
  p_data (i : nat) : (i < length l)%nat ->
    data r !! Z.to_nat ((data_tail r + Z.of_nat i) mod 2 ^ k) = l !! i
}.

Lemma pending_advance k r l n : pending k r l -> (n <= length l)%nat ->
  pending k (mkRing (data_head r) (data_tail r + Z.of_nat n) (data r)) (drop n l).
Proof.
  intros [Hk Hs Ht Hh Ha Hf Hd] Hn. split; simpl; rewrite ?length_drop; try lia.
  intros i Hi. rewrite lookup_drop, <- Hd by lia. do 3 f_equal. lia.
Qed.

Lemma pending_slice k r l n off : pending k r l -> 0 <= n -> (off + Z.to_nat n <= length l)%nat ->
  (data_tail r + Z.of_nat off) mod 2 ^ k + n <= 2 ^ k ->
  slice (data r) ((data_tail r + Z.of_nat off) mod 2 ^ k) n = Some (take (Z.to_nat n) (drop off l)).
Proof.
  intros [Hk Hs Ht Hh Ha Hf Hd] Hn Ho Hb. pose proof (Z.pow_pos_nonneg 2 k ltac:(lia) ltac:(lia)) as Hp.
  pose proof (Z.mod_pos_bound (data_tail r + Z.of_nat off) (2 ^ k) Hp).
  apply slice_spec; try lia. intros i Hi. rewrite <- Hd by lia. f_equal.
  replace (data_tail r + Z.of_nat (off + i)) with ((data_tail r + Z.of_nat off) + Z.of_nat i) by lia.
  rewrite <- (Z.add_mod_idemp_l (data_tail r + Z.of_nat off)) by lia. rewrite (Z.mod_small (_ + Z.of_nat i)) by lia. lia.
Qed.

(** What there is to read. *)
Lemma pending_available k r l : pending k r l -> to_uint64 (data_head r - data_tail r) = Z.of_nat (length l).
Proof.
  intros [Hk Hs Ht Hh Ha Hf Hd]. pose proof (Z.pow_le_mono_r 2 k 62 ltac:(lia) ltac:(lia)) as H62. change (2 ^ 62) with 4611686018427387904 in H62.
  rewrite to_uint64_id; lia.
Qed.
Lemma land_mask k x : 0 <= k -> 0 <= x -> Z.land x (2 ^ k - 1) = x mod 2 ^ k.
Proof. intros Hk Hx. rewrite <- Z.land_ones by lia. by rewrite Z.ones_equiv, <- Z.sub_1_r. Qed.
Lemma read_pending k r l sz : pending k r l -> 0 <= sz < 2 ^ 64 -> data_tail r + sz < 2 ^ 64 -> sz <= Z.of_nat (length l) ->
  exists r', perf_read_buffer r (2 ^ k - 1) sz = Some (0, take (Z.to_nat sz) l, r') /\ pending k r' (drop (Z.to_nat sz) l).
Proof.
  intros Hp Hsz Hov. pose proof Hp as [Hk Hs Ht Hh Ha Hf Hd].
  pose proof (Z.pow_pos_nonneg 2 k ltac:(lia) ltac:(lia)) as Hpos.
  pose proof (Z.pow_le_mono_r 2 k 62 ltac:(lia) ltac:(lia)) as H62. change (2 ^ 62) with 4611686018427387904 in H62.
  pose proof (pending_available k r l Hp) as Hav. pose proof (fun x => land_mask k x ltac:(lia)) as Hland.
  intros Hle. unfold perf_read_buffer. rewrite Hav, !Hland by lia.
  destruct (Z.ltb_spec (Z.of_nat (length l)) sz); [lia|].
  set (T := data_tail r mod 2 ^ k). pose proof (Z.mod_pos_bound (data_tail r) (2 ^ k) Hpos) as HT. fold T in HT.
  assert (data_head r mod 2 ^ k = (T + Z.of_nat (length l)) mod 2 ^ k) as Ehd.
  { unfold T. rewrite Z.add_mod_idemp_l by lia. f_equal. lia. }
  rewrite Ehd, (to_uint64_id (T + Z.of_nat (length l))), (to_uint64_id (data_tail r + sz)) by lia.
  pose proof (pending_slice k r l) as Hsl.
  exists (mkRing (data_head r) (data_tail r + Z.of_nat (Z.to_nat sz)) (data r)).
  split; [|apply pending_advance; [done|lia]]. rewrite Z2Nat.id by lia.
  assert (forall n, 0 <= n <= sz -> T + n <= 2 ^ k -> slice (data r) T n = Some (take (Z.to_nat n) l)) as S1.
  { intros n Hn Hb. specialize (Hsl n 0%nat Hp ltac:(lia) ltac:(lia)). simpl in Hsl.
    rewrite Z.add_0_r, drop_0 in Hsl. apply Hsl. fold T. lia. }
  destruct (Z.eqb_spec (T + Z.of_nat (length l)) ((T + Z.of_nat (length l)) mod 2 ^ k)) as [He|He].
  + pose proof (Z.mod_pos_bound (T + Z.of_nat (length l)) (2 ^ k) Hpos). by rewrite S1 by lia.
  + assert (2 ^ k <= T + Z.of_nat (length l)) as Hst.
    { destruct (Z.leb_spec (2 ^ k) (T + Z.of_nat (length l))); [done|]. rewrite Z.mod_small in He by lia. done. }
    replace (2 ^ k - 1 + 1 - T) with (2 ^ k - T) by lia. rewrite (to_uint64_id (2 ^ k - T)) by lia.
    destruct (Z.ltb_spec (2 ^ k - T) sz).
    * rewrite S1, to_uint64_id by lia. destruct (Z.ltb_spec 0 (sz - (2 ^ k - T))); [|lia].
      assert ((data_tail r + Z.of_nat (Z.to_nat (2 ^ k - T))) mod 2 ^ k = 0) as Hz.
      { rewrite Z2Nat.id by lia. rewrite <- Z.add_mod_idemp_l by lia. fold T.
        replace (T + (2 ^ k - T)) with (1 * 2 ^ k) by lia. apply Z.mod_mul. lia. }
      specialize (Hsl (sz - (2 ^ k - T)) (Z.to_nat (2 ^ k - T)) Hp ltac:(lia) ltac:(lia)).
      rewrite Hz in Hsl. rewrite Hsl by lia. do 3 f_equal.
      rewrite take_take_drop. f_equal. lia.
    * rewrite S1, to_uint64_id by lia. destruct (Z.ltb_spec 0 (sz - sz)); [lia|done].
Qed.
Lemma skip_pending k r l sz : pending k r l -> 0 <= sz < 2 ^ 64 -> data_tail r + sz < 2 ^ 64 ->
  pending k (perf_skip_buffer r sz) (drop (Z.to_nat sz) l).
Proof.
  intros Hp Hsz Hov. pose proof Hp as [Hk Hs Ht Hh Ha Hf Hd].
  pose proof (Z.pow_pos_nonneg 2 k ltac:(lia) ltac:(lia)) as Hpos.
  pose proof (Z.pow_le_mono_r 2 k 62 ltac:(lia) ltac:(lia)) as H62. change (2 ^ 62) with 4611686018427387904 in H62.
  unfold perf_skip_buffer. rewrite (pending_available k r l Hp), (to_uint64_id (data_tail r + sz)) by lia.
  destruct (Z.ltb_spec (data_head r) (data_tail r + sz)).
  - rewrite to_uint64_id by lia. replace (drop (Z.to_nat sz) l) with (drop (length l) l); [by apply pending_advance|].
    by rewrite !drop_ge by lia.
  - rewrite to_uint64_id by lia. rewrite <- (Z2Nat.id sz) at 1 by lia. apply pending_advance; [done|lia].
Qed.

(** C35. The reader of the kernel's ring buffer implements a byte stream. From a buffer of
    [2 ^ k] bytes that holds the bytes [l] still to be read, however they wrap around its
    end, [perf_read_buffer] for [sz] bytes answers 0, delivers exactly the next [sz] bytes
    and leaves the rest to be read; it makes no access outside the buffer; if fewer bytes
    are there it answers -1 and changes nothing. [perf_skip_buffer] drops [sz] bytes, or
    all there are. *)
Theorem ring_is_a_stream k r l sz : pending k r l -> 0 <= sz < 2 ^ 64 -> data_tail r + sz < 2 ^ 64 ->
  (sz <= Z.of_nat (length l) ->
   exists r', perf_read_buffer r (2 ^ k - 1) sz = Some (0, take (Z.to_nat sz) l, r') /\
     pending k r' (drop (Z.to_nat sz) l)) /\
  (Z.of_nat (length l) < sz -> perf_read_buffer r (2 ^ k - 1) sz = Some (-1, [], r)) /\
  pending k (perf_skip_buffer r sz) (drop (Z.to_nat sz) l).
Proof.
  intros Hp Hsz Hov. split_and!; [by apply read_pending| |by apply skip_pending].
  intros Hlt. unfold perf_read_buffer. rewrite (pending_available k r l Hp).
  by destruct (Z.ltb_spec (Z.of_nat (length l)) sz); [|lia].
Qed.

(** The event list is split and entered in the table as written. For every string, the
    pieces [perf_setup_list_events] takes are the ones between its commas: none contains a
    comma and joined with commas they are the string. If every piece names an event the
    result is their number, and that many entries of the table hold, in order, the names and
    their encodings (the table doubles as needed and is never accessed out of range); if one
    is unknown the result is -1. *)
Lemma event_list_entered encoding realloc_ok ev : (forall n, realloc_ok n = true) ->
  Z.of_nat (length ev) < 2 ^ 30 ->
  exists l, list_argv ev = Some l /\ join l = ev /\ Forall (fun a => COMMA ∉ a) l /\
    (Forall (fun a => is_Some (encoding a)) l ->
     exists fdt, perf_setup_list_events encoding realloc_ok ev = Some (Z.of_nat (length l), fdt) /\
       Forall2 (describes encoding) (take (length l) fdt) l) /\
    (Exists (fun a => encoding a = None) l ->
     perf_setup_list_events encoding realloc_ok ev = Some (-1, [])).
Proof.
  intros Hok Hlen. destruct (split_loop_spec ev) as (l & Hs & Hj & Hc & Hn). exists l.
  unfold perf_setup_list_events, list_argv. rewrite count_loop_commas by done.
  replace (Z.to_nat (0 + Z.of_nat (commas ev) + 2 - 2)) with (commas ev) by lia. rewrite Hs.
  split; [done|]. split; [done|]. split; [done|]. unfold perf_setup_argv_events. split; intros He.
  - pose proof (commas_length ev).
    destruct (setup_loop_ok encoding realloc_ok l [] 0 0 []) as (fdt & -> & Hf); try done; simpl; try lia.
    exists fdt. rewrite Z.add_0_l in *. split; [done|]. by rewrite Nat2Z.id in Hf.
  - by rewrite setup_loop_unknown.
Qed.

(** *** [perf_scale], [perf_scale_ratio] *)

(** Exact numbers; a conversion to an integer cuts the fraction off. *)
Definition of_uint (v : Z) : Qc := Q2Qc (inject_Z v).
Definition cut (q : Qc) : Z := Qfloor (this q).

(** A counter that ran all the time is not scaled; one that never ran gives zero; and with
    exact numbers the result is the count times the ratio of the times, rounded down. *)
Lemma perf_scale_exact v0 v1 v2 : 0 <= v0 -> 0 <= v1 -> 0 <= v2 ->
  perf_scale Qc_arith of_uint cut [v0; v1; v2] = Some (if v2 =? 0 then 0 else v0 * v1 / v2).
Proof.
  intros H0 H1 H2. unfold perf_scale. change (znth [v0; v1; v2] 2) with (Some v2). cbn [mbind option_bind].
  change (znth [v0; v1; v2] 0) with (Some v0). change (znth [v0; v1; v2] 1) with (Some v1). destruct (Z.eqb_spec v2 0) as [->|Hne]; [done|]. cbn.
  f_equal. unfold cut, of_uint. cbn [fmul fdiv Qc_arith]. unfold Qcdiv, Qcmult, Qcinv.
  transitivity (Qfloor (inject_Z v0 * inject_Z v1 / inject_Z v2)).
  - apply Qfloor_comp. cbn [this Q2Qc]. rewrite !Qred_correct. reflexivity.
  - unfold Qdiv, Qinv, Qmult, inject_Z, Qfloor. destruct v2 as [|q|q]; [done| |lia]. simpl. by rewrite Z.mul_1_r.
Qed.

(** *** Witnesses *)

(** Eight bytes, of which five are to be read: they wrap around the end. *)
Definition a_ring : ring := mkRing 19 14 [30; 40; 50; 0; 0; 0; 10; 20].
Lemma ring_is_a_stream_witness :
  exists r', perf_read_buffer a_ring 7 4 = Some (0, [10; 20; 30; 40], r') /\ pending 3 r' [50].
Proof.
  destruct (ring_is_a_stream 3 a_ring [10; 20; 30; 40; 50] 4) as (Hr & _); [|lia|done|].
  - split; simpl; try lia. intros i Hi. do 5 (destruct i as [|i]; [done|]). lia.
  - destruct Hr as (r' & Hr & Hp); [simpl; lia|]. exists r'. split; [exact Hr|exact Hp].
Defined.

(** Three events named by one letter each. *)
Definition letters (a : list Z) : option Z := match a with [c] => Some (c - 97) | _ => None end.
Lemma event_list_entered_witness :
  exists fdt, perf_setup_list_events letters (fun _ => true) [97; 44; 98; 44; 99] = Some (3, fdt) /\
    Forall2 (describes letters) (take 3 fdt) [[97]; [98]; [99]].
Proof.
  destruct (event_list_entered letters (fun _ => true) [97; 44; 98; 44; 99]) as (l & Hl & _ & _ & Hok & _);
    [done|simpl; lia|]. vm_compute in Hl. injection Hl as <-.
  destruct Hok as (fdt & Hf & Hd); [by repeat constructor|]. exists fdt. split; [exact Hf|exact Hd].
Defined.
End PerfUtil.
