(* ===== verification/Bm.v ===== *)
(** The Boyer-Moore search of [src/papps/pfscan-1.0/bm.c]: the two shift tables and the
    search, and the theorem that it reports exactly the occurrences of the pattern.

    Strings are lists of [unsigned char] values, [None] is an access outside an array.
    Lengths are below [INT_MAX], so that the [int] arithmetic of the tables is exact. *)
From stdpp Require Import base list gmap.
From Stdlib Require Import ZArith Lia.
From S2P Require Import Prelude.

Module Bm.

Definition BM_ASIZE : Z := 256.

Record BM := mkBM { bmGs : list Z; bmBc : list Z; saved_x : list Z; saved_m : Z; icase : bool }.

(** ** The tables *)

Fixpoint bc_loop (k : nat) (i m : Z) (x bc : list Z) : option (list Z) :=
  match k with
  | O => Some bc
  | S k =>
      let? c := znth x i in
      let? bc := zset bc c (m - i - 1) in
      bc_loop k (i + 1) m x bc
  end.
(** [for (...) t[i] = v;] over [k] entries of a table, from [i] on. *)
Fixpoint fill_loop (k : nat) (i v : Z) (t : list Z) : option (list Z) :=
  match k with
  | O => Some t
  | S k => let? t := zset t i v in fill_loop k (i + 1) v t
  end.
Definition preBmBc (x : list Z) (m : Z) (bc : list Z) : option (list Z) :=
  let? bc := fill_loop (Z.to_nat BM_ASIZE) 0 m bc in
  bc_loop (Z.to_nat (m - 1)) 0 m x bc.

(** [while (g >= 0 && x[g] == x[g + m - 1 - f]) --g;] *)
Fixpoint extend (fuel : nat) (x : list Z) (m f g : Z) : option Z :=
  match fuel with
  | O => Some g
  | S fuel =>
      let? a := znth x g in
      let? b := znth x (g + m - 1 - f) in
      if a =? b then extend fuel x m f (g - 1) else Some g
  end.

(** The body of [for (i = m - 2; i >= 0; --i)]; [k] values of [i] are left, the next is
    [k - 1]. *)
Fixpoint suff_loop (k : nat) (x : list Z) (m f g : Z) (suff : list Z) : option (list Z) :=
  match k with
  | O => Some suff
  | S k =>
      let i := Z.of_nat k in
      let? short :=
        if g <? i then let? v := znth suff (i + m - 1 - f) in Some (if v <? i - g then Some v else None)
        else Some None in
      match short with
      | Some v => let? suff := zset suff i v in suff_loop k x m f g suff
      | None =>
          let g := if i <? g then i else g in
          let f := i in
          let? g := extend (Z.to_nat (g + 1)) x m f g in
          let? suff := zset suff i (f - g) in
          suff_loop k x m f g suff
      end
  end.
Definition suffixes (x : list Z) (m : Z) (suff : list Z) : option (list Z) :=
  let? suff := zset suff (m - 1) m in
  suff_loop (Z.to_nat (m - 1)) x m 0 (m - 1) suff.

(** [for (; j < m - 1 - i; ++j) if (bmGs[j] == m) bmGs[j] = m - 1 - i;] *)
Fixpoint gs_fill (k : nat) (m i j : Z) (gs : list Z) : option (list Z) :=
  match k with
  | O => Some gs
  | S k =>
      let? v := znth gs j in
      let? gs := if v =? m then zset gs j (m - 1 - i) else Some gs in
      gs_fill k m i (j + 1) gs
  end.
(** [for (i = m - 1; i >= -1; --i)]; the next [i] is [k - 2]. *)
Fixpoint gs_loop1 (k : nat) (m j : Z) (suff gs : list Z) : option (list Z) :=
  match k with
  | O => Some gs
  | S k =>
      let i := Z.of_nat k - 1 in
      let? border := if i =? -1 then Some true else let? v := znth suff i in Some (v =? i + 1) in
      if border : bool then
        let? gs := gs_fill (Z.to_nat (m - 1 - i - j)) m i j gs in
        gs_loop1 k m (Z.max j (m - 1 - i)) suff gs
      else gs_loop1 k m j suff gs
  end.
(** [for (i = 0; i <= m - 2; ++i) bmGs[m - 1 - suff[i]] = m - 1 - i;] *)
Fixpoint gs_loop2 (k : nat) (m i : Z) (suff gs : list Z) : option (list Z) :=
  match k with
  | O => Some gs
  | S k =>
      let? v := znth suff i in
      let? gs := zset gs (m - 1 - v) (m - 1 - i) in
      gs_loop2 k m (i + 1) suff gs
  end.
(** [block] is what [calloc] answers: nothing, or a block whose contents are arbitrary, since
    [dpthread-wrapper.h] makes it [detio_valloc]. Answers the return value and the table [gs]
    of the caller as it is left. *)
Definition preBmGs (block : option (list Z)) (x : list Z) (m : Z) (gs : list Z) : option (Z * list Z) :=
  match block with
  | None => Some (-1, gs)
  | Some suff =>
  let? suff := suffixes x m suff in
  let? gs := fill_loop (Z.to_nat m) 0 m gs in
  let? gs := gs_loop1 (S (Z.to_nat m)) m 0 suff gs in
  let? gs := gs_loop2 (Z.to_nat (m - 1)) m 0 suff gs in
  Some (0, gs)
  end.

Section Search.
(** [tolower] of the C library, in the locale of the process. *)
Variable tolower : Z -> Z.

Definition fold_case (ic : bool) (c : Z) : Z := if ic then tolower c else c.

(** [gs] and [suff] are the blocks the two calls of [calloc] answer, [a2] tells whether
    [malloc] succeeds. Answers the error code, or the structure: no caller looks at it after
    an error. [bc] is what the table of the structure holds before. *)
Definition bm_init (gs : option (list Z)) (a2 : bool) (suff : option (list Z)) (bc x : list Z) (ic : bool) :
    option (Z + BM) :=
  let m := Z.of_nat (length x) in
  match gs with
  | None => Some (inl (-1))
  | Some gs =>
  if negb a2 then Some (inl (-2)) else
  let sx := fold_case ic <$> x in
  let? (r, gs) := preBmGs suff sx m gs in
  if r <? 0 then Some (inl (-3)) else
  let? bc := preBmBc sx m bc in
  Some (inr (mkBM gs bc sx m ic))
  end.

(** ** The search *)

(** [for (i = saved_m - 1; i >= 0 && saved_x[i] == fold(y[i + j]); --i);] from [i = k - 1];
    answers the last [i]. *)
Fixpoint compare (k : nat) (bm : BM) (y : list Z) (j : Z) : option Z :=
  match k with
  | O => Some (-1)
  | S k =>
      let i := Z.of_nat k in
      let? a := znth (saved_x bm) i in
      let? b := znth y (i + j) in
      if a =? fold_case (icase bm) b then compare k bm y j else Some i
  end.

(** The caller's function: it sees a position and answers; [A] is the state it works on. *)
Context {A : Type}.
Variable mfun : option (Z -> A -> Z * A).

(** The [while] loop; [j] grows in every turn, so [n + 1] turns are enough. *)
Fixpoint search_loop (fuel : nat) (bm : BM) (y : list Z) (n j nm : Z) (st : A) : option (Z * A) :=
  match fuel with
  | O => None
  | S fuel =>
      if j <=? n - saved_m bm then
        let? i := compare (Z.to_nat (saved_m bm)) bm y j in
        if i <? 0 then
          match mfun with
          | Some mf =>
              let (c, st) := mf j st in
              if negb (c =? 0) then Some (if c <? 0 then c else nm + 1, st)
              else
                let? g := znth (bmGs bm) 0 in
                search_loop fuel bm y n (j + g) (nm + 1) st
          | None => Some (to_int j, st)
          end
        else
          let? b := znth y (i + j) in
          let c := fold_case (icase bm) b in
          let? g := znth (bmGs bm) i in
          let? d := znth (bmBc bm) c in
          search_loop fuel bm y n (j + Z.max g (d - saved_m bm + 1 + i)) nm st
      else Some (match mfun with None => -1 | Some _ => nm end, st)
  end.
Definition bm_search (bm : BM) (y : list Z) (st : A) : option (Z * A) :=
  let n := Z.of_nat (length y) in
  if n <? saved_m bm then Some (-1, st)
  else search_loop (S (length y)) bm y n 0 0 st.
End Search.

(** ** The suffix lengths *)

Section Tables.
Variable x : list Z.
Let m : Z := Z.of_nat (length x).
Hypothesis Hm : 0 < m.

Definition X (k : Z) : Z := default 0 (znth x k).
Lemma X_lookup k : 0 <= k < m -> znth x k = Some (X k).
Proof. intros Hk. unfold X. destruct (znth_Some x k Hk) as [v ->]. done. Qed.

(** [l] characters before and including [i] are the last [l] of the pattern, and no more. *)
Definition is_suff (i l : Z) : Prop :=
  0 <= l <= i + 1 /\ (forall t, 0 <= t < l -> X (i - t) = X (m - 1 - t)) /\
  (l = i + 1 \/ X (i - l) <> X (m - 1 - l)).

(** Column [i] of an array [l] holds a value with property [P]. *)
Definition holds (l : list Z) (i : Z) (P : Z -> Prop) : Prop := exists v, znth l i = Some v /\ P v.
Lemma holds_zset l l' i v j P : zset l i v = Some l' -> (j = i -> P v) -> (j <> i -> holds l j P) -> holds l' j P.
Proof.
  intros Hs H1 H2. pose proof (znth_zset l l' i v j Hs) as Hz. destruct (Z.eqb_spec j i) as [->|Hne].
  - exists v. auto.
  - destruct (H2 Hne) as (w & Hw & Hp). exists w. by rewrite Hz.
Qed.
Lemma holds_mono l i (P Q : Z -> Prop) : holds l i P -> (forall v, P v -> Q v) -> holds l i Q.
Proof. intros (v & ? & ?) HQ. exists v. auto. Qed.

Lemma extend_spec n f g : Z.of_nat n = g + 1 -> -1 <= g <= f -> f <= m - 1 ->
  exists g', extend n x m f g = Some g' /\ -1 <= g' <= g /\
    (forall k, g' < k <= g -> X k = X (k + m - 1 - f)) /\ (g' = -1 \/ X g' <> X (g' + m - 1 - f)).
Proof.
  revert g. induction n as [|n IH]; intros g Hn Hg Hf; cbn [extend].
  { exists g. split; [done|]. split; [lia|]. split; [intros; lia|left; lia]. }
  rewrite !X_lookup by lia. destruct (Z.eqb_spec (X g) (X (g + m - 1 - f))) as [He|He].
  - destruct (IH (g - 1)) as (g' & -> & Hb & Hk & Hstop); [lia..|]. exists g'. split; [done|]. split; [lia|].
    split; [|done]. intros k Hk'. destruct (decide (k = g)) as [->|]; [done|]. apply Hk. lia.
  - exists g. split; [done|]. split; [lia|]. split; [intros; lia|by right].
Qed.

(** The window of the last extension: [g < t <= f] is known to agree with the end. *)
Definition window (k f g : Z) : Prop :=
  g = m - 1 \/ (k <= f <= m - 2 /\ -1 <= g <= f /\ forall t, g < t <= f -> X t = X (t + m - 1 - f)).

Lemma suff_step_short i f g v : 0 <= i <= m - 2 -> window (i + 1) f g -> g < i -> is_suff (i + m - 1 - f) v -> v < i - g ->
  is_suff i v.
Proof.
  intros Hi [->|(Hf & Hg & Hw)] Hgi ((Hv0 & Hv1) & Hv2 & Hv3) Hv; [lia|].
  assert (forall t, 0 <= t <= v -> X (i - t) = X (i + m - 1 - f - t)) as Hsh.
  { intros t Ht. rewrite Hw by lia. f_equal. lia. }
  split; [lia|]. split.
  - intros t Ht. rewrite Hsh by lia. apply Hv2. lia.
  - right. rewrite Hsh by lia. destruct Hv3 as [|Hv3]; [lia|exact Hv3].
Qed.

Lemma suff_step_long i f g g0 g' v : 0 <= i -> (g <= i -> window (i + 1) f g) ->
  g0 = (if i <? g then i else g) -> (g < i -> is_suff (i + m - 1 - f) v /\ i - g <= v) ->
  i <= m - 2 -> -1 <= g' <= g0 ->
  (forall k, g' < k <= g0 -> X k = X (k + m - 1 - i)) -> (g' = -1 \/ X g' <> X (g' + m - 1 - i)) ->
  is_suff i (i - g') /\ window i i g'.
Proof.
  intros Hi Hwin Hg0 Hv Hm2 Hg' Hk Hstop. assert (g0 <= i) by (subst g0; destruct (Z.ltb_spec i g); lia).
  assert (forall t, 0 <= t < i - g' -> X (i - t) = X (m - 1 - t)) as Hall.
  { intros t Ht. destruct (decide (i - t <= g0)) as [Hle|Hgt].
    - rewrite Hk by lia. f_equal. lia.
    - destruct (Z.ltb_spec i g); [lia|]. subst g0. destruct (Hv ltac:(lia)) as [(Hv1 & Hv2 & _) Hle].
      destruct (Hwin ltac:(lia)) as [|(Hf & Hg & Hw)]; [lia|]. rewrite Hw by lia.
      rewrite <- Hv2 by lia. f_equal. lia. }
  split.
  - split; [lia|]. split; [done|]. destruct Hstop as [->|Hstop]; [left; lia|right].
    replace (i - (i - g')) with g' by lia. by replace (m - 1 - (i - g')) with (g' + m - 1 - i) by lia.
  - right. split; [lia|]. split; [lia|]. intros t Ht. replace t with (i - (i - t)) at 1 by lia.
    rewrite Hall by lia. f_equal. lia.
Qed.

Lemma suff_loop_spec k f g suff : Z.of_nat k <= m - 1 -> Z.of_nat (length suff) = m ->
  window (Z.of_nat k) f g -> -1 <= g ->
  (forall j, Z.of_nat k <= j < m -> holds suff j (is_suff j)) ->
  exists suff', suff_loop k x m f g suff = Some suff' /\ Z.of_nat (length suff') = m /\
    forall j, 0 <= j < m -> holds suff' j (is_suff j).
Proof.
  revert f g suff. induction k as [|k IH]; intros f g suff Hk Hl Hw Hg1 Hs; cbn [suff_loop].
  { exists suff. split; [done|]. split; [done|]. intros j Hj. apply Hs. lia. }
  replace (Z.of_nat (S k)) with (Z.of_nat k + 1) in * by lia. set (i := Z.of_nat k) in *.
  assert (forall v f' g', is_suff i v -> window i f' g' -> -1 <= g' ->
    exists suff', (let? s := zset suff i v in suff_loop k x m f' g' s) = Some suff' /\ Z.of_nat (length suff') = m /\
      forall j, 0 <= j < m -> holds suff' j (is_suff j)) as Hnext.
  { intros v f' g' Hv Hw' Hg'. rewrite zset_Some by lia. apply IH; fold i; rewrite ?length_insert; try done; try lia.
    intros j Hj. eapply holds_zset; [apply zset_Some; lia|intros ->; done|]. intros Hne. apply Hs. lia. }
  destruct (Z.ltb_spec g i) as [Hgi|Hgi].
  - destruct Hw as [Hw|Hw]; [lia|]. pose proof Hw as (Hf & Hg & Ht).
    destruct (Hs (i + m - 1 - f)) as (v & -> & Hv); [lia|]. destruct (Z.ltb_spec v (i - g)) as [Hlt|Hge].
    + apply Hnext; [eapply (suff_step_short i f g); try done; try lia; by right| |lia].
      right. split; [lia|]. done.
    + destruct (Z.ltb_spec i g); [lia|].
      destruct (extend_spec (Z.to_nat (g + 1)) i g) as (g' & -> & Hb & Hk' & Hstop); [lia..|].
      destruct (suff_step_long i f g g g' v) as [H1 H2]; try done; try lia; [by right|by destruct (Z.ltb_spec i g); [lia|]|].
      apply Hnext; [done|done|lia].
  - assert ((if i <? g then i else g) = i) as Hg0 by (destruct (Z.ltb_spec i g); lia). rewrite Hg0.
    destruct (extend_spec (Z.to_nat (i + 1)) i i) as (g' & -> & Hb & Hk' & Hstop); [lia..|].
    destruct (suff_step_long i f g i g' 0) as [H1 H2]; try done; try lia.
    apply Hnext; [done|done|lia].
Qed.

Lemma suffixes_spec suff : Z.of_nat (length suff) = m ->
  exists suff', suffixes x m suff = Some suff' /\ Z.of_nat (length suff') = m /\
    forall j, 0 <= j < m -> holds suff' j (is_suff j).
Proof.
  intros Hl. unfold suffixes. rewrite zset_Some by lia. apply suff_loop_spec; rewrite ?length_insert; try lia.
  - left. lia.
  - intros j Hj. eapply holds_zset; [apply zset_Some; lia| |intros; lia]. intros ->.
    split; [lia|]. split; [done|left; lia].
Qed.

(** ** The shift tables *)

Lemma is_suff_unique i l l' : is_suff i l -> is_suff i l' -> l = l'.
Proof.
  assert (forall a b, is_suff i a -> is_suff i b -> a < b -> False) as Hlt.
  { intros a b (Ha & _ & Hstop) (Hb & Hag & _) Hab. destruct Hstop as [|Hs]; [lia|]. apply Hs, Hag. lia. }
  intros H1 H2. destruct (Z.lt_trichotomy l l') as [|[|]]; [|done|]; exfalso; eauto.
Qed.

Lemma fill_loop_spec k i v t : 0 <= i -> i + Z.of_nat k <= zlen t ->
  exists t', fill_loop k i v t = Some t' /\ length t' = length t /\
    forall p, znth t' p = if (i <=? p) && (p <? i + Z.of_nat k) then Some v else znth t p.
Proof.
  revert i t. induction k as [|k IH]; intros i t Hi Hk; cbn [fill_loop].
  { exists t. do 2 (split; [done|]). intros p. destruct (Z.leb_spec i p), (Z.ltb_spec p (i + Z.of_nat 0)); done || lia. }
  destruct (zset t i v) as [t1|] eqn:E; [|rewrite zset_Some in E by lia; done].
  pose proof (zset_length _ _ _ _ E) as Hl. destruct (IH (i + 1) t1) as (t' & -> & Hl' & Ht'); [lia..|].
  exists t'. split; [done|]. split; [lia|]. intros p. rewrite Ht', (znth_zset _ _ _ _ p E).
  destruct (Z.leb_spec (i + 1) p), (Z.ltb_spec p (i + 1 + Z.of_nat k)), (Z.leb_spec i p),
    (Z.ltb_spec p (i + Z.of_nat (S k))), (Z.eqb_spec p i); simpl; done || lia.
Qed.

Lemma gs_fill_spec n i j gs : 0 <= j -> j + Z.of_nat n <= zlen gs ->
  (forall p, j <= p < j + Z.of_nat n -> znth gs p = Some m) ->
  exists gs', gs_fill n m i j gs = Some gs' /\ length gs' = length gs /\
    forall p, znth gs' p = if (j <=? p) && (p <? j + Z.of_nat n) then Some (m - 1 - i) else znth gs p.
Proof.
  revert j gs. induction n as [|n IH]; intros j gs Hj Hn Hgs; cbn [gs_fill].
  { exists gs. do 2 (split; [done|]). intros p. destruct (Z.leb_spec j p), (Z.ltb_spec p (j + Z.of_nat 0)); done || lia. }
  rewrite Hgs by lia. rewrite Z.eqb_refl.
  destruct (zset gs j (m - 1 - i)) as [g1|] eqn:E; [|rewrite zset_Some in E by lia; done].
  pose proof (zset_length _ _ _ _ E) as Hl. destruct (IH (j + 1) g1) as (t' & -> & Hl' & Ht'); [lia..| |].
  { intros p Hp. rewrite (znth_zset _ _ _ _ p E). destruct (Z.eqb_spec p j); [lia|]. apply Hgs. lia. }
  exists t'. split; [done|]. split; [lia|]. intros p. rewrite Ht', (znth_zset _ _ _ _ p E).
  destruct (Z.leb_spec (j + 1) p), (Z.ltb_spec p (j + 1 + Z.of_nat n)), (Z.leb_spec j p),
    (Z.ltb_spec p (j + Z.of_nat (S n))), (Z.eqb_spec p j); simpl; done || lia.
Qed.

(** Entry [p] respects the borders [i >= i0] of the pattern. *)
Definition border_ok (i0 p v : Z) : Prop :=
  1 <= v <= m /\ forall i, i0 <= i -> -1 <= i <= m - 1 -> is_suff i (i + 1) -> p < m - 1 - i -> v <= m - 1 - i.
Definition filled (i0 j p v : Z) : Prop :=
  border_ok i0 p v /\ (p < j -> v <= m - i0) /\ (j <= p -> v = m).

Lemma gs_loop1_step i j gs : 0 <= i + 1 <= m -> 0 <= j <= m - 1 - i -> zlen gs = m ->
  is_suff i (i + 1) -> (forall p, 0 <= p < m -> holds gs p (filled (i + 1) j p)) ->
  exists gs', gs_fill (Z.to_nat (m - 1 - i - j)) m i j gs = Some gs' /\ zlen gs' = m /\
    forall p, 0 <= p < m -> holds gs' p (filled i (m - 1 - i) p).
Proof.
  intros Hi Hj Hl Hb Hgs. destruct (gs_fill_spec (Z.to_nat (m - 1 - i - j)) i j gs) as (gs' & -> & Hl' & Hz); [lia..| |].
  { intros p Hp. destruct (Hgs p) as (v & Hv & _ & _ & E); [lia|]. rewrite Hv, E by lia. done. }
  exists gs'. split; [done|]. split; [lia|]. intros p Hp. destruct (Hgs p Hp) as (v & Hv & ([Hv1 Hv2] & Hv3 & Hv4)).
  unfold holds. rewrite Hz. destruct (Z.leb_spec j p), (Z.ltb_spec p (j + Z.of_nat (Z.to_nat (m - 1 - i - j))));
    simpl; try rewrite Hv; eexists; (split; [done|]).
  { split; [split; [lia|]|lia]. intros i' ? ? Hb' ?. destruct (decide (i' = i)); [lia|].
    specialize (Hv2 i' ltac:(lia) ltac:(lia) Hb' ltac:(lia)). lia. }
  all: (split; [|lia]); (split; [lia|]); intros i' ? ? ? ?; destruct (decide (i' = i)); [lia|]; apply Hv2; [lia..|done|lia].
Qed.

Lemma gs_loop1_spec k j suff gs : (forall i, 0 <= i < m -> holds suff i (is_suff i)) ->
  Z.of_nat k <= m + 1 -> 0 <= j <= m + 1 - Z.of_nat k -> j <= m -> zlen gs = m ->
  (forall p, 0 <= p < m -> holds gs p (filled (Z.of_nat k - 1) j p)) ->
  exists gs', gs_loop1 k m j suff gs = Some gs' /\ zlen gs' = m /\
    forall p, 0 <= p < m -> holds gs' p (border_ok (-1) p).
Proof.
  intros Hsuff. revert j gs. induction k as [|k IH]; intros j gs Hk Hj Hjm Hl Hgs; cbn [gs_loop1].
  { exists gs. split; [done|]. split; [done|]. intros p Hp. eapply holds_mono; [by apply Hgs|]. by intros v [? _]. }
  set (i := Z.of_nat k - 1) in *. replace (Z.of_nat (S k) - 1) with (i + 1) in Hgs by lia.
  assert (is_suff i (i + 1) -> exists gs', (let? gs0 := gs_fill (Z.to_nat (m - 1 - i - j)) m i j gs in
    gs_loop1 k m (Z.max j (m - 1 - i)) suff gs0) = Some gs' /\ zlen gs' = m /\
      forall p, 0 <= p < m -> holds gs' p (border_ok (-1) p)) as Hfill.
  { intros Hb. destruct (gs_loop1_step i j gs) as (gs1 & -> & Hl1 & Hgs1); [lia..|done|done|].
    rewrite Z.max_r by lia. apply IH; try lia. done. }
  destruct (Z.eqb_spec i (-1)) as [Hi|Hi].
  { apply Hfill. split; [lia|]. split; [intros; lia|left; lia]. }
  destruct (Hsuff i) as (l & -> & Hsl); [lia|]. destruct (Z.eqb_spec l (i + 1)) as [->|Hne]; [auto|].
  apply IH; try lia. fold i. intros p Hp. eapply holds_mono; [by apply Hgs|]. intros v ([H1 H2] & H3 & H4).
  split; [|lia]. split; [lia|]. intros i' ? ? Hb ?. destruct (decide (i' = i)) as [->|]; [|apply H2; [lia..|done|lia]].
  destruct Hne. by eapply is_suff_unique.
Qed.

(** Entry [p] also respects the earlier ends [i < i1] of the suffix after [p]. *)
Definition ends_ok (i1 p v : Z) : Prop :=
  border_ok (-1) p v /\ forall i, 0 <= i < i1 -> is_suff i (m - 1 - p) -> v <= m - 1 - i.

Lemma gs_loop2_spec k i suff gs : (forall i, 0 <= i < m -> holds suff i (is_suff i)) ->
  Z.of_nat k = m - 1 - i -> 0 <= i -> zlen gs = m -> (forall p, 0 <= p < m -> holds gs p (ends_ok i p)) ->
  exists gs', gs_loop2 k m i suff gs = Some gs' /\ zlen gs' = m /\
    forall p, 0 <= p < m -> holds gs' p (ends_ok (m - 1) p).
Proof.
  intros Hsuff. revert i gs. induction k as [|k IH]; intros i gs Hk Hi Hl Hgs; cbn [gs_loop2].
  { replace (m - 1) with i by lia. eauto. }
  destruct (Hsuff i) as (l & -> & Hsl); [lia|]. pose proof Hsl as (Hlb & _).
  destruct (zset gs (m - 1 - l) (m - 1 - i)) as [g1|] eqn:E; [|rewrite zset_Some in E by lia; done].
  pose proof (zset_length _ _ _ _ E). apply IH; try lia. intros p Hp. eapply holds_zset; [exact E|..].
  - intros ->. split; [split; [lia|]|]; intros; lia.
  - intros Hne. eapply holds_mono; [by apply Hgs|]. intros v [H1 H2]. split; [done|]. intros i' Hi' Hs.
    destruct (decide (i' = i)) as [->|]; [|apply H2; [lia|done]]. pose proof (is_suff_unique _ _ _ Hsl Hs). lia.
Qed.

(** A shift by [s] keeps what was compared behind [p] and changes the character at [p]. *)
Definition agrees (p s : Z) : Prop :=
  (forall k, p < k < m -> s <= k -> X (k - s) = X k) /\ (p < s \/ X (p - s) <> X p).
(** The good-suffix shift of [p] moves forward and passes over no such shift. *)
Definition gs_ok (p v : Z) : Prop := 1 <= v <= m /\ forall s, 1 <= s -> agrees p s -> v <= s.

Lemma ends_gs_ok p v : 0 <= p < m -> ends_ok (m - 1) p v -> gs_ok p v.
Proof.
  intros Hp ([Hv Hb] & He). split; [done|]. intros s Hs [Hag Hco]. destruct (decide (m <= s)); [lia|].
  replace s with (m - 1 - (m - 1 - s)) by lia. destruct (decide (p < s)).
  - apply Hb; try lia. split; [lia|]. split; [|left; lia]. intros t Ht.
    replace (m - 1 - s - t) with (m - 1 - t - s) by lia. apply Hag; lia.
  - destruct Hco as [|Hco]; [lia|]. apply He; [lia|]. split; [lia|]. split.
    + intros t Ht. replace (m - 1 - s - t) with (m - 1 - t - s) by lia. apply Hag; lia.
    + right. by replace (m - 1 - s - (m - 1 - p)) with (p - s) by lia; replace (m - 1 - (m - 1 - p)) with p by lia.
Qed.

Lemma preBmGs_spec suff0 gs : zlen suff0 = m -> zlen gs = m ->
  exists gs', preBmGs (Some suff0) x m gs = Some (0, gs') /\ forall p, 0 <= p < m -> holds gs' p (gs_ok p).
Proof.
  intros Hl0' Hl. unfold preBmGs.
  destruct (suffixes_spec suff0 Hl0') as (suff & -> & _ & Hsuff).
  destruct (fill_loop_spec (Z.to_nat m) 0 m gs) as (gs0 & -> & Hl0 & Hz0); [lia..|].
  destruct (gs_loop1_spec (S (Z.to_nat m)) 0 suff gs0) as (gs1 & -> & Hl1 & Hgs1); try done; try lia.
  { intros p Hp. exists m. rewrite Hz0. destruct (Z.leb_spec 0 p), (Z.ltb_spec p (0 + Z.of_nat (Z.to_nat m))); try lia.
    split; [done|]. split; [split; [lia|]|lia]. intros; lia. }
  destruct (gs_loop2_spec (Z.to_nat (m - 1)) 0 suff gs1) as (gs2 & -> & Hl2 & Hgs2); try done; try lia.
  { intros p Hp. eapply holds_mono; [by apply Hgs1|]. intros v Hv. split; [done|]. intros; lia. }
  exists gs2. split; [done|]. intros p Hp. eapply holds_mono; [by apply Hgs2|]. intros v. by apply ends_gs_ok.
Qed.

(** The bad-character shift of [c] passes over no [c] in front of the last character. *)
Definition bc_ok (n c v : Z) : Prop := v <= m /\ forall k, 0 <= k < n -> X k = c -> v <= m - 1 - k.

Lemma bc_loop_spec k i bc : Forall is_byte x -> Z.of_nat k = m - 1 - i -> 0 <= i -> zlen bc = BM_ASIZE ->
  (forall c, is_byte c -> holds bc c (bc_ok i c)) ->
  exists bc', bc_loop k i m x bc = Some bc' /\ zlen bc' = BM_ASIZE /\ forall c, is_byte c -> holds bc' c (bc_ok (m - 1) c).
Proof.
  intros Hx. revert i bc. induction k as [|k IH]; intros i bc Hk Hi Hl Hbc; cbn [bc_loop].
  { replace (m - 1) with i by lia. eauto. }
  assert (is_byte (X i)) as Hb.
  { pose proof (X_lookup i ltac:(lia)) as Hz. unfold znth in Hz. destruct (Z.ltb_spec i 0); [lia|].
    by eapply Forall_lookup_1 in Hz. }
  rewrite X_lookup by lia. destruct (zset bc (X i) (m - i - 1)) as [b1|] eqn:E;
    [|rewrite zset_Some in E by (unfold is_byte, BM_ASIZE in *; lia); done].
  pose proof (zset_length _ _ _ _ E). apply IH; try lia. intros c Hc. eapply holds_zset; [exact E|..].
  - intros ->. split; [lia|]. intros; lia.
  - intros Hne. eapply holds_mono; [by apply Hbc|]. intros v [H1 H2]. split; [done|]. intros j Hj Hjc.
    destruct (decide (j = i)) as [->|]; [done|]. apply H2; [lia|done].
Qed.

Lemma preBmBc_spec bc : Forall is_byte x -> zlen bc = BM_ASIZE ->
  exists bc', preBmBc x m bc = Some bc' /\ forall c, is_byte c -> holds bc' c (bc_ok (m - 1) c).
Proof.
  intros Hx Hl. unfold preBmBc. destruct (fill_loop_spec (Z.to_nat BM_ASIZE) 0 m bc) as (bc0 & -> & Hl0 & Hz0);
    [unfold BM_ASIZE in *; lia..|].
  destruct (bc_loop_spec (Z.to_nat (m - 1)) 0 bc0) as (bc' & -> & _ & Hbc); try done; try lia; [|eauto].
  intros c [? ?]. exists m. rewrite Hz0. unfold BM_ASIZE. destruct (Z.leb_spec 0 c), (Z.ltb_spec c (0 + Z.of_nat (Z.to_nat 256)));
    simpl; try lia. split; [done|]. split; [lia|]. intros; lia.
Qed.
End Tables.

(** ** Occurrences *)

(** What the search is for: the positions at which the text reads [x]. *)
Definition occurs (x y : list Z) (j : Z) : Prop := take (length x) (drop (Z.to_nat j) y) = x.
#[export] Instance occurs_dec x y j : Decision (occurs x y j).
Proof. unfold occurs. apply _. Defined.
Definition occurrences_from (x y : list Z) (j : Z) : list Z :=
  filter (occurs x y) (seqZ j (zlen y - zlen x + 1 - j)).
Definition occurrences (x y : list Z) : list Z := occurrences_from x y 0.

(** What a search does with its matches: the function is called on each position in turn,
    until it answers something else than 0; with no function, the first position is the
    answer. *)
Definition visit {A} (mfun : option (Z -> A -> Z * A)) : list Z -> Z -> A -> Z * A :=
  fix go (occ : list Z) (nm : Z) (st : A) :=
  match occ with
  | [] => (match mfun with None => -1 | Some _ => nm end, st)
  | j :: occ =>
      match mfun with
      | Some mf => let (c, st) := mf j st in
          if negb (c =? 0) then (if c <? 0 then c else nm + 1, st) else go occ (nm + 1) st
      | None => (to_int j, st)
      end
  end.

Lemma occurs_iff x y j : 0 <= j -> j + zlen x <= zlen y ->
  occurs x y j <-> forall k, 0 <= k < zlen x -> X y (j + k) = X x k.
Proof.
  intros Hj Hn. assert (forall k, 0 <= k < zlen x ->
    znth (take (length x) (drop (Z.to_nat j) y)) k = Some (X y (j + k))) as Ht.
  { intros k Hk. rewrite <- (X_lookup y (j + k)) by lia. unfold znth.
    destruct (Z.ltb_spec k 0), (Z.ltb_spec (j + k) 0); try lia. rewrite lookup_take_lt by lia.
    rewrite lookup_drop. f_equal. lia. }
  unfold occurs. split.
  - intros Ho k Hk. specialize (Ht k Hk). rewrite Ho, X_lookup in Ht by lia. congruence.
  - intros Hk. apply list_eq_same_length with (length x); [done|rewrite length_take, length_drop; lia|].
    intros i u v Hi Hu Hv. specialize (Ht (Z.of_nat i) ltac:(lia)). rewrite Hk in Ht by lia.
    pose proof (X_lookup x (Z.of_nat i) ltac:(lia)) as Hx. rewrite znth_nat in Ht, Hx. congruence.
Qed.

Lemma filter_none {A} (P : A -> Prop) `{!forall a, Decision (P a)} l : Forall (fun a => ~ P a) l -> filter P l = [].
Proof. induction 1; [done|]. by rewrite filter_cons_False. Qed.

Lemma occurrences_skip x y j d : 0 <= d -> (forall s, 0 <= s < d -> j + s + zlen x <= zlen y -> ~ occurs x y (j + s)) ->
  occurrences_from x y j = occurrences_from x y (j + d).
Proof.
  intros Hd Hs. unfold occurrences_from. set (l := zlen y - zlen x + 1).
  destruct (decide (j + d <= l)) as [Hle|Hgt].
  - replace (l - j) with (d + (l - (j + d))) by lia. rewrite seqZ_app by lia. rewrite filter_app.
    replace (filter (occurs x y) (seqZ j d)) with (@nil Z); [done|]. symmetry. apply filter_none.
    apply Forall_seqZ. intros i Hi. replace i with (j + (i - j)) by lia. apply Hs; lia.
  - rewrite (seqZ_nil (j + d)) by lia. apply filter_none. apply Forall_seqZ. intros i Hi.
    replace i with (j + (i - j)) by lia. apply Hs; lia.
Qed.

Lemma occurrences_here x y j : j + zlen x <= zlen y -> occurs x y j ->
  occurrences_from x y j = j :: occurrences_from x y (j + 1).
Proof.
  intros Hj Ho. unfold occurrences_from. rewrite seqZ_cons by lia. rewrite filter_cons_True by done.
  do 3 f_equal. lia.
Qed.

Section SearchProof.
Variable tolower : Z -> Z.
Hypothesis tolower_byte : forall c, is_byte c -> is_byte (tolower c).

Lemma fold_byte ic l : Forall is_byte l -> Forall is_byte (fold_case tolower ic <$> l).
Proof. intros Hl. apply Forall_fmap. eapply Forall_impl; [exact Hl|]. intros c Hc. destruct ic; simpl; auto. Qed.

Context (bm : BM) (y : list Z).
Let x := saved_x bm.
Let yf := fold_case tolower (icase bm) <$> y.
Let m := zlen x.
Hypothesis Hm : 0 < m.
Hypothesis Hsaved : saved_m bm = m.
Hypothesis Hgs : forall p, 0 <= p < m -> holds (bmGs bm) p (gs_ok x p).
Hypothesis Hbc : forall c, is_byte c -> holds (bmBc bm) c (bc_ok x (m - 1) c).
Hypothesis Hy : Forall is_byte y.

Lemma text_at k : 0 <= k < zlen y -> exists b, znth y k = Some b /\ fold_case tolower (icase bm) b = X yf k.
Proof.
  intros Hk. destruct (znth_Some y k Hk) as [b Hb]. exists b. split; [done|]. unfold X, yf, znth in *.
  destruct (k <? 0); [done|]. by rewrite list_lookup_fmap, Hb.
Qed.

Lemma compare_spec k j : Z.of_nat k <= m -> 0 <= j -> j + m <= zlen y ->
  exists i, compare tolower k bm y j = Some i /\ -1 <= i < Z.of_nat k /\
    (forall t, i < t < Z.of_nat k -> X yf (j + t) = X x t) /\ (0 <= i -> X yf (j + i) <> X x i).
Proof.
  intros Hk Hj Hn. induction k as [|k IH]; cbn [compare].
  { exists (-1). split; [done|]. split; [lia|]. split; intros; lia. }
  rewrite (X_lookup x) by lia. destruct (text_at (Z.of_nat k + j)) as (b & -> & Hb); [lia|]. rewrite Hb.
  replace (Z.of_nat k + j) with (j + Z.of_nat k) by lia.
  destruct (Z.eqb_spec (X x (Z.of_nat k)) (X yf (j + Z.of_nat k))) as [He|Hne].
  - destruct IH as (i & -> & Hi & Ht & Hs); [lia|]. exists i. split; [done|]. split; [lia|]. split; [|done].
    intros t Ht'. destruct (decide (t = Z.of_nat k)) as [->|]; [done|]. apply Ht. lia.
  - exists (Z.of_nat k). split; [done|]. split; [lia|]. split; [intros; lia|]. intros _ Hc. by destruct Hne.
Qed.

(** An occurrence [s] further on is a shift that the tables do not pass over. *)
Lemma later_agrees j i s : 0 <= j -> -1 <= i < m -> 1 <= s -> j + s + m <= zlen y ->
  (forall t, i < t < m -> X yf (j + t) = X x t) -> (0 <= i -> X yf (j + i) <> X x i) ->
  occurs x yf (j + s) -> agrees x (Z.max i 0) s.
Proof.
  intros Hj Hi Hs Hn Hag Hne Ho. rewrite occurs_iff in Ho by (unfold yf in *; rewrite ?length_fmap; lia). split.
  - intros k Hk Hsk. rewrite <- (Hag k) by (unfold m, x in *; lia). rewrite <- Ho by (unfold m, x in *; lia). f_equal. lia.
  - destruct (decide (i < s)); [lia|]. right. rewrite Z.max_l by lia. intros Hc. apply Hne; [lia|].
    rewrite <- Hc, <- Ho by (unfold m, x in *; lia). f_equal. lia.
Qed.

Lemma bad_character j i s d : 0 <= j -> 0 <= i < m -> 1 <= s -> j + s + m <= zlen y -> occurs x yf (j + s) ->
  bc_ok x (m - 1) (X yf (j + i)) d -> d - m + 1 + i <= s.
Proof.
  intros Hj Hi Hs Hn Ho [Hd1 Hd2]. destruct (decide (i < s)); [unfold m, x in *; lia|].
  rewrite occurs_iff in Ho by (unfold yf in *; rewrite ?length_fmap; lia).
  specialize (Hd2 (i - s) ltac:(lia)). rewrite <- Ho in Hd2 by (unfold m, x in *; lia).
  specialize (Hd2 ltac:(f_equal; lia)). unfold m, x in *. lia.
Qed.

Lemma search_loop_spec {A} (mfun : option (Z -> A -> Z * A)) fuel j nm st : 0 <= j ->
  0 < Z.of_nat fuel -> zlen y - m + 1 - j < Z.of_nat fuel ->
  search_loop tolower mfun fuel bm y (zlen y) j nm st = Some (visit mfun (occurrences_from x yf j) nm st).
Proof.
  assert (zlen yf = zlen y) as Hly by (unfold yf; by rewrite length_fmap).
  revert j nm st. induction fuel as [|fuel IH]; intros j nm st Hj Hf0 Hf; cbn [search_loop]; [lia|].
  rewrite Hsaved. destruct (Z.leb_spec j (zlen y - m)) as [Hle|Hgt]; last first.
  { unfold occurrences_from. rewrite seqZ_nil by (unfold m in *; lia). done. }
  destruct (compare_spec (Z.to_nat m) j) as (i & -> & Hi & Hag & Hne); [lia..|].
  rewrite Z2Nat.id in Hi, Hag by lia. destruct (Z.ltb_spec i 0) as [Hneg|Hpos].
  - assert (occurs x yf j) as Ho by (apply occurs_iff; [lia|unfold m in *; lia|]; intros; apply Hag; unfold m in *; lia).
    rewrite occurrences_here by (done || unfold m in *; lia). destruct mfun as [mf|]; [|done].
    cbn [visit]. destruct (mf j st) as [c st']. destruct (negb (c =? 0)); [done|].
    destruct (Hgs 0) as (g & -> & [Hg1 Hg2]); [lia|]. rewrite IH by lia. fold (visit (Some mf)). f_equal. f_equal.
    replace (j + g) with (j + 1 + (g - 1)) by lia. symmetry. apply occurrences_skip; [lia|].
    intros s Hs Hn Hos. specialize (Hg2 (s + 1) ltac:(lia)). enough (g <= s + 1) by lia. apply Hg2.
    replace 0 with (Z.max i 0) by lia. apply (later_agrees j i (s + 1)); try (unfold m in *; lia); try done. by replace (j + (s + 1)) with (j + 1 + s) by lia.
  - destruct (text_at (i + j)) as (b & Hb & Hbf); [unfold m in *; lia|]. rewrite Hb, Hbf.
    destruct (Hgs i) as (g & -> & [Hg1 Hg2]); [lia|].
    assert (is_byte (X yf (i + j))) as Hbyte.
    { rewrite <- Hbf. unfold znth in Hb. destruct (i + j <? 0); [done|]. eapply Forall_lookup_1 in Hb; [|exact Hy].
      destruct (icase bm); simpl; auto. }
    destruct (Hbc _ Hbyte) as (d & -> & Hd). rewrite IH by lia. f_equal. f_equal. symmetry. apply occurrences_skip; [lia|].
    intros s Hs Hn Hos. rewrite Hly in Hn. fold m in Hn. destruct (decide (s = 0)) as [->|].
    { rewrite Z.add_0_r in Hos. rewrite occurs_iff in Hos by (unfold m in *; lia). apply (Hne Hpos), Hos. unfold m in *. lia. }
    assert (g <= s). { apply Hg2; [lia|]. replace i with (Z.max i 0) by lia. apply (later_agrees j i s); try lia; done. }
    assert (d - m + 1 + i <= s). { replace (i + j) with (j + i) in Hd by lia. apply (bad_character j i s d); try lia; done. }
    lia.
Qed.
End SearchProof.

Lemma bm_search_finds tolower gs suff bc x ic :
  (forall c, is_byte c -> is_byte (tolower c)) -> x <> [] -> Forall is_byte x ->
  length gs = length x -> length suff = length x -> zlen bc = BM_ASIZE ->
  exists bm, bm_init tolower (Some gs) true (Some suff) bc x ic = Some (inr bm) /\
    forall A (mfun : option (Z -> A -> Z * A)) y st, Forall is_byte y ->
    bm_search tolower mfun bm y st =
      Some (if zlen y <? zlen x then (-1, st)
            else visit mfun (occurrences (fold_case tolower ic <$> x) (fold_case tolower ic <$> y)) 0 st).
Proof.
  intros Ht Hx Hxb Hgl Hsl Hbc. assert (0 < zlen x) as Hm by (destruct x; [done|simpl; lia]).
  set (sx := fold_case tolower ic <$> x). assert (zlen sx = zlen x) as Hsx by (unfold sx; by rewrite length_fmap).
  unfold bm_init. cbn [negb]. fold sx. rewrite <- Hsx in *.
  destruct (preBmGs_spec sx Hm suff gs) as (gs' & -> & Hgs); [lia..|].
  destruct (preBmBc_spec sx Hm bc) as (bc' & -> & Hbc'); [by apply fold_byte|done|].
  eexists. split; [reflexivity|]. intros A mfun y st Hyb. unfold bm_search. cbn [saved_m].
  destruct (Z.ltb_spec (zlen y) (zlen sx)); [done|].
  apply (search_loop_spec tolower Ht (mkBM gs' bc' sx (zlen sx) ic) y); simpl; try done; lia.
Qed.

(** C15. The Boyer-Moore search is a search: for every non-empty pattern and every text,
    over bytes and with or without case folding, [bm_init] succeeds when its allocations do,
    and [bm_search] on the structure it builds terminates without leaving any of its tables
    or the text, and calls the match function on exactly the positions at which the (folded)
    pattern occurs in the (folded) text, in increasing order, overlapping ones included,
    stopping at the first non-zero answer; without a function it answers the first such
    position, or -1. A text shorter than the pattern is answered -1 in both cases. *)
Theorem bm_search_correct tolower {A} (mfun : option (Z -> A -> Z * A)) gs suff bc x y ic st :
  (forall c, is_byte c -> is_byte (tolower c)) -> x <> [] -> Forall is_byte x -> Forall is_byte y ->
  length gs = length x -> length suff = length x -> zlen bc = BM_ASIZE ->
  exists bm, bm_init tolower (Some gs) true (Some suff) bc x ic = Some (inr bm) /\
    bm_search tolower mfun bm y st =
      Some (if zlen y <? zlen x then (-1, st)
            else visit mfun (occurrences (fold_case tolower ic <$> x) (fold_case tolower ic <$> y)) 0 st).
Proof.
  intros Ht Hx Hxb Hyb Hgl Hsl Hbc. destruct (bm_search_finds tolower gs suff bc x ic) as (bm & Hi & Hs); try done.
  exists bm. split; [done|]. by apply Hs.
Qed.

(** [tolower] of the C locale. *)
Definition ascii_lower (c : Z) : Z := if (65 <=? c) && (c <=? 90) then c + 32 else c.
Lemma ascii_lower_byte c : is_byte c -> is_byte (ascii_lower c).
Proof. unfold is_byte, ascii_lower. destruct (Z.leb_spec 65 c), (Z.leb_spec c 90); simpl; lia. Qed.

(** Looking for [aBa] in [xabaBABA], the case ignored: at 1, 3 and 5. *)
Lemma bm_search_correct_witness : exists bm,
  bm_init ascii_lower (Some [7; 8; 9]) true (Some [1; 2; 3]) (replicate 256 0) [97; 66; 97] true = Some (inr bm) /\
  bm_search ascii_lower (Some (fun j l => (0, l ++ [j]))) bm [120; 97; 98; 97; 66; 65; 66; 65] [] = Some (3, [1; 3; 5]).
Proof.
  apply (bm_search_correct ascii_lower (Some (fun j l => (0, l ++ [j]))) [7; 8; 9] [1; 2; 3] (replicate 256 0)
    [97; 66; 97] [120; 97; 98; 97; 66; 65; 66; 65] true []).
  - exact ascii_lower_byte.
  - discriminate.
  - repeat constructor; lia.
  - repeat constructor; lia.
  - reflexivity.
  - reflexivity.
  - reflexivity.
Defined.

(** The other ends of [bm_init]: it answers -1, -2 and -3 for the three allocations that
    can fail, and an empty pattern, which [pfscan] passes on when its search string is empty,
    stores outside [suff] (at index -1): no error is reported. *)
Lemma bm_init_errors tolower gs suff bc x ic a2 :
  bm_init tolower None a2 suff bc x ic = Some (inl (-1)) /\
  bm_init tolower (Some gs) false suff bc x ic = Some (inl (-2)) /\
  bm_init tolower (Some gs) true None bc x ic = Some (inl (-3)) /\
  forall b, bm_init tolower (Some gs) true (Some b) bc [] ic = None.
Proof. done. Qed.
End Bm.
