(* ===== verification/Pqueue.v ===== *)
(** The bounded queue of [src/papps/pfscan-1.0/pqueue.c], written against the runtime: with
    [dpthread-wrapper.h] its [pthread_*] calls are the [det_*] operations of [Sync].

    A [PQUEUE] at address [q] lives in the shared variables of the program, its mutex and
    condition variables in the objects [q], [q + 1] and [q + 2]. *)
From stdpp Require Import base list gmap strings.
From Stdlib Require Import ZArith Lia.
From S2P Require Import Prelude Queue Runtime Clock Sync Threads Samples Turn Mutexes Pause Conds Barriers.
Open Scope m_scope.
Open Scope prog_scope.

(** ** The members of a [PQUEUE] *)
Definition qsize (q : Z) : Z := q.
Definition occupied (q : Z) : Z := q + 1.
Definition nextin (q : Z) : Z := q + 2.
Definition nextout (q : Z) : Z := q + 3.
Definition closed (q : Z) : Z := q + 4.
Definition buf (q i : Z) : Z := q + 8 + i.
Definition mtx (q : Z) : addr := AObj q.
Definition more (q : Z) : addr := AObj (q + 1).
Definition less (q : Z) : addr := AObj (q + 2).

Section Pqueue.
Context {C : Type} `{PerfCounter C}.
Variables (E : env) (me q : Z).

Definition var (x : Z) : M C Z := gets (fun s => uvar s x).
Definition set_var (x v : Z) : M C unit := modify (upd_uvar x (fun _ => v)).

(** [allocated]: [calloc] succeeds. [return NULL] in a function of type [int] is 0. *)
Definition pqueue_init (allocated : bool) (size : Z) : M C Z :=
  (if negb allocated then mret 0
   else
     set_var (qsize q) size ;;;
     set_var (occupied q) 0 ;;;
     set_var (nextin q) 0 ;;;
     set_var (nextout q) 0 ;;;
     set_var (closed q) 0 ;;;
     det_lock_init E me (mtx q) ;;;
     det_cond_init E me (more q) ;;;
     det_cond_init E me (less q) ;;;
     mret 0)%M.

Definition pqueue_close : prog C unit :=
  det_lock E me (mtx q) ;~
  Act (set_var (closed q) 1) ;~
  det_unlock me (mtx q) ;~
  det_cond_broadcast me (more q) ;~
  Ret tt.

(** The array has [qsize] elements. *)
Definition in_buf (i : Z) : M C unit :=
  (n <- var (qsize q) ;;
   massert ((0 <=? i) && (i <? n)) "buf: out of bounds")%M.

(** [x %= qp->qsize] *)
Definition wrap_var (x : Z) : M C unit :=
  (v <- var x ;;
   n <- var (qsize q) ;;
   r <- of_option (c_rem v n) "division by zero" ;;
   set_var x r)%M.

(** [while (qp->occupied >= qp->qsize) pthread_cond_wait(&qp->less, &qp->mtx);] *)
Definition put_wait (_ : unit) : prog C (unit + unit) :=
  o <~ Act (var (occupied q)) ;;
  n <~ Act (var (qsize q)) ;;
  if n <=? o then det_cond_wait E me (less q) (mtx q) ;~ Ret (inl tt) else Ret (inr tt).

Definition pqueue_put (item : Z) : prog C Z :=
  det_lock E me (mtx q) ;~
  c <~ Act (var (closed q)) ;;
  if negb (c =? 0) then Ret 0
  else
    Loop put_wait tt ;~
    i <~ Act (var (nextin q)) ;;
    Act (in_buf i) ;~
    Act (set_var (buf q i) item) ;~
    Act (set_var (nextin q) (i + 1)) ;~
    Act (wrap_var (nextin q)) ;~
    o <~ Act (var (occupied q)) ;;
    Act (set_var (occupied q) (o + 1)) ;~
    det_cond_signal me (more q) ;~
    det_unlock me (mtx q) ;~
    Ret 1.

(** [while (qp->occupied <= 0 && !qp->closed) pthread_cond_wait(&qp->more, &qp->mtx);] *)
Definition get_wait (_ : unit) : prog C (unit + unit) :=
  o <~ Act (var (occupied q)) ;;
  c <~ Act (var (closed q)) ;;
  if (o <=? 0) && (c =? 0) then det_cond_wait E me (more q) (mtx q) ;~ Ret (inl tt) else Ret (inr tt).

(** The [if (qp->occupied > 0) ... else ...]. Answers [got], and [*item] if it was set. *)
Definition get_item : prog C (Z * option Z) :=
  o <~ Act (var (occupied q)) ;;
  if 0 <? o then
    i <~ Act (var (nextout q)) ;;
    Act (in_buf i) ;~
    item <~ Act (var (buf q i)) ;;
    Act (set_var (nextout q) (i + 1)) ;~
    Act (wrap_var (nextout q)) ;~
    o <~ Act (var (occupied q)) ;;
    Act (set_var (occupied q) (o - 1)) ;~
    det_cond_signal me (less q) ;~
    det_unlock me (mtx q) ;~
    Ret (1, Some item)
  else
    det_unlock me (mtx q) ;~
    Ret (0, None).
Definition pqueue_get : prog C (Z * option Z) :=
  det_lock E me (mtx q) ;~
  Loop get_wait tt ;~
  get_item.
End Pqueue.

(** ** The ring *)

Section Ring.
Context {C : Type}.
Variable q : Z.
Implicit Types s : rt C.

(** The queue holds [items], first in first. *)
Record ring s (items : list Z) (cl : Z) : Prop := {
  r_size : 0 < uvar s (qsize q);
  r_room : zlen items <= uvar s (qsize q);
  r_occupied : uvar s (occupied q) = zlen items;
  r_out : 0 <= uvar s (nextout q) < uvar s (qsize q);
  r_in : uvar s (nextin q) = (uvar s (nextout q) + zlen items) mod uvar s (qsize q);
  r_buf i x : items !! i = Some x -> uvar s (buf q ((uvar s (nextout q) + Z.of_nat i) mod uvar s (qsize q))) = x;
  r_closed : uvar s (closed q) = cl
}.

Lemma ring_ext s s' items cl : (forall x, uvar s' x = uvar s x) -> ring s items cl -> ring s' items cl.
Proof. intros Hu []. split; rewrite ?Hu; try done. intros i x Hx. rewrite !Hu. auto. Qed.

Lemma slot_ne a i j n : 0 < n -> 0 <= i < n -> 0 <= j < n -> i <> j -> (a + i) mod n <> (a + j) mod n.
Proof.
  intros Hn Hi Hj Hne Heq. assert ((i - j) mod n = 0) as Hd.
  { replace (i - j) with (a + i - (a + j)) by lia. rewrite Zminus_mod, Heq, Z.sub_diag. apply Z.mod_0_l. lia. }
  apply Z.mod_divide in Hd as [k Hk]; [|lia]. assert (k = 0 \/ 1 <= k \/ k <= -1) as [->|[|]] by lia; [lia|nia|nia].
Qed.

(** What [pqueue_put] and [pqueue_get] store. *)
Definition put_stores (x : Z) s : rt C :=
  let i := uvar s (nextin q) in
  upd_uvar (occupied q) (fun _ => uvar s (occupied q) + 1)
    (upd_uvar (nextin q) (fun _ => (i + 1) mod uvar s (qsize q))
      (upd_uvar (nextin q) (fun _ => i + 1) (upd_uvar (buf q i) (fun _ => x) s))).
Definition get_stores s : rt C :=
  let i := uvar s (nextout q) in
  upd_uvar (occupied q) (fun _ => uvar s (occupied q) - 1)
    (upd_uvar (nextout q) (fun _ => (i + 1) mod uvar s (qsize q)) (upd_uvar (nextout q) (fun _ => i + 1) s)).

Ltac field_ne := unfold qsize, occupied, nextin, nextout, closed, buf; lia.
Ltac fields := repeat first [rewrite uvar_upd_eq | rewrite uvar_upd_ne by field_ne].

Lemma ring_put s items x : ring s items 0 -> zlen items < uvar s (qsize q) -> ring (put_stores x s) (items ++ [x]) 0.
Proof.
  intros [Hs Hr Ho Hout Hin Hb Hc] Hroom. unfold put_stores. set (i := uvar s (nextin q)) in *.
  assert (0 <= i < uvar s (qsize q)) as Hi by (rewrite Hin; apply Z.mod_pos_bound; lia).
  split; rewrite ?length_app; fields; simpl; try lia.
  - rewrite Hin, Zplus_mod_idemp_l. f_equal. lia.
  - intros k y Hk. set (n := uvar s (qsize q)) in *.
    pose proof (Z.mod_pos_bound (uvar s (nextout q) + Z.of_nat k) n Hs) as Hp.
    set (p := (uvar s (nextout q) + Z.of_nat k) mod n) in Hp |- *. fields. unfold p in *. clear p.
    apply lookup_app_Some in Hk as [Hk|[Hge Hk]].
    + pose proof (lookup_lt_Some _ _ _ Hk). rewrite uvar_upd_ne; [by apply Hb|]. unfold buf. rewrite Hin. intros Heq.
      apply (slot_ne (uvar s (nextout q)) (Z.of_nat k) (zlen items) n); lia.
    + apply list_lookup_singleton_Some in Hk as [Hk <-].
      replace ((uvar s (nextout q) + Z.of_nat k) mod n) with i by (rewrite Hin; f_equal; lia). by rewrite uvar_upd_eq.
Qed.

Lemma ring_get s x items cl : ring s (x :: items) cl -> uvar s (buf q (uvar s (nextout q))) = x /\ ring (get_stores s) items cl.
Proof.
  intros [Hs Hr Ho Hout Hin Hb Hc]. split.
  { rewrite <- (Hb 0%nat x eq_refl). f_equal. f_equal. rewrite Z.mod_small; lia. }
  unfold get_stores. set (i := uvar s (nextout q)) in *. simpl in *. pose proof (Z.mod_pos_bound (i + 1) (uvar s (qsize q)) Hs).
  split; fields; try lia.
  - rewrite Hin, Zplus_mod_idemp_l. f_equal. lia.
  - intros k y Hk. set (n := uvar s (qsize q)) in *.
    pose proof (Z.mod_pos_bound ((i + 1) mod n + Z.of_nat k) n Hs) as Hp.
    set (p := ((i + 1) mod n + Z.of_nat k) mod n) in Hp |- *. fields. unfold p in *. clear p.
    rewrite <- (Hb (S k) y Hk). f_equal. f_equal. rewrite Zplus_mod_idemp_l. f_equal. lia.
Qed.
End Ring.

(** ** The operations, run by one thread *)

Lemma less_more q : less q <> more q.
Proof. unfold less, more. intros Heq. injection Heq. lia. Qed.

Section Ops.
Context {C : Type} `{HC : PerfCounter C} `{!PerfCounterLaws C}.
Variables (E : env) (me q : Z).
Implicit Types s : rt C.
Abbreviation at_end s k := (back_at me (AObj 0) s k (fun m => m)).

(** A signal wakes the first waiter, if there is one. *)
Lemma signal_any n c s l : entered me s -> fds (worker s me) <> FdsFreed ->
  logical_time s me < MAX_LOGICAL_CLOCK -> waiting me c l s ->
  finishes n (det_cond_signal me c) s 0 (at_end (wake_all c (logical_time s me) (take 1 l) s) 1).
Proof.
  intros He Hf Hm Hw. destruct l as [|x l]; [|by apply (signal_outside me c n s x l)]. rewrite signal_split.
  eapply finishes_bind; [apply finishes_act; by eapply (op_pause me (AObj 0) s)|]. intros s1 E1. cbv beta.
  eapply signal_empty; try done; [lia|]. intros s3 E3. by apply resume_ends.
Qed.

Lemma wake_all_uvar c t l s x : uvar (wake_all c t l s) x = uvar s x.
Proof. revert t s. induction l as [|y l IH]; intros t s; [done|]. simpl. by rewrite IH. Qed.
Lemma wake_all_cond c c' t l s : c' <> c -> cond (wake_all c t l s) c' = cond s c'.
Proof.
  intros Hne. revert t s. induction l as [|y l IH]; intros t s; [done|]. simpl. rewrite IH. unfold wake.
  by rewrite cond_upd_ne.
Qed.
Lemma wake_all_running c t l s i : hw_clock_enabled (worker (wake_all c t l s) i) = hw_clock_enabled (worker s i).
Proof.
  revert t s. induction l as [|y l IH]; intros t s; [done|]. simpl. rewrite IH. unfold wake. repeat rt_frame.
  rewrite worker_upd. case_decide; by subst.
Qed.

(** What a signal by the owner of a mutex leaves. *)
Record signalled (a c : addr) (l : list Z) s s' : Prop := {
  sg_waiting : waiting me c (drop 1 l) s';
  sg_others c' l' : c' <> c -> waiting me c' l' s -> waiting me c' l' s';
  sg_uvar x : uvar s' x = uvar s x;
  sg_woken y : head l = Some y -> m_holder (waiter_of (cond s' c) y) = None /\ logical_time s' y = logical_time s me
}.

Lemma signal_ends n a c v l s : represents me a s v -> waiting me c l s -> v_time v < MAX_LOGICAL_CLOCK ->
  ends n (det_cond_signal me c) s (fun _ s' =>
    represents me a s' (mkView (v_time v + 1) (v_depth v) (v_released v)) /\ signalled a c l s s').
Proof.
  intros R W Hm. pose proof (is_entered _ _ (rep_enabled _ _ _ _ R)) as He. pose proof (rep_time _ _ _ _ R) as Ht.
  destruct (signal_any n c s l He (rep_fds _ _ _ _ R) ltac:(lia) W) as (s' & Er & Es). exists 0, s'. split; [done|].
  set (b := wake_all c (logical_time s me) (take 1 l) s) in *.
  assert (me ∉ take 1 l) as Hme. { intros Hin. apply (w_me _ _ _ _ W). by eapply elem_of_take in Hin as (? & ?%list_elem_of_lookup_2 & _). }
  assert (forall i, hw_clock_enabled (worker s' i) = hw_clock_enabled (worker s i) \/ i = me) as Hrun.
  { intros i. destruct (decide (i = me)); [by right|]. left. rewrite (sim_worker _ _ Es), back_at_other by done. apply wake_all_running. }
  split.
  - destruct (represents_broadcast me a c (take 1 l) s v s' 1) as (R' & _); try done. by rewrite <- Ht.
  - assert (cond s' c = cond b c) as Ec by apply (sim_cond _ _ Es). split.
    + assert (waiting me c (drop 1 l) b) as W'.
      { unfold b. destruct l as [|y l]; [done|]. simpl. by apply waiting_wake. }
      destruct W' as [? ? ? Hn' ? Hoff]. split; rewrite ?Ec; try done. intros x Hx.
      rewrite (sim_worker _ _ Es), back_at_other by congruence. auto.
    + intros c' l' Hne [? ? ? Hn' ? Hoff].
      assert (cond s' c' = cond s c') as Ec' by (rewrite (sim_cond _ _ Es); by apply wake_all_cond).
      split; rewrite ?Ec'; try done. intros x Hx. destruct (Hrun x) as [->| ->]; [auto|done].
    + intros x. rewrite (sim_uvar _ _ Es). apply wake_all_uvar.
    + intros y Hy. destruct l as [|y' l]; [done|]. injection Hy as ->. rewrite Ec.
      assert (y <> me) as Hne. { intros ->. apply (w_me _ _ _ _ W). by left. }
      unfold logical_time at 1. rewrite (sim_worker _ _ Es), back_at_other by done.
      split; [unfold b; simpl; by rewrite waiter_of_wake, decide_True|].
      apply (wake_time c (logical_time s me) y s). apply (w_off _ _ _ _ W). by left.
Qed.

Lemma ends_loop {A B} n (body : A -> prog C (A + B)) x s Q :
  ends (S n) (body x) s (fun r s' => exists b, r = inr b /\ Q b s') -> ends (S n) (Loop body x) s Q.
Proof. intros (r & s' & Er & b & -> & HQ). exists b, s'. cbn [run run_loop]. rewrite Er. done. Qed.
Lemma ends_ret {A} n (a : A) s (Q : A -> rt C -> Prop) : Q a s -> ends n (Ret a) s Q.
Proof. intros HQ. by exists a, s. Qed.
Lemma ends_act {A B} n (m : M C A) (k : A -> prog C B) s a s1 Q : m s = Ok a s1 -> ends n (k a) s1 Q -> ends n (Bind (Act m) k) s Q.
Proof. intros Em Hk. unfold ends. cbn [run of_res obind]. rewrite Em. exact Hk. Qed.

(** The variables of the program are nobody's clock, mutex or condition variable. *)
Lemma represents_uvar a v s x f : represents me a s v -> represents me a (upd_uvar x f s) v.
Proof. intros [[[Hr Hw] Hm Ht] ? ? ? ? ? ? ? ? ? ?]. split; try done. Qed.
Lemma waiting_uvar c l s x f : waiting me c l s -> waiting me c l (upd_uvar x f s).
Proof. intros []. by split. Qed.
Lemma waiting_others c l s s' : same_others me s s' -> waiting me c l s -> waiting me c l s'.
Proof. intros Hs. intros W. eapply waiting_frame; [exact W|apply Hs|apply Hs]. Qed.

Lemma lock_ends n a t rel s : let T := Z.max t (rel + 1) in
  represents me a s (mkView t 0 rel) -> ahead me s (T + 1) -> T + 1 <= MAX_LOGICAL_CLOCK -> T + 1 - t <= Z.of_nat n ->
  ends (S n) (det_lock E me a) s (fun _ s' => represents me a s' (mkView (T + 1) 1 rel) /\ same_others me s s').
Proof. intros T R Ha Hm Hn. destruct (lock_first E me a n _ s R eq_refl Ha Hm Hn) as (s' & Er & R' & O). by exists 0, s'. Qed.
Lemma unlock_ends n a v s : represents me a s v -> v_depth v = 1%nat ->
  ends n (det_unlock me a) s (fun _ s' => represents me a s' (mkView (v_time v + 1) 0 (v_time v)) /\ same_others me s s').
Proof. intros R Hd. destruct (unlock_last me a n v s R Hd) as (s' & Er & R' & O). by exists 0, s'. Qed.
Lemma in_buf_ok i s : 0 <= i < uvar s (qsize q) -> in_buf q i s = Ok tt s.
Proof.
  intros Hi. unfold in_buf, var, mbind, gets. destruct (Z.leb_spec 0 i), (Z.ltb_spec i (uvar s (qsize q))); done || lia.
Qed.
Lemma wrap_var_ok x s : 0 <= uvar s x -> 0 < uvar s (qsize q) ->
  wrap_var q x s = Ok tt (upd_uvar x (fun _ => uvar s x mod uvar s (qsize q)) s).
Proof. intros. unfold wrap_var, var, mbind, gets. rewrite c_rem_pos by lia. done. Qed.

(** The statements of [pqueue_put] and [pqueue_get] that move an item. *)
Lemma enqueue_ends n s items x (k : prog C Z) Q : ring q s items 0 -> zlen items < uvar s (qsize q) ->
  ends n k (put_stores q x s) Q ->
  ends n (i <~ Act (var (nextin q)) ;; Act (in_buf q i) ;~ Act (set_var (buf q i) x) ;~
          Act (set_var (nextin q) (i + 1)) ;~ Act (wrap_var q (nextin q)) ;~
          o <~ Act (var (occupied q)) ;; Act (set_var (occupied q) (o + 1)) ;~ k) s Q.
Proof.
  intros [Hs Hr Ho Hout Hin _ Hc] Hroom Hk. set (i := uvar s (nextin q)) in *.
  assert (0 <= i < uvar s (qsize q)) as Hi by (rewrite Hin; apply Z.mod_pos_bound; lia).
  apply ends_gets. fold i. eapply ends_act; [by apply in_buf_ok|]. apply ends_modify, ends_modify.
  set (s1 := upd_uvar (nextin q) _ _).
  assert (uvar s1 (nextin q) = i + 1) as E1 by (unfold s1; by rewrite uvar_upd_eq).
  assert (uvar s1 (qsize q) = uvar s (qsize q)) as E2.
  { unfold s1. by rewrite !uvar_upd_ne by (unfold qsize, nextin, buf; lia). }
  eapply ends_act; [apply wrap_var_ok; rewrite ?E1, ?E2; lia|]. rewrite E1, E2. apply ends_gets, ends_modify.
  rewrite uvar_upd_ne by (unfold occupied, nextin; lia).
  assert (uvar s1 (occupied q) = uvar s (occupied q)) as E3.
  { unfold s1. by rewrite !uvar_upd_ne by (unfold occupied, nextin, buf; lia). }
  rewrite E3. exact Hk.
Qed.

Lemma dequeue_ends n s items cl x (k : Z -> prog C (Z * option Z)) Q : ring q s (x :: items) cl ->
  ends n (k x) (get_stores q s) Q ->
  ends n (i <~ Act (var (nextout q)) ;; Act (in_buf q i) ;~ item <~ Act (var (buf q i)) ;;
          Act (set_var (nextout q) (i + 1)) ;~ Act (wrap_var q (nextout q)) ;~
          o <~ Act (var (occupied q)) ;; Act (set_var (occupied q) (o - 1)) ;~ k item) s Q.
Proof.
  intros Hring Hk. destruct (ring_get q s x items cl Hring) as [Hx _]. destruct Hring as [Hs Hr Ho Hout Hin _ Hc].
  set (i := uvar s (nextout q)) in *.
  apply ends_gets. fold i. eapply ends_act; [by apply in_buf_ok|]. apply ends_gets. rewrite Hx. apply ends_modify.
  set (s1 := upd_uvar (nextout q) _ _).
  assert (uvar s1 (nextout q) = i + 1) as E1 by (unfold s1; by rewrite uvar_upd_eq).
  assert (uvar s1 (qsize q) = uvar s (qsize q)) as E2 by (unfold s1; by rewrite !uvar_upd_ne by (unfold qsize, nextout; lia)).
  eapply ends_act; [apply wrap_var_ok; rewrite ?E1, ?E2; lia|]. rewrite E1, E2. apply ends_gets, ends_modify.
  rewrite uvar_upd_ne by (unfold occupied, nextout; lia).
  assert (uvar s1 (occupied q) = uvar s (occupied q)) as E3 by (unfold s1; by rewrite !uvar_upd_ne by (unfold occupied, nextout; lia)).
  rewrite E3. exact Hk.
Qed.

(** Leaving with a signal: [signal(c); unlock(mtx)]. *)
Definition left_with (T : Z) (c : addr) (l : list Z) s s' : Prop :=
  represents me (mtx q) s' (mkView (T + 2) 0 (T + 1)) /\ (forall x, uvar s' x = uvar s x) /\
  waiting me c (drop 1 l) s' /\ (forall c' l', c' <> c -> waiting me c' l' s -> waiting me c' l' s') /\
  forall y, head l = Some y -> m_holder (waiter_of (cond s' c) y) = None /\ logical_time s' y = T.

Lemma leave_ends {A} n c l T rel s (a : A) : represents me (mtx q) s (mkView T 1 rel) -> waiting me c l s ->
  T < MAX_LOGICAL_CLOCK ->
  ends n (det_cond_signal me c ;~ det_unlock me (mtx q) ;~ Ret a) s (fun r s' => r = a /\ left_with T c l s s').
Proof.
  intros R W Hm. eapply ends_bind; [by apply (signal_ends n (mtx q) c _ l s R W)|].
  cbv beta. intros _ s3 [R3 [Sw So Su Sk]]. cbn [v_time v_depth v_released] in R3.
  eapply ends_bind; [by apply (unlock_ends n (mtx q) _ s3 R3)|]. cbv beta. intros _ s4 [R4 O4]. apply ends_ret.
  split; [done|]. cbn [v_time] in R4. split; [by replace (T + 2) with (T + 1 + 1) by lia|]. split; [|split; [|split]].
  - intros y. by rewrite (so_uvar _ _ _ O4), Su.
  - by apply (waiting_others _ _ _ _ O4).
  - intros c' l' Hne W'. apply (waiting_others _ _ _ _ O4). by apply So.
  - intros y Hy. destruct (Sk y Hy) as [Hh Ht]. rewrite (so_cond _ _ _ O4). split; [done|].
    assert (y <> me) as Hne. { intros ->. apply (w_me _ _ _ _ W). destruct l; [done|]. injection Hy as ->. by left. }
    unfold logical_time at 1. rewrite (so_worker _ _ _ O4) by done. unfold logical_time in Ht at 1. rewrite Ht. apply (rep_time _ _ _ _ R).
Qed.
End Ops.

(** C32. [pqueue_put] on an open queue with room, by a thread whose turn comes before the
    others': it returns 1 without waiting; the item is now the last of the queue, whose
    members stay consistent; the longest waiting reader is released, at the logical time
    at which the mutex was acquired plus one, and the other readers and the writers keep
    waiting; the mutex is open again, released two ticks after it was acquired. *)
Theorem pqueue_put_correct {C} `{PerfCounter C} `{!PerfCounterLaws C} E me q n (s : rt C) t rel items lm ll x :
  let T := Z.max t (rel + 1) in
  represents me (mtx q) s (mkView t 0 rel) -> ahead me s (T + 1) -> T + 1 < MAX_LOGICAL_CLOCK -> T + 1 - t <= Z.of_nat n ->
  ring q s items 0 -> zlen items < uvar s (qsize q) -> waiting me (more q) lm s -> waiting me (less q) ll s ->
  exists s', run (S n) (pqueue_put E me q x) s = Done 1 s' /\ ring q s' (items ++ [x]) 0 /\
    represents me (mtx q) s' (mkView (T + 3) 0 (T + 2)) /\
    waiting me (more q) (drop 1 lm) s' /\ waiting me (less q) ll s' /\
    forall y, head lm = Some y -> m_holder (waiter_of (cond s' (more q)) y) = None /\ logical_time s' y = T + 1.
Proof.
  intros T R Ha Hm Hn Hring Hroom Wm Wl.
  enough (ends (S n) (pqueue_put E me q x) s (fun r s' => r = 1 /\ exists s1, ring q s1 (items ++ [x]) 0 /\
    waiting me (less q) ll s1 /\ left_with me q (T + 1) (more q) lm s1 s')) as (r & s' & Er & -> & s1 & Hr & Wl' & R' & Hu & W & Wo & Hy).
  { exists s'. split; [exact Er|]. split; [by eapply ring_ext|]. replace (T + 3) with (T + 1 + 2) by lia.
    replace (T + 2) with (T + 1 + 1) by lia. split; [done|]. split; [done|]. split; [apply Wo; [apply less_more|done]|done]. }
  unfold pqueue_put. eapply ends_bind; [apply (lock_ends E me n (mtx q) t rel s R Ha); [lia|done]|]. cbv beta. intros _ s1 [R1 O1].
  apply (ring_ext q s s1) in Hring; [|apply (so_uvar _ _ _ O1)]. rewrite <- (so_uvar _ _ _ O1) in Hroom.
  apply (waiting_others me _ _ _ _ O1) in Wm, Wl. apply ends_gets. rewrite (r_closed _ _ _ _ Hring). cbn [Z.eqb negb].
  eapply (ends_bind _ _ _ _ (fun _ s' => s' = s1)).
  { pose proof (r_occupied _ _ _ _ Hring). apply ends_loop. unfold put_wait. apply ends_gets, ends_gets.
    destruct (Z.leb_spec (uvar s1 (qsize q)) (uvar s1 (occupied q))); [lia|]. apply ends_ret. eauto. }
  cbv beta. intros _ ? ->. apply (enqueue_ends q (S n) s1 items); [done..|].
  destruct (leave_ends me q (S n) (more q) lm (T + 1) rel (put_stores q x s1) 1) as (r & s' & Er & -> & HL);
    [by do 4 apply represents_uvar|by do 4 apply waiting_uvar|done|].
  exists 1, s'. split; [exact Er|]. split; [done|]. exists (put_stores q x s1).
  split; [by apply ring_put|]. split; [by do 4 apply waiting_uvar|done].
Qed.

(** C33. [pqueue_get] by a thread whose turn comes before the others', when it does not have
    to wait: it takes the first item of the queue, whose others keep their order, answers 1,
    and releases the longest waiting writer; or, when the queue is closed and empty, it
    answers 0 and changes nothing; in both cases the mutex is open again. *)
Theorem pqueue_get_correct {C} `{PerfCounter C} `{!PerfCounterLaws C} E me q n (s : rt C) t rel items cl lm ll :
  let T := Z.max t (rel + 1) in
  represents me (mtx q) s (mkView t 0 rel) -> ahead me s (T + 1) -> T + 1 < MAX_LOGICAL_CLOCK -> T + 1 - t <= Z.of_nat n ->
  ring q s items cl -> waiting me (more q) lm s -> waiting me (less q) ll s ->
  match items with
  | x :: rest => exists s', run (S n) (pqueue_get E me q) s = Done (1, Some x) s' /\ ring q s' rest cl /\
      represents me (mtx q) s' (mkView (T + 3) 0 (T + 2)) /\
      waiting me (more q) lm s' /\ waiting me (less q) (drop 1 ll) s' /\
      forall y, head ll = Some y -> m_holder (waiter_of (cond s' (less q)) y) = None /\ logical_time s' y = T + 1
  | [] => cl <> 0 -> exists s', run (S n) (pqueue_get E me q) s = Done (0, None) s' /\ ring q s' [] cl /\
      represents me (mtx q) s' (mkView (T + 2) 0 (T + 1)) /\ waiting me (more q) lm s' /\ waiting me (less q) ll s'
  end.
Proof.
  intros T R Ha Hm Hn Hring Wm Wl.
  destruct (lock_ends E me n (mtx q) t rel s R Ha ltac:(lia) Hn) as (r0 & s1 & Er1 & R1 & O1).
  apply (ring_ext q s s1) in Hring; [|apply (so_uvar _ _ _ O1)]. apply (waiting_others me _ _ _ _ O1) in Wm, Wl.
  pose proof (r_occupied _ _ _ _ Hring) as Ho. pose proof (r_closed _ _ _ _ Hring) as Hc.
  assert ((items = [] -> cl <> 0) -> forall Q, ends (S n) (get_item me q) s1 Q -> ends (S n) (pqueue_get E me q) s Q) as Henter.
  { intros Hne Q Hk. apply (ends_bind _ _ _ _ (fun _ s' => s' = s1)); [by exists r0, s1|]. intros _ ? ->.
    apply (ends_bind _ _ _ _ (fun _ s' => s' = s1)); [|by intros _ ? ->]. apply ends_loop. unfold get_wait.
    apply ends_gets, ends_gets. rewrite Ho, Hc. destruct (Z.leb_spec (zlen items) 0) as [Hz|]; [|apply ends_ret; eauto].
    destruct (Z.eqb_spec cl 0) as [->|]; [|apply ends_ret; eauto]. destruct items; [by destruct Hne|simpl in Hz; lia]. }
  destruct items as [|x items].
  - intros Hcl. destruct (Henter ltac:(done) (fun r s' => r = (0, None) /\ represents me (mtx q) s' (mkView (T + 2) 0 (T + 1)) /\ same_others me s1 s')) as (r & s' & Er & -> & R' & O').
    { unfold get_item. apply ends_gets. rewrite Ho. cbn [zlen length Z.of_nat Z.ltb Z.compare]. eapply ends_bind; [by apply (unlock_ends me (S n) (mtx q) _ s1 R1)|].
      cbv beta. intros _ s2 [R2 O2]. apply ends_ret. split; [done|]. split; [|done]. cbn [v_time] in R2. by replace (T + 2) with (T + 1 + 1) by lia. }
    exists s'. split; [exact Er|]. split; [eapply ring_ext; [apply (so_uvar _ _ _ O')|done]|]. split; [done|].
    by split; apply (waiting_others me _ _ _ _ O').
  - destruct (Henter ltac:(done) (fun r s' => r = (1, Some x) /\ left_with me q (T + 1) (less q) ll (get_stores q s1) s')) as (r & s' & Er & -> & R' & Hu & W & Wo & Hy).
    { unfold get_item. apply ends_gets. rewrite Ho. destruct (Z.ltb_spec 0 (zlen (x :: items))) as [|Hz]; [|simpl in Hz; lia].
      apply (dequeue_ends q (S n) s1 items cl x (fun item => det_cond_signal me (less q) ;~ det_unlock me (mtx q) ;~ Ret (1, Some item))); [done|].
      apply (leave_ends me q (S n) (less q) ll (T + 1) rel); [by do 3 apply represents_uvar|by do 3 apply waiting_uvar|done]. }
    exists s'. split; [exact Er|]. split; [eapply ring_ext; [exact Hu|by eapply ring_get]|].
    replace (T + 3) with (T + 1 + 2) by lia. replace (T + 2) with (T + 1 + 1) by lia. split; [done|].
    split; [apply Wo; [intros Heq; by apply (less_more q)|by do 3 apply waiting_uvar]|]. done.
Qed.

(** A put on a closed queue. [pqueue_put] answers 0 and leaves the queue alone, but
    returns with the mutex held: from then on no other thread can lock the queue. *)
Theorem pqueue_put_closed_keeps_lock {C} `{PerfCounter C} `{!PerfCounterLaws C} E me q n (s : rt C) t rel items cl x :
  let T := Z.max t (rel + 1) in
  represents me (mtx q) s (mkView t 0 rel) -> ahead me s (T + 1) -> T + 1 < MAX_LOGICAL_CLOCK -> T + 1 - t <= Z.of_nat n ->
  ring q s items cl -> cl <> 0 ->
  exists s', run (S n) (pqueue_put E me q x) s = Done 0 s' /\ ring q s' items cl /\
    represents me (mtx q) s' (mkView (T + 1) 1 rel) /\
    forall j, pthread_mutex_trylock j (mtx q) s' = Ok EBUSY s'.
Proof.
  intros T R Ha Hm Hn Hring Hcl.
  destruct (lock_ends E me n (mtx q) t rel s R Ha ltac:(lia) Hn) as (r0 & s1 & Er1 & R1 & O1).
  apply (ring_ext q s s1) in Hring; [|apply (so_uvar _ _ _ O1)]. exists s1. split.
  - unfold pqueue_put. cbn [run]. rewrite Er1. cbn [obind of_res]. unfold var, gets. cbn [of_res obind].
    rewrite (r_closed _ _ _ _ Hring). destruct (Z.eqb_spec cl 0); [done|]. done.
  - split; [done|]. split; [done|]. intros j. unfold pthread_mutex_trylock, mbind, gets. by rewrite (rep_holder _ _ _ _ R1).
Qed.

(** *** Witnesses *)
Import SimpleCounter Samples.

(** A queue of two places at address 1 that holds 70 at the second place; thread 2 waits to
    read it, nobody waits to write. *)
Definition a_pqueue (cl : Z) : rt counter :=
  set_umem {[qsize 1 := 2; occupied 1 := 1; nextin 1 := 0; nextout 1 := 1; closed 1 := cl; buf 1 1 := 70]}
    (upd_cond (less 1) (fun _ => mkCond 2 a_queue (init_waiters 0))
      (upd_cond (more 1) (fun _ => mkCond 1 (Queue.pushed a_queue 2) (init_waiters 0))
        (three (running 0 40) (running 1 10) (stopped 2 5 (MAX_LOGICAL_CLOCK + 6))))).

Lemma a_pqueue_ring cl : ring 1 (a_pqueue cl) [70] cl.
Proof. split; try done. intros [|i] x Hx; [by injection Hx as <-|by destruct i]. Qed.
Lemma a_pqueue_represents cl : represents 1 (mtx 1) (a_pqueue cl) (mkView 10 0 0).
Proof.
  split; [|done|done|done|done|by split; vm_compute|done|done|done|done|simpl; lia].
  split; [split|done|done]; [done|]. by apply (three_entries (fun _ => clock_wf)).
Qed.
Lemma a_pqueue_ahead cl : ahead 1 (a_pqueue cl) 11.
Proof. intros i Hi Hne. assert (i = 0 \/ i = 2) as [->| ->] by (simpl in Hi; lia); by left. Qed.
Lemma a_pqueue_readers cl : waiting 1 (more 1) [2] (a_pqueue cl).
Proof.
  split; [by split; vm_compute|by vm_compute|by apply (bool_decide_unpack _)|by apply (bool_decide_unpack _)| |];
    intros x Hx; apply list_elem_of_singleton in Hx as ->; by vm_compute.
Qed.
Lemma a_pqueue_writers cl : waiting 1 (less 1) [] (a_pqueue cl).
Proof.
  split; [by split; vm_compute|by vm_compute|by apply (bool_decide_unpack _)|by apply (bool_decide_unpack _)| |];
    intros x Hx; by apply elem_of_nil in Hx.
Qed.

Lemma pqueue_put_correct_witness :
  exists s', run 3 (pqueue_put environment 1 1 80) (a_pqueue 0) = Done 1 s' /\ ring 1 s' [70; 80] 0 /\ logical_time s' 2 = 11.
Proof.
  destruct (pqueue_put_correct environment 1 1 2 (a_pqueue 0) 10 0 [70] [2] [] 80 (a_pqueue_represents 0) (a_pqueue_ahead 0)
    ltac:(by vm_compute) ltac:(by vm_compute) (a_pqueue_ring 0) ltac:(by vm_compute) (a_pqueue_readers 0) (a_pqueue_writers 0))
    as (s' & Er & Hr & _ & _ & _ & Hy).
  exists s'. split; [exact Er|]. split; [exact Hr|]. apply (Hy 2 eq_refl).
Defined.

Lemma pqueue_get_correct_witness :
  exists s', run 3 (pqueue_get environment 1 1) (a_pqueue 1) = Done (1, Some 70) s' /\ ring 1 s' [] 1.
Proof.
  destruct (pqueue_get_correct environment 1 1 2 (a_pqueue 1) 10 0 [70] 1 [2] [] (a_pqueue_represents 1) (a_pqueue_ahead 1)
    ltac:(by vm_compute) ltac:(by vm_compute) (a_pqueue_ring 1) (a_pqueue_readers 1) (a_pqueue_writers 1))
    as (s' & Er & Hr & _).
  exists s'. split; [exact Er|exact Hr].
Defined.

Lemma pqueue_put_closed_keeps_lock_witness :
  exists s', run 3 (pqueue_put environment 1 1 80) (a_pqueue 1) = Done 0 s' /\ pthread_mutex_trylock 0 (mtx 1) s' = Ok EBUSY s'.
Proof.
  destruct (pqueue_put_closed_keeps_lock environment 1 1 2 (a_pqueue 1) 10 0 [70] 1 80 (a_pqueue_represents 1) (a_pqueue_ahead 1)
    ltac:(by vm_compute) ltac:(by vm_compute) (a_pqueue_ring 1) ltac:(done)) as (s' & Er & _ & _ & Hl).
  exists s'. split; [exact Er|apply (Hl 0)].
Defined.
