(* ===== verification/Pfscan.v ===== *)
(** The text routines of [src/papps/pfscan-1.0/pfscan.c]: the escapes of the search string,
    and the report of a match.

    A C string is a list of [unsigned char] values that ends in 0; [None] is an access
    outside the array, or a loop that runs out of the turns it is given. *)
From stdpp Require Import base list gmap.
From Stdlib Require Import ZArith Lia.
From Equations Require Import Equations.
From S2P Require Import Prelude.

(** [<ctype.h>], in the locale of the process. *)
Class Ctype := {
  isprint : Z -> bool;
  isspace : Z -> bool;
  isxdigit : Z -> bool;
  toupper : Z -> Z
}.
(** What the C standard says of them on hexadecimal digits and the space. *)
Definition is_hex (c : Z) : Prop := 48 <= c <= 57 \/ 65 <= c <= 70 \/ 97 <= c <= 102.
Class CtypeLaws `{Ctype} := {
  isspace_space : isspace 32 = true;
  toupper_nul : toupper 0 = 0;
  isspace_hex c : is_hex c -> isspace c = false;
  isxdigit_hex c : is_hex c -> isxdigit c = true;
  toupper_upper c : 48 <= c <= 57 \/ 65 <= c <= 70 -> toupper c = c;
  toupper_lower c : 97 <= c <= 102 -> toupper c = c - 32
}.

Module Pfscan.
Section Text.
Context `{Ctype}.

(** ** Character codes *)

Definition code_digit (base c : Z) : bool :=
  (48 <=? c) && (c <? 48 + (if 10 <? base then 10 else base)).
Definition code_letter (base c : Z) : bool :=
  (10 <=? base) && (65 <=? toupper c) && (toupper c <? 65 + base - 10).

(** The body of the [while] of [get_char_code]: [val] after the character [c]. *)
Definition code_step (base val c : Z) : Z :=
  let val := val * base in
  if code_digit base c then val + (c - 48)
  else if code_letter base c then val + (toupper c - 65 + 10)
  else val.

(** [k] more characters may be read. Answers the value and the new [*cp]. *)
Fixpoint code_loop (k : nat) (buf : list Z) (base cp val : Z) : option (Z * Z) :=
  match k with
  | O => Some (val, cp)
  | S k =>
      let? c := znth buf cp in
      if code_digit base c || code_letter base c
      then code_loop k buf base (cp + 1) (code_step base val c)
      else Some (val, cp)
  end.
Definition get_char_code (buf : list Z) (cp base : Z) : option (Z * Z) :=
  let? (val, cp) := code_loop (if base =? 16 then 2%nat else 3%nat) buf base cp 0 in
  Some (Z.land val 255, cp).

(** ** Unescaping, in place *)

Fixpoint skip_space (fuel : nat) (buf : list Z) (rp : Z) : option Z :=
  match fuel with
  | O => None
  | S fuel =>
      let? c := znth buf rp in
      if negb (c =? 0) && isspace c then skip_space fuel buf (rp + 1) else Some rp
  end.

(** Answers the return value and the buffer; every turn reads a character. *)
Fixpoint dehex_loop (fuel : nat) (buf : list Z) (rp wp : Z) : option (Z * list Z) :=
  match fuel with
  | O => None
  | S fuel =>
      let? c := znth buf rp in
      if c =? 0 then let? buf := zset buf wp 0 in Some (wp, buf)
      else
        let? rp := skip_space (S (length buf)) buf rp in
        let? c := znth buf rp in
        if c =? 0 then let? buf := zset buf wp 0 in Some (wp, buf)
        else if negb (isxdigit c) then Some (-1, buf)
        else
          let? (val, rp) := get_char_code buf rp 16 in
          let? buf := zset buf wp (to_uchar val) in
          dehex_loop fuel buf rp (wp + 1)
  end.
Definition dehex (buf : list Z) : option (Z * list Z) := dehex_loop (S (length buf)) buf 0 0.

(** [c] is [*++rp], the character after the backslash. Answers what is stored and the new
    [rp]. *)
Definition escape (buf : list Z) (rp c : Z) : option (Z * Z) :=
  if c =? 110 then Some (10, rp + 1)
  else if c =? 114 then Some (13, rp + 1)
  else if c =? 116 then Some (9, rp + 1)
  else if c =? 98 then Some (8, rp + 1)
  else if c =? 120 then get_char_code buf (rp + 1) 16
  else if c =? 48 then get_char_code buf rp 8
  else if (49 <=? c) && (c <=? 57) then get_char_code buf rp 10
  else Some (c, rp + 1).

Fixpoint deslash_loop (fuel : nat) (buf : list Z) (rp wp : Z) : option (Z * list Z) :=
  match fuel with
  | O => None
  | S fuel =>
      let? c := znth buf rp in
      if c =? 0 then let? buf := zset buf wp 0 in Some (wp, buf)
      else if negb (c =? 92) then
        let? buf := zset buf wp c in
        deslash_loop fuel buf (rp + 1) (wp + 1)
      else
        let? c := znth buf (rp + 1) in
        let? (v, rp) := escape buf (rp + 1) c in
        let? buf := zset buf wp (to_uchar v) in
        deslash_loop fuel buf rp (wp + 1)
  end.
Definition deslash (buf : list Z) : option (Z * list Z) := deslash_loop (S (length buf)) buf 0 0.

(** ** Printing *)

(** [slen] is the [int] the length was converted to. *)
Fixpoint text_loop (fuel : nat) (buf : list Z) (cp slen : Z) : option Z :=
  match fuel with
  | O => None
  | S fuel =>
      if slen <=? 0 then Some slen
      else
        let? c := znth buf cp in
        if isprint c || (c =? 0) || (c =? 9) || (c =? 10) || (c =? 13)
        then text_loop fuel buf (cp + 1) (slen - 1) else Some slen
  end.
Definition is_text (buf : list Z) (cp slen : Z) : option bool :=
  let? r := text_loop (S (length buf)) buf cp (to_int slen) in Some (r =? 0).

Definition hexdigit (d : Z) : Z := if d <? 10 then 48 + d else 97 + (d - 10).
(** [%02x] of an [unsigned char] *)
Definition hex2 (c : Z) : list Z := [hexdigit (c / 16); hexdigit (c mod 16)].

Variables maxlen line_f : Z.

(** What is printed for a character that is not printable; [None] ends the output. *)
Definition escaped (c : Z) : option (list Z) :=
  if c =? 0 then Some [92; 48]
  else if c =? 10 then if negb (line_f =? 0) then None else Some [92; 110]
  else if c =? 13 then if negb (line_f =? 0) then None else Some [92; 114]
  else if c =? 9 then Some [92; 116]
  else Some ([92; 120] ++ hex2 c).

(** The two [while] loops; [out] is what was printed. *)
Fixpoint text_out (fuel : nat) (buf : list Z) (str slen len : Z) (out : list Z) : option (Z * list Z) :=
  match fuel with
  | O => None
  | S fuel =>
      if (len <? slen) && (len <? to_uint64 maxlen) then
        let? c := znth buf str in
        if isprint c then text_out fuel buf (str + 1) slen (len + 1) (out ++ [c])
        else match escaped c with
             | None => Some (len, out)
             | Some e => text_out fuel buf (str + 1) slen (len + 1) (out ++ e)
             end
      else Some (len, out)
  end.
Fixpoint hex_out (fuel : nat) (buf : list Z) (str slen len : Z) (out : list Z) : option (Z * list Z) :=
  match fuel with
  | O => None
  | S fuel =>
      if (len <? slen) && (len <? to_uint64 maxlen) then
        let? c := znth buf str in
        hex_out fuel buf (str + 1) slen (len + 1) (out ++ 32 :: hex2 c)
      else Some (len, out)
  end.

Definition TXT : list Z := [84; 88; 84; 32; 58; 32].
Definition HEX : list Z := [72; 69; 88; 32; 58].
(** The string starts at [str] of [buf] ([None]: a null pointer). Answers the return value
    and what is printed. *)
Definition print_output (buf : option (list Z)) (str slen : Z) : option (Z * list Z) :=
  match buf with
  | None => Some (0, [78; 85; 76; 76])
  | Some buf =>
      let? t := is_text buf str slen in
      if t : bool then text_out (S (length buf)) buf str slen 0 TXT
      else hex_out (S (length buf)) buf str slen 0 HEX
  end.

(** [while (pos > 0 && !(buf[pos-1] == '\n' || buf[pos-1] == '\r')) --pos;] *)
Fixpoint line_start (pos : nat) (buf : list Z) : option Z :=
  match pos with
  | O => Some 0
  | S p =>
      let? c := buf !! p in
      if (c =? 10) || (c =? 13) then Some (Z.of_nat pos) else line_start p buf
  end.
End Text.

(** ** What unescaping means *)

Section Decode.
Context `{Ctype}.

(** The number at the start of [s], of at most [k] digits, and what follows it. *)
Fixpoint number (base : Z) (k : nat) (val : Z) (s : list Z) : Z * list Z :=
  match k, s with
  | S k, c :: s' =>
      if code_digit base c || code_letter base c then number base k (code_step base val c) s' else (val, s)
  | _, _ => (val, s)
  end.

(** What [\c] followed by [s] stands for, and what remains. *)
Definition escape_of (c : Z) (s : list Z) : Z * list Z :=
  let code base k s := let (v, r) := number base k 0 s in (Z.land v 255, r) in
  if c =? 110 then (10, s) else if c =? 114 then (13, s) else if c =? 116 then (9, s)
  else if c =? 98 then (8, s) else if c =? 120 then code 16 2%nat s
  else if c =? 48 then code 8 3%nat (c :: s)
  else if (49 <=? c) && (c <=? 57) then code 10 3%nat (c :: s)
  else (c, s).

Lemma number_suffix base k val s : snd (number base k val s) `suffix_of` s.
Proof.
  revert val s. induction k as [|k IH]; intros val [|c s]; simpl; try done.
  destruct (_ || _); [|done]. by apply suffix_cons_r.
Qed.
Lemma number_cons base k v c s : code_digit base c = true ->
  number base (S k) v (c :: s) = number base k (code_step base v c) s.
Proof. intros E. cbn [number]. by rewrite E. Qed.
Lemma escape_of_suffix c s : snd (escape_of c s) `suffix_of` s.
Proof.
  assert (forall base k v s', let (w, r) := number base k v s' in snd (Z.land w 255, r) `suffix_of` s') as Hn.
  { intros base k v s'. pose proof (number_suffix base k v s'). by destruct (number base k v s'). }
  unfold escape_of. destruct (c =? 110); [done|]. destruct (c =? 114); [done|]. destruct (c =? 116); [done|].
  destruct (c =? 98); [done|]. destruct (c =? 120).
  { specialize (Hn 16 2%nat 0 s). by destruct (number 16 2 0 s). }
  destruct (Z.eqb_spec c 48) as [->|].
  { rewrite number_cons by done. specialize (Hn 8 2%nat (code_step 8 0 48) s). by destruct (number 8 2 _ s). }
  destruct ((49 <=? c) && (c <=? 57)) eqn:E; [|done].
  rewrite number_cons by (unfold code_digit; simpl; lia).
  specialize (Hn 10 2%nat (code_step 10 0 c) s). by destruct (number 10 2 _ s).
Qed.

(** The search string that a command line argument stands for; none when it ends in a
    backslash that escapes nothing. *)
Equations? unescape (s : list Z) : option (list Z) by wf (length s) lt :=
unescape [] := Some [];
unescape [c] := if c =? 92 then None else Some [c];
unescape (c :: d :: s) :=
  if c =? 92 then cons (fst (escape_of d s)) <$> unescape (snd (escape_of d s))
  else cons c <$> unescape (d :: s).
Proof.
  pose proof (suffix_length _ _ (escape_of_suffix d s)). lia.
Qed.

(** ** Working in place *)

(** The string [s] and its terminator are the end of [buf], from [cp] on. *)
Definition at_end (buf : list Z) (cp : Z) (s : list Z) : Prop :=
  0 <= cp /\ drop (Z.to_nat cp) buf = s ++ [0].

Lemma at_end_length buf cp s : at_end buf cp s -> zlen buf = cp + zlen s + 1.
Proof. intros [Hc Hd]. apply (f_equal length) in Hd. rewrite length_drop, length_app in Hd. simpl in Hd. lia. Qed.
Lemma at_end_nth buf cp s : at_end buf cp s -> znth buf cp = Some (hd 0 s).
Proof.
  intros [Hc Hd]. unfold znth. destruct (Z.ltb_spec cp 0); [lia|].
  replace (Z.to_nat cp) with (Z.to_nat cp + 0)%nat by lia. rewrite <- lookup_drop, Hd. by destruct s.
Qed.
Lemma at_end_next buf cp c s : at_end buf cp (c :: s) -> at_end buf (cp + 1) s.
Proof.
  intros [Hc Hd]. split; [lia|]. replace (Z.to_nat (cp + 1)) with (Z.to_nat cp + 1)%nat by lia.
  rewrite <- drop_drop, Hd. done.
Qed.

(** [*wp = c], behind the reader. *)
Lemma emit buf wp c : 0 <= wp < zlen buf -> exists buf', zset buf wp c = Some buf' /\
  length buf' = length buf /\ take (Z.to_nat (wp + 1)) buf' = take (Z.to_nat wp) buf ++ [c] /\
  forall rp s, wp < rp -> at_end buf rp s -> at_end buf' rp s.
Proof.
  intros Hw. rewrite zset_Some by done. eexists. split; [done|]. split; [apply length_insert|]. split.
  - replace (Z.to_nat (wp + 1)) with (S (Z.to_nat wp)) by lia.
    rewrite (take_S_r _ _ c) by (apply list_lookup_insert_eq; lia). by rewrite take_insert_ge.
  - intros rp s Hr [Hc Hd]. split; [done|]. rewrite drop_insert_lt by lia. done.
Qed.

(** What [s] decodes to arrives in front of [wp], closed by a terminator. *)
Definition decoded (buf : list Z) (wp : Z) (l : list Z) (r : option (Z * list Z)) : Prop :=
  exists buf', r = Some (wp + zlen l, buf') /\ length buf' = length buf /\
    take (Z.to_nat (wp + zlen l)) buf' = take (Z.to_nat wp) buf ++ l /\ znth buf' (wp + zlen l) = Some 0.

Lemma decoded_end buf wp : 0 <= wp < zlen buf -> decoded buf wp [] (let? b := zset buf wp 0 in Some (wp, b)).
Proof.
  intros Hw. destruct (emit buf wp 0 Hw) as (b & E & Hl & _ & _). rewrite E. exists b. simpl. rewrite Z.add_0_r, app_nil_r.
  split; [done|]. split; [done|]. split.
  - rewrite zset_Some in E by done. injection E as <-. by apply take_insert_ge.
  - rewrite (znth_zset _ _ _ _ wp E), Z.eqb_refl. done.
Qed.
Lemma decoded_cons buf buf1 wp c l r : length buf1 = length buf -> 0 <= wp ->
  take (Z.to_nat (wp + 1)) buf1 = take (Z.to_nat wp) buf ++ [c] -> decoded buf1 (wp + 1) l r -> decoded buf wp (c :: l) r.
Proof.
  intros Hl Hw Ht (b & -> & Hb & Htb & Hz). exists b. simpl length. replace (wp + Z.of_nat (S (length l))) with (wp + 1 + zlen l) by lia.
  split; [done|]. split; [lia|]. split; [|done]. by rewrite Htb, Ht, <- app_assoc.
Qed.

Context `{!CtypeLaws}.

Lemma nul_no_code base : base <= 16 -> code_digit base 0 || code_letter base 0 = false.
Proof. intros Hb. unfold code_digit, code_letter. rewrite toupper_nul. simpl. by rewrite andb_false_r. Qed.

Lemma code_loop_spec k buf base cp val s : base <= 16 -> Forall (fun c => c <> 0) s -> at_end buf cp s ->
  exists cp', code_loop k buf base cp val = Some (fst (number base k val s), cp') /\
    at_end buf cp' (snd (number base k val s)) /\ cp <= cp'.
Proof.
  intros Hb. revert cp val s. induction k as [|k IH]; intros cp val s Hs Ha; cbn [code_loop].
  { exists cp. split; [done|]. split; [done|lia]. }
  rewrite (at_end_nth _ _ _ Ha). destruct s as [|c s]; cbn [hd number].
  { rewrite nul_no_code by done. exists cp. split; [done|]. split; [done|lia]. }
  destruct (_ || _); [|exists cp; split; [done|]; split; [done|lia]]. inversion Hs; subst.
  destruct (IH (cp + 1) (code_step base val c) s) as (cp' & E & Ha' & Hle); [done|by eapply at_end_next|].
  exists cp'. rewrite E. split; [done|]. split; [done|lia].
Qed.

Lemma get_char_code_spec k buf base cp s : base <= 16 -> k = (if base =? 16 then 2%nat else 3%nat) ->
  Forall (fun c => c <> 0) s -> at_end buf cp s ->
  exists cp', get_char_code buf cp base = Some (Z.land (fst (number base k 0 s)) 255, cp') /\
    at_end buf cp' (snd (number base k 0 s)) /\ cp <= cp'.
Proof.
  intros Hb -> Hs Ha. unfold get_char_code.
  destruct (code_loop_spec (if base =? 16 then 2%nat else 3%nat) buf base cp 0 s) as (cp' & E & Ha' & Hle); try done.
  exists cp'. rewrite E. done.
Qed.

(** The reader is past the escape, and at least one character past the backslash. *)
Lemma escape_spec buf rp d s : Forall (fun c => c <> 0) (d :: s) -> at_end buf rp (d :: s) ->
  exists rp', escape buf rp d = Some (fst (escape_of d s), rp') /\ at_end buf rp' (snd (escape_of d s)) /\ rp <= rp'.
Proof.
  intros Hs Ha. pose proof (at_end_next _ _ _ _ Ha) as Hn. inversion Hs; subst.
  assert (forall v : Z, exists rp', Some (v, rp + 1) = Some (v, rp') /\ at_end buf rp' s /\ rp <= rp') as Hone.
  { intros v. exists (rp + 1). split; [done|]. split; [done|lia]. }
  unfold escape, escape_of. destruct (d =? 110); [apply Hone|]. destruct (d =? 114); [apply Hone|].
  destruct (d =? 116); [apply Hone|]. destruct (d =? 98); [apply Hone|]. destruct (d =? 120).
  { destruct (get_char_code_spec 2 buf 16 (rp + 1) s) as (rp' & E & Ha' & Hle); try done. exists rp'. rewrite E.
    destruct (number 16 2 0 s). split; [done|]. split; [done|lia]. }
  destruct (d =? 48).
  { destruct (get_char_code_spec 3 buf 8 rp (d :: s)) as (rp' & E & Ha' & Hle); try done. exists rp'. rewrite E.
    destruct (number 8 3 0 (d :: s)). split; [done|]. split; [done|lia]. }
  destruct (_ && _); [|apply Hone].
  destruct (get_char_code_spec 3 buf 10 rp (d :: s)) as (rp' & E & Ha' & Hle); try done. exists rp'. rewrite E.
  destruct (number 10 3 0 (d :: s)). split; [done|]. split; [done|lia].
Qed.

Lemma escape_of_byte d s : is_byte d -> is_byte (fst (escape_of d s)).
Proof.
  intros Hd. assert (forall v, is_byte (Z.land v 255)) as Hl.
  { intros v. change 255 with (Z.ones 8). rewrite Z.land_ones by lia. unfold is_byte.
    apply (Z.mod_pos_bound v (2 ^ 8)). lia. }
  unfold escape_of. repeat (case_match; [unfold is_byte; simpl; lia || (repeat case_match; apply Hl)|]). done.
Qed.

Lemma deslash_loop_spec fuel buf rp wp s : (length s < fuel)%nat -> Forall is_byte s -> Forall (fun c => c <> 0) s ->
  0 <= wp <= rp -> at_end buf rp s ->
  match unescape s with
  | Some l => decoded buf wp l (deslash_loop fuel buf rp wp)
  | None => deslash_loop fuel buf rp wp = None
  end.
Proof.
  revert buf rp wp s. induction fuel as [|fuel IH]; intros buf rp wp s Hf Hb Hs Hw Ha; [lia|]. cbn [deslash_loop].
  rewrite (at_end_nth _ _ _ Ha). pose proof (at_end_length _ _ _ Ha) as Hl.
  destruct s as [|c s]; simp unescape; cbn [hd].
  { simpl. apply decoded_end. simpl in Hl. lia. }
  pose proof (at_end_next _ _ _ _ Ha) as Hn. apply Forall_cons in Hb as [Hbc Hb]. apply Forall_cons in Hs as [Hsc Hs]. cbn [length] in *.
  destruct (Z.eqb_spec c 0); [done|]. destruct (Z.eqb_spec c 92) as [->|Hc]; cbn [negb].
  - rewrite (at_end_nth _ _ _ Hn). destruct s as [|d s]; simp unescape; cbn [hd].
    { destruct fuel as [|fuel]; [simpl in Hf; lia|]. change (92 =? 92) with true. cbv iota.
      change (escape buf (rp + 1) 0) with (Some (0, rp + 1 + 1)). cbv iota beta. change (to_uchar 0) with 0.
      destruct (emit buf wp 0) as (b & -> & Hb1 & _); [lia|].
      cbn [deslash_loop]. unfold znth. destruct (Z.ltb_spec (rp + 1 + 1) 0); [lia|].
      rewrite lookup_ge_None_2; [done|]. simpl in Hl. lia. }
    rewrite Z.eqb_refl. destruct (escape_spec buf (rp + 1) d s) as (rp' & -> & Ha' & Hle); [done..|].
    destruct (emit buf wp (to_uchar (fst (escape_of d s)))) as (b & -> & Hbl & Ht & Hat); [simpl in Hl; lia|].
    apply Forall_cons in Hb as [Hd Hb]. apply Forall_cons in Hs as [Hsd Hs]. pose proof (escape_of_byte d s Hd) as [? ?].
    assert (to_uchar (fst (escape_of d s)) = fst (escape_of d s)) as Eu by (apply wrap_u_id; simpl; lia). rewrite Eu in Ht.
    pose proof (escape_of_suffix d s) as [pre Hpre].
    specialize (IH b rp' (wp + 1) (snd (escape_of d s))).
    pose proof (suffix_length _ _ (escape_of_suffix d s)).
    assert (Forall is_byte (snd (escape_of d s))) as F1.
    { rewrite Hpre in Hb. by apply Forall_app in Hb as [_ Hb]. }
    assert (Forall (fun c => c <> 0) (snd (escape_of d s))) as F2.
    { rewrite Hpre in Hs. by apply Forall_app in Hs as [_ Hs]. }
    specialize (IH ltac:(simpl in *; lia) F1 F2 ltac:(lia) (Hat rp' _ ltac:(lia) Ha')).
    destruct (unescape (snd (escape_of d s))); simpl; [|done]. by eapply decoded_cons; [| |exact Ht|exact IH]; [done|lia].
  - destruct (emit buf wp c) as (b & -> & Hbl & Ht & Hat); [lia|].
    specialize (IH b (rp + 1) (wp + 1) s ltac:(lia) ltac:(done) ltac:(done) ltac:(lia) (Hat (rp + 1) _ ltac:(lia) Hn)).
    assert (unescape (c :: s) = cons c <$> unescape s) as ->.
    { destruct s; simp unescape; destruct (Z.eqb_spec c 92); done. }
    destruct (unescape s); simpl; [|done]. by eapply decoded_cons; [| |exact Ht|exact IH]; [done|lia].
Qed.

(** ** Hexadecimal dumps *)

Definition hex_dump (l : list Z) : list Z := concat ((fun c => 32 :: hex2 c) <$> l).

Lemma hexdigit_hex d : 0 <= d < 16 -> is_hex (hexdigit d).
Proof. unfold is_hex, hexdigit. destruct (Z.ltb_spec d 10); lia. Qed.
Lemma hexdigit_code d val : 0 <= d < 16 ->
  code_digit 16 (hexdigit d) || code_letter 16 (hexdigit d) = true /\ code_step 16 val (hexdigit d) = val * 16 + d.
Proof.
  intros Hd. unfold code_step, code_digit, code_letter, hexdigit. simpl. change (48 + 10) with 58. change (65 + 16 - 10) with 71. destruct (Z.ltb_spec d 10).
  - destruct (Z.leb_spec 48 (48 + d)), (Z.ltb_spec (48 + d) 58); try lia. simpl. split; [done|lia].
  - rewrite toupper_lower by lia. destruct (Z.leb_spec 48 (97 + (d - 10))), (Z.ltb_spec (97 + (d - 10)) 58); try lia. simpl.
    destruct (Z.leb_spec 65 (97 + (d - 10) - 32)), (Z.ltb_spec (97 + (d - 10) - 32) 71); try lia. simpl. split; [done|lia].
Qed.
Lemma hex2_number c s : is_byte c -> number 16 2 0 (hex2 c ++ s) = (c, s).
Proof.
  intros [Hc1 Hc2]. unfold hex2. cbn [app number].
  assert (0 <= c / 16 < 16) as Hq by (split; [apply Z.div_pos|apply Z.div_lt_upper_bound]; lia).
  pose proof (Z.mod_pos_bound c 16 ltac:(lia)) as Hm.
  destruct (hexdigit_code (c / 16) 0 Hq) as [-> ->]. destruct (hexdigit_code (c mod 16) (0 * 16 + c / 16) Hm) as [-> ->].
  f_equal. rewrite (Z.div_mod c 16) at 3 by lia. lia.
Qed.
Lemma hex2_hex c : is_byte c -> Forall is_hex (hex2 c).
Proof.
  intros [Hc1 Hc2]. unfold hex2. apply Forall_cons. split; [|apply Forall_singleton]; apply hexdigit_hex.
  - split; [apply Z.div_pos|apply Z.div_lt_upper_bound]; lia.
  - apply (Z.mod_pos_bound c 16). lia.
Qed.
Lemma is_hex_nul c : is_hex c -> c <> 0.
Proof. unfold is_hex. lia. Qed.
Lemma hex_dump_nul l : Forall is_byte l -> Forall (fun c => c <> 0) (hex_dump l).
Proof.
  induction 1 as [|c l Hc _ IH]; [constructor|]. unfold hex_dump. cbn [fmap list_fmap concat]. constructor; [done|].
  apply Forall_app. split; [|exact IH]. eapply Forall_impl; [by apply hex2_hex|]. apply is_hex_nul.
Qed.

Lemma dehex_loop_dump fuel buf rp wp l : (length l < fuel)%nat -> Forall is_byte l -> 0 <= wp <= rp ->
  at_end buf rp (hex_dump l) -> decoded buf wp l (dehex_loop fuel buf rp wp).
Proof.
  revert buf rp wp l. induction fuel as [|fuel IH]; intros buf rp wp l Hf Hb Hw Ha; [lia|]. cbn [dehex_loop].
  rewrite (at_end_nth _ _ _ Ha). pose proof (at_end_length _ _ _ Ha) as Hl. destruct l as [|c l].
  { simpl. apply decoded_end. simpl in Hl. lia. }
  apply Forall_cons in Hb as [Hbc Hb]. pose proof (hex_dump_nul l Hb) as Hnul. pose proof (hex2_hex c Hbc) as Hh.
  change (hex_dump (c :: l)) with (32 :: (hex2 c ++ hex_dump l)) in *. cbn [hd]. change (32 =? 0) with false. cbv iota.
  pose proof (at_end_next _ _ _ _ Ha) as Hn. pose proof (at_end_nth _ _ _ Hn) as Hz.
  set (d := hexdigit (c / 16)) in *. change (hd 0 (hex2 c ++ hex_dump l)) with d in Hz.
  assert (is_hex d) as Hd by (by inversion Hh). pose proof (is_hex_nul _ Hd).
  assert (skip_space (S (length buf)) buf rp = Some (rp + 1)) as ->.
  { cbn [skip_space]. rewrite (at_end_nth _ _ _ Ha). cbn [hd]. rewrite isspace_space. cbn.
    destruct (length buf) as [|n] eqn:En; [lia|]. cbn [skip_space]. rewrite Hz.
    by rewrite isspace_hex, andb_false_r. }
  rewrite Hz. destruct (Z.eqb_spec d 0); [done|]. rewrite isxdigit_hex by done. cbn [negb].
  destruct (get_char_code_spec 2 buf 16 (rp + 1) (hex2 c ++ hex_dump l)) as (rp' & E & Ha' & Hle); try done.
  { apply Forall_app. split; [|done]. eapply Forall_impl; [exact Hh|]. apply is_hex_nul. }
  rewrite hex2_number in E, Ha' by done. cbn [fst snd] in *. rewrite E.
  assert (Z.land c 255 = c) as ->.
  { change 255 with (Z.ones 8). rewrite Z.land_ones by lia. apply Z.mod_small. destruct Hbc. simpl. lia. }
  assert (to_uchar c = c) as -> by (apply wrap_u_id; destruct Hbc; simpl; lia).
  destruct (emit buf wp c) as (b & -> & Hbl & Ht & Hat); [lia|].
  eapply decoded_cons; [exact Hbl|lia|exact Ht|]. apply IH; [simpl in Hf; lia|done|lia|]. apply Hat; [lia|done].
Qed.

(** ** Reports *)

Variables maxlen line_f : Z.
Hypothesis Hmax : 0 <= maxlen < 2 ^ 64.

(** The characters [is_text] accepts. *)
Definition textual (c : Z) : bool := isprint c || (c =? 0) || (c =? 9) || (c =? 10) || (c =? 13).

(** How many characters of [l] are shown, and as what. *)
Fixpoint shown (l : list Z) : Z * list Z :=
  match l with
  | [] => (0, [])
  | c :: l =>
      match (if isprint c then Some [c] else escaped line_f c) with
      | None => (0, [])
      | Some e => let (n, o) := shown l in (1 + n, e ++ o)
      end
  end.

Definition rest_at (buf : list Z) (cp : Z) (l : list Z) : Prop := 0 <= cp /\ drop (Z.to_nat cp) buf = l.
Lemma rest_at_cons buf cp c l : rest_at buf cp (c :: l) -> znth buf cp = Some c /\ rest_at buf (cp + 1) l.
Proof.
  intros [Hc Hd]. split; [|split; [lia|]].
  - unfold znth. destruct (Z.ltb_spec cp 0); [lia|]. replace (Z.to_nat cp) with (Z.to_nat cp + 0)%nat by lia.
    by rewrite <- lookup_drop, Hd.
  - replace (Z.to_nat (cp + 1)) with (Z.to_nat cp + 1)%nat by lia. by rewrite <- drop_drop, Hd.
Qed.

Lemma text_loop_spec fuel buf cp l : (length l < fuel)%nat -> rest_at buf cp l ->
  exists r, text_loop fuel buf cp (zlen l) = Some r /\ (r = 0 <-> forallb textual l = true).
Proof.
  revert cp l. induction fuel as [|fuel IH]; intros cp l Hf Hr; [lia|]. cbn [text_loop]. destruct l as [|c l].
  { exists 0. done. }
  destruct (rest_at_cons _ _ _ _ Hr) as [-> Hn]. destruct (Z.leb_spec (zlen (c :: l)) 0) as [Hle|]; [simpl in Hle; lia|].
  cbn [forallb]. fold (textual c). destruct (textual c); cbn [andb]; [|exists (zlen (c :: l)); simpl; split; [done|split; [lia|done]]].
  replace (zlen (c :: l) - 1) with (zlen l) by (simpl; lia). apply IH; [simpl in Hf; lia|done].
Qed.

(** The number of characters that are printed at most. *)
Definition limit (len : Z) (l : list Z) : list Z := take (Z.to_nat (maxlen - len)) l.
Lemma limit_cons len c l : len < maxlen -> limit len (c :: l) = c :: limit (len + 1) l.
Proof. intros. unfold limit. replace (Z.to_nat (maxlen - len)) with (S (Z.to_nat (maxlen - (len + 1)))) by lia. done. Qed.

Lemma text_out_spec fuel buf cp l slen len out : (length l < fuel)%nat -> rest_at buf cp l -> slen = len + zlen l -> 0 <= len ->
  text_out maxlen line_f fuel buf cp slen len out =
    Some (let (n, o) := shown (limit len l) in (len + n, out ++ o)).
Proof.
  revert cp l len out. induction fuel as [|fuel IH]; intros cp l len out Hf Hr Hs Hlen; [lia|]. cbn [text_out].
  rewrite to_uint64_id by done. destruct (Z.ltb_spec len maxlen) as [Hlt|]; last first.
  { rewrite andb_false_r. unfold limit. replace (Z.to_nat (maxlen - len)) with 0%nat by lia. simpl. by rewrite Z.add_0_r, app_nil_r. }
  destruct l as [|c l].
  { simpl in Hs. destruct (Z.ltb_spec len slen); [lia|]. simpl. unfold limit. rewrite take_nil. simpl. by rewrite Z.add_0_r, app_nil_r. }
  destruct (Z.ltb_spec len slen); [|simpl in Hs; lia]. cbn [andb]. destruct (rest_at_cons _ _ _ _ Hr) as [-> Hn].
  rewrite limit_cons by done. cbn [shown]. assert (slen = len + 1 + zlen l) as Hs' by (simpl in Hs; lia).
  assert (forall e, text_out maxlen line_f fuel buf (cp + 1) slen (len + 1) (out ++ e) =
    Some (let (n, o) := shown (limit (len + 1) l) in (len + (1 + n), out ++ e ++ o))) as Hgo.
  { intros e. rewrite (IH (cp + 1) l) by (done || simpl in Hf; lia). destruct (shown _). f_equal. rewrite <- app_assoc. f_equal. lia. }
  destruct (isprint c).
  - rewrite (Hgo [c]). by destruct (shown _).
  - destruct (escaped line_f c) as [e|]; [|by rewrite Z.add_0_r, app_nil_r]. rewrite Hgo. by destruct (shown _).
Qed.

Lemma hex_out_spec fuel buf cp l slen len out : (length l < fuel)%nat -> rest_at buf cp l -> slen = len + zlen l -> 0 <= len ->
  hex_out maxlen fuel buf cp slen len out = Some (len + zlen (limit len l), out ++ hex_dump (limit len l)).
Proof.
  revert cp l len out. induction fuel as [|fuel IH]; intros cp l len out Hf Hr Hs Hlen; [lia|]. cbn [hex_out].
  rewrite to_uint64_id by done. destruct (Z.ltb_spec len maxlen) as [Hlt|]; last first.
  { rewrite andb_false_r. unfold limit. replace (Z.to_nat (maxlen - len)) with 0%nat by lia. simpl. by rewrite Z.add_0_r, app_nil_r. }
  destruct l as [|c l].
  { simpl in Hs. destruct (Z.ltb_spec len slen); [lia|]. simpl. unfold limit. rewrite take_nil. simpl. by rewrite Z.add_0_r, app_nil_r. }
  destruct (Z.ltb_spec len slen); [|simpl in Hs; lia]. cbn [andb]. destruct (rest_at_cons _ _ _ _ Hr) as [-> Hn].
  rewrite limit_cons by done. rewrite (IH (cp + 1) l); try (simpl in *; lia); [|done].
  f_equal. f_equal; [simpl; lia|]. by rewrite <- app_assoc.
Qed.
End Decode.

Lemma deslash_spec `{CtypeLaws} (s : list Z) : Forall is_byte s -> Forall (fun c => c <> 0) s ->
  match unescape s with
  | Some l => exists buf', deslash (s ++ [0]) = Some (zlen l, buf') /\ length buf' = S (length s) /\
      take (length l) buf' = l /\ buf' !! length l = Some 0
  | None => deslash (s ++ [0]) = None
  end.
Proof.
  intros Hb Hs. pose proof (deslash_loop_spec (S (length (s ++ [0]))) (s ++ [0]) 0 0 s) as Hd. unfold deslash.
  destruct (unescape s) as [l|]; last first.
  { apply Hd; try done; rewrite ?length_app; simpl; lia. }
  destruct Hd as (b & -> & Hl & Ht & Hz); try done; [rewrite length_app; simpl; lia..|]. exists b. rewrite Z.add_0_l in *.
  split; [done|]. rewrite Hl, length_app. simpl. split; [lia|]. rewrite Nat2Z.id in Ht. rewrite znth_nat in Hz. done.
Qed.

(** The escapes of the search string. For every string of bytes without a zero,
    [deslash] rewrites the buffer in place, without reading or writing outside it, into
    exactly what the string stands for ([\n], [\r], [\t], [\b], [\x] with up to two
    hexadecimal digits, [\0] with up to three octal and [\1]..[\9] with up to three decimal
    ones, any other escaped character itself), terminated, and returns its length; when
    the string ends in a backslash that escapes nothing, it runs past the end. *)
Theorem deslash_correct `{CtypeLaws} (s : list Z) : Forall is_byte s -> Forall (fun c => c <> 0) s ->
  match unescape s with
  | Some l => exists buf', deslash (s ++ [0]) = Some (zlen l, buf') /\ length buf' = S (length s) /\
      take (length l) buf' = l /\ buf' !! length l = Some 0
  | None => deslash (s ++ [0]) = None
  end.
Proof. apply deslash_spec. Qed.

Lemma print_output_spec `{CtypeLaws} maxlen line_f (buf : list Z) str :
  0 <= maxlen < 2 ^ 64 -> 0 <= str <= zlen buf -> zlen buf - str <= INT_MAX -> Forall is_byte buf ->
  let rest := drop (Z.to_nat str) buf in
  let l := take (Z.to_nat maxlen) rest in
  print_output maxlen line_f (Some buf) str (zlen buf - str) =
    Some (if forallb textual rest then let (n, o) := shown line_f l in (n, TXT ++ o)
          else (zlen l, HEX ++ hex_dump l)) /\
  exists buf', dehex (hex_dump l ++ [0]) = Some (zlen l, buf') /\ take (length l) buf' = l.
Proof.
  intros Hm Hs Hi Hb rest l. assert (rest_at buf str rest) as Hr by (split; [lia|done]).
  assert (zlen rest = zlen buf - str) as Hlr by (unfold rest; rewrite length_drop; lia). split.
  - unfold print_output, is_text. rewrite <- Hlr. rewrite to_int_id by (unfold is_int, INT_MAX in *; lia).
    destruct (text_loop_spec (S (length buf)) buf str rest) as (r & -> & Hr0); [lia|done|].
    assert (l = limit maxlen 0 rest) as Hl by (unfold l, limit; by rewrite Z.sub_0_r).
    destruct (Z.eqb_spec r 0) as [E|E].
    + rewrite (proj1 Hr0 E). rewrite (text_out_spec maxlen line_f Hm _ buf str rest) by (done || lia). rewrite <- Hl. by destruct (shown _ _).
    + destruct (forallb textual rest) eqn:Ef; [destruct E; by apply Hr0|].
      rewrite (hex_out_spec maxlen Hm _ buf str rest) by (done || lia). by rewrite <- Hl.
  - assert (Forall is_byte l) as Hbl by (by apply Forall_take, Forall_drop).
    destruct (dehex_loop_dump (S (length (hex_dump l ++ [0]))) (hex_dump l ++ [0]) 0 0 l) as (b & Eb & _ & Ht & _); try done.
    { assert (length l <= length (hex_dump l))%nat; [|rewrite length_app; simpl; lia].
      clear. induction l as [|c l IH]; [simpl; lia|]. change (hex_dump (c :: l)) with (32 :: hex2 c ++ hex_dump l).
      simpl. lia. }
    exists b. rewrite Z.add_0_l, Nat2Z.id in *. done.
Qed.

(** Reports and dumps. A report of the end of a buffer shows its first [maxlen]
    characters: as text, up to the first line end in line mode, when all of the rest of the
    buffer is text, and as hexadecimal numbers otherwise; the answer is the number of
    characters shown. And a hexadecimal dump read back with [dehex] gives the bytes it
    shows. *)
Theorem print_output_correct `{CtypeLaws} maxlen line_f (buf : list Z) str :
  0 <= maxlen < 2 ^ 64 -> 0 <= str <= zlen buf -> zlen buf - str <= INT_MAX -> Forall is_byte buf ->
  let rest := drop (Z.to_nat str) buf in
  let l := take (Z.to_nat maxlen) rest in
  print_output maxlen line_f (Some buf) str (zlen buf - str) =
    Some (if forallb textual rest then let (n, o) := shown line_f l in (n, TXT ++ o)
          else (zlen l, HEX ++ hex_dump l)) /\
  exists buf', dehex (hex_dump l ++ [0]) = Some (zlen l, buf') /\ take (length l) buf' = l.
Proof. apply print_output_spec. Qed.

(** *** Witnesses *)

(** The C locale. *)
Definition c_isprint (c : Z) : bool := (32 <=? c) && (c <=? 126).
Definition c_isspace (c : Z) : bool := (c =? 32) || ((9 <=? c) && (c <=? 13)).
Definition c_isxdigit (c : Z) : bool :=
  ((48 <=? c) && (c <=? 57)) || ((65 <=? c) && (c <=? 70)) || ((97 <=? c) && (c <=? 102)).
Definition c_toupper (c : Z) : Z := if (97 <=? c) && (c <=? 122) then c - 32 else c.
#[local] Instance c_locale : Ctype :=
  {| isprint := c_isprint; isspace := c_isspace; isxdigit := c_isxdigit; toupper := c_toupper |}.
#[local] Instance c_locale_laws : CtypeLaws.
Proof.
  split; simpl; unfold is_hex, c_isspace, c_isxdigit, c_toupper; intros; repeat zcase; simpl; lia || done.
Qed.

(** [a\x41\n] *)
Lemma deslash_correct_witness :
  exists buf', deslash [97; 92; 120; 52; 49; 92; 110; 0] = Some (3, buf') /\ take 3 buf' = [97; 65; 10].
Proof.
  destruct (deslash_correct [97; 92; 120; 52; 49; 92; 110]) as (b & E & _ & Ht & _).
  - repeat constructor; lia.
  - repeat constructor; lia.
  - exists b. split; [exact E|exact Ht].
Defined.

(** Four bytes from the second on, of which two are shown. *)
Lemma print_output_correct_witness :
  print_output 2 0 (Some [65; 1; 171; 66; 67]) 1 4 = Some (2, HEX ++ [32; 48; 49; 32; 97; 98]) /\
  exists buf', dehex [32; 48; 49; 32; 97; 98; 0] = Some (2, buf') /\ take 2 buf' = [1; 171].
Proof.
  destruct (print_output_correct 2 0 [65; 1; 171; 66; 67] 1) as [E1 (b & E2 & E3)].
  - lia.
  - simpl. lia.
  - done.
  - repeat constructor; lia.
  - split; [exact E1|]. exists b. split; [exact E2|exact E3].
Defined.

(** The line a match is in starts after the last line end in front of it. *)
Lemma line_start_spec pos buf : (pos <= length buf)%nat ->
  exists p, line_start pos buf = Some (Z.of_nat p) /\ (p <= pos)%nat /\
    (p = 0%nat \/ buf !! (p - 1)%nat = Some 10 \/ buf !! (p - 1)%nat = Some 13) /\
    forall i, (p <= i < pos)%nat -> buf !! i <> Some 10 /\ buf !! i <> Some 13.
Proof.
  induction pos as [|pos IH]; intros Hp; cbn [line_start].
  { exists 0%nat. split; [done|]. split; [lia|]. split; [by left|]. intros; lia. }
  destruct (lookup_lt_is_Some_2 buf pos) as [c Hc]; [lia|]. rewrite Hc.
  destruct (Z.eqb_spec c 10) as [->|H10]; simpl.
  { exists (S pos). split; [done|]. split; [lia|]. split; [right; left; by replace (S pos - 1)%nat with pos by lia|]. intros; lia. }
  destruct (Z.eqb_spec c 13) as [->|H13].
  { exists (S pos). split; [done|]. split; [lia|]. split; [right; right; by replace (S pos - 1)%nat with pos by lia|]. intros; lia. }
  destruct IH as (p & E & Hle & Hst & Hn); [lia|]. exists p. split; [done|]. split; [lia|]. split; [done|].
  intros i Hi. destruct (decide (i = pos)) as [->|]; [rewrite Hc; split; congruence|]. apply Hn. lia.
Qed.
End Pfscan.
