(* ===== verification/Scan.v ===== *)
(** The scanner of [src/papps/pfscan-1.0/pfscan.c]: matches and their reports, the scan of a
    file, the walk over the paths, the workers and the command line.

    The calls a thread makes of the runtime and of the operating system are events of a
    trace; the answers of the operating system are arguments. *)
From stdpp Require Import base list gmap.
From Stdlib Require Import ZArith Lia.
From S2P Require Import Prelude Bm Pfscan.
Import Bm Pfscan.

Module Scan.

(** ** State *)

Inductive lock := matches_lock | print_lock | aworker_lock.
#[export] Instance lock_eq_dec : EqDecision lock.
Proof. solve_decision. Defined.

Inductive failure := OpenFailed | FstatFailed | MmapFailed.
Inductive event :=
| Lock (l : lock) | Unlock (l : lock) | SignalAworker
| Counted                                   (** [++n_matches] *)
| Left                                      (** [--aworkers] *)
| Out (text : list Z)                       (** to [stdout] *)
| Warn (f : failure) (path : list Z)        (** to [stderr], with [strerror(errno)] *)
| Scanning (path : list Z) (mbytes : Z)     (** the debug line of [scan_file] *)
| Complaint (path : list Z)                 (** of [foreach_path] and [do_ftw], to [stderr] *)
| Opened | Closed | Mapped | Unmapped
| Put (path : list Z)
| Got (path : list Z) | Drained             (** the answers of [pqueue_get]: 1 with a path, 0 *)
| Freed (path : list Z) | Flushed.

Record app := mkApp { n_matches : Z; n_files : Z; n_bytes : Z; aworkers : Z; trace : list event }.
Definition emit (l : list event) (a : app) : app :=
  mkApp (n_matches a) (n_files a) (n_bytes a) (aworkers a) (trace a ++ l).
Definition count_match (a : app) : app :=
  mkApp (n_matches a + 1) (n_files a) (n_bytes a) (aworkers a) (trace a ++ [Counted]).
Definition leave_workers (a : app) : app :=
  mkApp (n_matches a) (n_files a) (n_bytes a) (aworkers a - 1) (trace a ++ [Left]).

(** The globals the command line sets. *)
Record options := mkOptions {
  debug : Z; verbose : Z; line_f : Z; maxlen : Z; ignore_case : bool; nworkers : Z
}.
Definition options0 : options := mkOptions 0 0 0 64 false 2.

(** [%lu] *)
Fixpoint decimal (fuel : nat) (n : Z) : list Z :=
  match fuel with
  | O => []
  | S fuel => (if n <? 10 then [] else decimal fuel (n / 10)) ++ [48 + n mod 10]
  end.
Definition show_lu (n : Z) : list Z := decimal 20 n.
Definition COLON : list Z := [32; 58; 32].

Section Program.
Context `{Ctype}.
Variable tolower : Z -> Z.
Variable o : options.

(** ** Matches *)

(** The match function that [bm_search] calls; [None] is a state after undefined
    behaviour. *)
Definition matchfun (path buf : list Z) (pos : Z) (st : option app) : Z * option app :=
  (0,
   let? a := st in
   let a := emit [Unlock matches_lock] (count_match (emit [Lock matches_lock] a)) in
   let? pos := if negb (line_f o =? 0) then line_start (Z.to_nat pos) buf else Some pos in
   let? (_, text) := print_output (maxlen o) (line_f o) (Some buf) pos (zlen buf - pos) in
   Some (emit [Lock print_lock; Out (path ++ COLON ++ show_lu pos ++ COLON); Out text; Out [10];
               Unlock print_lock] a)).

(** ** Files *)

(** What [open], [fstat] and [mmap] answer. *)
Record answers := mkAnswers { opens : bool; size : option Z; contents : option (list Z) }.

Definition fail (f : failure) (path : list Z) (a : app) : app :=
  if negb (verbose o =? 0) then emit [Lock print_lock; Warn f path; Unlock print_lock] a else a.

(** [pattern] is [&bmb], or nothing when [rstr] is [NULL]. *)
Definition scan_file (pattern : option BM) (path : list Z) (f : answers) (a : app) : option (Z * app) :=
  if negb (opens f) then Some (-1, fail OpenFailed path a)
  else
    let a := emit [Opened] a in
    match size f with
    | None => Some (-1, emit [Closed] (fail FstatFailed path a))
    | Some len =>
        let a := if 1 <? debug o then emit [Scanning path (to_uint (len / 1000000))] a else a in
        match contents f with
        | None => Some (-1, emit [Closed] (fail MmapFailed path a))
        | Some buf =>
            let a := emit [Mapped] a in
            let? a :=
              match pattern with
              | Some bm =>
                  let? (_, st) := bm_search tolower (Some (matchfun path buf)) bm buf (Some a) in st
              | None =>
                  let? (_, text) := print_output (maxlen o) (line_f o) (Some buf) 0 (zlen buf) in
                  Some (emit [Lock print_lock; Out (path ++ COLON ++ [48] ++ COLON); Out text; Out [10];
                              Unlock print_lock] a)
              end in
            Some (1, emit [Unmapped; Closed] a)
        end
    end.

(** ** Paths *)

Inductive ftw_flag := FTW_F | FTW_D | FTW_DNR | FTW_NS | FTW_OTHER.

Definition foreach_path (path : list Z) (st_size : Z) (f : ftw_flag) (a : app) : Z * app :=
  let a := mkApp (n_matches a) (n_files a + 1) (to_uint64 (n_bytes a + st_size)) (aworkers a) (trace a) in
  match f with
  | FTW_F => (0, emit [Put path] a)
  | FTW_D => (0, a)
  | FTW_DNR | FTW_NS | FTW_OTHER => (1, emit [Complaint path] a)
  end.

(** [ftw] calls the function on the objects it meets until the function answers something
    else than 0, which it returns; [err] tells that it fails by itself after them. *)
Fixpoint ftw (objects : list (list Z * Z * ftw_flag)) (err : bool) (a : app) : Z * app :=
  match objects with
  | [] => (if err then -1 else 0, a)
  | (p, n, f) :: objects =>
      let (c, a) := foreach_path p n f a in
      if negb (c =? 0) then (c, a) else ftw objects err a
  end.
Definition do_ftw (path : list Z) (objects : list (list Z * Z * ftw_flag)) (err : bool) (a : app) : Z * app :=
  let (code, a) := ftw objects err a in
  if code <? 0 then (1, emit [Complaint path] a) else (code, a).

(** [while (i < argc && do_ftw(argv[i++]) == 0);] *)
Fixpoint walk (paths : list (list Z * list (list Z * Z * ftw_flag) * bool)) (a : app) : app :=
  match paths with
  | [] => a
  | (p, objects, err) :: paths =>
      let (c, a) := do_ftw p objects err a in if c =? 0 then walk paths a else a
  end.

(** ** Workers *)

(** [jobs]: the paths [pqueue_get] hands out before it answers 0, which it does when the queue
    is closed and empty ([Pqueue]). *)
Fixpoint worker_loop (pattern : option BM) (jobs : list (list Z * answers)) (a : app) : option app :=
  match jobs with
  | [] => Some (emit [Drained] a)
  | (path, f) :: jobs =>
      let? (_, a) := scan_file pattern path f (emit [Got path] a) in
      worker_loop pattern jobs (emit [Freed path] a)
  end.
Definition worker (pattern : option BM) (jobs : list (list Z * answers)) (a : app) : option app :=
  let? a := worker_loop pattern jobs a in
  let a := leave_workers (emit [Flushed; Lock aworker_lock] a) in
  Some (emit [SignalAworker; Unlock aworker_lock] a).
End Program.

(** ** The command line *)

Section CommandLine.
(** [sscanf(arg, "%u", &v)]: the number, if there is one. *)
Variable scan_u : list Z -> option Z.

Inductive outcome := Exit (code : Z) | EndOptions (i : nat) (o : options) | Next (i : nat) (o : options).

(** [argv[i] + 2] if there is something, else [argv[++i]]. *)
Definition number_arg (argv : list (list Z)) (i : nat) (full : list Z) : option (list Z) * nat :=
  match full !! 2%nat with
  | Some _ => (Some (drop 2 full), i)
  | None => (argv !! S i, S i)
  end.

(** The inner [for] and its [switch]: [s] is [argv[i]] from [j] on, [full] all of it. *)
Fixpoint opt_chars (argv : list (list Z)) (i : nat) (full s : list Z) (o : options) : outcome :=
  match s with
  | [] => Next i o
  | c :: s =>
      if c =? 45 then EndOptions (S i) o
      else if c =? 86 then opt_chars argv i full s o
      else if c =? 100 then opt_chars argv i full s
        (mkOptions (debug o + 1) (verbose o) (line_f o) (maxlen o) (ignore_case o) (nworkers o))
      else if c =? 105 then opt_chars argv i full s
        (mkOptions (debug o) (verbose o) (line_f o) (maxlen o) true (nworkers o))
      else if c =? 118 then opt_chars argv i full s
        (mkOptions (debug o) (verbose o + 1) (line_f o) (maxlen o) (ignore_case o) (nworkers o))
      else if c =? 104 then Exit 0
      else if c =? 108 then opt_chars argv i full s
        (mkOptions (debug o) (verbose o) (line_f o + 1) (maxlen o) (ignore_case o) (nworkers o))
      else if c =? 76 then
        let (arg, i) := number_arg argv i full in
        match arg with
        | Some arg => match scan_u arg with
                      | Some v => Next i (mkOptions (debug o) (verbose o) (line_f o) (to_int v) (ignore_case o) (nworkers o))
                      | None => Exit 1
                      end
        | None => Exit 1
        end
      else if c =? 110 then
        let (arg, i) := number_arg argv i full in
        match arg with
        | Some arg => match scan_u arg with
                      | Some v => Next i (mkOptions (debug o) (verbose o) (line_f o) (maxlen o) (ignore_case o) (to_int v))
                      | None => Exit 1
                      end
        | None => Exit 1
        end
      else Exit 1
  end.

(** The outer [for]; every turn moves [i] on. *)
Fixpoint opt_args (fuel : nat) (argv : list (list Z)) (i : nat) (o : options) : outcome :=
  match fuel with
  | O => Next i o
  | S fuel =>
      match argv !! i with
      | Some (c :: s) =>
          if c =? 45 then
            match opt_chars argv i (c :: s) s o with
            | Next i o => opt_args fuel argv (S i) o
            | r => r
            end
          else EndOptions i o
      | _ => EndOptions i o
      end
  end.

(** From the options to the call of [bm_init]: the exit code, or the options, the search
    string and the paths. *)
Inductive setup := Exits (code : Z) | Starts (o : options) (pattern : list Z) (paths : list (list Z)).
Definition main_setup `{Ctype} (argv : list (list Z)) : option setup :=
  match opt_args (S (length argv)) argv 1 options0 with
  | Exit code => Some (Exits code)
  | EndOptions i o | Next i o =>
      match argv !! i with
      | None => Some (Exits 0)
      | Some rstr =>
          let? (rlen, buf) := deslash (rstr ++ [0]) in
          Some (Starts o (take (Z.to_nat rlen) buf) (drop (S i) argv))
      end
  end.
End CommandLine.

(** [for (j = 0; j < nworkers; j++) pthread_create(&_tids[j], ...)]: [tids] is [_tids], of 32
    entries; [ok] and [tid] are what [pthread_create] answers. [inl]: the exit code. *)
Fixpoint create_workers (k : nat) (j : Z) (ok : Z -> bool) (tid : Z -> Z) (tids : list Z) : option (Z + list Z) :=
  match k with
  | O => Some (inr tids)
  | S k =>
      let? tids := zset tids j (tid j) in
      if ok j then create_workers k (j + 1) ok tid tids else Some (inl 1)
  end.

(** ** What a scan does *)

Section ScanProof.
Context `{CtypeLaws}.
Variable tolower : Z -> Z.
Variable o : options.
Hypothesis Hmax : 0 <= maxlen o < 2 ^ 31.

(** The text shown for what follows [pos], and where the line of a match starts. *)
Definition described (buf : list Z) (pos : Z) : list Z :=
  let rest := drop (Z.to_nat pos) buf in
  let l := take (Z.to_nat (maxlen o)) rest in
  if forallb textual rest then TXT ++ snd (shown (line_f o) l) else HEX ++ hex_dump l.
Definition line_pos (buf : list Z) (pos : Z) : Z :=
  if line_f o =? 0 then pos else default pos (line_start (Z.to_nat pos) buf).

(** The report of a match: it is counted under one mutex and printed as a whole under
    another. *)
Definition report (path buf : list Z) (pos : Z) : list event :=
  let p := line_pos buf pos in
  [Lock matches_lock; Counted; Unlock matches_lock; Lock print_lock;
   Out (path ++ COLON ++ show_lu p ++ COLON); Out (described buf p); Out [10]; Unlock print_lock].

(** [k] more matches and the events [l]. *)
Definition advanced (k : nat) (l : list event) (a : app) : app :=
  mkApp (n_matches a + Z.of_nat k) (n_files a) (n_bytes a) (aworkers a) (trace a ++ l).
Lemma advanced_advanced k1 k2 l1 l2 a : advanced k2 l2 (advanced k1 l1 a) = advanced (k1 + k2) (l1 ++ l2) a.
Proof. unfold advanced. simpl. f_equal; [lia|by rewrite app_assoc]. Qed.
Lemma emit_advanced l a : emit l a = advanced 0 l a.
Proof. unfold emit, advanced. f_equal. simpl. lia. Qed.

Lemma print_described buf pos : 0 <= pos <= zlen buf -> zlen buf <= INT_MAX -> Forall is_byte buf ->
  exists n, print_output (maxlen o) (line_f o) (Some buf) pos (zlen buf - pos) = Some (n, described buf pos).
Proof.
  intros Hp Hl Hb. destruct (print_output_spec (maxlen o) (line_f o) buf pos) as [-> _]; [lia..|done|]. unfold described.
  destruct (forallb textual _); [|eauto]. destruct (shown _ _) as [n t]. eauto.
Qed.

Lemma matchfun_reports path buf pos a : 0 <= pos <= zlen buf -> zlen buf <= INT_MAX -> Forall is_byte buf ->
  matchfun o path buf pos (Some a) = (0, Some (advanced 1 (report path buf pos) a)).
Proof.
  intros Hp Hl Hb. unfold matchfun, report, line_pos. f_equal.
  assert (exists p, (if negb (line_f o =? 0) then line_start (Z.to_nat pos) buf else Some pos) = Some p /\ 0 <= p <= zlen buf /\
    (if line_f o =? 0 then pos else default pos (line_start (Z.to_nat pos) buf)) = p) as (p & -> & Hpp & ->).
  { destruct (line_f o =? 0); simpl; [by exists pos|].
    destruct (line_start_spec (Z.to_nat pos) buf) as (p & -> & Hle & _); [lia|]. exists (Z.of_nat p). split; [done|]. split; [lia|done]. }
  destruct (print_described buf p Hpp Hl Hb) as [n ->]. f_equal. unfold emit, count_match, advanced. simpl. f_equal.
  by rewrite <- !app_assoc.
Qed.

Lemma visit_reports path buf occ nm a : Forall (fun p => 0 <= p <= zlen buf) occ -> zlen buf <= INT_MAX -> Forall is_byte buf ->
  visit (Some (matchfun o path buf)) occ nm (Some a) =
    (nm + zlen occ, Some (advanced (length occ) (concat (report path buf <$> occ)) a)).
Proof.
  intros Ho Hl Hb. revert nm a. induction Ho as [|p occ Hp _ IH]; intros nm a; cbn [visit].
  { simpl. f_equal; [lia|]. f_equal. unfold advanced. destruct a. simpl. rewrite app_nil_r. f_equal. lia. }
  rewrite matchfun_reports by done. cbn [Z.eqb negb]. fold (visit (Some (matchfun o path buf))). rewrite IH.
  rewrite advanced_advanced. f_equal. simpl. lia.
Qed.

Lemma occurrences_bound x y : Forall (fun p => 0 <= p <= zlen y) (occurrences x y).
Proof.
  unfold occurrences, occurrences_from. apply list.Forall_forall. intros p [_ Hp]%list_elem_of_filter.
  apply elem_of_seqZ in Hp. lia.
Qed.

Lemma occurrences_short x y : zlen y < zlen x -> occurrences x y = [].
Proof. intros Hl. unfold occurrences, occurrences_from. rewrite seqZ_nil by lia. done. Qed.

(** The structure [main] builds from the search string [x]. *)
Definition searches_for (x : list Z) (bm : BM) : Prop :=
  forall A (mfun : option (Z -> A -> Z * A)) y st, Forall is_byte y ->
    bm_search tolower mfun bm y st =
      Some (if zlen y <? zlen x then (-1, st)
            else visit mfun (occurrences (fold_case tolower (ignore_case o) <$> x)
                              (fold_case tolower (ignore_case o) <$> y)) 0 st).
Definition matches (x buf : list Z) : list Z :=
  occurrences (fold_case tolower (ignore_case o) <$> x) (fold_case tolower (ignore_case o) <$> buf).
Definition debug_line (path : list Z) (len : Z) : list event :=
  if 1 <? debug o then [Scanning path (to_uint (len / 1000000))] else [].

Lemma scan_file_scans bm x path len buf a : searches_for x bm ->
  zlen buf <= INT_MAX -> Forall is_byte buf ->
  scan_file tolower o (Some bm) path (mkAnswers true (Some len) (Some buf)) a =
    Some (1, advanced (length (matches x buf))
      ([Opened] ++ debug_line path len ++ [Mapped] ++ concat (report path buf <$> matches x buf) ++ [Unmapped; Closed]) a).
Proof.
  intros Hbm Hl Hb. unfold scan_file. cbn [opens size contents negb].
  assert ((if 1 <? debug o then emit [Scanning path (to_uint (len / 1000000))] (emit [Opened] a) else emit [Opened] a) =
    advanced 0 ([Opened] ++ debug_line path len) a) as ->.
  { unfold debug_line. rewrite !emit_advanced, ?advanced_advanced. by destruct (1 <? debug o). }
  rewrite Hbm by done. rewrite !emit_advanced, !advanced_advanced. unfold matches.
  assert (Forall (fun p => 0 <= p <= zlen buf) (matches x buf)) as Hocc.
  { pose proof (occurrences_bound (fold_case tolower (ignore_case o) <$> x) (fold_case tolower (ignore_case o) <$> buf)) as Hocc.
    by rewrite length_fmap in Hocc. }
  destruct (Z.ltb_spec (zlen buf) (zlen x)) as [Hs|Hs].
  { rewrite occurrences_short by (by rewrite !length_fmap). cbn [length fmap list_fmap concat].
    rewrite emit_advanced, advanced_advanced. do 3 f_equal. by rewrite <- !app_assoc. }
  rewrite visit_reports by done. rewrite emit_advanced, !advanced_advanced. do 3 f_equal; [lia|]. by rewrite <- !app_assoc.
Qed.
End ScanProof.

(** C16. The scan of a file, end to end. With the search structure that [bm_init] builds for
    the search string, [scan_file] of a readable file counts and reports, in order, every
    position at which the string occurs (the case ignored if asked): each match is counted
    under [matches_lock] and printed as one report, path, position (in line mode that of the
    start of its line) and text, while [print_lock] is held; then the file is unmapped and
    closed and the answer is 1. *)
Theorem scan_file_correct `{CtypeLaws} tolower o gs suff bc x path len buf a :
  (forall c, is_byte c -> is_byte (tolower c)) -> x <> [] -> Forall is_byte x ->
  length gs = length x -> length suff = length x -> zlen bc = BM_ASIZE ->
  0 <= maxlen o < 2 ^ 31 -> zlen buf <= INT_MAX -> Forall is_byte buf ->
  exists bm, bm_init tolower (Some gs) true (Some suff) bc x (ignore_case o) = Some (inr bm) /\
    scan_file tolower o (Some bm) path (mkAnswers true (Some len) (Some buf)) a =
      Some (1, advanced (length (matches tolower o x buf))
        ([Opened] ++ debug_line o path len ++ [Mapped] ++
         concat (report o path buf <$> matches tolower o x buf) ++ [Unmapped; Closed]) a).
Proof.
  intros Ht Hx Hxb Hgs Hsf Hbc Hm Hl Hb.
  destruct (bm_search_finds tolower gs suff bc x (ignore_case o)) as (bm & Hi & Hs); try done.
  exists bm. split; [done|]. by apply scan_file_scans.
Qed.

(** ** Workers *)

(** What a thread holds: a mutex, an open file, a mapping. *)
Record holds_t := mkHolds { h_lock : option lock; h_file : bool; h_map : bool }.
Definition nothing : holds_t := mkHolds None false false.
#[export] Instance holds_eq_dec : EqDecision holds_t.
Proof. solve_decision. Defined.

(** The rules: one mutex at a time, each counter and the output only under its mutex, every
    file closed and every mapping removed before the next path is taken. [None] is a breach. *)
Definition obey (h : holds_t) (e : event) : option holds_t :=
  match e with
  | Lock l => if decide (h_lock h = None) then Some (mkHolds (Some l) (h_file h) (h_map h)) else None
  | Unlock l => if decide (h_lock h = Some l) then Some (mkHolds None (h_file h) (h_map h)) else None
  | Out _ | Warn _ _ => if decide (h_lock h = Some print_lock) then Some h else None
  | Counted => if decide (h_lock h = Some matches_lock) then Some h else None
  | Left | SignalAworker => if decide (h_lock h = Some aworker_lock) then Some h else None
  | Got _ | Drained | Freed _ => if decide (h = nothing) then Some h else None
  | Opened => if h_file h then None else Some (mkHolds (h_lock h) true (h_map h))
  | Closed => if h_file h && negb (h_map h) then Some (mkHolds (h_lock h) false false) else None
  | Mapped => if h_file h && negb (h_map h) then Some (mkHolds (h_lock h) true true) else None
  | Unmapped => if h_map h then Some (mkHolds (h_lock h) (h_file h) false) else None
  | _ => Some h
  end.
Fixpoint obeys (h : holds_t) (l : list event) : option holds_t :=
  match l with [] => Some h | e :: l => let? h := obey h e in obeys h l end.
Definition disciplined (l : list event) : Prop := obeys nothing l = Some nothing.

Lemma obeys_app h l1 l2 : obeys h (l1 ++ l2) = let? h' := obeys h l1 in obeys h' l2.
Proof. revert h. induction l1 as [|e l1 IH]; intros h; simpl; [done|]. by destruct (obey h e). Qed.
Lemma obeys_reports `{Ctype} o path buf occ : let h := mkHolds None true true in
  obeys h (concat (report o path buf <$> occ)) = Some h.
Proof. intros h. induction occ as [|p occ IH]; [done|]. cbn [fmap list_fmap concat]. rewrite obeys_app. exact IH. Qed.

Section Worker.
Context `{CtypeLaws}.
Variable tolower : Z -> Z.
Variable o : options.
Hypothesis Hmax : 0 <= maxlen o < 2 ^ 31.
Context (x : list Z) (bm : BM).
Hypothesis Hbm : searches_for tolower o x bm.

Definition readable (f : answers) : Prop :=
  forall buf, contents f = Some buf -> zlen buf <= INT_MAX /\ Forall is_byte buf.
(** The matches of a file that is read. *)
Definition found (f : answers) : nat :=
  match f with mkAnswers true (Some _) (Some buf) => length (matches tolower o x buf) | _ => 0%nat end.

(** What the scan of a file does, whatever fails. *)
Definition warning (e : failure) (path : list Z) : list event :=
  if negb (verbose o =? 0) then [Lock print_lock; Warn e path; Unlock print_lock] else [].
Definition file_events (path : list Z) (f : answers) : list event :=
  match f with
  | mkAnswers false _ _ => warning OpenFailed path
  | mkAnswers true None _ => [Opened] ++ warning FstatFailed path ++ [Closed]
  | mkAnswers true (Some len) None => [Opened] ++ debug_line o path len ++ warning MmapFailed path ++ [Closed]
  | mkAnswers true (Some len) (Some buf) =>
      [Opened] ++ debug_line o path len ++ [Mapped] ++ concat (report o path buf <$> matches tolower o x buf) ++ [Unmapped; Closed]
  end.
Definition job_events (j : list Z * answers) : list event := [Got (fst j)] ++ file_events (fst j) (snd j) ++ [Freed (fst j)].

Lemma advanced_0 a : advanced 0 [] a = a.
Proof. unfold advanced. destruct a. simpl. rewrite app_nil_r. f_equal. lia. Qed.
Lemma scan_any path f a : readable f ->
  scan_file tolower o (Some bm) path f a =
    Some (match f with mkAnswers true (Some _) (Some _) => 1 | _ => -1 end, advanced (found f) (file_events path f) a).
Proof.
  intros Hf. assert (forall e a', fail o e path a' = advanced 0 (warning e path) a') as Hfail.
  { intros e a'. unfold fail, warning. destruct (negb _); [apply emit_advanced|by rewrite advanced_0]. }
  destruct f as [[] len buf]; [|by unfold scan_file; cbn [opens negb found file_events]; rewrite Hfail].
  destruct len as [len|]; [|by unfold scan_file; cbn [opens size negb found file_events]; rewrite Hfail, !emit_advanced, !advanced_advanced].
  destruct buf as [buf|].
  - destruct (Hf buf eq_refl) as [Hl Hb]. by apply scan_file_scans.
  - unfold scan_file, file_events, debug_line. cbn [opens size contents negb found]. by rewrite Hfail; destruct (1 <? debug o); rewrite !emit_advanced, !advanced_advanced.
Qed.
Lemma disciplined_app l1 l2 : disciplined l1 -> disciplined l2 -> disciplined (l1 ++ l2).
Proof. unfold disciplined. intros H1 H2. by rewrite obeys_app, H1. Qed.
Lemma file_disciplined path f : disciplined (file_events path f).
Proof.
  assert (forall e h, h_lock h = None -> obeys h (warning e path) = Some h) as Hw.
  { intros e [l fi m] Hh. simpl in Hh. subst l. unfold warning. by destruct (negb _). }
  assert (forall h len, obeys h (debug_line o path len) = Some h) as Hd by (intros; unfold debug_line; by destruct (1 <? debug o)).
  assert (forall h', obeys nothing ([Opened] ++ h') = obeys (mkHolds None true false) h') as Ho by done.
  unfold disciplined, file_events. destruct f as [[] [len|] buf]; [|by rewrite Ho, obeys_app, Hw|by apply Hw|by apply Hw].
  destruct buf as [buf|]; rewrite Ho, obeys_app, Hd.
  - cbn [Datatypes.app obeys obey h_file h_map negb andb h_lock]. by rewrite obeys_app, obeys_reports.
  - by rewrite obeys_app, Hw.
Qed.
Lemma worker_loop_any jobs a : Forall (fun j => readable (snd j)) jobs ->
  worker_loop tolower o (Some bm) jobs a = Some (advanced (sum_list_with (fun j => found (snd j)) jobs) (concat (job_events <$> jobs) ++ [Drained]) a).
Proof.
  intros Hj. revert a. induction Hj as [|[path f] jobs Hf _ IH]; intros a; cbn [worker_loop]; [apply f_equal, emit_advanced|].
  rewrite scan_any by done. rewrite IH, !emit_advanced, !advanced_advanced. f_equal. rewrite fmap_cons. unfold job_events at 2. cbn [concat fst snd sum_list_with]. rewrite <- !app_assoc. done.
Qed.
Lemma jobs_disciplined jobs : disciplined (concat (job_events <$> jobs)).
Proof.
  induction jobs as [|j jobs IH]; [done|]. rewrite fmap_cons. cbn [concat]. apply disciplined_app; [|done]. unfold job_events. apply disciplined_app; [done|].
  apply disciplined_app; [apply file_disciplined|done].
Qed.
End Worker.

(** C34. A worker. Whatever paths [pqueue_get] hands it, and whatever fails with their files
    (those it can map have at most [INT_MAX] bytes), a worker ends, after exactly this: for
    every path the events of its file (opened, mapped, each match counted and reported,
    unmapped, closed; or the warning of what failed) and its release; when the queue is
    drained, the output is flushed, and with [aworker_lock] held [aworkers] becomes one less
    and [aworker_cv] is signalled. [n_matches] grows by the occurrences of the search string
    in the files it could read. No two mutexes are held at a time, the counters and the
    output are only touched under their mutexes, and no file or mapping is left. *)
Theorem worker_correct `{CtypeLaws} tolower o x bm jobs a :
  0 <= maxlen o < 2 ^ 31 -> searches_for tolower o x bm -> Forall (fun j => readable (snd j)) jobs ->
  let l := concat (job_events tolower o x <$> jobs) ++ [Drained; Flushed; Lock aworker_lock; Left; SignalAworker; Unlock aworker_lock] in
  worker tolower o (Some bm) jobs a =
    Some (mkApp (n_matches a + Z.of_nat (sum_list_with (fun j => found tolower o x (snd j)) jobs)) (n_files a) (n_bytes a) (aworkers a - 1) (trace a ++ l)) /\
  disciplined l.
Proof.
  intros Hm Hbm Hj l. split; [|apply disciplined_app; [apply jobs_disciplined|done]].
  unfold worker. rewrite (worker_loop_any tolower o Hm x bm Hbm) by done. f_equal. unfold emit, leave_workers, advanced. cbn [n_matches n_files n_bytes aworkers trace]. f_equal. unfold l. by rewrite <- !app_assoc.
Qed.

(** ** The walk *)

Definition walkable (f : ftw_flag) : bool := match f with FTW_F | FTW_D => true | _ => false end.
(** The files among the objects up to the first that cannot be walked. *)
Fixpoint files_of (objects : list (list Z * Z * ftw_flag)) : list (list Z) :=
  match objects with
  | [] => []
  | (p, _, f) :: objects =>
      match f with FTW_F => p :: files_of objects | FTW_D => files_of objects | _ => [] end
  end.

Lemma ftw_puts objects err a : exists c a' l, ftw objects err a = (c, a') /\
  trace a' = trace a ++ (Put <$> files_of objects) ++ l /\ n_matches a' = n_matches a /\
  if forallb (fun x => walkable (snd x)) objects
  then c = (if err then -1 else 0) /\ l = [] /\ n_files a' = n_files a + zlen objects
  else c = 1 /\ exists p, l = [Complaint p].
Proof.
  revert a. induction objects as [|[[p n] f] objects IH]; intros a; simpl.
  { eexists _, a, []. split; [done|]. rewrite app_nil_r. split; [done|]. split; [done|]. split; [done|]. split; [done|lia]. }
  destruct f; simpl; try (eexists _, _, [Complaint p]; split; [done|]; simpl; split; [done|]; split; [done|]; split; [done|]; by exists p).
  - destruct (IH (emit [Put p] (mkApp (n_matches a) (n_files a + 1) (to_uint64 (n_bytes a + n)) (aworkers a) (trace a))))
      as (c & a' & l & E & Ht & Hm & Hr). exists c, a', l. split; [done|]. rewrite Ht. simpl. rewrite <- app_assoc.
    split; [done|]. split; [done|]. destruct (forallb _ objects); [|done]. destruct Hr as (? & ? & ->). simpl. split; [done|]. split; [done|lia].
  - destruct (IH (mkApp (n_matches a) (n_files a + 1) (to_uint64 (n_bytes a + n)) (aworkers a) (trace a)))
      as (c & a' & l & E & Ht & Hm & Hr). exists c, a', l. split; [done|]. rewrite Ht. simpl.
    split; [done|]. split; [done|]. destruct (forallb _ objects); [|done]. destruct Hr as (? & ? & ->). simpl. split; [done|]. split; [done|lia].
Qed.

(** The walk over a path. [do_ftw] puts into the queue exactly the regular files that
    are met before the first object that cannot be read, in the order in which they are met,
    and nothing else; it answers 0, so that the next path is walked, exactly when every
    object could be read and the walk itself succeeded; and then every object, directories
    included, was counted. *)
Lemma do_ftw_puts_files path objects err a : exists c a' l, do_ftw path objects err a = (c, a') /\
  trace a' = trace a ++ (Put <$> files_of objects) ++ l /\ Forall (fun e => exists p, e = Complaint p) l /\
  (c = 0 <-> err = false /\ forallb (fun x => walkable (snd x)) objects = true) /\
  (c = 0 -> l = [] /\ n_files a' = n_files a + zlen objects).
Proof.
  unfold do_ftw. destruct (ftw_puts objects err a) as (c & a' & l & -> & Ht & _ & Hr).
  destruct (forallb _ objects) eqn:Ef; [|destruct Hr as (-> & p & ->)].
  - destruct Hr as (-> & -> & Hn). destruct err; simpl.
    + eexists _, _, [Complaint path]. split; [done|]. simpl. rewrite Ht, app_nil_r, <- app_assoc. split; [done|].
      split; [repeat constructor; by exists path|]. split; [split; [done|by intros []]|done].
    + eexists _, _, []. split; [done|]. split; [done|]. split; [done|]. split; [done|]. intros _. split; [done|exact Hn].
  - eexists _, _, _. split; [done|]. split; [exact Ht|]. split; [repeat constructor; by exists p|]. split; [split; [done|by intros []]|done].
Qed.

(** ** The command line *)

Section Render.
Variable scan_u : list Z -> option Z.

(** A command line for given options. *)
Definition render (o : options) : list (list Z) :=
  replicate (Z.to_nat (debug o)) [45; 100] ++ replicate (Z.to_nat (verbose o)) [45; 118] ++
  replicate (Z.to_nat (line_f o)) [45; 108] ++ (if ignore_case o then [[45; 105]] else []) ++
  [[45; 76]; show_lu (maxlen o); [45; 110] ++ show_lu (nworkers o)].

(** The options when [args] are still to be read, [o] when they are read. *)
Definition reads (args : list (list Z)) (o o' : options) : Prop :=
  forall fuel pre rest, opt_args scan_u (length args + fuel) (pre ++ args ++ rest) (length pre) o =
    opt_args scan_u fuel ((pre ++ args) ++ rest) (length (pre ++ args)) o'.

Lemma reads_nil o : reads [] o o.
Proof. intros fuel pre rest. by rewrite app_nil_r. Qed.
Lemma reads_app args1 args2 o1 o2 o3 : reads args1 o1 o2 -> reads args2 o2 o3 -> reads (args1 ++ args2) o1 o3.
Proof.
  intros H1 H2 fuel pre rest. rewrite length_app, <- app_assoc, <- Nat.add_assoc. rewrite H1.
  rewrite H2. by rewrite !app_assoc.
Qed.
Lemma reads_one c s o o' : c = 45 ->
  (forall argv i, argv !! i = Some (c :: s) -> opt_chars scan_u argv i (c :: s) s o = Next i o') -> reads [c :: s] o o'.
Proof.
  intros -> Hc fuel pre rest. cbn [length Nat.add Datatypes.app opt_args]. rewrite list_lookup_middle by done. change (45 =? 45) with true. cbv iota.
  rewrite Hc by (by apply list_lookup_middle). rewrite <- app_assoc. rewrite length_app. cbn [length Datatypes.app].
  by rewrite Nat.add_comm.
Qed.
Lemma reads_flags k c f o : (forall argv i o, opt_chars scan_u argv i [45; c] [c] o = Next i (f o)) ->
  reads (replicate k [45; c]) o (Nat.iter k f o).
Proof.
  intros Hc. revert o. induction k as [|k IH]; intros o; [apply reads_nil|].
  change (replicate (S k) [45; c]) with ([[45; c]] ++ replicate k [45; c]). rewrite Nat.iter_succ_r.
  eapply reads_app; [|apply IH]. by apply reads_one.
Qed.

Hypothesis scan_show : forall n, 0 <= n < 2 ^ 31 -> scan_u (show_lu n) = Some n.

Lemma show_lu_cons n : exists c l, show_lu n = c :: l.
Proof. unfold show_lu. cbn [decimal]. destruct (_ ++ _) eqn:E; [by apply app_nil in E as [_ ?]|eauto]. Qed.

Lemma reads_maxlen n o : 0 <= n < 2 ^ 31 -> forall fuel pre rest,
  opt_args scan_u (S fuel) (pre ++ [[45; 76]; show_lu n] ++ rest) (length pre) o =
  opt_args scan_u fuel ((pre ++ [[45; 76]; show_lu n]) ++ rest) (length (pre ++ [[45; 76]; show_lu n]))
    (mkOptions (debug o) (verbose o) (line_f o) n (ignore_case o) (nworkers o)).
Proof.
  intros Hn fuel pre rest. pose proof (scan_show n Hn) as Hd. revert Hd. generalize (show_lu n). intros d Hd.
  cbn [Datatypes.app opt_args]. rewrite list_lookup_middle by done. cbn.
  change (pre ++ [45; 76] :: d :: rest) with (pre ++ [[45; 76]] ++ d :: rest). rewrite app_assoc.
  rewrite list_lookup_middle by (rewrite length_app; simpl; lia). rewrite Hd.
  rewrite to_int_id by (unfold is_int; lia). rewrite <- !app_assoc. f_equal. rewrite length_app. simpl. lia.
Qed.
Lemma reads_nworkers n o : 0 <= n < 2 ^ 31 ->
  reads [[45; 110] ++ show_lu n] o (mkOptions (debug o) (verbose o) (line_f o) (maxlen o) (ignore_case o) n).
Proof.
  intros Hn. pose proof (scan_show n Hn) as Hd. destruct (show_lu_cons n) as (c & l & E). rewrite E in *.
  apply reads_one; [done|]. intros argv i Hi. cbn. rewrite Hd. by rewrite to_int_id by (unfold is_int; lia).
Qed.
Lemma iter_debug k o : Nat.iter k (fun o => mkOptions (debug o + 1) (verbose o) (line_f o) (maxlen o) (ignore_case o) (nworkers o)) o =
  mkOptions (debug o + Z.of_nat k) (verbose o) (line_f o) (maxlen o) (ignore_case o) (nworkers o).
Proof. induction k as [|k IH]; [destruct o; simpl; f_equal; lia|]. rewrite Nat.iter_succ, IH. simpl. f_equal. lia. Qed.
Lemma iter_verbose k o : Nat.iter k (fun o => mkOptions (debug o) (verbose o + 1) (line_f o) (maxlen o) (ignore_case o) (nworkers o)) o =
  mkOptions (debug o) (verbose o + Z.of_nat k) (line_f o) (maxlen o) (ignore_case o) (nworkers o).
Proof. induction k as [|k IH]; [destruct o; simpl; f_equal; lia|]. rewrite Nat.iter_succ, IH. simpl. f_equal. lia. Qed.
Lemma iter_line k o : Nat.iter k (fun o => mkOptions (debug o) (verbose o) (line_f o + 1) (maxlen o) (ignore_case o) (nworkers o)) o =
  mkOptions (debug o) (verbose o) (line_f o + Z.of_nat k) (maxlen o) (ignore_case o) (nworkers o).
Proof. induction k as [|k IH]; [destruct o; simpl; f_equal; lia|]. rewrite Nat.iter_succ, IH. simpl. f_equal. lia. Qed.

(** The flags that take no argument. *)
Lemma reads_flags_of o : 0 <= debug o -> 0 <= verbose o -> 0 <= line_f o ->
  reads (replicate (Z.to_nat (debug o)) [45; 100] ++ replicate (Z.to_nat (verbose o)) [45; 118] ++
         replicate (Z.to_nat (line_f o)) [45; 108] ++ (if ignore_case o then [[45; 105]] else []))
    options0 (mkOptions (debug o) (verbose o) (line_f o) 64 (ignore_case o) 2).
Proof.
  intros Hd Hv Hl. eapply reads_app; [by eapply reads_flags|]. rewrite iter_debug.
  eapply reads_app; [by eapply reads_flags|]. rewrite iter_verbose. eapply reads_app; [by eapply reads_flags|]. rewrite iter_line.
  simpl. rewrite !Z2Nat.id by done. destruct (ignore_case o); [|apply reads_nil]. by apply reads_one.
Qed.
End Render.

(** The command line. For every setting of the options there is a command line that
    [main] reads as that setting, whatever search string that does not start with a dash
    and whatever paths follow it; the search string is the one its escapes stand for. *)
Theorem command_line_round_trip `{CtypeLaws} scan_u o prog pat l paths :
  (forall n, 0 <= n < 2 ^ 31 -> scan_u (show_lu n) = Some n) ->
  0 <= debug o -> 0 <= verbose o -> 0 <= line_f o -> 0 <= maxlen o < 2 ^ 31 -> 0 <= nworkers o < 2 ^ 31 ->
  Forall is_byte pat -> Forall (fun c => c <> 0) pat -> hd 0 pat <> 45 -> unescape pat = Some l ->
  main_setup scan_u (prog :: render o ++ pat :: paths) = Some (Starts o l paths).
Proof.
  intros Hs Hd Hv Hl Hm Hn Hb Hz Hp Hu. unfold main_setup, render. set (argv := prog :: _).
  set (F := replicate (Z.to_nat (debug o)) [45; 100] ++ replicate (Z.to_nat (verbose o)) [45; 118] ++
    replicate (Z.to_nat (line_f o)) [45; 108] ++ (if ignore_case o then [[45; 105]] else [])).
  set (N := [45; 110] ++ show_lu (nworkers o)) in *.
  assert (argv = [prog] ++ F ++ [[45; 76]; show_lu (maxlen o)] ++ [N] ++ pat :: paths) as Eargv.
  { unfold argv, F. rewrite <- !app_assoc. done. }
  set (P := ([prog] ++ F) ++ [[45; 76]; show_lu (maxlen o)]).
  assert (opt_args scan_u (S (length argv)) argv 1 options0 = EndOptions (length (P ++ [N])) o) as ->.
  { replace (S (length argv)) with (length F + (S (length [N] + S (S (S (S (length paths)))))))%nat
      by (rewrite Eargv, !length_app; simpl; lia).
    rewrite Eargv. change 1%nat with (length [prog]). rewrite (reads_flags_of scan_u o Hd Hv Hl).
    rewrite (reads_maxlen scan_u Hs) by done. fold P. rewrite (reads_nworkers scan_u Hs (nworkers o)) by done.
    cbn [opt_args debug verbose line_f maxlen ignore_case nworkers]. fold N. rewrite list_lookup_middle by done.
    destruct pat as [|c pat]; simpl in *; [by destruct o|]. destruct (Z.eqb_spec c 45); [done|by destruct o]. }
  assert (argv = (P ++ [N]) ++ pat :: paths) as Eargv'.
  { rewrite Eargv. unfold P. by rewrite <- !app_assoc. }
  rewrite Eargv', list_lookup_middle by done. pose proof (deslash_spec pat Hb Hz) as Hds. rewrite Hu in Hds.
  destruct Hds as (buf' & -> & _ & Ht & _). rewrite Nat2Z.id, Ht. do 2 f_equal.
  by rewrite drop_app_ge by lia; replace (S (length (P ++ [N])) - length (P ++ [N]))%nat with 1%nat by lia.
Qed.

(** The array of thread identifiers has 32 entries: more workers do not fit. *)
Lemma create_workers_bound k j ok tid tids : 0 <= j -> (forall i, ok i = true) ->
  (exists r, create_workers k j ok tid tids = Some r) <-> (k = 0%nat \/ j + Z.of_nat k <= zlen tids).
Proof.
  intros Hj Hok. revert j tids Hj. induction k as [|k IH]; intros j tids Hj; cbn [create_workers].
  { split; [by left|]. intros _. eauto. }
  destruct (decide (j < zlen tids)) as [Hlt|Hge].
  - destruct (zset tids j (tid j)) as [t'|] eqn:E; [|rewrite zset_Some in E by lia; done].
    rewrite Hok, IH by lia. rewrite (zset_length _ _ _ _ E). lia.
  - assert (zset tids j (tid j) = None) as ->.
    { unfold zset. destruct (Z.ltb_spec j (zlen tids)); [lia|]. by rewrite andb_false_r. }
    split; [by intros []|]. lia.
Qed.

(** *** Witnesses *)

(** A [sscanf] for decimal numbers. *)
Definition scan_dec (l : list Z) : option Z :=
  match l with [] => None | _ => Some (foldl (fun v c => v * 10 + (c - 48)) 0 l) end.
Lemma decimal_value fuel n : 0 <= n < 10 ^ Z.of_nat fuel -> foldl (fun v c => v * 10 + (c - 48)) 0 (decimal fuel n) = n.
Proof.
  revert n. induction fuel as [|fuel IH]; intros n Hn; [simpl in *; lia|]. cbn [decimal]. rewrite foldl_app. simpl.
  destruct (Z.ltb_spec n 10).
  - simpl. rewrite Z.mod_small by lia. lia.
  - rewrite IH; [pose proof (Z.div_mod n 10 ltac:(lia)); lia|]. rewrite Nat2Z.inj_succ, Z.pow_succ_r in Hn by lia.
    split; [apply Z.div_pos; lia|apply Z.div_lt_upper_bound; lia].
Qed.
Lemma scan_dec_show n : 0 <= n < 2 ^ 31 -> scan_dec (show_lu n) = Some n.
Proof.
  intros Hn. pose proof (decimal_value 20 n) as Hd. change (decimal 20 n) with (show_lu n) in Hd.
  destruct (show_lu_cons n) as (c & l & E). rewrite E in *. unfold scan_dec. f_equal. apply Hd.
  split; [lia|]. eapply Z.lt_le_trans; [apply Hn|]. vm_compute. discriminate.
Qed.

(** [pfscan -v -l -i -L 100 -n3 a\n dir] *)
Definition some_options : options := mkOptions 0 1 1 100 true 3.
Lemma command_line_round_trip_witness :
  main_setup (H:=c_locale) scan_dec ([112] :: render some_options ++ [97; 92; 110] :: [[100]]) =
    Some (Starts some_options [97; 10] [[100]]).
Proof.
  apply (command_line_round_trip (H0:=c_locale_laws) scan_dec some_options [112] [97; 92; 110] [97; 10] [[100]]).
  - exact scan_dec_show.
  - done.
  - done.
  - done.
  - done.
  - done.
  - repeat constructor; lia.
  - repeat constructor; lia.
  - done.
  - by vm_compute.
Defined.

(** Looking for [b] in the file [f] with the contents [ab\nb]. *)
Lemma scan_file_correct_witness : exists bm a',
  bm_init ascii_lower (Some [0]) true (Some [0]) (replicate 256 0) [98] false = Some (inr bm) /\
  scan_file (H:=c_locale) ascii_lower options0 (Some bm) [102] (mkAnswers true (Some 4) (Some [97; 98; 10; 98]))
    (mkApp 0 0 0 2 []) = Some (1, a') /\ n_matches a' = 2.
Proof.
  destruct (scan_file_correct (H0:=c_locale_laws) ascii_lower options0 [0] [0] (replicate 256 0) [98] [102] 4 [97; 98; 10; 98]
    (mkApp 0 0 0 2 [])) as (bm & Hi & Hs).
  - exact ascii_lower_byte.
  - discriminate.
  - repeat constructor; lia.
  - reflexivity.
  - reflexivity.
  - reflexivity.
  - done.
  - done.
  - repeat constructor; lia.
  - eexists bm, _. split; [exact Hi|]. split; [exact Hs|]. by vm_compute.
Defined.

(** A worker that gets that file and one it cannot open. *)
Definition two_jobs : list (list Z * answers) :=
  [([102], mkAnswers true (Some 4) (Some [97; 98; 10; 98])); ([103], mkAnswers false None None)].
Lemma worker_correct_witness : exists bm a',
  worker (H:=c_locale) ascii_lower options0 (Some bm) two_jobs (mkApp 0 0 0 2 []) = Some a' /\
  n_matches a' = 2 /\ aworkers a' = 1 /\ disciplined (trace a') /\ last (trace a') = Some (Unlock aworker_lock).
Proof.
  destruct (bm_search_finds ascii_lower [0] [0] (replicate 256 0) [98] false) as (bm & _ & Hs);
    [exact ascii_lower_byte|discriminate|repeat constructor; lia|done..|].
  destruct (worker_correct (H0:=c_locale_laws) ascii_lower options0 [98] bm two_jobs (mkApp 0 0 0 2 [])) as [E Hd].
  - done.
  - exact Hs.
  - apply Forall_cons. split; [|apply Forall_singleton]; intros buf Hb; [|done]. injection Hb as <-.
    split; [done|repeat constructor; lia].
  - exists bm. eexists. split; [exact E|]. split; [by vm_compute|]. split; [done|]. split; [exact Hd|by vm_compute].
Defined.
End Scan.
