(* ===== verification/Aget.v ===== *)
(** The download of [src/papps/aget-devel]: how a file is divided among the threads
    ([Misc.c], [Aget.c]), what a thread writes ([Download.c]), and how failed threads are
    started again ([Aget.c]).

    What the sockets answer is an argument; the calls of [pwrite] are collected, since the
    threads share one file. *)
From stdpp Require Import base list gmap strings.
From Stdlib Require Import ZArith Lia Ascii.
From S2P Require Import Prelude Queue Runtime Clock Sync.

Module Aget.

(** ** Dividing the work *)

Definition BUFSIZ : Z := 8192.
Definition numofthreads (size : Z) : Z :=
  if size =? 0 then 0
  else if size <? BUFSIZ * 4 then 1
  else if (BUFSIZ * 4 <=? size) && (size <? BUFSIZ * 8) then 2
  else if (BUFSIZ * 8 <=? size) && (size <? BUFSIZ * 16) then 3
  else if (BUFSIZ * 16 <=? size) && (size <? BUFSIZ * 32) then 4
  else if (BUFSIZ * 32 <=? size) && (size <? BUFSIZ * 64) then 5
  else if (BUFSIZ * 64 <=? size) && (size <? BUFSIZ * 128) then 6
  else if (BUFSIZ * 128 <=? size) && (size <? BUFSIZ * 256) then 7
  else if (BUFSIZ * 256 <=? size) && (size <? BUFSIZ * 512) then 8
  else if (BUFSIZ * 512 <=? size) && (size <? BUFSIZ * 1024) then 9
  else 10.

(** [None]: division by zero. *)
Definition calc_offset (total part nthreads : Z) : option Z :=
  if nthreads =? 0 then None else Some (part * Z.quot total nthreads).

(** [nthreads] of [startHTTP]: what the user asked for, or what the size suggests. *)
Definition choose_nthreads (fsuggested nthreads clength : Z) : Z :=
  let ret := numofthreads clength in
  if fsuggested =? 0 then if ret =? 0 then 1 else ret else nthreads.

Definition STAT_OK : Z := 255.
Definition GETREQSIZ : Z := 256.
Record thread_data := mkThread {
  getstr : list Z; soffset : Z; foffset : Z; offset : Z; clength : Z; status : Z
}.
Definition thread0 : thread_data := mkThread [] 0 0 0 0 0.

(** Text as [char] values. *)
Fixpoint text (s : string) : list Z :=
  match s with
  | EmptyString => []
  | String c s => Z.of_N (N_of_ascii c) :: text s
  end.
Definition CRLF : list Z := [13; 10].

Section Requests.
(** [%ld] *)
Variable show_ld : Z -> list Z.

(** [snprintf(fmt, GETREQSIZ, GETREQ, url, host, PROGVERSION, soffset)]: at most 255
    characters are stored. *)
Definition get_request (url host : list Z) (soffset : Z) : list Z :=
  take (Z.to_nat (GETREQSIZ - 1))
    (text "GET " ++ url ++ text " HTTP/1.1" ++ CRLF ++ text "Host: " ++ host ++ CRLF ++
     text "User-Agent: EnderUNIX Aget 0.59" ++ CRLF ++
     text "Range: bytes=" ++ show_ld soffset ++ text "-" ++ CRLF ++ text "Connection: close" ++ CRLF ++ CRLF).

(** The body of the set-up loop of [startHTTP] for thread [i], without a proxy. *)
Definition setup_thread (url host : list Z) (clen nthreads i : Z) (td : thread_data) : option thread_data :=
  let? so := calc_offset clen i nthreads in
  let? fo := calc_offset clen (i + 1) nthreads in
  Some (mkThread (get_request url host so) so (if i =? nthreads - 1 then clen else fo) so clen (status td)).

(** The body of the set-up loop of [resumeDownload]: a thread goes on where it stopped. *)
Definition resume_thread (url host : list Z) (i : Z) (td : thread_data) : option thread_data :=
  Some (mkThread (get_request url host (offset td)) (offset td) (foffset td) (offset td) (clength td) (status td)).

(** [for (i = 0; i < nthreads && wthread[i].status | STAT_OK; i++)] around either body;
    [k] is [nthreads - i]. *)
Fixpoint setup_loop (body : Z -> thread_data -> option thread_data) (k : nat) (i : Z) (wthread : list thread_data) :
    option (list thread_data) :=
  match k with
  | O => Some wthread
  | S k =>
      let? td := znth wthread i in
      if negb (Z.lor (status td) STAT_OK =? 0) then
        let? td := body i td in
        let? wthread := zset wthread i td in
        setup_loop body k (i + 1) wthread
      else Some wthread
  end.
End Requests.

(** ** A thread *)

(** What a thread meets: the calls of [recv] in order, [None] for -1, and those of [pwrite];
    when there are no more answers of [pwrite], it takes all it is given. *)
Record server := mkServer {
  socket_ok : bool; connect_ok : bool; send_ok : bool; recvs : list (option (list Z)); pwrites : list Z }.

(** One [pwrite]: where, and what. *)
Definition write : Type := Z * list Z.

(** [pwrite(fd, data, count, off)]: a negative count is refused; it may fail, or take less
    than it is given. *)
Definition pwrite (pws : list Z) (data : list Z) (count off : Z) : Z * list write :=
  let dw := Z.min count (default count (head pws)) in
  if (count <? 0) || (dw <? 0) then (-1, []) else (dw, [(off, take (Z.to_nat dw) data)]).

(** [strstr(s, pat) != NULL] *)
Fixpoint starts_with (pat s : list Z) : bool :=
  match pat, s with
  | [], _ => true
  | p :: pat, c :: s => (p =? c) && starts_with pat s
  | _, [] => false
  end.
Fixpoint strstr (s pat : list Z) : bool :=
  starts_with pat s || match s with [] => false | _ :: s => strstr s pat end.
(** The string in a buffer ends at the first zero. *)
Fixpoint c_string (s : list Z) : list Z :=
  match s with [] => [] | c :: s => if c =? 0 then [] else c :: c_string s end.

(** [false]: the process exits with code 1. *)
Definition handleHttpRetcode (rbuf : list Z) : bool :=
  negb (strstr rbuf (text "HTTP/1.1 416") || strstr rbuf (text "HTTP/1.1 403") || strstr rbuf (text "HTTP/1.1 404")).

(** The loop that looks for the end of the headers; [k] characters are left. The characters
    before the first one are outside the buffer. *)
Fixpoint header_end (k : nat) (rbuf : list Z) (s : Z) : option Z :=
  match k with
  | O => Some s
  | S k =>
      let? c0 := znth rbuf s in
      if c0 =? 10 then
        let? c1 := znth rbuf (s - 1) in
        if c1 =? 13 then
          let? c2 := znth rbuf (s - 2) in
          if c2 =? 10 then
            let? c3 := znth rbuf (s - 3) in
            if c3 =? 13 then Some (s + 1) else header_end k rbuf (s + 1)
          else header_end k rbuf (s + 1)
        else header_end k rbuf (s + 1)
      else header_end k rbuf (s + 1)
  end.

(** How a thread ends: with its record, its writes and what it added to [bwritten]; it may
    also wait for the server, or end the process, with [exit] or because an assertion of the
    runtime fails. *)
Inductive ending :=
| ThreadExit (td : thread_data) (ws : list write) (written : Z)
| Waiting (td : thread_data) (ws : list write) (written : Z)
| ProcessExit (code : Z)
| ProcessAbort.

Definition set_offset (o : Z) (td : thread_data) : thread_data :=
  mkThread (getstr td) (soffset td) (foffset td) o (clength td) (status td).
Definition set_ok (td : thread_data) : thread_data :=
  mkThread (getstr td) (soffset td) (foffset td) (offset td) (clength td) STAT_OK.

(** [bwritten] is counted under [bwritten_mutex], a global that is all zero until
    [pthread_mutex_init] is called: [inited]. Without that [pthread_mutex_lock], which is
    [det_lock], fails its assertion ([zeroed_mutex_aborts]). *)

(** [while (td->offset < foffset)] and the end of [http_get]. *)
Fixpoint get_loop (inited : bool) (rs : list (option (list Z))) (pws : list Z) (fo : Z) (td : thread_data) (ws : list write) (written : Z) : ending :=
  if offset td <? fo then
    match rs with
    | [] => Waiting td ws written
    | r :: rs =>
        let dr := match r with Some d => zlen d | None => -1 end in
        let rbuf := match r with Some d => d | None => [] end in
        let (dw, w) := if fo <? offset td + dr then pwrite pws rbuf (fo - offset td) (offset td)
                       else pwrite pws rbuf dr (offset td) in
        if negb inited then ProcessAbort
        else get_loop inited rs (tail pws) fo (set_offset (offset td + dw) td) (ws ++ w) (written + dw)
    end
  else ThreadExit (if offset td =? foffset td then set_ok td else td) ws written.

(** [None]: an access outside the buffer. *)
Definition http_get (inited : bool) (sv : server) (td : thread_data) : option ending :=
  let fo := foffset td in
  if (soffset td <? 0) || (fo <=? soffset td) then Some (ThreadExit (set_ok td) [] 0)
  else if negb (socket_ok sv && connect_ok sv && send_ok sv) then Some (ThreadExit td [] 0)
  else
    match recvs sv with
    | [] => Some (Waiting td [] 0)
    | None :: _ => Some (ThreadExit td [] 0)
    | Some rbuf :: rs =>
        let dr := zlen rbuf in
        if negb (handleHttpRetcode (c_string rbuf)) then Some (ProcessExit 1)
        else if negb (strstr (c_string rbuf) (text "HTTP/1.1 206")) then Some (ProcessExit 1)
        else
          let? i := header_end (length rbuf) rbuf 0 in
          let s := drop (Z.to_nat i) rbuf in
          let pws := pwrites sv in
          let (dw, w) := if fo <? dr - i then pwrite pws s (fo - i) (soffset td) else pwrite pws s (dr - i) (soffset td) in
          if negb inited then Some ProcessAbort
          else Some (get_loop inited rs (tail pws) fo (set_offset (soffset td + dw) td) w dw)
    end.

(** ** Rounds *)

(** The threads run on their own records: [get i] is the body of thread [i], with what it
    meets. *)
Fixpoint run_threads (get : Z -> thread_data -> option ending) (i : Z) (wthread : list thread_data) : option (list ending) :=
  match wthread with
  | [] => Some []
  | td :: wthread =>
      let? e := get i td in
      let? es := run_threads get (i + 1) wthread in
      Some (e :: es)
  end.

Definition writes_of (e : ending) : list write :=
  match e with ThreadExit _ ws _ | Waiting _ ws _ => ws | ProcessExit _ | ProcessAbort => [] end.
Definition written_of (e : ending) : Z :=
  match e with ThreadExit _ _ w | Waiting _ _ w => w | ProcessExit _ | ProcessAbort => 0 end.
Definition record_of (e : ending) : option thread_data :=
  match e with ThreadExit td _ _ => Some td | _ => None end.
(** The process ends: with a code, or with [None] by a failed assertion. *)
Definition process_end (e : ending) : option (option Z) :=
  match e with ProcessExit code => Some (Some code) | ProcessAbort => Some None | _ => None end.
Definition sum_Z (l : list Z) : Z := foldr Z.add 0 l.
Definition count_ok (wthread : list thread_data) : Z :=
  zlen (filter (fun td => status td = STAT_OK) wthread).

(** How a download ends: with the process, in [main] or in a thread (in one of the given
    ways, whichever thread comes first), never (someone is waited for), with an access
    outside an array, with the threads still to be started once more when the given
    [rounds] are over, or complete, with the records, the writes and [bwritten]. *)
Inductive outcome :=
| Exits (code : Z)
| EndsInThread (ways : list (option Z))
| Blocked
| Undefined
| Retrying
| Complete (wthread : list thread_data) (ws : list write) (bwritten : Z).

(** [retry]: set up, start and join the threads, until [nok] is [nthreads]; [nok] is not set
    back between the rounds. A thread may end the process, a thread that waits is
    joined for ever. [bwritten] is an [unsigned int]. *)
Fixpoint retry (setup : list thread_data -> option (list thread_data)) (nthreads : Z)
    (rounds : list (Z -> thread_data -> option ending))
    (nok : Z) (wthread : list thread_data) (ws : list write) (bwritten : Z) : outcome :=
  match rounds with
  | [] => Retrying
  | get :: rounds =>
      match setup wthread with
      | None => Undefined
      | Some wthread =>
          match run_threads get 0 wthread with
          | None => Undefined
          | Some es =>
              match omap process_end es with
              | way :: ways => EndsInThread (way :: ways)
              | [] =>
                  match mapM record_of es with
                  | None => Blocked
                  | Some wthread =>
                      let nok := nok + count_ok wthread in
                      let ws := ws ++ concat (writes_of <$> es) in
                      let bwritten := (bwritten + sum_Z (written_of <$> es)) mod 2 ^ 32 in
                      if nok =? nthreads then Complete wthread ws bwritten
                      else retry setup nthreads rounds nok wthread ws bwritten
                  end
              end
          end
      end
  end.

(** What [startHTTP] finds: the first [open] (with [EEXIST] or another error), the first
    characters of the user's answers, the second [open], [lseek] and [write]. *)
Inductive opened := Created | FileExists | OpenFails.
Record disk := mkDisk { first_open : opened; replies : list Z; second_open : bool; seek_ok : bool; write_ok : bool }.

(** The question [again:], until the answer is [y] or [n]; [None] when it is not. *)
Fixpoint overwrite (replies : list Z) : option bool :=
  match replies with
  | [] => None
  | r :: replies => if r =? 110 then Some false else if r =? 121 then Some true else overwrite replies
  end.

(** [lseek(fd, req->clength - 1, SEEK_SET)] and [write(fd, "0", 1)]. *)
Definition last_byte (clen : Z) : write := (clen - 1, [48]).
Definition allocate (dk : disk) (clen : Z) : option write :=
  if negb (seek_ok dk) || (clen - 1 <? 0) then None
  else if negb (write_ok dk) then None else Some (last_byte clen).

(** The threads of a download over HTTP; [servers i] is what thread [i] meets. *)
Definition http_threads (inited : bool) (servers : Z -> server) (i : Z) : thread_data -> option ending := http_get inited (servers i).

(** [fd]: [Some true] when it is open. *)
Definition open_file (dk : disk) : option bool :=
  match first_open dk with
  | Created => Some true
  | OpenFails => Some false
  | FileExists => let? y := overwrite (replies dk) in Some (y && second_open dk)
  end.

(** [startHTTP] after [http_head_req] found [clen]; [mem] is what the new [wthread] holds,
    whatever that is. [bwritten_mutex] is initialised before the threads are made. Answers the number of threads too. *)
Definition startHTTP (show_ld : Z -> list Z) (fsuggested nthreads : Z) (url host : list Z) (clen : Z) (dk : disk)
    (mem : list thread_data) (rounds : list (Z -> server)) : Z * outcome :=
  let nthreads := choose_nthreads fsuggested nthreads clen in
  (nthreads,
   match open_file dk with
   | None => Blocked
   | Some false => Exits 1
   | Some true =>
       match allocate dk clen with
       | None => Exits 1
       | Some w =>
           retry (setup_loop (setup_thread show_ld url host clen nthreads) (Z.to_nat nthreads) 0) nthreads
             (http_threads true <$> rounds) 0 (take (Z.to_nat nthreads) mem) [w] 0
       end
   end).

(** [resumeDownload] of a job over HTTP: [saved] are the records in the log, [written] its
    [bwritten]; it does not initialise [bwritten_mutex]. *)
Definition resumeDownload (show_ld : Z -> list Z) (nthreads : Z) (url host : list Z) (open_ok : bool) (saved : list thread_data)
    (written : Z) (rounds : list (Z -> server)) : outcome :=
  if negb open_ok then Exits 1
  else retry (setup_loop (resume_thread show_ld url host) (Z.to_nat nthreads) 0) nthreads
         (http_threads false <$> rounds) 0 (take (Z.to_nat nthreads) saved) [] written.

(** ** The segments *)

(** Thread [i] of [n] is to load the bytes from [seg_start] up to [seg_end]. *)
Definition seg_start (clen n i : Z) : Z := i * (clen / n).
Definition seg_end (clen n i : Z) : Z := if i =? n - 1 then clen else (i + 1) * (clen / n).

Lemma seg_order clen n i : 0 <= clen -> 0 <= i < n -> 0 <= seg_start clen n i <= seg_end clen n i /\ seg_end clen n i <= clen.
Proof.
  intros Hc Hi. unfold seg_start, seg_end. pose proof (Z.div_pos clen n ltac:(lia) ltac:(lia)) as Hq.
  pose proof (Z.mul_div_le clen n ltac:(lia)) as Hm. destruct (Z.eqb_spec i (n - 1)); nia.
Qed.
(** Every byte belongs to exactly one thread. *)
Lemma segments_tile clen n p : 0 < n -> 0 <= p < clen ->
  exists i, 0 <= i < n /\ seg_start clen n i <= p < seg_end clen n i /\
    forall j, 0 <= j < n -> seg_start clen n j <= p < seg_end clen n j -> j = i.
Proof.
  intros Hn Hp. set (q := clen / n). pose proof (Z.div_pos clen n ltac:(lia) ltac:(lia)) as Hq. fold q in Hq.
  pose proof (Z.mul_div_le clen n ltac:(lia)) as Hm. fold q in Hm. unfold seg_start, seg_end. fold q.
  destruct (decide (q = 0)) as [E|E].
  - rewrite E. exists (n - 1). split; [lia|]. rewrite Z.eqb_refl. split; [lia|]. intros j Hj. destruct (Z.eqb_spec j (n - 1)); lia.
  - pose proof (Z.div_mod p q ltac:(lia)). pose proof (Z.mod_pos_bound p q ltac:(lia)). pose proof (Z.div_pos p q ltac:(lia) ltac:(lia)).
    exists (Z.min (p / q) (n - 1)). split; [lia|]. split.
    + destruct (Z.eqb_spec (Z.min (p / q) (n - 1)) (n - 1)); nia.
    + intros j Hj. destruct (Z.eqb_spec j (n - 1)) as [->|]; intros Hb.
      * assert (n - 1 <= p / q) by (apply Z.div_le_lower_bound; lia). lia.
      * assert (j = p / q) by (apply (Z.div_unique p q j (p - q * j)); lia). lia.
Qed.

(** What a set-up loop leaves when its body answers [f]. *)
Fixpoint plans (f : Z -> thread_data -> thread_data) (i : Z) (wthread : list thread_data) : list thread_data :=
  match wthread with [] => [] | td :: wthread => f i td :: plans f (i + 1) wthread end.
Lemma plans_length f i wt : length (plans f i wt) = length wt.
Proof. revert i. induction wt; intros i; simpl; congruence. Qed.
Lemma plans_lookup f i wt k : plans f i wt !! k = f (i + Z.of_nat k) <$> wt !! k.
Proof.
  revert i k. induction wt as [|td wt IH]; intros i [|k]; simpl; [done..|by rewrite Z.add_0_r|].
  rewrite IH. f_equal. f_equal. lia.
Qed.

Lemma setup_loop_plans body f pre wt :
  (forall i td, zlen pre <= i < zlen pre + zlen wt -> body i td = Some (f i td)) ->
  setup_loop body (length wt) (zlen pre) (pre ++ wt) = Some (pre ++ plans f (zlen pre) wt).
Proof.
  revert pre. induction wt as [|td wt IH]; intros pre Hb; cbn [setup_loop length plans]; [done|].
  assert (znth (pre ++ td :: wt) (zlen pre) = Some td) as -> by (rewrite znth_nat; by apply list_lookup_middle).
  destruct (Z.eqb_spec (Z.lor (status td) STAT_OK) 0) as [E|_]; [apply Z.lor_eq_0_iff in E as [_ E]; done|]. cbn [negb].
  rewrite Hb by (cbn [length]; lia). rewrite zset_middle.
  specialize (IH (pre ++ [f (zlen pre) td])). rewrite length_app in IH. cbn [length] in IH. rewrite <- !app_assoc in IH.
  cbn [Datatypes.app] in IH. replace (Z.of_nat (length pre + 1)) with (zlen pre + 1) in IH by lia.
  apply IH. intros i td' Hi. apply Hb. cbn [length]. lia.
Qed.
Corollary setup_all body f n wt : zlen wt = n -> (forall i td, 0 <= i < n -> body i td = Some (f i td)) ->
  setup_loop body (Z.to_nat n) 0 wt = Some (plans f 0 wt).
Proof. intros <- Hb. rewrite Nat2Z.id. apply (setup_loop_plans body f []). simpl. intros. apply Hb. lia. Qed.

Section Setup.
Variables (show_ld : Z -> list Z) (url host : list Z) (clen n : Z).

(** The records the two loops are to make. *)
Definition planned (i : Z) (td : thread_data) : thread_data :=
  mkThread (get_request show_ld url host (seg_start clen n i)) (seg_start clen n i) (seg_end clen n i) (seg_start clen n i) clen (status td).
Definition resumed (i : Z) (td : thread_data) : thread_data :=
  mkThread (get_request show_ld url host (offset td)) (offset td) (foffset td) (offset td) (clength td) (status td).

Lemma setup_thread_planned i td : 0 < n -> 0 <= clen -> setup_thread show_ld url host clen n i td = Some (planned i td).
Proof.
  intros Hn Hc. unfold setup_thread, calc_offset. destruct (Z.eqb_spec n 0); [lia|]. by rewrite Z.quot_div_nonneg by lia.
Qed.
End Setup.

(** ** What a thread writes *)

Section Content.
(** The file on the server. *)
Variable content : Z -> Z.

Definition agrees (w : write) : Prop := forall k b, snd w !! k = Some b -> b = content (fst w + Z.of_nat k).
Definition inside (lo hi : Z) (w : write) : Prop := lo <= fst w /\ fst w + zlen (snd w) <= hi.
Definition covers (p : Z) (w : write) : Prop := fst w <= p < fst w + zlen (snd w).

(** [d] is the file from [off] on. *)
Definition served (off : Z) (d : list Z) : Prop := forall k b, d !! k = Some b -> b = content (off + Z.of_nat k).
Lemma served_app off d1 d2 : served off (d1 ++ d2) <-> served off d1 /\ served (off + zlen d1) d2.
Proof.
  split.
  - intros Hs. split; intros k b Hk.
    + apply Hs. by rewrite lookup_app_l by (by eapply lookup_lt_Some).
    + replace (off + zlen d1 + Z.of_nat k) with (off + Z.of_nat (length d1 + k)) by lia. apply Hs.
      rewrite lookup_app_r by lia. by replace (length d1 + k - length d1)%nat with k by lia.
  - intros [H1 H2] k b Hk. apply lookup_app_Some in Hk as [Hk|[Hge Hk]]; [by apply H1|].
    apply H2 in Hk as ->. f_equal. lia.
Qed.
Lemma served_take off d k : served off d -> served off (take k d).
Proof. intros Hs j b Hj. apply lookup_take_Some in Hj as [Hj _]. by apply Hs. Qed.

(** [ws] are correct writes that fill exactly [lo .. hi]. *)
Definition fills (lo hi : Z) (ws : list write) : Prop :=
  Forall (fun w => agrees w /\ inside lo hi w) ws /\ forall p, lo <= p < hi -> Exists (covers p) ws.

Lemma fills_one off d : served off d -> fills off (off + zlen d) [(off, d)].
Proof.
  intros Hs. split; [apply Forall_singleton; split; [exact Hs|split; simpl; lia]|].
  intros p Hp. apply Exists_cons. left. done.
Qed.
Lemma fills_app lo mid hi ws1 ws2 : lo <= mid <= hi -> fills lo mid ws1 -> fills mid hi ws2 -> fills lo hi (ws1 ++ ws2).
Proof.
  intros Hm [F1 C1] [F2 C2]. split.
  - apply Forall_app. split; (eapply Forall_impl; [eassumption|]); intros w [? [? ?]]; (split; [done|split; lia]).
  - intros p Hp. apply Exists_app. destruct (decide (p < mid)); [left; apply C1|right; apply C2]; lia.
Qed.

Lemma pwrite_all data count off : 0 <= count -> pwrite [] data count off = (count, [(off, take (Z.to_nat count) data)]).
Proof. intros H. unfold pwrite. cbn [head default]. rewrite Z.min_id. by destruct (Z.ltb_spec count 0); [lia|]. Qed.
Lemma get_loop_fills chunks td ws written : Forall (fun d => d <> []) chunks -> served (offset td) (concat chunks) ->
  0 <= foffset td - offset td <= zlen (concat chunks) ->
  exists ws', get_loop true (Some <$> chunks) [] (foffset td) td ws written =
      ThreadExit (set_ok (set_offset (foffset td) td)) (ws ++ ws') (written + (foffset td - offset td)) /\
    fills (offset td) (foffset td) ws'.
Proof.
  assert (forall td ws written rs, offset td = foffset td -> exists ws', get_loop true rs [] (foffset td) td ws written =
      ThreadExit (set_ok (set_offset (foffset td) td)) (ws ++ ws') (written + (foffset td - offset td)) /\
      fills (offset td) (foffset td) ws') as Hdone.
  { clear. intros td ws written rs E. exists []. rewrite app_nil_r.
    assert (get_loop true rs [] (foffset td) td ws written = ThreadExit (set_ok td) ws written) as ->.
    { destruct rs; simpl; rewrite E, Z.ltb_irrefl, Z.eqb_refl; done. }
    split; [|split; [done|intros; lia]]. f_equal; [|lia]. unfold set_ok, set_offset. simpl. by rewrite <- E. }
  revert td ws written. induction chunks as [|d chunks IH]; intros td ws written Hne Hs Hl.
  { apply Hdone. simpl in Hl. lia. }
  destruct (decide (offset td = foffset td)) as [E|E]; [by apply Hdone|].
  apply Forall_cons in Hne as [Hd Hne]. cbn [concat] in Hs. apply served_app in Hs as [Hs1 Hs2].
  cbn [fmap list_fmap get_loop]. destruct (Z.ltb_spec (offset td) (foffset td)); [|lia].
  assert (0 < zlen d) as Hdl by (destruct d; [done|simpl; lia]). cbn [concat] in Hl. rewrite length_app in Hl.
  destruct (Z.ltb_spec (foffset td) (offset td + zlen d)) as [Hlast|Hmore]; rewrite pwrite_all by lia; cbn [negb tail].
  - set (td' := set_offset (offset td + (foffset td - offset td)) td).
    destruct (Hdone td' (ws ++ [(offset td, take (Z.to_nat (foffset td - offset td)) d)]) (written + (foffset td - offset td)) (Some <$> chunks))
      as (ws' & Eg & _); [unfold td'; simpl; lia|].
    assert (get_loop true (Some <$> chunks) [] (foffset td) td' (ws ++ [(offset td, take (Z.to_nat (foffset td - offset td)) d)])
      (written + (foffset td - offset td)) = ThreadExit (set_ok td') (ws ++ [(offset td, take (Z.to_nat (foffset td - offset td)) d)])
      (written + (foffset td - offset td))) as Eg'.
    { unfold td'. destruct (Some <$> chunks) eqn:Ec; cbn [get_loop offset set_offset foffset];
        (destruct (Z.ltb_spec (offset td + (foffset td - offset td)) (foffset td)); [lia|]);
        (destruct (Z.eqb_spec (offset td + (foffset td - offset td)) (foffset td)); [done|lia]). }
    rewrite Eg'. eexists. split; [unfold td'; do 3 f_equal; lia|].
    pose proof (fills_one (offset td) _ (served_take _ d (Z.to_nat (foffset td - offset td)) Hs1)) as Hf.
    rewrite length_take in Hf. replace (offset td + Z.of_nat (Z.to_nat (foffset td - offset td) `min` length d)) with (foffset td) in Hf by lia. exact Hf.
  - rewrite take_ge by lia.
    destruct (IH (set_offset (offset td + zlen d) td) (ws ++ [(offset td, d)]) (written + zlen d)) as (ws' & Eg & Hf); [done|done|simpl; lia|].
    cbn [foffset set_offset] in Eg. rewrite Eg. cbn [offset set_offset foffset] in Hf |- *. exists ([(offset td, d)] ++ ws'). split.
    + rewrite <- app_assoc. unfold set_ok, set_offset. simpl. f_equal. lia.
    + eapply fills_app; [|by apply fills_one|exact Hf]. lia.
Qed.

Lemma header_end_bound k rbuf s i : header_end k rbuf s = Some i -> s <= i <= s + Z.of_nat k.
Proof.
  revert s. induction k as [|k IH]; intros s Hh; cbn [header_end] in Hh; [injection Hh as <-; lia|].
  destruct (znth rbuf s) as [c|]; [|done].
  repeat (match type of Hh with
          | context [if ?b then _ else _] => destruct b
          | context [match znth ?l ?j with _ => _ end] => destruct (znth l j); [|done]
          end; try (apply IH in Hh; lia)). injection Hh as <-. lia.
Qed.

(** A server that sends thread [td] its part: an answer 206 whose headers end within the
    first [recv], where no more than the part follows them, and then non-empty pieces; the
    file takes all of them. *)
Record serves (td : thread_data) (sv : server) : Prop := {
  sv_up : socket_ok sv && connect_ok sv && send_ok sv = true;
  sv_data : exists rbuf chunks i, recvs sv = Some rbuf :: (Some <$> chunks) /\
    handleHttpRetcode (c_string rbuf) = true /\ strstr (c_string rbuf) (text "HTTP/1.1 206") = true /\
    header_end (length rbuf) rbuf 0 = Some i /\ Forall (fun d => d <> []) chunks /\
    zlen rbuf - i <= foffset td - soffset td /\
    served (soffset td) (drop (Z.to_nat i) rbuf ++ concat chunks) /\
    foffset td - soffset td <= zlen (drop (Z.to_nat i) rbuf ++ concat chunks);
  sv_file : pwrites sv = []
}.

Lemma http_get_fills td sv : 0 <= soffset td <= foffset td -> offset td = soffset td -> (soffset td < foffset td -> serves td sv) ->
  exists td' ws, http_get true sv td = Some (ThreadExit td' ws (foffset td - soffset td)) /\ status td' = STAT_OK /\
    fills (soffset td) (foffset td) ws.
Proof.
  intros Ho Hoff Hsv. unfold http_get. destruct (Z.ltb_spec (soffset td) 0); [lia|]. cbn [orb].
  destruct (Z.leb_spec (foffset td) (soffset td)) as [Hle|Hlt].
  { eexists _, []. split; [do 2 f_equal; lia|]. split; [done|]. split; [done|intros; lia]. }
  destruct (Hsv Hlt) as [Hup (rbuf & chunks & i & Er & Hh & H2 & Hi & Hne & Hfit & Hs & Hl) Hpw]. rewrite Hup, Er, Hh, H2, Hi, Hpw. cbn [negb tail].
  pose proof (header_end_bound _ _ _ _ Hi) as Hib. rewrite length_app, length_drop in Hl. apply served_app in Hs as [Hs1 Hs2].
  destruct (Z.ltb_spec (foffset td) (zlen rbuf - i)); [lia|]. rewrite pwrite_all by lia.
  rewrite take_ge by (rewrite length_drop; lia). assert (zlen (drop (Z.to_nat i) rbuf) = zlen rbuf - i) as Hdl by (rewrite length_drop; lia).
  rewrite Hdl in Hs2.
  destruct (get_loop_fills chunks (set_offset (soffset td + (zlen rbuf - i)) td) [(soffset td, drop (Z.to_nat i) rbuf)] (zlen rbuf - i))
    as (ws' & Eg & Hf); [done|done|simpl; lia|].
  cbn [foffset set_offset] in Eg. rewrite Eg. eexists _, _. split; [do 2 f_equal; simpl; lia|]. split; [done|].
  apply (fills_app _ (soffset td + (zlen rbuf - i))); [simpl; lia|rewrite <- Hdl; by apply fills_one|exact Hf].
Qed.

(** Without an initialised mutex the first piece ends the process. *)
Lemma http_get_aborts td sv : 0 <= soffset td < foffset td -> serves td sv -> http_get false sv td = Some ProcessAbort.
Proof.
  intros Ho [Hup (rbuf & chunks & i & Er & Hh & H2 & Hi & _) _]. unfold http_get. destruct (Z.ltb_spec (soffset td) 0); [lia|].
  destruct (Z.leb_spec (foffset td) (soffset td)); [lia|]. cbn [orb]. rewrite Hup, Er, Hh, H2, Hi. cbn [negb]. by destruct (if foffset td <? _ then _ else _).
Qed.
(** Nothing to load. *)
Lemma http_get_done inited td sv : foffset td <= soffset td -> http_get inited sv td = Some (ThreadExit (set_ok td) [] 0).
Proof. intros H. unfold http_get. destruct (Z.leb_spec (foffset td) (soffset td)); [|lia]. by rewrite orb_true_r. Qed.

(** ** The file *)

Definition write_at (f : Z -> Z) (w : write) : Z -> Z :=
  fun p => match znth (snd w) (p - fst w) with Some b => b | None => f p end.

Lemma write_at_agrees f w p : agrees w -> (f p = content p \/ covers p w) -> write_at f w p = content p.
Proof.
  intros Ha Hp. unfold write_at. destruct (znth (snd w) (p - fst w)) as [b|] eqn:E.
  - unfold znth in E. destruct (Z.ltb_spec (p - fst w) 0); [done|]. apply Ha in E as ->. f_equal. lia.
  - destruct Hp as [|Hc]; [done|]. unfold covers in Hc. destruct (znth_Some (snd w) (p - fst w)) as [b Hb]; [lia|]. by rewrite E in Hb.
Qed.
Lemma writes_agree f ws p : Forall agrees ws -> (f p = content p \/ Exists (covers p) ws) -> foldl write_at f ws p = content p.
Proof.
  intros Ha. revert f. induction Ha as [|w ws Hw _ IH]; intros f Hp; simpl.
  { destruct Hp as [|Hp]; [done|by apply Exists_nil in Hp]. }
  apply IH. destruct Hp as [Hp|Hp]; [left; apply write_at_agrees; auto|]. apply Exists_cons in Hp as [Hp|Hp]; [left; apply write_at_agrees; auto|by right].
Qed.
End Content.

(** ** The whole download *)

Section Download.
Variable content : Z -> Z.

(** A thread that ends with its part written. *)
Definition succeeds (get : thread_data -> option ending) (td : thread_data) : Prop :=
  exists td' ws, get td = Some (ThreadExit td' ws (foffset td - soffset td)) /\ status td' = STAT_OK /\
    fills content (soffset td) (foffset td) ws.

(** A record a thread can start from, and its server. *)
Definition ready (td : thread_data) (sv : server) : Prop :=
  0 <= soffset td <= foffset td /\ offset td = soffset td /\ (soffset td < foffset td -> serves content td sv).

Lemma ready_succeeds td sv : ready td sv -> succeeds (http_get true sv) td.
Proof. intros (Hso & Hoff & Hsv). by apply http_get_fills. Qed.

(** All the threads of a round succeed. *)
Lemma threads_fill get wt i : (forall k td, wt !! k = Some td -> succeeds (get (i + Z.of_nat k)) td) ->
  exists es wt', run_threads get i wt = Some es /\ omap process_end es = [] /\ mapM record_of es = Some wt' /\
    Forall (fun td => status td = STAT_OK) wt' /\ length wt' = length wt /\
    sum_Z (written_of <$> es) = sum_Z ((fun td => foffset td - soffset td) <$> wt) /\
    Forall2 (fun td e => fills content (soffset td) (foffset td) (writes_of e)) wt es.
Proof.
  revert i. induction wt as [|td wt IH]; intros i Hr.
  { exists [], []. do 6 (split; [done|]). constructor. }
  destruct (IH (i + 1)) as (es & wt' & Er & Hx & Em & Hok & Hl & Hsum & Hf).
  { intros k td' Hk. replace (i + 1 + Z.of_nat k) with (i + Z.of_nat (S k)) by lia. by apply Hr. }
  pose proof (Hr 0%nat td eq_refl) as (td' & ws & Eg & Hst & Hfill). rewrite Z.add_0_r in Eg.
  exists (ThreadExit td' ws (foffset td - soffset td) :: es), (td' :: wt'). cbn [run_threads]. rewrite Eg, Er.
  split; [done|]. split; [done|]. split; [cbn [mapM record_of mbind option_bind]; by rewrite Em|].
  split; [by constructor|]. split; [simpl; lia|]. split; [|by constructor].
  rewrite !fmap_cons. unfold sum_Z in *. cbn [foldr written_of]. by rewrite Hsum.
Qed.

Lemma count_all wt : Forall (fun td => status td = STAT_OK) wt -> count_ok wt = zlen wt.
Proof.
  unfold count_ok. intros Hf. f_equal. induction Hf as [|td wt Hs _ IH]; [done|]. rewrite filter_cons_True by done. simpl. lia.
Qed.

(** The round in which every thread succeeds adds [nthreads] to [nok]. *)
Lemma retry_round setup nthreads get rounds nok wt wt1 ws b :
  setup wt = Some wt1 -> (forall k td, wt1 !! k = Some td -> succeeds (get (Z.of_nat k)) td) -> zlen wt1 = nthreads ->
  exists wt' ws', zlen wt' = nthreads /\
    (let b' := (b + sum_Z ((fun td => foffset td - soffset td) <$> wt1)) mod 2 ^ 32 in
     retry setup nthreads (get :: rounds) nok wt ws b =
       if nok + nthreads =? nthreads then Complete wt' (ws ++ ws') b'
       else retry setup nthreads rounds (nok + nthreads) wt' (ws ++ ws') b') /\
    exists wss, ws' = concat wss /\ Forall2 (fun td w => fills content (soffset td) (foffset td) w) wt1 wss.
Proof.
  intros Hs Hr Hl. destruct (threads_fill get wt1 0 Hr) as (es & wt' & Er & Hx & Em & Hok & Hl' & Hsum & Hf).
  exists wt', (concat (writes_of <$> es)). split; [lia|]. split; [|exists (writes_of <$> es); split; [done|by apply Forall2_fmap_r]].
  cbn [retry]. rewrite Hs, Er, Hx, Em, (count_all wt' Hok), Hsum. by replace (zlen wt') with nthreads by lia.
Qed.

(** The writes of a round, whatever order they come in. *)
Lemma round_content wt wss ws f : Forall2 (fun td w => fills content (soffset td) (foffset td) w) wt wss -> ws ≡ₚ concat wss ->
  (forall p, f p = content p \/ Exists (fun td => soffset td <= p < foffset td) wt -> foldl write_at f ws p = content p) /\
  (forall p, ~ Exists (fun td => soffset td <= p < foffset td) wt -> foldl write_at f ws p = f p).
Proof.
  intros Hf Hp. assert (Forall (fun w => agrees content w) (concat wss) /\
    (forall p, Exists (fun td => soffset td <= p < foffset td) wt -> Exists (covers p) (concat wss)) /\
    (forall w, w ∈ concat wss -> Exists (fun td => inside (soffset td) (foffset td) w) wt)) as (Ha & Hcov & Hins).
  { clear Hp. induction Hf as [|td w wt wss [H1 H2] _ (Ha & Hcov & Hins)]; cbn [concat].
    - split; [done|]. split; [intros p Hp; by apply Exists_nil in Hp|]. intros w Hw. by apply elem_of_nil in Hw.
    - split; [apply Forall_app; split; [eapply Forall_impl; [exact H1|]; by intros ? []|done]|]. split.
      + intros p Hp. apply Exists_app. apply Exists_cons in Hp as [Hp|Hp]; [left; by apply H2|right; by apply Hcov].
      + intros w' Hw. apply Exists_cons. apply elem_of_app in Hw as [Hw|Hw]; [left|right; by apply Hins].
        by apply (proj1 (Forall_forall _ _) H1 w') in Hw as []. }
  split.
  - intros p Hpp. apply writes_agree; [by rewrite Hp|]. destruct Hpp as [|Hpp]; [by left|right]. rewrite Hp. by apply Hcov.
  - intros p Hn. assert (Forall (fun w => ~ covers p w) ws) as Hall.
    { apply Forall_forall. intros w Hw Hc. apply Hn. rewrite Hp in Hw. apply Hins in Hw. eapply Exists_impl; [exact Hw|].
      intros td [? ?]. unfold covers in Hc. lia. }
    clear -Hall. revert f. induction Hall as [|w ws Hw _ IH]; intros f; simpl; [done|]. rewrite IH. unfold write_at.
    destruct (znth (snd w) (p - fst w)) eqn:E; [|done]. apply znth_bound in E. exfalso. apply Hw. unfold covers. lia.
Qed.
End Download.

Lemma serves_ext content td td' sv : soffset td = soffset td' -> foffset td = foffset td' ->
  serves content td sv -> serves content td' sv.
Proof. intros E1 E2 [Hup Hd Hw]. split; [done| |done]. by rewrite <- E1, <- E2. Qed.

(** A set-up that divides the bytes. *)
Definition divides (clen n : Z) (f : Z -> thread_data -> thread_data) : Prop :=
  forall i td, soffset (f i td) = seg_start clen n i /\ foffset (f i td) = seg_end clen n i.

Section Round.
Variables (content : Z -> Z) (clen n : Z) (f : Z -> thread_data -> thread_data).
Hypotheses (Hn : 0 < n) (Hc : 0 <= clen) (Hf : divides clen n f).

Lemma sum_segments i wt : i + zlen wt = n -> wt <> [] ->
  sum_Z ((fun td => foffset td - soffset td) <$> plans f i wt) = clen - seg_start clen n i.
Proof.
  revert i. induction wt as [|td wt IH]; intros i Hl He; [done|]. cbn [plans]. rewrite fmap_cons. unfold sum_Z in *. cbn [foldr length] in *.
  destruct (Hf i td) as [-> ->]. destruct wt as [|td' wt].
  - cbn. unfold seg_end. destruct (Z.eqb_spec i (n - 1)); [lia|]. simpl in Hl. lia.
  - rewrite IH by (done || (simpl in *; lia)). unfold seg_end. destruct (Z.eqb_spec i (n - 1)); [simpl in Hl; lia|]. unfold seg_start. nia.
Qed.
Lemma segments_cover wt p : zlen wt = n -> (Exists (fun td => soffset td <= p < foffset td) (plans f 0 wt) <-> 0 <= p < clen).
Proof.
  intros Hl. rewrite Exists_exists. split.
  - intros (td & Hin & Hp). apply list_elem_of_lookup in Hin as [k Hk]. rewrite plans_lookup in Hk. apply fmap_Some in Hk as (td0 & Hk & ->).
    apply lookup_lt_Some in Hk. pose proof (seg_order clen n (Z.of_nat k) Hc ltac:(lia)). destruct (Hf (0 + Z.of_nat k) td0) as [E1 E2].
    rewrite E1, E2, Z.add_0_l in Hp. lia.
  - intros Hp. destruct (segments_tile clen n p Hn Hp) as (i & Hi & Hb & _). destruct (lookup_lt_is_Some_2 wt (Z.to_nat i)) as [td0 Ht]; [lia|].
    exists (f i td0). destruct (Hf i td0) as [-> ->]. split; [|done]. apply list_elem_of_lookup. exists (Z.to_nat i). rewrite plans_lookup, Ht. simpl. do 2 f_equal. lia.
Qed.

(** The first round of a download, when every thread succeeds. *)
Lemma download_round setup get rounds wt0 file : 0 < clen < 2 ^ 31 -> zlen wt0 = n -> setup wt0 = Some (plans f 0 wt0) ->
  (forall k td, plans f 0 wt0 !! k = Some td -> succeeds content (get (Z.of_nat k)) td) ->
  exists wt ws, retry setup n (get :: rounds) 0 wt0 [last_byte clen] 0 = Complete wt (last_byte clen :: ws) clen /\
    forall ws', ws' ≡ₚ ws ->
      (forall p, 0 <= p < clen -> foldl write_at file (last_byte clen :: ws') p = content p) /\
      (forall p, ~ 0 <= p < clen -> foldl write_at file (last_byte clen :: ws') p = file p).
Proof.
  intros Hc2 Hl Hs Hg. destruct (retry_round content setup n get rounds 0 wt0 (plans f 0 wt0) [last_byte clen] 0)
    as (wt & ws & Hlw & Er & wss & Ews & Hfill); [done|done|by rewrite plans_length|].
  cbv zeta in Er. rewrite Er, Z.add_0_l, Z.eqb_refl. rewrite (sum_segments 0 wt0) by (lia || (intros E0; rewrite E0 in Hl; simpl in Hl; lia)).
  exists wt, ws. split; [cbn [Datatypes.app]; f_equal; unfold seg_start; rewrite Z.mod_small; lia|].
  intros ws' Hp. subst ws. destruct (round_content content _ wss ws' (write_at file (last_byte clen)) Hfill Hp) as [H1 H2]. cbn [foldl]. split; intros p Hb.
  - apply H1. right. by apply segments_cover.
  - rewrite H2 by (by rewrite segments_cover). unfold write_at, last_byte, znth. cbn [fst snd].
    destruct (Z.ltb_spec (p - (clen - 1)) 0); [done|]. destruct (Z.to_nat (p - (clen - 1))) eqn:E; [lia|]. by destruct n0.
Qed.
End Round.

Section Segments.
Variables (content : Z -> Z) (show_ld : Z -> list Z) (url host : list Z) (clen n : Z).
Hypotheses (Hn : 0 < n) (Hc : 0 <= clen).
Notation plan := (planned show_ld url host clen n).

(** Every server has its thread's part. *)
Definition all_serve (servers : Z -> server) : Prop :=
  forall i, 0 <= i < n -> seg_start clen n i < seg_end clen n i -> serves content (plan i thread0) (servers i).

Lemma planned_succeed servers wt : all_serve servers -> zlen wt = n ->
  forall k td, plans plan 0 wt !! k = Some td -> succeeds content (http_threads true servers (Z.of_nat k)) td.
Proof.
  intros Hs Hl k td Hk. apply ready_succeeds. rewrite plans_lookup in Hk. apply fmap_Some in Hk as (td0 & Hk & ->). apply lookup_lt_Some in Hk. rewrite Z.add_0_l.
  pose proof (seg_order clen n (Z.of_nat k) Hc ltac:(lia)) as [Hso _]. split; [done|]. split; [done|]. intros Hlt.
  eapply serves_ext; [| |apply (Hs (Z.of_nat k)); [lia|done]]; done.
Qed.
Lemma setup_planned wt : zlen wt = n -> setup_loop (setup_thread show_ld url host clen n) (Z.to_nat n) 0 wt = Some (plans plan 0 wt).
Proof. intros Hl. apply setup_all; [done|]. intros i td _. by apply setup_thread_planned. Qed.

(** Later rounds only make [nok] grow. *)
Lemma retry_forever rounds nok wt ws b : 0 < nok -> zlen wt = n -> Forall all_serve rounds ->
  retry (setup_loop (setup_thread show_ld url host clen n) (Z.to_nat n) 0) n (http_threads true <$> rounds) nok wt ws b = Retrying.
Proof.
  intros Hnok Hl Hr. revert nok wt ws b Hnok Hl. induction Hr as [|servers rounds Hs _ IH]; intros nok wt ws b Hnok Hl; [done|].
  destruct (retry_round content (setup_loop (setup_thread show_ld url host clen n) (Z.to_nat n) 0) n (http_threads true servers) (http_threads true <$> rounds) nok wt (plans plan 0 wt) ws b)
    as (wt' & ws' & Hl' & Er & _); [by apply setup_planned|by apply planned_succeed|by rewrite plans_length|].
  cbv zeta in Er. rewrite fmap_cons, Er. destruct (Z.eqb_spec (nok + n) n); [lia|]. apply IH; lia.
Qed.
End Segments.

Lemma run_threads_length get i wt es : run_threads get i wt = Some es -> length es = length wt.
Proof.
  revert i es. induction wt as [|td wt IH]; intros i es Hr; cbn [run_threads] in Hr; [by injection Hr as <-|].
  destruct (get i td); [|done]. destruct (run_threads get (i + 1) wt) eqn:E; [|done]. injection Hr as <-. simpl. f_equal. by eapply IH.
Qed.

(** A download. Whatever number of threads the user or the size suggests, and whatever
    the memory of their records held, [startHTTP] divides the bytes among them without gap
    or overlap; when every server sends its thread its part (the first piece not more than
    that), the first round is the last one, [bwritten] is exactly the size, and in whatever
    order the threads' writes reach the file, it then holds the content and nothing else of
    it has changed. *)
Lemma download_correct content show_ld fsuggested asked url host clen dk mem servers rounds file n :
  n = choose_nthreads fsuggested asked clen -> 0 < n -> 0 < clen < 2 ^ 31 -> n <= zlen mem ->
  open_file dk = Some true -> seek_ok dk = true -> write_ok dk = true ->
  all_serve content show_ld url host clen n servers ->
  exists wt w ws, startHTTP show_ld fsuggested asked url host clen dk mem (servers :: rounds) = (n, Complete wt (w :: ws) clen) /\
    forall ws', ws' ≡ₚ ws ->
      (forall p, 0 <= p < clen -> foldl write_at file (w :: ws') p = content p) /\
      (forall p, ~ 0 <= p < clen -> foldl write_at file (w :: ws') p = file p).
Proof.
  intros En Hn Hc Hm Ho Hsk Hw Hs. unfold startHTTP. cbv zeta. rewrite <- En, Ho. unfold allocate. rewrite Hsk, Hw. cbn [negb orb].
  destruct (Z.ltb_spec (clen - 1) 0); [lia|]. set (wt0 := take (Z.to_nat n) mem).
  assert (zlen wt0 = n) as Hl by (unfold wt0; rewrite length_take; lia).
  destruct (download_round content clen n (planned show_ld url host clen n) Hn ltac:(lia) ltac:(done)
    (setup_loop (setup_thread show_ld url host clen n) (Z.to_nat n) 0) (http_threads true servers) (http_threads true <$> rounds) wt0 file) as (wt & ws & Er & Hfile);
    [done|done|apply setup_planned; lia|apply planned_succeed; (lia || done)|].
  exists wt, (last_byte clen), ws. by rewrite fmap_cons, Er.
Qed.

(** A download that does not end. [nok] is not set back when the threads are started
    again, so that a first round in which some but not all of the threads succeed is never
    made up for: however often every thread then succeeds, the threads are started again. *)
Lemma partial_failure_never_ends content show_ld fsuggested asked url host clen dk mem first later n es wt :
  n = choose_nthreads fsuggested asked clen -> 0 < n -> 0 < clen -> n <= zlen mem ->
  open_file dk = Some true -> seek_ok dk = true -> write_ok dk = true ->
  run_threads (http_threads true first) 0 (plans (planned show_ld url host clen n) 0 (take (Z.to_nat n) mem)) = Some es ->
  omap process_end es = [] -> mapM record_of es = Some wt -> 0 < count_ok wt < n ->
  Forall (all_serve content show_ld url host clen n) later ->
  snd (startHTTP show_ld fsuggested asked url host clen dk mem (first :: later)) = Retrying.
Proof.
  intros En Hn Hc Hm Ho Hsk Hw Hr Hx Hrec Hk Hl. unfold startHTTP. cbv zeta. rewrite <- En, Ho. unfold allocate. rewrite Hsk, Hw. cbn [negb orb snd].
  destruct (Z.ltb_spec (clen - 1) 0); [lia|]. rewrite fmap_cons. cbn [retry]. rewrite setup_planned by (rewrite ?length_take; lia). rewrite Hr, Hx, Hrec, Z.add_0_l.
  destruct (Z.eqb_spec (count_ok wt) n); [lia|]. apply (retry_forever content); [lia..| |done].
  apply run_threads_length in Hr. rewrite plans_length, length_take in Hr. apply length_mapM in Hrec. lia.
Qed.

(** A round in which the threads with something to load end the process. *)
Lemma run_threads_abort get i wt :
  (forall k td, wt !! k = Some td -> if soffset td <? foffset td then get (i + Z.of_nat k) td = Some ProcessAbort else exists td' ws w, get (i + Z.of_nat k) td = Some (ThreadExit td' ws w)) ->
  exists es, run_threads get i wt = Some es /\ omap process_end es = (fun _ => None) <$> filter (fun td => soffset td < foffset td) wt.
Proof.
  revert i. induction wt as [|td wt IH]; intros i Hg; [by exists []|]. destruct (IH (i + 1)) as (es & Er & Eo).
  { intros k td' Hk. replace (i + 1 + Z.of_nat k) with (i + Z.of_nat (S k)) by lia. by apply Hg. }
  specialize (Hg 0%nat td eq_refl). rewrite Z.add_0_r in Hg. cbn [run_threads]. rewrite Er. destruct (Z.ltb_spec (soffset td) (foffset td)).
  - rewrite Hg. exists (ProcessAbort :: es). split; [done|]. rewrite filter_cons_True, fmap_cons, <- Eo by done. done.
  - destruct Hg as (td' & ws & w & ->). exists (ThreadExit td' ws w :: es). split; [done|]. rewrite filter_cons_False by lia. done.
Qed.
(** The process is aborted, by whichever thread comes first. *)
Definition aborted (o : outcome) : Prop := exists k, o = EndsInThread (replicate (S k) None).
Lemma retry_aborts setup nthreads get rounds nok wt wt1 ws b : setup wt = Some wt1 ->
  (forall k td, wt1 !! k = Some td -> if soffset td <? foffset td then get (Z.of_nat k) td = Some ProcessAbort else exists td' ws w, get (Z.of_nat k) td = Some (ThreadExit td' ws w)) ->
  Exists (fun td => soffset td < foffset td) wt1 -> aborted (retry setup nthreads (get :: rounds) nok wt ws b).
Proof.
  intros Hs Hg Hex. destruct (run_threads_abort get 0 wt1) as (es & Er & Eo); [done|]. cbn [retry]. rewrite Hs, Er.
  assert (exists k, omap process_end es = replicate (S k) None) as [k ->]; [|by exists k].
  rewrite Eo. destruct (filter (fun td => soffset td < foffset td) wt1) as [|td l] eqn:E.
  - apply Exists_exists in Hex as (td & Hin & Hlt). exfalso. apply (not_elem_of_nil td). rewrite <- E. by apply list_elem_of_filter.
  - exists (length l). simpl. f_equal. clear. induction l; simpl; congruence.
Qed.

(** A round in which no thread has anything to load. *)
Lemma retry_idle setup n get rounds wt wt1 ws b : setup wt = Some wt1 ->
  (forall k td, wt1 !! k = Some td -> get (Z.of_nat k) td = Some (ThreadExit (set_ok td) [] 0)) -> zlen wt1 = n ->
  retry setup n (get :: rounds) 0 wt ws b = Complete (set_ok <$> wt1) ws (b mod 2 ^ 32).
Proof.
  intros Hs Hg Hl. assert (forall i l, (forall k td, l !! k = Some td -> get (i + Z.of_nat k) td = Some (ThreadExit (set_ok td) [] 0)) ->
    run_threads get i l = Some ((fun td => ThreadExit (set_ok td) [] 0) <$> l)) as Hrun.
  { intros i l. revert i. induction l as [|td l IH]; intros i H; [done|]. cbn [run_threads]. pose proof (H 0%nat td eq_refl) as H0. rewrite Z.add_0_r in H0. rewrite H0.
    rewrite IH; [done|]. intros k td' Hk. replace (i + 1 + Z.of_nat k) with (i + Z.of_nat (S k)) by lia. by apply H. }
  cbn [retry]. rewrite Hs, (Hrun 0 wt1 Hg). clear Hg Hrun Hs.
  assert (omap process_end ((fun td => ThreadExit (set_ok td) [] 0) <$> wt1) = []) as -> by (clear; by induction wt1).
  assert (mapM record_of ((fun td => ThreadExit (set_ok td) [] 0) <$> wt1) = Some (set_ok <$> wt1)) as ->.
  { apply mapM_Some. clear. induction wt1; constructor; done. }
  rewrite count_all by (apply Forall_fmap, Forall_true; done). rewrite length_fmap, Hl, Z.add_0_l, Z.eqb_refl. f_equal.
  - rewrite <- (app_nil_r ws) at 2. f_equal. clear. by induction wt1.
  - f_equal. assert (sum_Z (written_of <$> ((fun td => ThreadExit (set_ok td) [] 0) <$> wt1)) = 0) as -> by (clear; by induction wt1). lia.
Qed.

(** A resumed download over HTTP: as soon as a server sends something that was missing, the
    process is aborted, because [resumeDownload] does not initialise the mutex. *)
Lemma resume_aborts content show_ld n url host saved written servers rounds :
  0 < n <= zlen saved ->
  (forall i td, 0 <= i < n -> znth saved i = Some td -> 0 <= offset td /\ (offset td < foffset td -> serves content (resumed show_ld url host i td) (servers i))) ->
  (exists i td, 0 <= i < n /\ znth saved i = Some td /\ offset td < foffset td) ->
  aborted (resumeDownload show_ld n url host true saved written (servers :: rounds)).
Proof.
  intros Hn Hsaved (i0 & td0 & Hi0 & Hz0 & Hlt0). unfold resumeDownload. cbn [negb]. rewrite fmap_cons. set (wt0 := take (Z.to_nat n) saved).
  assert (zlen wt0 = n) as Hl by (unfold wt0; rewrite length_take; lia).
  apply (retry_aborts _ _ _ _ _ _ (plans (resumed show_ld url host) 0 wt0)); [by apply setup_all| |].
  - intros k td Hk. rewrite plans_lookup in Hk. apply fmap_Some in Hk as (td1 & Hk & ->). rewrite Z.add_0_l. apply lookup_take_Some in Hk as [Hk Hkn].
    destruct (Hsaved (Z.of_nat k) td1 ltac:(lia)) as [Ho Hsv]; [by rewrite znth_nat|]. destruct (Z.ltb_spec (soffset (resumed show_ld url host (Z.of_nat k) td1)) (foffset (resumed show_ld url host (Z.of_nat k) td1))) as [H|H]; simpl in H.
    + apply (http_get_aborts content); [simpl; lia|by apply Hsv].
    + eexists _, _, _. apply http_get_done. simpl. lia.
  - apply Exists_exists. exists (resumed show_ld url host i0 td0). split; [|simpl; lia]. apply list_elem_of_lookup. exists (Z.to_nat i0). rewrite plans_lookup.
    unfold wt0. rewrite lookup_take_lt by lia. unfold znth in Hz0. destruct (Z.ltb_spec i0 0); [lia|]. rewrite Hz0. simpl. do 2 f_equal.
Qed.

(** [bwritten_mutex] is a zeroed global that only [startHTTP] initialises: the first write
    of a thread that [startFTP] or [resumeDownload] started ends the process. *)
Lemma zeroed_mutex_aborts {C} `{PerfCounter C} E me a k (s : rt C) :
  mutex s a = mutex0 -> run k (det_lock E me a) s = Aborts "det_lock: mutex->id".
Proof. intros Hm. unfold det_lock. cbn [run of_res obind gets]. rewrite Hm. cbn. by rewrite Hm. Qed.

(** A thread whose first [recv] holds more than its part writes into the next one, and does
    not succeed: the test compares with [foffset], not with what is left. *)
Definition crowded : server :=
  mkServer true true true [Some (text "HTTP/1.1 206" ++ CRLF ++ CRLF ++ [1; 2; 3; 4; 5; 6])] [].
Lemma short_segment_overrun : exists td, http_get true crowded (mkThread [] 100 103 100 1000 0) =
  Some (ThreadExit td [(100, [1; 2; 3; 4; 5; 6])] 6) /\ status td = 0.
Proof. eexists. split; [vm_compute; reflexivity|done]. Qed.
(** ** Samples *)

Lemma served_seq content off d : d = content <$> seqZ off (zlen d) -> served content off d.
Proof. intros E k b Hk. rewrite E in Hk. apply list_lookup_fmap_Some in Hk as (j & -> & Hj). apply lookup_seqZ in Hj as [-> _]. done. Qed.

(** Five bytes for two threads; each first [recv] brings one, the next ones the others. *)
Definition sample_content (p : Z) : Z := 65 + p.
Definition sample_header : list Z := text "HTTP/1.1 206" ++ CRLF ++ CRLF.
Definition sample_servers (i : Z) : server :=
  mkServer true true true
    (if i =? 0 then [Some (sample_header ++ [65]); Some [66; 67]]
     else [Some (sample_header ++ [67]); Some [68]; Some [69; 70]]) [].
Definition sample_disk : disk := mkDisk FileExists [120; 121] true true true.

Lemma sample_serves i : 0 <= i < 2 -> serves sample_content (planned (fun _ => [48]) [] [] 5 2 i thread0) (sample_servers i).
Proof.
  intros Hi. split; [by destruct (decide (i = 0)) as [->|]| |done].
  assert (i = 0 \/ i = 1) as [-> | ->] by lia; [exists (sample_header ++ [65]), [[66; 67]], 16|exists (sample_header ++ [67]), [[68]; [69; 70]], 16];
    (split; [reflexivity|]); do 3 (split; [vm_compute; reflexivity|]); (split; [repeat constructor; done|]);
    (split; [vm_compute; done|]); (split; [apply served_seq; vm_compute; reflexivity|vm_compute; done]).
Qed.

Lemma download_correct_witness : exists wt w ws,
  startHTTP (fun _ => [48]) 1 2 [] [] 5 sample_disk (replicate 2 thread0) [sample_servers] = (2, Complete wt (w :: ws) 5) /\
  forall p, 0 <= p < 5 -> foldl write_at (fun _ => 0) (w :: ws) p = sample_content p.
Proof.
  destruct (download_correct sample_content (fun _ => [48]) 1 2 [] [] 5 sample_disk (replicate 2 thread0) sample_servers [] (fun _ => 0) 2)
    as (wt & w & ws & E & Hc); [reflexivity|lia|lia|vm_compute; done|reflexivity..| |].
  - intros i Hi _. by apply sample_serves.
  - exists wt, w, ws. split; [exact E|]. exact (proj1 (Hc ws (Permutation_refl ws))).
Defined.

(** The second server refuses its thread once. *)
Definition refusing_servers (i : Z) : server :=
  if i =? 1 then mkServer true false true [] [] else sample_servers i.
Lemma partial_failure_never_ends_witness :
  snd (startHTTP (fun _ => [48]) 1 2 [] [] 5 sample_disk (replicate 2 thread0) [refusing_servers; sample_servers; sample_servers]) = Retrying.
Proof.
  eapply (partial_failure_never_ends sample_content _ _ _ _ _ _ _ _ _ _ 2); [reflexivity|lia|lia|vm_compute; done|reflexivity..| |].
  - vm_compute. done.
  - apply Forall_forall. intros servers Hin i Hi _. rewrite !elem_of_cons, elem_of_nil in Hin.
    destruct Hin as [-> | [-> | []]]; by apply sample_serves.
Defined.

(** The first thread was complete, the second had written one byte. *)
Definition sample_saved : list thread_data := [mkThread [] 0 2 2 5 255; mkThread [] 2 5 3 5 15].
Definition rest_servers (i : Z) : server := mkServer true true true [Some sample_header; Some [68; 69]] [].
Lemma rest_serves : serves sample_content (resumed (fun _ => [48]) [] [] 1 (mkThread [] 2 5 3 5 15)) (rest_servers 1).
Proof.
  split; [reflexivity| |done]. exists sample_header, [[68; 69]], 16. split; [reflexivity|]. do 3 (split; [vm_compute; reflexivity|]).
  split; [repeat constructor; done|]. split; [vm_compute; done|]. split; [apply served_seq; vm_compute; reflexivity|vm_compute; done].
Qed.
Lemma resume_aborts_witness : aborted (resumeDownload (fun _ => [48]) 2 [] [] true sample_saved 3 [rest_servers]).
Proof.
  apply (resume_aborts sample_content (fun _ => [48]) 2 [] [] sample_saved 3 rest_servers []); [vm_compute; done| |by exists 1, (mkThread [] 2 5 3 5 15)].
  intros i td Hi Ht. assert (i = 0 \/ i = 1) as [-> | ->] by lia; injection Ht as <-; cbn [offset foffset]; (split; [lia|]); [lia|]. intros _. exact rest_serves.
Defined.
End Aget.
