(* ===== verification/Url.v ===== *)
(** [parse_url] and [revstr] of [src/papps/aget-devel/Misc.c]: the request a URL stands for.

    The fields of the request are arrays; an access outside the URL or outside an array, after
    which nothing is certain, is [None]. The number of steps is bounded by the length of the
    URL: every turn of a loop moves on in it, and past its end there is nothing to read. A
    loop that needed more turns would answer [out_of_fuel], which none does. *)
From stdpp Require Import base list strings.
From Stdlib Require Import ZArith Lia.
From S2P Require Import Prelude Aget.

Module Url.
Import Aget.

Definition MAXHOSTSIZ : Z := 1024.
Definition MAXURLSIZ : Z := 1024.
Definition MAXBUFSIZ : Z := 8192.
Definition PROTO_HTTP : Z := 255.
Definition PROTO_FTP : Z := 0.

Record request := mkRequest {
  host : list Z; url : list Z; file : list Z; username : list Z; password : list Z; port : Z; proto : Z
}.
Definition set_host x r := mkRequest x (url r) (file r) (username r) (password r) (port r) (proto r).
Definition set_url x r := mkRequest (host r) x (file r) (username r) (password r) (port r) (proto r).
Definition set_file x r := mkRequest (host r) (url r) x (username r) (password r) (port r) (proto r).
Definition set_username x r := mkRequest (host r) (url r) (file r) x (password r) (port r) (proto r).
Definition set_password x r := mkRequest (host r) (url r) (file r) (username r) x (port r) (proto r).
Definition set_proto po pr r := mkRequest (host r) (url r) (file r) (username r) (password r) po pr.

(** A string with its terminating zero. *)
Definition char_at (s : list Z) (i : Z) : option Z := if i =? zlen s then Some 0 else znth s i.

(** [strlen]; [None] when the array has no zero. *)
Fixpoint strlen (b : list Z) : option Z :=
  match b with
  | [] => None
  | c :: b => if c =? 0 then Some 0 else let? n := strlen b in Some (n + 1)
  end.

(** [for (i = size; i > 0; i--, s++) *s = *(str + i - 1);] *)
Fixpoint rev_loop (i : nat) (str : list Z) : option (list Z) :=
  match i with
  | O => Some []
  | S i => let? c := znth str (Z.of_nat i) in let? p := rev_loop i str in Some (c :: p)
  end.
(** [memset] and [strncpy] replace the [size] characters of the string. *)
Definition revstr (str : list Z) : option (list Z) :=
  let? size := strlen str in
  if size =? 0 then Some str
  else let? p := rev_loop (Z.to_nat size) str in Some (p ++ drop (Z.to_nat size) str).

(** [strncpy(dst, src, n)] *)
Definition strncpy (dst src : list Z) (n : nat) : list Z := take n (src ++ replicate n 0) ++ drop n dst.

(** What stops the program: [exit(code)]. *)
Definition result (A : Type) : Type := option (Z + A).
Definition bind {A B} (m : result A) (f : A -> result B) : result B :=
  match m with None => None | Some (inl e) => Some (inl e) | Some (inr a) => f a end.
Notation "'let!' x := a 'in' b" := (bind a (fun x => b)) (at level 10, x pattern, a at level 100, b at level 200).
(** Not a code: the turns of a loop are used up. *)
Definition out_of_fuel : Z := -1.

(** [while ( *s != '/') { req->username[j++] = *--s; i--; }] *)
Fixpoint user_loop (fuel : nat) (u : list Z) (s i j : Z) (r : request) : result (Z * Z * Z * request) :=
  match fuel with
  | O => Some (inl out_of_fuel)
  | S fuel =>
      let? c := char_at u s in
      if c =? 47 then Some (inr (s, i, j, r))
      else
        let? c := char_at u (s - 1) in
        let? b := zset (username r) j c in
        user_loop fuel u (s - 1) (i - 1) (j + 1) (set_username b r)
  end.

(** [while ( *s != ':') s++;] *)
Fixpoint skip_to (fuel : nat) (u : list Z) (c s : Z) : result Z :=
  match fuel with
  | O => Some (inl out_of_fuel)
  | S fuel => let? d := char_at u s in if d =? c then Some (inr s) else skip_to fuel u c (s + 1)
  end.

(** [while ( *s != '@')] with its check of [k]. *)
Fixpoint pass_loop (fuel : nat) (u : list Z) (s k : Z) (r : request) : result (Z * Z * request) :=
  match fuel with
  | O => Some (inl out_of_fuel)
  | S fuel =>
      let? c := char_at u s in
      if c =? 64 then Some (inr (s, k, r))
      else if MAXBUFSIZ <? k then Some (inl 1)
      else
        let? c := char_at u (s + 1) in
        let? b := zset (password r) k c in
        pass_loop fuel u (s + 1) (k + 1) (set_password b r)
  end.

(** The branch for [:], up to the store into [host]. *)
Definition user_info (u : list Z) (s i j k : Z) (r : request) : result (Z * Z * Z * Z * request) :=
  let fuel := S (length u) in
  let! (s, i, j, r) := user_loop fuel u s i j r in
  let? b := zset (username r) (j - 1) 0 in
  let? b := revstr b in
  let! s := skip_to fuel u 58 s in
  let! (s, k, r) := pass_loop fuel u s k (set_username b r) in
  let? b := zset (password r) (k - 1) 0 in
  Some (inr (s, i, j - 1, k - 1, set_password b r)).

(** [for (i = 0; *s != '/'; i++, s++)] *)
Fixpoint host_loop (fuel : nat) (u : list Z) (s i j k : Z) (r : request) : result (Z * Z * request) :=
  match fuel with
  | O => Some (inl out_of_fuel)
  | S fuel =>
      let? c := char_at u s in
      if c =? 47 then Some (inr (s, i, r))
      else if MAXHOSTSIZ <? i then Some (inl 1)
      else
        let! (s, i, j, k, r) := (if c =? 58 then user_info u s i j k r else Some (inr (s, i, j, k, r))) in
        let? c := char_at u s in
        let? b := zset (host r) i c in
        host_loop fuel u (s + 1) (i + 1) j k (set_host b r)
  end.

(** [for (i = 0; *s != '\0'; i++, s++)] *)
Fixpoint url_loop (fuel : nat) (u : list Z) (s i : Z) (r : request) : result (Z * Z * request) :=
  match fuel with
  | O => Some (inl out_of_fuel)
  | S fuel =>
      let? c := char_at u s in
      if c =? 0 then Some (inr (s, i, r))
      else if MAXURLSIZ <? i then Some (inl 1)
      else let? b := zset (url r) i c in url_loop fuel u (s + 1) (i + 1) (set_url b r)
  end.

(** [for (i = 0; *s != '/'; i++, s--)] *)
Fixpoint file_loop (fuel : nat) (u : list Z) (s i : Z) (r : request) : result (Z * request) :=
  match fuel with
  | O => Some (inl out_of_fuel)
  | S fuel =>
      let? c := char_at u s in
      if c =? 47 then Some (inr (i, r))
      else if MAXBUFSIZ <? i then Some (inl 1)
      else let? b := zset (file r) i c in file_loop fuel u (s - 1) (i + 1) (set_file b r)
  end.

(** The scheme: the port and the protocol, or [exit(1)]. After it the checks that follow in
    the source cannot fail. *)
Definition scheme (u : list Z) (r : request) : Z + request :=
  if starts_with (text "https://") u then inl 1
  else if starts_with (text "ftp://") u then inr (set_proto (if port r =? 0 then 21 else port r) PROTO_FTP r)
  else if starts_with (text "http://") u then inr (set_proto (if port r =? 0 then 80 else port r) PROTO_HTTP r)
  else inl 1.

(** [parse_url]; [anonuser] and [anonpass] are the settings of the rc file. *)
Definition parse_url (anonuser anonpass : list Z) (u : list Z) (r : request) : result request :=
  let fuel := S (length u) in
  let! r := Some (scheme u r) in
  let s := if proto r =? PROTO_HTTP then 7 else 6 in
  let! (s, i, r) := host_loop fuel u s 0 0 0 r in
  let? b := zset (host r) i 0 in
  let! (s, i, r) := url_loop fuel u s 0 (set_host b r) in
  let? b := zset (url r) i 0 in
  let! (i, r) := file_loop fuel u (s - 1) 0 (set_url b r) in
  let? b := zset (file r) i 0 in
  let? b := revstr b in
  let r := set_file b r in
  let? n := strlen (username r) in
  let r := if n <=? 0 then set_username (strncpy (username r) anonuser (Z.to_nat (MAXBUFSIZ - 2))) r else r in
  let? n := strlen (password r) in
  Some (inr (if n <=? 0 then set_password (strncpy (password r) anonpass (Z.to_nat (MAXBUFSIZ - 2))) r else r)).

(** ** Arrays and strings *)

Lemma char_at_middle l1 c l2 : char_at (l1 ++ c :: l2) (zlen l1) = Some c.
Proof.
  unfold char_at. rewrite length_app. cbn [length]. destruct (Z.eqb_spec (zlen l1) (Z.of_nat (length l1 + S (length l2)))); [lia|].
  rewrite znth_nat. by apply list_lookup_middle.
Qed.
Lemma char_at_end l : char_at l (zlen l) = Some 0.
Proof. unfold char_at. by rewrite Z.eqb_refl. Qed.
Lemma drop_cons {A} n (l : list A) : (n < length l)%nat -> exists x, drop n l = x :: drop (S n) l.
Proof. intros Hn. destruct (lookup_lt_is_Some_2 l n Hn) as [x Hx]. exists x. by apply drop_S. Qed.

Definition nonzero : list Z -> Prop := Forall (fun c => c <> 0).
Lemma c_string_app s t : nonzero s -> c_string (s ++ 0 :: t) = s.
Proof. induction 1 as [|c s Hc _ IH]; cbn; [done|]. destruct (Z.eqb_spec c 0); [lia|]. by rewrite IH. Qed.
Lemma strlen_app s t : nonzero s -> strlen (s ++ 0 :: t) = Some (zlen s).
Proof. induction 1 as [|c s Hc _ IH]; cbn [strlen Datatypes.app length]; [done|]. destruct (Z.eqb_spec c 0); [lia|]. rewrite IH. f_equal. lia. Qed.
Lemma rev_loop_rev i str : (i <= length str)%nat -> rev_loop i str = Some (rev (take i str)).
Proof.
  induction i as [|i IH]; intros Hi; cbn [rev_loop]; [done|]. destruct (lookup_lt_is_Some_2 str i) as [c Hc]; [lia|].
  rewrite znth_nat, Hc, IH by lia. by rewrite (take_S_r str i c Hc), rev_app_distr.
Qed.
Lemma revstr_app s t : nonzero s -> revstr (s ++ 0 :: t) = Some (rev s ++ 0 :: t).
Proof.
  intros Hs. unfold revstr. rewrite strlen_app by done. destruct (Z.eqb_spec (zlen s) 0) as [E|E].
  { assert (s = []) as -> by (destruct s; [done|simpl in E; lia]). done. }
  rewrite Nat2Z.id, rev_loop_rev by (rewrite length_app; lia). by rewrite take_app_length, drop_app_length.
Qed.

(** Storing [a] after [h1] into an array. *)
Definition stored (h1 a t : list Z) : list Z := h1 ++ a ++ drop (length a) t.
Lemma zset_stored (h1 : list Z) (c : Z) (t : list Z) : (0 < length t)%nat -> zset (h1 ++ t) (zlen h1) c = Some ((h1 ++ [c]) ++ drop 1 t).
Proof. intros Ht. destruct t as [|x t]; [simpl in Ht; lia|]. rewrite zset_middle. by rewrite <- app_assoc. Qed.
Lemma stored_cons h1 c a t : (0 < length t)%nat -> stored (h1 ++ [c]) a (drop 1 t) = stored h1 (c :: a) t.
Proof. intros. unfold stored. rewrite <- app_assoc. cbn [Datatypes.app length]. by rewrite drop_drop. Qed.

Definition plain : list Z -> Prop := Forall (fun c => c <> 0 /\ c <> 47 /\ c <> 58).

Lemma host_loop_plain fuel u pre h1 h2 t rest j k r : u = pre ++ h2 ++ 47 :: rest -> plain h2 ->
  host r = h1 ++ t -> (length h2 <= length t)%nat -> zlen h1 + zlen h2 <= MAXHOSTSIZ -> (length h2 < fuel)%nat ->
  host_loop fuel u (zlen pre) (zlen h1) j k r =
    Some (inr (zlen pre + zlen h2, zlen h1 + zlen h2, set_host (stored h1 h2 t) r)).
Proof.
  revert fuel pre h1 t r. induction h2 as [|c h2 IH]; intros fuel pre h1 t r Hu Hp Hr Ht Hm Hf; (destruct fuel as [|fuel]; [simpl in Hf; lia|]); cbn [host_loop].
  { rewrite Hu. cbn [Datatypes.app]. rewrite char_at_middle. change (stored h1 [] t) with (h1 ++ t). rewrite <- Hr. cbn [length]. rewrite !Z.add_0_r. by destruct r. }
  apply Forall_cons in Hp as [(Hc0 & Hc1 & Hc2) Hp]. cbn [length] in *.
  assert (char_at u (zlen pre) = Some c) as Hch by (rewrite Hu; apply char_at_middle). rewrite Hch.
  destruct (Z.eqb_spec c 47), (Z.ltb_spec MAXHOSTSIZ (zlen h1)), (Z.eqb_spec c 58); try lia. cbn [bind]. rewrite Hch, Hr, zset_stored by lia.
  specialize (IH fuel (pre ++ [c]) (h1 ++ [c]) (drop 1 t) (set_host ((h1 ++ [c]) ++ drop 1 t) r)). rewrite !length_app in IH. cbn [length] in IH.
  replace (Z.of_nat (length pre + 1)) with (zlen pre + 1) in IH by lia. replace (Z.of_nat (length h1 + 1)) with (zlen h1 + 1) in IH by lia.
  rewrite IH; [|rewrite <- app_assoc; exact Hu|done|done|rewrite length_drop; lia|lia|lia].
  rewrite stored_cons by lia. do 3 f_equal. f_equal; lia.
Qed.

Lemma url_loop_plain fuel u pre h1 a t r : u = pre ++ a -> nonzero a ->
  url r = h1 ++ t -> (length a <= length t)%nat -> zlen h1 + zlen a <= MAXURLSIZ -> (length a < fuel)%nat ->
  url_loop fuel u (zlen pre) (zlen h1) r = Some (inr (zlen pre + zlen a, zlen h1 + zlen a, set_url (stored h1 a t) r)).
Proof.
  intros ->. revert fuel pre h1 t r. induction a as [|c a IH]; intros fuel pre h1 t r Hp Hr Ht Hm Hf; (destruct fuel as [|fuel]; [simpl in Hf; lia|]); cbn [url_loop].
  { rewrite app_nil_r, char_at_end. change (stored h1 [] t) with (h1 ++ t). rewrite <- Hr. cbn [length]. rewrite !Z.add_0_r. by destruct r. }
  apply Forall_cons in Hp as [Hc Hp]. cbn [length] in *. rewrite char_at_middle.
  destruct (Z.eqb_spec c 0), (Z.ltb_spec MAXURLSIZ (zlen h1)); try lia. rewrite Hr, zset_stored by lia.
  specialize (IH fuel (pre ++ [c]) (h1 ++ [c]) (drop 1 t) (set_url ((h1 ++ [c]) ++ drop 1 t) r)). rewrite !length_app in IH. cbn [length] in IH.
  replace (Z.of_nat (length pre + 1)) with (zlen pre + 1) in IH by lia. replace (Z.of_nat (length h1 + 1)) with (zlen h1 + 1) in IH by lia.
  replace (pre ++ c :: a) with ((pre ++ [c]) ++ a) by (by rewrite <- app_assoc). rewrite IH; [|done|done|rewrite length_drop; lia|lia|lia].
  rewrite stored_cons by lia. do 3 f_equal. f_equal; lia.
Qed.

Lemma file_loop_plain fuel u pre a post f1 t r : u = pre ++ 47 :: rev a ++ post -> Forall (fun c => c <> 47) a ->
  file r = f1 ++ t -> (length a <= length t)%nat -> zlen f1 + zlen a <= MAXBUFSIZ -> (length a < fuel)%nat ->
  file_loop fuel u (zlen pre + zlen a) (zlen f1) r = Some (inr (zlen f1 + zlen a, set_file (stored f1 a t) r)).
Proof.
  intros ->. revert fuel post f1 t r. induction a as [|c a IH]; intros fuel post f1 t r Hp Hr Ht Hm Hf; (destruct fuel as [|fuel]; [simpl in Hf; lia|]); cbn [file_loop].
  { cbn [rev length Datatypes.app]. rewrite !Z.add_0_r, char_at_middle. change (stored f1 [] t) with (f1 ++ t). rewrite <- Hr. by destruct r. }
  apply Forall_cons in Hp as [Hc Hp]. cbn [length rev] in *.
  replace (pre ++ 47 :: (rev a ++ [c]) ++ post) with ((pre ++ 47 :: rev a) ++ c :: post) by (rewrite <- !app_assoc; done).
  replace (zlen pre + Z.of_nat (S (length a))) with (zlen (pre ++ 47 :: rev a)) by (rewrite length_app; cbn [length]; rewrite length_rev; lia).
  rewrite char_at_middle. destruct (Z.eqb_spec c 47), (Z.ltb_spec MAXBUFSIZ (zlen f1)); try lia. rewrite Hr, zset_stored by lia.
  specialize (IH fuel (c :: post) (f1 ++ [c]) (drop 1 t) (set_file ((f1 ++ [c]) ++ drop 1 t) r)). rewrite length_app in IH. cbn [length] in IH.
  replace ((pre ++ 47 :: rev a) ++ c :: post) with (pre ++ 47 :: rev a ++ c :: post) by (rewrite <- app_assoc; done).
  replace (zlen (pre ++ 47 :: rev a) - 1) with (zlen pre + zlen a) by (rewrite length_app; cbn [length]; rewrite length_rev; lia).
  replace (Z.of_nat (length f1 + 1)) with (zlen f1 + 1) in IH by lia.
  rewrite IH; [|done|done|rewrite length_drop; lia|lia|lia]. rewrite stored_cons by lia. do 3 f_equal. lia.
Qed.

(** ** What a URL stands for *)

Definition scheme_of (ftp : bool) : list Z := if ftp then text "ftp://" else text "http://".

(** A URL without user information. The host is what stands between the scheme and the
    first slash, the path the rest, and the local file name what follows the last slash;
    the port is the one asked for or the scheme's, and user and password are those of the
    rc file unless the request has some. *)
Lemma parse_url_plain anonuser anonpass ftp h dir base r nu np :
  plain h -> nonzero dir -> nonzero base -> Forall (fun c => c <> 47) base ->
  (dir = [] \/ exists d, dir = 47 :: d) ->
  zlen h < MAXHOSTSIZ -> zlen (dir ++ 47 :: base) < MAXURLSIZ ->
  zlen (host r) = MAXHOSTSIZ -> zlen (url r) = MAXURLSIZ -> zlen (file r) = MAXBUFSIZ ->
  strlen (username r) = Some nu -> strlen (password r) = Some np ->
  exists r', parse_url anonuser anonpass (scheme_of ftp ++ h ++ dir ++ 47 :: base) r = Some (inr r') /\
    c_string (host r') = h /\ c_string (url r') = dir ++ 47 :: base /\ c_string (file r') = base /\
    proto r' = (if ftp then PROTO_FTP else PROTO_HTTP) /\
    port r' = (if port r =? 0 then if ftp then 21 else 80 else port r) /\
    username r' = (if nu <=? 0 then strncpy (username r) anonuser (Z.to_nat (MAXBUFSIZ - 2)) else username r) /\
    password r' = (if np <=? 0 then strncpy (password r) anonpass (Z.to_nat (MAXBUFSIZ - 2)) else password r) /\
    zlen (host r') = zlen (host r) /\ zlen (url r') = zlen (url r) /\ zlen (file r') = zlen (file r).
Proof.
  intros Hh Hd Hb Hs Hdir Lh Lp Bh Bu Bf Hnu Hnp. set (path := dir ++ 47 :: base) in *. set (u := scheme_of ftp ++ h ++ path).
  assert (exists rest, path = 47 :: rest) as [rest Ep] by (unfold path; destruct Hdir as [-> | [d ->]]; eexists; done).
  assert (nonzero path) as Hnz by (apply Forall_app; split; [done|by constructor]).
  assert (nonzero h) as Hhz by (eapply Forall_impl; [exact Hh|]; by intros c []).
  unfold MAXHOSTSIZ, MAXURLSIZ, MAXBUFSIZ in *. set (po := if port r =? 0 then if ftp then 21 else 80 else port r).
  set (pr := if ftp then PROTO_FTP else PROTO_HTTP). unfold parse_url.
  assert (scheme u r = inr (set_proto po pr r)) as -> by (unfold u, po, pr; destruct ftp; reflexivity). cbn [bind].
  assert ((if proto (set_proto po pr r) =? PROTO_HTTP then 7 else 6) = zlen (scheme_of ftp)) as -> by (unfold pr; destruct ftp; reflexivity).
  assert (length u = length (scheme_of ftp) + (length h + length path))%nat as Lu by (unfold u; by rewrite !length_app).
  rewrite (host_loop_plain _ u (scheme_of ftp) [] h (host r) rest) by (done || (unfold u; by rewrite <- Ep) || (cbn [length]; unfold MAXHOSTSIZ; lia)).
  cbn [bind host set_host length]. unfold stored. cbn [Datatypes.app]. rewrite Z.add_0_l.
  destruct (drop_cons (length h) (host r)) as [x ->]; [lia|]. rewrite zset_middle.
  replace (zlen (scheme_of ftp) + zlen h) with (zlen (scheme_of ftp ++ h)) by (rewrite length_app; lia).
  assert (u = (scheme_of ftp ++ h) ++ path) as Eu by (unfold u; by rewrite <- app_assoc).
  rewrite (url_loop_plain _ u _ [] path (url r) _ Eu) by (done || (cbn [length]; unfold MAXURLSIZ; lia)).
  cbn [bind url set_url set_host length]. unfold stored. cbn [Datatypes.app]. rewrite Z.add_0_l.
  destruct (drop_cons (length path) (url r)) as [y ->]; [lia|]. rewrite zset_middle.
  assert (u = ((scheme_of ftp ++ h) ++ dir) ++ 47 :: rev (rev base) ++ []) as Eu'.
  { rewrite rev_involutive, app_nil_r, Eu. unfold path. by rewrite <- !app_assoc. }
  assert (length base < length path)%nat by (unfold path; rewrite length_app; cbn [length]; lia).
  replace (zlen (scheme_of ftp ++ h) + zlen path - 1) with (zlen ((scheme_of ftp ++ h) ++ dir) + zlen (rev base))
    by (unfold path; rewrite length_rev, !length_app; cbn [length]; lia).
  rewrite (file_loop_plain _ u _ _ _ [] (file r) _ Eu') by (done || (by apply Forall_rev) || (rewrite ?length_rev; cbn [length]; unfold MAXBUFSIZ; lia)).
  cbn [bind file set_file set_url length]. unfold stored. cbn [Datatypes.app]. rewrite Z.add_0_l.
  destruct (drop_cons (length (rev base)) (file r)) as [z ->]; [rewrite length_rev; lia|]. rewrite zset_middle, revstr_app by (by apply Forall_rev).
  cbn [username set_file set_url set_host set_proto]. rewrite Hnu. cbv zeta.
  destruct (nu <=? 0); cbn [password set_username set_file set_url set_host set_proto]; rewrite Hnp; (destruct (np <=? 0); (eexists; split; [reflexivity|]); cbn [host url file username password proto port set_host set_url set_file set_username set_password set_proto];
    rewrite ?rev_involutive, !c_string_app by done; split_and!; try done; rewrite length_app; cbn [length]; rewrite length_drop, ?length_rev; lia).
Qed.

(** ** A colon before the first slash *)

Lemma char_at_bound u s c : char_at u s = Some c -> 0 <= s <= zlen u.
Proof. unfold char_at. destruct (Z.eqb_spec s (zlen u)); [lia|]. intros H. apply znth_bound in H. lia. Qed.
(** The name is copied backwards, up to a slash that is there. *)
Lemma user_loop_back fuel u s i j r p0 : char_at u p0 = Some 47 -> p0 <= s -> s - p0 < Z.of_nat fuel ->
  match user_loop fuel u s i j r with
  | None => True
  | Some (inl _) => False
  | Some (inr (s', i', _, r')) => i' = i - (s - s') /\ p0 <= s' <= s /\ char_at u s' = Some 47 /\ password r' = password r
  end.
Proof.
  intros Hp. revert s i j r. induction fuel as [|fuel IH]; intros s i j r Hs Hf; [lia|]. cbn [user_loop].
  destruct (char_at u s) as [c|] eqn:Ec; [|done]. destruct (Z.eqb_spec c 47) as [->|Hc]; [split_and!; (done || lia)|].
  destruct (char_at u (s - 1)) as [d|]; [|done]. destruct (zset (username r) j d) as [b|]; [|done].
  assert (s <> p0) by congruence. specialize (IH (s - 1) (i - 1) (j + 1) (set_username b r) ltac:(lia) ltac:(lia)).
  destruct (user_loop fuel u (s - 1) (i - 1) (j + 1) (set_username b r)) as [[e|[[[s' i'] j'] r']]|]; [done| |done].
  destruct IH as (-> & ? & ? & ?). split_and!; (done || lia).
Qed.
Lemma skip_to_ahead fuel u c s p : char_at u p = Some c -> s <= p -> p - s < Z.of_nat fuel ->
  match skip_to fuel u c s with None => True | Some (inl _) => False | Some (inr s') => s <= s' <= p end.
Proof.
  intros Hp. revert s. induction fuel as [|fuel IH]; intros s Hs Hf; [lia|]. cbn [skip_to]. destruct (char_at u s) as [d|] eqn:Ed; [|done].
  destruct (Z.eqb_spec d c) as [->|]; [lia|]. assert (s <> p) by congruence. specialize (IH (s + 1) ltac:(lia) ltac:(lia)).
  destruct (skip_to fuel u c (s + 1)) as [[|]|]; [done|lia|done].
Qed.
Lemma pass_loop_ends fuel u s k r : k <= MAXBUFSIZ -> zlen (password r) = MAXBUFSIZ -> s <= zlen u -> zlen u - s < Z.of_nat fuel ->
  match pass_loop fuel u s k r with Some (inl _) => False | _ => True end.
Proof.
  revert s k r. induction fuel as [|fuel IH]; intros s k r Hk Hl Hs Hf; [lia|]. cbn [pass_loop].
  destruct (char_at u s) as [c|]; [|done]. destruct (c =? 64); [done|]. destruct (Z.ltb_spec MAXBUFSIZ k); [lia|].
  destruct (char_at u (s + 1)) as [d|] eqn:Ed; [|done]. apply char_at_bound in Ed. destruct (zset (password r) k d) as [b|] eqn:Eb; [|done].
  assert (k < MAXBUFSIZ) by (unfold zset in Eb; destruct (Z.ltb_spec k (zlen (password r))); [lia|by rewrite andb_false_r in Eb]).
  apply IH; [lia|by rewrite <- Hl, <- (zset_length _ _ _ _ Eb)|lia|lia].
Qed.

(** [user_info] leaves [i] negative: it has gone back to the scheme's slash. *)
Lemma user_info_negative u lo s i j r : 0 <= i -> lo = s - i -> char_at u s = Some 58 -> char_at u (lo - 1) = Some 47 ->
  (forall p, lo <= p <= s -> char_at u p <> Some 47) -> zlen (password r) = MAXBUFSIZ ->
  match user_info u s i j 0 r with None => True | Some (inl _) => False | Some (inr (_, i', _, _, _)) => i' < 0 end.
Proof.
  intros Hi Hlo Hs58 Hsl Hno Hl. pose proof (char_at_bound _ _ _ Hs58). pose proof (char_at_bound _ _ _ Hsl). unfold user_info.
  pose proof (user_loop_back (S (length u)) u s i j r (lo - 1) Hsl ltac:(lia) ltac:(lia)) as H1.
  destruct (user_loop (S (length u)) u s i j r) as [[e|[[[s1 i1] j1] r1]]|]; [done| |done]. cbn [bind]. destruct H1 as (-> & Hs1 & Hc & Hp).
  assert (s1 < lo) by (destruct (decide (lo <= s1)); [destruct (Hno s1); [lia|done]|lia]).
  destruct (zset (username r1) (j1 - 1) 0) as [b|]; [|done]. destruct (revstr b) as [b'|]; [|done].
  pose proof (skip_to_ahead (S (length u)) u 58 s1 s Hs58 ltac:(lia) ltac:(lia)) as H2. destruct (skip_to (S (length u)) u 58 s1) as [[|s2]|]; [done| |done]. cbn [bind].
  pose proof (pass_loop_ends (S (length u)) u s2 0 (set_username b' r1) ltac:(unfold MAXBUFSIZ; lia) ltac:(cbn; congruence) ltac:(lia) ltac:(lia)) as H3.
  destruct (pass_loop (S (length u)) u s2 0 (set_username b' r1)) as [[e|[[s3 k3] r3]]|]; [done| |done]. cbn [bind]. destruct (zset (password r3) (k3 - 1) 0); [lia|done].
Qed.

(** ** Hosts that cannot be read *)

Lemma zset_bound {A} (l : list A) i x l' : zset l i x = Some l' -> 0 <= i < zlen l.
Proof. unfold zset. destruct (Z.leb_spec 0 i), (Z.ltb_spec i (zlen l)); done || lia. Qed.

Lemma zset_out {A} (l : list A) i x : zlen l <= i -> zset l i x = None.
Proof. intros H. unfold zset. destruct (Z.ltb_spec i (zlen l)); [lia|]. by rewrite andb_false_r. Qed.

(** After a plain [h]: the end of the URL, a colon, or more than the array holds. *)
Lemma host_loop_stops fuel u pre h post lo i j r : u = pre ++ h ++ post -> plain h -> lo = zlen pre - i -> 0 <= i <= MAXHOSTSIZ ->
  char_at u (lo - 1) = Some 47 -> (forall p, lo <= p < zlen pre -> char_at u p <> Some 47) ->
  zlen (host r) = MAXHOSTSIZ -> zlen (password r) = MAXBUFSIZ ->
  (exists rest, post = 58 :: rest) \/ post = [] \/ MAXHOSTSIZ < i + zlen h -> (S (length h) < fuel)%nat ->
  host_loop fuel u (zlen pre) i j 0 r = None.
Proof.
  intros ->. revert fuel pre i r. induction h as [|c h IH]; intros fuel pre i r Hp Hlo Hi Hsl Hno Lh Lp Hpost Hf; (destruct fuel as [|fuel]; [lia|]); cbn [host_loop Datatypes.app].
  - destruct Hpost as [[rest ->]|[->|Hbig]]; [| |simpl in Hbig; lia].
    + rewrite char_at_middle. destruct (Z.ltb_spec MAXHOSTSIZ i); [lia|]. cbn [Z.eqb Pos.eqb].
      pose proof (user_info_negative (pre ++ 58 :: rest) lo (zlen pre) i j r ltac:(lia) Hlo (char_at_middle pre 58 rest) Hsl) as Hn.
      destruct (user_info (pre ++ 58 :: rest) (zlen pre) i j 0 r) as [[er|[[[[s' i'] j'] k'] r']]|]; [exfalso|..|done];
        [|assert (i' < 0)]; try (apply Hn; [intros p Hpp; destruct (decide (p = zlen pre)) as [->|]; [by rewrite char_at_middle|apply Hno; lia]|done]).
      cbn [bind]. destruct (char_at _ s'); [|done]. unfold zset. destruct (Z.leb_spec 0 i'); [lia|done].
    + rewrite app_nil_r, char_at_end. destruct (Z.ltb_spec MAXHOSTSIZ i); [lia|]. cbn [Z.eqb bind]. rewrite char_at_end. destruct (zset (host r) i 0) as [b|]; [|done].
      destruct fuel as [|fuel]; [simpl in Hf; lia|]. cbn [host_loop]. destruct (char_at pre (zlen pre + 1)) as [c|] eqn:E; [|done]. apply char_at_bound in E. lia.
  - rewrite char_at_middle. apply Forall_cons in Hp as [(Hc0 & Hc1 & Hc2) Hp]. destruct (Z.eqb_spec c 47), (Z.ltb_spec MAXHOSTSIZ i), (Z.eqb_spec c 58); try lia.
    cbn [bind]. rewrite char_at_middle. destruct (zset (host r) i c) as [b|] eqn:Eb; [|done]. pose proof (zset_bound _ _ _ _ Eb) as Hb. rewrite Lh in Hb.
    cbn [Datatypes.app] in Hsl, Hno. replace (pre ++ c :: h ++ post) with ((pre ++ [c]) ++ h ++ post) in * by (by rewrite <- app_assoc).
    replace (zlen pre + 1) with (zlen (pre ++ [c])) by (rewrite length_app; cbn [length]; lia).
    apply (IH fuel (pre ++ [c])); [done|rewrite length_app; cbn [length]; lia|lia|done| |by rewrite <- Lh, <- (zset_length _ _ _ _ Eb)|done| |simpl in Hf; lia].
    + intros p Hpp. rewrite length_app in Hpp. cbn [length] in Hpp. destruct (decide (p = zlen pre)) as [->|]; [|apply Hno; lia].
      rewrite <- app_assoc. cbn [Datatypes.app]. rewrite char_at_middle. congruence.
    + destruct Hpost as [?|[?|?]]; [by left|by right; left|right; right]. cbn [length] in *. lia.
Qed.
Lemma url_loop_stops fuel u pre a i r : u = pre ++ a -> nonzero a -> zlen (url r) = MAXURLSIZ -> 0 <= i <= MAXURLSIZ -> MAXURLSIZ < i + zlen a -> (length a < fuel)%nat ->
  url_loop fuel u (zlen pre) i r = None.
Proof.
  intros ->. revert fuel pre i r. induction a as [|c a IH]; intros fuel pre i r Hp Lu Hi Hbig Hf; [simpl in Hbig; lia|]. destruct fuel as [|fuel]; [simpl in Hf; lia|]. cbn [url_loop].
  apply Forall_cons in Hp as [Hc Hp]. rewrite char_at_middle. destruct (Z.eqb_spec c 0), (Z.ltb_spec MAXURLSIZ i); try lia. destruct (zset (url r) i c) as [b|] eqn:Eb; [|done].
  pose proof (zset_bound _ _ _ _ Eb) as Hb. rewrite Lu in Hb. replace (pre ++ c :: a) with ((pre ++ [c]) ++ a) by (by rewrite <- app_assoc).
  replace (zlen pre + 1) with (zlen (pre ++ [c])) by (rewrite length_app; cbn [length]; lia). cbn [length] in *.
  apply IH; [done|by rewrite <- Lu, <- (zset_length _ _ _ _ Eb)|lia|lia|lia].
Qed.

(** ** The request as a structure *)

Lemma strncpy_split dst src n : (length src < n)%nat -> exists t, strncpy dst src n = src ++ 0 :: t.
Proof.
  intros Hl. unfold strncpy. rewrite take_app_ge by lia. destruct (n - length src)%nat as [|k] eqn:E; [lia|]. destruct n as [|n]; [lia|].
  cbn [replicate take]. rewrite <- app_assoc. by eexists.
Qed.
Lemma c_string_nonzero s : nonzero (c_string s).
Proof. induction s as [|c s IH]; [constructor|]. cbn [c_string]. destruct (Z.eqb_spec c 0); [constructor|by constructor]. Qed.
Lemma strlen_c_string b n : strlen b = Some n -> n = zlen (c_string b).
Proof.
  revert n. induction b as [|c b IH]; intros n H; [done|]. cbn [strlen c_string] in *. destruct (c =? 0); [by injection H as <-|].
  destruct (strlen b) as [m|]; [|done]. injection H as <-. rewrite (IH m eq_refl). simpl. lia.
Qed.
Lemma strlen_split b n : strlen b = Some n -> exists t, b = c_string b ++ 0 :: t.
Proof.
  revert n. induction b as [|c b IH]; intros n H; [done|]. cbn [strlen c_string] in *. destruct (Z.eqb_spec c 0) as [->|]; [by exists b|].
  destruct (strlen b) as [m|] eqn:E; [|done]. destruct (IH m eq_refl) as [t Et]. exists t. cbn [Datatypes.app]. by f_equal.
Qed.
(** An array of [n] characters that holds a string. *)
Definition holds (n : Z) (b : list Z) : Prop := zlen b = n /\ is_Some (strlen b).
Lemma zero_holds b : 0 ∈ b -> is_Some (strlen b).
Proof.
  induction b as [|c b IH]; intros H; [by apply elem_of_nil in H|]. cbn [strlen]. destruct (Z.eqb_spec c 0); [done|].
  apply elem_of_cons in H as [?|H]; [done|]. destruct (IH H) as [m ->]. done.
Qed.
Lemma zset_holds n b i b' : zlen b = n -> zset b i 0 = Some b' -> holds n b'.
Proof.
  intros Hl Hz. split; [by rewrite (zset_length _ _ _ _ Hz)|]. apply zero_holds. pose proof (znth_zset _ _ _ _ i Hz) as E. rewrite Z.eqb_refl in E.
  unfold znth in E. destruct (i <? 0); [done|]. by apply list_elem_of_lookup_2 in E.
Qed.
Lemma revstr_holds n b b' : holds n b -> revstr b = Some b' -> holds n b'.
Proof.
  intros [Hl [m Hm]] Hr. destruct (strlen_split b m Hm) as [t Et]. pose proof (c_string_nonzero b) as Hz. rewrite Et, revstr_app in Hr by done. injection Hr as <-.
  split; [rewrite <- Hl, Et, c_string_app by done; rewrite !length_app, length_rev; done|]. rewrite strlen_app by (by apply Forall_rev). done.
Qed.
Lemma strncpy_holds n dst src k : zlen dst = n -> (length src < k)%nat -> Z.of_nat k <= n -> holds n (strncpy dst src k).
Proof.
  intros Hl Hs Hk. split; [unfold strncpy; rewrite length_app, length_take, length_app, length_replicate, length_drop; lia|].
  destruct (strncpy_split dst src k Hs) as [t ->]. apply zero_holds. apply elem_of_app. right. by left.
Qed.

(** Every array has the size of its declaration and holds a string. *)
Definition sizes (r : request) : Z * Z * Z * Z * Z := (zlen (host r), zlen (url r), zlen (file r), zlen (username r), zlen (password r)).
Record request_ok (r : request) : Prop := {
  ro_host : holds MAXHOSTSIZ (host r); ro_url : holds MAXURLSIZ (url r); ro_file : holds MAXBUFSIZ (file r);
  ro_username : holds MAXBUFSIZ (username r); ro_password : holds MAXBUFSIZ (password r)
}.
Lemma name_holds b anon n : zlen b = MAXBUFSIZ -> strlen b = Some n -> zlen anon < MAXBUFSIZ - 2 ->
  holds MAXBUFSIZ (if n <=? 0 then strncpy b anon (Z.to_nat (MAXBUFSIZ - 2)) else b).
Proof. intros Hl Hn Ha. unfold MAXBUFSIZ in *. destruct (n <=? 0); [apply strncpy_holds; lia|by split]. Qed.

Lemma strncpy_c_string dst src : zlen src < MAXBUFSIZ - 2 -> c_string (strncpy dst src (Z.to_nat (MAXBUFSIZ - 2))) = c_string src.
Proof.
  intros Hl. destruct (strncpy_split dst src (Z.to_nat (MAXBUFSIZ - 2))) as [t ->]; [lia|]. clear. induction src as [|c src IH]; [done|]. cbn [c_string Datatypes.app]. destruct (c =? 0); [done|by rewrite IH].
Qed.

(** ** The URLs that can be read *)

(** [rest], after the scheme, is a host and a path; the arrays hold both, with their zeros. *)
Record readable (rest h dir base : list Z) : Prop := {
  rd_split : rest = h ++ dir ++ 47 :: base;
  rd_host : plain h /\ zlen h < MAXHOSTSIZ;
  rd_path : (dir = [] \/ exists d, dir = 47 :: d) /\ Forall (fun c => c <> 47) base /\ zlen (dir ++ 47 :: base) < MAXURLSIZ
}.

Lemma span_plain l : nonzero l -> exists h post, l = h ++ post /\ plain h /\ (post = [] \/ (exists t, post = 47 :: t) \/ exists t, post = 58 :: t).
Proof.
  induction 1 as [|c l Hc _ (h & post & -> & Hh & Hp)]; [exists [], []; split_and!; [done|constructor|by left]|].
  destruct (decide (c = 47)) as [->|]; [exists [], (47 :: h ++ post); split_and!; [done|constructor|right; left; eauto]|].
  destruct (decide (c = 58)) as [->|]; [exists [], (58 :: h ++ post); split_and!; [done|constructor|right; right; eauto]|].
  exists (c :: h), post. split_and!; [done|by constructor|done].
Qed.
Lemma plain_split h post h' post' : plain h -> plain h' -> (forall c t, post = c :: t -> c = 47 \/ c = 58) -> (forall c t, post' = c :: t -> c = 47 \/ c = 58) ->
  h ++ post = h' ++ post' -> h = h' /\ post = post'.
Proof.
  intros Hh. revert h'. induction Hh as [|c h (H0 & H1 & H2) _ IH]; intros h' Hh' Hp Hp' E.
  - destruct h' as [|c' h']; [done|]. cbn in E. subst post. apply Forall_cons in Hh' as [(? & ? & ?) _]. destruct (Hp c' _ eq_refl); lia.
  - destruct h' as [|c' h']; cbn in E; [subst post'; destruct (Hp' c _ eq_refl); lia|]. injection E as <- E. apply Forall_cons in Hh' as [_ Hh'].
    destruct (IH h' Hh' Hp Hp' E) as [-> ->]. done.
Qed.
Lemma last_slash_split t : exists dir base, 47 :: t = dir ++ 47 :: base /\ Forall (fun c => c <> 47) base /\ (dir = [] \/ exists d, dir = 47 :: d).
Proof.
  induction t as [|c t (dir & base & E & Hb & Hd)] using rev_ind; [exists [], []; split_and!; [done|constructor|by left]|].
  destruct (decide (c = 47)) as [->|Hc]; [exists (47 :: t), []; split_and!; [done|constructor|right; eauto]|].
  exists dir, (base ++ [c]). split_and!; [by rewrite app_comm_cons, E, <- app_assoc|apply Forall_app; split; [done|by constructor]|done].
Qed.

Section Answers.
Context (anonuser anonpass : list Z) (r : request) (nu np : Z).
Hypothesis Hsizes : sizes r = (MAXHOSTSIZ, MAXURLSIZ, MAXBUFSIZ, MAXBUFSIZ, MAXBUFSIZ).
Hypothesis Hnu : strlen (username r) = Some nu.
Hypothesis Hnp : strlen (password r) = Some np.

Lemma scheme_known u ftp rest : u = scheme_of ftp ++ rest ->
  exists po pr, scheme u r = inr (set_proto po pr r) /\ (if pr =? PROTO_HTTP then 7 else 6) = zlen (scheme_of ftp).
Proof. intros ->. destruct ftp; eexists _, _; split; reflexivity. Qed.
(** Everything else than a host and a path that the arrays hold leads outside of them. *)
Lemma parse_url_outside ftp rest : nonzero rest -> (forall h dir base, ~ readable rest h dir base) ->
  parse_url anonuser anonpass (scheme_of ftp ++ rest) r = None.
Proof.
  intros Hz Hno. unfold sizes in Hsizes. injection Hsizes as Lh Lu Lf Ln Lp. destruct (span_plain rest Hz) as (h & post & -> & Hh & Hpost).
  destruct (scheme_known (scheme_of ftp ++ h ++ post) ftp (h ++ post) eq_refl) as (po & pr & Es & Ez). unfold parse_url. rewrite Es. cbn [bind proto set_proto]. rewrite Ez.
  set (u := scheme_of ftp ++ h ++ post). assert (length u = length (scheme_of ftp) + (length h + length post))%nat as Hlu by (unfold u; by rewrite !length_app).
  assert (6 <= zlen (scheme_of ftp)) as H6 by (by destruct ftp). assert (char_at u (zlen (scheme_of ftp) - 0 - 1) = Some 47) as Hsl.
  { unfold char_at. rewrite Hlu. destruct (Z.eqb_spec (zlen (scheme_of ftp) - 0 - 1) (Z.of_nat (length (scheme_of ftp) + (length h + length post)))); [lia|]. unfold u. by destruct ftp. }
  assert ((exists t, post = 58 :: t) \/ post = [] \/ MAXHOSTSIZ < 0 + zlen h -> host_loop (S (length u)) u (zlen (scheme_of ftp)) 0 0 0 (set_proto po pr r) = None) as Hstop.
  { intros Hs. apply (host_loop_stops (S (length u)) u (scheme_of ftp) h post (zlen (scheme_of ftp) - 0) 0 0 (set_proto po pr r)); try done; (unfold MAXHOSTSIZ in *; lia || (intros; lia)). }
  destruct Hpost as [->|[[t ->]|Hc]]; [by rewrite Hstop by auto| |by rewrite Hstop by auto]. destruct (decide (MAXHOSTSIZ < 0 + zlen h)) as [|Hle]; [by rewrite Hstop by auto|].
  rewrite (host_loop_plain _ u (scheme_of ftp) [] h (host r) t) by (done || (cbn [length] in *; unfold MAXHOSTSIZ in *; lia)). cbn [bind host set_host length]. unfold stored. cbn [Datatypes.app].
  destruct (decide (zlen h = MAXHOSTSIZ)) as [Eh|Eh].
  { rewrite zset_out; [done|]. rewrite length_app, length_drop. lia. }
  destruct (drop_cons (length h) (host r)) as [x ->]; [unfold MAXHOSTSIZ in *; lia|]. rewrite Z.add_0_l, zset_middle.
  assert (u = (scheme_of ftp ++ h) ++ 47 :: t) as Eu by (unfold u; by rewrite <- app_assoc). apply Forall_app in Hz as [_ Hz].
  replace (zlen (scheme_of ftp) + zlen h) with (zlen (scheme_of ftp ++ h)) by (rewrite length_app; lia).
  destruct (decide (MAXURLSIZ < 0 + zlen (47 :: t))) as [|Hle2].
  { rewrite (url_loop_stops _ u (scheme_of ftp ++ h) (47 :: t)); try done; unfold MAXURLSIZ in *; simpl in *; lia. }
  rewrite (url_loop_plain _ u _ [] (47 :: t) (url r) _ Eu) by (done || (simpl in *; unfold MAXURLSIZ in *; lia)).
  cbn [bind url set_url set_host]. unfold stored. cbn [Datatypes.app]. destruct (decide (zlen (47 :: t) = MAXURLSIZ)) as [Ep|Ep].
  { rewrite zset_out; [done|]. rewrite app_comm_cons, length_app, length_drop. simpl in *. lia. }
  destruct (last_slash_split t) as (dir & base & E & Hb & Hd). destruct (Hno h dir base). split; [by rewrite E|split; [done|lia]|]. split_and!; [done|done|]. rewrite <- E. lia.
Qed.
End Answers.

(** A URL is in one of three classes: no [http://] or [ftp://]; one of them, a host and a path
    that fit; one of them, and something else. *)
Lemma starts_with_app p u : starts_with p u = true <-> exists rest, u = p ++ rest.
Proof.
  split.
  - revert u. induction p as [|c p IH]; intros u E; [by exists u|]. destruct u as [|d u]; [done|]. cbn [starts_with] in E. apply andb_prop in E as [E1 E2].
    apply Z.eqb_eq in E1 as ->. destruct (IH u E2) as [rest ->]. by exists rest.
  - intros [rest ->]. induction p as [|c p IH]; [done|]. cbn [starts_with Datatypes.app]. by rewrite Z.eqb_refl.
Qed.
Lemma scheme_cases u : (exists ftp rest, u = scheme_of ftp ++ rest) \/ (forall ftp rest, u <> scheme_of ftp ++ rest) /\ forall r, scheme u r = inl 1.
Proof.
  unfold scheme. destruct (starts_with (text "ftp://") u) eqn:E1; [left; exists true; by apply starts_with_app|].
  destruct (starts_with (text "http://") u) eqn:E2; [left; exists false; by apply starts_with_app|]. right.
  split; [|intros r; by destruct (starts_with (text "https://") u)]. intros [] rest ->; [assert (starts_with (text "ftp://") (scheme_of true ++ rest) = true) by (apply starts_with_app; eauto)|
    assert (starts_with (text "http://") (scheme_of false ++ rest) = true) by (apply starts_with_app; eauto)]; congruence.
Qed.
Lemma readable_cases rest : nonzero rest -> (exists h dir base, readable rest h dir base) \/ forall h dir base, ~ readable rest h dir base.
Proof.
  intros Hz. destruct (span_plain rest Hz) as (h & post & -> & Hh & Hpost).
  assert (forall c t, post = c :: t -> c = 47 \/ c = 58) as Hpc by (destruct Hpost as [->|[[t ->]|[t ->]]]; intros c t' [= <- <-]; auto).
  assert (forall h' dir base, readable (h ++ post) h' dir base -> h' = h /\ dir ++ 47 :: base = post) as Huniq.
  { intros h' dir base [E [Hh' _] [Hd _]]. destruct (plain_split h post h' (dir ++ 47 :: base) Hh Hh' Hpc) as [-> ->]; [|done|done]. destruct Hd as [->|[d ->]]; intros c t [= <- _]; auto. }
  assert ((exists t, post = 47 :: t) \/ (forall t, post <> 47 :: t)) as [[t ->]|Hn] by (destruct Hpost as [->|[[t ->]|[t ->]]]; eauto).
  - destruct (last_slash_split t) as (dir & base & E & Hb & Hd). destruct (decide (zlen h < MAXHOSTSIZ /\ zlen (47 :: t) < MAXURLSIZ)) as [[L1 L2]|Hbig].
    + left. exists h, dir, base. split; [by rewrite E|done|]. rewrite <- E. done.
    + right. intros h' dir' base' Hr. destruct (Huniq _ _ _ Hr) as [-> E']. destruct Hr as [_ [_ H1] (_ & _ & H2)]. rewrite E' in H2. by apply Hbig.
  - right. intros h' dir' base' Hr. destruct (Huniq _ _ _ Hr) as [-> E']. destruct Hr as [_ _ ([->|[d ->]] & _)]; [by apply (Hn base')|by eapply Hn].
Qed.
Lemma shorter_holds n b : zlen b = n -> zlen (c_string b) < n -> holds n b.
Proof.
  intros Hl Hs. split; [done|]. rewrite <- Hl in Hs. clear Hl. induction b as [|c b IH]; [simpl in Hs; lia|]. cbn [c_string strlen length] in *. destruct (c =? 0); [done|].
  cbn [length] in Hs. destruct IH as [m ->]; [lia|done].
Qed.

(** C37. What [parse_url] does with every URL, when the arrays of the request have their
    sizes, user and password are terminated strings, and the names of the rc file are
    shorter than their arrays. It ends with 1 exactly when the URL begins with
    neither [http://] nor [ftp://]. It reads a URL that consists of such a scheme, a host
    without colon, and a path, each of less than 1024 characters: then host, path and the
    name after the last slash are stored, every array holds a terminated string within its
    size, and protocol, port, user and password are those of the scheme, the options and the
    rc file. With every other URL (no slash behind the host, a colon before it, a host or a
    path of 1024 characters or more) it accesses memory outside the URL or the arrays; the
    tests [i > MAXHOSTSIZ] and [i > MAXURLSIZ] come too late. No loop runs for ever. *)
Theorem parse_url_answers anonuser anonpass u r nu np :
  nonzero u -> sizes r = (MAXHOSTSIZ, MAXURLSIZ, MAXBUFSIZ, MAXBUFSIZ, MAXBUFSIZ) ->
  strlen (username r) = Some nu -> strlen (password r) = Some np -> zlen anonuser < MAXBUFSIZ - 2 -> zlen anonpass < MAXBUFSIZ - 2 ->
  match parse_url anonuser anonpass u r with
  | Some (inl e) => e = 1 /\ forall ftp rest, u <> scheme_of ftp ++ rest
  | Some (inr r') => exists ftp rest h dir base, u = scheme_of ftp ++ rest /\ readable rest h dir base /\ request_ok r' /\
      c_string (host r') = h /\ c_string (url r') = dir ++ 47 :: base /\ c_string (file r') = base /\
      proto r' = (if ftp then PROTO_FTP else PROTO_HTTP) /\ port r' = (if port r =? 0 then if ftp then 21 else 80 else port r) /\
      c_string (username r') = (if nu <=? 0 then c_string anonuser else c_string (username r)) /\
      c_string (password r') = (if np <=? 0 then c_string anonpass else c_string (password r))
  | None => exists ftp rest, u = scheme_of ftp ++ rest /\ forall h dir base, ~ readable rest h dir base
  end.
Proof.
  intros Hz Hs Hnu Hnp Hau Hap. destruct (scheme_cases u) as [(ftp & rest & ->)|[Hno Hsch]]; [|unfold parse_url; rewrite Hsch; cbn [bind]; done].
  apply Forall_app in Hz as [_ Hz]. destruct (readable_cases rest Hz) as [(h & dir & base & Hr)|Hn]; [|rewrite parse_url_outside by done; eauto].
  pose proof Hr as [-> [Hh Lh] (Hd & Hb & Lp)]. apply Forall_app in Hz as [_ Hz]. apply Forall_app in Hz as [Hzd Hzb]. apply Forall_cons in Hzb as [_ Hzb].
  unfold sizes in Hs. injection Hs as Bh Bu Bf Bn Bp.
  destruct (parse_url_plain anonuser anonpass ftp h dir base r nu np) as (r' & -> & Eh & Eu & Ef & Ep & Epo & En & Epw & L1 & L2 & L3); try done.
  exists ftp, (h ++ dir ++ 47 :: base), h, dir, base. assert (length base < length (dir ++ 47%Z :: base))%nat by (rewrite length_app; cbn [length]; lia).
  split_and!; try done.
  - split; [apply shorter_holds; [congruence|by rewrite Eh]|apply shorter_holds; [congruence|by rewrite Eu]|apply shorter_holds; [congruence|rewrite Ef; unfold MAXBUFSIZ, MAXURLSIZ in *; lia]|..].
    + rewrite En. by apply name_holds.
    + rewrite Epw. by apply name_holds.
  - rewrite En. destruct (nu <=? 0); [|done]. by apply strncpy_c_string.
  - rewrite Epw. destruct (np <=? 0); [|done]. by apply strncpy_c_string.
Qed.

(** ** Samples *)

Definition zeros (n : Z) : list Z := replicate (Z.to_nat n) 0.
Definition blank : request := mkRequest (zeros MAXHOSTSIZ) (zeros MAXURLSIZ) (zeros MAXBUFSIZ) (zeros MAXBUFSIZ) (zeros MAXBUFSIZ) 0 0.
Lemma blank_sizes : sizes blank = (MAXHOSTSIZ, MAXURLSIZ, MAXBUFSIZ, MAXBUFSIZ, MAXBUFSIZ).
Proof. vm_compute. reflexivity. Qed.
Lemma blank_name : strlen (zeros MAXBUFSIZ) = Some 0.
Proof. vm_compute. reflexivity. Qed.
Ltac all_chars := repeat (apply Forall_cons; split; [done|]); by apply Forall_nil.
Lemma parse_url_answers_witness :
  (exists r', parse_url (text "ftp") (text "x") (text "http://a.org/dir/f.c") blank = Some (inr r') /\ request_ok r') /\
  (exists ftp rest, text "http://a.org:80/f" = scheme_of ftp ++ rest /\ forall h dir base, ~ readable rest h dir base).
Proof.
  split.
  - pose proof (parse_url_answers (text "ftp") (text "x") (text "http://a.org/dir/f.c") blank 0 0 ltac:(all_chars) blank_sizes blank_name blank_name eq_refl eq_refl) as H.
    destruct (parse_url (text "ftp") (text "x") (text "http://a.org/dir/f.c") blank) as [[e|r']|].
    + destruct H as [_ H]. destruct (H false (text "a.org/dir/f.c") eq_refl).
    + exists r'. split; [done|]. destruct H as (ftp & rest & h & dir & base & _ & _ & Hok & _). exact Hok.
    + destruct H as ([] & rest & E & H); [done|]. injection E as <-. exfalso. apply (H (text "a.org") (text "/dir") (text "f.c")).
      split; [done|split; [all_chars|done]|]. split_and!; [right; by eexists|all_chars|done].
  - assert (parse_url (text "ftp") (text "x") (text "http://a.org:80/f") blank = None) as E by (vm_compute; reflexivity).
    pose proof (parse_url_answers (text "ftp") (text "x") (text "http://a.org:80/f") blank 0 0 ltac:(all_chars) blank_sizes blank_name blank_name eq_refl eq_refl) as H.
    rewrite E in H. exact H.
Defined.
End Url.
