(* ===== verification/Ftp.v ===== *)
(** The download over FTP of [src/papps/aget-devel]: the dialogue and the transfer of a thread
    ([Ftp.c]), the replies of the server ([recv_reply], [recv_data] of [Misc.c],
    [parse_pasv_reply2] of [Head.c]), and [startFTP] of [Aget.c].

    What the server sends is an argument, line by line on the control connection and [recv]
    by [recv] on the data connection; the commands sent are collected. *)
From stdpp Require Import base list strings.
From Stdlib Require Import ZArith Lia.
From S2P Require Import Prelude Aget Url.

Module Ftp.
Import Aget.

(** ** Replies *)

(** [strncmp(a, b, n) == 0] *)
Definition strneq (n : nat) (a b : list Z) : bool :=
  bool_decide (take n (c_string a ++ [0]) = take n (c_string b ++ [0])).

(** What a step of the dialogue answers: an access to something not initialised, the end
    of the thread, of the process or the wait for more, or its value. *)
Definition step (A : Type) : Type := option (ending + A).
Definition bind {A B} (m : step A) (f : A -> step B) : step B :=
  match m with None => None | Some (inl e) => Some (inl e) | Some (inr a) => f a end.
Notation "'let!' x := a 'in' b" := (bind a (fun x => b)) (at level 10, x pattern, a at level 100, b at level 200).

(** The loop of [recv_reply]: [ls] are the answers of [fgets], [None] for [NULL], which
    leaves [line] as it is; [status] has four characters. *)
Fixpoint reply_loop (td : thread_data) (ls : list (option (list Z))) (line status rbuf : list Z) :
    step (list Z * list (option (list Z))) :=
  match ls with
  | [] => Some (inl (Waiting td [] 0))
  | l :: ls =>
      let line := match l with Some l => l ++ 0 :: drop (S (length l)) line | None => line end in
      let? c3 := znth line 3 in
      let? s0 := znth status 0 in
      let status := if (c3 =? 45) && (s0 =? 0) then Url.strncpy status (c_string line) 3 else status in
      let? s0 := znth status 0 in
      let finished := if c3 =? 32 then if negb (s0 =? 0) then strneq 3 status line else true else false in
      let rbuf := rbuf ++ c_string line in
      if negb finished && (zlen rbuf <? 1022) then reply_loop td ls line status rbuf
      else Some (inr (rbuf, ls))
  end.
(** [recv_reply] into a buffer of zeros. *)
Definition recv_reply (td : thread_data) (ls : list (option (list Z))) : step (list Z * list (option (list Z))) :=
  reply_loop td ls [] [0; 0; 0; 0] [].

(** ** The data connection *)

(** A [recv]: some bytes, none with what [select] then answers, or -1. *)
Inductive received := Got (d : list Z) | Closed (selected : Z) | Failed (eintr : bool).

(** [recv_data]: [None] for [exit(1)], else [nrecv] and the bytes; [max] retries are left. *)
Fixpoint recv_data (max : nat) (rs : list received) {struct rs} : option (option (Z * list Z) * list received) :=
  match rs with
  | [] => None
  | Failed eintr :: rs => Some (if eintr then Some (-1, []) else None, rs)
  | Got d :: rs => Some (Some (zlen d, d), rs)
  | Closed selected :: rs =>
      if selected =? -1 then Some (None, rs)
      else if 0 <? selected then match max with S max => recv_data max rs | O => Some (Some (0, []), rs) end
      else Some (Some (0, []), rs)
  end.

(** [while (td->offset < foffset)] and the end of [ftp_get]; [fuel] bounds the turns, of which
    each takes at least one answer of the server; [inited] and [pws] as in [get_loop]. *)
Fixpoint transfer (inited : bool) (fuel : nat) (rs : list received) (pws : list Z) (fo : Z) (td : thread_data) (ws : list write) (written : Z) : ending :=
  if offset td <? fo then
    match fuel with
    | O => Waiting td ws written
    | S fuel =>
        match recv_data 3 rs with
        | None => Waiting td ws written
        | Some (None, _) => ProcessExit 1
        | Some (Some (dr, rbuf), rs) =>
            let (dw, w) := if fo <? offset td + dr then pwrite pws rbuf (fo - offset td) (offset td)
                           else pwrite pws rbuf dr (offset td) in
            if negb inited then ProcessAbort
            else transfer inited fuel rs (tail pws) fo (set_offset (offset td + dw) td) (ws ++ w) (written + dw)
        end
    end
  else ThreadExit (if offset td =? foffset td then set_ok td else td) ws written.

(** ** The passive mode *)

(** The characters that end a line. *)
Definition ends (s : list Z) : bool := match s with [] => true | c :: _ => (c =? 0) || (c =? 13) || (c =? 10) end.
Fixpoint skip_paren (s : list Z) : list Z :=
  match s with [] => [] | c :: s' => if ends s || (c =? 40) then s else skip_paren s' end.
(** The inner loop: at most [j] characters of a number. *)
Fixpoint digits (j : nat) (s : list Z) : list Z * list Z :=
  match j, s with
  | S j, c :: s' =>
      if ends s || (c =? 44) || (c =? 41) then ([], s) else let (tmp, s'') := digits j s' in (c :: tmp, s'')
  | _, _ => ([], s)
  end.

(** [atoi] *)
Fixpoint atoi_digits (s : list Z) (n : Z) : Z :=
  match s with c :: s => if (48 <=? c) && (c <=? 57) then atoi_digits s (n * 10 + (c - 48)) else n | [] => n end.
Fixpoint atoi (s : list Z) : Z :=
  match s with
  | [] => 0
  | c :: s' =>
      if (c =? 32) || ((9 <=? c) && (c <=? 13)) then atoi s'
      else if c =? 45 then - atoi_digits s' 0
      else if c =? 43 then atoi_digits s' 0
      else atoi_digits s 0
  end.

(** The outer loop, for [k] more numbers. *)
Fixpoint addr_loop (k : nat) (s : list Z) : list Z :=
  match k with
  | O => []
  | S k =>
      if ends s then replicate (S k) 0
      else let (tmp, s) := digits 3 s in to_uint (atoi tmp) :: addr_loop k (tail s)
  end.

Definition MAXIPSIZ : Z := 16.
Section Dialogue.
(** [%d] and [%ld] *)
Variables show_d show_ld : Z -> list Z.

(** [parse_pasv_reply2]: [None] for -1, else the text of the address and the port.
    [snprintf(dc_addr, MAXIPSIZ -1, ...)] stores 14 characters at most. *)
Definition parse_pasv_reply2 (rbuf : list Z) : option (list Z * Z) :=
  match addr_loop 6 (tail (skip_paren rbuf)) with
  | [a0; a1; a2; a3; a4; a5] =>
      if a0 =? 0 then None
      else Some (take (Z.to_nat (MAXIPSIZ - 1 - 1))
                   (show_d a0 ++ [46] ++ show_d a1 ++ [46] ++ show_d a2 ++ [46] ++ show_d a3),
                 wrap_u 16 (Z.shiftl a4 8 + a5))
  | _ => None
  end.

(** ** A thread *)

(** The fields of [thread_data] that only [ftp_get] uses. *)
Record ftp_data := mkFtp { head_sd : Z; username : list Z; password : list Z; url : list Z }.

(** What a thread meets: the two connections ([d_connect] by address and port) and the file. *)
Record peer := mkPeer {
  c_socket : bool; c_connect : bool; c_fdopen : bool; lines : list (option (list Z));
  d_socket : bool; d_connect : list Z -> Z -> bool; data : list received; takes : list Z
}.

Definition command (verb : string) (arg : list Z) : list Z := text verb ++ arg ++ CRLF.
(** [snprintf(sbuf, MAXBUFSIZ - 1, ...)] *)
Definition command_n (verb : string) (arg : list Z) : list Z := take (Z.to_nat (Url.MAXBUFSIZ - 2)) (command verb arg).

(** [recv_reply] on the control connection of [pe]; without [fdopen] the buffer stays zero. *)
Definition reply (pe : peer) (td : thread_data) (ls : list (option (list Z))) : step (list Z * list (option (list Z))) :=
  if c_fdopen pe then recv_reply td ls else Some (inr ([], ls)).
Definition expect (code : string) (rbuf : list Z) : step unit :=
  if strneq 3 rbuf (text code) then Some (inr tt) else Some (inl (ProcessExit 1)).
(** [rbuf[0]] is 1, 2 or 3. *)
Definition positive (rbuf : list Z) : bool :=
  match rbuf with c :: _ => (c =? 50) || (c =? 49) || (c =? 51) | [] => false end.

(** A new control connection: the greeting, [USER] and [PASS]. *)
Definition login (pe : peer) (fd : ftp_data) (td : thread_data) : step (list (option (list Z)) * list (list Z)) :=
  let failed : ending := ThreadExit td [] 0 in
  if negb (c_socket pe && c_connect pe) then Some (inl failed)
  else if negb (c_fdopen pe) then Some (inl failed)
  else
    let! (rbuf, ls) := reply pe td (lines pe) in
    if negb (positive rbuf) then Some (inl failed)
    else
      let! (rbuf, ls) := reply pe td ls in
      let! _ := expect "331" rbuf in
      let! (rbuf, ls) := reply pe td ls in
      let! _ := expect "230" rbuf in
      Some (inr (ls, [command_n "USER " (username fd); command_n "PASS " (password fd)])).

(** [ftp_get]: how the thread ends, and the commands of a thread that came to [RETR]. *)
Definition dialogue (pe : peer) (fd : ftp_data) (td : thread_data) : step (list (list Z)) :=
  let! (ls, sent) :=
    (if head_sd fd =? -1 then login pe fd td
     else let! (_, ls) := reply pe td (lines pe) in Some (inr (ls, []))) in
  let! (rbuf, ls) := reply pe td ls in
  let! _ := expect "350" rbuf in
  let! (_, ls) := reply pe td ls in
  let! (rbuf, ls) := reply pe td ls in
  let? sin_dc := parse_pasv_reply2 rbuf in
  if negb (d_socket pe && d_connect pe (fst sin_dc) (snd sin_dc)) then Some (inl (ProcessExit 1))
  else Some (inr (sent ++ [command_n "REST " (show_ld (soffset td)); command "TYPE I" []; command "PASV" [];
                           command_n "RETR " (drop 1 (url fd))])).
Definition ftp_get (inited : bool) (pe : peer) (fd : ftp_data) (td : thread_data) : option ending :=
  let fo := foffset td in
  if (soffset td <? 0) || (fo <=? soffset td) then Some (ThreadExit (set_ok td) [] 0)
  else
    match dialogue pe fd td with
    | None => None
    | Some (inl e) => Some e
    | Some (inr _) => Some (transfer inited (S (length (data pe))) (data pe) (takes pe) fo (set_offset (soffset td) td) [] 0)
    end.

(** ** The download *)

(** The body of the set-up loop of [startFTP] for thread [i]; the fields of [ftp_data] are
    set in [ftp_threads]. *)
Definition setup_ftp (clen nthreads i : Z) (td : thread_data) : option thread_data :=
  let? so := calc_offset clen i nthreads in
  let? fo := calc_offset clen (i + 1) nthreads in
  Some (mkThread (getstr td) so (if i =? nthreads - 1 then clen else fo) so clen (status td)).
Definition ftp_threads (inited : bool) (head : Z) (user pass path : list Z) (peers : Z -> peer) (i : Z) : thread_data -> option ending :=
  ftp_get inited (peers i) (mkFtp (if i =? 0 then head else -1) user pass path).

(** [startFTP] without a proxy, after [ftp_head_req] answered [ret] and [head_sd]. It does not
    initialise [bwritten_mutex]; [startHTTP] may have done so before. *)
Definition startFTP (inited : bool) (fsuggested nthreads ret head : Z) (user pass path : list Z) (clen : Z) (dk : disk)
    (mem : list thread_data) (rounds : list (Z -> peer)) : Z * outcome :=
  let nthreads := if ret =? 1 then choose_nthreads fsuggested nthreads clen else 1 in
  (nthreads,
   match open_file dk with
   | None => Blocked
   | Some false => Exits 1
   | Some true =>
       match allocate dk clen with
       | None => Exits 1
       | Some w =>
           retry (setup_loop (setup_ftp clen nthreads) (Z.to_nat nthreads) 0) nthreads
             (ftp_threads inited head user pass path <$> rounds) 0 (take (Z.to_nat nthreads) mem) [w] 0
       end
   end).
End Dialogue.
(** ** Replies of several lines *)

(** A line of a reply, as [fgets] reads it: four characters at least. *)
Definition reply_line (code : list Z) (sep : Z) (l : list Z) : Prop :=
  length code = 3%nat /\ Url.nonzero l /\ exists rest, l = code ++ sep :: rest.
Lemma reply_line_3 code sep l line : reply_line code sep l -> znth (l ++ 0 :: line) 3 = Some sep.
Proof. intros (Hl & _ & rest & ->). destruct code as [|? [|? [|? [|]]]]; done. Qed.
Lemma reply_line_code code sep l line : reply_line code sep l -> take 3 (c_string (l ++ 0 :: line) ++ [0]) = code.
Proof.
  intros (Hl & Hz & rest & ->). rewrite Url.c_string_app by done. destruct code as [|? [|? [|? [|]]]]; done.
Qed.

(** The lines between the first and the last one: not a last line of this code. *)
Definition middle_line (code l : list Z) : Prop :=
  exists code' sep, reply_line code' sep l /\ (sep = 32 -> code' <> code).

Lemma reply_loop_middle td code mids l rest line acc :
  Forall (middle_line code) mids -> reply_line code 32 l -> Url.nonzero code -> length code = 3%nat ->
  zlen acc + zlen (concat mids) < 1022 ->
  reply_loop td ((Some <$> mids) ++ Some l :: rest) line (code ++ [0]) acc = Some (inr (acc ++ concat mids ++ l, rest)).
Proof.
  intros Hm Hl Hc Hlen Hacc. assert (exists c0 c1 c2, code = [c0; c1; c2] /\ c0 <> 0) as (c0 & c1 & c2 & Ec & Hc0).
  { destruct code as [|c0 [|c1 [|c2 [|]]]]; try done. inversion Hc. eauto. }
  assert (take 3 (c_string (code ++ [0]) ++ [0]) = code) as Hst.
  { rewrite Url.c_string_app by done. by rewrite take_app_length'. }
  revert line acc Hacc. induction Hm as [|m mids (code' & sep & Hml & Hsep) _ IH]; intros line acc Hacc; cbn [fmap list_fmap Datatypes.app reply_loop concat].
  - rewrite (reply_line_3 code 32) by done. change (32 =? 45) with false. cbn [andb].
    assert (znth (code ++ [0]) 0 = Some c0) as -> by (by rewrite Ec). change (32 =? 32) with true. cbv iota.
    destruct (Z.eqb_spec c0 0); [done|]. cbn [negb].
    unfold strneq. rewrite Hst, (reply_line_code code 32) by done. rewrite bool_decide_true by done. cbn [negb andb].
    destruct Hl as (_ & Hz & _). by rewrite Url.c_string_app.
  - rewrite (reply_line_3 code' sep) by done. replace (znth (code ++ [0]) 0) with (Some c0) by (by rewrite Ec).
    destruct (Z.eqb_spec c0 0); [done|]. rewrite andb_false_r. replace (znth (code ++ [0]) 0) with (Some c0) by (by rewrite Ec).
    assert ((if sep =? 32 then if negb (c0 =? 0) then strneq 3 (code ++ [0]) (m ++ 0 :: drop (S (length m)) line) else true else false) = false) as Hfin.
    { destruct (Z.eqb_spec sep 32) as [->|]; [|done]. destruct (Z.eqb_spec c0 0); [done|]. cbn [negb]. unfold strneq.
      rewrite Hst, (reply_line_code code' 32) by done. apply bool_decide_false. intros E. by apply Hsep. }
    destruct (Z.eqb_spec c0 0); [done|]. cbn [negb] in Hfin |- *. rewrite Hfin. cbn [negb andb]. destruct Hml as (_ & Hz & _). rewrite Url.c_string_app by done.
    cbn [concat] in Hacc. rewrite length_app in Hacc. rewrite length_app. destruct (Z.ltb_spec (Z.of_nat (length acc + length m)) 1022); [|lia].
    rewrite IH by (rewrite length_app; lia). by rewrite <- !app_assoc.
Qed.

(** A whole reply is read, of one line or of several, and nothing of the next one. *)
Lemma recv_reply_one td code l rest : reply_line code 32 l -> recv_reply td (Some l :: rest) = Some (inr (l, rest)).
Proof.
  intros Hl. unfold recv_reply. cbn [reply_loop]. rewrite (reply_line_3 code 32) by done. cbn. destruct Hl as (_ & Hz & _).
  by rewrite Url.c_string_app.
Qed.
Lemma recv_reply_many td code first mids l rest :
  reply_line code 45 first -> Url.nonzero code -> Forall (middle_line code) mids -> reply_line code 32 l ->
  zlen (first ++ concat mids) < 1022 ->
  recv_reply td (Some first :: (Some <$> mids) ++ Some l :: rest) = Some (inr (first ++ concat mids ++ l, rest)).
Proof.
  intros Hf Hc Hm Hl Hs. rewrite length_app in Hs. unfold recv_reply. cbn [reply_loop]. rewrite (reply_line_3 code 45) by done.
  change (znth [0; 0; 0; 0] 0) with (Some 0). change (45 =? 45) with true. change (0 =? 0) with true. change (45 =? 32) with false. cbn [andb].
  assert (Url.strncpy [0; 0; 0; 0] (c_string (first ++ 0 :: drop (S (length first)) [])) 3 = code ++ [0]) as ->.
  { destruct Hf as (Hlen & Hz & r & ->). rewrite Url.c_string_app by done. unfold Url.strncpy. destruct code as [|? [|? [|? [|]]]]; done. }
  replace (znth (code ++ [0]) 0) with (head code) by (destruct Hf as (Hlen & _); destruct code as [|? [|? [|? [|]]]]; done).
  destruct code as [|c0 code]; [by destruct Hf|]. cbn [head negb andb Datatypes.app].
  destruct Hf as (Hlen & Hz & _). rewrite Url.c_string_app by done. cbn [Datatypes.app]. destruct (Z.ltb_spec (zlen first) 1022); [|lia].
  change (c0 :: code ++ [0]) with ((c0 :: code) ++ [0]). rewrite (reply_loop_middle td (c0 :: code)) by (done || lia). done.
Qed.

(** ** The transfer *)

Lemma recv_data_left max rs a rs' : recv_data max rs = Some (a, rs') -> (length rs' < length rs)%nat.
Proof.
  revert max. induction rs as [|r rs IH]; intros max Hr; [done|].
  assert (Some (a, rs') = Some (a, rs) -> (length rs' < length (r :: rs))%nat) as Hnext by (intros [= ->]; simpl; lia).
  destruct r as [d|selected|eintr]; cbn [recv_data] in Hr; [apply Hnext; congruence| |apply Hnext; congruence].
  destruct (selected =? -1); [apply Hnext; congruence|]. destruct (0 <? selected); [|apply Hnext; congruence].
  destruct max; [apply Hnext; congruence|]. apply IH in Hr. simpl. lia.
Qed.
(** One turn per answer is enough. *)
Lemma transfer_fuel inited k k' rs pws fo td ws b : (length rs < k)%nat -> (length rs < k')%nat -> transfer inited k rs pws fo td ws b = transfer inited k' rs pws fo td ws b.
Proof.
  revert k' rs pws td ws b. induction k as [|k IH]; intros k' rs pws td ws b Hk Hk'; [lia|]. destruct k' as [|k']; [lia|]. cbn [transfer].
  destruct (offset td <? fo); [|done]. destruct (recv_data 3 rs) as [[[[dr rbuf]|] rs']|] eqn:E; [|done..]. apply recv_data_left in E.
  destruct (if fo <? offset td + dr then _ else _). destruct inited; [|done]. apply IH; lia.
Qed.

(** From pieces, the loop is the one of [http_get]. *)
Lemma transfer_get_loop inited k chunks pws fo td ws b : (length chunks < k)%nat ->
  transfer inited k (Got <$> chunks) pws fo td ws b = get_loop inited (Some <$> chunks) pws fo td ws b.
Proof.
  revert k pws td ws b. induction chunks as [|d chunks IH]; intros k pws td ws b Hk; (destruct k as [|k]; [lia|]); cbn [transfer fmap list_fmap get_loop recv_data]; [done|].
  destruct (offset td <? fo); [|done]. destruct (if fo <? offset td + zlen d then _ else _). destruct inited; [|done]. apply IH. simpl in Hk. lia.
Qed.

(** ** The passive address *)

Definition decimal (n : Z) (l : list Z) : Prop :=
  (1 <= length l <= 3)%nat /\ Forall (fun c => 48 <= c <= 57) l /\ atoi_digits l 0 = n.
Lemma digits_decimal j n l c s : decimal n l -> (length l <= j)%nat -> c = 44 \/ c = 41 -> digits j (l ++ c :: s) = (l, c :: s).
Proof.
  intros (_ & Hd & _) Hj Hc. revert j Hj. induction Hd as [|x l Hx _ IH]; intros j Hj.
  { destruct j; cbn [digits Datatypes.app]; [done|]. destruct Hc as [-> | ->]; done. }
  destruct j as [|j]; [simpl in Hj; lia|]. cbn [digits Datatypes.app ends].
  destruct (Z.eqb_spec x 0), (Z.eqb_spec x 13), (Z.eqb_spec x 10), (Z.eqb_spec x 44), (Z.eqb_spec x 41); try lia. cbn [orb]. rewrite IH by (simpl in Hj; lia). done.
Qed.
Lemma atoi_decimal n l : decimal n l -> atoi l = n.
Proof.
  intros ([Hl _] & Hd & <-). destruct l as [|c l]; [simpl in Hl; lia|]. apply Forall_cons in Hd as [Hc _]. cbn [atoi].
  destruct (Z.eqb_spec c 32), (Z.leb_spec 9 c), (Z.leb_spec c 13), (Z.eqb_spec c 45), (Z.eqb_spec c 43); (lia || done).
Qed.
Lemma addr_loop_decimal k n l c s : decimal n l -> 0 <= n < 256 -> c = 44 \/ c = 41 ->
  addr_loop (S k) (l ++ c :: s) = n :: addr_loop k s.
Proof.
  intros Hd Hn Hc. assert (ends (l ++ c :: s) = false) as He.
  { destruct Hd as ([Hl _] & Hd & _). destruct l as [|x l]; [simpl in Hl; lia|]. apply Forall_cons in Hd as [Hx _]. cbn [ends Datatypes.app].
    destruct (Z.eqb_spec x 0), (Z.eqb_spec x 13), (Z.eqb_spec x 10); (lia || done). }
  cbn [addr_loop]. rewrite He. assert (length l <= 3)%nat by apply Hd. rewrite (digits_decimal 3 n l c s) by (done || lia).
  rewrite (atoi_decimal n l) by done. cbn [tail]. f_equal. unfold to_uint. apply wrap_u_id. lia.
Qed.

(** The text of a reply to [PASV]. *)
Definition pasv_reply (show_d : Z -> list Z) (intro : list Z) (a0 a1 a2 a3 a4 a5 : Z) (after : list Z) : list Z :=
  intro ++ 40 :: show_d a0 ++ 44 :: show_d a1 ++ 44 :: show_d a2 ++ 44 :: show_d a3 ++ 44 :: show_d a4 ++ 44 :: show_d a5 ++ 41 :: after.
Lemma skip_paren_app intro s : Forall (fun c => c <> 0 /\ c <> 13 /\ c <> 10 /\ c <> 40) intro -> skip_paren (intro ++ 40 :: s) = 40 :: s.
Proof.
  induction 1 as [|c intro (H0 & H1 & H2 & H3) _ IH]; cbn [skip_paren Datatypes.app ends]; [done|].
  destruct (Z.eqb_spec c 0), (Z.eqb_spec c 13), (Z.eqb_spec c 10), (Z.eqb_spec c 40); done.
Qed.

Section PasvSection.
Variable show_d : Z -> list Z.
(** [%d] of a small number. *)
Hypothesis Hshow : forall n, 0 <= n < 256 -> decimal n (show_d n).

(** The address is read back, up to its fourteenth character; the port always. *)
Lemma pasv_round_trip intro a0 a1 a2 a3 a4 a5 after :
  Forall (fun c => c <> 0 /\ c <> 13 /\ c <> 10 /\ c <> 40) intro -> Forall (fun n => 0 <= n < 256) [a0; a1; a2; a3; a4; a5] -> 0 < a0 ->
  parse_pasv_reply2 show_d (pasv_reply show_d intro a0 a1 a2 a3 a4 a5 after) =
    Some (take 14 (show_d a0 ++ [46] ++ show_d a1 ++ [46] ++ show_d a2 ++ [46] ++ show_d a3), a4 * 256 + a5).
Proof.
  intros Hi Ha H0. rewrite !Forall_cons in Ha. destruct Ha as (B0 & B1 & B2 & B3 & B4 & B5 & _).
  unfold parse_pasv_reply2, pasv_reply. rewrite skip_paren_app by done. cbn [tail].
  rewrite (addr_loop_decimal 5 a0), (addr_loop_decimal 4 a1), (addr_loop_decimal 3 a2), (addr_loop_decimal 2 a3), (addr_loop_decimal 1 a4),
    (addr_loop_decimal 0 a5) by (done || (by apply Hshow) || (by left) || (by right)). cbn [addr_loop].
  destruct (Z.eqb_spec a0 0); [lia|]. do 2 f_equal. unfold wrap_u. rewrite Z.shiftl_mul_pow2 by lia. apply Z.mod_small. lia.
Qed.
End PasvSection.

(** ** A thread and its server *)

(** [ls] are the lines of one reply with the text [t]. *)
Definition a_reply (ls : list (option (list Z))) (t : list Z) : Prop :=
  forall td rest, recv_reply td (ls ++ rest) = Some (inr (t, rest)).
Definition replies_with (code : string) (ls : list (option (list Z))) : Prop :=
  exists t, a_reply ls t /\ strneq 3 t (text code) = true.

Section Thread.
Variables (content : Z -> Z) (show_d show_ld : Z -> list Z).

(** A new connection is greeted and the user accepted; the connection of [ftp_head_req] has
    one reply left. *)
Definition lets_in (pe : peer) (fd : ftp_data) (opening : list (option (list Z))) : Prop :=
  if head_sd fd =? -1 then
    c_socket pe && c_connect pe = true /\
    exists g tg u p, opening = g ++ u ++ p /\ a_reply g tg /\ positive tg = true /\ replies_with "331" u /\ replies_with "230" p
  else exists t, a_reply opening t.

(** A server that lets the thread in, takes [REST], answers [TYPE I] somehow, [PASV] with an
    address it listens at, and then sends the file from the offset on; the local file takes
    all of it. *)
Record cooperates (fd : ftp_data) (td : thread_data) (pe : peer) : Prop := {
  co_fdopen : c_fdopen pe = true;
  co_lines : exists opening rest_ok typed passive t t' ip po left,
    lines pe = opening ++ rest_ok ++ typed ++ passive ++ left /\ lets_in pe fd opening /\ replies_with "350" rest_ok /\
    a_reply typed t /\ a_reply passive t' /\ parse_pasv_reply2 show_d t' = Some (ip, po) /\ d_socket pe && d_connect pe ip po = true;
  co_data : exists chunks, data pe = Got <$> chunks /\ Forall (fun d => d <> []) chunks /\
    served content (soffset td) (concat chunks) /\ foffset td - soffset td <= zlen (concat chunks);
  co_file : takes pe = []
}.

Lemma login_in pe fd td opening left : c_fdopen pe = true -> head_sd fd = -1 -> lets_in pe fd opening -> lines pe = opening ++ left ->
  login pe fd td = Some (inr (left, [command_n "USER " (username fd); command_n "PASS " (password fd)])).
Proof.
  intros Hf Hh Hl Hls. unfold lets_in in Hl. rewrite Hh in Hl. destruct Hl as (Hup & g & tg & u & p & -> & Hg & Hpos & (tu & Hu & Eu) & (tp & Hp & Ep)).
  unfold login, reply. rewrite Hup, Hf, Hls, <- !app_assoc, Hg. cbn [negb bind]. rewrite Hpos, Hu. cbn [negb bind].
  unfold expect. rewrite Eu. cbn [bind]. rewrite Hp. cbn [bind]. by rewrite Ep.
Qed.

(** The commands of a thread. *)
Lemma dialogue_commands pe fd td : cooperates fd td pe ->
  dialogue show_d show_ld pe fd td =
    Some (inr ((if head_sd fd =? -1 then [command_n "USER " (username fd); command_n "PASS " (password fd)] else []) ++
               [command_n "REST " (show_ld (soffset td)); command "TYPE I" []; command "PASV" []; command_n "RETR " (drop 1 (url fd))])).
Proof.
  intros [Hf (opening & r & ty & pa & t & t' & ip & po & left & Hls & Hin & (tr & Hr & Er) & Hty & Hpa & Hip & Hup) _ _].
  unfold dialogue. destruct (Z.eqb_spec (head_sd fd) (-1)) as [E|E].
  - rewrite (login_in pe fd td opening (r ++ ty ++ pa ++ left)) by done. cbn [bind]. unfold reply, expect. rewrite Hf, Hr. cbn [bind].
    rewrite Er. cbn [bind]. rewrite Hty. cbn [bind]. rewrite Hpa. cbn [bind]. rewrite Hip. cbn [fst snd]. by rewrite Hup.
  - unfold lets_in in Hin. destruct (Z.eqb_spec (head_sd fd) (-1)); [done|]. destruct Hin as [to Ho]. unfold reply, expect. rewrite Hf, Hls, Ho. cbn [bind].
    rewrite Hr. cbn [bind]. rewrite Er. cbn [bind]. rewrite Hty. cbn [bind]. rewrite Hpa. cbn [bind]. rewrite Hip. cbn [fst snd]. by rewrite Hup.
Qed.

Lemma ftp_get_succeeds fd td pe : 0 <= soffset td <= foffset td -> (soffset td < foffset td -> cooperates fd td pe) ->
  succeeds content (ftp_get show_d show_ld true pe fd) td.
Proof.
  intros Ho Hco. unfold succeeds, ftp_get. destruct (Z.ltb_spec (soffset td) 0); [lia|]. cbn [orb].
  destruct (Z.leb_spec (foffset td) (soffset td)) as [Hle|Hlt].
  { eexists _, []. split; [do 2 f_equal; lia|]. split; [done|]. split; [done|intros; lia]. }
  specialize (Hco Hlt). rewrite dialogue_commands by done. destruct Hco as [_ _ (chunks & -> & Hne & Hs & Hl) ->].
  rewrite length_fmap, transfer_get_loop by lia. destruct (get_loop_fills content chunks (set_offset (soffset td) td) [] 0) as (ws & Eg & Hf); [done|done|simpl; lia|].
  cbn [foffset set_offset offset] in *. rewrite Eg. eexists _, _. split; [reflexivity|]. split; [done|exact Hf].
Qed.
(** Without an initialised mutex the first piece ends the process. *)
Lemma ftp_get_aborts fd td pe : 0 <= soffset td < foffset td -> cooperates fd td pe -> ftp_get show_d show_ld false pe fd td = Some ProcessAbort.
Proof.
  intros Ho Hco. unfold ftp_get. destruct (Z.ltb_spec (soffset td) 0); [lia|]. destruct (Z.leb_spec (foffset td) (soffset td)); [lia|]. cbn [orb].
  rewrite dialogue_commands by done. destruct Hco as [_ _ (chunks & -> & _ & _ & Hl) _]. rewrite length_fmap, transfer_get_loop by lia.
  destruct chunks as [|d chunks]; [simpl in Hl; lia|]. cbn [fmap list_fmap get_loop offset set_offset negb]. destruct (Z.ltb_spec (soffset td) (foffset td)); [|lia].
  by destruct (if foffset td <? _ then _ else _).
Qed.
Lemma ftp_get_done inited fd td pe : foffset td <= soffset td -> ftp_get show_d show_ld inited pe fd td = Some (ThreadExit (set_ok td) [] 0).
Proof. intros H. unfold ftp_get. destruct (Z.leb_spec (foffset td) (soffset td)); [|lia]. by rewrite orb_true_r. Qed.
End Thread.

Definition planned_ftp (clen n i : Z) (td : thread_data) : thread_data :=
  mkThread (getstr td) (seg_start clen n i) (seg_end clen n i) (seg_start clen n i) clen (status td).
Lemma cooperates_ext content show_d fd td td' pe : soffset td = soffset td' -> foffset td = foffset td' ->
  cooperates content show_d fd td pe -> cooperates content show_d fd td' pe.
Proof. intros E1 E2 [Hf Hl Hd Hw]. split; [done|done| |done]. by rewrite <- E1, <- E2. Qed.
(** Whether a server cooperates does not depend on the names. *)
Lemma cooperates_names content show_d fd fd' td pe : head_sd fd = head_sd fd' -> cooperates content show_d fd td pe -> cooperates content show_d fd' td pe.
Proof. intros E [Hf Hl Hd Hw]. split; [done| |done|done]. unfold lets_in in *. by rewrite <- E. Qed.

Lemma setup_planned_ftp clen n wt : 0 < n -> 0 <= clen -> zlen wt = n -> setup_loop (setup_ftp clen n) (Z.to_nat n) 0 wt = Some (plans (planned_ftp clen n) 0 wt).
Proof.
  intros Hn Hc Hl. apply setup_all; [done|]. intros i td _. unfold setup_ftp, calc_offset. destruct (Z.eqb_spec n 0); [lia|]. by rewrite Z.quot_div_nonneg by lia.
Qed.
(** A download over FTP when [startHTTP] has been called before. When the head request found that the server resumes, and every
    thread's server cooperates (the first on the connection of the head request, the others
    after a login; replies of one line or several), [startFTP] divides the bytes among the
    threads, each asks for its part, and one round completes the file: it holds the content
    in whatever order the writes come, [bwritten] is the size, nothing else has changed. *)
Lemma ftp_download_correct content show_d show_ld fsuggested asked head user pass path clen dk mem peers rounds file n :
  n = choose_nthreads fsuggested asked clen -> 0 < n -> 0 < clen < 2 ^ 31 -> n <= zlen mem ->
  open_file dk = Some true -> seek_ok dk = true -> write_ok dk = true ->
  (forall i, 0 <= i < n -> seg_start clen n i < seg_end clen n i ->
     cooperates content show_d (mkFtp (if i =? 0 then head else -1) user pass path) (planned_ftp clen n i thread0) (peers i)) ->
  exists wt w ws, startFTP show_d show_ld true fsuggested asked 1 head user pass path clen dk mem (peers :: rounds) = (n, Complete wt (w :: ws) clen) /\
    forall ws', ws' ≡ₚ ws ->
      (forall p, 0 <= p < clen -> foldl write_at file (w :: ws') p = content p) /\
      (forall p, ~ 0 <= p < clen -> foldl write_at file (w :: ws') p = file p).
Proof.
  intros En Hn Hc Hm Ho Hsk Hw Hs. unfold startFTP. cbv zeta. rewrite Z.eqb_refl, <- En, Ho. unfold allocate. rewrite Hsk, Hw. cbn [negb orb].
  destruct (Z.ltb_spec (clen - 1) 0); [lia|]. set (wt0 := take (Z.to_nat n) mem).
  assert (zlen wt0 = n) as Hl by (unfold wt0; rewrite length_take; lia).
  destruct (download_round content clen n (planned_ftp clen n) Hn ltac:(lia) ltac:(done)
    (setup_loop (setup_ftp clen n) (Z.to_nat n) 0) (ftp_threads show_d show_ld true head user pass path peers)
    (ftp_threads show_d show_ld true head user pass path <$> rounds) wt0 file) as (wt & ws & Er & Hfile); [done|done|..].
  - apply setup_planned_ftp; (done || lia).
  - intros k td Hk. rewrite plans_lookup in Hk. apply fmap_Some in Hk as (td0 & Hk & ->). apply lookup_lt_Some in Hk. rewrite Z.add_0_l.
    pose proof (seg_order clen n (Z.of_nat k) ltac:(lia) ltac:(lia)) as [Hso _]. apply ftp_get_succeeds; [done|]. intros Hlt.
    eapply cooperates_ext; [| |apply Hs; [lia|exact Hlt]]; done.
  - exists wt, (last_byte clen), ws. by rewrite fmap_cons, Er.
Qed.

(** Without it the same download is aborted at its first write. *)
Lemma ftp_download_aborts content show_d show_ld fsuggested asked head user pass path clen dk mem peers rounds n :
  n = choose_nthreads fsuggested asked clen -> 0 < n -> 0 < clen < 2 ^ 31 -> n <= zlen mem ->
  open_file dk = Some true -> seek_ok dk = true -> write_ok dk = true ->
  (forall i, 0 <= i < n -> seg_start clen n i < seg_end clen n i ->
     cooperates content show_d (mkFtp (if i =? 0 then head else -1) user pass path) (planned_ftp clen n i thread0) (peers i)) ->
  aborted (snd (startFTP show_d show_ld false fsuggested asked 1 head user pass path clen dk mem (peers :: rounds))).
Proof.
  intros En Hn Hc Hm Ho Hsk Hw Hs. unfold startFTP. cbv zeta. rewrite Z.eqb_refl, <- En, Ho. unfold allocate. rewrite Hsk, Hw. cbn [negb orb snd].
  destruct (Z.ltb_spec (clen - 1) 0); [lia|]. rewrite fmap_cons. set (wt0 := take (Z.to_nat n) mem). assert (zlen wt0 = n) as Hl by (unfold wt0; rewrite length_take; lia).
  apply (retry_aborts _ _ _ _ _ _ (plans (planned_ftp clen n) 0 wt0)); [apply setup_planned_ftp; lia| |].
  - intros k td Hk. rewrite plans_lookup in Hk. apply fmap_Some in Hk as (td0 & Hk & ->). apply lookup_lt_Some in Hk. rewrite Z.add_0_l.
    pose proof (seg_order clen n (Z.of_nat k) ltac:(lia) ltac:(lia)) as [Hso _]. unfold ftp_threads.
    destruct (Z.ltb_spec (soffset (planned_ftp clen n (Z.of_nat k) td0)) (foffset (planned_ftp clen n (Z.of_nat k) td0))) as [Hlt|Hge]; simpl in *.
    + apply (ftp_get_aborts content); [simpl; lia|]. eapply cooperates_ext; [| |apply Hs; [lia|exact Hlt]]; done.
    + eexists _, _, _. apply ftp_get_done. simpl. lia.
  - assert (divides clen n (planned_ftp clen n)) as Hdiv by done.
    eapply Exists_impl; [apply (proj2 (segments_cover clen n (planned_ftp clen n) Hn ltac:(lia) Hdiv wt0 0 Hl)); lia|]. intros td [? ?]. cbv beta. lia.
Qed.

(** ** Samples *)

Lemma one_line code l : reply_line code 32 l -> a_reply [Some l] l.
Proof. intros Hl td rest. by apply (recv_reply_one td code). Qed.
Definition line (s : string) : list Z := text s ++ CRLF.
Lemma line_reply (s : string) (c0 c1 c2 : Z) rest : text s = [c0; c1; c2] ++ 32 :: rest -> Url.nonzero (line s) -> a_reply [Some (line s)] (line s).
Proof. intros E Hz. apply (one_line [c0; c1; c2]). split; [done|]. split; [done|]. unfold line. rewrite E. by exists (rest ++ CRLF). Qed.
Ltac solve_line := eapply line_reply; [reflexivity|repeat constructor; done].

Definition sample_replies : list (option (list Z)) :=
  Some <$> [line "350 ok"; line "200 ok"; line "227 at (9,8,7,6,1,5)"].
Definition sample_peer (i : Z) : peer :=
  mkPeer true true true
    ((if i =? 0 then [Some (line "226 done")] else Some <$> [line "220 hi"; line "331 who"; line "230 in"]) ++ sample_replies)
    true (fun _ _ => true) (if i =? 0 then [Got [65]; Got [66; 67]] else [Got [67; 68; 69]]) [].

(** An address of four times three digits loses the last one. *)
Definition three_digits (n : Z) : list Z := [48 + n / 100; 48 + n / 10 mod 10; 48 + n mod 10].
Lemma pasv_address_cut :
  parse_pasv_reply2 three_digits (line "227 at (192,168,100,200,4,1)") = Some (text "192.168.100.20", 1025).
Proof. vm_compute. reflexivity. Qed.

Lemma sample_cooperates user pass path i : 0 <= i < 2 ->
  cooperates sample_content (fun n => [48 + n]) (mkFtp (if i =? 0 then 4 else -1) user pass path) (planned_ftp 5 2 i thread0) (sample_peer i).
Proof.
  intros Hi. split; [done| | |done].
  - exists (if i =? 0 then [Some (line "226 done")] else Some <$> [line "220 hi"; line "331 who"; line "230 in"]), [Some (line "350 ok")], [Some (line "200 ok")],
      [Some (line "227 at (9,8,7,6,1,5)")], (line "200 ok"), (line "227 at (9,8,7,6,1,5)"), [57; 46; 56; 46; 55; 46; 54], 261, [].
    split; [reflexivity|]. split; [|split; [|split; [|split; [|done]]]].
    + unfold lets_in. assert (i = 0 \/ i = 1) as [-> | ->] by lia; cbn [Z.eqb head_sd].
      * exists (line "226 done"). solve_line.
      * split; [done|]. exists [Some (line "220 hi")], (line "220 hi"), [Some (line "331 who")], [Some (line "230 in")]. split; [done|].
        split; [solve_line|]. split; [done|].
        split; (eexists; split; [solve_line|vm_compute; reflexivity]).
    + eexists. split; [solve_line|vm_compute; reflexivity].
    + solve_line.
    + solve_line.
  - assert (i = 0 \/ i = 1) as [-> | ->] by lia; [exists [[65]; [66; 67]]|exists [[67; 68; 69]]]; (split; [done|]);
      (split; [repeat constructor; done|]); (split; [apply served_seq; vm_compute; reflexivity|vm_compute; done]).
Qed.
Lemma ftp_download_correct_witness : exists wt w ws,
  startFTP (fun n => [48 + n]) (fun n => [48 + n]) true 1 2 1 4 [] [] [] 5 sample_disk (replicate 2 thread0) [sample_peer] = (2, Complete wt (w :: ws) 5) /\
  forall p, 0 <= p < 5 -> foldl write_at (fun _ => 0) (w :: ws) p = sample_content p.
Proof.
  destruct (ftp_download_correct sample_content (fun n => [48 + n]) (fun n => [48 + n]) 1 2 4 [] [] [] 5 sample_disk (replicate 2 thread0) sample_peer [] (fun _ => 0) 2)
    as (wt & w & ws & E & Hc); [reflexivity|lia|lia|vm_compute; done|reflexivity..| |exists wt, w, ws; split; [exact E|exact (proj1 (Hc ws (Permutation_refl ws)))]].
  intros i Hi _. by apply sample_cooperates.
Defined.
End Ftp.
