(* ===== verification/Rc.v ===== *)
(** The rc file of [src/papps/aget-devel/loadrc.c]: how its lines are read ([loadconfig]), the
    file a first start leaves ([createrc]), and what [readrc] makes of both.

    [buf] is the array [fgets] fills, line after line, so that what a line leaves behind is
    still there when a shorter one follows; an access outside it is [None]. *)
From stdpp Require Import base list strings.
From Stdlib Require Import ZArith Lia.
From S2P Require Import Prelude Aget Url Ftp.

Module Rc.
Import Aget.

Definition BUFSIZE : Z := 1024.
Definition KEYSIZE : Z := 64.
Definition VALSIZE : Z := 256.

(** [ctype.h] in the C locale. *)
Definition isspace (c : Z) : bool := (c =? 32) || ((9 <=? c) && (c <=? 13)).
Definition isgraph (c : Z) : bool := (33 <=? c) && (c <=? 126).

(** The variables of [loadrc.h]; the arrays have [VALSIZE] characters. *)
Record config := mkConfig {
  ftpanonymoususer : list Z; ftpanonymouspass : list Z; http_proxyhost : list Z; http_proxyuser : list Z;
  http_proxypass : list Z; preferredthread : Z; http_proxyport : Z
}.
Definition empty : list Z := replicate (Z.to_nat VALSIZE) 0.
Definition config0 : config := mkConfig empty empty empty empty empty (-1) (-1).

(** ** A line *)

(** [while (p( *cp1) && (cp1 - buf < slen)) cp1++;], of at most [k] turns. *)
Fixpoint skip (p : Z -> bool) (buf : list Z) (slen : Z) (k : nat) (cp1 : Z) : option Z :=
  let? c := znth buf cp1 in
  if p c && (cp1 <? slen) then match k with O => None | S k => skip p buf slen k (cp1 + 1) end
  else Some cp1.

(** [while (p( *cp1) && (j++ < n) && (cp1 - buf < slen)) *cp2++ = *cp1++;]: the characters
    copied, and [cp1]. *)
Fixpoint copy (p : Z -> bool) (buf : list Z) (slen : Z) (n : nat) (cp1 : Z) : option (list Z * Z) :=
  let? c := znth buf cp1 in
  if p c then
    match n with
    | O => Some ([], cp1)
    | S n =>
        if cp1 <? slen then let? (l, cp) := copy p buf slen n (cp1 + 1) in Some (c :: l, cp)
        else Some ([], cp1)
    end
  else Some ([], cp1).

Definition key_char (c : Z) : bool := isgraph c && negb (c =? 61).
Definition gap_char (c : Z) : bool := negb (c =? 0) && negb (c =? 10) && negb (c =? 61).
Definition value_char (c : Z) : bool := negb (c =? 0) && negb (c =? 10) && negb (c =? 34).

(** The keyword and the value of the string in [buf], of length [slen]. *)
Definition split_line (buf : list Z) (slen : Z) : option (list Z * list Z) :=
  let k := Z.to_nat slen in
  let? cp1 := skip isspace buf slen k 0 in
  let? (keyword, cp1) := copy key_char buf slen (Z.to_nat (KEYSIZE - 2)) cp1 in
  let? cp1 := skip gap_char buf slen k cp1 in
  let cp1 := cp1 + 1 in
  let? cp1 := skip isspace buf slen k cp1 in
  let? c := znth buf cp1 in
  let cp1 := if c =? 34 then cp1 + 1 else cp1 in
  let? (value, _) := copy value_char buf slen (Z.to_nat (VALSIZE - 2)) cp1 in
  Some (keyword, value).

(** [variables[]] *)
Definition variables : list (list Z) :=
  text <$> ["Invalid"; "ftpanonymoususer"; "ftpanonymouspass"; "http_proxyhost"; "http_proxyuser"; "http_proxypass"; "preferredthread"]%string.
Fixpoint find_key (i : Z) (vs : list (list Z)) (keyword : list Z) : Z :=
  match vs with
  | [] => 0
  | v :: vs => if bool_decide (v = keyword) then i else find_key (i + 1) vs keyword
  end.

(** [strncpy(dst, value, VALSIZE)] *)
Definition store (dst value : list Z) : list Z := Url.strncpy dst value (Z.to_nat VALSIZE).
(** The [switch]; key 0 is reported only. *)
Definition assign (key : Z) (value : list Z) (c : config) : config :=
  if key =? 1 then mkConfig (store (ftpanonymoususer c) value) (ftpanonymouspass c) (http_proxyhost c) (http_proxyuser c) (http_proxypass c) (preferredthread c) (http_proxyport c)
  else if key =? 2 then mkConfig (ftpanonymoususer c) (store (ftpanonymouspass c) value) (http_proxyhost c) (http_proxyuser c) (http_proxypass c) (preferredthread c) (http_proxyport c)
  else if key =? 3 then mkConfig (ftpanonymoususer c) (ftpanonymouspass c) (store (http_proxyhost c) value) (http_proxyuser c) (http_proxypass c) (preferredthread c) (http_proxyport c)
  else if key =? 4 then mkConfig (ftpanonymoususer c) (ftpanonymouspass c) (http_proxyhost c) (store (http_proxyuser c) value) (http_proxypass c) (preferredthread c) (http_proxyport c)
  else if key =? 5 then mkConfig (ftpanonymoususer c) (ftpanonymouspass c) (http_proxyhost c) (http_proxyuser c) (store (http_proxypass c) value) (preferredthread c) (http_proxyport c)
  else if key =? 6 then mkConfig (ftpanonymoususer c) (ftpanonymouspass c) (http_proxyhost c) (http_proxyuser c) (http_proxypass c) (to_int (Ftp.atoi value)) (http_proxyport c)
  else c.

(** The body of the loop over the lines, for the buffer [fgets] has filled. *)
Definition config_line (buf : list Z) (c : config) : option config :=
  let? c0 := znth buf 0 in
  if c0 =? 35 then Some c
  else
    let? slen := Url.strlen buf in
    if slen <=? 1 then Some c
    else
      let? (keyword, value) := split_line buf slen in
      match keyword, value with
      | [], _ | _, [] => Some c
      | _, _ => Some (assign (find_key 0 variables keyword) value c)
      end.

(** [fgets(buf, BUFSIZE, fd)]: at most [n] characters, up to and with a newline. *)
Fixpoint fgets (n : nat) (s : list Z) : list Z * list Z :=
  match n, s with
  | S n, c :: s => if c =? 10 then ([c], s) else let (l, s) := fgets n s in (c :: l, s)
  | _, _ => ([], s)
  end.
(** [buf] after [fgets] has stored [l] and a zero. *)
Definition filled (l buf : list Z) : list Z := l ++ 0 :: drop (S (length l)) buf.

(** [loadconfig] from the text of the file; every turn takes a character at least. *)
Fixpoint config_loop (k : nat) (s buf : list Z) (c : config) : option config :=
  match s, k with
  | [], _ => Some c
  | _, O => None
  | _, S k =>
      let (l, s) := fgets (Z.to_nat (BUFSIZE - 1)) s in
      let? c := config_line (filled l buf) c in
      config_loop k s (filled l buf) c
  end.
Definition loadconfig (buf s : list Z) (c : config) : option config := config_loop (length s) s buf c.

(** ** The file *)

(** What [createrc] prints. *)
Definition createrc : list Z :=
  text "ftpanonymoususer = ftp" ++ [10] ++ text "ftpanonymouspass = aget@enderunix.org" ++ [10].

(** [strtok(s, ":")]: the token, or [None]. *)
Fixpoint span_not (c : Z) (s : list Z) : list Z :=
  match s with [] => [] | x :: s => if (x =? 0) || (x =? c) then [] else x :: span_not c s end.
Fixpoint skip_delim (c : Z) (s : list Z) : list Z :=
  match s with x :: s' => if x =? c then skip_delim c s' else s | [] => [] end.
Definition token (c : Z) (s : list Z) : option (list Z) :=
  let t := span_not c (skip_delim c s) in
  match t with [] => None | _ => Some t end.
(** Where [strtok(NULL, ":")] goes on, as an offset into the array: behind the delimiter that
    became the end of the token, or at the end of the string. *)
Definition next_token_at (c : Z) (s : list Z) : nat :=
  let stop := (length s - length (skip_delim c s) + length (span_not c (skip_delim c s)))%nat in
  match s !! stop with Some x => if x =? c then S stop else stop | None => stop end.

(** The port of the proxy: [http_proxyhost] is cut at the colon, the rest is looked at
    after [strncpy] has filled the array with zeros behind the host. *)
Definition proxy_port (c : config) : config :=
  let a := http_proxyhost c in
  match c_string a, token 58 a with
  | [], _ | _, None => c
  | _, Some tok =>
      let a' := Url.strncpy a tok (Z.to_nat (VALSIZE - 1)) in
      let port := match token 58 (drop (next_token_at 58 a) a') with Some t => to_int (Ftp.atoi t) | None => 80 end in
      mkConfig (ftpanonymoususer c) (ftpanonymouspass c) a' (http_proxyuser c) (http_proxypass c) (preferredthread c) port
  end.

(** What [readrc] finds: no entry in the password file; no rc file, which can be created or
    not; [stat] fails otherwise; the file cannot be opened; or its text. *)
Inductive found := NoUser | NoFile | StatFails | NotReadable | File (s : list Z).

(** [readrc]: the file it leaves, if any, and the variables; [inl] is [exit]. *)
Definition readrc (f : found) (create_ok : bool) (buf : list Z) (c : config) : Url.result (option (list Z) * config) :=
  match f with
  | NoUser => Some (inr (None, c))
  | NoFile => Some (inr (if create_ok then Some createrc else None, proxy_port c))
  | StatFails => Some (inl 1)
  | NotReadable => Some (inl (-1))
  | File s => let? c := loadconfig buf s c in Some (inr (Some s, proxy_port c))
  end.

(** ** Reading a line *)

Lemma skip_run p pre mid x post slen k : Forall (fun c => p c = true) mid -> p x = false -> zlen pre + zlen mid <= slen ->
  (length mid <= k)%nat -> skip p (pre ++ mid ++ x :: post) slen k (zlen pre) = Some (zlen (pre ++ mid)).
Proof.
  intros Hm Hx. revert pre k. induction Hm as [|c mid Hc _ IH]; intros pre k Hl Hk; rewrite ?app_nil_r; cbn [Datatypes.app]; (destruct k as [|k]; cbn [skip]);
    (rewrite znth_nat, list_lookup_middle by done); rewrite ?Hx, ?Hc; try done; [simpl in Hk; lia|].
  cbn [length] in *. destruct (Z.ltb_spec (zlen pre) slen); [|lia]. cbn [andb].
  specialize (IH (pre ++ [c]) k). rewrite length_app in IH. cbn [length] in IH. rewrite <- !app_assoc in IH. cbn [Datatypes.app] in IH.
  replace (Z.of_nat (length pre + 1)) with (zlen pre + 1) in IH by lia. rewrite <- IH by lia. done.
Qed.
Lemma copy_run p pre mid x post slen n : Forall (fun c => p c = true) mid -> p x = false -> zlen pre + zlen mid <= slen ->
  (length mid <= n)%nat -> copy p (pre ++ mid ++ x :: post) slen n (zlen pre) = Some (mid, zlen (pre ++ mid)).
Proof.
  intros Hm Hx. revert pre n. induction Hm as [|c mid Hc _ IH]; intros pre n Hl Hn; rewrite ?app_nil_r; cbn [Datatypes.app]; (destruct n as [|n]; cbn [copy]);
    (rewrite znth_nat, list_lookup_middle by done); rewrite ?Hx, ?Hc; try done; [simpl in Hn; lia|].
  cbn [length] in *. destruct (Z.ltb_spec (zlen pre) slen); [|lia].
  specialize (IH (pre ++ [c]) n). rewrite length_app in IH. cbn [length] in IH. rewrite <- !app_assoc in IH. cbn [Datatypes.app] in IH.
  replace (Z.of_nat (length pre + 1)) with (zlen pre + 1) in IH by lia. rewrite IH by lia. done.
Qed.

(** A setting as [createrc] writes it. *)
Definition setting (kv : Z * list Z) : list Z := default [] (znth variables (fst kv)) ++ [32; 61; 32] ++ snd kv ++ [10].
Record good_setting (kv : Z * list Z) : Prop := {
  gs_key : 1 <= fst kv <= 6;
  gs_length : 0 < zlen (snd kv) <= VALSIZE - 2;
  gs_chars : Forall (fun c => value_char c = true) (snd kv);
  gs_head : forall c, head (snd kv) = Some c -> isspace c = false
}.

Lemma variables_ok i : 1 <= i <= 6 -> exists c key, znth variables i = Some (c :: key) /\
  Forall (fun c => key_char c = true) (c :: key) /\ c <> 35 /\ (length (c :: key) <= Z.to_nat (KEYSIZE - 2))%nat /\ find_key 0 variables (c :: key) = i.
Proof.
  intros Hi. assert (i = 1 \/ i = 2 \/ i = 3 \/ i = 4 \/ i = 5 \/ i = 6) as Hc by lia.
  destruct Hc as [->|[->|[->|[->|[->| ->]]]]]; eexists _, _; (split; [vm_compute; reflexivity|]); (split; [repeat constructor|]);
    (split; [done|]); (split; [vm_compute; lia|vm_compute; reflexivity]).
Qed.
Lemma key_char_nonzero l : Forall (fun c => key_char c = true) l -> Url.nonzero l.
Proof. intros Hl. eapply Forall_impl; [exact Hl|]. by intros c Hc ->. Qed.
Lemma value_char_nonzero l : Forall (fun c => value_char c = true) l -> Url.nonzero l.
Proof. intros Hl. eapply Forall_impl; [exact Hl|]. by intros c Hc ->. Qed.

Lemma config_line_setting kv buf c : good_setting kv -> config_line (filled (setting kv) buf) c = Some (assign (fst kv) (snd kv) c).
Proof.
  destruct kv as [i v]. intros [Hi Hl Hv Hh]. cbn [fst snd] in *. destruct (variables_ok i Hi) as (k0 & key & Ek & Hk & H35 & Hkl & Hf).
  destruct v as [|v0 v]; [simpl in Hl; lia|]. specialize (Hh v0 eq_refl). unfold setting, filled. cbn [fst snd]. rewrite Ek. change (default [] (Some (k0 :: key))) with (k0 :: key).
  set (line := (k0 :: key) ++ [32; 61; 32] ++ (v0 :: v) ++ [10]). set (rest := drop (S (length line)) buf).
  assert (Url.nonzero line) as Hz.
  { unfold line. repeat (apply Forall_app; split); [by apply key_char_nonzero|by repeat constructor|by apply value_char_nonzero|by repeat constructor]. }
  assert (zlen line = zlen (k0 :: key) + 3 + zlen (v0 :: v) + 1) as El by (unfold line; rewrite !length_app; cbn [length]; lia).
  assert (v0 <> 34) as Hq. { apply Forall_cons in Hv as [Hv0 _]. unfold value_char in Hv0. by destruct (Z.eqb_spec v0 34); rewrite ?andb_false_r in Hv0. }
  unfold config_line. change (znth (line ++ 0 :: rest) 0) with (Some k0). destruct (Z.eqb_spec k0 35); [done|].
  rewrite Url.strlen_app by done. destruct (Z.leb_spec (zlen line) 1); [cbn [length] in El; lia|]. unfold split_line.
  assert (line ++ 0 :: rest = [] ++ [] ++ k0 :: key ++ [32; 61; 32] ++ (v0 :: v) ++ 10 :: 0 :: rest) as E1 by (unfold line; by rewrite <- !app_assoc).
  assert (isspace k0 = false) as Hs0.
  { apply Forall_cons in Hk as [Hk0 _]. unfold key_char, isgraph in Hk0. unfold isspace. destruct (Z.eqb_spec k0 32), (Z.leb_spec 9 k0), (Z.leb_spec k0 13), (Z.leb_spec 33 k0); try done; lia. }
  rewrite E1, (skip_run isspace [] [] k0) by (done || simpl; lia). cbn [length Datatypes.app Z.of_nat].
  change (k0 :: key ++ 32 :: 61 :: 32 :: v0 :: v ++ 10 :: 0 :: rest) with ([] ++ (k0 :: key) ++ 32 :: [61; 32] ++ (v0 :: v) ++ 10 :: 0 :: rest) at 1.
  rewrite (copy_run key_char []) by (done || (cbn [length] in *; lia)). cbn [Datatypes.app].
  change (k0 :: key ++ 32 :: 61 :: 32 :: v0 :: v ++ 10 :: 0 :: rest) with ((k0 :: key) ++ [32] ++ 61 :: 32 :: v0 :: v ++ 10 :: 0 :: rest) at 1.
  rewrite (skip_run gap_char (k0 :: key) [32] 61) by (done || (repeat constructor) || (cbn [length] in *; lia)).
  replace (zlen ((k0 :: key) ++ [32]) + 1) with (zlen ((k0 :: key) ++ [32; 61])) by (rewrite !length_app; cbn [length]; lia).
  replace (k0 :: key ++ 32 :: 61 :: 32 :: v0 :: v ++ 10 :: 0 :: rest) with (((k0 :: key) ++ [32; 61]) ++ [32] ++ v0 :: v ++ 10 :: 0 :: rest) by (by rewrite <- app_assoc).
  rewrite (skip_run isspace) by (done || (repeat constructor) || (rewrite ?length_app; cbn [length] in *; lia)).
  replace (((k0 :: key) ++ [32; 61]) ++ [32] ++ v0 :: v ++ 10 :: 0 :: rest) with ((((k0 :: key) ++ [32; 61]) ++ [32]) ++ (v0 :: v) ++ 10 :: 0 :: rest) by (by rewrite <- !app_assoc).
  assert (forall a b, znth (a ++ (v0 :: v) ++ b) (zlen a) = Some v0) as -> by (intros; rewrite znth_nat; by apply list_lookup_middle).
  destruct (Z.eqb_spec v0 34); [done|].
  rewrite (copy_run value_char) by (done || (rewrite ?length_app; cbn [length] in *; unfold VALSIZE in *; lia)). rewrite Hf. by destruct (Z.eqb_spec k0 35).
Qed.

Lemma fgets_line l n s : Forall (fun c => c <> 10) l -> (length l < n)%nat -> fgets n (l ++ 10 :: s) = (l ++ [10], s).
Proof.
  intros Hl. revert n. induction Hl as [|c l Hc _ IH]; intros n Hn; (destruct n as [|n]; [simpl in Hn; lia|]); cbn [fgets Datatypes.app]; [done|].
  destruct (Z.eqb_spec c 10); [done|]. rewrite IH by (simpl in Hn; lia). done.
Qed.
Lemma setting_line kv : good_setting kv -> exists l, setting kv = l ++ [10] /\ Forall (fun c => c <> 10) l /\ (length l < Z.to_nat (BUFSIZE - 1))%nat /\ l <> [].
Proof.
  destruct kv as [i v]. intros [Hi Hl Hv _]. cbn [fst snd] in *. destruct (variables_ok i Hi) as (k0 & key & Ek & Hk & _ & Hkl & _).
  exists ((k0 :: key) ++ [32; 61; 32] ++ v). unfold setting. cbn [fst snd]. rewrite Ek. change (default [] (Some (k0 :: key))) with (k0 :: key). split; [by rewrite <- !app_assoc|]. split; [|split; [|done]].
  - repeat (apply Forall_app; split); [eapply Forall_impl; [exact Hk|]|by repeat constructor|eapply Forall_impl; [exact Hv|]]; intros c Hc ->; done.
  - rewrite !length_app. cbn [length] in *. unfold KEYSIZE, VALSIZE, BUFSIZE in *. lia.
Qed.

(** The settings are assigned in the order of the file. *)
Lemma settings_assigned buf l c : Forall good_setting l ->
  loadconfig buf (concat (setting <$> l)) c = Some (foldl (fun c kv => assign (fst kv) (snd kv) c) c l).
Proof.
  intros Hl. unfold loadconfig. set (k := length _). assert (length (concat (setting <$> l)) <= k)%nat as Hk by done. clearbody k.
  revert buf c k Hk. induction Hl as [|kv l Hkv _ IH]; intros buf c k Hk; [by destruct k|].
  destruct (setting_line kv Hkv) as (t & Et & Ht & Hlt & Hne). rewrite fmap_cons in Hk |- *. cbn [concat foldl] in *. rewrite Et, length_app in Hk.
  rewrite length_app in Hk. cbn [length] in Hk. destruct k as [|k]; [lia|].
  assert (exists x r, setting kv ++ concat (setting <$> l) = x :: r) as (x & r & Ex). { rewrite Et. destruct t; [done|]. by eexists _, _. }
  rewrite Ex. cbn [config_loop]. rewrite <- Ex, Et, <- app_assoc. cbn [Datatypes.app]. rewrite fgets_line by done. rewrite <- Et, config_line_setting by done.
  apply IH. lia.
Qed.

(** The variables and their keywords. *)
Inductive variable := FtpUser | FtpPass | ProxyHost | ProxyUser | ProxyPass | Threads.
#[export] Instance variable_eq_dec : EqDecision variable.
Proof. solve_decision. Defined.
Definition keyword_of (v : variable) : string :=
  match v with
  | FtpUser => "ftpanonymoususer" | FtpPass => "ftpanonymouspass" | ProxyHost => "http_proxyhost"
  | ProxyUser => "http_proxyuser" | ProxyPass => "http_proxypass" | Threads => "preferredthread"
  end.
(** The string in a variable. *)
Definition text_of (v : variable) (c : config) : list Z :=
  c_string match v with
           | FtpUser => ftpanonymoususer c | FtpPass => ftpanonymouspass c | ProxyHost => http_proxyhost c
           | ProxyUser => http_proxyuser c | ProxyPass => http_proxypass c | Threads => []
           end.
(** A line as [createrc] writes it, and a value that one can hold: some characters, no
    newline, quote or zero among them, no blank in front. *)
Definition rc_line (s : variable * list Z) : list Z := text (keyword_of (fst s)) ++ text " = " ++ snd s ++ [10].
Definition rc_value (v : list Z) : Prop :=
  0 < zlen v <= VALSIZE - 2 /\ Forall (fun c => c <> 0 /\ c <> 10 /\ c <> 34) v /\ forall c, head v = Some c -> isspace c = false.
(** The last setting of a variable counts. *)
Definition last_value (v : variable) (l : list (variable * list Z)) : option (list Z) := snd <$> last (filter (fun s => fst s = v) l).

Definition key_of (v : variable) : Z :=
  match v with FtpUser => 1 | FtpPass => 2 | ProxyHost => 3 | ProxyUser => 4 | ProxyPass => 5 | Threads => 6 end.
Lemma rc_line_setting s : rc_line s = setting (key_of (fst s), snd s).
Proof. destruct s as [[] v]; reflexivity. Qed.
Lemma rc_value_good s : rc_value (snd s) -> good_setting (key_of (fst s), snd s).
Proof.
  intros (H1 & H2 & H3). split; [by destruct s as [[] ?]|done| |done]. eapply Forall_impl; [exact H2|]. intros c (N0 & N1 & N2). unfold value_char.
  destruct (Z.eqb_spec c 0), (Z.eqb_spec c 10), (Z.eqb_spec c 34); done.
Qed.
Lemma store_text dst v : rc_value v -> c_string (store dst v) = v.
Proof.
  intros ([_ Hl] & Hz & _). unfold store. destruct (Url.strncpy_split dst v (Z.to_nat VALSIZE)) as [t ->]; [unfold VALSIZE in *; lia|].
  apply Url.c_string_app. eapply Forall_impl; [exact Hz|]. by intros c [].
Qed.
Lemma assign_text v x w c : rc_value x -> w <> Threads -> text_of w (assign (key_of v) x c) = if decide (v = w) then x else text_of w c.
Proof. intros Hx Hw. destruct v, w; try done; cbn; by apply store_text. Qed.
Lemma last_value_snoc v l s : last_value v (l ++ [s]) = if decide (fst s = v) then Some (snd s) else last_value v l.
Proof.
  unfold last_value. rewrite filter_app. destruct (decide (fst s = v)) as [E|E]; [by rewrite filter_cons_True, filter_nil, last_snoc by done|].
  by rewrite filter_cons_False, filter_nil, app_nil_r by done.
Qed.


(** ** Every access is inside the arrays *)

Lemma skip_some p buf slen k cp : 0 <= cp < zlen buf -> slen < zlen buf -> slen - cp <= Z.of_nat k ->
  exists cp', skip p buf slen k cp = Some cp' /\ cp <= cp' <= Z.max cp slen.
Proof.
  revert cp. induction k as [|k IH]; intros cp Hcp Hs Hk; cbn [skip]; destruct (znth_Some buf cp Hcp) as [c ->];
    (destruct (p c); cbn [andb]; [|exists cp; split; [done|lia]]); (destruct (Z.ltb_spec cp slen); [|exists cp; split; [done|lia]]); [lia|].
  destruct (IH (cp + 1)) as (cp' & E & Hb); [lia..|]. exists cp'. split; [done|lia].
Qed.
Lemma copy_some p buf slen n cp : 0 <= cp < zlen buf -> slen < zlen buf ->
  exists l cp', copy p buf slen n cp = Some (l, cp') /\ cp <= cp' <= Z.max cp slen /\ (length l <= n)%nat.
Proof.
  revert cp. induction n as [|n IH]; intros cp Hcp Hs; cbn [copy]; destruct (znth_Some buf cp Hcp) as [c ->];
    (destruct (p c); [|exists [], cp; split; [done|simpl; lia]]); [exists [], cp; split; [done|simpl; lia]|].
  destruct (Z.ltb_spec cp slen); [|exists [], cp; split; [done|simpl; lia]]. destruct (IH (cp + 1)) as (l & cp' & -> & Hb & Hl); [lia..|].
  exists (c :: l), cp'. split; [done|]. simpl. lia.
Qed.
(** Two characters behind the end of the string may be looked at. *)
Lemma split_line_some buf slen : 0 <= slen < zlen buf - 2 -> exists key v, split_line buf slen = Some (key, v) /\ zlen v <= VALSIZE - 2.
Proof.
  intros Hs. unfold split_line. destruct (skip_some isspace buf slen (Z.to_nat slen) 0) as (c1 & -> & B1); [lia..|].
  destruct (copy_some key_char buf slen (Z.to_nat (KEYSIZE - 2)) c1) as (key & c2 & -> & B2 & _); [lia..|].
  destruct (skip_some gap_char buf slen (Z.to_nat slen) c2) as (c3 & -> & B3); [lia..|].
  destruct (skip_some isspace buf slen (Z.to_nat slen) (c3 + 1)) as (c4 & -> & B4); [lia..|].
  destruct (znth_Some buf c4 ltac:(lia)) as [c ->].
  destruct (copy_some value_char buf slen (Z.to_nat (VALSIZE - 2)) (if c =? 34 then c4 + 1 else c4)) as (v & c5 & -> & _ & Hv); [destruct (c =? 34); lia|lia|].
  exists key, v. split; [done|]. unfold VALSIZE in *. lia.
Qed.

(** An array that holds a string. *)
Definition array_ok (a : list Z) : Prop := zlen a = VALSIZE /\ znth a (VALSIZE - 1) = Some 0.
Record config_ok (c : config) : Prop := {
  ok_user : array_ok (ftpanonymoususer c); ok_pass : array_ok (ftpanonymouspass c); ok_host : array_ok (http_proxyhost c);
  ok_puser : array_ok (http_proxyuser c); ok_ppass : array_ok (http_proxypass c)
}.
Lemma store_ok a v : zlen a = VALSIZE -> zlen v <= VALSIZE - 2 -> array_ok (store a v).
Proof.
  intros Ha Hv. unfold store, Url.strncpy. unfold VALSIZE in *. rewrite (drop_ge a) by lia. rewrite app_nil_r. split.
  - unfold VALSIZE. rewrite length_take, length_app, length_replicate. lia.
  - unfold znth, VALSIZE. change (256 - 1 <? 0) with false. cbv iota. rewrite lookup_take_lt by lia. rewrite lookup_app_r by lia. apply lookup_replicate_2. lia.
Qed.
Lemma assign_ok key v c : zlen v <= VALSIZE - 2 -> config_ok c -> config_ok (assign key v c).
Proof.
  intros Hv [H1 H2 H3 H4 H5]. unfold assign. repeat (destruct (_ =? _)); constructor; cbn; try done; apply store_ok; (done || apply H1 || apply H2 || apply H3 || apply H4 || apply H5).
Qed.
Lemma strlen_some l rest : exists n, Url.strlen (l ++ 0 :: rest) = Some n /\ 0 <= n <= zlen l.
Proof.
  induction l as [|c l (n & E & Hn)]; cbn [Url.strlen Datatypes.app]; [exists 0; simpl; split; [done|lia]|].
  destruct (c =? 0); [exists 0; cbn [length]; split; [done|lia]|]. rewrite E. exists (n + 1). cbn [length]. split; [done|lia].
Qed.
Lemma filled_length l buf : (length l < length buf)%nat -> length (filled l buf) = length buf.
Proof. intros Hl. unfold filled. rewrite length_app. cbn [length]. rewrite length_drop. lia. Qed.
Lemma config_line_some l buf c : zlen buf = BUFSIZE -> zlen l <= BUFSIZE - 3 -> config_ok c ->
  exists c', config_line (filled l buf) c = Some c' /\ config_ok c'.
Proof.
  intros Hb Hl Hc. assert (zlen (filled l buf) = BUFSIZE) as Hf by (rewrite filled_length; unfold BUFSIZE in *; lia).
  unfold config_line. destruct (znth_Some (filled l buf) 0) as [c0 ->]; [unfold BUFSIZE in *; lia|]. destruct (c0 =? 35); [eauto|].
  destruct (strlen_some l (drop (S (length l)) buf)) as (n & En & Hn). unfold filled at 1. rewrite En. destruct (n <=? 1); [eauto|].
  destruct (split_line_some (filled l buf) n) as (key & v & -> & Hv); [unfold BUFSIZE in *; lia|]. destruct key, v; eauto. eexists. split; [done|]. by apply assign_ok.
Qed.

(** No [k] characters in a row without a newline. *)
Definition short_lines (k : nat) (s : list Z) : Prop := forall pre l post, s = pre ++ l ++ post -> Forall (fun c => c <> 10) l -> (length l < k)%nat.
Lemma fgets_spec n s : exists l s', fgets n s = (l, s') /\ s = l ++ s' /\ (length l <= n)%nat /\ (s <> [] -> (0 < n)%nat -> l <> []) /\
  exists l0, (l = l0 \/ l = l0 ++ [10]) /\ Forall (fun c => c <> 10) l0.
Proof.
  revert s. induction n as [|n IH]; intros s; [exists [], s; simpl; split_and!; try done; [lia|]; exists []; auto|].
  destruct s as [|c s]; [exists [], []; simpl; split_and!; try done; [lia|]; exists []; auto|]. cbn [fgets]. destruct (Z.eqb_spec c 10) as [->|Hc].
  - exists [10], s. split_and!; try done; [simpl; lia|]. exists []. auto.
  - destruct (IH s) as (l & s' & -> & -> & Hl & _ & l0 & Hl0 & Hn). exists (c :: l), s'. split_and!; try done; [simpl; lia|].
    exists (c :: l0). split; [destruct Hl0 as [-> | ->]; auto|by constructor].
Qed.

(** Bounds. For every file whose lines have at most 1020 characters before the newline,
    with whatever keywords, quotes, spaces and zeros, [loadconfig] reads and writes inside
    its arrays only, and every string variable is terminated afterwards. *)
Lemma loadconfig_in_bounds buf s c : zlen buf = BUFSIZE -> short_lines (Z.to_nat (BUFSIZE - 3)) s -> config_ok c ->
  exists c', loadconfig buf s c = Some c' /\ config_ok c'.
Proof.
  intros Hb Hs Hc. unfold loadconfig. set (k := length s). assert (length s <= k)%nat as Hk by done. clearbody k.
  revert s buf c Hs Hb Hc Hk. induction k as [|k IH]; intros s buf c Hs Hb Hc Hk; (destruct s as [|x s]; [by exists c|]); [simpl in Hk; lia|]. cbn [config_loop].
  destruct (fgets_spec (Z.to_nat (BUFSIZE - 1)) (x :: s)) as (l & s' & -> & E & Hl & Hne & l0 & Hl0 & Hn).
  assert (length l0 < Z.to_nat (BUFSIZE - 3))%nat as Hl0'. { destruct Hl0 as [-> | ->]; [apply (Hs [] l0 s')|apply (Hs [] l0 ([10] ++ s'))]; rewrite ?E, <- ?app_assoc; done. }
  assert (zlen l <= BUFSIZE - 3) as Hl'. { destruct Hl0 as [-> | ->]; rewrite ?length_app; cbn [length]; unfold BUFSIZE in *; lia. }
  destruct (config_line_some l buf c) as (c' & -> & Hc'); [done..|]. apply IH; [| |done|].
  - intros pre t post Et Ht. apply (Hs (l ++ pre) t post); [|done]. rewrite E, Et. by rewrite <- !app_assoc.
  - rewrite filled_length; unfold BUFSIZE in *; lia.
  - assert (l <> []) by (apply Hne; [done|unfold BUFSIZE; lia]). destruct l; [done|]. rewrite E in Hk. rewrite length_app in Hk. cbn [length] in Hk. lia.
Qed.

(** ** The proxy *)

Lemma skip_delim_suffix c s : exists pre, s = pre ++ skip_delim c s.
Proof. induction s as [|x s [pre IH]]; [by exists []|]. cbn [skip_delim]. destruct (x =? c); [|by exists []]. exists (x :: pre). simpl. by f_equal. Qed.
Lemma span_not_prefix c s : exists post, s = span_not c s ++ post /\ Forall (fun x => x <> 0) (span_not c s).
Proof.
  induction s as [|x s (post & IH & Hz)]; [by exists []|]. cbn [span_not]. destruct (Z.eqb_spec x 0); cbn [orb]; [by exists (x :: s)|].
  destruct (x =? c); [by exists (x :: s)|]. exists post. split; [simpl; by f_equal|by constructor].
Qed.
Lemma token_zeros c n : c <> 0 -> token c (replicate n 0) = None.
Proof. intros Hc. unfold token. destruct n as [|n]; [done|]. cbn [replicate skip_delim]. destruct (Z.eqb_spec 0 c); [congruence|]. done. Qed.

(** The port behind the colon is never found: [strncpy] has put zeros over it. *)
Lemma proxy_port_lost c tok : config_ok c -> c_string (http_proxyhost c) <> [] -> token 58 (http_proxyhost c) = Some tok ->
  http_proxyport (proxy_port c) = 80 /\ exists n, http_proxyhost (proxy_port c) = tok ++ replicate n 0.
Proof.
  intros Hok Hne Ht. destruct (ok_host _ Hok) as [Hl H0]. unfold proxy_port. set (a := http_proxyhost c) in *.
  destruct (c_string a) as [|x0 r0]; [done|]. rewrite Ht. cbn [http_proxyport http_proxyhost].
  destruct (skip_delim_suffix 58 a) as [pre Epre]. destruct (span_not_prefix 58 (skip_delim 58 a)) as (post & Epost & Hz).
  assert (span_not 58 (skip_delim 58 a) = tok) as Etok. { unfold token in Ht. destruct (span_not 58 (skip_delim 58 a)); [done|]. by injection Ht. }
  rewrite Etok in *. assert (a = pre ++ tok ++ post) as Ea by (by rewrite <- Epost). assert (length pre + length tok <= 255)%nat as Htok.
  { unfold VALSIZE in *. unfold znth in H0. change (256 - 1 <? 0) with false in H0. cbv iota in H0. destruct (decide (length pre + length tok <= 255)%nat) as [|Hgt]; [done|]. exfalso.
    rewrite Ea in Hl, H0. rewrite !length_app in Hl. rewrite lookup_app in H0. destruct (pre !! Z.to_nat (256 - 1)) as [y|] eqn:Ey.
    - apply lookup_lt_Some in Ey. destruct tok as [|t0 tok]; [by unfold token in Ht; rewrite Etok in Ht|]. cbn [length] in *. lia.
    - apply lookup_ge_None in Ey. rewrite lookup_app_l in H0 by lia. rewrite Forall_forall in Hz. apply (Hz 0); [by eapply list_elem_of_lookup_2|done]. }
  assert (Url.strncpy a tok (Z.to_nat (VALSIZE - 1)) = tok ++ replicate (256 - length tok) 0) as Ea'.
  { unfold Url.strncpy, VALSIZE in *. rewrite take_app_ge by lia. rewrite take_replicate. rewrite <- app_assoc. f_equal.
    assert (drop (Z.to_nat (256 - 1)) a = [0]) as ->.
    { apply (list_eq_same_length _ _ 1); [done|rewrite length_drop; lia|]. intros i x y Hi Hx Hy. assert (i = 0)%nat as -> by lia. injection Hy as <-.
      rewrite lookup_drop in Hx. unfold znth in H0. change (256 - 1 <? 0) with false in H0. cbv iota in H0. rewrite Nat.add_0_r in Hx. congruence. }
    change [0] with (replicate 1 0). rewrite <- replicate_add. f_equal. lia. }
  rewrite Ea'. split; [|eauto].
  assert (length tok <= next_token_at 58 a)%nat as Hn.
  { unfold next_token_at. rewrite Etok. set (stop := (_ - _ + _)%nat). assert (length tok <= stop)%nat by (unfold stop; lia). destruct (a !! stop); [|done]. destruct (_ =? _); lia. }
  rewrite drop_app_ge by lia. rewrite drop_replicate. by rewrite token_zeros.
Qed.

(** ** Samples *)

(** The settings of a first start. *)
Definition first_settings : list (variable * list Z) := [(FtpUser, text "ftp"); (FtpPass, text "aget@enderunix.org")].
Lemma createrc_settings : createrc = concat (rc_line <$> first_settings).
Proof. vm_compute. reflexivity. Qed.

Lemma config0_ok : config_ok config0.
Proof. repeat constructor; vm_compute; reflexivity. Qed.
(** A comment, an unknown keyword, a quote and a zero in a file. *)
Definition odd_file : list Z := text "# rc" ++ [10] ++ text "colour = red" ++ [10] ++ text "http_proxyhost" ++ [61; 34; 0; 65; 10] ++ text "no equals sign".
Lemma loadconfig_in_bounds_witness : exists c, loadconfig (replicate 1024 7) odd_file config0 = Some c /\ config_ok c.
Proof.
  apply loadconfig_in_bounds; [vm_compute; reflexivity| |exact config0_ok]. intros pre l post E _.
  apply (f_equal length) in E. rewrite !length_app in E. vm_compute (length odd_file) in E. unfold BUFSIZE. lia.
Defined.

(** A line of 1023 characters without an equals sign is left behind its end. *)
Lemma long_line_overrun : loadconfig (replicate 1024 7) (replicate 1023 97) config0 = None.
Proof. vm_compute. reflexivity. Qed.
(** The port is 80 whatever the file says. *)
Lemma proxy_port_sample : exists c, readrc (File (text "http_proxyhost = proxy:3128" ++ [10])) true (replicate 1024 7) config0 = Some (inr (Some (text "http_proxyhost = proxy:3128" ++ [10]), c)) /\
  http_proxyport c = 80 /\ c_string (http_proxyhost c) = text "proxy".
Proof. eexists. split; [vm_compute; reflexivity|]. vm_compute. done. Qed.
End Rc.
