(* ===== verification/Resume.v ===== *)
(** The job log of [src/papps/aget-devel]: [save_log] and [read_log] of [Resume.c], and the
    handler of [SIGINT] of [Signal.c] that saves an interrupted download.

    The log files are a map from names to the records written: a file holds the image of one
    [struct hist_data]. Records that the program copies without having set them ([stack]) are
    an argument. *)
From stdpp Require Import base list gmap strings.
From Stdlib Require Import ZArith Lia.
From S2P Require Import Prelude Aget Url Ftp.

Module Resume.
Import Aget.

Definition MAXTHREADS : Z := 10.
Definition STAT_INT : Z := 15.

(** [struct request]: [lfile] is the string in its array. *)
Record job := mkJob { j_req : Url.request; lfile : list Z; j_clength : Z; time_taken : Z }.
Record hist_data := mkHist { h_job : job; h_nthreads : Z; h_bwritten : Z; h_wthread : list thread_data }.
Abbreviation files := (gmap (list Z) hist_data).

(** ** The name of the log *)

Definition suffix (j : job) : list Z :=
  text "-aget" ++ [if Url.proto (j_req j) =? Url.PROTO_HTTP then 104 else 102] ++ text ".log".
(** [snprintf(logfile, 255, ...)] *)
Definition bounded (name : list Z) : list Z := take 254 name.
Definition local_log (j : job) : list Z := bounded (lfile j ++ suffix j).

(** [while( *s!='/' && s!=req->lfile) s--;] from the [k]-th character. *)
Fixpoint last_slash (k : nat) (l : list Z) : option nat :=
  let? c := l !! k in
  if c =? 47 then Some k else match k with O => Some O | S k => last_slash k l end.
(** [&req->lfile[strlen(req->lfile)-1]] is outside an empty string. *)
Definition home_log (dir : list Z) (j : job) : option (list Z) :=
  match length (lfile j) with
  | O => None
  | S k => let? s := last_slash k (lfile j) in Some (bounded (dir ++ drop s (lfile j) ++ suffix j))
  end.

(** ** Saving *)

Definition set_time (t : Z) (j : job) : job := mkJob (j_req j) (lfile j) (j_clength j) t.

(** [save_log]: [wthread] is [None] before it is allocated; [open_ok] says whether the log can
    be written; [elapsed] seconds have passed. [inl] is [exit]; [None] is an access outside an
    array. *)
Definition save_log (pw_dir : option (list Z)) (open_ok : bool) (elapsed : Z) (stack : list thread_data)
    (nthreads bwritten : Z) (wthread : option (list thread_data)) (j : job) (fs : files) : Url.result files :=
  match wthread with
  | None => Some (inr fs)
  | Some wt =>
      if bwritten =? j_clength j then Some (inr fs)
      else
        let? logfile := match pw_dir with None => Some (local_log j) | Some dir => home_log dir j end in
        if negb open_ok then Some (inl 1)
        else
          let diff_sec := if elapsed =? 0 then 1 else elapsed in
          let j := set_time (time_taken j + diff_sec) j in
          if (nthreads <? 0) || (MAXTHREADS <? nthreads) || (zlen wt <? nthreads) then None
          else
            let n := Z.to_nat nthreads in
            Some (inr (<[logfile := mkHist j nthreads bwritten (take n wt ++ drop n stack)]> fs))
  end.

(** ** Reading *)

Inductive opening := Opened (h : hist_data) | Missing | Denied.
(** [fopen(name, "r")]; [denied] are the names that fail for another reason than [ENOENT]. *)
Definition open_log (denied : list Z -> bool) (fs : files) (name : list Z) : opening :=
  if denied name then Denied else match fs !! name with Some h => Opened h | None => Missing end.

(** The log is read and removed; [None] is -1: a clean job. *)
Definition take_log (unlink_ok : bool) (name : list Z) (h : hist_data) (fs : files) : Url.result (option hist_data * files) :=
  Some (inr (Some h, if unlink_ok then delete name fs else fs)).
Definition read_log (pw_dir : option (list Z)) (denied : list Z -> bool) (unlink_ok : bool) (j : job) (fs : files) :
    Url.result (option hist_data * files) :=
  match open_log denied fs (local_log j) with
  | Opened h => take_log unlink_ok (local_log j) h fs
  | Denied => Some (inl 1)
  | Missing =>
      match pw_dir with
      | None => Some (inr (None, fs))
      | Some dir =>
          let? logfile := home_log dir j in
          match open_log denied fs logfile with
          | Opened h => take_log unlink_ok logfile h fs
          | Missing => Some (inr (None, fs))
          | Denied => Some (inl 1)
          end
      end
  end.

(** ** Interruption *)

Definition set_status (st : Z) (td : thread_data) : thread_data :=
  mkThread (getstr td) (soffset td) (foffset td) (offset td) (clength td) st.
(** [wthread[i].status &= STAT_INT;] for [i] from 0, [k] threads; the threads are cancelled. *)
Fixpoint interrupt (k : nat) (wt : list thread_data) : option (list thread_data) :=
  match k, wt with
  | O, _ => Some wt
  | S k, td :: wt => let? wt := interrupt k wt in Some (set_status (Z.land (status td) STAT_INT) td :: wt)
  | S _, [] => None
  end.
(** [sigint_handler]: the log files it leaves; it ends with [exit(0)]. *)
Definition sigint_handler (pw_dir : option (list Z)) (open_ok : bool) (elapsed : Z) (stack : list thread_data)
    (nthreads bwritten : Z) (wt : list thread_data) (j : job) (fs : files) : Url.result files :=
  let? wt := interrupt (Z.to_nat nthreads) wt in
  save_log pw_dir open_ok elapsed stack nthreads bwritten (Some wt) j fs.

(** ** Resuming *)

(** What thread [i] meets over HTTP and over FTP. *)
Abbreviation far := (Z -> server * Ftp.peer).
Section Resuming.
Variables show_d show_ld : Z -> list Z.
(** [ftp_get] or [http_get]; the control connection of the head request is not there, and
    [bwritten_mutex] has not been initialised. *)
Definition get_by (proto : Z) (fd : Ftp.ftp_data) (r : far) (i : Z) : thread_data -> option ending :=
  if proto =? Url.PROTO_FTP then Ftp.ftp_get show_d show_ld false (snd (r i)) fd else http_get false (fst (r i)).
(** [resumeDownload] of the job in the log. *)
Definition resumeJob (h : hist_data) (proto : Z) (open_ok : bool) (rounds : list far) : outcome :=
  let r := j_req (h_job h) in
  let fd := Ftp.mkFtp (-1) (c_string (Url.username r)) (c_string (Url.password r)) (c_string (Url.url r)) in
  let n := h_nthreads h in
  if negb open_ok then Exits 1
  else retry (setup_loop (resume_thread show_ld (c_string (Url.url r)) (c_string (Url.host r))) (Z.to_nat n) 0) n
         (get_by proto fd <$> rounds) 0 (take (Z.to_nat n) (h_wthread h)) [] (h_bwritten h).
End Resuming.

(** ** What is saved is read back *)

Lemma last_slash_some k l : (k < length l)%nat -> exists s, last_slash k l = Some s.
Proof.
  revert l. induction k as [|k IH]; intros l Hk; cbn [last_slash]; destruct (lookup_lt_is_Some_2 l _ Hk) as [c ->]; (destruct (c =? 47); [eauto|]); [eauto|].
  apply IH. lia.
Qed.
Lemma home_log_some dir j : lfile j <> [] -> exists name, home_log dir j = Some name.
Proof.
  intros Hne. unfold home_log. destruct (length (lfile j)) as [|k] eqn:El; [by destruct (lfile j)|]. destruct (last_slash_some k (lfile j)) as [s ->]; [lia|]. eauto.
Qed.
(** The name depends on the file and the protocol only. *)
Lemma names_same j j' : lfile j = lfile j' -> Url.proto (j_req j) = Url.proto (j_req j') ->
  local_log j = local_log j' /\ forall dir, home_log dir j = home_log dir j'.
Proof. intros E1 E2. unfold local_log, home_log, suffix. by rewrite E1, E2. Qed.

Section RoundTrip.
Variables (pw_dir : option (list Z)) (denied : list Z -> bool) (elapsed : Z) (stack : list thread_data).

(** The log [save_log] writes to. *)
Definition log_of (j : job) : option (list Z) := match pw_dir with None => Some (local_log j) | Some dir => home_log dir j end.
Definition spent : Z := if elapsed =? 0 then 1 else elapsed.

Lemma saved_is_read n bw wt j j' fs : 0 <= n <= MAXTHREADS -> n <= zlen wt -> bw <> j_clength j -> lfile j <> [] ->
  lfile j' = lfile j -> Url.proto (j_req j') = Url.proto (j_req j) ->
  fs !! local_log j = None -> (forall name, denied name = false) ->
  exists fs' name, log_of j = Some name /\ save_log pw_dir true elapsed stack n bw (Some wt) j fs = Some (inr fs') /\
    read_log pw_dir denied true j' fs' =
      Some (inr (Some (mkHist (set_time (time_taken j + spent) j) n bw (take (Z.to_nat n) wt ++ drop (Z.to_nat n) stack)), delete name fs)).
Proof.
  intros Hn Hw Hb Hl E1 E2 Hfs Hd. destruct (names_same j' j E1 E2) as [N1 N2]. unfold save_log. destruct (Z.eqb_spec bw (j_clength j)); [done|].
  assert (exists name, log_of j = Some name) as [name Hname] by (unfold log_of; destruct pw_dir; [by apply home_log_some|eauto]).
  fold (log_of j). rewrite Hname. cbn [negb]. destruct (Z.ltb_spec n 0); [lia|]. destruct (Z.ltb_spec MAXTHREADS n); [lia|]. destruct (Z.ltb_spec (zlen wt) n); [lia|]. cbn [orb].
  eexists _, name. split; [done|]. split; [reflexivity|]. fold spent. set (h := mkHist _ _ _ _). unfold read_log, open_log. rewrite Hd, N1. unfold log_of in Hname.
  destruct (decide (local_log j = name)) as [<-|Hne].
  { rewrite lookup_insert_eq. unfold take_log. by rewrite delete_insert_eq. }
  rewrite lookup_insert_ne, Hfs by done. destruct pw_dir as [dir|]; [|congruence]. rewrite N2, Hname, Hd, lookup_insert_eq. unfold take_log. by rewrite delete_insert_eq.
Qed.
End RoundTrip.

Lemma interrupt_some k wt : (k <= length wt)%nat ->
  interrupt k wt = Some (((fun td => set_status (Z.land (status td) STAT_INT) td) <$> take k wt) ++ drop k wt).
Proof.
  revert wt. induction k as [|k IH]; intros wt Hk; cbn [interrupt]; [by rewrite drop_0|]. destruct wt as [|td wt]; [simpl in Hk; lia|].
  cbn [take drop]. rewrite IH by (simpl in Hk; lia). done.
Qed.

(** A thread that was at [offset td], and what it meets when it goes on. *)
Section Interrupted.
Variables (content : Z -> Z) (show_d show_ld : Z -> list Z) (j : job) (proto : Z).
Abbreviation user_data := (Ftp.mkFtp (-1) (c_string (Url.username (j_req j))) (c_string (Url.password (j_req j))) (c_string (Url.url (j_req j)))).
Definition goes_on (td : thread_data) (sv : server * Ftp.peer) : Prop :=
  let td' := resumed show_ld (c_string (Url.url (j_req j))) (c_string (Url.host (j_req j))) 0 td in
  offset td < foffset td ->
  if proto =? Url.PROTO_FTP then Ftp.cooperates content show_d user_data td' (snd sv) else serves content td' (fst sv).
Lemma goes_on_status st td sv : goes_on td sv -> goes_on (set_status st td) sv.
Proof.
  intros Hg Hlt. specialize (Hg Hlt). destruct (proto =? Url.PROTO_FTP); [eapply Ftp.cooperates_ext; [..|exact Hg]; done|eapply serves_ext; [..|exact Hg]; done].
Qed.
Abbreviation again i td := (resumed show_ld (c_string (Url.url (j_req j))) (c_string (Url.host (j_req j))) i td).
(** A thread with something left ends the process, the others end well. *)
Lemma goes_on_aborts r i td : 0 <= offset td < foffset td -> goes_on td (r i) -> get_by show_d show_ld proto user_data r i (again i td) = Some ProcessAbort.
Proof.
  intros Ho Hg. specialize (Hg ltac:(lia)). cbv zeta in Hg. unfold get_by. destruct (proto =? Url.PROTO_FTP).
  - apply (Ftp.ftp_get_aborts content); [done|exact Hg].
  - apply (http_get_aborts content); [done|exact Hg].
Qed.
Lemma goes_on_done r i td : foffset td <= offset td -> get_by show_d show_ld proto user_data r i (again i td) = Some (ThreadExit (set_ok (again i td)) [] 0).
Proof. intros Ho. unfold get_by. destruct (proto =? Url.PROTO_FTP); [by apply Ftp.ftp_get_done|by apply http_get_done]. Qed.
End Interrupted.

(** Interruption and resumption. A download over HTTP or FTP is interrupted when the
    records of the threads say how far each of them got. The handler of [SIGINT] saves the
    job; the next start for the same local file finds the log, in the home directory or
    beside the file, and removes it. When all parts were complete, [resumeDownload] says so,
    with no write; otherwise the first piece a server sends ends the process, since only
    [startHTTP] initialises [bwritten_mutex], and the log is lost. *)
Lemma interrupted_download content show_d show_ld pw_dir denied elapsed stack n bw wt j j' fs r rounds :
  0 < n <= MAXTHREADS -> n <= zlen wt -> bw <> j_clength j -> lfile j <> [] ->
  lfile j' = lfile j -> Url.proto (j_req j') = Url.proto (j_req j) -> fs !! local_log j = None -> (forall name, denied name = false) ->
  (forall i td, 0 <= i < n -> znth wt i = Some td -> 0 <= offset td <= foffset td /\ goes_on content show_d show_ld j (Url.proto (j_req j)) td (r i)) ->
  exists fs' h fs'' o,
    sigint_handler pw_dir true elapsed stack n bw wt j fs = Some (inr fs') /\
    read_log pw_dir denied true j' fs' = Some (inr (Some h, fs'')) /\ fs'' !! local_log j = None /\ lfile (h_job h) = lfile j /\
    resumeJob show_d show_ld h (Url.proto (j_req j')) true (r :: rounds) = o /\
    ((forall i td, 0 <= i < n -> znth wt i = Some td -> offset td = foffset td) -> exists wt', o = Complete wt' [] (bw mod 2 ^ 32)) /\
    ((exists i td, 0 <= i < n /\ znth wt i = Some td /\ offset td < foffset td) -> aborted o).
Proof.
  intros Hn Hw Hb Hl E1 E2 Hfs Hd Hth. unfold sigint_handler. rewrite interrupt_some by lia.
  set (wt1 := (_ <$> take (Z.to_nat n) wt) ++ drop (Z.to_nat n) wt).
  assert (length wt1 = length wt) as Hl1 by (unfold wt1; rewrite length_app, length_fmap, length_take, length_drop; lia).
  destruct (saved_is_read pw_dir denied elapsed stack n bw wt1 j j' fs) as (fs' & name & Hname & Hs & Hr); [lia|lia|done..|].
  set (h := mkHist _ _ _ _) in Hr. assert (length (take (Z.to_nat n) wt1) = Z.to_nat n) as Hl2 by (rewrite length_take; lia).
  eexists fs', h, (delete name fs), _. split; [exact Hs|]. split; [exact Hr|]. split; [by rewrite lookup_delete_None; right|]. split; [done|]. split; [reflexivity|].
  unfold resumeJob. cbn [negb h_job h j_req set_time h_nthreads h_bwritten h_wthread]. rewrite E2, fmap_cons. set (wt0 := take (Z.to_nat n) _).
  assert (zlen wt0 = n) as Hl0 by (unfold wt0; rewrite length_take, length_app; lia).
  set (f := resumed show_ld (c_string (Url.url (j_req j))) (c_string (Url.host (j_req j)))).
  assert (forall k td', plans f 0 wt0 !! k = Some td' -> exists td, Z.of_nat k < n /\ znth wt (Z.of_nat k) = Some td /\ td' = f (Z.of_nat k) (set_status (Z.land (status td) STAT_INT) td)) as Hlook.
  { intros k td' Hk. rewrite plans_lookup in Hk. apply fmap_Some in Hk as (td1 & Hk & ->). unfold wt0 in Hk. apply lookup_take_Some in Hk as [Hk Hkn].
    rewrite lookup_app_l, lookup_take_lt in Hk by lia. unfold wt1 in Hk. rewrite lookup_app_l in Hk by (rewrite length_fmap, length_take; lia).
    rewrite list_lookup_fmap, lookup_take_lt in Hk by lia. apply fmap_Some in Hk as (td & Hk & ->). exists td. rewrite znth_nat. split; [lia|]. done. }
  split.
  - intros Hall. eexists. apply retry_idle; [by apply setup_all| |by rewrite plans_length].
    intros k td' Hk. destruct (Hlook k td' Hk) as (td & Hkn & Hz & ->). apply goes_on_done. simpl. rewrite (Hall (Z.of_nat k) td); [lia|lia|done].
  - intros (i & td & Hi & Hz & Hlt). apply (retry_aborts _ _ _ _ _ _ (plans f 0 wt0)); [by apply setup_all| |].
    + intros k td' Hk. destruct (Hlook k td' Hk) as (td1 & Hkn & Hz1 & ->). destruct (Hth (Z.of_nat k) td1 ltac:(lia) Hz1) as [Ho Hg].
      destruct (Z.ltb_spec (soffset (f (Z.of_nat k) (set_status (Z.land (status td1) STAT_INT) td1))) (foffset (f (Z.of_nat k) (set_status (Z.land (status td1) STAT_INT) td1)))) as [H1|H1]; simpl in H1.
      * apply (goes_on_aborts content); [simpl; lia|by apply goes_on_status].
      * eexists _, _, _. by apply goes_on_done.
    + destruct (lookup_lt_is_Some_2 (plans f 0 wt0) (Z.to_nat i)) as [td' Hk]; [rewrite plans_length; lia|]. apply Exists_exists. exists td'. split; [by eapply list_elem_of_lookup_2|].
      destruct (Hlook _ _ Hk) as (td1 & _ & Hz1 & ->). rewrite Z2Nat.id, Hz in Hz1 by lia. injection Hz1 as <-. simpl. lia.
Qed.

(** ** Samples *)

Definition a_request : Url.request := Url.mkRequest [] [] [] [] [] 80 Url.PROTO_HTTP.
Definition a_job (path : string) : job := mkJob a_request (text path) 5 0.

(** The log in the home directory is found by the name of the file alone: a download of
    another file of that name takes it for its own. *)
Lemma log_of_another_file : exists fs' h,
  sigint_handler (Some (text "/home/u")) true 3 (replicate 10 thread0) 2 3 sample_saved (a_job "/tmp/f") ∅ = Some (inr fs') /\
  read_log (Some (text "/home/u")) (fun _ => false) true (a_job "/srv/f") fs' = Some (inr (Some h, ∅)) /\ lfile (h_job h) = text "/tmp/f".
Proof. eexists _, _. split; [vm_compute; reflexivity|]. split; [vm_compute; reflexivity|]. vm_compute. reflexivity. Qed.
End Resume.
