(* ===== verification/HeadReq.v ===== *)
(** The requests before a download, [src/papps/aget-devel/Head.c]: the head request over HTTP
    ([http_head_req]) finds the length of the file, the one over FTP ([ftp_head_req]) logs in,
    asks whether transfers can be resumed, and reads the length from a listing. *)
From stdpp Require Import base list strings.
From Stdlib Require Import ZArith Lia.
From S2P Require Import Prelude Aget Url Ftp Rc.

Module HeadReq.
Import Aget.
Import (notations) Ftp.

Definition HEADREQSIZ : Z := 512.

(** ** [strtok] *)

(** [strtok(s, "\r\n")] called until [NULL]: the tokens, each with what lies behind it in the
    buffer: the zero that took the place of the delimiter, the rest of the string, its zero. *)
Definition eol (c : Z) : bool := (c =? 13) || (c =? 10).
Fixpoint tokens (s tok : list Z) : list (list Z * list Z) :=
  match s with
  | [] => match tok with [] => [] | _ => [(tok, [0])] end
  | c :: s =>
      if eol c then match tok with [] => tokens s [] | _ => (tok, 0 :: s ++ [0]) :: tokens s [] end
      else tokens s (tok ++ [c])
  end.

(** ** HTTP *)

(** What the request meets; [w_recv] is [None] for -1. *)
Record web := mkWeb { w_resolves : bool; w_socket : bool; w_connect : bool; w_send : bool; w_recv : option (list Z) }.

Section Requests.
(** [%d] *)
Variable show_d : Z -> list Z.

(** [snprintf(sbuf, HEADREQSIZ-1, HEADREQ, ...)]; with a proxy the whole URL is asked for. *)
Definition head_request (proxyhost : list Z) (host url : list Z) (port : Z) : list Z :=
  let what := match proxyhost with
              | [] => url
              | _ => take (Z.to_nat (Url.MAXBUFSIZ - 2)) (text "http://" ++ host ++ [58] ++ show_d port ++ url)
              end in
  take (Z.to_nat (HEADREQSIZ - 2))
    (text "HEAD " ++ what ++ text " HTTP/1.1" ++ CRLF ++ text "Host: " ++ host ++ CRLF ++
     text "User-Agent: EnderUNIX Aget 0.59" ++ CRLF ++ text "Connection: close" ++ CRLF ++ CRLF).
(** [connect_host] and [connect_host_port] *)
Definition connect_to (proxyhost : list Z) (proxyport : Z) (host : list Z) (port : Z) : list Z * Z :=
  match proxyhost with
  | [] => (take 1023 host, port)
  | _ => (take 1023 proxyhost, if proxyport <=? 0 then 80 else proxyport)
  end.

(** A line of the answer: [s = tok + strlen("Content-Length: ")] may point behind the token. *)
Definition header (line : list Z * list Z) (clength : Z) : option Z :=
  let (tok, rest) := line in
  if strstr tok (text "Content-Length") then
    if (length (tok ++ rest) <=? 16)%nat then None
    else Some (to_int (Ftp.atoi (c_string (drop 16 (tok ++ rest)))))
  else Some clength.
Fixpoint headers (lines : list (list Z * list Z)) (clength : Z) : option Z :=
  match lines with [] => Some clength | l :: lines => let? clength := header l clength in headers lines clength end.

(** [http_head_req]: [req->clength] afterwards. [rbuf[nret] = 0] is outside the buffer when
    the answer fills it. *)
Definition http_head_req (w : web) (clength : Z) : Url.result Z :=
  if negb (w_resolves w && w_socket w && w_connect w && w_send w) then Some (inl 1)
  else
    match w_recv w with
    | None => Some (inl 1)
    | Some d =>
        if HEADREQSIZ <=? zlen d then None
        else
          let rbuf := c_string d in
          if negb (handleHttpRetcode rbuf) then Some (inl 1)
          else
            match tokens rbuf [] with
            | [] => None
            | (tok, _) :: lines =>
                if strstr tok (text "HTTP/1.1 200") then let? n := headers lines clength in Some (inr n)
                else Some (inr clength)
            end
    end.

(** ** FTP *)

Definition SERVER_TYPE_UNIX : Z := 1.
Definition SERVER_TYPE_NT : Z := 2.

(** [sscanf("%15s")]: blanks are skipped, at most 15 characters are taken. *)
Fixpoint skip_blanks (s : list Z) : list Z :=
  match s with c :: s' => if Rc.isspace c then skip_blanks s' else s | [] => [] end.
Fixpoint word (k : nat) (s : list Z) : list Z * list Z :=
  match k, s with
  | S k, c :: s' => if Rc.isspace c then ([], s) else let (w, r) := word k s' in (c :: w, r)
  | _, _ => ([], s)
  end.
(** The [n]-th word; empty, as the array was set, when there are fewer. *)
Fixpoint nth_word (n : nat) (s : list Z) : list Z :=
  let (w, r) := word 15 (skip_blanks s) in
  match n with O => w | S n => nth_word n r end.

(** [ftp_get_size]: -1 without a data connection; both branches scan the same nine words. *)
Definition ftp_get_size (pe : Ftp.peer) (sin_dc : list Z * Z) : Ftp.step Z :=
  if negb (Ftp.d_socket pe && Ftp.d_connect pe (fst sin_dc) (snd sin_dc)) then Some (inr (-1))
  else
    match Ftp.data pe with
    | [] => Some (inl (Waiting thread0 [] 0))
    | r :: _ =>
        let rbuf := match r with Ftp.Got d => c_string d | _ => [] end in
        Some (inr (to_int (Ftp.atoi (nth_word 4 rbuf))))
    end.

(** [ftp_head_req]: [clength], [ftp_server_type], the commands sent, and the lines left on
    the connection that the first thread takes over. It answers 1 when it answers. *)
Definition ftp_head_req (resolves : bool) (username password url : list Z) (pe : Ftp.peer) :
    Ftp.step (Z * Z * list (list Z) * list (option (list Z))) :=
  let reply := Ftp.reply pe thread0 in
  if negb (resolves && Ftp.c_socket pe && Ftp.c_connect pe && Ftp.c_fdopen pe) then Some (inl (ProcessExit 1))
  else
    let! (rbuf, ls) := reply (Ftp.lines pe) in
    if negb (Ftp.positive rbuf) then Some (inl (ProcessExit 1))
    else
      let! (rbuf, ls) := reply ls in
      let! _ := Ftp.expect "331" rbuf in
      let! (rbuf, ls) := reply ls in
      let! _ := Ftp.expect "230" rbuf in
      let! (rbuf, ls) := reply ls in
      let! _ := Ftp.expect "350" rbuf in
      let! (rbuf, ls) := reply ls in
      let! _ := Ftp.expect "215" rbuf in
      let type := if strstr (c_string rbuf) (text "UNIX") then SERVER_TYPE_UNIX else SERVER_TYPE_NT in
      let! (_, ls) := reply ls in
      let! (rbuf, ls) := reply ls in
      let? sin_dc := Ftp.parse_pasv_reply2 show_d rbuf in
      let! clength := ftp_get_size pe sin_dc in
      if clength =? -1 then Some (inl (ProcessExit 1))
      else
        let! (_, ls) := reply ls in
        Some (inr (clength, type,
          [Ftp.command_n "USER " username; Ftp.command_n "PASS " password; Ftp.command "REST 150" []; Ftp.command "SYST" [];
           Ftp.command "TYPE I" []; Ftp.command "PASV" []; Ftp.command_n "LIST " (drop 1 url)], ls)).

(** ** The first parser of the passive address *)

Definition isdigit (c : Z) : bool := (48 <=? c) && (c <=? 57).
(** [while(!isdigit( *s) && (i++ < slen)) s++;] *)
Fixpoint skip_nondigits (k : nat) (s : list Z) {struct s} : option (list Z) :=
  match s with
  | [] => None
  | c :: s' => if isdigit c then Some s else match k with O => Some s | S k => skip_nondigits k s' end
  end.
(** [addr[i]], up to the character [stop], which is passed. *)
Fixpoint number (stop : Z) (s : list Z) (acc : Z) : option (Z * list Z) :=
  match s with
  | [] => None
  | c :: s => if c =? stop then Some (acc, s) else number stop s (to_uint ((c - 48) + to_uint (acc * 10)))
  end.
(** [None]: the end of the string is passed. *)
Definition parse_pasv_reply (rbuf : list Z) : option (list Z * Z) :=
  let? s := skip_nondigits (length rbuf) (drop 4 (rbuf ++ [0])) in
  let? (a0, s) := number 44 s 0 in
  let? (a1, s) := number 44 s 0 in
  let? (a2, s) := number 44 s 0 in
  let? (a3, s) := number 44 s 0 in
  let? (a4, s) := number 44 s 0 in
  let? (a5, _) := number 41 s 0 in
  Some (take (Z.to_nat (Ftp.MAXIPSIZ - 1 - 1)) (show_d a0 ++ [46] ++ show_d a1 ++ [46] ++ show_d a2 ++ [46] ++ show_d a3),
        wrap_u 16 (Z.shiftl a4 8 + a5)).

(** [parse_list_reply]: the lines it prints. *)
Definition parse_list_reply (rbuf : list Z) : Z * list (list Z) :=
  match tokens rbuf [] with [] => (-1, []) | ts => (0, fst <$> ts) end.
End Requests.

(** ** The length over HTTP *)

(** A line of an answer, and the answer made of lines. *)
Definition line_ok (l : list Z) : Prop := l <> [] /\ Forall (fun c => c <> 0 /\ eol c = false) l.
Definition answer (ls : list (list Z)) : list Z := concat ((fun l => l ++ CRLF) <$> ls) ++ CRLF.

Lemma tokens_token l s tok : Forall (fun c => c <> 0 /\ eol c = false) l -> tokens (l ++ s) tok = tokens s (tok ++ l).
Proof.
  intros Hl. revert tok. induction Hl as [|c l [_ Hc] _ IH]; intros tok; [by rewrite app_nil_r|]. cbn [tokens Datatypes.app]. by rewrite Hc, IH, <- app_assoc.
Qed.
Definition is_token (l : list Z) (t : list Z * list Z) : Prop := fst t = l /\ exists r, snd t = 0 :: r.
Lemma tokens_answer ls : Forall line_ok ls -> Forall2 is_token ls (tokens (answer ls) []).
Proof.
  unfold answer. induction 1 as [|l ls [Hne Hl] _ IH]; [constructor|]. rewrite fmap_cons. cbn [concat]. rewrite <- !app_assoc.
  rewrite (tokens_token l) by done. cbn [Datatypes.app CRLF tokens eol]. change (eol 13) with true. cbv iota. destruct l as [|c l]; [done|]. constructor.
  - split; [done|]. by eexists.
  - exact IH.
Qed.
Lemma answer_nonzero ls : Forall line_ok ls -> c_string (answer ls) = answer ls.
Proof.
  intros Hls. assert (Forall (fun c => c <> 0) (answer ls)) as Hz.
  { unfold answer. apply Forall_app. split; [|by repeat constructor]. apply Forall_concat, Forall_fmap. eapply Forall_impl; [exact Hls|]. intros l [_ Hl].
    apply Forall_app. split; [|by repeat constructor]. eapply Forall_impl; [exact Hl|]. by intros c []. }
  induction Hz as [|c s Hc _ IH]; [done|]. cbn [c_string]. destruct (Z.eqb_spec c 0); [done|]. by f_equal.
Qed.
Lemma headers_none ls ts n more : Forall (fun l => strstr l (text "Content-Length") = false) ls -> Forall2 is_token ls ts -> headers (ts ++ more) n = headers more n.
Proof.
  intros Hl Ht. induction Ht as [|l [tok rest] ls ts [E _] _ IH]; [done|]. apply Forall_cons in Hl as [Hl Hls]. cbn [headers header Datatypes.app fst] in *.
  rewrite E, Hl. by apply IH.
Qed.
Lemma atoi_number ds : ds <> [] -> Forall (fun c => 48 <= c <= 57) ds -> Ftp.atoi ds = Ftp.atoi_digits ds 0.
Proof.
  intros Hne Hd. destruct ds as [|c ds]; [done|]. apply Forall_cons in Hd as [Hc _]. cbn [Ftp.atoi].
  destruct (Z.eqb_spec c 32), (Z.leb_spec 9 c), (Z.leb_spec c 13), (Z.eqb_spec c 45), (Z.eqb_spec c 43); (lia || done).
Qed.
Lemma digits_nonzero ds : Forall (fun c => 48 <= c <= 57) ds -> Url.nonzero ds.
Proof. intros Hd. eapply Forall_impl; [exact Hd|]. intros c Hc ->. lia. Qed.

(** An answer of status 200 with one line [Content-Length: ds]. *)
Definition states_length (w : web) (n : Z) : Prop :=
  w_resolves w && w_socket w && w_connect w && w_send w = true /\
  exists l0 before ds after, let a := answer (l0 :: before ++ (text "Content-Length: " ++ ds) :: after) in
    w_recv w = Some a /\ zlen a < HEADREQSIZ /\ handleHttpRetcode a = true /\
    Forall line_ok (l0 :: before ++ after) /\ strstr l0 (text "HTTP/1.1 200") = true /\
    Forall (fun l => strstr l (text "Content-Length") = false) (before ++ after) /\
    ds <> [] /\ Forall (fun c => 48 <= c <= 57) ds /\ is_int n /\ n = Ftp.atoi_digits ds 0.
(** The length is found. *)
Lemma head_length w n clength : states_length w n -> http_head_req w clength = Some (inr n).
Proof.
  intros (Hw & l0 & before & ds & after & Hr & Hl & Hh & Hok & H2 & Hc & Hne & Hd & Hi & ->). cbv zeta in *. set (cl := text "Content-Length: " ++ ds) in *. assert (Forall line_ok (l0 :: before ++ cl :: after)) as Hall.
  { rewrite Forall_cons, Forall_app in Hok. destruct Hok as (Ho & Hb & Ha). rewrite Forall_cons, Forall_app, Forall_cons. split; [done|]. split; [done|]. split; [|done]. split; [done|].
    unfold cl. apply Forall_app. split; [|eapply Forall_impl; [exact Hd|]]; [by repeat (apply Forall_cons; split; [split; [done|reflexivity]|])|]. intros c Hc'. unfold eol.
    cbv beta in Hc'. split; [lia|]. destruct (Z.eqb_spec c 13), (Z.eqb_spec c 10); lia || done. }
  unfold http_head_req. rewrite Hw, Hr. cbn [negb]. destruct (Z.leb_spec HEADREQSIZ (zlen (answer (l0 :: before ++ cl :: after)))); [lia|].
  rewrite answer_nonzero, Hh by done. cbn [negb]. pose proof (tokens_answer _ Hall) as Ht. inversion Ht as [|? [t0 r0] ? ts [E0 _] Hts]; subst. cbn [fst] in *. rewrite H2.
  apply Forall2_app_inv_l in Hts as (tb & ta & Hb & Ha & ->). inversion Ha as [|? [tc rc] ? ta' [Ec [r Er]] Ha']; subst. cbn [fst snd] in *.
  apply Forall_app in Hc as [Hc1 Hc2]. rewrite (headers_none before) by done. cbn [headers header]. subst tc rc.
  change (strstr cl (text "Content-Length")) with true. cbv iota. destruct (Nat.leb_spec (length (cl ++ 0 :: r)) 16) as [Hle|_].
  { unfold cl in Hle. rewrite !length_app in Hle. cbn [length text] in Hle. lia. }
  unfold cl. rewrite <- app_assoc. rewrite drop_app_length' by done. rewrite Url.c_string_app by (by apply digits_nonzero).
  rewrite atoi_number, to_int_id by done. rewrite <- (app_nil_r ta'), (headers_none after) by done. done.
Qed.

(** ** The length over FTP *)

Lemma word_spec k w s : Forall (fun c => Rc.isspace c = false) w -> (length w <= k)%nat ->
  (forall c s', s = c :: s' -> Rc.isspace c = true) -> word k (w ++ s) = (w, s).
Proof.
  intros Hw Hk Hs. revert k Hk. induction Hw as [|c w Hc _ IH]; intros k Hk; cbn [Datatypes.app].
  { destruct k, s as [|c s]; try done. cbn [word]. by rewrite (Hs c s eq_refl). }
  destruct k as [|k]; [simpl in Hk; lia|]. cbn [word]. rewrite Hc, IH by (simpl in Hk; lia). done.
Qed.
Definition blanks (b : list Z) : Prop := b <> [] /\ Forall (fun c => Rc.isspace c = true) b.
Definition a_word (w : list Z) : Prop := w <> [] /\ (length w <= 15)%nat /\ Forall (fun c => Rc.isspace c = false) w.
Lemma skip_blanks_spec b w s : Forall (fun c => Rc.isspace c = true) b -> a_word w -> skip_blanks (b ++ w ++ s) = w ++ s.
Proof.
  intros Hb (Hne & _ & Hw). induction Hb as [|c b Hc _ IH]; cbn [skip_blanks Datatypes.app]; [|by rewrite Hc].
  destruct w as [|c w]; [done|]. apply Forall_cons in Hw as [Hc _]. cbn [skip_blanks Datatypes.app]. by rewrite Hc.
Qed.
Lemma nth_word_spec n b w b' s : Forall (fun c => Rc.isspace c = true) b -> a_word w -> blanks b' ->
  nth_word n (b ++ w ++ b' ++ s) = match n with O => w | S n => nth_word n (b' ++ s) end.
Proof.
  intros Hb Hw [Hne Hb']. destruct n; cbn [nth_word]; (rewrite skip_blanks_spec by done); destruct Hw as (_ & Hl & Hw);
    (rewrite word_spec; [done|done|done|]); intros c s' E; (destruct b' as [|x b']; [done|]); injection E as <- _; by apply Forall_cons in Hb' as [? _].
Qed.

(** A line of a listing: rights, links, owner, group, size and the rest. *)
Definition listing (p l u g size rest : list Z) (b1 b2 b3 b4 b5 : list Z) : list Z := p ++ b1 ++ l ++ b2 ++ u ++ b3 ++ g ++ b4 ++ size ++ b5 ++ rest.
Lemma listing_size p l u g size rest b1 b2 b3 b4 b5 : a_word p -> a_word l -> a_word u -> a_word g -> a_word size ->
  blanks b1 -> blanks b2 -> blanks b3 -> blanks b4 -> blanks b5 -> nth_word 4 (listing p l u g size rest b1 b2 b3 b4 b5) = size.
Proof.
  intros. unfold listing. etrans; [apply (nth_word_spec 4 [] p b1); done|]. cbv iota. rewrite (nth_word_spec 3 b1 l b2), (nth_word_spec 2 b2 u b3), (nth_word_spec 1 b3 g b4), (nth_word_spec 0 b4 size b5);
    try done; match goal with H : blanks ?b |- Forall _ ?b => apply H end.
Qed.

Section Server.
Variables (show_d : Z -> list Z) (pe : Ftp.peer).

(** A server that greets, lets the user in, can resume, names its system, answers [PASV] with
    an address it listens at, and lists the file. *)
Record lists_file (type n : Z) (left : list (option (list Z))) : Prop := {
  lf_up : Ftp.c_socket pe && Ftp.c_connect pe && Ftp.c_fdopen pe = true;
  lf_lines : exists g tg u p r sy tsy ty tty pa tpa ip po done_ td,
    Ftp.lines pe = g ++ u ++ p ++ r ++ sy ++ ty ++ pa ++ done_ ++ left /\ Ftp.a_reply g tg /\ Ftp.positive tg = true /\
    Ftp.replies_with "331" u /\ Ftp.replies_with "230" p /\ Ftp.replies_with "350" r /\ Ftp.a_reply sy tsy /\ Ftp.strneq 3 tsy (text "215") = true /\
    type = (if strstr (c_string tsy) (text "UNIX") then SERVER_TYPE_UNIX else SERVER_TYPE_NT) /\ Ftp.a_reply ty tty /\
    Ftp.a_reply pa tpa /\ Ftp.parse_pasv_reply2 show_d tpa = Some (ip, po) /\ Ftp.d_socket pe && Ftp.d_connect pe ip po = true /\ Ftp.a_reply done_ td;
  lf_data : exists d rest, Ftp.data pe = Ftp.Got d :: rest /\ n = to_int (Ftp.atoi (nth_word 4 (c_string d))) /\ n <> -1
}.

Lemma ftp_head_finds username password url type n left : lists_file type n left ->
  ftp_head_req show_d true username password url pe =
    Some (inr (n, type, [Ftp.command_n "USER " username; Ftp.command_n "PASS " password; Ftp.command "REST 150" []; Ftp.command "SYST" [];
      Ftp.command "TYPE I" []; Ftp.command "PASV" []; Ftp.command_n "LIST " (drop 1 url)], left)).
Proof.
  intros [Hup (g & tg & u & p & r & sy & tsy & ty & tty & pa & tpa & ip & po & dn & td & Hls & Hg & Hpos & (tu & Hu & Eu) & (tp & Hp & Ep) & (tr & Hr & Er) & Hsy & Esy & -> & Hty & Hpa & Hip & Hd & Hdn)
    (d & rest & Hdata & -> & Hne)].
  unfold ftp_head_req, Ftp.reply, Ftp.expect, ftp_get_size. rewrite andb_true_l, Hup. assert (Ftp.c_fdopen pe = true) as -> by (by apply andb_prop in Hup as [_ ?]).
  cbn [negb]. rewrite Hls, Hg. cbn [Ftp.bind]. rewrite Hpos. cbn [negb]. rewrite Hu. cbn [Ftp.bind]. rewrite Eu. cbn [Ftp.bind]. rewrite Hp. cbn [Ftp.bind]. rewrite Ep. cbn [Ftp.bind].
  rewrite Hr. cbn [Ftp.bind]. rewrite Er. cbn [Ftp.bind]. rewrite Hsy. cbn [Ftp.bind]. rewrite Esy. cbn [Ftp.bind]. rewrite Hty. cbn [Ftp.bind]. rewrite Hpa. cbn [Ftp.bind].
  rewrite Hip. cbn [fst snd]. rewrite Hd, Hdata. cbn [negb Ftp.bind]. destruct (Z.eqb_spec (to_int (Ftp.atoi (nth_word 4 (c_string d)))) (-1)); [done|]. rewrite Hdn. done.
Qed.
End Server.

(** ** The two parsers of the passive address *)

Lemma atoi_digits_ge l acc : Forall (fun c => 48 <= c <= 57) l -> 0 <= acc -> acc <= Ftp.atoi_digits l acc.
Proof.
  intros Hl. revert acc. induction Hl as [|c l Hc _ IH]; intros acc Ha; cbn [Ftp.atoi_digits]; [lia|].
  destruct (Z.leb_spec 48 c), (Z.leb_spec c 57); try lia. cbn [andb]. specialize (IH (acc * 10 + (c - 48)) ltac:(lia)). lia.
Qed.
Lemma number_digits stop l s acc : Forall (fun c => 48 <= c <= 57) l -> ~ 48 <= stop <= 57 -> 0 <= acc -> Ftp.atoi_digits l acc < 2 ^ 32 ->
  number stop (l ++ stop :: s) acc = Some (Ftp.atoi_digits l acc, s).
Proof.
  intros Hl Hs. revert acc. induction Hl as [|c l Hc Hl IH]; intros acc Ha Hb; cbn [number Datatypes.app]; [by rewrite Z.eqb_refl|].
  destruct (Z.eqb_spec c stop); [subst; lia|]. cbn [Ftp.atoi_digits] in *. destruct (Z.leb_spec 48 c), (Z.leb_spec c 57); try lia. cbn [andb] in *.
  pose proof (atoi_digits_ge l (acc * 10 + (c - 48)) Hl ltac:(lia)). unfold to_uint. rewrite (wrap_u_id 32 (acc * 10)) by lia. rewrite wrap_u_id by lia.
  replace (c - 48 + acc * 10) with (acc * 10 + (c - 48)) by lia. apply IH; lia.
Qed.
Lemma number_decimal stop n l s : Ftp.decimal n l -> ~ 48 <= stop <= 57 -> 0 <= n < 256 -> number stop (l ++ stop :: s) 0 = Some (n, s).
Proof. intros (_ & Hd & <-) Hs Hn. apply number_digits; [done|done|lia|lia]. Qed.
Lemma skip_nondigits_spec k l c s : Forall (fun x => isdigit x = false) l -> isdigit c = true -> (length l <= k)%nat -> skip_nondigits k (l ++ c :: s) = Some (c :: s).
Proof.
  intros Hl Hc. revert k. induction Hl as [|x l Hx _ IH]; intros k Hk; cbn [skip_nondigits Datatypes.app]; [by rewrite Hc|]. rewrite Hx.
  destruct k as [|k]; [simpl in Hk; lia|]. apply IH. simpl in Hk. lia.
Qed.

(** The two parsers of the reply to [PASV], the one in use and the one it replaced, agree
    on every reply of the usual form, with a text of four characters at least and no digit
    behind them before the address. *)
Lemma pasv_parsers_agree show_d intro a0 a1 a2 a3 a4 a5 after :
  (forall n, 0 <= n < 256 -> Ftp.decimal n (show_d n)) ->
  (4 <= length intro)%nat -> Forall (fun c => c <> 0 /\ c <> 13 /\ c <> 10 /\ c <> 40) intro -> Forall (fun c => isdigit c = false) (drop 4 intro) ->
  Forall (fun n => 0 <= n < 256) [a0; a1; a2; a3; a4; a5] -> 0 < a0 ->
  parse_pasv_reply show_d (Ftp.pasv_reply show_d intro a0 a1 a2 a3 a4 a5 after) =
  Ftp.parse_pasv_reply2 show_d (Ftp.pasv_reply show_d intro a0 a1 a2 a3 a4 a5 after).
Proof.
  intros Hshow H4 Hi Hd Ha H0. rewrite Ftp.pasv_round_trip by done. rewrite !Forall_cons in Ha. destruct Ha as (B0 & B1 & B2 & B3 & B4 & B5 & _).
  pose proof (Hshow a0 B0) as D0. destruct (show_d a0) as [|c0 l0] eqn:E0; [destruct D0 as ([? _] & _); simpl in *; lia|].
  set (t := 44 :: show_d a1 ++ 44 :: show_d a2 ++ 44 :: show_d a3 ++ 44 :: show_d a4 ++ 44 :: show_d a5 ++ 41 :: after ++ [0]).
  assert (Ftp.pasv_reply show_d intro a0 a1 a2 a3 a4 a5 after ++ [0] = intro ++ 40 :: c0 :: l0 ++ t) as Er.
  { unfold Ftp.pasv_reply, t. rewrite E0. repeat (cbn [Datatypes.app]; rewrite <- ?app_assoc; f_equal). }
  assert (isdigit c0 = true) as Hc0. { destruct D0 as (_ & Hd0 & _). apply Forall_cons in Hd0 as [Hc0 _]. unfold isdigit. destruct (Z.leb_spec 48 c0), (Z.leb_spec c0 57); lia || done. }
  assert (length intro <= length (Ftp.pasv_reply show_d intro a0 a1 a2 a3 a4 a5 after))%nat as Hlen by (unfold Ftp.pasv_reply; rewrite length_app; lia).
  unfold parse_pasv_reply. rewrite Er, drop_app_le by lia.
  replace (drop 4 intro ++ 40 :: c0 :: l0 ++ t) with ((drop 4 intro ++ [40]) ++ c0 :: l0 ++ t) by (by rewrite <- app_assoc).
  rewrite skip_nondigits_spec; [|apply Forall_app; split; [done|by repeat constructor]|done|rewrite length_app, length_drop; cbn [length]; lia].
  change (c0 :: l0 ++ t) with ((c0 :: l0) ++ t). unfold t. rewrite (number_decimal 44 a0), (number_decimal 44 a1), (number_decimal 44 a2), (number_decimal 44 a3), (number_decimal 44 a4),
    (number_decimal 41 a5) by (auto || lia).
  rewrite E0. do 2 f_equal. unfold wrap_u. rewrite Z.shiftl_mul_pow2 by lia. apply Z.mod_small. lia.
Qed.

(** ** Samples *)

Lemma three_digits_decimal n : 0 <= n < 256 -> Ftp.decimal n (Ftp.three_digits n).
Proof.
  intros Hn. assert (48 <= 48 + n / 100 <= 57 /\ 48 <= 48 + n / 10 mod 10 <= 57 /\ 48 <= 48 + n mod 10 <= 57) as (H1 & H2 & H3) by (Z.to_euclidean_division_equations; lia).
  unfold Ftp.three_digits. split; [simpl; lia|]. split; [repeat (apply Forall_cons; split; [done|]); by apply Forall_nil|]. cbn [Ftp.atoi_digits].
  rewrite !(proj2 (Z.leb_le _ _)) by lia. cbn [andb]. Z.to_euclidean_division_equations. lia.
Qed.
Lemma pasv_parsers_agree_witness :
  parse_pasv_reply Ftp.three_digits (Ftp.pasv_reply Ftp.three_digits (text "227 ok ") 10 1 2 3 4 1 CRLF) =
  Ftp.parse_pasv_reply2 Ftp.three_digits (Ftp.pasv_reply Ftp.three_digits (text "227 ok ") 10 1 2 3 4 1 CRLF).
Proof.
  apply pasv_parsers_agree; [exact three_digits_decimal|simpl; lia|repeat (apply Forall_cons; split; [done|]); by apply Forall_nil| |repeat (apply Forall_cons; split; [lia|]); by apply Forall_nil|lia].
  repeat (apply Forall_cons; split; [reflexivity|]). by apply Forall_nil.
Defined.
End HeadReq.
