(* ===== verification/AgetMain.v ===== *)
(** The command line of aget and its main program, [src/papps/aget-devel/main.c]: the rc
    file, the options, the URL, the name of the local file, and then a resumed job or a new
    one, over HTTP or FTP, with the head requests of [Head.c] before it.

    [world] is all that the program finds outside: the rc file, the memory it is given, the
    directory, the log files, the disk and the far ends of its connections. *)
From stdpp Require Import base list gmap strings.
From Stdlib Require Import ZArith Lia.
From S2P Require Import Prelude Aget Url Ftp Rc Resume HeadReq.

Module AgetMain.
Import Aget Resume.
Import (notations) Url.

(** ** [getopt(argc, argv, "p:l:n:hfv")] *)

(** What it answers, with [optarg]; 63 is [?]. *)
Record opt := mkOpt { o_char : Z; optarg : list Z }.
Definition takes_arg (c : Z) : bool := (c =? 112) || (c =? 108) || (c =? 110).
Definition known (c : Z) : bool := (c =? 104) || (c =? 102) || (c =? 118).

(** The letters of one argument; the last one may take the next argument. *)
Fixpoint letters (s : list Z) : list opt * option Z :=
  match s with
  | [] => ([], None)
  | c :: s =>
      if takes_arg c then match s with [] => ([], Some c) | _ => ([mkOpt c s], None) end
      else let (os, p) := letters s in (mkOpt (if known c then c else 63) [] :: os, p)
  end.
(** The options in the order they are answered, and the arguments that are not options,
    which are moved behind them: the first is [argv[optind]]. *)
Fixpoint getopt (args : list (list Z)) : list opt * list (list Z) :=
  match args with
  | [] => ([], [])
  | a :: args =>
      let operand := let (os, rest) := getopt args in (os, a :: rest) in
      match a with
      | dash :: c :: s =>
          if negb (dash =? 45) then operand
          else if (c =? 45) && (zlen s =? 0) then ([], args)
          else
            let (os, p) := letters (c :: s) in
            match p, args with
            | None, _ => let (os', rest) := getopt args in (os ++ os', rest)
            | Some c, [] => (os ++ [mkOpt 63 []], [])
            | Some c, o :: args => let (os', rest) := getopt args in (os ++ mkOpt c o :: os', rest)
            end
      | _ => operand
      end
  end.

(** ** The options *)

(** [req->port], the array [req->lfile], [fsuggested] and [nthreads]. *)
Record settings := mkSet { s_port : Z; s_lfile : list Z; fsuggested : Z; nthreads : Z }.

(** The loop over the options; [inl] is [exit]. *)
Fixpoint options (os : list opt) (st : settings) : Z + settings :=
  match os with
  | [] => inr st
  | mkOpt c arg :: os =>
      if c =? 112 then options os (mkSet (to_int (Ftp.atoi arg)) (s_lfile st) (fsuggested st) (nthreads st))
      else if c =? 108 then options os (mkSet (s_port st) (Url.strncpy (s_lfile st) arg (Z.to_nat (Url.MAXBUFSIZ - 1))) (fsuggested st) (nthreads st))
      else if c =? 110 then
        let n := to_int (Ftp.atoi arg) in
        if MAXTHREADS <? n then inl 1 else options os (mkSet (s_port st) (s_lfile st) 1 n)
      else if c =? 104 then inl 0
      else if c =? 118 then inl 0
      else inl 1
  end.

(** From the options to [fullurl]. *)
Definition arguments (argv : list (list Z)) (st : settings) : Z + settings * list Z :=
  let (os, rest) := getopt (drop 1 argv) in
  match options os st with
  | inl e => inl e
  | inr st =>
      if (fsuggested st =? 1) && (nthreads st =? 0) then inl 1
      else if zlen argv =? 2 then match argv with [_; a] => inr (st, a) | _ => inl 1 end
      else match rest with a :: _ => if 2 <? zlen argv then inr (st, a) else inl 1 | [] => inl 1 end
  end.

(** ** The name of the local file *)

Definition strncpy_at (dst : list Z) (off : Z) (src : list Z) (n : Z) : list Z :=
  take (Z.to_nat off) dst ++ Url.strncpy (drop (Z.to_nat off) dst) src (Z.to_nat n).
(** [tmp] is the array on the stack; a directory too long for it leaves it as it was. The
    last argument of the second [strncpy] wraps round when it is negative. *)
Definition local_file (cwd tmp lfile file : list Z) : option (list Z) :=
  let? n := Url.strlen lfile in
  let lfile := if n =? 0 then Url.strncpy lfile (c_string file) (Z.to_nat (Url.MAXBUFSIZ - 2)) else lfile in
  let tmp := if Url.MAXBUFSIZ - 2 <=? zlen cwd then tmp else cwd ++ 0 :: drop (S (length cwd)) tmp in
  let? n := Url.strlen tmp in
  if Url.MAXBUFSIZ - n - 2 <? 0 then None
  else
    let tmp := strncpy_at tmp n [47] (Url.MAXBUFSIZ - n - 2) in
    let? n := Url.strlen tmp in
    if Url.MAXBUFSIZ - n - 3 <? 0 then None
    else
      let tmp := strncpy_at tmp n (c_string lfile) (Url.MAXBUFSIZ - n - 3) in
      Some (Url.strncpy lfile (c_string tmp) (Z.to_nat (Url.MAXBUFSIZ - 2))).

(** ** The program *)

Record world := mkWorld {
  rcfile : Rc.found; rc_creatable : bool; rc_buf : list Z;
  heap_req : Url.request; heap_lfile : list Z; heap_clength : Z; heap_time : Z;
  cwd : list Z; stack_tmp : list Z;
  pw_dir : option (list Z); denied : list Z -> bool; unlink_ok : bool; logs : files; reopen_ok : bool;
  web : HeadReq.web; http_disk : disk; http_mem : list thread_data;
  resolves : bool; ctrl : Ftp.peer; ctrl_sd : Z; ftp_disk : disk; ftp_mem : list thread_data;
  rounds : list far
}.

Section Program.
(** [%d] and [%ld] *)
Variables show_d show_ld : Z -> list Z.

(** What [GET] asks for: the path, or with a proxy the whole URL. *)
Definition asked_url (proxyhost : list Z) (r : Url.request) : list Z :=
  match proxyhost with
  | [] => c_string (Url.url r)
  | _ => (if Url.proto r =? Url.PROTO_HTTP then text "http://" else text "ftp://") ++ c_string (Url.host r) ++ c_string (Url.url r)
  end.

(** [startHTTP]: the head request and the download. *)
Definition start_http (proxyhost : list Z) (fs n : Z) (r : Url.request) (w : world) : Z * outcome :=
  match HeadReq.http_head_req (web w) (heap_clength w) with
  | None => (n, Undefined)
  | Some (inl e) => (n, Exits e)
  | Some (inr clen) =>
      startHTTP show_ld fs n (asked_url proxyhost r) (c_string (Url.host r)) clen (http_disk w) (http_mem w)
        ((fun f i => fst (f i)) <$> rounds w)
  end.

(** The first thread of the first round goes on with the connection of the head request. *)
Definition take_over (ls : list (option (list Z))) (peers : Z -> Ftp.peer) (i : Z) : Ftp.peer :=
  let p := peers i in
  if i =? 0 then Ftp.mkPeer (Ftp.c_socket p) (Ftp.c_connect p) (Ftp.c_fdopen p) ls (Ftp.d_socket p) (Ftp.d_connect p) (Ftp.data p) (Ftp.takes p)
  else p.
Definition peers_of (ls : list (option (list Z))) (rs : list far) : list (Z -> Ftp.peer) :=
  match rs with [] => [] | f :: rs => take_over ls (fun i => snd (f i)) :: ((fun f i => snd (f i)) <$> rs) end.
Definition ftp_part (inited : bool) (fs n : Z) (r : Url.request) (w : world) : Z * outcome :=
  let user := c_string (Url.username r) in
  let pass := c_string (Url.password r) in
  let path := c_string (Url.url r) in
  match HeadReq.ftp_head_req show_d (resolves w) user pass path (ctrl w) with
  | None => (n, Undefined)
  | Some (inl (ProcessExit e)) => (n, Exits e)
  | Some (inl _) => (n, Blocked)
  | Some (inr (clen, _, _, ls)) =>
      Ftp.startFTP show_d show_ld inited fs n 1 (ctrl_sd w) user pass path clen (ftp_disk w) (ftp_mem w) (peers_of ls (rounds w))
  end.
(** [startFTP]: with a proxy the file is first taken over HTTP, which initialises
    [bwritten_mutex]; the rest is done in any case. *)
Definition start_ftp (proxyhost : list Z) (fs n : Z) (r : Url.request) (w : world) : Z * outcome :=
  match proxyhost with
  | [] => ftp_part false fs n r w
  | _ =>
      match start_http proxyhost fs n r w with
      | (n, Complete _ ws b) =>
          match ftp_part true fs n r w with
          | (n, Complete wt ws' b') => (n, Complete wt (ws ++ ws') ((b + b') mod 2 ^ 32))
          | stopped => stopped
          end
      | stopped => stopped
      end
  end.

(** [main] up to the choice between a resumed job and a new one: the variables of the rc
    file, the settings and the job. *)
Definition prepare (argv : list (list Z)) (w : world) : Url.result (Rc.config * settings * job) :=
  let! (_, c) := Rc.readrc (rcfile w) (rc_creatable w) (rc_buf w) Rc.config0 in
  let n := if Rc.preferredthread c =? -1 then 0 else Rc.preferredthread c in
  let! (st, fullurl) := Some (arguments argv (mkSet (Url.port (heap_req w)) (heap_lfile w) 0 n)) in
  let! r := Url.parse_url (c_string (Rc.ftpanonymoususer c)) (c_string (Rc.ftpanonymouspass c)) fullurl
              (Url.set_proto (s_port st) (Url.proto (heap_req w)) (heap_req w)) in
  let? lfile := local_file (cwd w) (stack_tmp w) (s_lfile st) (Url.file r) in
  Some (inr (c, st, mkJob r (c_string lfile) (heap_clength w) (heap_time w))).

(** [main]: the local file, how the download ends, and the log files left; [inl] is [exit]
    before a download. *)
Definition main (argv : list (list Z)) (w : world) : Url.result (list Z * outcome * files) :=
  let! (c, st, j) := prepare argv w in
  let! (h, fs) := read_log (pw_dir w) (denied w) (unlink_ok w) j (logs w) in
  let r := j_req j in
  let proxyhost := c_string (Rc.http_proxyhost c) in
  let fs' := fsuggested st in
  let n := nthreads st in
  Some (inr
    match h with
    | Some h => (lfile (h_job h), resumeJob show_d show_ld h (Url.proto r) (reopen_ok w) (rounds w), fs)
    | None =>
        (lfile j, snd (if Url.proto r =? Url.PROTO_HTTP then start_http proxyhost fs' n r w else start_ftp proxyhost fs' n r w), fs)
    end).
End Program.

(** ** The name of the local file *)

Lemma strncpy_at_split p t src n : zlen src < n -> exists t', strncpy_at (p ++ t) (zlen p) src n = p ++ src ++ 0 :: t'.
Proof.
  intros Hl. unfold strncpy_at. rewrite Nat2Z.id, take_app_length, drop_app_length. destruct (Url.strncpy_split t src (Z.to_nat n)) as [t' ->]; [lia|]. by exists t'.
Qed.

(** The name asked for with [-l], or that of the URL. *)
Definition local_name (lfile base : list Z) : list Z := match c_string lfile with [] => base | l => l end.
Lemma chosen_name lfile file n : Url.strlen lfile = Some n -> zlen (c_string file) < Url.MAXBUFSIZ - 2 ->
  c_string (if n =? 0 then Url.strncpy lfile (c_string file) (Z.to_nat (Url.MAXBUFSIZ - 2)) else lfile) = local_name lfile (c_string file).
Proof.
  intros Hn Hl. apply Url.strlen_c_string in Hn. unfold local_name. destruct (c_string lfile) eqn:E; destruct (Z.eqb_spec n 0); simpl in Hn; try lia; [|done].
  destruct (Url.strncpy_split lfile (c_string file) (Z.to_nat (Url.MAXBUFSIZ - 2))) as [t ->]; [lia|]. apply Url.c_string_app, Url.c_string_nonzero.
Qed.
Lemma local_file_spec cwd tmp lfile file n : Url.nonzero cwd -> Url.strlen lfile = Some n -> zlen (c_string file) < Url.MAXBUFSIZ - 2 ->
  zlen cwd + zlen (local_name lfile (c_string file)) < Url.MAXBUFSIZ - 4 ->
  exists b, local_file cwd tmp lfile file = Some b /\ c_string b = cwd ++ 47 :: local_name lfile (c_string file).
Proof.
  intros Hc Hn Hf Hl. unfold local_file. rewrite Hn, chosen_name by done. set (name := local_name lfile (c_string file)) in *.
  assert (Url.nonzero name) as Hz by (unfold name, local_name; destruct (c_string lfile) eqn:E; [apply Url.c_string_nonzero|rewrite <- E; apply Url.c_string_nonzero]).
  assert (Url.nonzero (cwd ++ [47])) as Hc' by (apply Forall_app; split; [done|by repeat constructor]).
  destruct (Z.leb_spec (Url.MAXBUFSIZ - 2) (zlen cwd)); [lia|]. rewrite Url.strlen_app by done. destruct (Z.ltb_spec (Url.MAXBUFSIZ - zlen cwd - 2) 0); [lia|].
  destruct (strncpy_at_split cwd (0 :: drop (S (length cwd)) tmp) [47] (Url.MAXBUFSIZ - zlen cwd - 2)) as [t ->]; [simpl; lia|]. rewrite app_assoc.
  rewrite Url.strlen_app by done. rewrite length_app. cbn [length]. destruct (Z.ltb_spec (Url.MAXBUFSIZ - Z.of_nat (length cwd + 1) - 3) 0); [lia|].
  destruct (strncpy_at_split (cwd ++ [47]) (0 :: t) name (Url.MAXBUFSIZ - Z.of_nat (length cwd + 1) - 3)) as [t' Et]; [lia|]. rewrite length_app in Et. cbn [length] in Et. rewrite Et.
  eexists. split; [reflexivity|]. rewrite app_assoc, Url.c_string_app by (apply Forall_app; done). rewrite <- app_assoc. cbn [Datatypes.app].
  match goal with |- c_string (Url.strncpy ?d ?x ?k) = _ => destruct (Url.strncpy_split d x k) as [u ->] end; [rewrite length_app; cbn [length]; lia|].
  apply Url.c_string_app, Forall_app. by split; [|constructor].
Qed.

(** ** A start of the program *)

Definition start_settings (c : Rc.config) (w : world) : settings :=
  mkSet (Url.port (heap_req w)) (heap_lfile w) 0 (if Rc.preferredthread c =? -1 then 0 else Rc.preferredthread c).
(** The rc file can be read, and [argv] asks for a URL without user information that fits the
    arrays, as do the directory and the name of the local file. *)
Record asks (argv : list (list Z)) (w : world) (c : Rc.config) (st : settings) (ftp : bool) (h dir base : list Z) : Prop := {
  as_rc : exists f, Rc.readrc (rcfile w) (rc_creatable w) (rc_buf w) Rc.config0 = Some (inr (f, c));
  as_args : arguments argv (start_settings c w) = inr (st, Url.scheme_of ftp ++ h ++ dir ++ 47 :: base);
  as_host : Url.plain h /\ zlen h < Url.MAXHOSTSIZ;
  as_path : Url.nonzero dir /\ Url.nonzero base /\ Forall (fun c => c <> 47) base /\ (dir = [] \/ exists d, dir = 47 :: d) /\
    zlen (dir ++ 47 :: base) < Url.MAXURLSIZ;
  as_arrays : zlen (Url.host (heap_req w)) = Url.MAXHOSTSIZ /\ zlen (Url.url (heap_req w)) = Url.MAXURLSIZ /\ zlen (Url.file (heap_req w)) = Url.MAXBUFSIZ;
  as_user : is_Some (Url.strlen (Url.username (heap_req w))) /\ is_Some (Url.strlen (Url.password (heap_req w)));
  as_lfile : is_Some (Url.strlen (s_lfile st));
  as_cwd : Url.nonzero (cwd w) /\ zlen (cwd w) + zlen (local_name (s_lfile st) base) < Url.MAXBUFSIZ - 4
}.

Section Start.
Context (argv : list (list Z)) (w : world) (c : Rc.config) (st : settings) (ftp : bool) (h dir base : list Z).
Hypothesis Hasks : asks argv w c st ftp h dir base.

(** The job: what the URL stands for, in a file of the current directory. *)
Record job_ok (j : job) : Prop := {
  jo_host : c_string (Url.host (j_req j)) = h;
  jo_url : c_string (Url.url (j_req j)) = dir ++ 47 :: base;
  jo_proto : Url.proto (j_req j) = (if ftp then Url.PROTO_FTP else Url.PROTO_HTTP);
  jo_port : Url.port (j_req j) = (if s_port st =? 0 then if ftp then 21 else 80 else s_port st);
  jo_lfile : lfile j = cwd w ++ 47 :: local_name (s_lfile st) base;
  jo_clength : j_clength j = heap_clength w
}.
Lemma prepare_job : exists j, prepare argv w = Some (inr (c, st, j)) /\ job_ok j.
Proof.
  destruct Hasks as [[f Hrc] Ha [Hh Lh] (Hd & Hb & Hs & Hdir & Lp) (Bh & Bu & Bf) ([nu Hnu] & [np Hnp]) [n Hn] [Hc Hl]].
  unfold prepare. rewrite Hrc. cbn [Url.bind]. fold (start_settings c w). rewrite Ha. cbn [Url.bind].
  set (r0 := Url.set_proto (s_port st) (Url.proto (heap_req w)) (heap_req w)).
  destruct (Url.parse_url_plain (c_string (Rc.ftpanonymoususer c)) (c_string (Rc.ftpanonymouspass c)) ftp h dir base r0 nu np)
    as (r & -> & Eh & Eu & Ef & Ep & Epo & _ & _); try done. cbn [Url.bind].
  assert (length base < length (dir ++ 47%Z :: base))%nat by (rewrite length_app; cbn [length]; lia).
  destruct (local_file_spec (cwd w) (stack_tmp w) (s_lfile st) (Url.file r) n) as (b & -> & Eb); [done|done|rewrite Ef; unfold Url.MAXBUFSIZ, Url.MAXURLSIZ in *; lia|by rewrite Ef|].
  eexists. split; [reflexivity|]. split; [done..| |done]. cbn [lfile]. by rewrite Eb, Ef.
Qed.
End Start.

(** ** A download from the command line *)

Section Download.
Variables (content : Z -> Z) (show_d show_ld : Z -> list Z).

(** The server states the length; the file can be made; every server of the first round has
    its thread's part of the content. *)
Record http_offer (w : world) (h path : list Z) (clen n : Z) : Prop := {
  ho_head : HeadReq.states_length (web w) clen;
  ho_disk : open_file (http_disk w) = Some true /\ seek_ok (http_disk w) = true /\ write_ok (http_disk w) = true;
  ho_mem : n <= zlen (http_mem w);
  ho_serve : exists f fs, rounds w = f :: fs /\ all_serve content show_ld path h clen n (fun i => fst (f i))
}.
(** The same over FTP: the first thread goes on with the connection of the head request. *)
Record ftp_offer (w : world) (clen n : Z) : Prop := {
  fo_resolves : resolves w = true;
  fo_disk : open_file (ftp_disk w) = Some true /\ seek_ok (ftp_disk w) = true /\ write_ok (ftp_disk w) = true;
  fo_mem : n <= zlen (ftp_mem w);
  fo_serve : exists type left f fs, HeadReq.lists_file show_d (ctrl w) type clen left /\ rounds w = f :: fs /\
    forall i, 0 <= i < n -> seg_start clen n i < seg_end clen n i ->
      Ftp.cooperates content show_d (Ftp.mkFtp (if i =? 0 then ctrl_sd w else -1) [] [] []) (Ftp.planned_ftp clen n i thread0)
        (take_over left (fun i => snd (f i)) i)
}.
Definition offers (ftp : bool) (w : world) (h path : list Z) (clen n : Z) : Prop :=
  if ftp then ftp_offer w clen n else http_offer w h path clen n.

(** The file is complete: in whatever order the writes of the threads reach it. *)
Definition completes (file : Z -> Z) (o : outcome) (clen : Z) : Prop :=
  exists wt w0 ws, o = Complete wt (w0 :: ws) clen /\ forall ws', ws' ≡ₚ ws ->
    (forall p, 0 <= p < clen -> foldl write_at file (w0 :: ws') p = content p) /\
    (forall p, ~ 0 <= p < clen -> foldl write_at file (w0 :: ws') p = file p).
Lemma start_http_completes file w r h path clen fs n0 n : c_string (Url.host r) = h -> c_string (Url.url r) = path ->
  n = choose_nthreads fs n0 clen -> 0 < n -> 0 < clen < 2 ^ 31 -> http_offer w h path clen n ->
  completes file (snd (start_http show_ld [] fs n0 r w)) clen.
Proof.
  intros <- <- En Hn Hc [Hh (Ho & Hs & Hw) Hm (f & fs' & Hr & Hserve)]. unfold start_http. rewrite (HeadReq.head_length _ clen) by done. rewrite Hr, fmap_cons.
  destruct (download_correct content show_ld fs n0 (c_string (Url.url r)) (c_string (Url.host r)) clen (http_disk w) (http_mem w) (fun i => fst (f i))
    ((fun f i => fst (f i)) <$> fs') file n) as (wt & w0 & ws & E & Hf); try done. exists wt, w0, ws. cbn [asked_url]. by rewrite E.
Qed.
Lemma start_ftp_aborts w r clen fs n0 n : n = choose_nthreads fs n0 clen -> 0 < n -> 0 < clen < 2 ^ 31 -> ftp_offer w clen n ->
  aborted (snd (start_ftp show_d show_ld [] fs n0 r w)).
Proof.
  intros En Hn Hc [Hres (Ho & Hs & Hw) Hm (type & left & f & fs' & Hh & Hr & Hserve)]. cbn [start_ftp]. unfold ftp_part. rewrite Hres, (HeadReq.ftp_head_finds show_d (ctrl w) _ _ _ type clen left) by done.
  rewrite Hr. cbn [peers_of]. apply (Ftp.ftp_download_aborts content) with (n := n); try done.
  intros i Hi Hlt. eapply Ftp.cooperates_names; [|by apply Hserve]. done.
Qed.
End Download.

(** No log is there. *)
Lemma read_no_log dir denied unlink j : lfile j <> [] -> (forall name, denied name = false) -> read_log dir denied unlink j ∅ = Some (inr (None, ∅)).
Proof.
  intros Hl Hd. unfold read_log, open_log. rewrite Hd, lookup_empty. destruct dir as [dir|]; [|done]. destruct (home_log_some dir j Hl) as [name ->]. by rewrite Hd, lookup_empty.
Qed.


(** ** A download that was interrupted *)

Definition with_logs (fs : files) (w : world) : world :=
  mkWorld (rcfile w) (rc_creatable w) (rc_buf w) (heap_req w) (heap_lfile w) (heap_clength w) (heap_time w) (cwd w) (stack_tmp w)
    (pw_dir w) (denied w) (unlink_ok w) fs (reopen_ok w) (web w) (http_disk w) (http_mem w) (resolves w) (ctrl w) (ctrl_sd w) (ftp_disk w) (ftp_mem w) (rounds w).
Lemma asks_with_logs fs argv w c st ftp h dir base : asks argv w c st ftp h dir base -> asks argv (with_logs fs w) c st ftp h dir base.
Proof. intros []. by split. Qed.


(** ** The options *)

(** The options that end the program. *)
Definition stops (o : opt) : option Z :=
  if (o_char o =? 112) || (o_char o =? 108) then None
  else if o_char o =? 110 then if MAXTHREADS <? to_int (Ftp.atoi (optarg o)) then Some 1 else None
  else if (o_char o =? 104) || (o_char o =? 118) then Some 0 else Some 1.
(** The number of threads the last [-n] asks for. *)
Definition threads_asked (os : list opt) : option Z :=
  to_int ∘ Ftp.atoi ∘ optarg <$> last (filter (fun o => o_char o = 110) os).
Lemma options_step o os st : stops o = None -> exists st', options (o :: os) st = options os st' /\
  (if o_char o =? 110 then fsuggested st' = 1 /\ nthreads st' = to_int (Ftp.atoi (optarg o)) /\ nthreads st' <= MAXTHREADS
   else fsuggested st' = fsuggested st /\ nthreads st' = nthreads st).
Proof.
  destruct o as [c a]. unfold stops. cbn [o_char optarg options]. intros Hs.
  destruct (Z.eqb_spec c 112) as [->|]; [by eexists|]. destruct (Z.eqb_spec c 108) as [->|]; [by eexists|]. cbn [orb] in Hs.
  destruct (Z.eqb_spec c 110) as [->|].
  - destruct (Z.ltb_spec MAXTHREADS (to_int (Ftp.atoi a))); [done|]. by eexists.
  - destruct (c =? 104), (c =? 118); done.
Qed.
Lemma options_stop o os st e : stops o = Some e -> options (o :: os) st = inl e.
Proof.
  destruct o as [c a]. unfold stops. cbn [o_char optarg options]. intros Hs.
  destruct (c =? 112); [done|]. destruct (c =? 108); [done|]. cbn [orb] in Hs. destruct (c =? 110); [by destruct (MAXTHREADS <? _); [injection Hs as <-|]|].
  destruct (c =? 104); [by injection Hs as <-|]. destruct (c =? 118); by injection Hs as <-.
Qed.
Lemma options_spec os st :
  match options os st with
  | inl e => exists pre o post, os = pre ++ o :: post /\ Forall (fun o => stops o = None) pre /\ stops o = Some e
  | inr st' => Forall (fun o => stops o = None) os /\
      match threads_asked os with
      | Some n => fsuggested st' = 1 /\ nthreads st' = n /\ n <= MAXTHREADS
      | None => fsuggested st' = fsuggested st /\ nthreads st' = nthreads st
      end
  end.
Proof.
  revert st. induction os as [|o os IH]; intros st; [done|]. destruct (stops o) as [e|] eqn:Es.
  { rewrite (options_stop o os st e) by done. exists [], o, os. done. }
  destruct (options_step o os st Es) as (st1 & -> & H1). specialize (IH st1). destruct (options os st1) as [e|st'].
  - destruct IH as (pre & o' & post & -> & Hp & Ho). exists (o :: pre), o', post. split; [done|]. split; [by constructor|done].
  - destruct IH as [Hf Ht]. split; [by constructor|]. unfold threads_asked in *. rewrite filter_cons. destruct (Z.eqb_spec (o_char o) 110) as [E|E].
    + rewrite decide_True by done. rewrite last_cons. destruct (last (filter (fun o => o_char o = 110) os)) as [o'|]; cbn [fmap option_fmap option_map] in *; [done|].
      unfold compose. destruct H1 as (E1 & E2 & E3), Ht as [-> ->]. rewrite <- E2. done.
    + rewrite decide_False by done. destruct (last (filter (fun o => o_char o = 110) os)) as [o'|]; cbn [fmap option_fmap option_map] in *; [done|].
      destruct H1 as [<- <-]. done.
Qed.

Lemma options_stops pre o post st e : Forall (fun o => stops o = None) pre -> stops o = Some e -> options (pre ++ o :: post) st = inl e.
Proof.
  intros Hp Ho. revert st. induction Hp as [|x pre Hx _ IH]; intros st; [by apply options_stop|]. destruct (options_step x (pre ++ o :: post) st Hx) as (st' & E & _).
  cbn [Datatypes.app]. by rewrite E.
Qed.
(** What is left when no option ends the program. *)
Lemma arguments_left argv st st' e : argv <> [] -> fsuggested st = 0 -> options (fst (getopt (drop 1 argv))) st = inr st' ->
  arguments argv st = inl e <-> e = 1 /\ (threads_asked (fst (getopt (drop 1 argv))) = Some 0 \/ zlen argv <> 2 /\ snd (getopt (drop 1 argv)) = []).
Proof.
  intros Hne Hfs Eo. pose proof (options_spec (fst (getopt (drop 1 argv))) st) as Ho. rewrite Eo in Ho. destruct Ho as [_ Ht]. unfold arguments.
  destruct (getopt (drop 1 argv)) as [os rest] eqn:Eg. cbn [fst snd] in *. rewrite Eo.
  assert ((fsuggested st' =? 1) && (nthreads st' =? 0) = bool_decide (threads_asked os = Some 0)) as ->.
  { destruct (threads_asked os) as [n|]; [destruct Ht as (-> & -> & _)|destruct Ht as [-> _]; by rewrite Hfs]. rewrite Z.eqb_refl. cbn [andb].
    destruct (Z.eqb_spec n 0) as [->|]; [by rewrite bool_decide_true|by rewrite bool_decide_false; [|congruence]]. }
  case_bool_decide as Hq; [split; [intros [= <-]; auto|intros [-> _]; done]|].
  destruct argv as [|p [|a [|b argv]]]; [done|..].
  - cbn in Eg. injection Eg as <- <-. cbn. split; [intros [= <-]; auto|by intros [-> _]].
  - cbn [length]. split; [done|intros (_ & [?|[? _]]); [done|lia]].
  - destruct (Z.eqb_spec (zlen (p :: a :: b :: argv)) 2); [simpl in *; lia|]. destruct rest as [|x rest]; [split; [intros [= <-]; auto|by intros [-> _]]|].
    destruct (Z.ltb_spec 2 (zlen (p :: a :: b :: argv))); [|simpl in *; lia]. split; [done|intros (_ & [?|[_ ?]]); done].
Qed.

(** C39. Errors of the command line. The program ends before it looks at the URL, with code
    [e], exactly when: the first option that is not a valid [-p], [-l] or [-n] ends it ([-h]
    and [-v] with 0, more than ten threads and all others, [-f] among them, with 1); or no
    option does, and the last [-n] asks for no thread, or there is no URL, with 1. *)
Theorem command_line_errors argv st e : argv <> [] -> fsuggested st = 0 ->
  arguments argv st = inl e <->
    (exists pre o post, fst (getopt (drop 1 argv)) = pre ++ o :: post /\ Forall (fun o => stops o = None) pre /\ stops o = Some e) \/
    (Forall (fun o => stops o = None) (fst (getopt (drop 1 argv))) /\ e = 1 /\
     (threads_asked (fst (getopt (drop 1 argv))) = Some 0 \/ zlen argv <> 2 /\ snd (getopt (drop 1 argv)) = [])).
Proof.
  intros Hne Hfs. pose proof (options_spec (fst (getopt (drop 1 argv))) st) as Ho. destruct (options (fst (getopt (drop 1 argv))) st) as [e0|st'] eqn:Eo.
  - assert (arguments argv st = inl e0) as -> by (unfold arguments; destruct (getopt (drop 1 argv)) as [os rest]; cbn [fst] in Eo; by rewrite Eo).
    split; [intros [= <-]; by left|]. intros [(pre & o & post & E & Hp & Hs)|[Hf _]].
    + rewrite E in Eo. rewrite (options_stops pre o post st e) in Eo by done. congruence.
    + destruct Ho as (pre & o & post & E & _ & Hs). rewrite E in Hf. apply Forall_app in Hf as [_ Hf]. apply Forall_cons in Hf as [Hf _]. congruence.
  - destruct Ho as [Hf _]. rewrite (arguments_left argv st st') by done. split; [by right|]. intros [(pre & o & post & E & _ & Hs)|[_ ?]]; [|done].
    rewrite E in Hf. apply Forall_app in Hf as [_ Hf]. apply Forall_cons in Hf as [Hf _]. congruence.
Qed.

(** The usual command line. *)
Lemma usual_command_line prog ds name u st : ds <> [] -> Forall (fun c => 48 <= c <= 57) ds -> 1 <= Ftp.atoi_digits ds 0 <= MAXTHREADS ->
  (forall c s, u <> 45 :: c :: s) ->
  arguments [prog; text "-n"; ds; text "-l"; name; u] st =
    inr (mkSet (s_port st) (Url.strncpy (s_lfile st) name (Z.to_nat (Url.MAXBUFSIZ - 1))) 1 (Ftp.atoi_digits ds 0), u).
Proof.
  intros Hne Hd Hn Hu. unfold arguments. assert (getopt (drop 1 [prog; text "-n"; ds; text "-l"; name; u]) = ([mkOpt 110 ds; mkOpt 108 name], [u])) as ->.
  { assert (getopt [u] = ([], [u])) as Eu.
    { destruct u as [|x [|c s]]; [done|done|]. cbn [getopt]. destruct (Z.eqb_spec x 45) as [->|]; [by destruct (Hu c s)|done]. }
    cbn. cbn in Eu. by rewrite Eu. }
  cbn [options o_char Z.eqb Pos.eqb]. rewrite HeadReq.atoi_number by done. unfold MAXTHREADS in *. rewrite to_int_id by (unfold is_int; lia).
  destruct (Z.ltb_spec 10 (Ftp.atoi_digits ds 0)); [lia|]. cbn [fsuggested nthreads]. destruct (Z.eqb_spec (Ftp.atoi_digits ds 0) 0); [lia|]. done.
Qed.

(** ** Less than no thread *)

Lemma retry_negative body rounds n ws b : n < 0 -> retry (setup_loop body (Z.to_nat n) 0) n rounds 0 [] ws b = Retrying.
Proof.
  intros Hn. replace (Z.to_nat n) with O by lia. revert ws b. induction rounds as [|get rounds IH]; intros ws b; [done|].
  change (match (0 + count_ok [] =? n) with true => Complete [] (ws ++ []) ((b + sum_Z []) mod 2 ^ 32)
    | false => retry (setup_loop body 0 0) n rounds (0 + count_ok []) [] (ws ++ []) ((b + sum_Z []) mod 2 ^ 32) end = Retrying).
  change (0 + count_ok []) with 0. destruct (Z.eqb_spec 0 n); [lia|]. apply IH.
Qed.
(** A negative number of threads passes the checks of [-n]; no thread is started, none
    succeeds, and the program starts none again for ever: however many rounds there are, it
    is still retrying. *)
Lemma negative_threads_never_end show_d show_ld argv w c st h dir base clen :
  asks argv w c st false h dir base -> c_string (Rc.http_proxyhost c) = [] -> logs w = ∅ -> (forall name, denied w name = false) ->
  fsuggested st = 1 -> nthreads st < 0 -> HeadReq.states_length (web w) clen -> 0 < clen ->
  open_file (http_disk w) = Some true -> seek_ok (http_disk w) = true -> write_ok (http_disk w) = true ->
  main show_d show_ld argv w = Some (inr (cwd w ++ 47 :: local_name (s_lfile st) base, Retrying, ∅)).
Proof.
  intros Ha Hp Hl Hd Hf Hn Hh Hc Ho Hs Hw. destruct (prepare_job _ _ _ _ _ _ _ _ Ha) as (j & Ej & [Eh Eu Ep _ El _]).
  unfold main. rewrite Ej. cbn [Url.bind]. rewrite Hl, read_no_log by (done || (rewrite El; by destruct (cwd w))). cbn [Url.bind]. rewrite Hp, El, Ep.
  change (Url.PROTO_HTTP =? Url.PROTO_HTTP) with true. cbv iota. unfold start_http. rewrite (HeadReq.head_length _ clen) by done.
  unfold startHTTP, choose_nthreads. rewrite Hf, Ho. unfold allocate. rewrite Hs, Hw. cbn [negb orb Z.eqb]. destruct (Z.ltb_spec (clen - 1) 0); [lia|].
  cbn [snd]. replace (take (Z.to_nat (nthreads st)) (http_mem w)) with (@nil thread_data) by (by replace (Z.to_nat (nthreads st)) with O by lia).
  by rewrite retry_negative.
Qed.

(** ** Samples *)

Definition sample_web : HeadReq.web :=
  HeadReq.mkWeb true true true true (Some (HeadReq.answer [text "HTTP/1.1 200 OK"; text "Server: x"; text "Content-Length: 5"; text "Connection: close"])).
(** The control connection: the head request, and what the first thread goes on with. *)
Definition sample_left : list (option (list Z)) := Some (Ftp.line "226 done") :: Ftp.sample_replies.
Definition sample_ctrl : Ftp.peer :=
  Ftp.mkPeer true true true
    ((Some <$> [Ftp.line "220 hi"; Ftp.line "331 who"; Ftp.line "230 in"; Ftp.line "350 ok"; Ftp.line "215 UNIX"; Ftp.line "200 ok"; Ftp.line "227 at (9,8,7,6,1,5)"; Ftp.line "150 here"]) ++ sample_left)
    true (fun _ _ => true) [Ftp.Got (text "-rw-r--r-- 1 u g 5 Jan 1 f.c" ++ CRLF)] [].
Definition sample_world (f : far) : world :=
  mkWorld Rc.NoUser true [] Url.blank (replicate (Z.to_nat Url.MAXBUFSIZ) 0) 0 0 (text "/tmp") (replicate (Z.to_nat Url.MAXBUFSIZ) 7)
    (Some (text "/home/u")) (fun _ => false) true ∅ true sample_web sample_disk (replicate 2 thread0)
    true sample_ctrl 4 sample_disk (replicate 2 thread0) [f].
Definition command_line (ftp : bool) (n : string) : list (list Z) := [text "aget"; text "-n"; text n; Url.scheme_of ftp ++ text "a.org/dir/f.c"].
Definition sample_settings (n : Z) : settings := mkSet 0 (replicate (Z.to_nat Url.MAXBUFSIZ) 0) 1 n.

Lemma sample_states : HeadReq.states_length sample_web 5.
Proof.
  split; [done|]. exists (text "HTTP/1.1 200 OK"), [text "Server: x"], (text "5"), [text "Connection: close"]. cbv zeta.
  repeat (split; [vm_compute; (reflexivity || done)|]). split; [|split; [reflexivity|]].
  { repeat (apply Forall_cons; split; [split; [done|]; repeat (apply Forall_cons; split; [split; [done|reflexivity]|]); by apply Forall_nil|]). by apply Forall_nil. }
  split; [repeat (apply Forall_cons; split; [reflexivity|]); by apply Forall_nil|]. split; [done|]. split; [apply Forall_cons; split; [done|by apply Forall_nil]|].
  split; [done|reflexivity].
Qed.
Lemma sample_asks ftp f s n : arguments (command_line ftp s) (start_settings Rc.config0 (sample_world f)) = inr (sample_settings n, Url.scheme_of ftp ++ text "a.org/dir/f.c") ->
  asks (command_line ftp s) (sample_world f) Rc.config0 (sample_settings n) ftp (text "a.org") (text "/dir") (text "f.c").
Proof.
  intros Ha. split; [by exists None|exact Ha| | | | |exists 0; vm_compute; reflexivity|]; (split || idtac).
  - repeat (apply Forall_cons; split; [done|]). by apply Forall_nil.
  - vm_compute. reflexivity.
  - repeat (apply Forall_cons; split; [done|]). by apply Forall_nil.
  - split; [repeat (apply Forall_cons; split; [done|]); by apply Forall_nil|]. split; [repeat (apply Forall_cons; split; [done|]); by apply Forall_nil|].
    split; [right; by eexists|vm_compute; reflexivity].
  - vm_compute. reflexivity.
  - split; vm_compute; reflexivity.
  - exists 0. exact Url.blank_name.
  - exists 0. exact Url.blank_name.
  - repeat (apply Forall_cons; split; [done|]). by apply Forall_nil.
  - vm_compute. reflexivity.
Qed.
Definition both (f : Z -> server) (i : Z) : server * Ftp.peer := (f i, Ftp.sample_peer i).
Lemma sample_offers : http_offer sample_content (fun _ => [48]) (sample_world (both sample_servers)) (text "a.org") (text "/dir/f.c") 5 2.
Proof.
  split; [exact sample_states|by vm_compute|by vm_compute|]. eexists _, []. split; [reflexivity|]. intros i Hi _. eapply serves_ext; [| |by apply sample_serves]; done.
Qed.
Lemma sample_lists : HeadReq.lists_file (fun n => [48 + n]) sample_ctrl HeadReq.SERVER_TYPE_UNIX 5 sample_left.
Proof.
  split; [done| |eexists _, _; split; [reflexivity|]; split; [vm_compute; reflexivity|done]].
  exists [Some (Ftp.line "220 hi")], (Ftp.line "220 hi"), [Some (Ftp.line "331 who")], [Some (Ftp.line "230 in")], [Some (Ftp.line "350 ok")], [Some (Ftp.line "215 UNIX")], (Ftp.line "215 UNIX"),
    [Some (Ftp.line "200 ok")], (Ftp.line "200 ok"), [Some (Ftp.line "227 at (9,8,7,6,1,5)")], (Ftp.line "227 at (9,8,7,6,1,5)"), [57; 46; 56; 46; 55; 46; 54], 261,
    [Some (Ftp.line "150 here")], (Ftp.line "150 here").
  split; [reflexivity|]. split; [Ftp.solve_line|]. split; [reflexivity|]. do 3 (split; [eexists; split; [Ftp.solve_line|vm_compute; reflexivity]|]).
  split; [Ftp.solve_line|]. split; [vm_compute; reflexivity|]. split; [vm_compute; reflexivity|]. split; [Ftp.solve_line|]. split; [Ftp.solve_line|].
  split; [vm_compute; reflexivity|]. split; [reflexivity|]. Ftp.solve_line.
Qed.
Lemma sample_ftp_offers : ftp_offer sample_content (fun n => [48 + n]) (sample_world (both sample_servers)) 5 2.
Proof.
  split; [done|by vm_compute|by vm_compute|]. exists HeadReq.SERVER_TYPE_UNIX, sample_left, (both sample_servers), []. split; [exact sample_lists|]. split; [done|].
  intros i Hi _. cbn [ctrl_sd sample_world]. assert (i = 0 \/ i = 1) as [-> | ->] by lia; apply (Ftp.sample_cooperates [] [] []); lia.
Qed.

(** The log of the first try is there; one part was complete, or both. *)
Definition tried : job := mkJob (Url.mkRequest [] [] [] [] [] 80 Url.PROTO_HTTP) (text "/tmp/f.c") 5 0.
Definition sample_finished : list thread_data := [mkThread [] 0 2 2 5 255; mkThread [] 2 5 5 5 255].

Lemma negative_threads_never_end_witness :
  main (fun _ => [48]) (fun _ => [48]) (command_line false "-1") (sample_world (both sample_servers)) = Some (inr (text "/tmp/f.c", Retrying, ∅)).
Proof.
  etransitivity; [apply (negative_threads_never_end (fun _ => [48]) (fun _ => [48]) (command_line false "-1") (sample_world (both sample_servers)) Rc.config0 (sample_settings (-1))
    (text "a.org") (text "/dir") (text "f.c") 5); [apply sample_asks; vm_compute; reflexivity|vm_compute; reflexivity|done|done|done|done|exact sample_states|lia|done|done|done]|].
  vm_compute. reflexivity.
Defined.
(** The options are accepted up to [-f], which comes before [-v]. *)
Lemma command_line_errors_witness : arguments [text "aget"; text "-p"; text "8080"; text "-fv"; text "http://a.org/f"] (mkSet 0 [] 0 0) = inl 1.
Proof.
  apply (command_line_errors [text "aget"; text "-p"; text "8080"; text "-fv"; text "http://a.org/f"] (mkSet 0 [] 0 0)); [done|done|]. left.
  exists [mkOpt 112 (text "8080")], (mkOpt 102 []), [mkOpt 118 []]. split; [reflexivity|]. split; [by repeat constructor|done].
Defined.
End AgetMain.
