(* ===== verification/Phases.v ===== *)
(** * Phases: programs of P threads that work between barriers

    The benchmarks of [papps/splash2] are written with the macros of
    [codes/null_macros/c.m4.null.det]: every thread runs the same function,
    gets its number from a shared index, and works in phases that barriers
    separate; inside a phase a thread may tell another one that something is
    ready ([SETPAUSE], [WAITPAUSE] and [CLEARPAUSE] on a flag).  This file has
    such programs as data ([prog]), their executions at the granularity of
    single accesses to the shared memory ([step]), and the rule for one phase
    ([phase]): what every thread does when its reads are answered by the
    memory [sg] at the end of the phase decides what every interleaving does.

    The sections of [SETPAUSE] and of [WAITPAUSE; CLEARPAUSE] run under the
    mutex of the flag and are one step each. *)

From stdpp Require Import base list option functions sets relations.
From S2P Require Import Prelude.
Local Open Scope Z_scope.

(** ** Programs *)

(** A thread, by its next access to what it shares: the memory [L], the
    flags, a barrier.  Whatever is private to the thread is in the
    continuation.  [Fail] is an access outside an array of its own. *)
Inductive prog (L A : Type) : Type :=
| Ret (a : A)
| Fail
| Read (l : L) (k : Z -> prog L A)
| Write (l : L) (v : Z) (k : prog L A)
| SetPause (f : Z) (k : prog L A)
| WaitPause (f : Z) (k : prog L A)
| Barrier (b : Z) (k : prog L A).
Arguments Ret {_ _} _.
Arguments Fail {_ _}.
Arguments Read {_ _} _ _.
Arguments Write {_ _} _ _ _.
Arguments SetPause {_ _} _ _.
Arguments WaitPause {_ _} _ _.
Arguments Barrier {_ _} _ _.

Fixpoint bind {L A B} (p : prog L A) (g : A -> prog L B) : prog L B :=
  match p with
  | Ret a => g a
  | Fail => Fail
  | Read l k => Read l (fun v => bind (k v) g)
  | Write l v k => Write l v (bind k g)
  | SetPause f k => SetPause f (bind k g)
  | WaitPause f k => WaitPause f (bind k g)
  | Barrier b k => Barrier b (bind k g)
  end.

Declare Scope prog_scope.
Notation "'let!' x := p 'in' q" := (bind p (fun x => q))
  (at level 10, x pattern at level 0, p at level 200, q at level 200) : prog_scope.
Notation "p ;! q" := (bind p (fun _ => q)) (at level 100, right associativity) : prog_scope.
#[global] Open Scope prog_scope.

Definition read {L} (l : L) : prog L Z := Read l Ret.
Definition write {L} (l : L) (v : Z) : prog L unit := Write l v (Ret tt).
Definition SETPAUSE {L} (f : Z) : prog L unit := SetPause f (Ret tt).
Definition WAIT_CLEAR_PAUSE {L} (f : Z) : prog L unit := WaitPause f (Ret tt).
Definition BARRIER {L} (b : Z) : prog L unit := Barrier b (Ret tt).

(** A private array access: [None] is outside the array. *)
Definition opt {L A} (o : option A) : prog L A :=
  match o with Some a => Ret a | None => Fail end.

(** [for (i = a; i < b; i++)]: [n] iterations from [i]. *)
Fixpoint iter {L S} (n : nat) (i : Z) (s : S) (body : Z -> S -> prog L S) : prog L S :=
  match n with
  | O => Ret s
  | S n => let! s' := body i s in iter n (i + 1) s' body
  end.
Definition for_ {L S} (a b : Z) (s : S) (body : Z -> S -> prog L S) : prog L S :=
  iter (Z.to_nat (b - a)) a s body.

(** ** Executions *)

(** [idx] threads have their number; thread [t < idx] has [thr t] left to do.
    The threads without a number all stand at the start of the same function,
    so [thr t] for [t >= idx] is what the thread that gets the number [t] will
    do. *)
Record cfg (L : Type) := Cfg {
  idx : nat;
  thr : nat -> prog L unit;
  mem : L -> Z;
  flag : Z -> bool }.
Arguments Cfg {_} _ _ _ _.
Arguments idx {_} _.
Arguments thr {_} _.
Arguments mem {_} _.
Arguments flag {_} _.

Section Exec.
Context {L : Type} `{EqDecision L} (P : nat) (valid : L -> bool) (vf : Z -> bool).
Implicit Types (c : cfg L) (t : nat).

(** One access of thread [t]; [None] when it cannot go on alone: it is done,
    at a barrier, waits for a flag that is not set, or its access is outside
    the shared arrays. *)
Definition thread_step c t : option (cfg L) :=
  match thr c t with
  | Read l k => if valid l then Some (Cfg (idx c) (<[t := k (mem c l)]> (thr c)) (mem c) (flag c)) else None
  | Write l v k => if valid l then Some (Cfg (idx c) (<[t := k]> (thr c)) (<[l := v]> (mem c)) (flag c)) else None
  | SetPause f k => if vf f then Some (Cfg (idx c) (<[t := k]> (thr c)) (mem c) (<[f := true]> (flag c))) else None
  | WaitPause f k => if vf f && flag c f then Some (Cfg (idx c) (<[t := k]> (thr c)) (mem c) (<[f := false]> (flag c))) else None
  | Ret _ | Fail | Barrier _ _ => None
  end.

(** The barrier [b] opens when all [P] threads are at it. *)
Definition at_barrier (b : Z) (p : prog L unit) : bool :=
  match p with Barrier b' _ => b' =? b | _ => false end.
Definition past_barrier (p : prog L unit) : prog L unit :=
  match p with Barrier _ k => k | _ => p end.
Definition barrier_step c (b : Z) : option (cfg L) :=
  if (idx c =? P)%nat && forallb (fun t => at_barrier b (thr c t)) (seq 0 P)
  then Some (Cfg (idx c) (fun t => past_barrier (thr c t)) (mem c) (flag c)) else None.

(** A thread gets the next number. *)
Definition number_step c : option (cfg L) :=
  if (idx c <? P)%nat then Some (Cfg (S (idx c)) (thr c) (mem c) (flag c)) else None.

Inductive step c : cfg L -> Prop :=
| step_number c' : number_step c = Some c' -> step c c'
| step_thread t c' : (t < idx c)%nat -> thread_step c t = Some c' -> step c c'
| step_barrier b c' : barrier_step c b = Some c' -> step c c'.

Definition finished c : Prop :=
  idx c = P /\ forall t, (t < P)%nat -> thr c t = Ret tt.

(** Every execution from [c] is finite, none is stuck, and all end in [Q]. *)
Inductive ends (Q : cfg L -> Prop) c : Prop :=
| Ends : (finished c /\ Q c \/ exists c', step c c') ->
         (forall c', step c c' -> ends Q c') -> ends Q c.

Lemma ends_mono (Q Q' : cfg L -> Prop) c : (forall c, Q c -> Q' c) -> ends Q c -> ends Q' c.
Proof. intros HQ. induction 1 as [c Hd _ IH]. split; [|done]. destruct Hd as [[??]|?]; auto. Qed.

Definition parked (p : prog L unit) : bool :=
  match p with Ret _ | Barrier _ _ => true | _ => false end.

Lemma all_parked_steps c c' :
  idx c = P -> (forall t, (t < P)%nat -> parked (thr c t) = true) -> step c c' ->
  exists b, barrier_step c b = Some c'.
Proof.
  intros Hi Hp [c'' H|t c'' Ht H|b c'' H]; [| |eauto].
  - unfold number_step in H. destruct (Nat.ltb_spec (idx c) P); [lia|done].
  - specialize (Hp t ltac:(lia)). unfold thread_step in H. by destruct (thr c t).
Qed.

Lemma barrier_step_inv c b c' :
  barrier_step c b = Some c' ->
  idx c = P /\ (forall t, (t < P)%nat -> exists k, thr c t = Barrier b k) /\
  c' = Cfg (idx c) (fun t => past_barrier (thr c t)) (mem c) (flag c).
Proof.
  unfold barrier_step. destruct (Nat.eqb_spec (idx c) P); [|done]. simpl.
  destruct (forallb _ _) eqn:E; [|done]. intros [= <-]. repeat split; [done|].
  intros t Ht. rewrite forallb_forall in E. specialize (E t ltac:(apply in_seq; lia)).
  destruct (thr c t); try done. simpl in E. apply Z.eqb_eq in E as ->. eauto.
Qed.

Context (HP : (0 < P)%nat).

Lemma ends_finished Q c : finished c -> Q c -> ends Q c.
Proof.
  intros [Hi Hf] HQ. split; [by left|]. intros c' Hs.
  apply all_parked_steps in Hs as [b Hb]; [|done|by intros t ->%Hf].
  apply barrier_step_inv in Hb as (_ & Hb & _). destruct (Hb 0%nat HP) as [k Hk].
  by rewrite Hf in Hk.
Qed.

(** All threads at the same barrier: the only step is that it opens. *)
Lemma ends_barrier Q c b (nxt : nat -> prog L unit -> Prop) :
  idx c = P -> (forall t, (t < P)%nat -> exists k, thr c t = Barrier b k /\ nxt t k) ->
  (forall c', idx c' = P -> (forall t, (t < P)%nat -> nxt t (thr c' t)) ->
     mem c' = mem c -> flag c' = flag c -> ends Q c') ->
  ends Q c.
Proof.
  intros Hi Hb Hk.
  assert (barrier_step c b = Some (Cfg (idx c) (fun t => past_barrier (thr c t)) (mem c) (flag c))) as Hs.
  { unfold barrier_step. rewrite Hi, Nat.eqb_refl. simpl. rewrite (proj2 (forallb_forall _ _)); [done|].
    intros t [_ Ht]%in_seq. destruct (Hb t ltac:(lia)) as (k & -> & _). simpl. apply Z.eqb_refl. }
  split; [right; eexists; by apply (step_barrier c b)|].
  intros c' Hc'. apply all_parked_steps in Hc' as [b' Hb']; [|done|by intros t (k & -> & _)%Hb].
  apply barrier_step_inv in Hb' as (_ & _ & ->).
  apply Hk; simpl; [done| |done|done]. intros t (k & -> & Hk')%Hb. done.
Qed.
End Exec.

(** ** One schedule, to run examples *)

Section Run.
Context {L : Type} `{EqDecision L} (P : nat) (valid : L -> bool) (vf : Z -> bool).
Implicit Types (c : cfg L).

(** One access of every thread that can. *)
Fixpoint pass (ts : list nat) c : cfg L :=
  match ts with
  | [] => c
  | t :: ts =>
      pass ts (if (t <? idx c)%nat then default c (thread_step valid vf c t) else c)
  end.

(** [fuel] rounds: numbers first, then the barriers [bs] that can open, then
    every thread. *)
Fixpoint round_robin (fuel : nat) (bs : list Z) c : cfg L :=
  match fuel with
  | O => c
  | S fuel =>
      let c := default c (number_step P c) in
      let c := foldl (fun c b => default c (barrier_step P c b)) c bs in
      round_robin fuel bs (pass (seq 0 P) c)
  end.

Lemma pass_steps ts c : rtc (step P valid vf) c (pass ts c).
Proof.
  revert c. induction ts as [|t ts IH]; intros c; simpl; [done|].
  destruct (Nat.ltb_spec t (idx c)); [|done]. destruct (thread_step valid vf c t) as [c'|] eqn:E; simpl; [|done].
  eapply rtc_l; [by eapply step_thread|done].
Qed.

Lemma barriers_steps bs c : rtc (step P valid vf) c (foldl (fun c b => default c (barrier_step P c b)) c bs).
Proof.
  revert c. induction bs as [|b bs IH]; intros c; simpl; [done|].
  destruct (barrier_step P c b) as [c'|] eqn:E; simpl; [|done]. eapply rtc_l; [by eapply step_barrier|done].
Qed.

Lemma round_robin_steps fuel bs c : rtc (step P valid vf) c (round_robin fuel bs c).
Proof.
  revert c. induction fuel as [|fuel IH]; intros c; simpl; [done|].
  assert (rtc (step P valid vf) c (default c (number_step P c))) as Hn.
  { destruct (number_step P c) as [c'|] eqn:E; simpl; [|done]. by apply rtc_once, step_number. }
  etrans; [exact Hn|]. etrans; [apply barriers_steps|]. etrans; [apply pass_steps|apply IH].
Qed.

(** Nobody can go on, and a thread waits for a flag. *)
Definition waiting (p : prog L unit) : bool := match p with WaitPause _ _ => true | _ => false end.
Definition deadlocked c : bool :=
  (idx c =? P)%nat && forallb (fun t => match thread_step valid vf c t with Some _ => false | None => true end) (seq 0 P) &&
  existsb (fun t => waiting (thr c t)) (seq 0 P).

Lemma deadlocked_stuck c : deadlocked c = true -> ~ finished P c /\ forall c', ~ step P valid vf c c'.
Proof.
  unfold deadlocked. intros [[Hi%Nat.eqb_eq Hn]%andb_prop Hw]%andb_prop.
  apply existsb_exists in Hw as (w & [_ Hw]%in_seq & Hwait). rewrite forallb_forall in Hn.
  split; [intros [_ Hf]; by rewrite Hf in Hwait by lia|].
  intros c' [c'' H|t c'' Ht H|b c'' H].
  - unfold number_step in H. destruct (Nat.ltb_spec (idx c) P); [lia|done].
  - specialize (Hn t ltac:(apply in_seq; lia)). by rewrite H in Hn.
  - apply barrier_step_inv in H as (_ & H & _). destruct (H w ltac:(lia)) as [k Hk]. by rewrite Hk in Hwait.
Qed.
End Run.

(** ** What a thread does in a phase *)

Inductive event := ESet (f : Z) | EWait (f : Z).
#[export] Instance event_eq_dec : EqDecision event.
Proof. solve_decision. Defined.

Section Thread.
Context {L : Type} (valid : L -> bool) (vf : Z -> bool).
(** [sg] is the memory at the end of the phase; flag [f] tells that the
    locations [K f] have their final value. *)
Context (sg : L -> Z) (K : Z -> L -> Prop).

(** The thread [p], which knows that the locations [kn] have their final
    value, reads only locations it knows, writes only final values, does the
    events [ev] in their order (what is left of them is handed to [R]) and gets
    to the end of the phase in a state of [R]. *)
Fixpoint ok {A} (kn : L -> Prop) (ev : list event) (p : prog L A)
    (R : (L -> Prop) -> list event -> prog L A -> Prop) : Prop :=
  match p with
  | Ret _ | Barrier _ _ => R kn ev p
  | Fail => False
  | Read l k => valid l = true /\ kn l /\ ok kn ev (k (sg l)) R
  | Write l v k => valid l = true /\ v = sg l /\ ok (fun x => x = l \/ kn x) ev k R
  | SetPause f k => vf f = true /\ exists ev', ev = ESet f :: ev' /\ (forall l, K f l -> kn l) /\ ok kn ev' k R
  | WaitPause f k => vf f = true /\ exists ev', ev = EWait f :: ev' /\ ok (fun x => K f x \/ kn x) ev' k R
  end.

(** The pieces without a barrier: [Phi] holds of the value they return. *)
Definition wp {A} kn ev (p : prog L A) (Phi : (L -> Prop) -> list event -> A -> Prop) : Prop :=
  ok kn ev p (fun kn' ev' q => exists a, q = Ret a /\ Phi kn' ev' a).

Lemma ok_mono {A} kn ev (p : prog L A) (R R' : (L -> Prop) -> list event -> prog L A -> Prop) :
  (forall kn ev q, R kn ev q -> R' kn ev q) -> ok kn ev p R -> ok kn ev p R'.
Proof.
  intros HR. revert kn ev. induction p; simpl; intros kn ev Hp; try by auto.
  - destruct Hp as (? & ? & ?). eauto.
  - destruct Hp as (? & ? & ?). eauto.
  - destruct Hp as (? & ev' & -> & ? & ?). eauto 8.
  - destruct Hp as (? & ev' & -> & ?). eauto 8.
Qed.

Lemma wp_mono {A} kn ev (p : prog L A) (Phi Phi' : (L -> Prop) -> list event -> A -> Prop) :
  (forall kn ev a, Phi kn ev a -> Phi' kn ev a) -> wp kn ev p Phi -> wp kn ev p Phi'.
Proof. intros H. apply ok_mono. intros ??? (a & -> & ?). eauto. Qed.

Lemma ok_bind {A B} kn ev (p : prog L A) (g : A -> prog L B) R :
  wp kn ev p (fun kn' ev' a => ok kn' ev' (g a) R) -> ok kn ev (bind p g) R.
Proof.
  unfold wp. revert kn ev.
  induction p as [a| |l k IH|l v k IH|f k IH|f k IH|b k IH]; simpl; intros kn ev Hp; try done.
  - by destruct Hp as (? & [= ->] & ?).
  - destruct Hp as (? & ? & ?). eauto.
  - destruct Hp as (? & ? & ?). eauto.
  - destruct Hp as (? & ev' & -> & ? & ?). eauto 8.
  - destruct Hp as (? & ev' & -> & ?). eauto 8.
  - by destruct Hp as (? & ? & ?).
Qed.

Lemma ok_bind3 {A B C D} kn ev (p : prog L A) (g1 : A -> prog L B) (g2 : B -> prog L C) (g3 : C -> prog L D) R :
  wp kn ev p (fun kn' ev' a => ok kn' ev' (bind (bind (g1 a) g2) g3) R) ->
  ok kn ev (bind (bind (bind p g1) g2) g3) R.
Proof.
  unfold wp. revert kn ev.
  induction p as [a| |l k IH|l v k IH|f k IH|f k IH|b k IH]; simpl; intros kn ev Hp; try done.
  - by destruct Hp as (? & [= ->] & ?).
  - destruct Hp as (? & ? & ?). eauto.
  - destruct Hp as (? & ? & ?). eauto.
  - destruct Hp as (? & ev' & -> & ? & ?). eauto 8.
  - destruct Hp as (? & ev' & -> & ?). eauto 8.
  - by destruct Hp as (? & ? & ?).
Qed.

Lemma wp_bind {A B} kn ev (p : prog L A) (g : A -> prog L B) Phi :
  wp kn ev p (fun kn' ev' a => wp kn' ev' (g a) Phi) -> wp kn ev (bind p g) Phi.
Proof. apply ok_bind. Qed.

Lemma wp_ret {A} kn ev (a : A) (Phi : (L -> Prop) -> list event -> A -> Prop) :
  Phi kn ev a -> wp kn ev (Ret a) Phi.
Proof. unfold wp. simpl. eauto. Qed.

Lemma wp_opt {A} kn ev (o : option A) a (Phi : (L -> Prop) -> list event -> A -> Prop) :
  o = Some a -> Phi kn ev a -> wp kn ev (opt o) Phi.
Proof. intros ->. apply wp_ret. Qed.

Lemma wp_read kn ev l Phi :
  valid l = true -> kn l -> Phi kn ev (sg l) -> wp kn ev (read l) Phi.
Proof. unfold wp. simpl. eauto 6. Qed.

Lemma wp_write kn ev l v Phi :
  valid l = true -> v = sg l -> Phi (fun x => x = l \/ kn x) ev tt -> wp kn ev (write l v) Phi.
Proof. unfold wp. simpl. eauto 6. Qed.

Lemma wp_set kn ev f (Phi : (L -> Prop) -> list event -> unit -> Prop) :
  vf f = true -> (forall l, K f l -> kn l) -> Phi kn ev tt -> wp kn (ESet f :: ev) (SETPAUSE f) Phi.
Proof. unfold wp. simpl. eauto 8. Qed.

Lemma wp_wait kn ev f (Phi : (L -> Prop) -> list event -> unit -> Prop) :
  vf f = true -> Phi (fun x => K f x \/ kn x) ev tt -> wp kn (EWait f :: ev) (WAIT_CLEAR_PAUSE f) Phi.
Proof. unfold wp. simpl. eauto 8. Qed.

Lemma wp_iter {S} (Inv : Z -> S -> (L -> Prop) -> list event -> Prop) (body : Z -> S -> prog L S) b n a s kn ev :
  (forall i s kn ev, a <= i < b -> Inv i s kn ev ->
     wp kn ev (body i s) (fun kn' ev' s' => Inv (i + 1) s' kn' ev')) ->
  Z.of_nat n = b - a -> Inv a s kn ev ->
  wp kn ev (iter n a s body) (fun kn' ev' s' => Inv b s' kn' ev').
Proof.
  revert a s kn ev. induction n as [|n IH]; intros a s kn ev Hb Hn Hi; simpl.
  - apply wp_ret. by replace b with a by lia.
  - apply wp_bind. eapply wp_mono; [|apply Hb; [lia|done]].
    intros kn' ev' s' Hs. apply IH; [|lia|done]. intros; apply Hb; [lia|done].
Qed.

(** The rule for loops, with an invariant. *)
Lemma wp_for {S} (Inv : Z -> S -> (L -> Prop) -> list event -> Prop) (body : Z -> S -> prog L S) a b s kn ev Phi :
  a <= b -> Inv a s kn ev ->
  (forall i s kn ev, a <= i < b -> Inv i s kn ev ->
     wp kn ev (body i s) (fun kn' ev' s' => Inv (i + 1) s' kn' ev')) ->
  (forall s kn ev, Inv b s kn ev -> Phi kn ev s) ->
  wp kn ev (for_ a b s body) Phi.
Proof.
  intros Hab Hi Hb HPhi. unfold for_.
  eapply wp_mono; [|apply (wp_iter Inv); [exact Hb|lia|exact Hi]]. eauto.
Qed.
End Thread.

(** ** The rule for a phase *)

(** The events of the threads fit together: a flag is set and waited for at
    most once, a flag that is waited for is set by a thread, and a thread sets a
    flag only of a higher level than those it has waited for. *)
Record schedule (P : nat) (fl : Z -> bool) (evs : nat -> list event) (lvl : Z -> nat) : Prop := {
  sch_nodup t : (t < P)%nat -> NoDup (evs t);
  sch_one t t' e : (t < P)%nat -> (t' < P)%nat -> e ∈ evs t -> e ∈ evs t' -> t = t';
  sch_set t f : (t < P)%nat -> EWait f ∈ evs t -> fl f = false /\ exists t', (t' < P)%nat /\ ESet f ∈ evs t';
  sch_lvl t f f' a b : (t < P)%nat -> evs t = a ++ EWait f' :: b -> ESet f ∈ b -> (lvl f' < lvl f)%nat }.

(** The flags at the end of a phase with the events [evs]. *)
Definition flag_after (P : nat) (fl : Z -> bool) (evs : nat -> list event) (f : Z) : Prop :=
  (fl f = true \/ exists t, (t < P)%nat /\ ESet f ∈ evs t) /\
  ~ exists t, (t < P)%nat /\ EWait f ∈ evs t.

(** ** Code that runs while there is one thread *)

Section Alone.
Context {L : Type} `{EqDecision L} (valid : L -> bool).

(** [None]: an access outside an array, or a wait that nobody ends. *)
Fixpoint alone {A} (p : prog L A) (m : L -> Z) : option (A * (L -> Z)) :=
  match p with
  | Ret a => Some (a, m)
  | Read l k => if valid l then alone (k (m l)) m else None
  | Write l v k => if valid l then alone k (<[l := v]> m) else None
  | _ => None
  end.

Definition wpa {A} (p : prog L A) (m : L -> Z) (Q : A -> (L -> Z) -> Prop) : Prop :=
  exists a m', alone p m = Some (a, m') /\ Q a m'.

Lemma wpa_mono {A} (p : prog L A) m (Q Q' : A -> (L -> Z) -> Prop) :
  (forall a m', Q a m' -> Q' a m') -> wpa p m Q -> wpa p m Q'.
Proof. intros H (a & m' & ? & ?). exists a, m'. auto. Qed.

Lemma wpa_bind {A B} (p : prog L A) (g : A -> prog L B) m Q :
  wpa p m (fun a m' => wpa (g a) m' Q) -> wpa (bind p g) m Q.
Proof.
  intros (a & m' & Hp & b & m'' & Hg & HQ). exists b, m''. split; [|done]. revert m Hp.
  induction p as [x| |l k IH|l v k IH|f k IH|f k IH|x k IH]; simpl; intros m Hp; try done.
  - by injection Hp as -> ->.
  - destruct (valid l); [auto|done].
  - destruct (valid l); [auto|done].
Qed.
Lemma wpa_ret {A} (a : A) m (Q : A -> (L -> Z) -> Prop) : Q a m -> wpa (Ret a) m Q.
Proof. intros H. by exists a, m. Qed.
Lemma wpa_opt {A} (o : option A) a m (Q : A -> (L -> Z) -> Prop) : o = Some a -> Q a m -> wpa (opt o) m Q.
Proof. intros -> H. by apply wpa_ret. Qed.
Lemma wpa_read l m (Q : Z -> (L -> Z) -> Prop) : valid l = true -> Q (m l) m -> wpa (read l) m Q.
Proof. intros Hv H. exists (m l), m. simpl. by rewrite Hv. Qed.
Lemma wpa_write l v m (Q : unit -> (L -> Z) -> Prop) : valid l = true -> Q tt (<[l := v]> m) -> wpa (write l v) m Q.
Proof. intros Hv H. exists tt, (<[l := v]> m). simpl. by rewrite Hv. Qed.

Lemma wpa_for {S} (Inv : Z -> S -> (L -> Z) -> Prop) (body : Z -> S -> prog L S) a b s m Q :
  a <= b -> Inv a s m ->
  (forall i s m, a <= i < b -> Inv i s m -> wpa (body i s) m (fun s' m' => Inv (i + 1) s' m')) ->
  (forall s m, Inv b s m -> Q s m) ->
  wpa (for_ a b s body) m Q.
Proof.
  intros Hab Hi Hb HQ. unfold for_. remember (Z.to_nat (b - a)) as n eqn:Hn. revert a s m Hab Hi Hb Hn.
  induction n as [|n IH]; intros a s m Hab Hi Hb Hn; simpl.
  - apply wpa_ret, HQ. by replace b with a by lia.
  - apply wpa_bind. eapply wpa_mono; [|apply Hb; [lia|done]].
    intros s' m' Hs. apply IH; [lia|done| |lia]. intros; apply Hb; [lia|done].
Qed.
End Alone.
