(* ===== verification/PhaseRule.v ===== *)
(** * PhaseRule: every interleaving of a phase

    The rule for one phase of the programs of Phases.v, in two forms.  In the
    first a location is written with its final value only ([ok]); in the second
    a thread may also own locations, on which it works as it likes until the
    end of the phase and which nobody else touches meanwhile ([own_ok]). *)

From stdpp Require Import base list option functions sets relations.
From S2P Require Import Prelude Phases.
Local Open Scope Z_scope.

(** ** What a thread does with locations of its own *)

Section Owned.
Context {L : Type} `{EqDecision L} (valid : L -> bool) (vf : Z -> bool).
Context (sg : L -> Z) (K : Z -> L -> Prop).
(** The locations no thread owns. *)
Context (free : L -> Prop).

(** [L -> option Z] is the content of the locations a thread owns. *)
Local Abbreviation store := (L -> option Z).

(** As [ok], with the locations [pv] of the thread's own: it reads there what
    it has written, and may write anything. *)
Fixpoint own_ok {A} (kn : L -> Prop) (pv : store) (ev : list event) (p : prog L A)
    (R : (L -> Prop) -> store -> list event -> prog L A -> Prop) : Prop :=
  match p with
  | Ret _ | Barrier _ _ => R kn pv ev p
  | Fail => False
  | Read l k => valid l = true /\
      match pv l with
      | Some v => own_ok kn pv ev (k v) R
      | None => kn l /\ own_ok kn pv ev (k (sg l)) R
      end
  | Write l v k => valid l = true /\
      match pv l with
      | Some _ => own_ok kn (<[l := Some v]> pv) ev k R
      | None => free l /\ v = sg l /\ own_ok (fun x => x = l \/ kn x) pv ev k R
      end
  | SetPause f k => vf f = true /\ exists ev', ev = ESet f :: ev' /\ (forall l, K f l -> kn l) /\ own_ok kn pv ev' k R
  | WaitPause f k => vf f = true /\ exists ev', ev = EWait f :: ev' /\ own_ok (fun x => K f x \/ kn x) pv ev' k R
  end.

Lemma ok_own {A} kn ev (p : prog L A) R :
  (forall l, free l) -> ok valid vf sg K kn ev p R -> own_ok kn (fun _ => None) ev p (fun kn _ ev q => R kn ev q).
Proof.
  intros Hf. revert kn ev. induction p as [a| |l k IH|l v k IH|f k IH|f k IH|b k IH]; simpl; intros kn ev Hp; try done.
  - destruct Hp as (? & ? & ?). eauto.
  - destruct Hp as (? & ? & ?). eauto.
  - destruct Hp as (? & ev' & -> & ? & ?). eauto 8.
  - destruct Hp as (? & ev' & -> & ?). eauto 8.
Qed.

Definition wpo {A} kn pv ev (p : prog L A) (Phi : (L -> Prop) -> store -> list event -> A -> Prop) : Prop :=
  own_ok kn pv ev p (fun kn' pv' ev' q => exists a, q = Ret a /\ Phi kn' pv' ev' a).

Lemma own_ok_mono {A} kn pv ev (p : prog L A) (R R' : (L -> Prop) -> store -> list event -> prog L A -> Prop) :
  (forall kn pv ev q, R kn pv ev q -> R' kn pv ev q) -> own_ok kn pv ev p R -> own_ok kn pv ev p R'.
Proof.
  intros HR. revert kn pv ev.
  induction p as [a| |l k IH|l v k IH|f k IH|f k IH|b k IH]; simpl; intros kn pv ev Hp; try by auto.
  - destruct Hp as (? & Hp). split; [done|]. destruct (pv l); [auto|]. destruct Hp. auto.
  - destruct Hp as (? & Hp). split; [done|]. destruct (pv l); [auto|]. destruct Hp as (? & ? & ?). auto.
  - destruct Hp as (? & ev' & -> & ? & ?). eauto 8.
  - destruct Hp as (? & ev' & -> & ?). eauto 8.
Qed.

Lemma wpo_mono {A} kn pv ev (p : prog L A) (Phi Phi' : (L -> Prop) -> store -> list event -> A -> Prop) :
  (forall kn pv ev a, Phi kn pv ev a -> Phi' kn pv ev a) -> wpo kn pv ev p Phi -> wpo kn pv ev p Phi'.
Proof. intros H. apply own_ok_mono. intros ???? (a & -> & ?). eauto. Qed.

Lemma own_ok_bind {A B} kn pv ev (p : prog L A) (g : A -> prog L B) R :
  wpo kn pv ev p (fun kn' pv' ev' a => own_ok kn' pv' ev' (g a) R) -> own_ok kn pv ev (bind p g) R.
Proof.
  unfold wpo. revert kn pv ev.
  induction p as [a| |l k IH|l v k IH|f k IH|f k IH|b k IH]; simpl; intros kn pv ev Hp; try done.
  - by destruct Hp as (? & [= ->] & ?).
  - destruct Hp as (? & Hp). split; [done|]. destruct (pv l); [auto|]. destruct Hp. auto.
  - destruct Hp as (? & Hp). split; [done|]. destruct (pv l); [auto|]. destruct Hp as (? & ? & ?). auto.
  - destruct Hp as (? & ev' & -> & ? & ?). eauto 8.
  - destruct Hp as (? & ev' & -> & ?). eauto 8.
  - by destruct Hp as (? & ? & ?).
Qed.

Lemma own_ok_bind2 {A B C} kn pv ev (p : prog L A) (g1 : A -> prog L B) (g2 : B -> prog L C) R :
  wpo kn pv ev p (fun kn' pv' ev' a => own_ok kn' pv' ev' (bind (g1 a) g2) R) ->
  own_ok kn pv ev (bind (bind p g1) g2) R.
Proof.
  unfold wpo. revert kn pv ev.
  induction p as [a| |l k IH|l v k IH|f k IH|f k IH|b k IH]; simpl; intros kn pv ev Hp; try done.
  - by destruct Hp as (? & [= ->] & ?).
  - destruct Hp as (? & Hp). split; [done|]. destruct (pv l); [auto|]. destruct Hp. auto.
  - destruct Hp as (? & Hp). split; [done|]. destruct (pv l); [auto|]. destruct Hp as (? & ? & ?). auto.
  - destruct Hp as (? & ev' & -> & ? & ?). eauto 8.
  - destruct Hp as (? & ev' & -> & ?). eauto 8.
  - by destruct Hp as (? & ? & ?).
Qed.

Lemma own_ok_bind3 {A B C D} kn pv ev (p : prog L A) (g1 : A -> prog L B) (g2 : B -> prog L C) (g3 : C -> prog L D) R :
  wpo kn pv ev p (fun kn' pv' ev' a => own_ok kn' pv' ev' (bind (bind (g1 a) g2) g3) R) ->
  own_ok kn pv ev (bind (bind (bind p g1) g2) g3) R.
Proof.
  unfold wpo. revert kn pv ev.
  induction p as [a| |l k IH|l v k IH|f k IH|f k IH|b k IH]; simpl; intros kn pv ev Hp; try done.
  - by destruct Hp as (? & [= ->] & ?).
  - destruct Hp as (? & Hp). split; [done|]. destruct (pv l); [auto|]. destruct Hp. auto.
  - destruct Hp as (? & Hp). split; [done|]. destruct (pv l); [auto|]. destruct Hp as (? & ? & ?). auto.
  - destruct Hp as (? & ev' & -> & ? & ?). eauto 8.
  - destruct Hp as (? & ev' & -> & ?). eauto 8.
  - by destruct Hp as (? & ? & ?).
Qed.

Lemma wpo_bind {A B} kn pv ev (p : prog L A) (g : A -> prog L B) Phi :
  wpo kn pv ev p (fun kn' pv' ev' a => wpo kn' pv' ev' (g a) Phi) -> wpo kn pv ev (bind p g) Phi.
Proof. apply own_ok_bind. Qed.

Lemma wpo_ret {A} kn pv ev (a : A) (Phi : (L -> Prop) -> store -> list event -> A -> Prop) :
  Phi kn pv ev a -> wpo kn pv ev (Ret a) Phi.
Proof. unfold wpo. simpl. eauto. Qed.

Lemma wpo_read kn pv ev l v (Phi : (L -> Prop) -> store -> list event -> Z -> Prop) :
  valid l = true -> pv l = Some v \/ (pv l = None /\ kn l /\ v = sg l) -> Phi kn pv ev v -> wpo kn pv ev (read l) Phi.
Proof. unfold wpo. simpl. intros Hv [->|(-> & Hk & ->)] HPhi; eauto 8. Qed.

Lemma wpo_write kn pv ev l v w (Phi : (L -> Prop) -> store -> list event -> unit -> Prop) :
  valid l = true -> pv l = Some w -> Phi kn (<[l := Some v]> pv) ev tt -> wpo kn pv ev (write l v) Phi.
Proof. unfold wpo. simpl. intros Hv -> HPhi. eauto. Qed.

Lemma wpo_for {S} (Inv : Z -> S -> (L -> Prop) -> store -> list event -> Prop) (body : Z -> S -> prog L S) a b s kn pv ev Phi :
  a <= b -> Inv a s kn pv ev ->
  (forall i s kn pv ev, a <= i < b -> Inv i s kn pv ev ->
     wpo kn pv ev (body i s) (fun kn' pv' ev' s' => Inv (i + 1) s' kn' pv' ev')) ->
  (forall s kn pv ev, Inv b s kn pv ev -> Phi kn pv ev s) ->
  wpo kn pv ev (for_ a b s body) Phi.
Proof.
  intros Hab Hi Hb HPhi. unfold for_.
  remember (Z.to_nat (b - a)) as n eqn:Hn. revert a s kn pv ev Hab Hi Hb Hn.
  induction n as [|n IH]; intros a s kn pv ev Hab Hi Hb Hn; simpl.
  - apply wpo_ret, HPhi. by replace b with a by lia.
  - apply wpo_bind. eapply wpo_mono; [|apply Hb; [lia|done]].
    intros kn' pv' ev' s' Hs. apply IH; [lia|done| |lia]. intros; apply Hb; [lia|done].
Qed.

(** The number of accesses up to the end of the phase. *)
Fixpoint size {A} (pv : store) (p : prog L A) : nat :=
  match p with
  | Ret _ | Fail | Barrier _ _ => O
  | Read l k => S (size pv (k (default (sg l) (pv l))))
  | Write l v k => S (size (match pv l with Some _ => <[l := Some v]> pv | None => pv end) k)
  | SetPause _ k | WaitPause _ k => S (size pv k)
  end.
End Owned.

(** ** The invariant of a phase *)

Section Phase.
Context {L : Type} `{EqDecision L} (P : nat) (valid : L -> bool) (vf : Z -> bool).
Context (sg : L -> Z) (K : Z -> L -> Prop) (evs : nat -> list event) (lvl : Z -> nat).
Context (m0 : L -> Z) (fl0 : Z -> bool) (Hsch : schedule P fl0 evs lvl).
Context (nxt : nat -> prog L unit -> Prop) (W : nat -> L -> Prop).
(** What the threads own, with its content at the start. *)
Context (pv0 : nat -> (L -> option Z)).
Hypothesis Hpv0 : forall t l v, (t < P)%nat -> pv0 t l = Some v -> m0 l = v.
Hypothesis Hdisj : forall t t' l, (t < P)%nat -> (t' < P)%nat -> is_Some (pv0 t l) -> is_Some (pv0 t' l) -> t = t'.

Definition free_of (pv : nat -> L -> option Z) (l : L) : Prop := forall t, (t < P)%nat -> pv t l = None.
Local Abbreviation free := (free_of pv0).
Local Abbreviation R t := (fun kn pv ev q => ev = [] /\ nxt t q /\ (forall l, W t l -> kn l) /\
  forall l, is_Some (pv0 t l) -> pv l = Some (sg l)).
Local Abbreviation stp := (step P valid vf).

(** The state of thread [t] in the phase: [dn] has happened, [td] is to come. *)
Record ghost := Ghost { dn : list event; td : list event; kn : L -> Prop; pv : (L -> option Z) }.

Record inv (g : nat -> ghost) (c : cfg L) : Prop := {
  inv_idx : (idx c <= P)%nat;
  inv_evs t : (t < P)%nat -> evs t = dn (g t) ++ td (g t);
  inv_ok t : (t < P)%nat -> own_ok valid vf sg K free (kn (g t)) (pv (g t)) (td (g t)) (thr c t) (R t);
  inv_own t l : (t < P)%nat -> is_Some (pv (g t) l) <-> is_Some (pv0 t l);
  inv_pv t l v : (t < P)%nat -> pv (g t) l = Some v -> mem c l = v;
  inv_mem l : free l -> mem c l = m0 l \/ mem c l = sg l;
  inv_kn t l : (t < P)%nat -> kn (g t) l -> free l /\ mem c l = sg l;
  inv_K t f l : (t < P)%nat -> ESet f ∈ dn (g t) -> K f l -> free l /\ mem c l = sg l;
  inv_wait t f : (t < P)%nat -> EWait f ∈ dn (g t) -> exists t', (t' < P)%nat /\ ESet f ∈ dn (g t');
  inv_flag f : flag c f = true <-> flag_after P fl0 (fun t => dn (g t)) f }.

Local Ltac slot x t :=
  destruct (decide (x = t)) as [->|];
  [rewrite ?fn_lookup_insert; simpl|rewrite ?fn_lookup_insert_ne by done].

Lemma inv_num g c c' : inv g c -> number_step P c = Some c' -> inv g c'.
Proof.
  unfold number_step. intros [] H. destruct (Nat.ltb_spec (idx c) P); [|done].
  injection H as <-. split; simpl; auto; lia.
Qed.

(** An event that is to come has not happened in any thread. *)
Lemma todo_not_done g c t x e td' :
  inv g c -> (t < P)%nat -> (x < P)%nat -> td (g t) = e :: td' -> e ∈ dn (g x) -> False.
Proof.
  intros Hinv Ht Hx Htd Hin. pose proof (inv_evs _ _ Hinv t Ht) as Et. pose proof (inv_evs _ _ Hinv x Hx) as Ex.
  assert (x = t) as ->.
  { apply (sch_one _ _ _ _ Hsch x t e); [done|done| |]; [rewrite Ex|rewrite Et, Htd]; set_solver. }
  pose proof (sch_nodup _ _ _ _ Hsch t Ht) as Hnd. rewrite Et, Htd in Hnd.
  apply NoDup_app in Hnd as (_ & Hnd & _). apply (Hnd e); set_solver.
Qed.

(** What a thread's step does to its own ghost state is enough. *)
Lemma inv_update g c t p m fl d' t' k' v' :
  inv g c -> (t < P)%nat ->
  evs t = d' ++ t' ->
  own_ok valid vf sg K free k' v' t' p (R t) ->
  (forall l, is_Some (v' l) <-> is_Some (pv0 t l)) ->
  (forall l v, v' l = Some v -> m l = v) ->
  (forall l, free l -> m l = mem c l \/ m l = sg l) ->
  (forall x l, (x < P)%nat -> x <> t -> is_Some (pv0 x l) -> m l = mem c l) ->
  (forall l, k' l -> free l /\ m l = sg l) ->
  (forall f, ESet f ∈ d' -> ESet f ∈ dn (g t) \/ forall l, K f l -> free l /\ m l = sg l) ->
  (forall e, e ∈ dn (g t) -> e ∈ d') ->
  (forall f, EWait f ∈ d' -> EWait f ∈ dn (g t) \/ exists x, (x < P)%nat /\ ESet f ∈ dn (g x)) ->
  (forall f, fl f = true <-> flag_after P fl0 (fun x => dn ((<[t := Ghost d' t' k' v']> g) x)) f) ->
  inv (<[t := Ghost d' t' k' v']> g) (Cfg (idx c) (<[t := p]> (thr c)) m fl).
Proof.
  intros [] Ht He Ho Hdom Hval Hm Hoth Hk HK Hd HW Hf.
  assert (forall l, free l /\ mem c l = sg l -> free l /\ m l = sg l) as Hstay
    by (intros l [Hfr ?]; split; [done|]; destruct (Hm l Hfr); congruence).
  assert (forall f, (exists x, (x < P)%nat /\ ESet f ∈ dn (g x)) ->
    exists x, (x < P)%nat /\ ESet f ∈ dn ((<[t := Ghost d' t' k' v']> g) x)) as Hgrow.
  { intros f (x & ? & ?). exists x. split; [done|]. slot x t; eauto. }
  split; simpl; [done|..|exact Hf].
  - intros x Hx. slot x t; auto.
  - intros x Hx. slot x t; auto.
  - intros x l Hx. slot x t; auto.
  - intros x l v Hx. slot x t; [auto|]. intros Hv. rewrite (Hoth x l); [by apply (inv_pv0 x)|done|done|].
    apply inv_own0; [done|by eexists].
  - intros l Hfr. destruct (Hm l Hfr) as [->| ->]; auto.
  - intros x l Hx. slot x t; eauto.
  - intros x f l Hx. slot x t; [intros [|]%HK ?|]; eauto.
  - intros x f Hx. slot x t; [intros [|]%HW|]; eauto.
Qed.

(** The flags do not change when no event happens. *)
Lemma flag_after_same g t gt f :
  dn gt = dn (g t) -> flag_after P fl0 (fun x => dn ((<[t := gt]> g) x)) f <-> flag_after P fl0 (fun x => dn (g x)) f.
Proof.
  intros E. assert (forall x, dn ((<[t := gt]> g) x) = dn (g x)) as Hx by (intros x; slot x t; done).
  unfold flag_after. by setoid_rewrite Hx.
Qed.

(** The flags after one more event [e] of thread [t]. *)
Lemma flag_after_event g c t e td' kn' pv' f :
  inv g c -> (t < P)%nat -> td (g t) = e :: td' ->
  flag_after P fl0 (fun x => dn ((<[t := Ghost (dn (g t) ++ [e]) td' kn' pv']> g) x)) f <->
  (e = ESet f \/ flag_after P fl0 (fun x => dn (g x)) f) /\ e <> EWait f.
Proof.
  intros Hinv Ht Htd.
  assert (forall e', (exists x, (x < P)%nat /\ e' ∈ dn ((<[t := Ghost (dn (g t) ++ [e]) td' kn' pv']> g) x)) <->
    e' = e \/ exists x, (x < P)%nat /\ e' ∈ dn (g x)) as Hx.
  { intros e'. split.
    - intros (x & Hx & Hin). revert Hin. slot x t; [|eauto].
      intros [| ->%list_elem_of_singleton]%elem_of_app; eauto.
    - intros [->|(x & Hx & Hin)]; [exists t|exists x]; (split; [done|]).
      + rewrite fn_lookup_insert. simpl. set_solver.
      + slot x t; [set_solver|done]. }
  unfold flag_after. rewrite !Hx. split.
  - intros [[?|[->|?]] Hn]; (split; [|intros ->; tauto]); tauto.
  - intros [[->|[? Hn]] He]; (split; [tauto|]); [|intuition congruence].
    intros [?|(x & Hx' & Hin)]; [done|].
    apply (inv_wait _ _ Hinv) in Hin as (y & Hy & Hin); [|done].
    by apply (todo_not_done g c t y (ESet f) td').
Qed.

(** ** Steps *)

(** The accesses that are left in the phase. *)
Fixpoint total (h : nat -> nat) (n : nat) : nat :=
  match n with O => O | S n => (h n + total h n)%nat end.
Definition left_to_do (g : nat -> ghost) (c : cfg L) : nat :=
  (total (fun t => size sg (pv (g t)) (thr c t)) P + (P - idx c))%nat.

Lemma total_le h h' n : (forall x, (x < n)%nat -> (h x <= h' x)%nat) -> (total h n <= total h' n)%nat.
Proof. induction n as [|n IH]; intros H; simpl; [lia|]. specialize (IH ltac:(auto)). specialize (H n ltac:(lia)). lia. Qed.

Lemma total_lt h h' n t :
  (t < n)%nat -> (h t < h' t)%nat -> (forall x, (x < n)%nat -> (h x <= h' x)%nat) -> (total h n < total h' n)%nat.
Proof.
  induction n as [|n IH]; intros Ht Hlt H; simpl; [lia|]. pose proof (H n ltac:(lia)).
  destruct (decide (t = n)) as [->|].
  - pose proof (total_le h h' n ltac:(auto)). lia.
  - specialize (IH ltac:(lia) Hlt ltac:(auto)). lia.
Qed.

Lemma measure_update g c t gt p m fl :
  (t < P)%nat -> (size sg (pv gt) p < size sg (pv (g t)) (thr c t))%nat ->
  (left_to_do (<[t := gt]> g) (Cfg (idx c) (<[t := p]> (thr c)) m fl) < left_to_do g c)%nat.
Proof.
  intros Ht Hs. unfold left_to_do. simpl.
  enough (total (fun x => size sg (pv ((<[t := gt]> g) x)) ((<[t := p]> (thr c)) x)) P < total (fun x => size sg (pv (g x)) (thr c x)) P)%nat by lia.
  apply (total_lt _ _ _ t); [done|by rewrite !fn_lookup_insert|]. intros x _. slot x t; lia.
Qed.

(** One kind of step after the other: the invariant holds again, and there is
    less to do. *)
Local Abbreviation goes_on g c c' := (exists g', inv g' c' /\ Nat.lt (left_to_do g' c') (left_to_do g c)).

Lemma inv_read g c t l k :
  inv g c -> (t < P)%nat -> thr c t = Read l k ->
  goes_on g c (Cfg (idx c) (<[t := k (mem c l)]> (thr c)) (mem c) (flag c)).
Proof.
  intros Hinv Ht Et. pose proof (inv_ok _ _ Hinv t Ht) as Ho. rewrite Et in Ho. simpl in Ho. destruct Ho as [_ Ho].
  assert (default (sg l) (pv (g t) l) = mem c l /\ own_ok valid vf sg K free (kn (g t)) (pv (g t)) (td (g t)) (k (mem c l)) (R t)) as [Ev Ho'].
  { destruct (pv (g t) l) as [v|] eqn:E; simpl.
    - by rewrite (inv_pv _ _ Hinv t l v Ht E).
    - destruct Ho as [Hk Ho]. destruct (inv_kn _ _ Hinv t l Ht Hk) as [_ ->]. done. }
  exists (<[t := Ghost (dn (g t)) (td (g t)) (kn (g t)) (pv (g t))]> g). split.
  - eapply inv_update; eauto using inv_evs, inv_own, inv_pv, inv_kn.
    intros f. rewrite flag_after_same by done. apply Hinv.
  - apply measure_update; [done|]. rewrite Et. simpl. rewrite Ev. lia.
Qed.

Lemma inv_write g c t l v k :
  inv g c -> (t < P)%nat -> thr c t = Write l v k ->
  goes_on g c (Cfg (idx c) (<[t := k]> (thr c)) (<[l := v]> (mem c)) (flag c)).
Proof.
  intros Hinv Ht Et. pose proof (inv_ok _ _ Hinv t Ht) as Ho. rewrite Et in Ho. simpl in Ho. destruct Ho as [_ Ho].
  destruct (pv (g t) l) as [w|] eqn:E.
  - assert (is_Some (pv0 t l)) as Hown by (apply (inv_own _ _ Hinv t l Ht); by eexists).
    assert (forall x, free x -> x <> l) as Hfl by (intros x Hx ->; rewrite (Hx t Ht) in Hown; by destruct Hown).
    exists (<[t := Ghost (dn (g t)) (td (g t)) (kn (g t)) (<[l := Some v]> (pv (g t)))]> g). split.
    + eapply inv_update; eauto using inv_evs.
      * intros x. rewrite <- (inv_own _ _ Hinv t x Ht). slot x l; [|tauto]. rewrite E. split; eauto.
      * intros x u. slot x l; [congruence|by apply (inv_pv _ _ Hinv t)].
      * intros x Hx%Hfl. slot x l; [done|auto].
      * intros x y Hx Hne Hy. slot y l; [|done]. exfalso. by apply Hne, (Hdisj x t l).
      * intros x Hx. destruct (inv_kn _ _ Hinv t x Ht Hx) as [Hx' ?]. split; [done|]. specialize (Hfl x Hx'). by slot x l.
      * intros f. rewrite flag_after_same by done. apply Hinv.
    + apply measure_update; [done|]. rewrite Et. simpl. rewrite E. lia.
  - destruct Ho as (Hfree & -> & Ho).
    exists (<[t := Ghost (dn (g t)) (td (g t)) (fun x => x = l \/ kn (g t) x) (pv (g t))]> g). split.
    + eapply inv_update; eauto using inv_evs, inv_own.
      * intros x u Hu. slot x l; [congruence|by apply (inv_pv _ _ Hinv t)].
      * intros x _. slot x l; auto.
      * intros x y Hx Hne Hy. slot y l; [|done]. rewrite (Hfree x Hx) in Hy. by destruct Hy.
      * intros x Hx. slot x l; [done|]. destruct Hx as [?|Hx]; [done|]. by apply (inv_kn _ _ Hinv t).
      * intros f. rewrite flag_after_same by done. apply Hinv.
    + apply measure_update; [done|]. rewrite Et. simpl. rewrite E. lia.
Qed.

Lemma inv_setpause g c t f k :
  inv g c -> (t < P)%nat -> thr c t = SetPause f k ->
  goes_on g c (Cfg (idx c) (<[t := k]> (thr c)) (mem c) (<[f := true]> (flag c))).
Proof.
  intros Hinv Ht Et. pose proof (inv_ok _ _ Hinv t Ht) as Ho. pose proof (inv_evs _ _ Hinv t Ht) as He.
  rewrite Et in Ho. simpl in Ho. destruct Ho as (_ & ev' & Hev & HK & Ho).
  exists (<[t := Ghost (dn (g t) ++ [ESet f]) ev' (kn (g t)) (pv (g t))]> g). split.
  - eapply inv_update; eauto using inv_own, inv_pv, inv_kn.
    + rewrite He, Hev. by rewrite <- app_assoc.
    + intros f' [?|E%list_elem_of_singleton]%elem_of_app; [by left|right]. injection E as ->.
      intros l Hl. apply (inv_kn _ _ Hinv t); auto.
    + set_solver.
    + intros f' [?|E%list_elem_of_singleton]%elem_of_app; [by left|done].
    + intros f'. rewrite (flag_after_event g c) by done. rewrite <- (inv_flag _ _ Hinv).
      slot f' f; intuition congruence.
  - apply measure_update; [done|]. rewrite Et. simpl. lia.
Qed.

Lemma inv_waitpause g c t f k :
  inv g c -> (t < P)%nat -> thr c t = WaitPause f k -> flag c f = true ->
  goes_on g c (Cfg (idx c) (<[t := k]> (thr c)) (mem c) (<[f := false]> (flag c))).
Proof.
  intros Hinv Ht Et Hfl. pose proof (inv_ok _ _ Hinv t Ht) as Ho. pose proof (inv_evs _ _ Hinv t Ht) as He.
  rewrite Et in Ho. simpl in Ho. destruct Ho as (_ & ev' & Hev & Ho).
  exists (<[t := Ghost (dn (g t) ++ [EWait f]) ev' (fun x => K f x \/ kn (g t) x) (pv (g t))]> g). split.
  - assert (exists x, (x < P)%nat /\ ESet f ∈ dn (g x)) as (x & Hx & Hset).
    { apply (inv_flag _ _ Hinv) in Hfl as [[H0|?] _]; [|done].
      destruct (sch_set _ _ _ _ Hsch t f) as [H1 _]; [done| |congruence]. rewrite He, Hev. set_solver. }
    eapply inv_update; eauto using inv_own, inv_pv.
    + rewrite He, Hev. by rewrite <- app_assoc.
    + intros l [?|?]; [by apply (inv_K _ _ Hinv x f)|by apply (inv_kn _ _ Hinv t)].
    + intros f' [?|E%list_elem_of_singleton]%elem_of_app; [by left|done].
    + set_solver.
    + intros f' [?|E%list_elem_of_singleton]%elem_of_app; [by left|right]. injection E as ->. eauto.
    + intros f'. rewrite (flag_after_event g c) by done. rewrite <- (inv_flag _ _ Hinv).
      slot f' f; intuition congruence.
  - apply measure_update; [done|]. rewrite Et. simpl. lia.
Qed.

Lemma inv_thread g c t c' :
  inv g c -> (t < P)%nat -> thread_step valid vf c t = Some c' -> goes_on g c c'.
Proof.
  intros Hinv Ht Hs. unfold thread_step in Hs. destruct (thr c t) as [| |l k|l v k|f k|f k|] eqn:Et; try done.
  - destruct (valid l); [|done]. injection Hs as <-. by apply inv_read.
  - destruct (valid l); [|done]. injection Hs as <-. by apply inv_write.
  - destruct (vf f); [|done]. injection Hs as <-. by apply inv_setpause.
  - destruct (vf f && flag c f) eqn:E; [|done]. apply andb_prop in E as [_ E]. injection Hs as <-. by apply inv_waitpause.
Qed.
(** Deadlock freedom: some thread can go on as long as not all are at the end
    of the phase. *)
Lemma wait_progress g c n : forall t f k,
  inv g c -> idx c = P -> (t < P)%nat -> thr c t = WaitPause f k -> (lvl f < n)%nat -> exists c', stp c c'.
Proof.
  induction n as [|n IH]; intros t f k Hinv Hi Ht Hw Hn; [lia|].
  pose proof (inv_ok _ _ Hinv t Ht) as Ho. rewrite Hw in Ho. destruct Ho as (Hv & ev & Hev & _).
  destruct (flag c f) eqn:Hfl.
  { eexists. apply (step_thread _ _ _ c t); [lia|]. unfold thread_step. by rewrite Hw, Hv, Hfl. }
  pose proof (inv_evs _ _ Hinv t Ht) as He.
  destruct (sch_set _ _ _ _ Hsch t f) as (H0 & x & Hx & Hset); [done|rewrite He, Hev; set_solver|].
  pose proof (inv_evs _ _ Hinv x Hx) as Ex. rewrite Ex in Hset. apply elem_of_app in Hset as [Hset|Hset].
  { exfalso. rewrite <- not_true_iff_false in Hfl. apply Hfl, (inv_flag _ _ Hinv). split; [eauto|].
    intros (y & Hy & Hin). by apply (todo_not_done g c t y (EWait f) ev). }
  pose proof (inv_ok _ _ Hinv x Hx) as Hox.
  destruct (thr c x) as [a| |l k'|l v k'|f' k'|f' k'|b k'] eqn:Etx; simpl in Hox.
  - destruct Hox as (Hnil & _). rewrite Hnil in Hset. set_solver.
  - done.
  - eexists. apply (step_thread _ _ _ c x); [lia|]. unfold thread_step. by rewrite Etx, (proj1 Hox).
  - eexists. apply (step_thread _ _ _ c x); [lia|]. unfold thread_step. by rewrite Etx, (proj1 Hox).
  - eexists. apply (step_thread _ _ _ c x); [lia|]. unfold thread_step. by rewrite Etx, (proj1 Hox).
  - destruct Hox as (_ & ev' & Hev' & _). eapply (IH x f' k'); [done..|].
    assert (lvl f' < lvl f)%nat; [|lia].
    apply (sch_lvl _ _ _ _ Hsch x f f' (dn (g x)) ev'); [done|by rewrite Ex, Hev'|].
    rewrite Hev' in Hset. by apply elem_of_cons in Hset as [[=]|].
  - destruct Hox as (Hnil & _). rewrite Hnil in Hset. set_solver.
Qed.

Lemma thread_progress g c t :
  inv g c -> idx c = P -> (t < P)%nat -> parked (thr c t) = false -> exists c', stp c c'.
Proof.
  intros Hinv Hi Ht Hp. pose proof (inv_ok _ _ Hinv t Ht) as Ho.
  destruct (thr c t) as [a| |l k'|l v k'|f' k'|f' k'|b k'] eqn:Etx; simpl in Ho; try done.
  - eexists. apply (step_thread _ _ _ c t); [lia|]. unfold thread_step. by rewrite Etx, (proj1 Ho).
  - eexists. apply (step_thread _ _ _ c t); [lia|]. unfold thread_step. by rewrite Etx, (proj1 Ho).
  - eexists. apply (step_thread _ _ _ c t); [lia|]. unfold thread_step. by rewrite Etx, (proj1 Ho).
  - eapply (wait_progress g c (S (lvl f')) t f' k'); [done..|lia].
Qed.

(** The end of the phase. *)
Definition boundary (c : cfg L) : Prop :=
  idx c = P /\ (forall t, (t < P)%nat -> nxt t (thr c t)) /\
  (forall l, mem c l = sg l) /\ (forall f, flag c f = true <-> flag_after P fl0 evs f).

Lemma inv_boundary g c :
  (forall l, (m0 l = sg l /\ free l) \/ (exists t, (t < P)%nat /\ W t l) \/ exists t, (t < P)%nat /\ is_Some (pv0 t l)) ->
  inv g c -> idx c = P -> (forall t, (t < P)%nat -> parked (thr c t) = true) -> boundary c.
Proof.
  intros Hcov Hinv Hi Hp.
  assert (forall t, (t < P)%nat -> td (g t) = [] /\ nxt t (thr c t) /\ (forall l, W t l -> kn (g t) l) /\
    forall l, is_Some (pv0 t l) -> pv (g t) l = Some (sg l)) as HR.
  { intros t Ht. pose proof (inv_ok _ _ Hinv t Ht) as Ho. specialize (Hp t Ht). by destruct (thr c t). }
  assert (forall t, (t < P)%nat -> dn (g t) = evs t) as Hdn.
  { intros t Ht. rewrite (inv_evs _ _ Hinv t Ht). destruct (HR t Ht) as [-> _]. by rewrite app_nil_r. }
  split_and!; [done|by intros t (_ & ? & _)%HR| |].
  - intros l. destruct (Hcov l) as [[Hl Hfr]|[(t & Ht & Hw)|(t & Ht & Hw)]].
    + destruct (inv_mem _ _ Hinv l Hfr); congruence.
    + apply (inv_kn _ _ Hinv t); [done|]. by apply HR.
    + apply (inv_pv _ _ Hinv t); [done|]. by apply HR.
  - intros f. rewrite (inv_flag _ _ Hinv). unfold flag_after.
    assert (forall e, (exists t, (t < P)%nat /\ e ∈ dn (g t)) <-> exists t, (t < P)%nat /\ e ∈ evs t) as Hex.
    { intros e. split; intros (t & Ht & Hin); exists t; [rewrite <- Hdn by done|rewrite Hdn by done]; done. }
    by rewrite !Hex.
Qed.

Lemma phase_inv Q g c :
  (forall l, (m0 l = sg l /\ free l) \/ (exists t, (t < P)%nat /\ W t l) \/ exists t, (t < P)%nat /\ is_Some (pv0 t l)) ->
  (forall c', boundary c' -> ends P valid vf Q c') -> inv g c -> ends P valid vf Q c.
Proof.
  intros Hcov Hend. remember (left_to_do g c) as n eqn:Hn. revert g c Hn.
  induction n as [n IH] using lt_wf_ind. intros g c -> Hinv.
  assert (forall t c', (t < idx c)%nat -> thread_step valid vf c t = Some c' -> ends P valid vf Q c') as Hthr.
  { intros t c' Ht Hs. pose proof (inv_idx _ _ Hinv). destruct (inv_thread g c t c') as (g' & Hg & Hm); [done|lia|done|].
    eapply (IH _); [exact Hm|done|done]. }
  destruct (decide (idx c = P)) as [Hi|Hi].
  1: destruct (decide (Forall (fun t => parked (thr c t) = true) (seq 0 P))) as [Hp|Hp].
  - rewrite Forall_seq in Hp. apply Hend, (inv_boundary g); [done..|]. intros t Ht. apply Hp. lia.
  - split.
    + right. apply not_Forall_Exists in Hp; [|apply _]. apply Exists_exists in Hp as (t & [_ Ht]%elem_of_seq & Hp).
      eapply (thread_progress g c t); [done|done|lia|]. by apply not_true_is_false.
    + intros c' [c'' H|t c'' Ht H|b c'' H]; [|by eapply Hthr|].
      * unfold number_step in H. destruct (Nat.ltb_spec (idx c) P); [lia|done].
      * apply barrier_step_inv in H as (_ & Hb & _). destruct Hp. apply Forall_seq.
        intros t Ht. destruct (Hb t ltac:(lia)) as [k ->]. done.
  - pose proof (inv_idx _ _ Hinv). split.
    + right. eexists. apply step_number. unfold number_step. destruct (Nat.ltb_spec (idx c) P); [done|lia].
    + intros c' [c'' H'|t c'' Ht H'|b c'' H']; [|by eapply Hthr|].
      * eapply (IH _); [|done|by eapply inv_num]. unfold number_step in H'.
        destruct (Nat.ltb_spec (idx c) P); [|done]. injection H' as <-. unfold left_to_do. simpl. lia.
      * by apply barrier_step_inv in H' as (? & _ & _).
Qed.

(** One phase: if every thread, reading the final memory and what it owns,
    keeps to what it knows and ends at [nxt], the threads' events fit together,
    and every location that changes is known to a thread or owned by one, then
    every execution reaches the boundary: the memory is [sg], the threads are
    at [nxt]. *)
Lemma phase_own kn0 Q c :
  (idx c <= P)%nat -> (forall l, mem c l = m0 l) -> (forall f, flag c f = fl0 f) ->
  (forall l, kn0 l -> free l /\ m0 l = sg l) ->
  (forall t, (t < P)%nat -> own_ok valid vf sg K free kn0 (pv0 t) (evs t) (thr c t) (R t)) ->
  (forall l, (m0 l = sg l /\ free l) \/ (exists t, (t < P)%nat /\ W t l) \/ exists t, (t < P)%nat /\ is_Some (pv0 t l)) ->
  (forall c', boundary c' -> ends P valid vf Q c') ->
  ends P valid vf Q c.
Proof.
  intros Hi Hm Hf Hk Ho Hcov Hend.
  apply (phase_inv Q (fun t => Ghost [] (evs t) kn0 (pv0 t))); [done|done|].
  split; simpl; auto.
  - intros t l v Ht Hv. rewrite Hm. by apply (Hpv0 t).
  - intros t l _ Hl. rewrite Hm. auto.
  - set_solver.
  - set_solver.
  - intros f. rewrite Hf. unfold flag_after. split; [|intros [[?|(? & ? & ?%not_elem_of_nil)] _]; done].
    intros ->. split; [by left|]. by intros (? & ? & ?%not_elem_of_nil).
Qed.
End Phase.

(** A phase in which nothing is owned. *)
Lemma phase {L} `{EqDecision L} P valid vf sg (K : Z -> L -> Prop) evs lvl m0 fl0 :
  schedule P fl0 evs lvl -> forall (nxt : nat -> prog L unit -> Prop) W Q c,
  (idx c <= P)%nat -> (forall l, mem c l = m0 l) -> (forall f, flag c f = fl0 f) ->
  (forall t, (t < P)%nat -> ok valid vf sg K (fun l => m0 l = sg l) (evs t) (thr c t)
     (fun kn ev q => ev = [] /\ nxt t q /\ forall l, W t l -> kn l)) ->
  (forall l, m0 l = sg l \/ exists t, (t < P)%nat /\ W t l) ->
  (forall c', boundary P sg evs fl0 nxt c' -> ends P valid vf Q c') ->
  ends P valid vf Q c.
Proof.
  intros Hsch nxt W Q c Hi Hm Hf Ho Hcov Hend.
  apply (phase_own P valid vf sg K evs lvl m0 fl0 Hsch nxt W (fun _ _ => None)) with (kn0 := fun l => m0 l = sg l); try done.
  - intros t Ht. eapply own_ok_mono; [|apply ok_own; [done|by apply Ho]].
    intros kn pv ev q (? & ? & ?). split_and!; try done.
  - intros l. destruct (Hcov l); [by left|auto].
Qed.

Section Rules.
Context {L : Type} `{EqDecision L} (P : nat) (HP : (0 < P)%nat) (valid : L -> bool) (vf : Z -> bool).

(** A phase that ends at the barrier [b]. *)
Lemma phase_barrier sg K evs lvl (nxt : nat -> prog L unit -> Prop) W b Q c :
  schedule P (flag c) evs lvl -> (idx c <= P)%nat ->
  (forall t, (t < P)%nat -> ok valid vf sg K (fun l => mem c l = sg l) (evs t) (thr c t)
     (fun kn ev q => ev = [] /\ (exists k, q = Barrier b k /\ nxt t k) /\ forall l, W t l -> kn l)) ->
  (forall l, mem c l = sg l \/ exists t, (t < P)%nat /\ W t l) ->
  (forall c', boundary P sg evs (flag c) nxt c' -> ends P valid vf Q c') ->
  ends P valid vf Q c.
Proof.
  intros Hsch Hi Ho Hcov Hend.
  apply (phase P valid vf sg K evs lvl (mem c) (flag c) Hsch (fun t q => exists k, q = Barrier b k /\ nxt t k) W); [done..|].
  intros c1 (Hi1 & Ht1 & Hm1 & Hf1). apply (ends_barrier P valid vf HP Q c1 b nxt); [done..|].
  intros c2 Hi2 Ht2 Hm2 Hf2. apply Hend. split_and!; [done|done|by rewrite Hm2|by rewrite Hf2].
Qed.

Lemma schedule_none fl : schedule P fl (fun _ => []) (fun _ => O).
Proof.
  split.
  - intros; constructor.
  - by intros ????? ?%not_elem_of_nil.
  - by intros ??? ?%not_elem_of_nil.
  - intros ??? a b _ E. by destruct (app_cons_not_nil a b _ E).
Qed.

Lemma flag_after_none fl f : flag_after P fl (fun _ => []) f <-> fl f = true.
Proof.
  unfold flag_after. split; [by intros [[?|(? & ? & ?%not_elem_of_nil)] _]|].
  intros ->. split; [by left|]. by intros (? & ? & ?%not_elem_of_nil).
Qed.

(** A phase without flags. *)
Lemma phase_quiet sg (nxt : nat -> prog L unit -> Prop) W b Q c :
  (idx c <= P)%nat ->
  (forall t, (t < P)%nat -> ok valid vf sg (fun _ _ => False) (fun l => mem c l = sg l) [] (thr c t)
     (fun kn ev q => ev = [] /\ (exists k, q = Barrier b k /\ nxt t k) /\ forall l, W t l -> kn l)) ->
  (forall l, mem c l = sg l \/ exists t, (t < P)%nat /\ W t l) ->
  (forall c', idx c' = P -> (forall t, (t < P)%nat -> nxt t (thr c' t)) -> (forall l, mem c' l = sg l) ->
     (forall f, flag c' f = flag c f) -> ends P valid vf Q c') ->
  ends P valid vf Q c.
Proof.
  intros Hi Ho Hcov Hend.
  apply (phase_barrier sg (fun _ _ => False) (fun _ => []) (fun _ => O) nxt W b); [apply schedule_none|done..|].
  intros c' (Hi' & Ht' & Hm' & Hf'). apply Hend; [done..|].
  intros f. specialize (Hf' f). rewrite flag_after_none in Hf'. by apply eq_bool_prop_intro; rewrite !Is_true_true.
Qed.

(** A phase without flags in which the threads own what they change. *)
Lemma phase_owned sg (nxt : nat -> prog L unit -> Prop) (pv0 : nat -> L -> option Z) b Q c :
  (idx c <= P)%nat ->
  (forall t l v, (t < P)%nat -> pv0 t l = Some v -> mem c l = v) ->
  (forall t t' l, (t < P)%nat -> (t' < P)%nat -> is_Some (pv0 t l) -> is_Some (pv0 t' l) -> t = t') ->
  (forall l, mem c l = sg l /\ free_of P pv0 l \/ exists t, (t < P)%nat /\ is_Some (pv0 t l)) ->
  (forall t, (t < P)%nat -> own_ok valid vf sg (fun _ _ => False) (free_of P pv0) (free_of P pv0) (pv0 t) [] (thr c t)
     (fun kn pv ev q => ev = [] /\ (exists k, q = Barrier b k /\ nxt t k) /\ forall l, is_Some (pv0 t l) -> pv l = Some (sg l))) ->
  (forall c', idx c' = P -> (forall t, (t < P)%nat -> nxt t (thr c' t)) -> (forall l, mem c' l = sg l) -> ends P valid vf Q c') ->
  ends P valid vf Q c.
Proof.
  intros Hi Hpv Hdisj Hcov Ho Hend.
  apply (phase_own P valid vf sg (fun _ _ => False) (fun _ => []) (fun _ => O) (mem c) (flag c) (schedule_none (flag c))
    (fun t q => exists k, q = Barrier b k /\ nxt t k) (fun _ _ => False) pv0 Hpv Hdisj (free_of P pv0)); [done..| | | |].
  - intros l Hl. split; [done|]. destruct (Hcov l) as [[? _]|(t & Ht & [? Hs])]; [done|]. by rewrite (Hl t Ht) in Hs.
  - intros t Ht. eapply own_ok_mono; [|by apply Ho]. intros kn pv ev q (? & ? & ?). done.
  - intros l. destruct (Hcov l); auto.
  - intros c1 (Hi1 & Ht1 & Hm1 & Hf1). apply (ends_barrier P valid vf HP Q c1 b nxt); [done..|].
    intros c2 Hi2 Ht2 Hm2 Hf2. apply Hend; [done|done|by rewrite Hm2].
Qed.
End Rules.
