(* ===== verification/Radix.v ===== *)
(** * Radix: the radix sort of splash2 (papps/splash2/codes/kernels/radix/radix.C)

    The program with the macros of [c.m4.null.det]: the options and the set-up
    of [main], the generator of the keys, and [slave_sort], the function of
    every thread, as a [prog] of Phases.v over the memory the threads share.

    - The shared memory ([loc]) is [key[0]] and [key[1]], the densities and
      ranks of the prefix tree, and [global->final]; an access outside these
      arrays is not a step.  The flags are the pauses [prefix_tree[n].done].
    - [rank_me[MyNum]], [gp[MyNum].rank_ff] and [key_density] are addressed by
      one thread only and are its private state ([priv]); an access outside
      them is [Fail].
    - The numbers of type [double] are integers, or integers over 2^46, and
      exact as long as they have at most 53 bits, which the definitions check;
      the one product that is rounded is rounded to nearest ([rnd53]).
    - The times that are measured and the output for debugging are left out. *)

From stdpp Require Import base list option.
From S2P Require Import Prelude Phases.
Local Open Scope Z_scope.

Module Radix.

Definition DEFAULT_P : Z := 1.
Definition DEFAULT_N : Z := 262144.
Definition DEFAULT_R : Z := 1024.
Definition DEFAULT_M : Z := 524288.
Definition MAX_PROCESSORS : Z := 64.
Definition RADIX_S : Z := 8388608.
Definition RADIX : Z := 70368744177664.
Definition SEED : Z := 314159265.
Definition RATIO : Z := 1220703125.
Definition MAX_RADIX : Z := 4096.

(** ** Logarithms and digits *)

(** [log_2]: the loop, with [cumulative] and [out]; it ends by [out < 50]. *)
Fixpoint log_2_loop (fuel : nat) (number cumulative out : Z) : Z * Z :=
  match fuel with
  | O => (cumulative, out)
  | S fuel =>
      if (cumulative <? number) && (out <? 50)
      then log_2_loop fuel number (cumulative * 2) (out + 1)
      else (cumulative, out)
  end.
Definition log_2 (number : Z) : Z :=
  let (cumulative, out) := log_2_loop 51 number 1 0 in
  if cumulative =? number then out else -1.

(** [get_log2_radix] and [get_log2_keys]: [bound] is 20 and 30; [None] is
    [exit(-1)]. *)
Fixpoint get_log2_loop (fuel : nat) (number cumulative out : Z) : option Z :=
  match fuel with
  | O => None
  | S fuel => if cumulative =? number then Some out else get_log2_loop fuel number (cumulative * 2) (out + 1)
  end.
Definition get_log2_radix (rad : Z) : option Z := get_log2_loop 20 rad 1 0.
Definition get_log2_keys (num_keys : Z) : option Z := get_log2_loop 30 num_keys 1 0.

(** [get_max_digits]; [None] when the fuel does not suffice. *)
Fixpoint max_digits_loop (fuel : nat) (radix key_val temp : Z) : option Z :=
  match fuel with
  | O => None
  | S fuel =>
      let key_val := Z.quot key_val radix in
      if key_val =? 0 then Some temp else max_digits_loop fuel radix key_val (temp + 1)
  end.
Definition get_max_digits (radix max_key : Z) : option Z := max_digits_loop 64 radix max_key 1.

(** ** The options of [main] *)

Record settings := Settings {
  number_of_processors : Z;
  radix : Z;
  num_keys : Z;
  max_key : Z;
  dostats : bool;
  test_result : bool;
  doprint : bool }.
Definition defaults : settings := Settings DEFAULT_P DEFAULT_R DEFAULT_N DEFAULT_M false false false.

(** The loop over what [getopt] answers: a letter and the value [atoi] finds
    in its argument.  [inl e] is [exit(e)]. *)
Fixpoint options (os : list (Z * Z)) (s : settings) : Z + settings :=
  match os with
  | [] => inr s
  | (c, v) :: os =>
      let '(Settings p r n m st te pr) := s in
      if c =? 112 then
        if v <? 1 then inl (-1) else if MAX_PROCESSORS <? v then inl (-1)
        else options os (Settings v r n m st te pr)
      else if c =? 114 then
        if v <? 1 then inl (-1) else if log_2 v =? -1 then inl (-1)
        else options os (Settings p v n m st te pr)
      else if c =? 110 then
        if v <? 1 then inl (-1) else options os (Settings p r v m st te pr)
      else if c =? 109 then
        if v <? 1 then inl (-1) else options os (Settings p r n v st te pr)
      else if c =? 115 then options os (Settings p r n m (negb st) te pr)
      else if c =? 116 then options os (Settings p r n m st (negb te) pr)
      else if c =? 111 then options os (Settings p r n m st te (negb pr))
      else if c =? 104 then inl 0
      else options os s
  end.

(** ** Partitions *)

(** The loop that fills [key_partition] and [rank_partition]: [part] has the
    [p] entries filled so far. [cap] is the size of the array: [None] is a
    store behind its end. *)
Fixpoint partition_loop (fuel : nat) (P total quotient remainder sum_i sum_f cap : Z) (part : list Z) : option (list Z) :=
  match fuel with
  | O => None
  | S fuel =>
      if cap <=? zlen part then None
      else if sum_i <? total then
        let sum_i' := sum_i + quotient in
        let sum_f' := sum_f + remainder in
        partition_loop fuel P total quotient remainder (sum_i' + Z.quot sum_f' P) (Z.rem sum_f' P) cap (part ++ [sum_i])
      else Some (part ++ [total])
  end.
Definition partition (P total : Z) : option (list Z) :=
  partition_loop (Z.to_nat P + 2) P total (Z.quot total P) (Z.rem total P) 0 0 (P + 1) [].

(** What [main] has set up when it creates the threads. *)
Record globals := Globals {
  g_P : Z; g_radix : Z; g_num_keys : Z; g_max_key : Z;
  log2_radix : Z; max_num_digits : Z;
  key_partition : list Z; rank_partition : list Z }.
Definition setup (s : settings) : option globals :=
  let? md := get_max_digits (radix s) (max_key s) in
  let? kp := partition (number_of_processors s) (num_keys s) in
  let? rp := partition (number_of_processors s) (radix s) in
  Some (Globals (number_of_processors s) (radix s) (num_keys s) (max_key s) (log_2 (radix s)) md kp rp).

(** ** The keys *)

(** A double that holds the integer [z]. *)
Definition exact (z : Z) : option Z := if Z.abs z <=? 2 ^ 53 then Some z else None.

(** [product_mod_46]: [(long)(t / RADIX_S)] is a quotient, because dividing by
    a power of two is exact. *)
Definition product_mod_46 (t1 t2 : Z) : option Z :=
  let a1 := Z.quot t1 RADIX_S in
  let? a1r := exact (a1 * RADIX_S) in
  let? a2 := exact (t1 - a1r) in
  let b1 := Z.quot t2 RADIX_S in
  let? b1r := exact (b1 * RADIX_S) in
  let? b2 := exact (t2 - b1r) in
  let? p := exact (a1 * b2) in
  let? q := exact (a2 * b1) in
  let? t1 := exact (p + q) in
  let t2 := Z.quot t1 RADIX_S in
  let? t2r := exact (t2 * RADIX_S) in
  let? t2 := exact (t1 - t2r) in
  let? u := exact (t2 * RADIX_S) in
  let? v := exact (a2 * b2) in
  let? t1 := exact (u + v) in
  let t2 := Z.quot t1 RADIX in
  let? w := exact (t2 * RADIX) in
  exact (t1 - w).

(** [ran_num_init]; an unsigned long has 64 bits. *)
Fixpoint ran_num_loop (fuel : nat) (k b t : Z) : option Z :=
  if k =? 0 then Some b
  else match fuel with
  | O => None
  | S fuel =>
      let j := Z.shiftr k 1 in
      let? b := (if Z.shiftl j 1 =? k then Some b else product_mod_46 b t) in
      let? t := product_mod_46 t t in
      ran_num_loop fuel j b t
  end.
Definition ran_num_init (k b t : Z) : option Z := ran_num_loop 64 k b t.

(** A product rounded to 53 significant bits, ties to even. *)
Definition rnd53 (n : Z) : Z :=
  let e := Z.max 0 (Z.log2 n - 52) in
  let q := Z.shiftr n e in
  let r := 2 * (n - Z.shiftl q e) in
  let u := Z.shiftl 1 e in
  Z.shiftl (if (u <? r) || ((r =? u) && Z.odd q) then q + 1 else q) e.

(** [(long)((sum / 4.0) * max_key)] for [sum] over 2^46. *)
Definition key_of (sum max_key : Z) : Z := Z.shiftr (rnd53 (sum * max_key)) 48.

(** ** The threads *)

Inductive loc := Key (b i : Z) | Dens (n i : Z) | Rank (n i : Z) | Final.
#[export] Instance loc_eq_dec : EqDecision loc.
Proof. solve_decision. Defined.

Definition within (a b i : Z) : bool := (a <=? i) && (i <? b).
(** The elements of the shared arrays. *)
Definition valid (G : globals) (l : loc) : bool :=
  match l with
  | Key b i => within 0 2 b && within 0 (g_num_keys G) i
  | Dens n i | Rank n i => within 0 (2 * MAX_PROCESSORS) n && within 0 MAX_RADIX i
  | Final => true
  end.
(** The pauses that [main] has initialised. *)
Definition valid_pause (G : globals) (f : Z) : bool := within 0 (2 * g_P G) f.

Abbreviation thread := (prog loc).

(** The private arrays. *)
Record priv := Priv { rank_me : list Z; key_density : list Z; rank_ff : list Z }.

(** [init]; the sum is over 2^46. *)
Definition init (G : globals) (key_start key_stop from : Z) : thread unit :=
  let! ran_num := opt (ran_num_init (Z.shiftl key_start 2 + 1) SEED RATIO) in
  let! _ := for_ key_start key_stop (ran_num, ran_num) (fun i '(ran_num, sum) =>
    let! ran_num := opt (product_mod_46 ran_num RATIO) in
    let! sum := opt (exact (sum + ran_num)) in
    let! ran_num := opt (product_mod_46 ran_num RATIO) in
    let! sum := opt (exact (sum + ran_num)) in
    let! ran_num := opt (product_mod_46 ran_num RATIO) in
    let! sum := opt (exact (sum + ran_num)) in
    write (Key from i) (key_of sum (g_max_key G)) ;!
    let! ran_num := opt (product_mod_46 ran_num RATIO) in
    Ret (ran_num, ran_num)) in
  Ret tt.

(** The digit of a key: [(k & bb) >> shiftnum]. *)
Definition digit (G : globals) (loopnum k : Z) : Z :=
  let shiftnum := loopnum * log2_radix G in
  let bb := Z.shiftl (g_radix G - 1) shiftnum in
  Z.shiftr (Z.land k bb) shiftnum.

(** From the start of an iteration to barrier 3: the histogram of the
    thread's keys and its prefix sums. *)
Definition histogram (G : globals) (loopnum from key_start key_stop : Z) (pr : priv) : thread priv :=
  let! rm := for_ 0 (g_radix G) (rank_me pr) (fun i rm => opt (zset rm i 0)) in
  let! rm := for_ key_start key_stop rm (fun i rm =>
    let! k := read (Key from i) in
    let my_key := digit G loopnum k in
    let! n := opt (znth rm my_key) in
    opt (zset rm my_key (n + 1))) in
  let! n := opt (znth rm 0) in
  let! kd := opt (zset (key_density pr) 0 n) in
  let! kd := for_ 1 (g_radix G) kd (fun i kd =>
    let! a := opt (znth kd (i - 1)) in
    let! b := opt (znth rm i) in
    opt (zset kd i (a + b))) in
  Ret (Priv rm kd (rank_ff pr)).

(** [while ((offset & 0x1) != 0)] of the way up: node [n] is done, its parent
    is computed from it and its left neighbour. A long has 64 bits. *)
Fixpoint up_loop (fuel : nat) (G : globals) (n offset level base : Z) : thread unit :=
  if Z.land offset 1 =? 0 then Ret tt
  else match fuel with
  | O => Fail
  | S fuel =>
      let offset := Z.shiftr offset 1 in
      let r := n in
      let l := n - 1 in
      let index := base + offset in
      let n := index in
      WAIT_CLEAR_PAUSE n ;!
      (if negb (offset =? level - 1) then
        let! _ := for_ 0 (g_radix G) tt (fun i _ =>
          let! a := read (Dens r i) in
          let! b := read (Dens l i) in
          write (Dens n i) (a + b) ;!
          let! a := read (Rank r i) in
          let! b := read (Rank l i) in
          write (Rank n i) (a + b)) in Ret tt
      else
        let! _ := for_ 0 (g_radix G) tt (fun i _ =>
          let! a := read (Dens r i) in
          let! b := read (Dens l i) in
          write (Dens n i) (a + b)) in Ret tt) ;!
      let base := base + level in
      let level := Z.shiftr level 1 in
      (if Z.land offset 1 =? 0 then SETPAUSE (base + Z.shiftr offset 1) else Ret tt) ;!
      up_loop fuel G n offset level base
  end.

(** From barrier 3 to barrier 4. *)
Definition up_sweep (G : globals) (MyNum : Z) (pr : priv) : thread unit :=
  let n := MyNum in
  let! _ := for_ 0 (g_radix G) tt (fun i _ =>
    let! a := opt (znth (key_density pr) i) in
    write (Dens n i) a ;!
    let! a := opt (znth (rank_me pr) i) in
    write (Rank n i) a) in
  let offset := MyNum in
  let level := Z.shiftr (g_P G) 1 in
  let base := g_P G in
  (if Z.land MyNum 1 =? 0 then SETPAUSE (base + Z.shiftr offset 1) else Ret tt) ;!
  up_loop 64 G n offset level base.

(** [while ((offset & 0x1) != 0) { offset >>= 1; base += level; level >>= 1; }] *)
Fixpoint climb (fuel : nat) (offset level base : Z) : option (Z * Z * Z) :=
  if Z.land offset 1 =? 0 then Some (offset, level, base)
  else match fuel with
  | O => None
  | S fuel => climb fuel (Z.shiftr offset 1) (Z.shiftr level 1) (base + level)
  end.

(** The nodes the thread copies the densities between: its own and the one of
    the next thread up the tree. *)
Definition my_their_node (G : globals) (MyNum : Z) : option (Z * Z) :=
  let? (offset, level, base) := climb 64 MyNum (g_P G) 0 in
  let my_node := base + offset in
  let? (offset, level, base) := climb 64 (Z.shiftr offset 1) (Z.shiftr level 1) (base + level) in
  Some (my_node, base + offset).

(** The loop that wakes the left neighbours of the nodes on the way up. *)
Fixpoint wake_loop (fuel : nat) (offset level base : Z) : thread unit :=
  if Z.land offset 1 =? 0 then Ret tt
  else match fuel with
  | O => Fail
  | S fuel =>
      SETPAUSE (base + offset - 1) ;!
      wake_loop fuel (Z.shiftr offset 1) (Z.shiftr level 1) (base + level)
  end.

(** [while (offset != 0)]: the ranks of the nodes to the left. *)
Fixpoint rank_loop (fuel : nat) (G : globals) (offset level base : Z) (rf : list Z) : thread (list Z) :=
  if offset =? 0 then Ret rf
  else match fuel with
  | O => Fail
  | S fuel =>
      let! rf := (if negb (Z.land offset 1 =? 0) then
        let l := base + offset - 1 in
        for_ 0 (g_radix G) rf (fun i rf =>
          let! a := opt (znth rf i) in
          let! b := read (Rank l i) in
          opt (zset rf i (a + b)))
      else Ret rf) in
      rank_loop fuel G (Z.shiftr offset 1) (Z.shiftr level 1) (base + level) rf
  end.

(** From barrier 4 to barrier 5. *)
Definition down_sweep (G : globals) (MyNum : Z) (pr : priv) : thread priv :=
  let! my_node := (if negb (MyNum =? g_P G - 1) then
    let! (my_node, their_node) := opt (my_their_node G MyNum) in
    WAIT_CLEAR_PAUSE my_node ;!
    let! _ := for_ 0 (g_radix G) tt (fun i _ =>
      let! a := read (Dens their_node i) in
      write (Dens my_node i) a) in
    Ret my_node
  else Ret (2 * g_P G - 2)) in
  wake_loop 64 MyNum (g_P G) 0 ;!
  let! rf := for_ 0 (g_radix G) (rank_ff pr) (fun i rf => opt (zset rf i 0)) in
  let! rf := rank_loop 64 G MyNum (g_P G) 0 rf in
  let! rf := for_ 1 (g_radix G) rf (fun i rf =>
    let! a := opt (znth rf i) in
    let! b := read (Dens my_node (i - 1)) in
    opt (zset rf i (a + b))) in
  Ret (Priv (rank_me pr) (key_density pr) rf).

(** From barrier 5 to barrier 6: the keys to their places. *)
Definition permute (G : globals) (loopnum from to key_start key_stop : Z) (pr : priv) : thread priv :=
  let! rf := for_ key_start key_stop (rank_ff pr) (fun i rf =>
    let! k := read (Key from i) in
    let this_key := digit G loopnum k in
    let! tmp := opt (znth rf this_key) in
    let! k := read (Key from i) in
    write (Key to tmp) k ;!
    opt (zset rf this_key (tmp + 1))) in
  Ret (Priv (rank_me pr) (key_density pr) rf).

Definition barrier_key : Z := 0.
Definition barrier_rank : Z := 1.

(** One iteration of the loop over the digits. *)
Definition sort_digit (G : globals) (MyNum key_start key_stop loopnum : Z) (st : priv * Z * Z) : thread (priv * Z * Z) :=
  let '(pr, from, to) := st in
  let! pr := histogram G loopnum from key_start key_stop pr in
  BARRIER barrier_rank ;!
  up_sweep G MyNum pr ;!
  BARRIER barrier_rank ;!
  let! pr := down_sweep G MyNum pr in
  BARRIER barrier_rank ;!
  let! pr := permute G loopnum from to key_start key_stop pr in
  let (from, to) := if negb (loopnum =? max_num_digits G - 1) then (Z.lxor from 1, Z.lxor to 1) else (from, to) in
  BARRIER barrier_rank ;!
  Ret (pr, from, to).

(** [slave_sort] from the point where the thread has its number. [pr] is what
    the private arrays hold when they are allocated. *)
Definition slave_sort (G : globals) (pr : priv) (MyNum : Z) : thread unit :=
  let from := 0 in
  let to := 1 in
  let! key_start := opt (znth (key_partition G) MyNum) in
  let! key_stop := opt (znth (key_partition G) (MyNum + 1)) in
  let! rank_start := opt (znth (rank_partition G) MyNum) in
  let! rank_stop := opt (znth (rank_partition G) (MyNum + 1)) in
  init G key_start key_stop from ;!
  BARRIER barrier_key ;!
  BARRIER barrier_key ;!
  let! (pr, from, to) := for_ 0 (max_num_digits G) (pr, from, to) (sort_digit G MyNum key_start key_stop) in
  BARRIER barrier_rank ;!
  (if MyNum =? 0 then write Final to else Ret tt).

(** [test_sort]: the number of mistakes in [key_final]. *)
Fixpoint mistakes (ks : list Z) : Z :=
  match ks with
  | x :: ((y :: _) as ks') => (if y <? x then 1 else 0) + mistakes ks'
  | _ => 0
  end.
Definition test_sort (ks : list Z) : bool := mistakes ks =? 0.

(** The state in which the threads start. *)
Definition start (G : globals) (pr : nat -> priv) (m : loc -> Z) : cfg loc :=
  Cfg 0 (fun t => slave_sort G (pr t) (Z.of_nat t)) m (fun _ => false).

End Radix.
