(* ===== verification/RadixKeys.v ===== *)
(** * RadixKeys: the numbers of the radix sort

    The set-up of [main] and the generator of keys of Radix.v: the logarithm,
    the number of digits, the partitions, the products modulo 2^46 in doubles,
    and [init], which gives the same keys whatever the partition. *)

From Stdlib Require Import Zpow_facts.
From stdpp Require Import base list option.
From S2P Require Import Prelude Phases Radix.
Local Open Scope Z_scope.

Module RadixKeys.
Import Radix.

(** ** Arithmetic in doubles *)

Lemma exact_Some z : Z.abs z <= 2 ^ 53 -> exact z = Some z.
Proof. intros. unfold exact. destruct (Z.leb_spec (Z.abs z) (2 ^ 53)); [done|lia]. Qed.

(** Every intermediate double of [product_mod_46] is exact, and the answer is
    the product modulo 2^46. *)
Lemma product_mod_46_spec t1 t2 :
  0 <= t1 < 2 ^ 46 -> 0 <= t2 < 2 ^ 46 -> product_mod_46 t1 t2 = Some ((t1 * t2) mod 2 ^ 46).
Proof.
  intros H1 H2. unfold product_mod_46.
  change RADIX_S with (2 ^ 23). change RADIX with (2 ^ 46).
  assert (2 ^ 46 = 2 ^ 23 * 2 ^ 23) as E46 by done.
  assert (2 ^ 53 = 2 ^ 23 * 2 ^ 23 * 128) as E53 by done.
  rewrite !Z.quot_div_nonneg by lia.
  pose proof (Z.div_mod t1 (2 ^ 23) ltac:(lia)) as D1. pose proof (Z.mod_pos_bound t1 (2 ^ 23) ltac:(lia)) as M1.
  pose proof (Z.div_mod t2 (2 ^ 23) ltac:(lia)) as D2. pose proof (Z.mod_pos_bound t2 (2 ^ 23) ltac:(lia)) as M2.
  assert (0 <= t1 / 2 ^ 23 < 2 ^ 23) as Q1 by (split; [apply Z.div_pos; lia|apply Z.div_lt_upper_bound; lia]).
  assert (0 <= t2 / 2 ^ 23 < 2 ^ 23) as Q2 by (split; [apply Z.div_pos; lia|apply Z.div_lt_upper_bound; lia]).
  set (a1 := t1 / 2 ^ 23) in *. set (a2 := t1 mod 2 ^ 23) in *.
  set (b1 := t2 / 2 ^ 23) in *. set (b2 := t2 mod 2 ^ 23) in *.
  set (S := 2 ^ 23) in *. assert (0 < S) as HS by done. clearbody a1 a2 b1 b2.
  rewrite (exact_Some (a1 * S)) by nia. cbv iota beta.
  replace (t1 - a1 * S) with a2 by lia. rewrite (exact_Some a2) by nia. cbv iota beta.
  rewrite (exact_Some (b1 * S)) by nia. cbv iota beta.
  replace (t2 - b1 * S) with b2 by lia. rewrite (exact_Some b2) by nia. cbv iota beta.
  rewrite (exact_Some (a1 * b2)) by nia. cbv iota beta.
  rewrite (exact_Some (a2 * b1)) by nia. cbv iota beta.
  rewrite (exact_Some (a1 * b2 + a2 * b1)) by nia. cbv iota beta.
  set (m := a1 * b2 + a2 * b1). assert (0 <= m < 2 * (S * S)) as Hm by nia. 
  rewrite Z.quot_div_nonneg by lia.
  pose proof (Z.div_mod m S ltac:(lia)) as Dm. pose proof (Z.mod_pos_bound m S ltac:(lia)) as Mm.
  set (c1 := m / S) in *. set (c2 := m mod S) in *. clearbody c1 c2.
  assert (0 <= c1 < 2 * S) as Hc1 by nia.
  rewrite (exact_Some (c1 * S)) by nia. cbv iota beta.
  replace (m - c1 * S) with c2 by lia. rewrite (exact_Some c2) by nia. cbv iota beta.
  rewrite (exact_Some (c2 * S)) by nia. cbv iota beta.
  rewrite (exact_Some (a2 * b2)) by nia. cbv iota beta.
  rewrite (exact_Some (c2 * S + a2 * b2)) by nia. cbv iota beta.
  set (u := c2 * S + a2 * b2). assert (0 <= u < 2 * (S * S)) as Hu by nia.
  rewrite E46, Z.quot_div_nonneg by nia.
  pose proof (Z.div_mod u (S * S) ltac:(nia)) as Du. pose proof (Z.mod_pos_bound u (S * S) ltac:(nia)) as Mu.
  assert (0 <= u / (S * S) < 2) as Hq by nia.
  rewrite (exact_Some (u / (S * S) * (S * S))) by nia. cbv iota beta.
  replace (u - u / (S * S) * (S * S)) with (u mod (S * S)) by lia. rewrite exact_Some by lia. f_equal.
  replace (t1 * t2) with (u + (a1 * b1 + c1) * (S * S)) by nia.
  symmetry. apply Z.mod_add. nia.
Qed.

Lemma mod_46_bound z : 0 <= z mod 2 ^ 46 < 2 ^ 46.
Proof. apply Z.mod_pos_bound. lia. Qed.

Lemma ran_num_loop_spec n k b t :
  0 <= k < 2 ^ Z.of_nat n -> 0 <= b < 2 ^ 46 -> 0 <= t < 2 ^ 46 ->
  ran_num_loop n k b t = Some ((b * t ^ k) mod 2 ^ 46).
Proof.
  revert k b t. induction n as [|n IH]; intros k b t Hk Hb Ht.
  { replace k with 0 by lia. simpl. by rewrite Z.mul_1_r, Z.mod_small. }
  cbn [ran_num_loop]. destruct (Z.eqb_spec k 0) as [->|Hk0].
  { by rewrite Z.pow_0_r, Z.mul_1_r, Z.mod_small. }
  rewrite Nat2Z.inj_succ, Z.pow_succ_r in Hk by lia.
  rewrite Z.shiftl_mul_pow2, Z.shiftr_div_pow2, Z.pow_1_r by lia.
  pose proof (Z.div_mod k 2 ltac:(lia)) as D. pose proof (Z.mod_pos_bound k 2 ltac:(lia)).
  assert (0 <= k / 2 < 2 ^ Z.of_nat n) as Hj by lia.
  rewrite (product_mod_46_spec t t) by done.
  assert (forall b' c, (b' * ((t * t) mod 2 ^ 46) ^ (k / 2)) mod 2 ^ 46 = (c * t ^ (2 * (k / 2))) mod 2 ^ 46 <->
    (b' * (t ^ (2 * (k / 2)))) mod 2 ^ 46 = (c * t ^ (2 * (k / 2))) mod 2 ^ 46) as Hsq.
  { intros b' c. rewrite Z.mul_mod, <- Zpower_mod, <- Z.mul_mod by lia.
    by rewrite Z.pow_mul_r, Z.pow_2_r by lia. }
  destruct (Z.eqb_spec (k / 2 * 2) k) as [Ev|Od].
  - rewrite IH by auto using mod_46_bound. f_equal. replace k with (2 * (k / 2)) at 2 by lia. by apply Hsq.
  - rewrite product_mod_46_spec by done. rewrite IH by auto using mod_46_bound. f_equal.
    replace (b * t ^ k) with (b * t * t ^ (2 * (k / 2))).
    + apply Hsq. rewrite Z.mul_mod_idemp_l by lia. done.
    + replace k with (1 + 2 * (k / 2)) at 2 by lia. rewrite Z.pow_add_r, Z.pow_1_r by lia. ring.
Qed.

(** [ran_num_init] is [b * t^k] modulo 2^46, in at most 64 rounds. *)
Lemma ran_num_init_spec k b t :
  0 <= k < 2 ^ 64 -> 0 <= b < 2 ^ 46 -> 0 <= t < 2 ^ 46 ->
  ran_num_init k b t = Some ((b * t ^ k) mod 2 ^ 46).
Proof. intros. by apply ran_num_loop_spec. Qed.

(** Rounding does not pass a number that fits in 53 bits. *)
Lemma rnd53_upper n m e :
  0 <= n <= m * 2 ^ e -> 0 <= m < 2 ^ 53 -> 0 <= e -> 0 <= rnd53 n <= m * 2 ^ e.
Proof.
  intros Hn Hm He. unfold rnd53. set (d := Z.max 0 (Z.log2 n - 52)).
  assert (0 <= d) as Hd by lia.
  rewrite !Z.shiftl_mul_pow2, Z.shiftr_div_pow2 by lia. rewrite Z.mul_1_l.
  pose proof (Z.pow_pos_nonneg 2 d ltac:(lia) Hd) as H2d.
  pose proof (Z.div_mod n (2 ^ d) ltac:(lia)) as D. pose proof (Z.mod_pos_bound n (2 ^ d) ltac:(lia)) as M.
  pose proof (Z.div_pos n (2 ^ d) ltac:(lia) ltac:(lia)).
  set (q := n / 2 ^ d) in *.
  assert (q * 2 ^ d <= m * 2 ^ e) as Hq by nia.
  destruct (Z.eq_dec (n mod 2 ^ d) 0) as [Hz|Hz].
  { replace (2 * (n - q * 2 ^ d)) with 0 by lia.
    destruct (Z.ltb_spec (2 ^ d) 0); [lia|]. destruct (Z.eqb_spec 0 (2 ^ d)); [lia|]. simpl. nia. }
  assert (0 < d) as Hd0.
  { destruct (Z.eq_dec d 0) as [Hd0|]; [|lia]. exfalso. apply Hz. rewrite Hd0. apply Z.mod_1_r. }
  assert (d <= e) as Hde.
  { destruct (Z.eq_dec m 0) as [->|]; [assert (n = 0) as Hn0 by lia; by rewrite Hn0, Zmod_0_l in Hz|].
    assert (n < 2 ^ (53 + e)) by (rewrite Z.pow_add_r by lia; nia).
    assert (Z.log2 n < 53 + e) by (apply Z.log2_lt_pow2; lia). lia. }
  replace e with ((e - d) + d) by lia. replace e with ((e - d) + d) in Hn, Hq by lia.
  rewrite Z.pow_add_r, Z.mul_assoc in * by lia.
  assert (q + 1 <= m * 2 ^ (e - d)) by nia.
  destruct (_ || _); nia.
Qed.

Lemma key_of_bound sum mk :
  0 <= sum <= 2 ^ 48 -> 0 <= mk < 2 ^ 53 -> 0 <= key_of sum mk <= mk.
Proof.
  intros Hs Hm. unfold key_of. rewrite Z.shiftr_div_pow2 by lia.
  pose proof (rnd53_upper (sum * mk) mk 48 ltac:(nia) Hm ltac:(lia)).
  split; [apply Z.div_pos; lia|]. apply Z.div_le_upper_bound; lia.
Qed.

(** ** The keys, without the threads *)

(** The numbers of the generator, and the key number [i]. *)
Definition rnd (j : Z) : Z := (SEED * RATIO ^ j) mod 2 ^ 46.
Definition key_number (mk i : Z) : Z :=
  key_of (rnd (4 * i + 1) + rnd (4 * i + 2) + rnd (4 * i + 3) + rnd (4 * i + 4)) mk.

Lemma rnd_bound j : 0 <= rnd j < 2 ^ 46.
Proof. apply mod_46_bound. Qed.

Lemma rnd_next j : 0 <= j -> product_mod_46 (rnd j) RATIO = Some (rnd (j + 1)).
Proof.
  intros Hj. rewrite product_mod_46_spec by (apply rnd_bound || done). unfold rnd.
  rewrite Z.mul_mod_idemp_l by lia. rewrite Z.pow_add_r, Z.pow_1_r by lia. by rewrite Z.mul_assoc.
Qed.

Lemma key_number_bound mk i : 0 <= mk < 2 ^ 53 -> 0 <= key_number mk i <= mk.
Proof.
  intros. apply key_of_bound; [|done].
  pose proof (rnd_bound (4 * i + 1)). pose proof (rnd_bound (4 * i + 2)).
  pose proof (rnd_bound (4 * i + 3)). pose proof (rnd_bound (4 * i + 4)). lia.
Qed.

Section Init.
Context (G : globals) (sg : loc -> Z).
Local Abbreviation wpt := (wp (valid G) (valid_pause G) sg).

(** [init] writes, for every element of its part, the key of that number: the
    parts together give the same array for every number of threads. *)
Lemma init_wp K kn ev a b (Phi : (loc -> Prop) -> list event -> unit -> Prop) :
  0 <= a <= b -> b <= g_num_keys G -> b < 2 ^ 61 ->
  (forall i, a <= i < b -> sg (Key 0 i) = key_number (g_max_key G) i) ->
  (forall kn', (forall l, kn l -> kn' l) -> (forall i, a <= i < b -> kn' (Key 0 i)) -> Phi kn' ev tt) ->
  wpt K kn ev (init G a b 0) Phi.
Proof.
  intros Hab Hb H61 Hsg HPhi. unfold init. apply wp_bind.
  eapply wp_opt. { rewrite Z.shiftl_mul_pow2 by lia. apply ran_num_init_spec; [lia|done|done]. }
  fold (rnd (a * 2 ^ 2 + 1)). apply wp_bind.
  apply (wp_for _ _ _ _ (fun i s kn' ev' => s = (rnd (4 * i + 1), rnd (4 * i + 1)) /\ ev' = ev /\
    (forall l, kn l -> kn' l) /\ forall j, a <= j < i -> kn' (Key 0 j))); [lia| | |].
  - split_and!; [by replace (a * 2 ^ 2) with (4 * a) by lia|done|done|lia].
  - intros i s kn' ev' Hi (-> & -> & Hk & Hj).
    pose proof (rnd_bound (4 * i + 1)). pose proof (rnd_bound (4 * i + 2)).
    pose proof (rnd_bound (4 * i + 3)). pose proof (rnd_bound (4 * i + 4)).
    apply wp_bind; eapply wp_opt; [apply rnd_next; lia|]. replace (4 * i + 1 + 1) with (4 * i + 2) by lia.
    apply wp_bind; eapply wp_opt; [apply exact_Some; lia|].
    apply wp_bind; eapply wp_opt; [apply rnd_next; lia|]. replace (4 * i + 2 + 1) with (4 * i + 3) by lia.
    apply wp_bind; eapply wp_opt; [apply exact_Some; lia|].
    apply wp_bind; eapply wp_opt; [apply rnd_next; lia|]. replace (4 * i + 3 + 1) with (4 * i + 4) by lia.
    apply wp_bind; eapply wp_opt; [apply exact_Some; lia|].
    apply wp_bind, wp_write; [unfold valid, within; by zcases|by rewrite Hsg by lia|].
    apply wp_bind; eapply wp_opt; [apply rnd_next; lia|]. apply wp_ret.
    replace (4 * i + 4 + 1) with (4 * (i + 1) + 1) by lia. split_and!; [done|done|auto|].
    intros j Hj'. destruct (Z.eq_dec j i) as [->|]; [by left|right; apply Hj; lia].
  - intros s kn' ev' (-> & -> & Hk & Hj). apply wp_ret. by apply HPhi.
Qed.
End Init.

(** ** Partitions *)

Definition cut (P total : Z) (p : nat) : Z := Z.of_nat p * total / P.

Lemma cut_next P total p :
  0 < P -> 0 <= total ->
  cut P total (S p) = cut P total p + total / P + ((Z.of_nat p * total) mod P + total mod P) / P /\
  (Z.of_nat (S p) * total) mod P = ((Z.of_nat p * total) mod P + total mod P) mod P.
Proof.
  intros HP Ht. unfold cut. replace (Z.of_nat (S p) * total) with (Z.of_nat p * total + total) by lia.
  split; [|by rewrite Z.add_mod by lia].
  set (x := Z.of_nat p * total).
  pose proof (Z.div_mod x P ltac:(lia)). pose proof (Z.div_mod total P ltac:(lia)).
  replace (x + total) with ((x mod P + total mod P) + (x / P + total / P) * P) by lia.
  rewrite Z.div_add by lia. lia.
Qed.

Lemma cut_lt P total p : 0 < P -> 0 < total -> cut P total p < total <-> Z.of_nat p < P.
Proof.
  intros HP Ht. unfold cut. split; intros H.
  - destruct (Z.lt_ge_cases (Z.of_nat p) P); [done|]. exfalso.
    assert (total <= Z.of_nat p * total / P); [|lia]. apply Z.div_le_lower_bound; nia.
  - apply Z.div_lt_upper_bound; nia.
Qed.

Lemma partition_loop_spec fuel P total p :
  0 < P -> 0 < total -> Z.of_nat p <= P -> (Z.to_nat P - p < fuel)%nat ->
  partition_loop fuel P total (Z.quot total P) (Z.rem total P) (cut P total p) ((Z.of_nat p * total) mod P) (P + 1)
    (cut P total <$> seq 0 p) = Some (cut P total <$> seq 0 (S (Z.to_nat P))).
Proof.
  intros HP Ht. revert p. induction fuel as [|fuel IH]; intros p Hp Hf; [lia|]. cbn [partition_loop].
  rewrite length_fmap, length_seq.
  destruct (Z.leb_spec (P + 1) (Z.of_nat p)); [lia|].
  pose proof (cut_lt P total p HP Ht) as Hlt. destruct (Z.ltb_spec (cut P total p) total) as [Hc|Hc].
  - rewrite Z.quot_div_nonneg, !Z.rem_mod_nonneg by lia.
    pose proof (Z.mod_pos_bound (Z.of_nat p * total) P HP). pose proof (Z.mod_pos_bound total P HP).
    rewrite (Z.quot_div_nonneg (_ + _)), Z.rem_mod_nonneg by lia.
    destruct (cut_next P total p HP ltac:(lia)) as [E1 E2]. rewrite <- E1, <- E2.
    change [cut P total p] with (cut P total <$> [p]). rewrite <- fmap_app.
    replace (seq 0 p ++ [p]) with (seq 0 (S p)) by (by rewrite seq_S).
    rewrite <- (IH (S p)) by lia. rewrite Z.quot_div_nonneg, Z.rem_mod_nonneg by lia. done.
  - assert (Z.of_nat p = P) as Ep by lia. assert (Z.to_nat P = p) as -> by lia.
    rewrite seq_S, fmap_app. simpl. do 3 f_equal. unfold cut. rewrite Ep. rewrite Z.mul_comm, Z.div_mul; lia.
Qed.

(** The loop of [main] fills exactly the [P + 1] entries of the array, for
    any number of processors and of keys, also when there are fewer keys than
    processors. *)
Lemma partition_spec P total :
  0 < P -> 0 < total -> partition P total = Some (cut P total <$> seq 0 (S (Z.to_nat P))).
Proof.
  intros HP Ht. unfold partition. rewrite <- (partition_loop_spec (Z.to_nat P + 2) P total 0) by lia.
  unfold cut. simpl. by rewrite Z.div_0_l, Z.mod_0_l by lia.
Qed.

Lemma cut_0 P total : cut P total 0 = 0.
Proof. unfold cut. simpl. apply Zdiv_0_l. Qed.
Lemma cut_last P total : 0 < P -> cut P total (Z.to_nat P) = total.
Proof. intros. unfold cut. rewrite Z2Nat.id by lia. rewrite Z.mul_comm. apply Z.div_mul. lia. Qed.
Lemma cut_mono P total p q : 0 < P -> 0 <= total -> (p <= q)%nat -> cut P total p <= cut P total q.
Proof. intros. unfold cut. apply Z.div_le_mono; nia. Qed.

(** ** Logarithm and digits *)

Lemma log_2_loop_spec fuel number out :
  0 <= out <= 50 -> (Z.to_nat (50 - out) < fuel)%nat ->
  exists out', log_2_loop fuel number (2 ^ out) out = (2 ^ out', out') /\ out <= out' <= 50 /\
    (out' = 50 \/ number <= 2 ^ out') /\ (out < out' -> 2 ^ (out' - 1) < number).
Proof.
  revert out. induction fuel as [|fuel IH]; intros out Ho Hf; [lia|]. cbn [log_2_loop].
  destruct (Z.ltb_spec (2 ^ out) number) as [Hlt|]; simpl.
  - destruct (Z.ltb_spec out 50) as [H50|]; simpl.
    + replace (2 ^ out * 2) with (2 ^ (out + 1)) by (rewrite Z.pow_add_r by lia; lia).
      destruct (IH (out + 1) ltac:(lia) ltac:(lia)) as (o' & E & ? & ? & ?). exists o'. split_and!; [done|lia|lia|done|].
      intros _. destruct (Z.eq_dec o' (out + 1)) as [->|]; [by replace (out + 1 - 1) with out by lia|apply H1; lia].
    + exists out. split_and!; [done|lia|lia|left; lia|lia].
  - exists out. split_and!; [done|lia|lia|by right|lia].
Qed.

(** [log_2] is the logarithm of the powers of two up to 2^50 and -1 for every
    other number. *)
Lemma log_2_spec number k : 0 <= k -> log_2 number = k <-> number = 2 ^ k /\ k <= 50.
Proof.
  intros Hk. unfold log_2. destruct (log_2_loop_spec 51 number 0 ltac:(lia) ltac:(lia)) as (o & E & Ho & Hn & Hl).
  change (2 ^ 0) with 1 in E. rewrite E. destruct (Z.eqb_spec (2 ^ o) number) as [<-|Hne].
  - split; [intros ->; split; [done|lia]|]. intros [E2 _]. apply Z.pow_inj_r in E2; lia.
  - split; [lia|]. intros [-> Hk50]. exfalso. apply Hne. f_equal.
    assert (0 < o -> o - 1 < k) as Hl' by (intros H; apply Hl in H; apply Z.pow_lt_mono_r_iff in H; lia).
    destruct Hn as [->|Hle]; [lia|]. apply Z.pow_le_mono_r_iff in Hle; lia.
Qed.

Lemma max_digits_loop_spec fuel r v d :
  2 <= r -> 0 <= v < 2 ^ Z.of_nat fuel -> (0 < fuel)%nat ->
  exists n, max_digits_loop fuel r v d = Some (d + n) /\ 0 <= n /\ v < r ^ (n + 1) /\ (0 < n -> r ^ n <= v).
Proof.
  intros Hr. revert v d. induction fuel as [|fuel IH]; intros v d Hv Hf; [lia|]. cbn [max_digits_loop].
  rewrite Z.quot_div_nonneg by lia. pose proof (Z.div_mod v r ltac:(lia)). pose proof (Z.mod_pos_bound v r ltac:(lia)).
  pose proof (Z.div_pos v r ltac:(lia) ltac:(lia)).
  destruct (Z.eqb_spec (v / r) 0) as [E0|E0].
  { exists 0. split_and!; [f_equal; lia|lia| |lia]. rewrite Z.pow_1_r. nia. }
  rewrite Nat2Z.inj_succ, Z.pow_succ_r in Hv by lia.
  assert (0 < fuel)%nat by (destruct fuel; [simpl in Hv; nia|lia]).
  destruct (IH (v / r) (d + 1)) as (n & -> & Hn & Hub & Hlb); [nia|done|].
  exists (n + 1). split_and!; [f_equal; lia|lia| |].
  - rewrite (Z.pow_add_r r (n + 1)) by lia. rewrite Z.pow_1_r. nia.
  - intros _. rewrite Z.pow_add_r, Z.pow_1_r by lia. destruct (Z.eq_dec n 0) as [->|]; [rewrite Z.pow_0_r; nia|].
    specialize (Hlb ltac:(lia)). nia.
Qed.

(** The number of digits of the largest key, for a radix of at least two. *)
Lemma get_max_digits_spec r mk :
  2 <= r -> 0 <= mk < 2 ^ 64 ->
  exists d, get_max_digits r mk = Some d /\ 1 <= d /\ mk < r ^ d /\ (1 < d -> r ^ (d - 1) <= mk).
Proof.
  intros Hr Hm. destruct (max_digits_loop_spec 64 r mk 1) as (n & E & Hn & Hub & Hlb); [done|done|lia|].
  exists (1 + n). split_and!; [done|lia|by rewrite Z.add_comm|]. intros H. replace (1 + n - 1) with n by lia. apply Hlb. lia.
Qed.

(** With the radix 1, which the options accept, the loop never ends. *)
Lemma get_max_digits_one fuel mk d : 0 < mk -> max_digits_loop fuel 1 mk d = None.
Proof.
  intros Hm. revert d. induction fuel as [|fuel IH]; intros d; [done|]. cbn [max_digits_loop].
  rewrite Z.quot_1_r. destruct (Z.eqb_spec mk 0); [lia|apply IH].
Qed.

(** ** What the generator and the partition promise *)

(** C31. The arithmetic in doubles is exact: [product_mod_46] never needs more
    than 53 bits and is the product modulo 2^46, and [ran_num_init] is the
    [k]-th number of the generator, in at most 64 rounds. *)
Theorem ran_num_exact k b t :
  0 <= k < 2 ^ 64 -> 0 <= b < 2 ^ 46 -> 0 <= t < 2 ^ 46 ->
  product_mod_46 b t = Some ((b * t) mod 2 ^ 46) /\ ran_num_init k b t = Some ((b * t ^ k) mod 2 ^ 46).
Proof. intros. split; [by apply product_mod_46_spec|by apply ran_num_init_spec]. Qed.

Lemma ran_num_exact_witness :
  product_mod_46 SEED RATIO = Some ((SEED * RATIO) mod 2 ^ 46) /\
  ran_num_init 1048577 SEED RATIO = Some ((SEED * RATIO ^ 1048577) mod 2 ^ 46).
Proof. apply (ran_num_exact 1048577 SEED RATIO); [lia|done|done]. Defined.

(** The partition of keys and of ranks: the loop fills exactly the
    [P + 1] entries of the array, the parts cover everything from 0 to the
    total, and their sizes differ by at most one, also when there are fewer
    elements than processors. *)
Lemma partition_balanced P total :
  0 < P -> 0 < total ->
  exists part, partition P total = Some part /\ zlen part = P + 1 /\ znth part 0 = Some 0 /\ znth part P = Some total /\
    forall p x y, znth part p = Some x -> znth part (p + 1) = Some y -> y - x = total / P \/ y - x = total / P + 1.
Proof.
  intros HP Ht. exists (cut P total <$> seq 0 (S (Z.to_nat P))).
  assert (forall p x, znth (cut P total <$> seq 0 (S (Z.to_nat P))) p = Some x -> 0 <= p <= P /\ x = cut P total (Z.to_nat p)) as Hnth.
  { intros p x Hx. pose proof (znth_bound _ _ _ Hx) as Hb. rewrite length_fmap, length_seq in Hb.
    replace p with (Z.of_nat (Z.to_nat p)) in Hx by lia. rewrite znth_nat, list_lookup_fmap, lookup_seq_lt in Hx by lia.
    injection Hx as <-. split; [lia|done]. }
  split_and!.
  - by apply partition_spec.
  - rewrite length_fmap, length_seq. lia.
  - simpl. by rewrite cut_0.
  - rewrite <- (Z2Nat.id P) at 3 by lia. rewrite znth_nat, list_lookup_fmap, lookup_seq_lt by lia. simpl. by rewrite cut_last.
  - intros p x y [Hp ->]%Hnth [Hp' ->]%Hnth. replace (Z.to_nat (p + 1)) with (S (Z.to_nat p)) by lia.
    destruct (cut_next P total (Z.to_nat p) HP ltac:(lia)) as [-> _].
    pose proof (Z.mod_pos_bound (Z.of_nat (Z.to_nat p) * total) P HP). pose proof (Z.mod_pos_bound total P HP).
    set (e := _ mod P + total mod P) in *. assert (0 <= e / P < 2); [|lia].
    split; [apply Z.div_pos; lia|apply Z.div_lt_upper_bound; lia].
Qed.

Lemma partition_balanced_witness :
  exists part, partition 7 3 = Some part /\ zlen part = 7 + 1 /\ znth part 0 = Some 0 /\ znth part 7 = Some 3 /\
    forall p x y, znth part p = Some x -> znth part (p + 1) = Some y -> y - x = 3 / 7 \/ y - x = 3 / 7 + 1.
Proof. apply (partition_balanced 7 3); lia. Defined.
End RadixKeys.
