(* ===== verification/RadixTree.v ===== *)
(** * RadixTree: the prefix tree of the radix sort

    For [P = 2^h] threads the nodes of [prefix_tree] form a binary tree: the
    [2^(h-k)] nodes of level [k] start at index [base k].  Node [(k, o)] covers
    the threads from [o * 2^k] on, [2^k] of them, and belongs to the last one.
    This file has the arithmetic of the tree, the events of every thread on
    the way up and on the way down and that they fit together. *)

From stdpp Require Import base list option sets.
From S2P Require Import Prelude Phases.
Local Open Scope Z_scope.

Module RadixTree.

(** ** Powers of two and trailing ones *)

Definition pw (n : nat) : Z := 2 ^ Z.of_nat n.

Lemma pw_0 : pw 0 = 1.
Proof. done. Qed.
Lemma pw_S n : pw (S n) = 2 * pw n.
Proof. unfold pw. rewrite Nat2Z.inj_succ, Z.pow_succ_r; lia. Qed.
Lemma pw_pos n : 0 < pw n.
Proof. unfold pw. apply Z.pow_pos_nonneg; lia. Qed.
Lemma pw_add n m : pw (n + m) = pw n * pw m.
Proof. unfold pw. rewrite Nat2Z.inj_add, Z.pow_add_r; lia. Qed.
Lemma pw_split n m : (m <= n)%nat -> pw n = pw (n - m) * pw m.
Proof. intros. rewrite <- pw_add. f_equal. lia. Qed.
Lemma pw_le n m : (n <= m)%nat -> pw n <= pw m.
Proof. intros. unfold pw. apply Z.pow_le_mono_r; lia. Qed.
Lemma pw_lt n m : (n < m)%nat -> pw n < pw m.
Proof. intros. unfold pw. apply Z.pow_lt_mono_r; lia. Qed.

Lemma div_pw_S t k : t / pw (S k) = t / pw k / 2.
Proof. pose proof (pw_pos k). rewrite pw_S, Z.mul_comm, Z.div_div by lia. done. Qed.
Lemma half_inj a b : a mod 2 = b mod 2 -> a / 2 = b / 2 -> a = b.
Proof. intros. pose proof (Z.div_mod a 2 ltac:(lia)). pose proof (Z.div_mod b 2 ltac:(lia)). lia. Qed.
Lemma shiftr_1 z : Z.shiftr z 1 = z / 2.
Proof. by rewrite Z.shiftr_div_pow2 by lia. Qed.
Lemma land_1 z : Z.land z 1 = z mod 2.
Proof. change 1 with (Z.ones 1). by rewrite Z.land_ones by lia. Qed.

(** The last [k] bits of [t] are ones: thread [t] has a node of level [k]. *)
Definition ones (k : nat) (t : Z) : Prop := t mod pw k = pw k - 1.

Lemma ones_0 t : ones 0 t.
Proof. unfold ones. rewrite pw_0. apply Z.mod_1_r. Qed.

Lemma mod_pw_S t k : t mod pw (S k) = t mod pw k + pw k * ((t / pw k) mod 2).
Proof. pose proof (pw_pos k). rewrite pw_S, (Z.mul_comm 2), Z.rem_mul_r by lia. done. Qed.

Lemma ones_S k t : ones (S k) t <-> ones k t /\ (t / pw k) mod 2 = 1.
Proof.
  unfold ones. rewrite mod_pw_S, pw_S. pose proof (pw_pos k).
  pose proof (Z.mod_pos_bound t (pw k) ltac:(lia)). pose proof (Z.mod_pos_bound (t / pw k) 2 ltac:(lia)). nia.
Qed.

Lemma ones_le j k t : (j <= k)%nat -> ones k t -> ones j t.
Proof. induction 1 as [|k _ IH]; [done|]. intros [? _]%ones_S. auto. Qed.

(** A thread is known by a node of its own. *)
Lemma ones_eq k t : ones k t -> t = t / pw k * pw k + pw k - 1.
Proof. unfold ones. pose proof (pw_pos k). pose proof (Z.div_mod t (pw k) ltac:(lia)). lia. Qed.

Lemma owner_ones k o : ones k (o * pw k + pw k - 1) /\ (o * pw k + pw k - 1) / pw k = o.
Proof.
  unfold ones. pose proof (pw_pos k). replace (o * pw k + pw k - 1) with (pw k - 1 + o * pw k) by lia.
  rewrite Z.mod_add, Z.div_add, Z.mod_small, Z.div_small by lia. lia.
Qed.

(** The number of trailing ones of [t]. *)
Fixpoint trail (n : nat) (t : Z) : nat :=
  match n with O => O | S n => if t mod 2 =? 0 then O else S (trail n (t / 2)) end.

Lemma trail_spec n t : 0 <= t < pw n ->
  (trail n t <= n)%nat /\ ones (trail n t) t /\ (t / pw (trail n t)) mod 2 = 0.
Proof.
  revert t. induction n as [|n IH]; intros t Ht; simpl.
  { rewrite pw_0 in *. split_and!; [lia|apply ones_0|]. by replace t with 0 by lia. }
  destruct (Z.eqb_spec (t mod 2) 0) as [E|E].
  { split_and!; [lia|apply ones_0|]. rewrite pw_0. by rewrite Z.div_1_r. }
  rewrite pw_S in Ht. pose proof (Z.div_mod t 2 ltac:(lia)). pose proof (Z.mod_pos_bound t 2 ltac:(lia)).
  destruct (IH (t / 2) ltac:(lia)) as (Hl & Ho & He). set (k := trail n (t / 2)) in *.
  assert (t / pw (S k) = t / 2 / pw k) as Hd by (pose proof (pw_pos k); rewrite pw_S, Z.div_div; lia).
  split_and!; [lia| |by rewrite Hd].
  unfold ones in *. rewrite pw_S. pose proof (pw_pos k). rewrite Z.rem_mul_r by lia. lia.
Qed.

Lemma trail_unique n t k : 0 <= t < pw n -> ones k t -> (t / pw k) mod 2 = 0 -> trail n t = k.
Proof.
  intros Ht Ho He. destruct (trail_spec n t Ht) as (_ & Ho' & He').
  destruct (Nat.lt_trichotomy (trail n t) k) as [H|[H|H]]; [|done|].
  - apply (ones_le (S (trail n t)) k) in Ho; [|lia]. apply ones_S in Ho as [_ ?]. lia.
  - apply (ones_le (S k) (trail n t)) in Ho'; [|lia]. apply ones_S in Ho' as [_ ?]. lia.
Qed.

Lemma trail_ge n t k : 0 <= t < pw n -> ones k t -> (k <= trail n t)%nat.
Proof.
  intros Ht Ho. destruct (trail_spec n t Ht) as (_ & Ho' & He').
  destruct (decide (k <= trail n t)%nat); [done|].
  apply (ones_le (S (trail n t)) k) in Ho; [|lia]. apply ones_S in Ho as [_ ?]. lia.
Qed.

Lemma trail_lt_ones n t k : 0 <= t < pw n -> (k < trail n t)%nat -> ones (S k) t.
Proof. intros Ht Hk. apply (ones_le _ (trail n t)); [lia|]. by apply trail_spec. Qed.

(** ** Nodes *)

Section Tree.
Context (h : nat).
Local Abbreviation P := (pw h).

Definition base (k : nat) : Z := pw (S h) - pw (S h - k).
Definition node (k : nat) (o : Z) : Z := base k + o.

Lemma base_0 : base 0 = 0.
Proof. unfold base. rewrite Nat.sub_0_r. lia. Qed.
Lemma base_S k : (k <= h)%nat -> base (S k) = base k + P / pw k.
Proof.
  intros Hk. unfold base. pose proof (pw_pos k). rewrite (pw_split h k Hk), Z.div_mul by lia.
  replace (S h - k)%nat with (S (h - k)) by lia. rewrite (pw_S (h - k)). replace (S h - S k)%nat with (h - k)%nat by lia. lia.
Qed.
Lemma level_size k : (k <= h)%nat -> P / pw k = pw (h - k).
Proof. intros Hk. pose proof (pw_pos k). by rewrite (pw_split h k Hk), Z.div_mul by lia. Qed.
Lemma base_root : base h = 2 * P - 2.
Proof. unfold base. replace (S h - h)%nat with 1%nat by lia. rewrite pw_S. change (pw 1) with 2. lia. Qed.
Lemma base_end : base (S h) = 2 * P - 1.
Proof. unfold base. rewrite Nat.sub_diag, pw_S. change (pw 0) with 1. lia. Qed.

(** [(k, o)] is a node of the tree. *)
Definition in_tree (k : nat) (o : Z) : Prop := (k <= h)%nat /\ 0 <= o < pw (h - k).

Lemma base_mono k k' : (k <= k')%nat -> (k' <= S h)%nat -> base k <= base k'.
Proof. intros. unfold base. pose proof (pw_le (S h - k') (S h - k) ltac:(lia)). lia. Qed.

Lemma node_range k o : in_tree k o -> base k <= node k o < base (S k).
Proof. intros [Hk Ho]. rewrite base_S, level_size by done. unfold node. lia. Qed.

Lemma node_bound k o : in_tree k o -> 0 <= node k o < 2 * P - 1.
Proof.
  intros H. pose proof (node_range k o H). destruct H as [Hk _]. rewrite <- base_end.
  pose proof (base_mono 0 k ltac:(lia) ltac:(lia)). rewrite base_0 in *.
  pose proof (base_mono (S k) (S h) ltac:(lia) ltac:(lia)). lia.
Qed.

Lemma node_lt k o k' o' : in_tree k o -> in_tree k' o' -> (k < k')%nat -> node k o < node k' o'.
Proof.
  intros H H' Hk. pose proof (node_range k o H). pose proof (node_range k' o' H').
  destruct H'. pose proof (base_mono (S k) k' ltac:(lia) ltac:(lia)). lia.
Qed.

Lemma node_inj k o k' o' : in_tree k o -> in_tree k' o' -> node k o = node k' o' -> k = k' /\ o = o'.
Proof.
  intros H H' E. destruct (Nat.lt_trichotomy k k') as [Hk|[->|Hk]].
  - pose proof (node_lt _ _ _ _ H H' Hk). lia.
  - unfold node in E. split; [done|lia].
  - pose proof (node_lt _ _ _ _ H' H Hk). lia.
Qed.

(** The level and the offset of the node with index [n]. *)
Definition lev (n : Z) : nat := (h - Z.to_nat (Z.log2 (2 * P - 1 - n)))%nat.
Definition off (n : Z) : Z := n - base (lev n).

Lemma lev_node k o : in_tree k o -> lev (node k o) = k.
Proof.
  intros [Hk Ho]. unfold lev, node, base. rewrite (pw_S h).
  replace (S h - k)%nat with (S (h - k)) by lia. rewrite (pw_S (h - k)).
  rewrite (Z.log2_unique _ (Z.of_nat (h - k))); [lia|lia|].
  fold (pw (h - k)). replace (Z.succ (Z.of_nat (h - k))) with (Z.of_nat (S (h - k))) by lia.
  fold (pw (S (h - k))). rewrite pw_S. lia.
Qed.
Lemma off_node k o : in_tree k o -> off (node k o) = o.
Proof. intros H. unfold off. rewrite lev_node by done. unfold node. lia. Qed.

Lemma node_lev_off n : 0 <= n < 2 * P - 1 -> in_tree (lev n) (off n) /\ n = node (lev n) (off n).
Proof.
  intros Hn. unfold off, node. split; [|lia]. unfold in_tree, lev, base. rewrite pw_S.
  set (d := 2 * P - 1 - n). assert (0 < d < 2 * P) as Hd by lia.
  pose proof (Z.log2_nonneg d). destruct (Z.log2_spec d ltac:(lia)) as [Hl Hu].
  assert (Z.log2 d < Z.of_nat (S h)) as Hlt by (apply Z.log2_lt_pow2; [lia|]; fold (pw (S h)); rewrite pw_S; lia).
  set (j := Z.to_nat (Z.log2 d)) in *. assert (Z.log2 d = Z.of_nat j) as Ej by lia.
  rewrite Ej in Hl, Hu. fold (pw j) in Hl. rewrite <- Nat2Z.inj_succ in Hu. fold (pw (S j)) in Hu.
  replace (S h - (h - j))%nat with (S j) by lia. replace (h - (h - j))%nat with j by lia.
  rewrite pw_S in *. lia.
Qed.

(** The nodes above a thread. *)
Lemma above_in_tree k t : (k <= h)%nat -> 0 <= t < P -> in_tree k (t / pw k).
Proof.
  intros Hk Ht. split; [done|]. pose proof (pw_pos k).
  split; [apply Z.div_pos; lia|]. apply Z.div_lt_upper_bound; [done|]. rewrite Z.mul_comm, <- pw_split; lia.
Qed.
Lemma owner_in_range k o : in_tree k o -> 0 <= o * pw k + pw k - 1 < P.
Proof. intros [Hk Ho]. pose proof (pw_pos k). rewrite (pw_split h k Hk). nia. Qed.

(** The index behind the root, [2P - 1], counts as one more level: its flag is
    set and never waited for. *)
Definition in_tree' (k : nat) (o : Z) : Prop := in_tree k o \/ k = S h /\ o = 0.

Lemma node_lt' k o k' o' : in_tree' k o -> in_tree' k' o' -> (k < k')%nat -> node k o < node k' o'.
Proof.
  intros [H|[-> ->]] [H'|[-> ->]] Hk; [by apply node_lt| |destruct H'; lia|lia].
  pose proof (node_bound k o H). unfold node at 2. rewrite base_end. lia.
Qed.

Lemma node_inj' k o k' o' : in_tree' k o -> in_tree' k' o' -> node k o = node k' o' -> k = k' /\ o = o'.
Proof.
  intros H H' E. destruct (Nat.lt_trichotomy k k') as [Hk|[->|Hk]].
  - pose proof (node_lt' _ _ _ _ H H' Hk). lia.
  - unfold node in E. split; [done|lia].
  - pose proof (node_lt' _ _ _ _ H' H Hk). lia.
Qed.

Lemma above_in_tree' k t : (k <= S h)%nat -> 0 <= t < P -> in_tree' k (t / pw k).
Proof.
  intros Hk Ht. destruct (decide (k = S h)) as [->|]; [|left; apply above_in_tree; [lia|done]].
  right. split; [done|]. apply Z.div_small. rewrite pw_S. lia.
Qed.

(** Two threads that both own the node [(k, o)] are the same. *)
Lemma owner_unique k t t' : ones k t -> ones k t' -> t / pw k = t' / pw k -> t = t'.
Proof. intros ?%ones_eq ?%ones_eq E. rewrite E in *. lia. Qed.

(** Only the last thread has all its bits set. *)
Lemma ones_last t : 0 <= t < P -> ones h t <-> t = P - 1.
Proof. intros Ht. unfold ones. rewrite Z.mod_small by done. done. Qed.

Lemma trail_lt t : 0 <= t < P -> t <> P - 1 -> (trail h t < h)%nat.
Proof.
  intros Ht Hl. destruct (trail_spec h t Ht) as (Hk & Ho & _).
  destruct (decide (trail h t = h)) as [E|]; [|lia]. rewrite E in Ho. apply (ones_last t Ht) in Ho. lia.
Qed.
Lemma trail_last : trail h (P - 1) = h.
Proof.
  pose proof (pw_pos h). apply trail_unique; [lia|by apply ones_last; lia|]. by rewrite Z.div_small by lia.
Qed.

(** ** The events on the way up *)

(** On the way up thread [t] waits for the left neighbour of its node on every
    level below its last one, and then tells the right neighbour. *)
Definition up_from (k : nat) (t : Z) : list event :=
  ((fun j => EWait (node (S j) (t / pw (S j)))) <$> seq k (trail h t - k)) ++
  [ESet (node (S (trail h t)) (t / pw (S (trail h t))))].
Definition up_evs (t : Z) : list event := up_from 0 t.

Lemma up_from_S k t : (k < trail h t)%nat -> up_from k t = EWait (node (S k) (t / pw (S k))) :: up_from (S k) t.
Proof.
  intros Hk. unfold up_from. destruct (trail h t - k)%nat as [|n] eqn:E; [lia|].
  replace (trail h t - S k)%nat with n by lia. done.
Qed.
Lemma up_from_end t : up_from (trail h t) t = [ESet (node (S (trail h t)) (t / pw (S (trail h t))))].
Proof. unfold up_from. by rewrite Nat.sub_diag. Qed.

Lemma up_wait t f : EWait f ∈ up_evs t <-> exists k, (k < trail h t)%nat /\ f = node (S k) (t / pw (S k)).
Proof.
  unfold up_evs, up_from. rewrite elem_of_app, list_elem_of_fmap, list_elem_of_singleton. split.
  - intros [(k & [= ->] & Hk%elem_of_seq)|]; [|done]. exists k. split; [lia|done].
  - intros (k & Hk & ->). left. exists k. split; [done|]. apply elem_of_seq. lia.
Qed.
Lemma up_set t f : ESet f ∈ up_evs t <-> f = node (S (trail h t)) (t / pw (S (trail h t))).
Proof.
  unfold up_evs, up_from. rewrite elem_of_app, list_elem_of_fmap, list_elem_of_singleton. split.
  - intros [(k & [=] & _)|[= ->]]; done.
  - intros ->. by right.
Qed.

Lemma NoDup_levels (g : nat -> event) n :
  (forall j k, (j < n)%nat -> (k < n)%nat -> g j = g k -> j = k) -> NoDup (g <$> seq 0 n).
Proof.
  intros H. apply NoDup_fmap_2_strong; [|apply NoDup_seq].
  intros j k [_ Hj]%elem_of_seq [_ Hk]%elem_of_seq. apply H; lia.
Qed.

(** The thread that tells the owner [t] of node [(k+1, o)]: it owns the left
    child. *)
Lemma up_setter k t : 0 <= t < P -> ones (S k) t ->
  0 <= t - pw k < P /\ trail h (t - pw k) = k /\ (t - pw k) / pw (S k) = t / pw (S k).
Proof.
  intros Ht Ho. pose proof (pw_pos k). pose proof (ones_eq _ _ Ho) as E. rewrite pw_S in E.
  set (o := t / (2 * pw k)) in *. assert (0 <= o) by (apply Z.div_pos; lia).
  assert (t - pw k = (2 * o) * pw k + pw k - 1) as Et by lia.
  assert (0 <= t - pw k < P) as Hr by (split; [nia|lia]).
  destruct (owner_ones k (2 * o)) as [Ho1 Hd1]. rewrite <- Et in Ho1, Hd1.
  split_and!; [lia|lia| |].
  - apply trail_unique; [done|done|]. rewrite Hd1, Z.mul_comm. apply Z.mod_mul. lia.
  - rewrite div_pw_S, Hd1, pw_S. fold o. rewrite Z.mul_comm. apply Z.div_mul. lia.
Qed.

Lemma up_schedule fl :
  (forall f, 0 <= f < 2 * P - 1 -> fl f = false) ->
  schedule (Z.to_nat P) fl (fun t => up_evs (Z.of_nat t)) Z.to_nat.
Proof.
  intros Hfl. pose proof (pw_pos h) as HP. split.
  - intros t Ht. apply NoDup_app. split_and!.
    + rewrite Nat.sub_0_r. apply NoDup_levels. intros j k Hj Hk [= E].
      pose proof (trail_spec h (Z.of_nat t) ltac:(lia)).
      apply node_inj in E as [E _]; [lia|apply above_in_tree; lia|apply above_in_tree; lia].
    + intros e (j & -> & _)%list_elem_of_fmap. by intros ?%list_elem_of_singleton.
    + apply NoDup_singleton.
  - intros t t' [f|f] Ht Ht'.
    + rewrite !up_set. intros -> E.
      destruct (trail_spec h (Z.of_nat t) ltac:(lia)) as (Hk & Ho & He).
      destruct (trail_spec h (Z.of_nat t') ltac:(lia)) as (Hk' & Ho' & He').
      apply node_inj' in E as [[= E] Eo]; [|apply above_in_tree'; lia|apply above_in_tree'; lia].
      rewrite <- E in *. apply Nat2Z.inj, (owner_unique (trail h (Z.of_nat t))); [done|done|].
      rewrite !div_pw_S in Eo. apply half_inj; congruence.
    + rewrite !up_wait. intros (k & Hk & ->) (k' & Hk' & E).
      pose proof (trail_spec h (Z.of_nat t) ltac:(lia)). pose proof (trail_spec h (Z.of_nat t') ltac:(lia)).
      apply node_inj in E as [[= <-] Eo]; [|apply above_in_tree; lia|apply above_in_tree; lia].
      apply Nat2Z.inj, (owner_unique (S k)); [apply (trail_lt_ones h); lia|apply (trail_lt_ones h); lia|done].
  - intros t f Ht (k & Hk & ->)%up_wait. pose proof (trail_spec h (Z.of_nat t) ltac:(lia)).
    split; [apply Hfl, node_bound, above_in_tree; lia|].
    destruct (up_setter k (Z.of_nat t)) as (Hr & Htr & Hd); [lia|apply (trail_lt_ones h); lia|].
    exists (Z.to_nat (Z.of_nat t - pw k)). split; [lia|]. apply up_set. rewrite Z2Nat.id by lia. by rewrite Htr, Hd.
  - intros t f f' a b Ht E Hin.
    assert (EWait f' ∈ up_evs (Z.of_nat t)) as (k & Hk & ->)%up_wait by (rewrite E; set_solver).
    assert (ESet f ∈ up_evs (Z.of_nat t)) as ->%up_set by (rewrite E; set_solver).
    pose proof (trail_spec h (Z.of_nat t) ltac:(lia)).
    assert (in_tree (S k) (Z.of_nat t / pw (S k))) as Hin1 by (apply above_in_tree; lia).
    pose proof (node_bound _ _ Hin1).
    pose proof (node_lt' (S k) (Z.of_nat t / pw (S k)) (S (trail h (Z.of_nat t))) (Z.of_nat t / pw (S (trail h (Z.of_nat t))))
      ltac:(by left) ltac:(apply above_in_tree'; lia) ltac:(lia)). lia.
Qed.

(** After the way up every flag of the tree is down again. *)
Lemma up_flags fl f : 0 <= f < 2 * P - 1 -> fl f = false ->
  ~ flag_after (Z.to_nat P) fl (fun t => up_evs (Z.of_nat t)) f.
Proof.
  intros Hf Hfl [[?|(t & Ht & ->%up_set)] Hn]; [congruence|]. apply Hn.
  pose proof (trail_spec h (Z.of_nat t) ltac:(lia)) as (Hk & Ho & He). set (k := trail h (Z.of_nat t)) in *.
  assert (k < h)%nat as Hkh.
  { destruct (decide (k = h)) as [E|]; [|lia]. exfalso. unfold node in Hf. rewrite E, base_end in Hf.
    rewrite (Z.div_small (Z.of_nat t)) in Hf; [lia|]. rewrite pw_S. lia. }
  pose proof (above_in_tree (S k) (Z.of_nat t) ltac:(lia) ltac:(lia)) as Hin.
  pose proof (owner_in_range _ _ Hin). destruct (owner_ones (S k) (Z.of_nat t / pw (S k))) as [Ho' Hd'].
  set (t' := Z.of_nat t / pw (S k) * pw (S k) + pw (S k) - 1) in *.
  exists (Z.to_nat t'). split; [lia|]. apply up_wait. exists k. rewrite Z2Nat.id by lia. rewrite Hd'.
  split; [|done]. apply (trail_ge h) in Ho'; lia.
Qed.

(** ** The events on the way down *)

(** The last node of thread [t] on its way up. *)
Definition last_node (t : Z) : Z := node (trail h t) (t / pw (trail h t)).

(** On the way down every thread but the last waits at its last node, and then
    tells the left neighbours of its nodes. *)
Definition wake_from (k : nat) (t : Z) : list event :=
  (fun j => ESet (node j (t / pw j - 1))) <$> seq k (trail h t - k).
Definition down_evs (t : Z) : list event :=
  (if t =? P - 1 then [] else [EWait (last_node t)]) ++ wake_from 0 t.

Lemma wake_from_S k t : (k < trail h t)%nat -> wake_from k t = ESet (node k (t / pw k - 1)) :: wake_from (S k) t.
Proof.
  intros Hk. unfold wake_from. destruct (trail h t - k)%nat as [|n] eqn:E; [lia|].
  replace (trail h t - S k)%nat with n by lia. done.
Qed.
Lemma wake_from_end t : wake_from (trail h t) t = [].
Proof. unfold wake_from. by rewrite Nat.sub_diag. Qed.

Lemma down_wait t f : EWait f ∈ down_evs t <-> t <> P - 1 /\ f = last_node t.
Proof.
  unfold down_evs, wake_from. rewrite elem_of_app, list_elem_of_fmap.
  destruct (Z.eqb_spec t (P - 1)); split.
  - by intros [?%not_elem_of_nil|(? & [=] & _)].
  - by intros [? _].
  - intros [[= ->]%list_elem_of_singleton|(? & [=] & _)]; done.
  - intros [_ ->]. left. by apply list_elem_of_singleton.
Qed.
Lemma down_set t f : ESet f ∈ down_evs t <-> exists k, (k < trail h t)%nat /\ f = node k (t / pw k - 1).
Proof.
  unfold down_evs, wake_from. rewrite elem_of_app, list_elem_of_fmap. split.
  - intros [Hin|(k & [= ->] & Hk%elem_of_seq)].
    + destruct (t =? P - 1); [by apply not_elem_of_nil in Hin|]. by apply list_elem_of_singleton in Hin.
    + exists k. split; [lia|done].
  - intros (k & Hk & ->). right. exists k. split; [done|]. apply elem_of_seq. lia.
Qed.

(** The left neighbours are nodes with an even offset. *)
Lemma left_in_tree k t : 0 <= t < P -> (k < trail h t)%nat ->
  in_tree k (t / pw k - 1) /\ (t / pw k) mod 2 = 1 /\ 1 <= t / pw k /\ (k < h)%nat.
Proof.
  intros Ht Hk. destruct (trail_spec h t Ht) as (Hkh & _). pose proof (trail_lt_ones h t k Ht Hk) as [Ho Hodd]%ones_S.
  destruct (above_in_tree k t ltac:(lia) Ht) as [_ Hin].
  assert (1 <= t / pw k) by (destruct (Z.eq_dec (t / pw k) 0) as [E|]; [rewrite E in Hodd; done|lia]).
  split_and!; [split; lia|done|done|lia].
Qed.

Lemma last_in_tree t : 0 <= t < P -> in_tree (trail h t) (t / pw (trail h t)).
Proof. intros Ht. apply above_in_tree; [by apply trail_spec|done]. Qed.

Lemma last_node_inj t t' : 0 <= t < P -> 0 <= t' < P -> last_node t = last_node t' -> t = t'.
Proof.
  intros Ht Ht' E. apply node_inj in E as [E Eo]; [|by apply last_in_tree..].
  rewrite <- E in Eo. apply (owner_unique (trail h t)); [by apply trail_spec|rewrite E; by apply trail_spec|done].
Qed.

(** The thread that tells thread [t] on the way down. *)
Lemma down_setter t : 0 <= t < P -> t <> P - 1 ->
  let k := trail h t in let t' := t + pw k in
  0 <= t' < P /\ (k < trail h t')%nat /\ t' / pw k = t / pw k + 1 /\ forall j, (k < j)%nat -> t' / pw j = t / pw j.
Proof.
  intros Ht Hl k t'. destruct (trail_spec h t Ht) as (Hk & Ho & He). fold k in Hk, Ho, He.
  pose proof (trail_lt t Ht Hl) as Hkh. fold k in Hkh. pose proof (pw_pos k).
  destruct (above_in_tree k t Hk Ht) as [_ Hin].
  assert (t' / pw k = t / pw k + 1) as Hd.
  { unfold t'. replace (t + pw k) with (t + 1 * pw k) by lia. apply Z.div_add. lia. }
  pose proof (Z.div_mod (t / pw k) 2 ltac:(lia)) as Dm.
  assert (t / pw k + 1 < pw (h - k)) as Hlt.
  { replace (h - k)%nat with (S (h - S k)) in * by lia. rewrite pw_S in *. lia. }
  assert (0 <= t' < P) as Hr.
  { apply ones_eq in Ho. unfold t'. rewrite (pw_split h k Hk). split; [lia|]. nia. }
  split_and!; [lia|lia| |done|].
  - assert (ones (S k) t') as Hos.
    { apply ones_S. split.
      - unfold ones, t'. replace (t + pw k) with (t + 1 * pw k) by lia. rewrite Z.mod_add by lia. done.
      - rewrite Hd, Dm, He. replace (2 * (t / pw k / 2) + 0 + 1) with (1 + (t / pw k / 2) * 2) by lia. by rewrite Z.mod_add by lia. }
    apply (trail_ge h) in Hos; [lia|done].
  - intros j Hj. replace j with (S k + (j - S k))%nat by lia. rewrite pw_add.
    pose proof (pw_pos (S k)). pose proof (pw_pos (j - S k)). rewrite <- !Z.div_div by lia. f_equal.
    rewrite !div_pw_S, Hd, Dm, He. replace (2 * (t / pw k / 2) + 0 + 1) with (1 + (t / pw k / 2) * 2) by lia.
    replace (2 * (t / pw k / 2) + 0) with (0 + (t / pw k / 2) * 2) by lia. by rewrite !Z.div_add by lia.
Qed.

Lemma down_schedule fl :
  (forall f, 0 <= f < 2 * P - 1 -> fl f = false) ->
  schedule (Z.to_nat P) fl (fun t => down_evs (Z.of_nat t)) (fun f => Z.to_nat (2 * P - f)).
Proof.
  intros Hfl. pose proof (pw_pos h) as HP. split.
  - intros t Ht. apply NoDup_app. split_and!.
    + destruct (_ =? _); [constructor|apply NoDup_singleton].
    + intros e Hin (j & -> & _)%list_elem_of_fmap.
      destruct (_ =? _); [by apply not_elem_of_nil in Hin|by apply list_elem_of_singleton in Hin].
    + unfold wake_from. rewrite Nat.sub_0_r. apply NoDup_levels. intros j k Hj Hk [= E].
      apply node_inj in E as [E _]; [done|by apply left_in_tree; lia..].
  - intros t t' [f|f] Ht Ht'.
    + rewrite !down_set. intros (k & Hk & ->) (k' & Hk' & E).
      apply node_inj in E as [<- Eo]; [|by apply left_in_tree; lia..].
      apply Nat2Z.inj, (owner_unique k); [..|lia]; apply (ones_le k (S k)); [lia|by apply (trail_lt_ones h); lia|lia|by apply (trail_lt_ones h); lia].
    + rewrite !down_wait. intros [_ ->] [_ E]. apply last_node_inj in E; lia.
  - intros t f Ht [Hl ->]%down_wait. split; [apply Hfl, node_bound, last_in_tree; lia|].
    destruct (down_setter (Z.of_nat t)) as (Hr & Htr & Hd & _); [lia|done|].
    exists (Z.to_nat (Z.of_nat t + pw (trail h (Z.of_nat t)))). split; [lia|]. apply down_set.
    exists (trail h (Z.of_nat t)). rewrite Z2Nat.id by lia. split; [done|]. rewrite Hd. unfold last_node. f_equal. lia.
  - intros t f f' a b Ht E Hin.
    assert (EWait f' ∈ down_evs (Z.of_nat t)) as [_ ->]%down_wait by (rewrite E; set_solver).
    assert (ESet f ∈ down_evs (Z.of_nat t)) as (k & Hk & ->)%down_set by (rewrite E; set_solver).
    destruct (left_in_tree k (Z.of_nat t)) as [Hin' _]; [lia|done|].
    pose proof (last_in_tree (Z.of_nat t) ltac:(lia)) as Hin2.
    pose proof (node_lt _ _ _ _ Hin' Hin2 Hk). pose proof (node_bound _ _ Hin'). pose proof (node_bound _ _ Hin2).
    unfold last_node. lia.
Qed.

(** After the way down every flag of the tree is down again. *)
Lemma down_flags fl f : 0 <= f < 2 * P - 1 -> fl f = false ->
  ~ flag_after (Z.to_nat P) fl (fun t => down_evs (Z.of_nat t)) f.
Proof.
  intros Hf Hfl [[?|(t & Ht & (k & Hk & ->)%down_set)] Hn]; [congruence|]. apply Hn.
  destruct (left_in_tree k (Z.of_nat t)) as (Hin & Hodd & H1 & Hkh); [lia|done|].
  pose proof (owner_in_range _ _ Hin) as Hr. destruct (owner_ones k (Z.of_nat t / pw k - 1)) as [Ho Hd].
  set (t' := (Z.of_nat t / pw k - 1) * pw k + pw k - 1) in *.
  assert (trail h t' = k) as Htr.
  { apply trail_unique; [done|done|]. rewrite Hd. pose proof (Z.div_mod (Z.of_nat t / pw k) 2 ltac:(lia)) as Dm.
    rewrite Dm, Hodd. replace (2 * (Z.of_nat t / pw k / 2) + 1 - 1) with ((Z.of_nat t / pw k / 2) * 2) by lia. apply Z.mod_mul. lia. }
  exists (Z.to_nat t'). split; [lia|]. apply down_wait. rewrite Z2Nat.id by lia. split.
  - intros E. rewrite E in Htr. rewrite trail_last in Htr. lia.
  - unfold last_node. by rewrite Htr, Hd.
Qed.
End Tree.
End RadixTree.
