(* ===== verification/RadixSort.v ===== *)
(** * RadixSort: sorting by one digit, without threads

    The reference the radix sort is compared with: the keys distributed to
    buckets by a digit, in their order ([csort]), the place of every key in
    the result ([place]), and what it means for all the digits together. *)

From Stdlib Require FinFun.
From stdpp Require Import base list option sorting.
From S2P Require Import Prelude.
Local Open Scope Z_scope.

Module RadixSort.

Section Digit.
Context (dig : Z -> Z).
Implicit Types (ks : list Z).

(** The keys of the digits below [r], bucket by bucket. *)
Fixpoint csort (r : nat) ks : list Z :=
  match r with
  | O => []
  | S r => csort r ks ++ filter (fun x => dig x = Z.of_nat r) ks
  end.

(** How many keys have the digit [d], and a smaller one. *)
Definition cnt (d : Z) ks : Z := zlen (filter (fun x => dig x = d) ks).
Definition below (d : Z) ks : Z := zlen (filter (fun x => dig x < d) ks).

(** The place of the key number [i]. *)
Definition place ks (i : nat) : Z :=
  match ks !! i with
  | Some x => below (dig x) ks + cnt (dig x) (take i ks)
  | None => 0
  end.

Lemma cnt_app d a b : cnt d (a ++ b) = cnt d a + cnt d b.
Proof. unfold cnt. rewrite filter_app, length_app. lia. Qed.

Lemma cnt_snoc d a x : cnt d (a ++ [x]) = cnt d a + if decide (dig x = d) then 1 else 0.
Proof. rewrite cnt_app. unfold cnt at 2. rewrite filter_cons, filter_nil. by destruct (decide _). Qed.

Lemma cnt_nonneg d a : 0 <= cnt d a.
Proof. unfold cnt. lia. Qed.

Lemma below_succ d ks : below (d + 1) ks = below d ks + cnt d ks.
Proof.
  unfold below, cnt. induction ks as [|x ks IH]; [done|]. rewrite !filter_cons.
  destruct (decide (dig x < d + 1)), (decide (dig x < d)), (decide (dig x = d)); cbn [length]; lia.
Qed.

Lemma below_mono d d' ks : d <= d' -> below d ks <= below d' ks.
Proof.
  intros Hd. unfold below. induction ks as [|x ks IH]; [done|]. rewrite !filter_cons.
  destruct (decide (dig x < d)), (decide (dig x < d')); cbn [length]; lia.
Qed.

Lemma below_0 ks : Forall (fun x => 0 <= dig x) ks -> below 0 ks = 0.
Proof.
  unfold below. induction 1 as [|x ks ? _ IH]; [done|]. rewrite filter_cons.
  destruct (decide (dig x < 0)); [lia|done].
Qed.

Lemma below_all r ks : Forall (fun x => dig x < r) ks -> below r ks = zlen ks.
Proof.
  unfold below. induction 1 as [|x ks ? _ IH]; [done|]. rewrite filter_cons.
  destruct (decide (dig x < r)); [|lia]. cbn [length]. lia.
Qed.

Lemma csort_length r ks : Forall (fun x => 0 <= dig x) ks -> zlen (csort r ks) = below (Z.of_nat r) ks.
Proof.
  intros H. induction r as [|r IH]; [by rewrite below_0|]. simpl csort.
  rewrite length_app, Nat2Z.inj_add, IH. rewrite Nat2Z.inj_succ. unfold Z.succ. by rewrite below_succ.
Qed.

Lemma csort_perm_filter r ks : Forall (fun x => 0 <= dig x) ks -> csort r ks ≡ₚ filter (fun x => dig x < Z.of_nat r) ks.
Proof.
  intros H. induction r as [|r IH]; simpl csort.
  - induction H as [|x ks ? _ IH]; [done|]. rewrite filter_cons. by destruct (decide _); [lia|].
  - rewrite IH. clear IH H. induction ks as [|x ks IH]; [done|]. rewrite !filter_cons.
    destruct (decide (dig x < Z.of_nat r)), (decide (dig x = Z.of_nat r)), (decide (dig x < Z.of_nat (S r)));
      try lia; [by rewrite <- IH|by rewrite <- Permutation_middle, IH|done].
Qed.

(** The result has the same keys. *)
Lemma csort_perm r ks : Forall (fun x => 0 <= dig x < Z.of_nat r) ks -> csort r ks ≡ₚ ks.
Proof.
  intros H. rewrite csort_perm_filter by (eapply Forall_impl; [done|]; simpl; lia).
  induction H as [|x ks ? _ IH]; [done|]. rewrite filter_cons. destruct (decide _); [|lia]. by rewrite IH.
Qed.

Lemma csort_prefix r r' ks : (r <= r')%nat -> exists b, csort r' ks = csort r ks ++ b.
Proof.
  induction 1 as [|r' _ [b IH]]; [exists []; by rewrite app_nil_r|].
  simpl csort. rewrite IH. eexists. by rewrite <- app_assoc.
Qed.

(** The key number [i] is at its place. *)
Lemma csort_place r ks i x :
  Forall (fun x => 0 <= dig x < Z.of_nat r) ks -> ks !! i = Some x ->
  csort r ks !! Z.to_nat (place ks i) = Some x.
Proof.
  intros H Hi. unfold place. rewrite Hi.
  assert (0 <= dig x < Z.of_nat r) as Hx by (rewrite Forall_lookup in H; eauto).
  destruct (csort_prefix (S (Z.to_nat (dig x))) r ks ltac:(lia)) as [b ->]. simpl csort.
  assert (Forall (fun x => 0 <= dig x) ks) as H0 by (eapply Forall_impl; [done|]; simpl; lia).
  pose proof (csort_length (Z.to_nat (dig x)) ks H0) as Hl. rewrite Z2Nat.id in Hl by lia.
  apply take_drop_middle in Hi as Hsplit. rewrite Z2Nat.id by lia.
  rewrite <- app_assoc, lookup_app_r by (unfold cnt; lia).
  replace (Z.to_nat (below (dig x) ks + cnt (dig x) (take i ks)) - length (csort (Z.to_nat (dig x)) ks))%nat
    with (length (filter (fun y => dig y = dig x) (take i ks))) by (unfold cnt; lia).
  assert (filter (fun y => dig y = dig x) ks =
    filter (fun y => dig y = dig x) (take i ks) ++ x :: filter (fun y => dig y = dig x) (drop (S i) ks)) as ->.
  { rewrite <- Hsplit at 1. by rewrite filter_app, filter_cons_True. }
  rewrite <- app_assoc, lookup_app_r by lia. by rewrite Nat.sub_diag.
Qed.

(** Places are in range, and every place is that of one key. *)
Lemma place_bound r ks i :
  Forall (fun x => 0 <= dig x < Z.of_nat r) ks -> (i < length ks)%nat -> 0 <= place ks i < zlen ks.
Proof.
  intros H [x Hx]%lookup_lt_is_Some. pose proof (csort_place r ks i x H Hx) as Hl.
  assert (0 <= place ks i) by (unfold place; rewrite Hx; unfold below, cnt; lia).
  apply lookup_lt_Some in Hl. rewrite (csort_perm r ks H) in Hl. lia.
Qed.

Lemma cnt_take_lt ks i j x :
  ks !! i = Some x -> (i < j)%nat -> cnt (dig x) (take i ks) < cnt (dig x) (take j ks).
Proof.
  intros Hx Hij. replace j with (S i + (j - S i))%nat by lia.
  rewrite <- (take_take_drop ks (S i) (j - S i)). rewrite cnt_app, (take_S_r _ _ x) by done.
  rewrite cnt_snoc, decide_True by done. pose proof (cnt_nonneg (dig x) (take (j - S i) (drop (S i) ks))). lia.
Qed.

Lemma cnt_take_le d ks i : cnt d (take i ks) <= cnt d ks.
Proof. rewrite <- (take_drop i ks) at 2. rewrite cnt_app. pose proof (cnt_nonneg d (drop i ks)). lia. Qed.

Lemma place_lt ks i j x y :
  ks !! i = Some x -> ks !! j = Some y -> dig x < dig y -> place ks i < place ks j.
Proof.
  intros Hx Hy Hd. unfold place. rewrite Hx, Hy.
  pose proof (below_mono (dig x + 1) (dig y) ks ltac:(lia)) as Hb. rewrite below_succ in Hb.
  pose proof (cnt_take_lt ks i (length ks) x Hx ltac:(by eapply lookup_lt_Some)) as Hc.
  rewrite firstn_all in Hc. pose proof (cnt_nonneg (dig y) (take j ks)). lia.
Qed.

Lemma place_inj ks i j :
  (i < length ks)%nat -> (j < length ks)%nat -> place ks i = place ks j -> i = j.
Proof.
  intros [x Hx]%lookup_lt_is_Some [y Hy]%lookup_lt_is_Some E.
  destruct (Z.lt_trichotomy (dig x) (dig y)) as [H|[H|H]].
  - pose proof (place_lt ks i j x y Hx Hy H). lia.
  - unfold place in E. rewrite Hx, Hy, H in E.
    destruct (Nat.lt_trichotomy i j) as [Hij|[Hij|Hij]]; [|done|].
    + pose proof (cnt_take_lt ks i j x Hx Hij). rewrite H in *. lia.
    + pose proof (cnt_take_lt ks j i y Hy Hij). lia.
  - pose proof (place_lt ks j i y x Hy Hx H). lia.
Qed.

Lemma place_surj r ks j :
  Forall (fun x => 0 <= dig x < Z.of_nat r) ks -> 0 <= j < zlen ks ->
  exists i, (i < length ks)%nat /\ place ks i = j.
Proof.
  intros H Hj. pose (f := fun i => Z.to_nat (place ks i)).
  assert (FinFun.bFun (length ks) f) as Hf by (intros i Hi; pose proof (place_bound r ks i H Hi); unfold f; lia).
  destruct (proj1 (FinFun.bInjective_bSurjective Hf)) with (y := Z.to_nat j) as (i & Hi & E).
  - intros i i' Hi Hi' E. pose proof (place_bound r ks i H Hi). pose proof (place_bound r ks i' H Hi').
    apply (place_inj ks); [done..|]. unfold f in E. lia.
  - lia.
  - exists i. split; [done|]. pose proof (place_bound r ks i H Hi). unfold f in E. lia.
Qed.

(** Sorting by a digit keeps the order of the keys with the same digit. *)
Lemma StronglySorted_filter (R : relation Z) Q `{forall x, Decision (Q x)} ks :
  StronglySorted R ks -> StronglySorted R (filter Q ks).
Proof.
  induction 1 as [|x ks Hs IH Hf]; [constructor|]. rewrite filter_cons. destruct (decide (Q x)); [|done].
  constructor; [done|]. rewrite Forall_forall in *. intros y [_ Hy]%list_elem_of_filter. auto.
Qed.

Definition lex (R : relation Z) : relation Z := fun x y => dig x < dig y \/ dig x = dig y /\ R x y.

Lemma csort_stable R r ks : StronglySorted R ks -> StronglySorted (lex R) (csort r ks).
Proof.
  intros Hs. induction r as [|r IH]; simpl csort; [constructor|].
  assert (forall x r', x ∈ csort r' ks -> dig x < Z.of_nat r') as Hin.
  { intros x r'. induction r' as [|r' IH']; simpl; [by intros ?%not_elem_of_nil|].
    intros [?%IH'|[-> _]%list_elem_of_filter]%elem_of_app; lia. }
  apply StronglySorted_app_2; [|done|].
  - intros x y Hx%Hin [Hy _]%list_elem_of_filter. left. lia.
  - apply (StronglySorted_filter R (fun x => dig x = Z.of_nat r)) in Hs. revert Hs.
    assert (Forall (fun x => dig x = Z.of_nat r) (filter (fun x => dig x = Z.of_nat r) ks)) as Hf
      by (apply Forall_forall; by intros x [? _]%list_elem_of_filter).
    induction Hf as [|x l Hx Hf IHl]; [constructor|]. intros [Hl Hs]%StronglySorted_cons.
    apply StronglySorted_cons. split; [|auto]. rewrite Forall_forall in *.
    intros y Hy. right. split; [|auto]. rewrite Hx. symmetry. auto.
Qed.
End Digit.

(** ** All the digits *)

Definition digit_of (r l x : Z) : Z := (x / r ^ l) mod r.
Definition by_low (m x y : Z) : Prop := x mod m <= y mod m.

Lemma low_step r l x : 0 < r -> 0 <= l -> x mod r ^ (l + 1) = digit_of r l x * r ^ l + x mod r ^ l.
Proof.
  intros Hr Hl. unfold digit_of. rewrite Z.pow_add_r, Z.pow_1_r by lia.
  pose proof (Z.pow_pos_nonneg r l Hr Hl). rewrite Z.rem_mul_r by lia. lia.
Qed.

(** Sorting by the next digit extends the order to one more digit. *)
Lemma csort_by_low r l ks :
  0 < r -> 0 <= l -> StronglySorted (by_low (r ^ l)) ks ->
  StronglySorted (by_low (r ^ (l + 1))) (csort (digit_of r l) (Z.to_nat r) ks).
Proof.
  intros Hr Hl Hs. apply (csort_stable (digit_of r l) _ (Z.to_nat r)) in Hs.
  pose proof (Z.pow_pos_nonneg r l Hr Hl) as Hp.
  induction Hs as [|x ks' Hs IH Hf]; [constructor|]. constructor; [done|].
  eapply Forall_impl; [exact Hf|]. intros y Hxy. unfold by_low. rewrite !low_step by lia.
  pose proof (Z.mod_pos_bound x (r ^ l) Hp). pose proof (Z.mod_pos_bound y (r ^ l) Hp).
  destruct Hxy as [?|[-> ?]]; [nia|unfold by_low in *; lia].
Qed.

(** The keys sorted by their first [n] digits. *)
Fixpoint lsd (r : Z) (n : nat) (ks : list Z) : list Z :=
  match n with
  | O => ks
  | S n => csort (digit_of r (Z.of_nat n)) (Z.to_nat r) (lsd r n ks)
  end.

Lemma digit_of_bound r l x : 0 < r -> 0 <= digit_of r l x < r.
Proof. intros. by apply Z.mod_pos_bound. Qed.

Lemma digits_ok r l ks : 0 < r -> Forall (fun x => 0 <= digit_of r l x < Z.of_nat (Z.to_nat r)) ks.
Proof. intros Hr. apply Forall_true. intros x. rewrite Z2Nat.id by lia. by apply digit_of_bound. Qed.

Lemma lsd_perm r n ks : 0 < r -> lsd r n ks ≡ₚ ks.
Proof.
  intros Hr. induction n as [|n IH]; simpl; [done|]. rewrite csort_perm by (by apply digits_ok). done.
Qed.

Lemma lsd_by_low r n ks : 0 < r -> StronglySorted (by_low (r ^ Z.of_nat n)) (lsd r n ks).
Proof.
  intros Hr. induction n as [|n IH]; simpl lsd.
  - induction ks as [|x ks IH]; constructor; [done|]. apply Forall_true. intros y. unfold by_low.
    change (r ^ Z.of_nat 0) with 1. by rewrite !Z.mod_1_r.
  - rewrite Nat2Z.inj_succ. apply csort_by_low; [done|lia|done].
Qed.

(** With enough digits the keys are sorted. *)
Lemma lsd_sorted r n ks :
  0 < r -> Forall (fun x => 0 <= x < r ^ Z.of_nat n) ks -> StronglySorted Z.le (lsd r n ks).
Proof.
  intros Hr Hks. pose proof (lsd_by_low r n ks Hr) as Hs.
  assert (Forall (fun x => 0 <= x < r ^ Z.of_nat n) (lsd r n ks)) as Hb by (by rewrite lsd_perm).
  induction Hs as [|x l Hs IH Hf]; [constructor|]. apply Forall_cons in Hb as [Hx Hb].
  constructor; [auto|]. rewrite Forall_forall in *. intros y Hy. specialize (Hf y Hy). unfold by_low in Hf.
  specialize (Hb y Hy). rewrite !Z.mod_small in Hf by lia. done.
Qed.
End RadixSort.
