(* ===== verification/RadixSweeps.v ===== *)
(** * RadixSweeps: the phases of one digit of the radix sort

    What one thread does between two barriers of [sort_digit], with the memory
    at the end of the phase as the oracle of its reads: the histogram, the way
    up the prefix tree, the way down, and the permutation of the keys. *)

From stdpp Require Import base list option sets.
From S2P Require Import Prelude Phases Radix RadixTree.
Local Open Scope Z_scope.

Module RadixSweeps.
Import Radix RadixTree.

(** ** Sums over the threads *)

Fixpoint psum (f : Z -> Z) (n : nat) : Z :=
  match n with O => 0 | S n => psum f n + f (Z.of_nat n) end.
(** The sum over the threads before [z]. *)
Definition acc (f : Z -> Z) (z : Z) : Z := psum f (Z.to_nat z).
(** The sum over the threads below node [(k, o)]. *)
Definition seg (f : Z -> Z) (k : nat) (o : Z) : Z := acc f ((o + 1) * pw k) - acc f (o * pw k).

Lemma acc_0 f : acc f 0 = 0.
Proof. done. Qed.
Lemma acc_S f z : 0 <= z -> acc f (z + 1) = acc f z + f z.
Proof. intros. unfold acc. rewrite Z2Nat.inj_add by lia. change (Z.to_nat 1) with 1%nat. rewrite Nat.add_1_r. simpl. by rewrite Z2Nat.id by lia. Qed.
Lemma seg_leaf f t : 0 <= t -> seg f 0 t = f t.
Proof. intros. unfold seg. rewrite pw_0, !Z.mul_1_r, acc_S by lia. lia. Qed.
Lemma seg_S f k o : seg f (S k) o = seg f k (2 * o + 1) + seg f k (2 * o).
Proof.
  unfold seg. rewrite pw_S. replace ((o + 1) * (2 * pw k)) with ((2 * o + 1 + 1) * pw k) by lia.
  replace (o * (2 * pw k)) with (2 * o * pw k) by lia. lia.
Qed.

(** A private array of [n] elements that holds [f]. *)
Definition holds (n : Z) (a : list Z) (f : Z -> Z) : Prop :=
  zlen a = n /\ forall i, 0 <= i < n -> znth a i = Some (f i).

Lemma holds_get n a f i : holds n a f -> 0 <= i < n -> znth a i = Some (f i).
Proof. intros [_ H]. auto. Qed.
Lemma holds_set n a f i x : holds n a f -> 0 <= i < n ->
  exists a', zset a i x = Some a' /\ holds n a' (fun j => if j =? i then x else f j).
Proof.
  intros [Hl H] Hi. rewrite <- Hl in Hi. pose proof (zset_Some a i x Hi) as E. eexists. split; [exact E|].
  split; [by rewrite length_insert|]. intros j Hj. rewrite (znth_zset _ _ _ _ j E). zcase; [done|auto].
Qed.
Lemma holds_ext n a f g : holds n a f -> (forall i, 0 <= i < n -> f i = g i) -> holds n a g.
Proof. intros [Hl H] E. split; [done|]. intros i Hi. rewrite H, E by done. done. Qed.
(** An array whose content does not matter. *)
Definition sized (n : Z) (a : list Z) : Prop := zlen a = n.
Lemma sized_holds n a : sized n a -> exists f, holds n a f.
Proof.
  intros Hl. exists (fun i => default 0 (znth a i)). split; [done|]. intros i Hi.
  destruct (znth_Some a i) as [x ->]; [unfold sized in Hl; lia|]. done.
Qed.

(** [for (i = 0; i < radix; i++) a[i] = 0] *)
Lemma zero_wp G sg K kn ev rf (Phi : (loc -> Prop) -> list event -> list Z -> Prop) :
  0 <= g_radix G -> sized (g_radix G) rf -> (forall rf, holds (g_radix G) rf (fun _ => 0) -> Phi kn ev rf) ->
  wp (valid G) (valid_pause G) sg K kn ev (for_ 0 (g_radix G) rf (fun i rf => opt (zset rf i 0))) Phi.
Proof.
  intros Hr [f Hf]%sized_holds HPhi.
  apply (wp_for _ _ _ _ (fun i rf' kn' ev' => kn' = kn /\ ev' = ev /\ holds (g_radix G) rf' (fun j => if j <? i then 0 else f j))); [lia| | |].
  - split_and!; [done|done|]. eapply holds_ext; [exact Hf|]. intros j Hj. cbv beta. by destruct (Z.ltb_spec j 0); [lia|].
  - intros i rf' kn' ev' Hi (-> & -> & H). destruct (holds_set _ _ _ i 0 H Hi) as (rf2 & E2 & H2).
    eapply wp_opt; [exact E2|]. split_and!; [done|done|]. eapply holds_ext; [exact H2|]. intros j Hj. cbv beta.
    destruct (Z.eqb_spec j i), (Z.ltb_spec j i), (Z.ltb_spec j (i + 1)); done || lia.
  - intros rf' kn' ev' (-> & -> & H). apply HPhi. eapply holds_ext; [exact H|]. intros j Hj. cbv beta.
    by destruct (Z.ltb_spec j (g_radix G)); [|lia].
Qed.

Section Sweeps.
Context (G : globals) (h : nat).
Local Abbreviation P := (pw h).
Local Abbreviation r := (g_radix G).
Hypothesis HP : g_P G = P.
Hypothesis Hh : (h <= 6)%nat.
Hypothesis Hr : 1 <= r <= MAX_RADIX.

Lemma P_bound : 1 <= P <= MAX_PROCESSORS.
Proof. pose proof (pw_pos h). pose proof (pw_le h 6 Hh). change (pw 6) with 64 in *. unfold MAX_PROCESSORS. lia. Qed.

Lemma valid_node n i : 0 <= n < 2 * P - 1 -> 0 <= i < r -> valid G (Dens n i) = true /\ valid G (Rank n i) = true.
Proof. intros Hn Hi. pose proof P_bound. unfold valid, within. split; zcases. Qed.
Lemma valid_flag f : 0 <= f < 2 * P -> valid_pause G f = true.
Proof. intros Hf. unfold valid_pause, within. rewrite HP. by zcases. Qed.

(** ** The way up *)

Section Up.
(** What the threads bring: their densities and their histograms. *)
Context (dens rnk : Z -> Z -> Z) (m : loc -> Z).

(** The ranks of the last node of a level above the leaves are not computed. *)
Definition rank_kept (n : Z) : bool := (lev h n =? 0)%nat || negb (off h n =? pw (h - lev h n) - 1).
(** The memory after the way up. *)
Definition up_mem (l : loc) : Z :=
  match l with
  | Dens n i => if within 0 (2 * P - 1) n && within 0 r i then seg (fun t => dens t i) (lev h n) (off h n) else m l
  | Rank n i => if within 0 (2 * P - 1) n && within 0 r i && rank_kept n then seg (fun t => rnk t i) (lev h n) (off h n) else m l
  | _ => m l
  end.

Lemma up_mem_dens k o i : in_tree h k o -> 0 <= i < r -> up_mem (Dens (node h k o) i) = seg (fun t => dens t i) k o.
Proof.
  intros Hin Hi. pose proof (node_bound _ _ _ Hin). unfold up_mem, within.
  rewrite lev_node, off_node by done. zcases.
Qed.
Definition kept (k : nat) (o : Z) : Prop := k = O \/ o <> pw (h - k) - 1.
Lemma up_mem_rank k o i : in_tree h k o -> kept k o -> 0 <= i < r ->
  up_mem (Rank (node h k o) i) = seg (fun t => rnk t i) k o.
Proof.
  intros Hin Hk Hi. pose proof (node_bound _ _ _ Hin). unfold up_mem, within, rank_kept.
  rewrite lev_node, off_node by done.
  replace ((k =? 0)%nat || negb (o =? pw (h - k) - 1)) with true.
  - zcases.
  - destruct (Nat.eqb_spec k 0); [done|]. simpl. destruct Hk; [done|]. by destruct (Z.eqb_spec o (pw (h - k) - 1)).
Qed.

(** The flag of a node tells that its left child is computed. *)
Definition up_K (f : Z) (l : loc) : Prop :=
  exists k o i, in_tree h (S k) o /\ f = node h (S k) o /\ 0 <= i < r /\
    (l = Dens (node h k (2 * o)) i \/ l = Rank (node h k (2 * o)) i).

(** Thread [t] knows its node of level [k]. *)
Definition knows (t : Z) (kn : loc -> Prop) (k : nat) : Prop :=
  forall i, 0 <= i < r ->
    kn (Dens (node h k (t / pw k)) i) /\ (kept k (t / pw k) -> kn (Rank (node h k (t / pw k)) i)).

Local Abbreviation wpu := (wp (valid G) (valid_pause G) up_mem up_K).

(** The children of the node [(k+1, o)] above thread [t]. *)
Lemma child_right k t : (t / pw k) mod 2 = 1 -> t / pw k = 2 * (t / pw (S k)) + 1.
Proof. intros H. rewrite div_pw_S. pose proof (Z.div_mod (t / pw k) 2 ltac:(lia)). lia. Qed.
Lemma children k o : in_tree h (S k) o -> in_tree h k (2 * o) /\ in_tree h k (2 * o + 1) /\ kept k (2 * o).
Proof.
  intros [Hk Ho]. unfold in_tree, kept. replace (h - k)%nat with (S (h - S k)) by lia. rewrite pw_S. lia.
Qed.
Lemma kept_child k o : in_tree h (S k) o -> o <> pw (h - S k) - 1 -> kept k (2 * o + 1).
Proof. intros [Hk Ho] Hn. right. replace (h - k)%nat with (S (h - S k)) by lia. rewrite pw_S. lia. Qed.

(** One parent from its children. *)
Lemma up_node k o kn ev (Phi : (loc -> Prop) -> list event -> unit -> Prop) :
  in_tree h (S k) o ->
  (forall i, 0 <= i < r -> kn (Dens (node h k (2 * o + 1)) i) /\ (kept k (2 * o + 1) -> kn (Rank (node h k (2 * o + 1)) i))) ->
  (forall i, 0 <= i < r -> kn (Dens (node h k (2 * o)) i) /\ kn (Rank (node h k (2 * o)) i)) ->
  (forall kn', (forall l, kn l -> kn' l) ->
     (forall i, 0 <= i < r -> kn' (Dens (node h (S k) o) i) /\ (kept (S k) o -> kn' (Rank (node h (S k) o) i))) -> Phi kn' ev tt) ->
  let n := node h (S k) o in let rr := node h k (2 * o + 1) in let ll := node h k (2 * o) in
  wpu kn ev (if negb (o =? pw (h - S k) - 1) then
        let! _ := for_ 0 r tt (fun i _ =>
          let! a := read (Dens rr i) in let! b := read (Dens ll i) in write (Dens n i) (a + b) ;!
          let! a := read (Rank rr i) in let! b := read (Rank ll i) in write (Rank n i) (a + b)) in Ret tt
      else
        let! _ := for_ 0 r tt (fun i _ =>
          let! a := read (Dens rr i) in let! b := read (Dens ll i) in write (Dens n i) (a + b)) in Ret tt) Phi.
Proof.
  intros Hin Hright Hleft HPhi n rr ll.
  destruct (children k o Hin) as (Hl & Hrr & Hkl).
  pose proof (node_bound _ _ _ Hin). pose proof (node_bound _ _ _ Hl). pose proof (node_bound _ _ _ Hrr).
  destruct (Z.eqb_spec o (pw (h - S k) - 1)) as [Elast|Elast]; cbn [negb].
  - apply wp_bind, (wp_for _ _ _ _ (fun i _ kn' ev' => ev' = ev /\ (forall l, kn l -> kn' l) /\ forall j, 0 <= j < i -> kn' (Dens n j))); [lia| | |].
    + split_and!; [done|done|lia].
    + intros i [] kn' ev' Hi (-> & Hsub & Hj). destruct (Hright i Hi), (Hleft i Hi).
      apply wp_bind, wp_read; [by apply valid_node|auto|]. apply wp_bind, wp_read; [by apply valid_node|auto|].
      apply wp_write; [by apply valid_node| |].
      { unfold n, rr, ll. rewrite !up_mem_dens by done. by rewrite seg_S. }
      split_and!; [done|auto|]. intros j Hj'. destruct (Z.eq_dec j i) as [->|]; [by left|right; apply Hj; lia].
    + intros [] kn' ev' (-> & Hsub & Hj). apply wp_ret, HPhi; [done|]. intros i Hi. split; [auto|]. intros [|]; done.
  - apply wp_bind, (wp_for _ _ _ _ (fun i _ kn' ev' => ev' = ev /\ (forall l, kn l -> kn' l) /\ forall j, 0 <= j < i -> kn' (Dens n j) /\ kn' (Rank n j))); [lia| | |].
    + split_and!; [done|done|lia].
    + intros i [] kn' ev' Hi (-> & Hsub & Hj). destruct (Hright i Hi), (Hleft i Hi).
      pose proof (kept_child k o Hin Elast) as Hkr.
      apply wp_bind, wp_read; [by apply valid_node|auto|]. apply wp_bind, wp_read; [by apply valid_node|auto|].
      apply wp_bind, wp_write; [by apply valid_node| |].
      { unfold n, rr, ll. rewrite !up_mem_dens by done. by rewrite seg_S. }
      apply wp_bind, wp_read; [by apply valid_node|auto|]. apply wp_bind, wp_read; [by apply valid_node|auto|].
      apply wp_write; [by apply valid_node| |].
      { unfold n, rr, ll. rewrite !up_mem_rank by (done || by right). by rewrite seg_S. }
      split_and!; [done|auto|]. intros j Hj'. destruct (Z.eq_dec j i) as [->|]; [auto|].
      destruct (Hj j ltac:(lia)). auto.
    + intros [] kn' ev' (-> & Hsub & Hj). apply wp_ret, HPhi; [done|]. intros i Hi. destruct (Hj i Hi). auto.
Qed.

Section UpThread.
Context (t : Z) (Ht : 0 <= t < P).

(** The events left at the head of the loop on level [k]. *)
Definition up_todo (k : nat) : list event := if (t / pw k) mod 2 =? 0 then [] else up_from h k t.

Lemma odd_level k : ones k t -> (t / pw k) mod 2 <> 0 -> (k < trail h t)%nat /\ (S k <= h)%nat.
Proof.
  intros Ho Hodd. destruct (trail_spec h t Ht) as (Hk & Ho' & He).
  pose proof (Z.mod_pos_bound (t / pw k) 2 ltac:(lia)).
  assert (ones (S k) t) as Hs by (apply ones_S; split; [done|lia]).
  apply (trail_ge h) in Hs; lia.
Qed.

(** After a node the thread tells its right neighbour, or goes on itself. *)
Lemma up_tell k kn (Phi : (loc -> Prop) -> list event -> unit -> Prop) :
  ones k t -> knows t kn k -> Phi kn (up_todo k) tt ->
  wpu kn (up_from h k t) (if Z.land (t / pw k) 1 =? 0 then SETPAUSE (base h (S k) + Z.shiftr (t / pw k) 1) else Ret tt) Phi.
Proof.
  intros Ho Hkn HPhi. unfold up_todo in HPhi. rewrite land_1. destruct (Z.eqb_spec ((t / pw k) mod 2) 0) as [E|E].
  - assert (trail h t = k) as <- by (by apply trail_unique).
    rewrite up_from_end, shiftr_1, <- div_pw_S. set (k := trail h t) in *.
    destruct (trail_spec h t Ht) as (Hk & _). fold k in Hk.
    apply wp_set; [|..|done].
    + apply valid_flag. pose proof (pw_pos h). destruct (decide (k = h)) as [->|].
      * rewrite base_end, Z.div_small; [lia|]. rewrite pw_S. lia.
      * pose proof (node_bound h (S k) (t / pw (S k)) ltac:(apply above_in_tree; lia)). unfold node in *. lia.
    + intros l (k' & o & i & Hin & Hf & Hi & Hl).
      apply node_inj' in Hf as [[= <-] <-]; [|apply above_in_tree'; lia|by left].
      assert (2 * (t / pw (S k)) = t / pw k) as E2.
      { rewrite div_pw_S. pose proof (Z.div_mod (t / pw k) 2 ltac:(lia)). lia. }
      rewrite E2 in Hl. destruct (Hkn i Hi) as [Hd Hrk].
      destruct (children k _ Hin) as (_ & _ & Hkept). rewrite E2 in Hkept. destruct Hl as [->| ->]; auto.
  - by apply wp_ret.
Qed.

Lemma up_loop_wp fuel : forall k kn (Phi : (loc -> Prop) -> list event -> unit -> Prop),
  ones k t -> (k <= h)%nat -> (h - k <= fuel)%nat ->
  (forall j, (j <= k)%nat -> knows t kn j) ->
  (forall kn', (forall j, (j <= trail h t)%nat -> knows t kn' j) -> Phi kn' [] tt) ->
  wpu kn (up_todo k) (up_loop fuel G (node h k (t / pw k)) (t / pw k) (P / pw (S k)) (base h (S k))) Phi.
Proof.
  induction fuel as [|fuel IH]; intros k kn Phi Ho Hk Hf Hkn HPhi; cbn [up_loop]; unfold up_todo; rewrite land_1;
    (destruct (Z.eqb_spec ((t / pw k) mod 2) 0) as [E|E];
      [apply wp_ret, HPhi; assert (trail h t = k) as -> by (by apply trail_unique); done|]);
    destruct (odd_level k Ho E) as [Hkt Hkh]; [lia|].
  assert ((t / pw k) mod 2 = 1) as Hodd by (pose proof (Z.mod_pos_bound (t / pw k) 2 ltac:(lia)); lia).
  pose proof (above_in_tree h (S k) t Hkh Ht) as Hin. pose proof (child_right k t Hodd) as Er.
  assert (ones (S k) t) as HoS by (by apply ones_S).
  rewrite up_from_S, (shiftr_1 (t / pw k)), (shiftr_1 (P / pw (S k))), <- !div_pw_S by done.
  change (base h (S k) + t / pw (S k)) with (node h (S k) (t / pw (S k))).
  rewrite <- (base_S h (S k)), level_size by done.
  replace (node h k (t / pw k)) with (node h k (2 * (t / pw (S k)) + 1)) by (f_equal; lia).
  replace (node h k (2 * (t / pw (S k)) + 1) - 1) with (node h k (2 * (t / pw (S k)))) by (unfold node; lia).
  apply wp_bind, wp_wait; [apply valid_flag; pose proof (node_bound _ _ _ Hin); lia|].
  apply wp_bind, up_node; [done| | |].
  - intros i Hi. destruct (Hkn k ltac:(lia) i Hi) as [Hd Hrk]. rewrite Er in Hd, Hrk. auto.
  - intros i Hi. split; left; exists k, (t / pw (S k)), i; auto.
  - intros kn' Hsub HS.
    assert (forall j, (j <= S k)%nat -> knows t kn' j) as Hkn'.
    { intros j Hj. destruct (decide (j = S k)) as [->|]; [exact HS|].
      intros i Hi. destruct (Hkn j ltac:(lia) i Hi). split; auto. }
    apply wp_bind, up_tell; [done|by apply Hkn'|]. apply IH; [done|lia|lia|done|done].
Qed.

(** The way up of thread [t]: it writes the nodes that belong to it. *)
Lemma up_sweep_wp kn pr (Phi : (loc -> Prop) -> list event -> unit -> Prop) :
  holds r (key_density pr) (dens t) -> holds r (rank_me pr) (rnk t) ->
  (forall kn', (forall j, (j <= trail h t)%nat -> knows t kn' j) -> Phi kn' [] tt) ->
  wpu kn (up_evs h t) (up_sweep G t pr) Phi.
Proof.
  intros Hkd Hrm HPhi. unfold up_sweep. rewrite HP.
  assert (in_tree h 0 t) as Hin by (split; [lia|]; by rewrite Nat.sub_0_r).
  assert (node h 0 t = t) as En by (unfold node; rewrite base_0; lia).
  pose proof (node_bound _ _ _ Hin) as Hb. rewrite En in Hb.
  apply wp_bind, (wp_for _ _ _ _ (fun i _ kn' ev' => ev' = up_evs h t /\
    forall j, 0 <= j < i -> kn' (Dens t j) /\ kn' (Rank t j))); [lia| | |].
  - split; [done|lia].
  - intros i [] kn' ev' Hi (-> & Hj).
    apply wp_bind. eapply wp_opt; [by apply (holds_get _ _ _ i Hkd)|].
    apply wp_bind, wp_write; [by apply valid_node| |].
    { rewrite <- En at 2. rewrite up_mem_dens by done. rewrite seg_leaf by lia. done. }
    apply wp_bind. eapply wp_opt; [by apply (holds_get _ _ _ i Hrm)|].
    apply wp_write; [by apply valid_node| |].
    { rewrite <- En at 2. rewrite up_mem_rank by (done || by left). rewrite seg_leaf by lia. done. }
    split; [done|]. intros j Hj'. destruct (Z.eq_dec j i) as [->|]; [auto|]. destruct (Hj j ltac:(lia)). auto.
  - intros [] kn' ev' (-> & Hj).
    assert (knows t kn' 0) as H0.
    { intros i Hi. change (pw 0) with 1. rewrite Z.div_1_r, En. destruct (Hj i Hi). auto. }
    assert (t / pw 0 = t) as E0 by (change (pw 0) with 1; by rewrite Z.div_1_r).
    assert (base h 1 = P) as E1.
    { rewrite base_S, base_0 by lia. change (pw 0) with 1. by rewrite Z.div_1_r. }
    pose proof (up_tell 0 kn' (fun kn ev _ => wpu kn ev (up_loop 64 G t t (Z.shiftr P 1) P) Phi) (ones_0 t) H0) as HT.
    pose proof (up_loop_wp 64 0 kn' Phi (ones_0 t) ltac:(lia) ltac:(lia)) as HL.
    rewrite E0, E1 in HT. rewrite E0, E1, En in HL. apply wp_bind, HT. rewrite shiftr_1. apply HL; [|done].
    intros j Hj'. by replace j with 0%nat by lia.
Qed.
End UpThread.

(** Every element that changes belongs to a thread. *)
Lemma up_covered l : m l = up_mem l \/ exists t, 0 <= t < P /\
  forall kn, (forall j, (j <= trail h t)%nat -> knows t kn j) -> kn l.
Proof.
  assert (forall n i, 0 <= n < 2 * P - 1 -> 0 <= i < r -> exists t, 0 <= t < P /\
    forall kn, (forall j, (j <= trail h t)%nat -> knows t kn j) ->
      kn (Dens n i) /\ (kept (lev h n) (off h n) -> kn (Rank n i))) as Hcov.
  { intros n i Hn Hi. destruct (node_lev_off h n Hn) as [Hin En]. set (k := lev h n) in *. set (o := off h n) in *.
    destruct (owner_ones k o) as [Ho Hd]. pose proof (owner_in_range h k o Hin) as Hr'.
    exists (o * pw k + pw k - 1). split; [done|]. intros kn Hkn.
    destruct (Hkn k (trail_ge h _ k Hr' Ho) i Hi) as [H1 H2]. rewrite Hd in H1, H2. rewrite En. auto. }
  destruct l as [b i|n i|n i|]; try (by left); unfold up_mem.
  - destruct (within 0 (2 * P - 1) n && within 0 r i) eqn:E; [|by left]. right. unfold within in E.
    destruct (Hcov n i) as (t & Ht & H); [lia|lia|]. exists t. split; [done|]. intros kn Hkn. by apply H.
  - destruct (within 0 (2 * P - 1) n && within 0 r i && rank_kept n) eqn:E; [|by left]. right.
    apply andb_prop in E as [E Ek]. unfold within in E.
    destruct (Hcov n i) as (t & Ht & H); [lia|lia|]. exists t. split; [done|]. intros kn Hkn. apply H; [done|].
    unfold kept. unfold rank_kept in Ek. destruct (Nat.eqb_spec (lev h n) 0); [by left|right]. simpl in Ek.
    by destruct (Z.eqb_spec (off h n) (pw (h - lev h n) - 1)).
Qed.
End Up.

(** ** The way down *)

Section Down.
Context (rnk : Z -> Z -> Z) (m : loc -> Z).
(** What the way up has left. *)
Hypothesis Hrank : forall k o i, in_tree h k o -> kept k o -> 0 <= i < r -> m (Rank (node h k o) i) = seg (fun t => rnk t i) k o.

Definition root : Z := 2 * P - 2.
Lemma root_node : root = node h h 0.
Proof. unfold root, node. rewrite base_root. lia. Qed.
Lemma root_last : root = last_node h (P - 1).
Proof.
  pose proof (pw_pos h). unfold last_node. rewrite trail_last, root_node. rewrite Z.div_small by lia. done.
Qed.

(** The memory after the way down: the nodes with an even offset have the
    densities of the root. *)
Definition down_mem (l : loc) : Z :=
  match l with
  | Dens n i => if within 0 root n && (off h n mod 2 =? 0) && within 0 r i then m (Dens root i) else m l
  | _ => m l
  end.

Lemma down_mem_last t i : 0 <= t < P -> 0 <= i < r -> down_mem (Dens (last_node h t) i) = m (Dens root i).
Proof.
  intros Ht Hi. pose proof (last_in_tree h t Ht) as Hin. destruct (trail_spec h t Ht) as (_ & _ & He).
  unfold down_mem. destruct (decide (t = P - 1)) as [->|Hl].
  { rewrite <- root_last. unfold within. destruct (Z.ltb_spec root root); [lia|]. by rewrite andb_false_r. }
  unfold last_node. rewrite off_node by done. rewrite He.
  pose proof (node_lt h _ _ h 0 Hin ltac:(split; [lia|rewrite Nat.sub_diag; done]) (trail_lt h t Ht Hl)) as Hlt.
  rewrite <- root_node in Hlt. pose proof (node_bound _ _ _ Hin). unfold within. zcases.
Qed.

Definition down_K (f : Z) (l : loc) : Prop :=
  exists t i, 0 <= t < P /\ t <> P - 1 /\ f = last_node h t /\ 0 <= i < r /\
    l = Dens (last_node h (t + pw (trail h t))) i.

Local Abbreviation wpd := (wp (valid G) (valid_pause G) down_mem down_K).

Lemma climb_spec fuel : forall t k k', (k <= k' <= h)%nat -> (k' - k <= fuel)%nat ->
  (forall j, (k <= j < k')%nat -> (t / pw j) mod 2 <> 0) -> (t / pw k') mod 2 = 0 ->
  climb fuel (t / pw k) (P / pw k) (base h k) = Some (t / pw k', P / pw k', base h k').
Proof.
  induction fuel as [|fuel IH]; intros t k k' Hk Hf Hodd Hev; cbn [climb]; rewrite land_1.
  { replace k with k' by lia. by rewrite Hev. }
  destruct (decide (k = k')) as [->|]; [by rewrite Hev|].
  destruct (Z.eqb_spec ((t / pw k) mod 2) 0) as [E|_]; [by destruct (Hodd k ltac:(lia))|].
  rewrite !shiftr_1, <- !div_pw_S, <- base_S by lia. apply IH; [lia|lia| |done]. intros; apply Hodd; lia.
Qed.

Lemma below_trail_odd t j : 0 <= t < P -> (j < trail h t)%nat -> (t / pw j) mod 2 <> 0.
Proof. intros Ht Hj. pose proof (trail_lt_ones h t j Ht Hj) as [_ E]%ones_S. lia. Qed.

(** The nodes the source finds are the last node of the thread and that of
    the thread that tells it. *)
Lemma my_their_node_spec t : 0 <= t < P -> t <> P - 1 ->
  my_their_node G t = Some (last_node h t, last_node h (t + pw (trail h t))).
Proof.
  intros Ht Hl. unfold my_their_node. rewrite HP. destruct (trail_spec h t Ht) as (Hk & _ & He).
  destruct (down_setter h t Ht Hl) as (Ht' & Htr & _ & Hsame). set (k := trail h t) in *. set (t' := t + pw k) in *.
  destruct (trail_spec h t' Ht') as (Hk' & _ & He').
  pose proof (climb_spec 64 t 0 k ltac:(lia) ltac:(lia)) as C1. change (pw 0) with 1 in C1.
  rewrite !Z.div_1_r, base_0 in C1. rewrite C1; [|intros; apply below_trail_odd; [done|lia]|done].
  rewrite !shiftr_1, <- !div_pw_S, <- base_S by lia. rewrite <- (Hsame (S k)) by lia.
  rewrite (climb_spec 64 t' (S k) (trail h t')); [done|lia|lia| |done].
  intros j Hj. apply below_trail_odd; [done|lia].
Qed.

Section DownThread.
Context (t : Z) (Ht : 0 <= t < P).

Lemma wake_loop_wp fuel : forall k kn (Phi : (loc -> Prop) -> list event -> unit -> Prop),
  (k <= trail h t)%nat -> (trail h t - k <= fuel)%nat ->
  (forall i, 0 <= i < r -> kn (Dens (last_node h t) i)) -> Phi kn [] tt ->
  wpd kn (wake_from h k t) (wake_loop fuel (t / pw k) (P / pw k) (base h k)) Phi.
Proof.
  destruct (trail_spec h t Ht) as (Hkh & Ho & He).
  induction fuel as [|fuel IH]; intros k kn Phi Hk Hf Hkn HPhi; cbn [wake_loop]; rewrite land_1.
  { replace k with (trail h t) by lia. rewrite He, wake_from_end. by apply wp_ret. }
  destruct (decide (k = trail h t)) as [->|]; [rewrite He, wake_from_end; by apply wp_ret|].
  destruct (Z.eqb_spec ((t / pw k) mod 2) 0) as [E|_]; [by destruct (below_trail_odd t k Ht ltac:(lia))|].
  destruct (left_in_tree h k t Ht ltac:(lia)) as (Hin & _ & H1 & Hkh'). pose proof (node_bound _ _ _ Hin) as Hb.
  rewrite wake_from_S by lia. replace (base h k + t / pw k - 1) with (node h k (t / pw k - 1)) by (unfold node; lia).
  apply wp_bind, wp_set; [apply valid_flag; lia| |].
  - intros l (t0 & i & Ht0 & Hl0 & Hf0 & Hi & ->).
    assert (t0 + pw (trail h t0) = t) as ->; [|auto].
    apply node_inj in Hf0 as [Ek Eo]; [|done|by apply last_in_tree].
    destruct (trail_spec h t0 Ht0) as (_ & Ho0 & _). rewrite <- Ek in *.
    apply (ones_le k) in Ho; [|lia]. apply ones_eq in Ho, Ho0. nia.
  - rewrite !shiftr_1, <- !div_pw_S, <- base_S by lia. apply IH; [lia|lia|done|done].
Qed.

Lemma rank_loop_wp fuel : forall k rf kn ev (Phi : (loc -> Prop) -> list event -> list Z -> Prop),
  (k <= h)%nat -> (h - k <= fuel)%nat -> (forall n i, kn (Rank n i)) ->
  holds r rf (fun i => acc (fun t => rnk t i) t - acc (fun t => rnk t i) (t / pw k * pw k)) ->
  (forall rf, holds r rf (fun i => acc (fun t => rnk t i) t) -> Phi kn ev rf) ->
  wpd kn ev (rank_loop fuel G (t / pw k) (P / pw k) (base h k) rf) Phi.
Proof.
  induction fuel as [|fuel IH]; intros k rf kn ev Phi Hk Hf Hkn Hrf HPhi; cbn [rank_loop];
    (destruct (Z.eqb_spec (t / pw k) 0) as [E0|E0];
      [apply wp_ret, HPhi; eapply holds_ext; [done|]; intros i _; cbv beta; rewrite E0, Z.mul_0_l, acc_0; lia|]).
  { exfalso. apply E0. replace k with h by lia. by rewrite Z.div_small. }
  pose proof (pw_pos k) as Hpk.
  assert (k < h)%nat as Hkh.
  { destruct (decide (k = h)) as [->|]; [|lia]. exfalso. apply E0. by rewrite Z.div_small. }
  pose proof (Z.div_mod (t / pw k) 2 ltac:(lia)) as Dm. pose proof (Z.mod_pos_bound (t / pw k) 2 ltac:(lia)) as Mb.
  apply wp_bind. rewrite land_1.
  assert (forall rf' kn' ev', kn' = kn -> ev' = ev ->
    holds r rf' (fun i => acc (fun t => rnk t i) t - acc (fun t => rnk t i) (t / pw (S k) * pw (S k))) ->
    wpd kn' ev' (rank_loop fuel G (Z.shiftr (t / pw k) 1) (Z.shiftr (P / pw k) 1) (base h k + P / pw k) rf') Phi) as Hnext.
  { intros rf' kn' ev' -> -> Hrf'. rewrite !shiftr_1, <- !div_pw_S, <- base_S by lia. apply IH; [lia|lia|done|done|done]. }
  destruct (Z.eqb_spec ((t / pw k) mod 2) 0) as [Ev|Od]; cbn [negb].
  { apply wp_ret, Hnext; [done|done|]. eapply holds_ext; [done|]. intros i _. cbv beta.
    rewrite div_pw_S, pw_S. do 2 f_equal. nia. }
  destruct (above_in_tree h k t Hk Ht) as [_ Hab].
  assert (in_tree h k (t / pw k - 1)) as Hin by (split; lia).
  assert (kept k (t / pw k - 1)) as Hkept by (right; lia).
  pose proof (node_bound _ _ _ Hin) as Hb.
  apply (wp_for _ _ _ _ (fun i rf' kn' ev' => kn' = kn /\ ev' = ev /\ holds r rf' (fun j =>
    acc (fun t => rnk t j) t - acc (fun t => rnk t j) (if j <? i then t / pw (S k) * pw (S k) else t / pw k * pw k)))); [lia| | |].
  - split_and!; [done|done|]. eapply holds_ext; [exact Hrf|]. intros j Hj. cbv beta. by destruct (Z.ltb_spec j 0); [lia|].
  - intros i rf' kn' ev' Hi (-> & -> & Hrf'). apply wp_bind. eapply wp_opt; [by apply (holds_get _ _ _ i Hrf')|].
    replace (base h k + t / pw k - 1) with (node h k (t / pw k - 1)) by (unfold node; lia).
    apply wp_bind, wp_read; [by apply valid_node|done|]. simpl. rewrite Hrank by done.
    destruct (holds_set _ _ _ i (acc (fun t => rnk t i) t - acc (fun t => rnk t i) (t / pw (S k) * pw (S k))) Hrf' Hi) as (rf2 & E2 & H2).
    rewrite Z.ltb_irrefl. unfold seg. replace (t / pw k - 1 + 1) with (t / pw k) by lia.
    replace ((t / pw k - 1) * pw k) with (t / pw (S k) * pw (S k)) by (rewrite div_pw_S, pw_S; nia).
    eapply wp_opt; [rewrite <- E2; f_equal; lia|]. split_and!; [done|done|]. eapply holds_ext; [exact H2|].
    intros j Hj. cbv beta. destruct (Z.eqb_spec j i) as [->|]; [destruct (Z.ltb_spec i (i + 1)); [done|lia]|].
    destruct (Z.ltb_spec j i), (Z.ltb_spec j (i + 1)); done || lia.
  - intros rf' kn' ev' (-> & -> & Hrf'). apply Hnext; [done|done|]. eapply holds_ext; [exact Hrf'|].
    intros j Hj. cbv beta. by destruct (Z.ltb_spec j r); [|lia].
Qed.

(** The first part of the way down: the densities of the root reach the
    thread's own last node, which it then knows. *)
Lemma copy_wp kn (Phi : (loc -> Prop) -> list event -> Z -> Prop) :
  (forall l, m l = down_mem l -> kn l) ->
  (forall kn', (forall l, kn l -> kn' l) -> (forall i, 0 <= i < r -> kn' (Dens (last_node h t) i)) ->
     Phi kn' (wake_from h 0 t) (last_node h t)) ->
  wpd kn (down_evs h t) (if negb (t =? g_P G - 1) then
    let! (my_node, their_node) := opt (my_their_node G t) in
    WAIT_CLEAR_PAUSE my_node ;!
    let! _ := for_ 0 r tt (fun i _ =>
      let! a := read (Dens their_node i) in
      write (Dens my_node i) a) in
    Ret my_node
  else Ret (2 * g_P G - 2)) Phi.
Proof.
  intros Hkn HPhi. rewrite HP. unfold down_evs. destruct (Z.eqb_spec t (P - 1)) as [E|E]; cbn [negb].
  { apply wp_ret. replace (2 * P - 2) with (last_node h t) by (by rewrite E, <- root_last).
    apply HPhi; [done|]. intros i Hi. apply Hkn. rewrite down_mem_last by done. by rewrite E, <- root_last. }
  apply wp_bind. eapply wp_opt; [by apply my_their_node_spec|].
  destruct (down_setter h t Ht E) as (Ht' & _). set (t' := t + pw (trail h t)) in *.
  pose proof (node_bound _ _ _ (last_in_tree h t Ht)) as Hb. fold (last_node h t) in Hb.
  pose proof (node_bound _ _ _ (last_in_tree h t' Ht')) as Hb'. fold (last_node h t') in Hb'.
  apply wp_bind, wp_wait; [apply valid_flag; lia|].
  apply wp_bind, (wp_for _ _ _ _ (fun i _ kn' ev' => ev' = wake_from h 0 t /\ (forall l, kn l -> kn' l) /\
    (forall i, 0 <= i < r -> kn' (Dens (last_node h t') i)) /\ forall j, 0 <= j < i -> kn' (Dens (last_node h t) j))); [lia| | |].
  - split_and!; [done|auto| |lia]. intros i Hi. left. exists t, i. done.
  - intros i [] kn' ev' Hi (-> & Hsub & Hth & Hj).
    apply wp_bind, wp_read; [by apply valid_node|auto|].
    apply wp_write; [by apply valid_node|by rewrite !down_mem_last|].
    split_and!; [done|auto|auto|]. intros j Hj'. destruct (Z.eq_dec j i) as [->|]; [by left|right; apply Hj; lia].
  - intros [] kn' ev' (-> & Hsub & Hth & Hj). apply wp_ret. by apply HPhi.
Qed.

(** The way down of thread [t]: its [rank_ff] gets the places of its first
    keys. *)
Definition first_places (i : Z) : Z :=
  acc (fun t => rnk t i) t + (if i =? 0 then 0 else m (Dens root (i - 1))).

Lemma down_sweep_wp kn pr (Phi : (loc -> Prop) -> list event -> priv -> Prop) :
  (forall l, m l = down_mem l -> kn l) -> sized r (rank_ff pr) ->
  (forall kn' rf, (forall i, 0 <= i < r -> kn' (Dens (last_node h t) i)) -> holds r rf first_places ->
     Phi kn' [] (Priv (rank_me pr) (key_density pr) rf)) ->
  wpd kn (down_evs h t) (down_sweep G t pr) Phi.
Proof.
  intros Hkn Hrf HPhi. unfold down_sweep. apply wp_bind, copy_wp; [done|]. intros kn1 Hsub1 Hown.
  rewrite HP. apply wp_bind.
  assert (t / pw 0 = t) as E0 by (change (pw 0) with 1; by rewrite Z.div_1_r).
  assert (P / pw 0 = P) as E1 by (change (pw 0) with 1; by rewrite Z.div_1_r).
  destruct (trail_spec h t Ht) as (Hkh & _).
  pose proof (wake_loop_wp 64 0 kn1) as HW. rewrite E0, E1, base_0 in HW. apply HW; [lia|lia|done|]. clear HW.
  apply wp_bind, zero_wp; [lia|done|]. intros rf0 Hrf0. apply wp_bind.
  pose proof (rank_loop_wp 64 0 rf0 kn1 []) as HL. rewrite E0, E1, base_0 in HL. apply HL; [lia|lia| | |]; clear HL.
  { intros n i. by apply Hsub1, Hkn. }
  { eapply holds_ext; [exact Hrf0|]. intros i _. cbv beta. change (pw 0) with 1. rewrite Z.mul_1_r. lia. }
  intros rf1 Hrf1. apply wp_bind.
  apply (wp_for _ _ _ _ (fun i rf' kn' ev' => kn' = kn1 /\ ev' = [] /\ holds r rf' (fun j =>
    if j <? i then first_places j else acc (fun t => rnk t j) t))); [lia| | |].
  - split_and!; [done|done|]. eapply holds_ext; [exact Hrf1|]. intros j Hj. cbv beta. unfold first_places.
    destruct (Z.ltb_spec j 1); [|done]. replace j with 0 by lia. simpl. lia.
  - intros i rf' kn' ev' Hi (-> & -> & H). apply wp_bind. eapply wp_opt; [apply (holds_get _ _ _ i H); lia|].
    pose proof (node_bound _ _ _ (last_in_tree h t Ht)) as Hb. fold (last_node h t) in Hb.
    apply wp_bind, wp_read; [apply valid_node; lia|apply Hown; lia|]. rewrite down_mem_last by lia. rewrite Z.ltb_irrefl.
    destruct (holds_set _ _ _ i (first_places i) H ltac:(lia)) as (rf2 & E2 & H2).
    eapply wp_opt; [rewrite <- E2; f_equal; unfold first_places; destruct (Z.eqb_spec i 0); [lia|done]|].
    split_and!; [done|done|]. eapply holds_ext; [exact H2|]. intros j Hj. cbv beta.
    destruct (Z.eqb_spec j i) as [->|]; [by destruct (Z.ltb_spec i (i + 1)); [|lia]|].
    destruct (Z.ltb_spec j i), (Z.ltb_spec j (i + 1)); done || lia.
  - intros rf' kn' ev' (-> & -> & H). apply wp_ret, HPhi; [done|]. eapply holds_ext; [exact H|]. intros j Hj. cbv beta.
    by destruct (Z.ltb_spec j r); [|lia].
Qed.
End DownThread.

(** Every element that changes belongs to a thread. *)
Lemma down_covered l : m l = down_mem l \/ exists t, 0 <= t < P /\
  forall kn : loc -> Prop, (forall i, 0 <= i < r -> kn (Dens (last_node h t) i)) -> kn l.
Proof.
  destruct l as [b i|n i|n i|]; try (by left). unfold down_mem.
  destruct (within 0 root n && (off h n mod 2 =? 0) && within 0 r i) eqn:E; [|by left]. right.
  unfold within, root in E. apply andb_prop in E as [E Ei]. apply andb_prop in E as [En Eo%Z.eqb_eq].
  destruct (node_lev_off h n ltac:(lia)) as [Hin Enode]. set (k := lev h n) in *. set (o := off h n) in *.
  destruct (owner_ones k o) as [Ho Hd]. pose proof (owner_in_range h k o Hin) as Hr'.
  exists (o * pw k + pw k - 1). split; [done|]. intros kn Hkn. specialize (Hkn i ltac:(lia)).
  unfold last_node in Hkn. rewrite (trail_unique h _ k) in Hkn; [|done|done|by rewrite Hd]. by rewrite Hd, <- Enode in Hkn.
Qed.
End Down.
End Sweeps.
End RadixSweeps.
