(* ===== verification/RadixCount.v ===== *)
(** * RadixCount: the passes over the keys

    The two passes of [sort_digit] over the keys of a thread, in the terms of
    RadixSort.v: the histogram counts the digits of its part, and the
    permutation writes every key to its place. *)

From stdpp Require Import base list option sets.
From S2P Require Import Prelude Phases Radix RadixTree RadixSort RadixSweeps.
Local Open Scope Z_scope.

Module RadixCount.
Import Radix RadixTree RadixSort RadixSweeps.

Section Count.
Context (G : globals) (b : nat).
Local Abbreviation r := (g_radix G).
Hypothesis Hr2 : r = pw b.
Hypothesis Hlog : log2_radix G = Z.of_nat b.
Hypothesis Hr : 1 <= r <= MAX_RADIX.

(** Masking and shifting is the digit. *)
Lemma digit_spec l x : 0 <= l -> digit G l x = digit_of r l x.
Proof.
  intros Hl. unfold digit, digit_of. rewrite Hlog, Hr2. unfold pw.
  replace (2 ^ Z.of_nat b - 1) with (Z.ones (Z.of_nat b)) by (rewrite Z.ones_equiv; lia).
  rewrite Z.shiftr_land, Z.shiftr_shiftl_l, Z.sub_diag, Z.shiftl_0_r by lia.
  rewrite Z.land_ones, Z.shiftr_div_pow2 by lia. rewrite <- Z.pow_mul_r by lia. do 3 f_equal. lia.
Qed.

Context (l : Z) (Hl : 0 <= l) (ks : list Z).
Local Abbreviation dig := (digit_of r l).
Hypothesis Hn : zlen ks = g_num_keys G.

(** The keys with digit [d], and with a smaller digit, before position [i]. *)
Definition C (d i : Z) : Z := cnt dig d (take (Z.to_nat i) ks).
Definition B (d i : Z) : Z := below dig d (take (Z.to_nat i) ks).

Lemma dig_bound x : 0 <= dig x < r.
Proof. apply digit_of_bound. lia. Qed.

Lemma C_next d i x : znth ks i = Some x -> C d (i + 1) = C d i + (if d =? dig x then 1 else 0).
Proof.
  intros Hx. pose proof (znth_bound _ _ _ Hx). unfold C. rewrite Z2Nat.inj_add by lia.
  change (Z.to_nat 1) with 1%nat. rewrite Nat.add_1_r.
  rewrite (take_S_r _ _ x) by (by rewrite <- znth_nat, Z2Nat.id by lia). rewrite cnt_snoc.
  destruct (decide (dig x = d)), (Z.eqb_spec d (dig x)); congruence || lia.
Qed.
Lemma B_next d i : B (d + 1) i = B d i + C d i.
Proof. apply below_succ. Qed.
Lemma B_0 i : B 0 i = 0.
Proof. apply below_0, Forall_true. intros x. apply dig_bound. Qed.
Lemma C_0 d : C d 0 = 0.
Proof. done. Qed.
Lemma B_d0 d : B d 0 = 0.
Proof. done. Qed.
Lemma B_all d : B d (g_num_keys G) = below dig d ks.
Proof. unfold B. rewrite <- Hn, Nat2Z.id. by rewrite firstn_all. Qed.

(** What a thread with the keys from [p] to [q] brings to the tree. *)
Definition hist (p q d : Z) : Z := C d q - C d p.
Definition dense (p q d : Z) : Z := B (d + 1) q - B (d + 1) p.

Lemma keys_valid f i : 0 <= f < 2 -> 0 <= i < g_num_keys G -> valid G (Key f i) = true.
Proof. intros. unfold valid, within. zcases. Qed.

Section Pass.
Context (sg : loc -> Z) (K : Z -> loc -> Prop) (from : Z) (Hfrom : 0 <= from < 2).
Hypothesis Hks : forall i, 0 <= i < g_num_keys G -> znth ks i = Some (sg (Key from i)).
Local Abbreviation wpk := (wp (valid G) (valid_pause G) sg K).

Lemma histogram_wp kn ev p q pr (Phi : (loc -> Prop) -> list event -> priv -> Prop) :
  0 <= p <= q -> q <= g_num_keys G ->
  sized r (rank_me pr) -> sized r (key_density pr) -> (forall i, kn (Key from i)) ->
  (forall rm kd, holds r rm (hist p q) -> holds r kd (dense p q) -> Phi kn ev (Priv rm kd (rank_ff pr))) ->
  wpk kn ev (histogram G l from p q pr) Phi.
Proof.
  intros Hpq Hq Hrm Hkd Hkn HPhi. unfold histogram. apply wp_bind, zero_wp; [lia|done|]. intros rm0 Hrm0.
  apply wp_bind.
  apply (wp_for _ _ _ _ (fun i rm kn' ev' => kn' = kn /\ ev' = ev /\ holds r rm (fun d => C d i - C d p))); [lia| | |].
  { split_and!; [done|done|]. eapply holds_ext; [exact Hrm0|]. intros; cbv beta; lia. }
  { intros i rm kn' ev' Hi (-> & -> & H). apply wp_bind, wp_read; [apply keys_valid; lia|done|].
    pose proof (Hks i ltac:(lia)) as Hx. set (x := sg (Key from i)) in *. rewrite digit_spec by done.
    pose proof (dig_bound x) as Hd. apply wp_bind. eapply wp_opt; [by apply (holds_get _ _ _ (dig x) H)|].
    destruct (holds_set _ _ _ (dig x) (C (dig x) i - C (dig x) p + 1) H Hd) as (rm2 & E2 & H2).
    eapply wp_opt; [exact E2|]. split_and!; [done|done|]. eapply holds_ext; [exact H2|]. intros d _. cbv beta.
    rewrite (C_next d i x Hx). destruct (Z.eqb_spec d (dig x)) as [->|]; lia. }
  intros rm kn' ev' (-> & -> & H). apply wp_bind. eapply wp_opt; [apply (holds_get _ _ _ 0 H); lia|].
  destruct (sized_holds _ _ Hkd) as [g Hg].
  destruct (holds_set _ _ _ 0 (C 0 q - C 0 p) Hg ltac:(lia)) as (kd0 & E0 & H0).
  apply wp_bind. eapply wp_opt; [exact E0|]. apply wp_bind.
  apply (wp_for _ _ _ _ (fun i kd kn' ev' => kn' = kn /\ ev' = ev /\ holds r kd (fun d => if d <? i then dense p q d else g d))); [lia| | |].
  - split_and!; [done|done|]. eapply holds_ext; [exact H0|]. intros d Hd. cbv beta.
    destruct (Z.ltb_spec d 1), (Z.eqb_spec d 0) as [->|]; done || lia || idtac.
    unfold dense. simpl. change 1 with (0 + 1). rewrite !B_next, !B_0. lia.
  - intros i kd kn' ev' Hi (-> & -> & Hk). apply wp_bind. eapply wp_opt; [apply (holds_get _ _ _ (i - 1) Hk); lia|].
    apply wp_bind. eapply wp_opt; [apply (holds_get _ _ _ i H); lia|].
    destruct (holds_set _ _ _ i (dense p q i) Hk ltac:(lia)) as (kd2 & E2 & H2).
    eapply wp_opt; [rewrite <- E2; f_equal|].
    { destruct (Z.ltb_spec (i - 1) i); [|lia]. unfold dense. replace (i - 1 + 1) with i by lia. rewrite !(B_next i). lia. }
    split_and!; [done|done|]. eapply holds_ext; [exact H2|]. intros d Hd. cbv beta.
    destruct (Z.eqb_spec d i) as [->|]; [by destruct (Z.ltb_spec i (i + 1)); [|lia]|].
    destruct (Z.ltb_spec d i), (Z.ltb_spec d (i + 1)); done || lia.
  - intros kd kn' ev' (-> & -> & Hk). apply wp_ret, HPhi; [done|]. eapply holds_ext; [exact Hk|]. intros d Hd. cbv beta.
    by destruct (Z.ltb_spec d r); [|lia].
Qed.

(** The sorted keys at the end of the phase. *)
Context (to : Z) (Hto : 0 <= to < 2).
Hypothesis Hsorted : forall i, 0 <= i < g_num_keys G -> znth (csort dig (Z.to_nat r) ks) i = Some (sg (Key to i)).

Lemma permute_wp kn ev p q pr (Phi : (loc -> Prop) -> list event -> priv -> Prop) :
  0 <= p <= q -> q <= g_num_keys G ->
  holds r (rank_ff pr) (fun d => below dig d ks + C d p) -> (forall i, kn (Key from i)) ->
  (forall kn' rf, (forall i, p <= i < q -> kn' (Key to (place dig ks (Z.to_nat i)))) -> sized r rf ->
     Phi kn' ev (Priv (rank_me pr) (key_density pr) rf)) ->
  wpk kn ev (permute G l from to p q pr) Phi.
Proof.
  intros Hpq Hq Hrf Hkn HPhi. unfold permute. apply wp_bind.
  apply (wp_for _ _ _ _ (fun i rf kn' ev' => ev' = ev /\ (forall i, kn' (Key from i)) /\
    (forall j, p <= j < i -> kn' (Key to (place dig ks (Z.to_nat j)))) /\ holds r rf (fun d => below dig d ks + C d i))); [lia| | |].
  - split_and!; [done|done|lia|done].
  - intros i rf kn' ev' Hi (-> & Hk & Hj & H). apply wp_bind, wp_read; [apply keys_valid; lia|done|].
    pose proof (Hks i ltac:(lia)) as Hx. set (x := sg (Key from i)) in *. rewrite digit_spec by done.
    pose proof (dig_bound x) as Hd. apply wp_bind. eapply wp_opt; [by apply (holds_get _ _ _ (dig x) H)|].
    apply wp_bind, wp_read; [apply keys_valid; lia|done|].
    assert (ks !! Z.to_nat i = Some x) as Hx' by (by rewrite <- znth_nat, Z2Nat.id by lia).
    assert (place dig ks (Z.to_nat i) = below dig (dig x) ks + C (dig x) i) as Hp by (unfold place; by rewrite Hx').
    pose proof (place_bound dig (Z.to_nat r) ks (Z.to_nat i) (digits_ok r l ks ltac:(lia)) ltac:(lia)) as Hpb.
    pose proof (csort_place dig (Z.to_nat r) ks _ _ (digits_ok r l ks ltac:(lia)) Hx') as Hpl.
    rewrite <- Hp. apply wp_bind, wp_write; [apply keys_valid; lia| |].
    { pose proof (Hsorted (place dig ks (Z.to_nat i)) ltac:(lia)) as Hs. unfold znth in Hs.
      destruct (Z.ltb_spec (place dig ks (Z.to_nat i)) 0); [lia|]. fold x. congruence. }
    destruct (holds_set _ _ _ (dig x) (place dig ks (Z.to_nat i) + 1) H Hd) as (rf2 & E2 & H2).
    eapply wp_opt; [exact E2|]. split_and!; [done|auto| |].
    + intros j Hj'. destruct (Z.eq_dec j i) as [->|]; [by left|right; apply Hj; lia].
    + eapply holds_ext; [exact H2|]. intros d _. cbv beta. rewrite (C_next d i x Hx).
      destruct (Z.eqb_spec d (dig x)) as [->|]; lia.
  - intros rf kn' ev' (-> & Hk & Hj & H). apply wp_ret, HPhi; [done|]. by destruct H.
Qed.
End Pass.
End Count.
End RadixCount.
