(* ===== verification/RadixMain.v ===== *)
(** * RadixMain: every execution of the radix sort sorts

    The phases of [slave_sort] put together: for every number of threads that
    is a power of two, every radix that is a power of two, and every order in
    which the threads run, the program ends with the keys sorted. *)

From stdpp Require Import base list option sets sorting relations.
From S2P Require Import Prelude Phases PhaseRule Radix RadixKeys RadixTree RadixSort RadixSweeps RadixCount.
Local Open Scope Z_scope.

Module RadixMain.
Import Radix RadixKeys RadixTree RadixSort RadixSweeps RadixCount.

(** What the set-up of [main] gives. *)
Record good (G : globals) (h b D : nat) : Prop := {
  good_P : g_P G = pw h;
  good_h : (h <= 6)%nat;
  good_r : g_radix G = pw b;
  good_b : (1 <= b <= 12)%nat;
  good_log : log2_radix G = Z.of_nat b;
  good_D : max_num_digits G = Z.of_nat D;
  good_D1 : (1 <= D)%nat;
  good_n : 1 <= g_num_keys G < 2 ^ 31;
  good_m : 1 <= g_max_key G < 2 ^ 31;
  good_md : g_max_key G < pw b ^ Z.of_nat D;
  good_kp : key_partition G = cut (g_P G) (g_num_keys G) <$> seq 0 (S (Z.to_nat (g_P G)));
  good_rp : rank_partition G = cut (g_P G) (g_radix G) <$> seq 0 (S (Z.to_nat (g_P G))) }.

Section Main.
Context (G : globals) (h b D : nat) (Hg : good G h b D).
Local Abbreviation P := (pw h).
Local Abbreviation N := (Z.to_nat (pw h)).
Local Abbreviation r := (g_radix G).
Local Abbreviation n := (g_num_keys G).
Local Abbreviation V := (valid G).
Local Abbreviation VF := (valid_pause G).

Lemma r_bound : 2 <= r <= MAX_RADIX.
Proof.
  rewrite (good_r _ _ _ _ Hg). destruct (good_b _ _ _ _ Hg).
  pose proof (pw_le 1 b ltac:(done)). pose proof (pw_le b 12 ltac:(done)).
  change (pw 1) with 2 in *. change (pw 12) with 4096 in *. unfold MAX_RADIX. lia.
Qed.

(** The part of thread [t]. *)
Definition kp (t : nat) : Z := cut P n t.
Lemma kp_0 : kp 0 = 0.
Proof. apply cut_0. Qed.
Lemma kp_N : kp N = n.
Proof. apply cut_last, pw_pos. Qed.
Lemma kp_mono s t : (s <= t)%nat -> kp s <= kp t.
Proof. apply cut_mono; [apply pw_pos|]. destruct (good_n _ _ _ _ Hg). lia. Qed.
Lemma kp_bound t : (t < N)%nat -> 0 <= kp t <= kp (S t) /\ kp (S t) <= n.
Proof.
  intros Ht. pose proof (kp_mono 0 t ltac:(lia)). pose proof (kp_mono t (S t) ltac:(lia)).
  pose proof (kp_mono (S t) N ltac:(lia)). rewrite kp_0, kp_N in *. lia.
Qed.
Lemma kp_find i : 0 <= i < n -> exists t, (t < N)%nat /\ kp t <= i < kp (S t).
Proof.
  intros Hi. assert (forall m, i < kp m -> exists t, (t < m)%nat /\ kp t <= i < kp (S t)) as H.
  { induction m as [|m IH]; intros Hm; [rewrite kp_0 in Hm; lia|].
    destruct (Z.lt_ge_cases i (kp m)) as [Hlt|]; [|exists m; split; lia].
    destruct (IH Hlt) as (t & ? & ?). exists t. split; lia. }
  apply H. rewrite kp_N. lia.
Qed.

(** Private arrays of the right size. *)
Definition wf_priv (pr : priv) : Prop := sized r (rank_me pr) /\ sized r (key_density pr) /\ sized r (rank_ff pr).

(** ** The rest of a thread, at the barriers *)

Definition loop_body (t : nat) := sort_digit G (Z.of_nat t) (kp t) (kp (S t)).
Definition finish (t : nat) (st : priv * Z * Z) : thread unit :=
  let '(pr, from, to) := st in
  BARRIER barrier_rank ;! (if Z.of_nat t =? 0 then write Final to else Ret tt).
(** At the start of the iteration [l]. *)
Definition tail (l : nat) (t : nat) (st : priv * Z * Z) : thread unit :=
  bind (iter (D - l) (Z.of_nat l) st (loop_body t)) (finish t).

(** Inside the iteration [l]: behind barriers 5, 4 and 3. *)
Definition stage5 (l t : nat) (from to : Z) (pr : priv) : thread (priv * Z * Z) :=
  let! pr := permute G (Z.of_nat l) from to (kp t) (kp (S t)) pr in
  let (from, to) := if negb (Z.of_nat l =? max_num_digits G - 1) then (Z.lxor from 1, Z.lxor to 1) else (from, to) in
  BARRIER barrier_rank ;! Ret (pr, from, to).
Definition stage4 (l t : nat) (from to : Z) (pr : priv) : thread (priv * Z * Z) :=
  let! pr := down_sweep G (Z.of_nat t) pr in BARRIER barrier_rank ;! stage5 l t from to pr.
Definition stage3 (l t : nat) (from to : Z) (pr : priv) : thread (priv * Z * Z) :=
  up_sweep G (Z.of_nat t) pr ;! BARRIER barrier_rank ;! stage4 l t from to pr.
Definition within_digit (l t : nat) (p : thread (priv * Z * Z)) : thread unit :=
  bind (bind p (fun st => iter (D - S l) (Z.of_nat l + 1) st (loop_body t))) (finish t).

Lemma tail_unfold l t pr from to : (l < D)%nat ->
  tail l t (pr, from, to) = within_digit l t
    (let! pr := histogram G (Z.of_nat l) from (kp t) (kp (S t)) pr in BARRIER barrier_rank ;! stage3 l t from to pr).
Proof. intros Hl. unfold tail. replace (D - l)%nat with (S (D - S l)) by lia. done. Qed.

(** Which of the two arrays has the keys before iteration [l]. *)
Definition side (l : nat) : Z := if Nat.even l then 0 else 1.
Lemma side_bound l : 0 <= side l < 2.
Proof. unfold side. destruct (Nat.even l); lia. Qed.
Lemma side_S l : Z.lxor (side l) 1 = side (S l).
Proof. unfold side. rewrite Nat.even_succ, <- Nat.negb_even. by destruct (Nat.even l). Qed.
Lemma side_ne l : side (S l) <> side l.
Proof. unfold side. rewrite Nat.even_succ, <- Nat.negb_even. by destruct (Nat.even l). Qed.

(** [ks] are the keys in array [f]. *)
Definition keys_in (m : loc -> Z) (f : Z) (ks : list Z) : Prop :=
  zlen ks = n /\ forall i, 0 <= i < n -> znth ks i = Some (m (Key f i)).
Definition flags_down (fl : Z -> bool) : Prop := forall f, 0 <= f < 2 * P - 1 -> fl f = false.

(** All threads at the start of iteration [l], with the keys [ks]. *)
Definition at_digit (l : nat) (ks : list Z) (c : cfg loc) : Prop :=
  idx c = N /\ keys_in (mem c) (side l) ks /\ flags_down (flag c) /\
  forall t, (t < N)%nat -> exists pr from to, wf_priv pr /\ thr c t = tail l t (pr, from, to) /\
    (if decide (l < D)%nat then from = side l /\ to = side (S l) else to = side l).

Lemma pw_N : (0 < N)%nat.
Proof. pose proof (pw_pos h). lia. Qed.

(** ** One digit *)

Section Digit.
Context (l : nat) (Hl : (l < D)%nat) (ks : list Z) (Q : cfg loc -> Prop).
Local Abbreviation L := (Z.of_nat l).
Local Abbreviation dig := (digit_of r L).
Local Abbreviation from := (side l).
Local Abbreviation to := (side (S l)).
Local Abbreviation ending := (ends N V VF Q).

(** What thread [z] brings to the tree. *)
Definition t_hist (z d : Z) : Z := hist G L ks (kp (Z.to_nat z)) (kp (S (Z.to_nat z))) d.
Definition t_dense (z d : Z) : Z := dense G L ks (kp (Z.to_nat z)) (kp (S (Z.to_nat z))) d.

Lemma acc_telescope (f : Z -> Z) t : f 0 = 0 ->
  acc (fun z => f (kp (S (Z.to_nat z))) - f (kp (Z.to_nat z))) (Z.of_nat t) = f (kp t).
Proof.
  intros H0. induction t as [|t IH]; [by rewrite acc_0, kp_0|].
  rewrite Nat2Z.inj_succ. unfold Z.succ. rewrite acc_S, IH by lia. rewrite Nat2Z.id. lia.
Qed.

(** Behind barrier 3. *)
Definition at3 (c : cfg loc) : Prop :=
  idx c = N /\ keys_in (mem c) from ks /\ flags_down (flag c) /\
  forall t, (t < N)%nat -> exists pr, holds r (rank_me pr) (t_hist (Z.of_nat t)) /\
    holds r (key_density pr) (t_dense (Z.of_nat t)) /\ sized r (rank_ff pr) /\
    thr c t = within_digit l t (stage3 l t from to pr).
(** Behind barrier 4. *)
Definition at4 (c : cfg loc) : Prop :=
  idx c = N /\ keys_in (mem c) from ks /\ flags_down (flag c) /\
  (forall k o i, in_tree h k o -> kept h k o -> 0 <= i < r -> mem c (Rank (node h k o) i) = seg (fun z => t_hist z i) k o) /\
  (forall i, 0 <= i < r -> mem c (Dens (root h) i) = below dig (i + 1) ks) /\
  forall t, (t < N)%nat -> exists pr, wf_priv pr /\ thr c t = within_digit l t (stage4 l t from to pr).
(** Behind barrier 5. *)
Definition at5 (c : cfg loc) : Prop :=
  idx c = N /\ keys_in (mem c) from ks /\ flags_down (flag c) /\
  forall t, (t < N)%nat -> exists pr, wf_priv pr /\
    holds r (rank_ff pr) (fun d => below dig d ks + C G L ks d (kp t)) /\
    thr c t = within_digit l t (stage5 l t from to pr).

Lemma phase3 c : at_digit l ks c -> (forall c', at3 c' -> ending c') -> ending c.
Proof.
  intros (Hi & Hk & Hf & Ht) Hend. pose proof r_bound as Hrb. destruct Hg.
  apply (phase_quiet N pw_N V VF (mem c) (fun t q => exists pr, holds r (rank_me pr) (t_hist (Z.of_nat t)) /\
    holds r (key_density pr) (t_dense (Z.of_nat t)) /\ sized r (rank_ff pr) /\
    q = within_digit l t (stage3 l t from to pr)) (fun _ _ => False) barrier_rank); [lia| |by left|].
  - intros t Ht'. destruct (Ht t Ht') as (pr & f & g & (Hrm & Hkd & Hrf) & -> & Hfg).
    rewrite decide_True in Hfg by done. destruct Hfg as [-> ->]. rewrite tail_unfold by done. apply ok_bind3.
    pose proof (kp_bound t Ht') as Hkb.
    eapply (histogram_wp G b); [done|done|lia|lia|apply side_bound|apply Hk|lia|lia|done|done|done|].
    intros rm kd Hrm' Hkd'. simpl. split; [done|]. split; [|done]. eexists. split; [done|].
    exists (Priv rm kd (rank_ff pr)). unfold t_hist, t_dense. rewrite Nat2Z.id. simpl. done.
  - intros c' Hi' Ht' Hm' Hf'. apply Hend. split_and!; [done| | |done].
    + destruct Hk as [Hlen Hk]. split; [done|]. intros i Hin. by rewrite Hk, Hm'.
    + intros f Hin. rewrite Hf'. auto.
Qed.

Lemma phase4 c : at3 c -> (forall c', at4 c' -> ending c') -> ending c.
Proof.
  intros (Hi & Hk & Hf & Ht) Hend. pose proof r_bound as Hrb. destruct Hg.
  apply (phase_barrier N pw_N V VF (up_mem G h t_dense t_hist (mem c)) (up_K G h) (fun t => up_evs h (Z.of_nat t)) Z.to_nat
    (fun t q => exists pr, wf_priv pr /\ q = within_digit l t (stage4 l t from to pr))
    (fun t l => forall kn, (forall j, (j <= trail h (Z.of_nat t))%nat -> knows G h (Z.of_nat t) kn j) -> kn l) barrier_rank);
    [by apply up_schedule|lia| | |].
  - intros t Ht'. destruct (Ht t Ht') as (pr & Hrm & Hkd & Hrf & ->). apply ok_bind3.
    apply up_sweep_wp; [done|done|lia|lia|done|done|]. intros kn' Hkn. simpl. split; [done|]. split; [|by intros x HW; apply HW].
    eexists. split; [done|]. exists pr. split; [|done]. destruct Hrm, Hkd. done.
  - intros x. destruct (up_covered G h good_h0 t_dense t_hist (mem c) x) as [|(t & Ht' & HW)]; [by left|right].
    exists (Z.to_nat t). split; [lia|]. by rewrite Z2Nat.id by lia.
  - intros c' (Hi' & Ht' & Hm' & Hf'). apply Hend. split_and!; [done| | | | |done].
    + destruct Hk as [Hlen Hk]. split; [done|]. intros i Hin. by rewrite Hk, Hm'.
    + intros f Hin. apply not_true_is_false. rewrite Hf'. apply up_flags; auto.
    + intros k o i Hin Hkept Hir. rewrite Hm'. by apply up_mem_rank.
    + intros i Hir. rewrite Hm', root_node, up_mem_dens by (done || (split; [lia|]; rewrite Nat.sub_diag; done)).
      pose proof (pw_pos h). unfold seg. rewrite Z.mul_0_l, acc_0, Z.add_0_l, Z.mul_1_l.
      unfold t_dense, dense. replace (pw h) with (Z.of_nat N) by lia.
      rewrite (acc_telescope (fun x => B G L ks (i + 1) x)) by apply B_d0. rewrite kp_N, (B_all G L ks) by apply Hk. lia.
Qed.

Lemma phase5 c : at4 c -> (forall c', at5 c' -> ending c') -> ending c.
Proof.
  intros (Hi & Hk & Hf & Hrk & Hroot & Ht) Hend. pose proof r_bound as Hrb. destruct Hg.
  apply (phase_barrier N pw_N V VF (down_mem G h (mem c)) (down_K G h) (fun t => down_evs h (Z.of_nat t)) (fun f => Z.to_nat (2 * P - f))
    (fun t q => exists pr, wf_priv pr /\ holds r (rank_ff pr) (fun d => below dig d ks + C G L ks d (kp t)) /\
       q = within_digit l t (stage5 l t from to pr))
    (fun t l => forall kn, (forall i, 0 <= i < r -> kn (Dens (last_node h (Z.of_nat t)) i)) -> kn l) barrier_rank);
    [by apply down_schedule|lia| | |].
  - intros t Ht'. destruct (Ht t Ht') as (pr & (Hrm & Hkd & Hrf) & ->). apply ok_bind3.
    apply (down_sweep_wp G h good_P0 good_h0 ltac:(lia) t_hist (mem c)); [done|lia|done|done|].
    intros kn' rf Hown Hrf'. simpl. split; [done|]. split; [|by intros x HW; apply HW]. eexists. split; [done|].
    exists (Priv (rank_me pr) (key_density pr) rf). split; [by destruct Hrf'|]. split; [|done].
    eapply holds_ext; [exact Hrf'|]. intros d Hd. unfold first_places, t_hist, hist.
    rewrite (acc_telescope (fun x => C G L ks d x)) by apply C_0.
    destruct (Z.eqb_spec d 0) as [->|]; [rewrite below_0; [lia|]|rewrite Hroot by lia; replace (d - 1 + 1) with d by lia; lia].
    apply Forall_true. intros x. apply digit_of_bound. lia.
  - intros x. destruct (down_covered G h good_h0 (mem c) x) as [|(t & Ht' & HW)]; [by left|right].
    exists (Z.to_nat t). split; [lia|]. by rewrite Z2Nat.id by lia.
  - intros c' (Hi' & Ht' & Hm' & Hf'). apply Hend. split_and!; [done| | |done].
    + destruct Hk as [Hlen Hk]. split; [done|]. intros i Hin. by rewrite Hk, Hm'.
    + intros f Hin. apply not_true_is_false. rewrite Hf'. apply down_flags; auto.
Qed.

(** The memory after the permutation. *)
Definition sorted_mem (m : loc -> Z) (x : loc) : Z :=
  match x with
  | Key f i => if (f =? to) && within 0 n i then default 0 (znth (csort dig (Z.to_nat r) ks) i) else m x
  | _ => m x
  end.

Lemma csort_len : zlen ks = n -> zlen (csort dig (Z.to_nat r) ks) = n.
Proof.
  intros H. rewrite (csort_perm dig (Z.to_nat r) ks); [done|]. apply digits_ok. pose proof r_bound. lia.
Qed.

Lemma phase6 c : at5 c -> (forall c', at_digit (S l) (csort dig (Z.to_nat r) ks) c' -> ending c') -> ending c.
Proof.
  intros (Hi & [Hlen Hk] & Hf & Ht) Hend. pose proof r_bound as Hrb. destruct Hg.
  assert (forall i, 0 <= i < n -> znth (csort dig (Z.to_nat r) ks) i = Some (sorted_mem (mem c) (Key to i))) as Hs.
  { intros i Hin. unfold sorted_mem, within. rewrite Z.eqb_refl.
    destruct (Z.leb_spec 0 i), (Z.ltb_spec i n); try lia. simpl.
    destruct (znth_Some (csort dig (Z.to_nat r) ks) i) as [x ->]; [by rewrite csort_len|done]. }
  assert (forall i, sorted_mem (mem c) (Key from i) = mem c (Key from i)) as Hfrom.
  { intros i. unfold sorted_mem. destruct (Z.eqb_spec from to) as [E|]; [|done]. by destruct (side_ne l). }
  apply (phase_quiet N pw_N V VF (sorted_mem (mem c)) (fun t q => exists pr f g, wf_priv pr /\ q = tail (S l) t (pr, f, g) /\
      (if decide (S l < D)%nat then f = side (S l) /\ g = side (S (S l)) else g = side (S l)))
    (fun t x => exists i, kp t <= i < kp (S t) /\ x = Key to (place dig ks (Z.to_nat i))) barrier_rank); [lia| | |].
  - intros t Ht'. destruct (Ht t Ht') as (pr & (Hrm & Hkd & Hrf) & Hff & ->). apply ok_bind3.
    pose proof (kp_bound t Ht') as Hkb.
    eapply (permute_wp G b); [done|done|lia|lia|done|apply side_bound| |apply side_bound|exact Hs|lia|lia|exact Hff| |].
    + intros i Hin. by rewrite Hfrom, Hk.
    + intros i. symmetry. apply Hfrom.
    + intros kn' rf Hkn Hrf'. rewrite good_D0.
      destruct (Z.eqb_spec L (Z.of_nat D - 1)) as [El|El]; cbn [negb]; (split; [done|split; [|by intros x (i & Hin & ->); auto]]);
        eexists; (split; [reflexivity|]); exists (Priv (rank_me pr) (key_density pr) rf).
      * exists from, to. split; [done|]. split; [unfold tail; by rewrite Nat2Z.inj_succ|]. by rewrite decide_False by lia.
      * exists to, (side (S (S l))). split; [done|]. rewrite !side_S. split; [unfold tail; by rewrite Nat2Z.inj_succ|].
        by rewrite decide_True by lia.
  - intros x. destruct x as [f i| | |]; try (by left). unfold sorted_mem at 1.
    destruct ((f =? to) && within 0 n i) eqn:E; [|by left]. right. unfold within in E.
    apply andb_prop in E as [->%Z.eqb_eq E].
    destruct (place_surj dig (Z.to_nat r) ks i (digits_ok r L ks ltac:(lia)) ltac:(lia)) as (j & Hj & <-).
    destruct (kp_find (Z.of_nat j) ltac:(lia)) as (t & Ht' & Hjt). exists t. split; [done|].
    exists (Z.of_nat j). split; [done|]. by rewrite Nat2Z.id.
  - intros c' Hi' Ht' Hm' Hf'. apply Hend. split_and!; [done| | |done].
    + split; [by apply csort_len|]. intros i Hin. by rewrite Hm', Hs.
    + intros f Hin. rewrite Hf'. auto.
Qed.

Lemma digit_sorted c :
  at_digit l ks c -> (forall c', at_digit (S l) (csort dig (Z.to_nat r) ks) c' -> ending c') -> ending c.
Proof. eauto using phase3, phase4, phase5, phase6. Qed.
End Digit.

(** ** All the digits, the start and the end *)

Lemma digits_sorted ks0 Q k : forall l c, (D - l = k)%nat -> (l <= D)%nat -> at_digit l (lsd r l ks0) c ->
  (forall c', at_digit D (lsd r D ks0) c' -> ends N V VF Q c') -> ends N V VF Q c.
Proof.
  induction k as [|k IH]; intros l c Hk Hl Hc Hend.
  - apply Hend. by replace D with l by lia.
  - eapply (digit_sorted l ltac:(lia)); [exact Hc|]. intros c' Hc'. apply (IH (S l)); [lia|lia|done|done].
Qed.

(** The keys before sorting. *)
Definition first_keys : list Z := (fun i => key_number (g_max_key G) (Z.of_nat i)) <$> seq 0 (Z.to_nat n).
Lemma first_keys_nth i : 0 <= i < n -> znth first_keys i = Some (key_number (g_max_key G) i).
Proof.
  intros Hi. unfold znth, first_keys. destruct (Z.ltb_spec i 0); [lia|].
  rewrite list_lookup_fmap, lookup_seq_lt by lia. simpl. by rewrite Z2Nat.id by lia.
Qed.
Lemma first_keys_len : zlen first_keys = n.
Proof. unfold first_keys. rewrite length_fmap, length_seq. destruct (good_n _ _ _ _ Hg). lia. Qed.
Lemma first_keys_bound : Forall (fun x => 0 <= x < r ^ Z.of_nat D) first_keys.
Proof.
  apply Forall_fmap, Forall_true. intros i. destruct Hg. unfold compose.
  pose proof (key_number_bound (g_max_key G) (Z.of_nat i) ltac:(lia)). rewrite good_r0. lia.
Qed.

Definition init_mem (m : loc -> Z) (x : loc) : Z :=
  match x with
  | Key f i => if (f =? 0) && within 0 n i then key_number (g_max_key G) i else m x
  | _ => m x
  end.
Lemma init_mem_key m i : 0 <= i < n -> init_mem m (Key 0 i) = key_number (g_max_key G) i.
Proof. intros Hi. unfold init_mem, within. simpl. destruct (Z.leb_spec 0 i), (Z.ltb_spec i n); try lia. done. Qed.

Lemma part_nth total t : (t <= N)%nat -> znth (cut (g_P G) total <$> seq 0 (S (Z.to_nat (g_P G)))) (Z.of_nat t) = Some (cut P total t).
Proof.
  intros Ht. rewrite (good_P _ _ _ _ Hg), znth_nat, list_lookup_fmap, lookup_seq_lt by lia. done.
Qed.

Lemma start_sorted pr m Q :
  (forall t, wf_priv (pr t)) -> (forall c', at_digit 0 first_keys c' -> ends N V VF Q c') ->
  ends N V VF Q (start G pr m).
Proof.
  intros Hpr Hend. pose proof (good_n _ _ _ _ Hg) as Hnn.
  apply (phase_quiet N pw_N V VF (init_mem m)
    (fun t q => q = Barrier barrier_key (tail 0 t (pr t, 0, 1))) (fun t x => exists i, kp t <= i < kp (S t) /\ x = Key 0 i) barrier_key);
    [simpl; lia| | |].
  - intros t Ht. pose proof (kp_bound t Ht) as Hkb. simpl thr. unfold slave_sort.
    replace (Z.of_nat t + 1) with (Z.of_nat (S t)) by lia.
    rewrite (good_kp _ _ _ _ Hg), (good_rp _ _ _ _ Hg), !part_nth by lia. cbn [opt bind]. fold (kp t) (kp (S t)).
    apply ok_bind, init_wp; [lia|lia|lia| |].
    + intros i Hi. apply init_mem_key. lia.
    + intros kn' _ Hkn. simpl. split; [done|]. split; [|by intros x (i & Hi & ->); auto]. eexists. split; [done|].
      unfold tail, for_. by rewrite (good_D _ _ _ _ Hg), Z.sub_0_r, Nat2Z.id, Nat.sub_0_r.
  - intros x. simpl mem. destruct x as [f i| | |]; try (by left). unfold init_mem.
    destruct ((f =? 0) && within 0 n i) eqn:E; [|by left]. right. unfold within in E.
    apply andb_prop in E as [->%Z.eqb_eq E]. destruct (kp_find i ltac:(lia)) as (t & Ht & Hi). eauto.
  - intros c1 Hi1 Ht1 Hm1 Hf1. apply (ends_barrier N V VF pw_N Q c1 barrier_key (fun t q => q = tail 0 t (pr t, 0, 1))); [done| |].
    + intros t Ht. rewrite (Ht1 t Ht). eauto.
    + intros c2 Hi2 Ht2 Hm2 Hf2. apply Hend. split_and!; [done| | |].
      * split; [apply first_keys_len|]. intros i Hi. rewrite first_keys_nth, Hm2, Hm1 by done. by rewrite init_mem_key.
      * intros f Hf. by rewrite Hf2, Hf1.
      * intros t Ht. exists (pr t), 0, 1. split; [apply Hpr|]. split; [by apply Ht2|].
        destruct Hg. by rewrite decide_True by lia.
Qed.

Lemma end_sorted ks Q c :
  at_digit D ks c ->
  (forall c', mem c' Final = side D -> keys_in (mem c') (side D) ks -> Q c') -> ends N V VF Q c.
Proof.
  intros (Hi & [Hlen Hk] & Hf & Ht) HQ.
  apply (ends_barrier N V VF pw_N Q c barrier_rank (fun t q => q = if Z.of_nat t =? 0 then write Final (side D) else Ret tt)); [done| |].
  { intros t Ht'. destruct (Ht t Ht') as (pr & f & g & _ & -> & Hg'). rewrite decide_False in Hg' by lia. subst g.
    unfold tail. rewrite Nat.sub_diag. simpl. eauto. }
  intros c1 Hi1 Ht1 Hm1 Hf1. set (sg := fun x => match x with Final => side D | _ => mem c1 x end).
  apply (phase N V VF sg (fun _ _ => False) (fun _ => []) (fun _ => O) (mem c1) (flag c1) (schedule_none N (flag c1))
    (fun _ q => q = Ret tt) (fun t x => t = O /\ x = Final)); [lia|done|done| | |].
  - intros t Ht'. rewrite (Ht1 t Ht'). destruct (Z.eqb_spec (Z.of_nat t) 0) as [E|E]; simpl.
    + split_and!; try done. intros x [_ ->]. by left.
    + split_and!; try done. intros x [-> _]. done.
  - intros [| | |]; try (by left). right. exists 0%nat. split; [apply pw_N|done].
  - intros c' (Hi' & Ht' & Hm' & Hf'). apply ends_finished; [apply pw_N|done|]. apply HQ; [by rewrite Hm'|].
    split; [done|]. intros i Hin. rewrite Hk, Hm' by done. simpl. by rewrite Hm1.
Qed.

Lemma sorted_no_mistakes ks : StronglySorted Z.le ks -> mistakes ks = 0.
Proof.
  induction 1 as [|x ks Hs IH Hf]; [done|]. destruct ks as [|y ks]; [done|]. apply Forall_cons in Hf as [Hxy _].
  cbn [mistakes] in *. destruct (Z.ltb_spec y x); lia.
Qed.

(** What the program promises when it ends. *)
Definition sorted_result (c : cfg loc) : Prop :=
  exists ks, keys_in (mem c) (mem c Final) ks /\ StronglySorted Z.le ks /\ ks ≡ₚ first_keys /\ test_sort ks = true.

Lemma slave_sort_sorts pr m : (forall t, wf_priv (pr t)) -> ends N V VF sorted_result (start G pr m).
Proof.
  intros Hpr. pose proof r_bound as Hrb. apply start_sorted; [done|]. intros c Hc.
  apply (digits_sorted first_keys sorted_result D 0 c); [lia|lia|done|]. intros c' Hc'.
  eapply end_sorted; [exact Hc'|]. intros c'' HF Hks. exists (lsd r D first_keys).
  assert (StronglySorted Z.le (lsd r D first_keys)) as Hs by (apply lsd_sorted; [lia|apply first_keys_bound]).
  split_and!; [by rewrite HF|done|apply lsd_perm; lia|]. unfold test_sort. by rewrite sorted_no_mistakes.
Qed.
End Main.

(** ** The whole program *)

Lemma setup_good s h b :
  number_of_processors s = 2 ^ Z.of_nat h -> (h <= 6)%nat -> radix s = 2 ^ Z.of_nat b -> (1 <= b <= 12)%nat ->
  1 <= num_keys s < 2 ^ 31 -> 1 <= max_key s < 2 ^ 31 ->
  exists G D, setup s = Some G /\ good G h b D /\ g_num_keys G = num_keys s /\ g_max_key G = max_key s.
Proof.
  intros HP Hh Hr Hb Hn Hm. fold (pw h) in HP. fold (pw b) in Hr. pose proof (pw_pos h). pose proof (pw_pos b).
  pose proof (pw_le 1 b ltac:(lia)) as Hb1. change (pw 1) with 2 in Hb1.
  destruct (get_max_digits_spec (radix s) (max_key s)) as (d & Ed & Hd1 & Hd2 & _); [lia|lia|].
  assert (log_2 (radix s) = Z.of_nat b) as El by (apply log_2_spec; [lia|split; [done|lia]]).
  unfold setup. rewrite Ed, !partition_spec by lia. rewrite El.
  eexists _, (Z.to_nat d). split; [reflexivity|]. split; [|done].
  split; cbn [g_P g_radix g_num_keys g_max_key log2_radix max_num_digits key_partition rank_partition]; try done; try lia.
  rewrite Z2Nat.id by lia. by rewrite <- Hr.
Qed.

(** C19. The radix sort is correct under every schedule: with a number of
    processors and a radix that are powers of two, within the limits of the
    arrays, every execution of the threads ends, no access is outside an
    array, no thread waits for ever, and [key[global->final]] is then the
    sorted permutation of the generated keys, which do not depend on the
    number of processors; [test_sort] finds no mistake. *)
Theorem radix_sorts s h b :
  number_of_processors s = 2 ^ Z.of_nat h -> (h <= 6)%nat -> radix s = 2 ^ Z.of_nat b -> (1 <= b <= 12)%nat ->
  1 <= num_keys s < 2 ^ 31 -> 1 <= max_key s < 2 ^ 31 ->
  exists G, setup s = Some G /\
    forall pr m, (forall t, length (rank_me (pr t)) = Z.to_nat (radix s) /\
                   length (key_density (pr t)) = Z.to_nat (radix s) /\ length (rank_ff (pr t)) = Z.to_nat (radix s)) ->
    ends (Z.to_nat (number_of_processors s)) (valid G) (valid_pause G)
      (fun c => exists ks,
         zlen ks = num_keys s /\
         (forall i, 0 <= i < num_keys s -> znth ks i = Some (mem c (Key (mem c Final) i))) /\
         StronglySorted Z.le ks /\
         ks ≡ₚ ((fun i => key_number (max_key s) (Z.of_nat i)) <$> seq 0 (Z.to_nat (num_keys s))) /\
         test_sort ks = true)
      (start G pr m).
Proof.
  intros HP Hh Hr Hb Hn Hm. destruct (setup_good s h b) as (G & D & Es & Hg & En & Em); [done..|].
  exists G. split; [done|]. intros pr m Hpr.
  assert (radix s = g_radix G) as Er by (rewrite (good_r _ _ _ _ Hg); done).
  assert (forall t, wf_priv G (pr t)) as Hwf.
  { intros t. destruct (Hpr t) as (H1 & H2 & H3). pose proof (r_bound G h b D Hg). unfold wf_priv, sized. rewrite <- Er in *. lia. }
  rewrite HP, <- En, <- Em. eapply ends_mono; [|by apply (slave_sort_sorts G h b D Hg pr m)].
  intros c (ks & [Hl Hk] & ?). exists ks. done.
Qed.

Lemma radix_sorts_witness :
  exists G, setup (Settings 4 16 50 1000 false false false) = Some G /\
    ends 4 (valid G) (valid_pause G)
      (fun c => exists ks, zlen ks = 50 /\
         (forall i, 0 <= i < 50 -> znth ks i = Some (mem c (Key (mem c Final) i))) /\ StronglySorted Z.le ks /\
         ks ≡ₚ ((fun i => key_number 1000 (Z.of_nat i)) <$> seq 0 50) /\ test_sort ks = true)
      (start G (fun _ => Priv (replicate 16 0) (replicate 16 0) (replicate 16 0)) (fun _ => 0)).
Proof.
  destruct (radix_sorts (Settings 4 16 50 1000 false false false) 2 4) as (G & E & H); [done|lia|done|lia|simpl; lia|simpl; lia|].
  exists G. split; [exact E|]. apply H. intros t. simpl. done.
Defined.

(** The options accept a number of processors that is not a power of two,
    and the prefix tree is then not a tree: with three processors an execution
    gets to a state in which no thread can go on and not all have ended. *)
Lemma three_processors_deadlock :
  exists s G c,
    options [(112, 3); (114, 2); (110, 3); (109, 3)] defaults = inr s /\ setup s = Some G /\
    rtc (step 3 (valid G) (valid_pause G)) (start G (fun _ => Priv [0; 0] [0; 0] [0; 0]) (fun _ => 0)) c /\
    ~ finished 3 c /\ forall c', ~ step 3 (valid G) (valid_pause G) c c'.
Proof.
  set (G := Globals 3 2 3 3 1 2 [0; 1; 2; 3] [0; 0; 1; 2]).
  set (c := round_robin 3 (valid G) (valid_pause G) 40 [barrier_key; barrier_rank]
    (start G (fun _ => Priv [0; 0] [0; 0] [0; 0]) (fun _ => 0))).
  assert (deadlocked 3 (valid G) (valid_pause G) c = true) as [Hf Hs]%deadlocked_stuck by (by vm_compute).
  exists (Settings 3 2 3 3 false false false), G, c. split_and!; [done|by vm_compute|apply round_robin_steps|done|done].
Qed.
End RadixMain.
