(* ===== verification/Pauses.v ===== *)
(** * Pauses: SETPAUSE, WAITPAUSE and CLEARPAUSE

    The pause of [codes/null_macros/c.m4.null.det]: a mutex, a condition
    variable and a flag.  The macros are run instruction by instruction, with
    the mutex and the condition variable as the runtime implements them (one
    holder; a wait gives the mutex up and takes it back after a broadcast).
    WAITPAUSE tests the flag with [if], not with [while]; what makes it one
    step for its users is that a pause has one thread that waits for it. *)

From stdpp Require Import base list option functions relations.
From S2P Require Import Prelude.

Module Pauses.

(** Where a thread is in a macro: the next instruction. *)
Inductive pc :=
| Out
| SetLock | SetFlag | SetWake | SetUnlock
| WaitLock | WaitTest | Asleep | Woken
| Clear | ClearUnlock.
#[export] Instance pc_eq_dec : EqDecision pc.
Proof. solve_decision. Defined.

Record pause := Pause { Flag : bool; holder : option nat; pcs : nat -> pc }.

(** PAUSEINIT *)
Definition PAUSEINIT : pause := Pause false None (fun _ => Out).

Inductive action := Set_ | Wait_.

(** A thread starts SETPAUSE or WAITPAUSE. *)
Definition call (t : nat) (a : action) (s : pause) : option pause :=
  match pcs s t with
  | Out => Some (Pause (Flag s) (holder s) (<[t := match a with Set_ => SetLock | Wait_ => WaitLock end]> (pcs s)))
  | _ => None
  end.

(** A broadcast wakes every thread that sleeps on the condition variable. *)
Definition wake (p : pc) : pc := match p with Asleep => Woken | p => p end.

(** The next instruction of thread [t], and the atomic action it stands for,
    if it is the one that takes effect. *)
Definition instr (t : nat) (s : pause) : option (pause * option action) :=
  let at_ fl ho p := Pause fl ho (<[t := p]> (pcs s)) in
  match pcs s t with
  | Out | Asleep => None
  | SetLock => match holder s with None => Some (at_ (Flag s) (Some t) SetFlag, None) | Some _ => None end
  | SetFlag => Some (at_ true (holder s) SetWake, Some Set_)
  | SetWake => Some (Pause (Flag s) (holder s) (<[t := SetUnlock]> (fun x => wake (pcs s x))), None)
  | SetUnlock => Some (at_ (Flag s) None Out, None)
  | WaitLock => match holder s with None => Some (at_ (Flag s) (Some t) WaitTest, None) | Some _ => None end
  | WaitTest => if Flag s then Some (at_ (Flag s) (holder s) Clear, None) else Some (at_ (Flag s) None Asleep, None)
  | Woken => match holder s with None => Some (at_ (Flag s) (Some t) Clear, None) | Some _ => None end
  | Clear => Some (at_ false (holder s) ClearUnlock, Some Wait_)
  | ClearUnlock => Some (at_ (Flag s) None Out, None)
  end.

(** Executions in which only thread [w] waits, with the actions they stand
    for. *)
Inductive runs (w : nat) : pause -> list action -> Prop :=
| runs_init : runs w PAUSEINIT []
| runs_set t s tr s' : runs w s tr -> call t Set_ s = Some s' -> runs w s' tr
| runs_wait s tr s' : runs w s tr -> call w Wait_ s = Some s' -> runs w s' tr
| runs_instr t s tr s' o : runs w s tr -> instr t s = Some (s', o) -> runs w s' (tr ++ option_list o).

(** The pause as one step per macro: a wait needs the flag and clears it. *)
Definition atomic (f : bool) (a : action) : option bool :=
  match a with Set_ => Some true | Wait_ => if f then Some false else None end.
Fixpoint atomics (f : bool) (tr : list action) : option bool :=
  match tr with [] => Some f | a :: tr => let? f := atomic f a in atomics f tr end.

(** ** The invariant *)

(** The instructions that run with the mutex. *)
Definition inside (p : pc) : bool :=
  match p with SetFlag | SetWake | SetUnlock | WaitTest | Clear | ClearUnlock => true | _ => false end.
(** The instructions of the waiting side. *)
Definition waits (p : pc) : bool :=
  match p with WaitLock | WaitTest | Asleep | Woken | Clear | ClearUnlock => true | _ => false end.

Record inv (w : nat) (s : pause) : Prop := {
  inv_holder t : inside (pcs s t) = true <-> holder s = Some t;
  inv_waiter t : waits (pcs s t) = true -> t = w;
  inv_ready : pcs s w = Woken \/ pcs s w = Clear -> Flag s = true;
  inv_set t : pcs s t = SetWake -> Flag s = true;
  inv_asleep : pcs s w = Asleep -> Flag s = true -> exists t, pcs s t = SetWake }.

(** A step of thread [t] that wakes nobody. *)
Lemma inv_step w s t p fl ho :
  inv w s ->
  (inside p = true <-> ho = Some t) ->
  (forall x, x <> t -> holder s = Some x <-> ho = Some x) ->
  (waits p = true -> t = w) ->
  (forall x, pcs s x = SetWake -> x <> t -> fl = true) ->
  (p = SetWake -> fl = true) ->
  (t = w -> p = Woken \/ p = Clear -> fl = true) -> (t <> w -> Flag s = true -> fl = true) ->
  (t = w -> p = Asleep -> fl = true -> exists x, x <> t /\ pcs s x = SetWake) ->
  (t <> w -> pcs s w = Asleep -> fl = true -> p = SetWake \/ Flag s = true /\ pcs s t <> SetWake) ->
  inv w (Pause fl ho (<[t := p]> (pcs s))).
Proof.
  intros [] Hin Hho Hw Hs Hps Hr1 Hr2 Ha1 Ha2. split; simpl.
  - intros x. destruct (decide (x = t)) as [->|]; [by rewrite fn_lookup_insert|rewrite fn_lookup_insert_ne by done].
    rewrite inv_holder0. auto.
  - intros x. destruct (decide (x = t)) as [->|]; [by rewrite fn_lookup_insert|rewrite fn_lookup_insert_ne by done]. auto.
  - destruct (decide (w = t)) as [->|]; [rewrite fn_lookup_insert|rewrite fn_lookup_insert_ne by done]; auto.
  - intros x. destruct (decide (x = t)) as [->|]; [rewrite fn_lookup_insert|rewrite fn_lookup_insert_ne by done]; eauto.
  - destruct (decide (w = t)) as [->|]; [rewrite fn_lookup_insert|rewrite fn_lookup_insert_ne by done]; intros E Hfl.
    + destruct (Ha1 eq_refl E Hfl) as (x & Hx & Hpx). exists x. by rewrite fn_lookup_insert_ne.
    + destruct (Ha2 ltac:(done) E Hfl) as [->|[Hfs Hpt]]; [exists t; by rewrite fn_lookup_insert|].
      destruct (inv_asleep0 E Hfs) as [x Hx]. exists x. rewrite fn_lookup_insert_ne by congruence. done.
Qed.

(** While a thread is inside, no other one is. *)
Lemma inside_alone w s t x : inv w s -> inside (pcs s t) = true -> inside (pcs s x) = true -> x = t.
Proof. intros Hi Ht Hx. apply (inv_holder _ _ Hi) in Ht, Hx. congruence. Qed.
Lemma free_nobody w s x : inv w s -> holder s = None -> pcs s x = SetWake -> False.
Proof. intros Hi Hn Hx. assert (inside (pcs s x) = true) as H by (by rewrite Hx). apply (inv_holder _ _ Hi) in H. congruence. Qed.

Local Ltac local_step := apply inv_step; [done|..]; simpl; intuition (try congruence); eauto using inv_set.

(** The broadcast. *)
Lemma inv_wake w s t : inv w s -> pcs s t = SetWake ->
  inv w (Pause (Flag s) (holder s) (<[t := SetUnlock]> (fun x => wake (pcs s x)))).
Proof.
  intros Hi E. pose proof (inv_set _ _ Hi t E) as Hfl.
  assert (holder s = Some t) as Hh by (apply (inv_holder _ _ Hi); by rewrite E).
  split; simpl; try done.
  - intros x. destruct (decide (x = t)) as [->|]; [by rewrite fn_lookup_insert|rewrite fn_lookup_insert_ne by done].
    rewrite <- (inv_holder _ _ Hi). by destruct (pcs s x).
  - intros x. destruct (decide (x = t)) as [->|]; [by rewrite fn_lookup_insert|rewrite fn_lookup_insert_ne by done].
    intros Hw. apply (inv_waiter _ _ Hi). by destruct (pcs s x).
  - intros Ha. exfalso. destruct (decide (w = t)) as [->|]; [by rewrite fn_lookup_insert in Ha|].
    rewrite fn_lookup_insert_ne in Ha by done. by destruct (pcs s w).
Qed.

Lemma inv_call w s t a s' : inv w s -> (a = Wait_ -> t = w) -> call t a s = Some s' -> inv w s'.
Proof.
  unfold call. intros Hi Ha Hc. destruct (pcs s t) eqn:E; try done. injection Hc as <-.
  assert (holder s <> Some t) as Hh by (intros H; apply (inv_holder _ _ Hi) in H; by rewrite E in H).
  destruct a; local_step.
Qed.

(** Every instruction keeps the invariant, and its action is one the atomic
    pause can do. *)
Lemma inv_instr w s t s' o : inv w s -> instr t s = Some (s', o) ->
  inv w s' /\ atomics (Flag s) (option_list o) = Some (Flag s').
Proof.
  unfold instr. intros Hi H.
  assert (inside (pcs s t) = true -> holder s = Some t) as Hh by apply (inv_holder _ _ Hi).
  assert (inside (pcs s t) = true -> forall x, x <> t -> pcs s x <> SetWake) as Hal.
  { intros Hin x Hx E. apply Hx, (inside_alone w s); [done|done|by rewrite E]. }
  pose proof (inv_waiter _ _ Hi t) as Hwt. pose proof (inv_set _ _ Hi) as Hset. pose proof (inv_ready _ _ Hi) as Hrd.
  pose proof (free_nobody w s) as Hfree.
  destruct (pcs s t) eqn:E; try done; simpl in *.
  - destruct (holder s) eqn:Eh; [done|]. injection H as <- <-. split; [|done].
    local_step.
  - injection H as <- <-. split; [|done]. specialize (Hh eq_refl). specialize (Hal eq_refl).
    local_step.
  - injection H as <- <-. split; [by apply inv_wake|done].
  - injection H as <- <-. split; [|done]. specialize (Hh eq_refl). specialize (Hal eq_refl).
    local_step.
  - destruct (holder s) eqn:Eh; [done|]. injection H as <- <-. split; [|done].
    local_step.
  - specialize (Hh eq_refl). specialize (Hal eq_refl). specialize (Hwt eq_refl). subst w.
    destruct (Flag s) eqn:Ef; injection H as <- <-; (split; [|done]).
    + local_step.
    + local_step.
  - destruct (holder s) eqn:Eh; [done|]. injection H as <- <-. split; [|done]. specialize (Hwt eq_refl). subst w.
    local_step.
  - injection H as <- <-. specialize (Hh eq_refl). specialize (Hal eq_refl). specialize (Hwt eq_refl). subst w.
    rewrite E in Hrd. split; [|simpl; rewrite Hrd by auto; done].
    local_step.
  - injection H as <- <-. split; [|done]. specialize (Hh eq_refl). specialize (Hal eq_refl). specialize (Hwt eq_refl). subst w.
    local_step.
Qed.

Lemma runs_inv w s tr : runs w s tr -> inv w s /\ atomics false tr = Some (Flag s).
Proof.
  induction 1 as [|t s tr s' _ [IH1 IH2] Hc|s tr s' _ [IH1 IH2] Hc|t s tr s' o _ [IH1 IH2] Hc].
  - split; [|done]. split; simpl; try done; intuition congruence.
  - split; [by eapply (inv_call w s t Set_)|]. unfold call in Hc. destruct (pcs s t); try done. by injection Hc as <-.
  - split; [by eapply (inv_call w s w Wait_)|]. unfold call in Hc. destruct (pcs s w); try done. by injection Hc as <-.
  - destruct (inv_instr w s t s' o IH1 Hc) as [Hi Ha]. split; [done|].
    assert (forall f, atomics f (tr ++ option_list o) = let? g := atomics f tr in atomics g (option_list o)) as ->.
    { clear. induction tr as [|a tr IH]; intros f; [done|]. simpl. destruct (atomic f a); [apply IH|done]. }
    by rewrite IH2.
Qed.

(** C30. A pause that one thread waits for behaves as one step per macro: the
    flags set and cleared are those of an atomic pause in which a wait needs
    the flag; and no wakeup is lost: as long as a thread is inside a macro,
    some thread can execute its next instruction, or the one that waits is
    asleep and the flag is not set. *)
Theorem pause_atomic w s tr :
  runs w s tr ->
  atomics false tr = Some (Flag s) /\
  forall t, pcs s t <> Out -> (exists x s' o, instr x s = Some (s', o)) \/ (pcs s w = Asleep /\ Flag s = false).
Proof.
  intros Hr. destruct (runs_inv w s tr Hr) as [Hi Ha]. split; [done|]. intros t Ht.
  destruct (holder s) as [x|] eqn:Eh.
  - left. exists x. apply (inv_holder _ _ Hi) in Eh. unfold instr. destruct (pcs s x); try done; eauto.
    destruct (Flag s); eauto.
  - destruct (pcs s t) eqn:E; try done.
    all: try (assert (inside (pcs s t) = true) as Hin by (by rewrite E); apply (inv_holder _ _ Hi) in Hin; congruence).
    1,2,4: left; exists t; unfold instr; rewrite E, Eh; eauto.
    right. assert (t = w) as -> by (apply (inv_waiter _ _ Hi); by rewrite E). split; [done|].
    destruct (Flag s) eqn:Ef; [|done]. destruct (inv_asleep _ _ Hi E Ef) as [x Hx].
    destruct (free_nobody w s x Hi Eh Hx).
Qed.

Lemma pause_atomic_witness :
  exists s tr, runs 1 s tr /\ pcs s 1%nat = Asleep /\ atomics false tr = Some (Flag s).
Proof.
  eexists _, _. split; [|split].
  - eapply (runs_instr 1 1). eapply (runs_instr 1 1). eapply (runs_wait 1). apply runs_init. all: reflexivity.
  - reflexivity.
  - apply (pause_atomic 1). eapply (runs_instr 1 1). eapply (runs_instr 1 1). eapply (runs_wait 1). apply runs_init. all: reflexivity.
Defined.
End Pauses.
