(* ===== verification/Lu.v ===== *)
(** * Lu: the blocked LU factorisation of splash2
      (papps/splash2/codes/kernels/lu/non_contiguous_blocks/lu.C)

    The matrix is one array [a], column after column; element [(i, j)] is
    [a[i + j * n]].  The threads are programs of Phases.v over the elements of
    [a], which are also what the pointers of the source are.  The arithmetic of
    doubles is a parameter ([arith]): nothing is assumed of it, a double is
    whatever 64 bits it is.  The block kernels, the ownership of blocks, [lu],
    [OneSolve], and the sequential [InitA] and [CheckResult] are here; times
    and statistics are left out. *)

From stdpp Require Import base list option.
From S2P Require Import Prelude Phases Doubles.
Local Open Scope Z_scope.

Module Lu.

Definition DEFAULT_N : Z := 128.
Definition DEFAULT_P : Z := 1.
Definition DEFAULT_B : Z := 16.

(** ** The set-up of [main] *)

Record settings := Settings {
  s_n : Z;
  s_P : Z;
  block_size : Z;
  dostats : bool;
  test_result : bool;
  doprint : bool }.
Definition defaults : settings := Settings DEFAULT_N DEFAULT_P DEFAULT_B false false false.

(** The loop over what [getopt] answers: a letter and the value [atoi] finds
    in its argument.  [inl e] is [exit(e)]; nothing is checked, and [-c] has no
    case. *)
Fixpoint options (os : list (Z * Z)) (s : settings) : Z + settings :=
  match os with
  | [] => inr s
  | (c, v) :: os =>
      let '(Settings n P b st te pr) := s in
      if c =? 110 then options os (Settings v P b st te pr)
      else if c =? 112 then options os (Settings n v b st te pr)
      else if c =? 98 then options os (Settings n P v st te pr)
      else if c =? 115 then options os (Settings n P b true te pr)
      else if c =? 116 then options os (Settings n P b st (negb te) pr)
      else if c =? 111 then options os (Settings n P b st te (negb pr))
      else if c =? 104 then inl 0
      else options os s
  end.

(** The grid of processors: [num_rows] starts at the integer part of the root of
    [P] and goes down to a divisor of [P]. [None] is a division by zero. *)
Fixpoint grid_loop (fuel : nat) (P num_rows : Z) : option (Z * Z) :=
  match fuel with
  | O => None
  | S fuel =>
      if num_rows =? 0 then None
      else let num_cols := Z.quot P num_rows in
           if num_rows * num_cols =? P then Some (num_rows, num_cols) else grid_loop fuel P (num_rows - 1)
  end.
Definition grid (P : Z) : option (Z * Z) := grid_loop (S (Z.to_nat (Z.sqrt P))) P (Z.sqrt P).

Definition num_blocks (n block_size : Z) : Z :=
  let nblocks := Z.quot n block_size in
  if negb (block_size * nblocks =? n) then nblocks + 1 else nblocks.

(** ** The kernels *)

(** The locations: the elements of [a]. *)
Abbreviation thread := (prog Z).

Section Kernels.
Context (F : arith Z).

(** [a[i] += alpha * b[i]] *)
Definition daxpy (a b n alpha : Z) : thread unit :=
  for_ 0 n tt (fun i _ =>
    let! x := read (a + i) in
    let! y := read (b + i) in
    write (a + i) (fadd F x (fmul F alpha y))).

Definition lu0 (a n stride : Z) : thread unit :=
  for_ 0 n tt (fun k _ =>
    for_ (k + 1) n tt (fun j _ =>
      let! x := read (a + (k + j * stride)) in
      let! d := read (a + (k + k * stride)) in
      write (a + (k + j * stride)) (fdiv F x d) ;!
      let! v := read (a + (k + j * stride)) in
      let alpha := fneg F v in
      daxpy (a + (k + 1 + j * stride)) (a + (k + 1 + k * stride)) (n - k - 1) alpha)).

Definition bdiv (a diag stride_a stride_diag dimi dimk : Z) : thread unit :=
  for_ 0 dimk tt (fun k _ =>
    for_ (k + 1) dimk tt (fun j _ =>
      let! v := read (diag + (k + j * stride_diag)) in
      let alpha := fneg F v in
      daxpy (a + j * stride_a) (a + k * stride_a) dimi alpha)).

Definition bmodd (a c dimi dimj stride_a stride_c : Z) : thread unit :=
  for_ 0 dimi tt (fun k _ =>
    for_ 0 dimj tt (fun j _ =>
      let! x := read (c + (k + j * stride_c)) in
      let! d := read (a + (k + k * stride_a)) in
      write (c + (k + j * stride_c)) (fdiv F x d) ;!
      let! v := read (c + (k + j * stride_c)) in
      let alpha := fneg F v in
      daxpy (c + (k + 1 + j * stride_c)) (a + (k + 1 + k * stride_a)) (dimi - k - 1) alpha)).

Definition bmod (a b c dimi dimj dimk stride : Z) : thread unit :=
  for_ 0 dimk tt (fun k _ =>
    for_ 0 dimj tt (fun j _ =>
      let! v := read (b + (k + j * stride)) in
      let alpha := fneg F v in
      daxpy (c + j * stride) (a + k * stride) dimi alpha)).

(** ** The threads *)

(** The sizes: of the matrix, of a block, and the number of processors. *)
Record sizes := Sizes { n : Z; bs : Z; P : Z }.
Context (G : sizes).

Definition BlockOwner (I J : Z) : Z := Z.rem (I + J) (P G).

(** [for (i = ..., I = ...; i < n; i += bs, I++)]; it ends because [bs] is at
    least one, and with a smaller one the fuel, one round for every row, does
    not suffice. *)
Fixpoint for_blocks {S} (fuel : nat) (i I : Z) (s : S) (body : Z -> Z -> S -> thread S) : thread S :=
  if i <? n G then
    match fuel with
    | O => Fail
    | S fuel => let! s := body i I s in for_blocks fuel (i + bs G) (I + 1) s body
    end
  else Ret s.
Definition blocks {S} (i I : Z) (s : S) (body : Z -> Z -> S -> thread S) : thread S :=
  for_blocks (Z.to_nat (n G)) i I s body.

(** [il = i + bs; if (il > n) il = n;] *)
Definition upto (i : Z) : Z := if n G <? i + bs G then n G else i + bs G.

(** Factor the diagonal block. *)
Definition diagonal (MyNum k K : Z) : thread unit :=
  if BlockOwner K K =? MyNum then lu0 (k + k * n G) (upto k - k) (n G) else Ret tt.

(** Divide column [k] and modify row [k] by the diagonal block. *)
Definition perimeter (MyNum k K : Z) : thread unit :=
  let kl := upto k in
  let D := k + k * n G in
  blocks kl (K + 1) tt (fun i I _ =>
    if BlockOwner I K =? MyNum then bdiv (i + k * n G) D (n G) (n G) (upto i - i) (kl - k) else Ret tt) ;!
  blocks kl (K + 1) tt (fun j J _ =>
    if BlockOwner K J =? MyNum then bmodd D (k + j * n G) (kl - k) (upto j - j) (n G) (n G) else Ret tt).

(** Modify the subsequent block columns. *)
Definition interior (MyNum k K : Z) : thread unit :=
  let kl := upto k in
  blocks kl (K + 1) tt (fun i I _ =>
    blocks kl (K + 1) tt (fun j J _ =>
      if BlockOwner I J =? MyNum
      then bmod (i + k * n G) (k + j * n G) (i + j * n G) (upto i - i) (upto j - j) (kl - k) (n G)
      else Ret tt)).

(** [Global->start], the only barrier. *)
Definition start_barrier : Z := 0.

Definition lu (MyNum : Z) : thread unit :=
  blocks 0 0 tt (fun k K _ =>
    diagonal MyNum k K ;!
    BARRIER start_barrier ;!
    perimeter MyNum k K ;!
    BARRIER start_barrier ;!
    interior MyNum k K).

(** [TouchA]: [J * bs] and [I * bs] are [j0] and [i0]; the sum, which its
    caller drops, starts at [zero]. *)
Definition TouchA (zero MyNum : Z) : thread Z :=
  blocks 0 0 zero (fun j0 J tot =>
    blocks 0 0 tot (fun i0 I tot =>
      if BlockOwner I J =? MyNum then
        for_ j0 (Z.min (j0 + bs G) (n G)) tot (fun j tot =>
          for_ i0 (Z.min (i0 + bs G) (n G)) tot (fun i tot =>
            let! x := read (i + j * n G) in Ret (fadd F tot x)))
      else Ret tot)).

(** [SlaveStart] from the point where the thread has its number. *)
Definition OneSolve (zero MyNum : Z) : thread unit :=
  BARRIER start_barrier ;!
  let! _ := TouchA zero MyNum in
  BARRIER start_barrier ;!
  lu MyNum ;!
  BARRIER start_barrier.

Definition valid (l : Z) : bool := (0 <=? l) && (l <? n G * n G).
(** There are no pauses in this program. *)
Definition no_pause (f : Z) : bool := false.

Definition start (zero : Z) (m : Z -> Z) : cfg Z :=
  Cfg 0 (fun t => OneSolve zero (Z.of_nat t)) m (fun _ => false).
End Kernels.

(** ** The sequential parts *)

Section Check.
Context {V : Type} (F : arith V) (n : nat).
Implicit Types (a : Z -> Z -> V) (y : Z -> V).

(** The matrix of [InitA]: [rnd k] is the [k]th number [lrand48() / MAXRAND],
    and the elements are filled column by column. *)
Definition init_element (rnd : Z -> V) (ten : V) (i j : Z) : V :=
  let x := rnd (i + j * Z.of_nat n) in
  if i =? j then fmul F x ten else x.

(** [rhs] of [InitA]: the sums of the rows, column by column. *)
Fixpoint row_sums (zero : V) (a : Z -> Z -> V) (j : nat) (i : Z) : V :=
  match j with
  | O => zero
  | S j => fadd F (row_sums zero a j i) (a i (Z.of_nat j))
  end.

(** [CheckResult]: the two loops that solve the system, on [y]. *)
Fixpoint forward (a : Z -> Z -> V) (j : nat) (y : Z -> V) : Z -> V :=
  match j with
  | O => y
  | S j =>
      let y := forward a j y in
      let jz := Z.of_nat j in
      let yj := fdiv F (y jz) (a jz jz) in
      fun i => if i =? jz then yj
               else if (jz <? i) && (i <? Z.of_nat n) then fsub F (y i) (fmul F (a i jz) yj) else y i
  end.
Fixpoint backward (a : Z -> Z -> V) (steps : nat) (y : Z -> V) : Z -> V :=
  match steps with
  | O => y
  | S steps =>
      let y := backward a steps y in
      let jz := Z.of_nat n - Z.of_nat (S steps) in
      fun i => if (0 <=? i) && (i <? jz) then fsub F (y i) (fmul F (a i jz) (y jz)) else y i
  end.
Definition solve (a : Z -> Z -> V) (rhs : Z -> V) : Z -> V := backward a n (forward a n rhs).

(** The verdict: [wrong] is [fabs(y - 1.0) > 0.00001]. *)
Definition CheckResult (wrong : V -> bool) (a : Z -> Z -> V) (rhs : Z -> V) : bool :=
  negb (existsb (fun j => wrong (solve a rhs (Z.of_nat j))) (seq 0 n)).
End Check.
End Lu.
