(* ===== verification/LuElim.v ===== *)
(** * LuElim: elimination without blocks

    The reference for the blocked factorisation of Lu.v: one column after the
    other, in any arithmetic ([elim]).  In an arithmetic that is exact the
    result is a factorisation of the matrix, and [CheckResult] finds the
    solution it looks for. *)

From Stdlib Require Import Field Field_theory QArith Qcanon.
From stdpp Require Import base list option.
From S2P Require Import Prelude Doubles Lu.
Local Open Scope Z_scope.

Module LuElim.

Section Elim.
Context {V : Type} (F : arith V).

(** Column [k] is done: row [k] is divided by the pivot, and what is below and
    to the right of it is updated. *)
Definition elim_step (k : Z) (M : Z -> Z -> V) (i j : Z) : V :=
  if k <? j then
    let u := fdiv F (M k j) (M k k) in
    if i =? k then u
    else if k <? i then fadd F (M i j) (fmul F (fneg F u) (M i k))
    else M i j
  else M i j.

Fixpoint elim (A : Z -> Z -> V) (k : nat) : Z -> Z -> V :=
  match k with O => A | S k => elim_step (Z.of_nat k) (elim A k) end.

Context (A : Z -> Z -> V).
Definition E (k : Z) : Z -> Z -> V := elim A (Z.to_nat k).

Lemma E_0 : E 0 = A.
Proof. done. Qed.
Lemma E_S k : 0 <= k -> E (k + 1) = elim_step k (E k).
Proof.
  intros. unfold E. rewrite Z2Nat.inj_add by lia. change (Z.to_nat 1) with 1%nat. rewrite Nat.add_1_r. simpl.
  by rewrite Z2Nat.id by lia.
Qed.

(** Row [k] becomes final. *)
Lemma E_row k j : 0 <= k < j -> E (k + 1) k j = fdiv F (E k k j) (E k k k).
Proof. intros. rewrite E_S by lia. unfold elim_step. destruct (Z.ltb_spec k j); [|lia]. by rewrite Z.eqb_refl. Qed.
(** The update of the rest. *)
Lemma E_update k i j : 0 <= k -> k < i -> k < j ->
  E (k + 1) i j = fadd F (E k i j) (fmul F (fneg F (E (k + 1) k j)) (E k i k)).
Proof.
  intros. rewrite (E_row k j) by lia. rewrite E_S by lia. unfold elim_step.
  destruct (Z.ltb_spec k j); [|lia]. destruct (Z.eqb_spec i k); [lia|]. destruct (Z.ltb_spec k i); [done|lia].
Qed.
(** What is above or to the left is final. *)
Lemma E_stable_1 k i j : 0 <= k -> j <= k \/ i < k -> E (k + 1) i j = E k i j.
Proof.
  intros Hk Hij. rewrite E_S by lia. unfold elim_step. destruct (Z.ltb_spec k j); [|done].
  destruct (Z.eqb_spec i k); [lia|]. destruct (Z.ltb_spec k i); [lia|done].
Qed.
Lemma E_stable k k' i j : 0 <= k <= k' -> j <= k \/ i < k -> E k' i j = E k i j.
Proof.
  intros [Hk Hle] Hij. remember (Z.to_nat (k' - k)) as d eqn:Hd. revert k' Hle Hd.
  induction d as [|d IH]; intros k' Hle Hd; [by replace k' with k by lia|].
  replace k' with ((k' - 1) + 1) by lia. rewrite E_stable_1 by lia. apply IH; lia.
Qed.
End Elim.

(** Only the elements of the matrix count. *)
Lemma elim_ext {V} (F : arith V) A B n k : (forall i j, 0 <= i < n -> 0 <= j < n -> A i j = B i j) -> Z.of_nat k <= n ->
  forall i j, 0 <= i < n -> 0 <= j < n -> elim F A k i j = elim F B k i j.
Proof.
  intros H. induction k as [|k IH]; intros Hk i j Hi Hj; [by apply H|]. specialize (IH ltac:(lia)). simpl. unfold elim_step.
  rewrite (IH i j), (IH (Z.of_nat k) j), (IH (Z.of_nat k) (Z.of_nat k)), (IH i (Z.of_nat k)) by lia. done.
Qed.

(** ** Exact arithmetic *)

Section Exact.
Context {V : Type} (F : arith V) (zero one : V) (inv : V -> V).
Hypothesis Hfield : field_theory zero one (fadd F) (fmul F) (fsub F) (fneg F) (fdiv F) inv eq.
Add Field exact_field : Hfield.

Fixpoint vsum (f : Z -> V) (m : nat) : V :=
  match m with O => zero | S m => fadd F (vsum f m) (f (Z.of_nat m)) end.

Lemma vsum_ext f g m : (forall k, 0 <= k < Z.of_nat m -> f k = g k) -> vsum f m = vsum g m.
Proof. induction m as [|m IH]; intros H; simpl; [done|]. rewrite IH, H; [done|lia|]. intros; apply H; lia. Qed.
Lemma vsum_zero m : vsum (fun _ => zero) m = zero.
Proof. induction m as [|m IH]; simpl; [done|]. rewrite IH. ring. Qed.
Lemma vsum_add f g m : vsum (fun k => fadd F (f k) (g k)) m = fadd F (vsum f m) (vsum g m).
Proof. induction m as [|m IH]; simpl; [ring|]. rewrite IH. ring. Qed.
Lemma vsum_mul c f m : vsum (fun k => fmul F c (f k)) m = fmul F c (vsum f m).
Proof. induction m as [|m IH]; simpl; [ring|]. rewrite IH. ring. Qed.
Lemma vsum_exchange f p q :
  vsum (fun i => vsum (fun j => f i j) q) p = vsum (fun j => vsum (fun i => f i j) p) q.
Proof.
  induction p as [|p IH]; simpl; [by rewrite vsum_zero|]. rewrite IH, <- vsum_add. done.
Qed.
(** Only the terms up to [m] count. *)
Lemma vsum_cut f (m n : nat) : (m < n)%nat -> (forall k, Z.of_nat m < k -> f k = zero) ->
  vsum f n = fadd F (vsum f m) (f (Z.of_nat m)).
Proof.
  intros Hmn Hz. induction n as [|n IH]; [lia|]. simpl. destruct (decide (m = n)) as [->|]; [done|].
  rewrite IH by lia. rewrite (Hz (Z.of_nat n)) by lia. ring.
Qed.

Context (A : Z -> Z -> V) (n : nat).
Local Abbreviation N := (Z.of_nat n).
Local Abbreviation E := (LuElim.E F A).
(** No pivot is zero. *)
Hypothesis Hpiv : forall k, 0 <= k < N -> E N k k <> zero.

(** The two factors that the result holds. *)
Definition Lower (i k : Z) : V := if k <=? i then E N i k else zero.
Definition Upper (k j : Z) : V := if k =? j then one else if k <? j then E N k j else zero.

Lemma E_partial m i j : Z.of_nat m <= i -> Z.of_nat m <= j -> i < N -> j < N ->
  A i j = fadd F (vsum (fun k => fmul F (E N i k) (E N k j)) m) (E (Z.of_nat m) i j).
Proof.
  intros Hi Hj Hin Hjn. induction m as [|m IH]; simpl vsum; [change (E (Z.of_nat 0)) with A; ring|].
  rewrite IH by lia. replace (Z.of_nat (S m)) with (Z.of_nat m + 1) by lia. rewrite E_update by lia.
  rewrite (E_stable F A (Z.of_nat m + 1) N (Z.of_nat m) j) by lia.
  rewrite (E_stable F A (Z.of_nat m) N i (Z.of_nat m)) by lia. ring.
Qed.

Lemma factors i j : 0 <= i < N -> 0 <= j < N -> vsum (fun k => fmul F (Lower i k) (Upper k j)) n = A i j.
Proof.
  intros Hi Hj. set (m := Z.to_nat (Z.min i j)).
  assert (forall k, 0 <= k < Z.of_nat m -> fmul F (Lower i k) (Upper k j) = fmul F (E N i k) (E N k j)) as Hlow.
  { intros k Hk. unfold Lower, Upper. destruct (Z.leb_spec k i), (Z.eqb_spec k j), (Z.ltb_spec k j); try lia. done. }
  rewrite (vsum_cut _ m n); [|lia|].
  - rewrite (E_partial m i j), (vsum_ext _ _ m Hlow) by lia. f_equal. unfold Lower, Upper.
    destruct (Z.leb_spec (Z.of_nat m) i), (Z.eqb_spec (Z.of_nat m) j) as [Ej|], (Z.ltb_spec (Z.of_nat m) j); try lia.
    + rewrite Ej. rewrite (E_stable F A j N i j) by lia. ring.
    + assert (Z.of_nat m = i) as -> by lia.
      rewrite (E_stable F A (i + 1) N i j), E_row, (E_stable F A i N i i) by lia.
      pose proof (Hpiv i Hi) as Hp. rewrite (E_stable F A i N i i) in Hp by lia. field. done.
  - intros k Hk. unfold Lower, Upper. destruct (Z.leb_spec k i), (Z.eqb_spec k j), (Z.ltb_spec k j); try lia; ring.
Qed.

(** ** The check *)

Local Abbreviation ones := (fun k => vsum (Upper k) n).

Lemma rhs_factored i : 0 <= i < N -> Lu.row_sums F zero A n i = vsum (fun k => fmul F (Lower i k) (ones k)) n.
Proof.
  intros Hi. transitivity (vsum (A i) n); [clear; generalize n; intros m; induction m as [|m IH]; simpl; [done|by rewrite IH]|].
  rewrite (vsum_ext (A i) (fun j => vsum (fun k => fmul F (Lower i k) (Upper k j)) n)) by (intros j Hj; by rewrite factors).
  rewrite vsum_exchange. apply vsum_ext. intros k _. apply vsum_mul.
Qed.

(** After [j] steps of the forward loop the first [j] unknowns of the lower
    system are found. *)
Lemma forward_spec j : (j <= n)%nat -> forall i, 0 <= i < N ->
  Lu.forward F n (E N) j (Lu.row_sums F zero A n) i =
    if i <? Z.of_nat j then ones i
    else fsub F (Lu.row_sums F zero A n i) (vsum (fun k => fmul F (Lower i k) (ones k)) j).
Proof.
  induction j as [|j IH]; intros Hj i Hi.
  { simpl. destruct (Z.ltb_spec i (Z.of_nat 0)); [lia|]. ring. }
  cbn [Lu.forward]. specialize (IH ltac:(lia)). rewrite !IH by lia.
  assert (fdiv F (if Z.of_nat j <? Z.of_nat j then ones (Z.of_nat j)
    else fsub F (Lu.row_sums F zero A n (Z.of_nat j)) (vsum (fun k => fmul F (Lower (Z.of_nat j) k) (ones k)) j))
      (E N (Z.of_nat j) (Z.of_nat j)) = ones (Z.of_nat j)) as ->.
  { rewrite Z.ltb_irrefl, rhs_factored by lia. pose proof (Hpiv (Z.of_nat j) ltac:(lia)).
    rewrite (vsum_cut _ j n); [|lia|intros k Hk; unfold Lower; destruct (Z.leb_spec k (Z.of_nat j)); [lia|ring]].
    unfold Lower at 2. destruct (Z.leb_spec (Z.of_nat j) (Z.of_nat j)); [|lia]. field. done. }
  destruct (Z.eqb_spec i (Z.of_nat j)) as [->|Hne].
  { destruct (Z.ltb_spec (Z.of_nat j) (Z.of_nat (S j))); [done|lia]. }
  destruct (Z.ltb_spec i N); [|lia].
  destruct (Z.ltb_spec (Z.of_nat j) i), (Z.ltb_spec i (Z.of_nat j)), (Z.ltb_spec i (Z.of_nat (S j))); try lia; cbn [andb]; [|done].
  simpl vsum. unfold Lower at 3. destruct (Z.leb_spec (Z.of_nat j) i); [|lia]. ring.
Qed.

(** The backward loop leaves ones. *)
Lemma backward_spec st y : (st <= n)%nat -> (forall i, 0 <= i < N -> y i = ones i) -> forall i, 0 <= i < N ->
  Lu.backward F n (E N) st y i = if i <? N - Z.of_nat st then vsum (Upper i) (n - st) else one.
Proof.
  intros Hst Hy. induction st as [|st IH]; intros i Hi.
  { simpl. rewrite Z.sub_0_r, Nat.sub_0_r. destruct (Z.ltb_spec i N); [by apply Hy|lia]. }
  cbn [Lu.backward]. specialize (IH ltac:(lia)). rewrite (IH i) by lia. rewrite (IH (N - Z.of_nat (S st))) by lia.
  set (j := N - Z.of_nat (S st)). assert (j = Z.of_nat (n - S st)) as Ej by lia.
  assert (vsum (Upper j) (n - st) = one) as Hone.
  { replace (n - st)%nat with (S (n - S st)) by lia. simpl. rewrite <- Ej.
    rewrite (vsum_ext _ (fun _ => zero)), vsum_zero.
    - unfold Upper. rewrite Z.eqb_refl. ring.
    - intros k Hk. unfold Upper. destruct (Z.eqb_spec j k), (Z.ltb_spec j k); try lia. done. }
  destruct (Z.ltb_spec j (N - Z.of_nat st)); [|lia]. rewrite Hone.
  destruct (Z.leb_spec 0 i); [|lia]. destruct (Z.ltb_spec i j) as [Hlt|Hge]; cbn [andb].
  - destruct (Z.ltb_spec i (N - Z.of_nat st)); [|lia]. replace (n - st)%nat with (S (n - S st)) by lia. simpl. rewrite <- Ej.
    unfold Upper at 2. destruct (Z.eqb_spec i j), (Z.ltb_spec i j); try lia. ring.
  - destruct (Z.ltb_spec i (N - Z.of_nat st)); [|done]. assert (i = j) as -> by lia. done.
Qed.

Lemma solve_ones i : 0 <= i < N -> Lu.solve F n (E N) (Lu.row_sums F zero A n) i = one.
Proof.
  intros Hi. unfold Lu.solve. rewrite (backward_spec n); [|lia| |done].
  - destruct (Z.ltb_spec i (N - N)); [lia|done].
  - intros k Hk. rewrite forward_spec by lia. destruct (Z.ltb_spec k N); [done|lia].
Qed.
End Exact.

(** C22. In exact arithmetic the result is a factorisation, and the test of the
    program succeeds: if no pivot is zero, the lower factor times the upper
    factor, which has a unit diagonal, is the matrix, and [CheckResult], with the
    sums of the rows as the right hand side, finds ones and no mistake. *)
Theorem lu_exact {V} (F : arith V) (zero one : V) (inv : V -> V) (A : Z -> Z -> V) (n : nat) :
  field_theory zero one (fadd F) (fmul F) (fsub F) (fneg F) (fdiv F) inv eq ->
  (forall k, 0 <= k < Z.of_nat n -> elim F A n k k <> zero) ->
  (forall i j, 0 <= i < Z.of_nat n -> 0 <= j < Z.of_nat n ->
     vsum F zero (fun k => fmul F (Lower F zero A n i k) (Upper F zero one A n k j)) n = A i j) /\
  (forall wrong, wrong one = false ->
     Lu.CheckResult F n wrong (elim F A n) (Lu.row_sums F zero A n) = true).
Proof.
  intros Hf Hp. assert (E F A (Z.of_nat n) = elim F A n) as En by (unfold E; by rewrite Nat2Z.id).
  rewrite <- En in *. split.
  - intros i j Hi Hj. by apply (factors F zero one inv Hf A n).
  - intros wrong Hw. unfold Lu.CheckResult. apply negb_true_iff, not_true_iff_false. intros Hex.
    apply existsb_exists in Hex as (j & [_ Hj]%in_seq & Hj'). rewrite (solve_ones F zero one inv Hf A n Hp) in Hj' by lia. congruence.
Qed.

(** A matrix of rational numbers. *)
Definition example : Z -> Z -> Qc := fun i j => Q2Qc (inject_Z (if i =? j then 10 + i else 1 + i * j)).
Lemma lu_exact_witness :
  (forall k, 0 <= k < 3 -> elim Qc_arith example 3 k k <> 0%Qc) /\
  Lu.CheckResult Qc_arith 3 (fun x => if Qc_eq_dec x 1%Qc then false else true) (elim Qc_arith example 3)
    (Lu.row_sums Qc_arith 0%Qc example 3) = true.
Proof.
  assert (forall k, 0 <= k < 3 -> elim Qc_arith example 3 k k <> 0%Qc) as Hp.
  { intros k Hk. assert (k = 0 \/ k = 1 \/ k = 2) as [-> | [-> | ->]] by lia; vm_compute; discriminate. }
  split; [exact Hp|]. apply (lu_exact Qc_arith 0%Qc 1%Qc Qcinv example 3); [exact Qcft|exact Hp|].
  destruct (Qc_eq_dec 1%Qc 1%Qc); [reflexivity|congruence].
Defined.
End LuElim.
