(* ===== verification/LuLayout.v ===== *)
(** * LuLayout: the two blocked factorisations as one program

    splash2 has the factorisation twice: with the matrix in one array (Lu.v) and
    with every block in an array of its own (LuContig.v).  They differ in where
    an element is, in the strides the kernels are called with, and in who works
    on the blocks of the perimeter.  A [layout] is these parts; [LayoutOk] is
    what it promises, and all that the proof of LuMain.v needs. *)

From stdpp Require Import base list option.
From S2P Require Import Prelude Phases Doubles Lu.
Local Open Scope Z_scope.

Module LuLayout.
Import Lu.

Record layout := Layout {
  (** The pointer to the block of rows from [i], block row [I], and columns from
      [j], block column [J]. *)
  ptr : Z -> Z -> Z -> Z -> option Z;
  (** The stride and the number of rows of the blocks with the rows from [i]. *)
  stride : Z -> Z;
  dim : Z -> Z;
  column_owner : Z -> Z -> Z;
  row_owner : Z -> Z -> Z;
  (** The addresses that may be used. *)
  lvalid : Z -> bool;
  (** The address of element [(i, j)]. *)
  at_ : Z -> Z -> Z }.

Section Program.
Context (F : arith Z) (G : sizes) (Y : layout).

Definition bmod3 (a b c dimi dimj dimk stridea strideb stridec : Z) : thread unit :=
  for_ 0 dimk tt (fun k _ =>
    for_ 0 dimj tt (fun j _ =>
      let! v := read (b + (k + j * strideb)) in
      let alpha := fneg F v in
      daxpy F (c + j * stridec) (a + k * stridea) dimi alpha)).

Definition diagonal (MyNum k K : Z) : thread unit :=
  if BlockOwner G K K =? MyNum then
    let! A := opt (ptr Y k K k K) in lu0 F A (dim Y k) (stride Y k)
  else Ret tt.

Definition perimeter (MyNum k K : Z) : thread unit :=
  let kl := upto G k in
  let! D := opt (ptr Y k K k K) in
  blocks G kl (K + 1) tt (fun i I _ =>
    if column_owner Y I K =? MyNum then
      let! A := opt (ptr Y i I k K) in bdiv F A D (stride Y i) (stride Y k) (dim Y i) (dim Y k)
    else Ret tt) ;!
  blocks G kl (K + 1) tt (fun j J _ =>
    if row_owner Y K J =? MyNum then
      let! A := opt (ptr Y k K j J) in bmodd F D A (dim Y k) (dim Y j) (stride Y k) (stride Y k)
    else Ret tt).

Definition interior (MyNum k K : Z) : thread unit :=
  let kl := upto G k in
  blocks G kl (K + 1) tt (fun i I _ =>
    let! A := opt (ptr Y i I k K) in
    blocks G kl (K + 1) tt (fun j J _ =>
      if BlockOwner G I J =? MyNum then
        let! B := opt (ptr Y k K j J) in
        let! C := opt (ptr Y i I j J) in
        bmod3 A B C (dim Y i) (dim Y j) (dim Y k) (stride Y i) (stride Y k) (stride Y i)
      else Ret tt)).

Definition factor (MyNum : Z) : thread unit :=
  blocks G 0 0 tt (fun k K _ =>
    diagonal MyNum k K ;!
    BARRIER start_barrier ;!
    perimeter MyNum k K ;!
    BARRIER start_barrier ;!
    interior MyNum k K).

(** [touch] is the function that brings the matrix into the caches. *)
Definition solve_with {A} (touch : Z -> thread A) (MyNum : Z) : thread unit :=
  BARRIER start_barrier ;!
  let! _ := touch MyNum in
  BARRIER start_barrier ;!
  factor MyNum ;!
  BARRIER start_barrier.
End Program.

(** ** What a layout promises *)

(** The block of a row, and the first row of a block, or [n]. *)
Definition blk (G : sizes) (i : Z) : Z := i / bs G.
Definition kb (G : sizes) (K : Z) : Z := Z.min (K * bs G) (n G).
Definition inside (G : sizes) (i j : Z) : Prop := 0 <= i < n G /\ 0 <= j < n G.

(** [p] points to the rows from [i0] to [il] and columns from [j0] to [jl]. *)
Definition tile (Y : layout) (p s i0 il j0 jl : Z) : Prop :=
  forall i j, i0 <= i < il -> j0 <= j < jl -> p + ((i - i0) + (j - j0) * s) = at_ Y i j.

Class LayoutOk (G : sizes) (Y : layout) : Prop := {
  at_inj i j i' j' : inside G i j -> inside G i' j' -> at_ Y i j = at_ Y i' j' -> i = i' /\ j = j';
  at_valid i j : inside G i j -> lvalid Y (at_ Y i j) = true;
  column_range I J : 0 <= I -> 0 <= J -> 0 <= column_owner Y I J < P G;
  row_range I J : 0 <= I -> 0 <= J -> 0 <= row_owner Y I J < P G;
  dim_ok I : 0 <= I -> I * bs G < n G -> dim Y (I * bs G) = kb G (I + 1) - I * bs G;
  ptr_ok I J : 0 <= I -> 0 <= J -> I * bs G < n G -> J * bs G < n G ->
    exists p, ptr Y (I * bs G) I (J * bs G) J = Some p /\
      tile Y p (stride Y (I * bs G)) (I * bs G) (kb G (I + 1)) (J * bs G) (kb G (J + 1)) }.

End LuLayout.
