(* ===== verification/LuBlocks.v ===== *)
(** * LuBlocks: the kernels of the blocked factorisation

    What [lu0], [bdiv], [bmodd] and [bmod] do to a block that the thread owns,
    in the terms of the elimination of LuElim.v: they take the block from
    before column [k0] to before column [kl]. *)

From stdpp Require Import base list option functions.
From S2P Require Import Prelude Phases PhaseRule Doubles Lu LuElim LuLayout.
Local Open Scope Z_scope.

Module LuBlocks.
Import Lu LuElim LuLayout.

Section Blocks.
Context (F : arith Z) (G : sizes) (Y : layout) `{!LayoutOk G Y} (A0 : Z -> Z -> Z).
Local Abbreviation n := (Lu.n G).
Local Abbreviation E := (LuElim.E F A0).
Context (sg : Z -> Z) (K : Z -> Z -> Prop) (free : Z -> Prop).
(** The elements the thread owns in this phase. *)
Context (own : Z -> Z -> bool).
Local Abbreviation wpl := (wpo (lvalid Y) no_pause sg K free).

Local Abbreviation at_ := (at_ Y).
Local Abbreviation inside := (inside G).

(** The thread's own elements hold [val]. *)
Definition St (pv : Z -> option Z) (val : Z -> Z -> Z) : Prop :=
  forall i j, inside i j -> pv (at_ i j) = if own i j then Some (val i j) else None.

Lemma St_ext pv val val' : St pv val -> (forall i j, inside i j -> own i j = true -> val i j = val' i j) -> St pv val'.
Proof. intros H He i j Hij. rewrite H by done. destruct (own i j) eqn:Eo; [|done]. by rewrite He. Qed.

Lemma St_set pv val i j x : St pv val -> inside i j -> own i j = true ->
  St (<[at_ i j := Some x]> pv) (fun i' j' => if (i' =? i) && (j' =? j) then x else val i' j').
Proof.
  intros H Hij Ho i' j' Hij'. destruct (decide (at_ i' j' = at_ i j)) as [E|E].
  - destruct (at_inj _ _ _ _ Hij' Hij E) as [-> ->]. by rewrite fn_lookup_insert, Ho, !Z.eqb_refl.
  - rewrite fn_lookup_insert_ne, H by done. destruct (own i' j'); [|done]. f_equal.
    destruct (Z.eqb_spec i' i) as [->|], (Z.eqb_spec j' j) as [->|]; done.
Qed.

(** The thread reads [v] at [(i, j)]. *)
Definition rd (kn : Z -> Prop) (val : Z -> Z -> Z) (i j v : Z) : Prop :=
  inside i j /\ if own i j then val i j = v else kn (at_ i j) /\ sg (at_ i j) = v.

Lemma wpo_rd kn pv val ev i j v (Phi : (Z -> Prop) -> (Z -> option Z) -> list event -> Z -> Prop) :
  St pv val -> rd kn val i j v -> Phi kn pv ev v -> wpl kn pv ev (read (at_ i j)) Phi.
Proof.
  intros H [Hij Hr] HPhi. apply (wpo_read _ _ _ _ _ _ _ _ _ v); [by apply at_valid| |done].
  rewrite H by done. destruct (own i j); [left; by rewrite Hr|right]. destruct Hr as [? <-]. done.
Qed.

Lemma wpo_own kn pv val ev i j x (Phi : (Z -> Prop) -> (Z -> option Z) -> list event -> unit -> Prop) :
  St pv val -> inside i j -> own i j = true ->
  (forall pv', St pv' (fun i' j' => if (i' =? i) && (j' =? j) then x else val i' j') -> Phi kn pv' ev tt) ->
  wpl kn pv ev (write (at_ i j) x) Phi.
Proof.
  intros H Hij Ho HPhi. eapply wpo_write; [by apply at_valid|rewrite H, Ho by done; done|]. apply HPhi. by apply St_set.
Qed.

(** A piece of column [j] is updated with the same rows of column [k]. *)
Lemma daxpy_wpo kn pv val ev pd ps r0 r1 j k alpha y (Phi : (Z -> Prop) -> (Z -> option Z) -> list event -> unit -> Prop) :
  St pv val -> r0 <= r1 -> j <> k ->
  (forall i, r0 <= i < r1 -> pd + (i - r0) = at_ i j) -> (forall i, r0 <= i < r1 -> ps + (i - r0) = at_ i k) ->
  (forall i, r0 <= i < r1 -> inside i j /\ own i j = true /\ rd kn val i k (y i)) ->
  (forall pv', St pv' (fun i' j' => if (j' =? j) && ((r0 <=? i') && (i' <? r1)) then fadd F (val i' j) (fmul F alpha (y i')) else val i' j') ->
     Phi kn pv' ev tt) ->
  wpl kn pv ev (daxpy F pd ps (r1 - r0) alpha) Phi.
Proof.
  intros H Hr Hjk Hpd Hps Hel HPhi. unfold daxpy.
  apply (wpo_for _ _ _ _ _ (fun i _ kn' pv' ev' => kn' = kn /\ ev' = ev /\
    St pv' (fun i' j' => if (j' =? j) && ((r0 <=? i') && (i' <? r0 + i)) then fadd F (val i' j) (fmul F alpha (y i')) else val i' j'))); [lia| | |].
  - split_and!; [done|done|]. eapply St_ext; [exact H|]. intros i' j' _ _. cbv beta.
    destruct (Z.leb_spec r0 i'), (Z.ltb_spec i' (r0 + 0)); try lia; cbn [andb]; by rewrite ?andb_false_r.
  - intros i [] kn' pv' ev' Hi (-> & -> & H').
    replace (pd + i) with (at_ (r0 + i) j) by (rewrite <- Hpd by lia; f_equal; lia).
    replace (ps + i) with (at_ (r0 + i) k) by (rewrite <- Hps by lia; f_equal; lia).
    destruct (Hel (r0 + i) ltac:(lia)) as (Hin & Hown & Hrd).
    apply wpo_bind. eapply (wpo_rd _ _ _ _ _ _ (val (r0 + i) j)); [exact H'| |].
    { split; [done|]. rewrite Hown, Z.eqb_refl. cbn [andb]. destruct (Z.leb_spec r0 (r0 + i)), (Z.ltb_spec (r0 + i) (r0 + i)); try lia. done. }
    apply wpo_bind. eapply (wpo_rd _ _ _ _ _ _ (y (r0 + i))); [exact H'| |].
    { destruct Hrd as [Hin' Hrd]. split; [done|]. destruct (own (r0 + i) k); [|done]. by destruct (Z.eqb_spec k j). }
    eapply wpo_own; [exact H'|done|done|]. intros pv'' H''. split_and!; [done|done|]. eapply St_ext; [exact H''|].
    intros i' j' _ _. cbv beta. destruct (Z.eqb_spec j' j) as [->|]; rewrite ?andb_false_r; [|done]. rewrite andb_true_r. cbn [andb].
    destruct (Z.eqb_spec i' (r0 + i)) as [Ei|Ei].
    + rewrite Ei. destruct (Z.leb_spec r0 (r0 + i)), (Z.ltb_spec (r0 + i) (r0 + (i + 1))); try lia. done.
    + destruct (Z.leb_spec r0 i'), (Z.ltb_spec i' (r0 + i)), (Z.ltb_spec i' (r0 + (i + 1))); try lia; done.
  - intros [] kn' pv' ev' (-> & -> & H'). apply HPhi. eapply St_ext; [exact H'|]. intros i' j' _ _. cbv beta.
    by replace (r0 + (r1 - r0)) with r1 by lia.
Qed.

(** ** A block on its way through the columns *)

Section Rect.
Context (i0 il j0 jl k0 kl : Z) (val : Z -> Z -> Z) (kn : Z -> Prop).
Hypothesis Hk : 0 <= k0 <= kl.
Hypothesis Hi : k0 <= i0 <= il /\ il <= n.
Hypothesis Hj : k0 <= j0 <= jl /\ jl <= n.
Hypothesis Hown : forall i j, i0 <= i < il -> j0 <= j < jl -> own i j = true.

Definition inb (i j : Z) : bool := ((i0 <=? i) && (i <? il)) && ((j0 <=? j) && (j <? jl)).
(** The block is before column [k]; the rest of what is owned is [val]. *)
Definition before (k : Z) (i j : Z) : Z := if inb i j then E k i j else val i j.
(** Its columns before [c] are already behind column [k]. *)
Definition amid (k c : Z) (i j : Z) : Z := if inb i j then (if j <? c then E (k + 1) i j else E k i j) else val i j.

Lemma inb_spec i j : inb i j = true <-> i0 <= i < il /\ j0 <= j < jl.
Proof. unfold inb. destruct (Z.leb_spec i0 i), (Z.ltb_spec i il), (Z.leb_spec j0 j), (Z.ltb_spec j jl); simpl; split; (done || lia). Qed.
Lemma inb_inside i j : inb i j = true -> inside i j /\ own i j = true.
Proof. rewrite inb_spec. unfold inside. intros [? ?]. split; [lia|auto]. Qed.

Lemma kernel_loop first body pv ev (Phi : (Z -> Prop) -> (Z -> option Z) -> list event -> unit -> Prop) :
  (forall k, 0 <= k < kl - k0 -> j0 + first k = Z.max j0 (k0 + k + 1)) -> 
  (forall k c pv, k0 <= k < kl -> k < c -> j0 <= c < jl -> St pv (amid k c) ->
     wpl kn pv ev (body (k - k0) (c - j0)) (fun kn' pv' ev' _ => kn' = kn /\ ev' = ev /\ St pv' (amid k (c + 1)))) ->
  St pv (before k0) ->
  (forall pv', St pv' (before kl) -> Phi kn pv' ev tt) ->
  wpl kn pv ev (for_ 0 (kl - k0) tt (fun k _ => for_ (first k) (jl - j0) tt (fun j _ => body k j))) Phi.
Proof.
  intros Hfirst Hbody H HPhi.
  apply (wpo_for _ _ _ _ _ (fun k _ kn' pv' ev' => kn' = kn /\ ev' = ev /\ St pv' (before (k0 + k)))); [lia| | |].
  - split_and!; [done|done|]. by rewrite Z.add_0_r.
  - intros k [] kn' pv' ev' Hkr (-> & -> & H'). specialize (Hfirst k Hkr).
    destruct (Z.le_gt_cases (first k) (jl - j0)) as [Hle|Hgt].
    + apply (wpo_for _ _ _ _ _ (fun j _ kn' pv' ev' => kn' = kn /\ ev' = ev /\ St pv' (amid (k0 + k) (j0 + j)))); [lia| | |].
      * split_and!; [done|done|]. eapply St_ext; [exact H'|]. intros i j _ _. unfold before, amid.
        destruct (inb i j) eqn:Eb; [|done]. apply inb_spec in Eb. destruct (Z.ltb_spec j (j0 + first k)); [|done].
        rewrite E_stable_1 by lia. done.
      * intros j [] kn' pv'' ev' Hjr (-> & -> & H''). pose proof (Hbody (k0 + k) (j0 + j) pv'' ltac:(lia) ltac:(lia) ltac:(lia) H'') as Hb.
        replace (k0 + k - k0) with k in Hb by lia. replace (j0 + j - j0) with j in Hb by lia.
        eapply wpo_mono; [|exact Hb]. cbv beta. intros kn' pv3 ev' [] (-> & -> & H3). by rewrite Z.add_assoc.
      * intros [] kn' pv'' ev' (-> & -> & H''). split_and!; [done|done|]. eapply St_ext; [exact H''|]. intros i j _ _.
        unfold before, amid. destruct (inb i j) eqn:Eb; [|done]. apply inb_spec in Eb.
        destruct (Z.ltb_spec j (j0 + (jl - j0))); [by rewrite Z.add_assoc|lia].
    + unfold for_. replace (Z.to_nat (jl - j0 - first k)) with O by lia. apply wpo_ret. split_and!; [done|done|].
      eapply St_ext; [exact H'|]. intros i j _ _. unfold before. destruct (inb i j) eqn:Eb; [|done]. apply inb_spec in Eb.
      rewrite Z.add_assoc, E_stable_1 by lia. done.
  - intros [] kn' pv' ev' (-> & -> & H'). apply HPhi. by replace (k0 + (kl - k0)) with kl in H' by lia.
Qed.

(** One column of rows that are all below [k]. *)
Lemma column_below k c pv ev pd ps r0 alpha (Phi : (Z -> Prop) -> (Z -> option Z) -> list event -> unit -> Prop) :
  k0 <= k < kl -> k < c -> j0 <= c < jl -> St pv (amid k c) ->
  i0 <= r0 <= il -> k < r0 -> (forall i, i0 <= i < r0 -> E (k + 1) i c = E k i c) ->
  alpha = fneg F (E (k + 1) k c) ->
  (forall i, r0 <= i < il -> pd + (i - r0) = at_ i c) -> (forall i, r0 <= i < il -> ps + (i - r0) = at_ i k) ->
  (forall i, r0 <= i < il -> rd kn (amid k c) i k (E k i k)) ->
  (forall pv', St pv' (amid k (c + 1)) -> Phi kn pv' ev tt) ->
  wpl kn pv ev (daxpy F pd ps (il - r0) alpha) Phi.
Proof.
  intros Hkr Hkc Hc H Hr Hkr0 Hfin -> Hpd Hps Hsrc HPhi.
  apply (daxpy_wpo _ _ _ _ _ _ _ _ c k _ (fun i => E k i k) _ H); [lia|lia|done|done| |].
  - intros i Hir. assert (inb i c = true) as [Hin Ho]%inb_inside by (apply inb_spec; lia). auto.
  - intros pv' H'. apply HPhi. eapply St_ext; [exact H'|]. intros i j _ _. cbv beta. unfold amid.
    destruct (Z.eqb_spec j c) as [->|Hne]; cbn [andb].
    + destruct (Z.ltb_spec c c), (Z.ltb_spec c (c + 1)); try lia.
      destruct (Z.leb_spec r0 i), (Z.ltb_spec i il); cbn [andb].
      * rewrite (proj2 (inb_spec i c)) by lia. by rewrite (E_update F A0 k i c) by lia.
      * unfold inb. destruct (Z.ltb_spec i il); [lia|]. by rewrite andb_false_r.
      * destruct (inb i c) eqn:Eb; [|done]. apply inb_spec in Eb. symmetry. apply Hfin. lia.
      * unfold inb. destruct (Z.ltb_spec i il); [lia|]. by rewrite andb_false_r.
    + destruct (inb i j); [|done]. destruct (Z.ltb_spec j c), (Z.ltb_spec j (c + 1)); try lia; done.
Qed.

(** One column whose first row that is not final is [k]: it is divided by the
    pivot, and the rows below are updated. *)
Lemma column_from k c pv ev pd ps (Phi : (Z -> Prop) -> (Z -> option Z) -> list event -> unit -> Prop) :
  k0 <= k < kl -> k < c -> j0 <= c < jl -> i0 <= k < il -> St pv (amid k c) ->
  (forall i, k + 1 <= i < il -> pd + (i - (k + 1)) = at_ i c) -> (forall i, k + 1 <= i < il -> ps + (i - (k + 1)) = at_ i k) ->
  (forall i, k <= i < il -> rd kn (amid k c) i k (E k i k)) ->
  (forall pv', St pv' (amid k (c + 1)) -> Phi kn pv' ev tt) ->
  wpl kn pv ev (let! x := read (at_ k c) in let! d := read (at_ k k) in write (at_ k c) (fdiv F x d) ;!
    let! v := read (at_ k c) in let alpha := fneg F v in daxpy F pd ps (il - (k + 1)) alpha) Phi.
Proof.
  intros Hkr Hkc Hc Hki H Hpd Hps Hsrc HPhi. assert (inb k c = true) as Hb by (apply inb_spec; lia).
  destruct (inb_inside k c Hb) as [Hin Ho].
  apply wpo_bind. eapply (wpo_rd _ _ _ _ _ _ (E k k c)); [exact H| |].
  { split; [done|]. rewrite Ho. unfold amid. rewrite Hb. destruct (Z.ltb_spec c c); [lia|done]. }
  apply wpo_bind. eapply (wpo_rd _ _ _ _ _ _ (E k k k)); [exact H|apply Hsrc; lia|].
  apply wpo_bind. eapply wpo_own; [exact H|done|done|]. intros pv1 H1. rewrite <- E_row in H1 by lia.
  apply wpo_bind. eapply (wpo_rd _ _ _ _ _ _ (E (k + 1) k c)); [exact H1| |].
  { split; [done|]. rewrite Ho, !Z.eqb_refl. done. }
  apply (daxpy_wpo _ _ _ _ _ _ _ _ c k _ (fun i => E k i k) _ H1); [lia|lia|done|done| |].
  - intros i Hir. assert (inb i c = true) as [Hin' Ho']%inb_inside by (apply inb_spec; lia). split_and!; [done|done|].
    destruct (Hsrc i ltac:(lia)) as [Hs1 Hs2]. split; [done|]. destruct (own i k); [|done].
    destruct (Z.eqb_spec k c); [lia|]. by rewrite andb_false_r.
  - intros pv' H'. apply HPhi. eapply St_ext; [exact H'|]. intros i j _ _. cbv beta. unfold amid.
    destruct (Z.eqb_spec j c) as [->|Hne]; cbn [andb].
    + destruct (Z.ltb_spec c c), (Z.ltb_spec c (c + 1)); try lia. rewrite andb_true_r.
      destruct (Z.eqb_spec i k) as [->|Hik].
      { destruct (Z.leb_spec (k + 1) k); [lia|]. cbn [andb]. by rewrite Hb. }
      destruct (Z.leb_spec (k + 1) i), (Z.ltb_spec i il); cbn [andb].
      * rewrite (proj2 (inb_spec i c)) by lia. by rewrite (E_update F A0 k i c) by lia.
      * unfold inb. destruct (Z.ltb_spec i il); [lia|]. by rewrite andb_false_r.
      * destruct (inb i c) eqn:Eb; [|done]. by rewrite E_stable_1 by lia.
      * unfold inb. destruct (Z.ltb_spec i il); [lia|]. by rewrite andb_false_r.
    + rewrite andb_false_r. destruct (inb i j); [|done]. destruct (Z.ltb_spec j c), (Z.ltb_spec j (c + 1)); try lia; done.
Qed.
End Rect.

Lemma rd_outside i0 il j0 jl val kn k c i j v :
  inb i0 il j0 jl i j = false -> rd kn val i j v -> rd kn (amid i0 il j0 jl val k c) i j v.
Proof. intros Hb [Hin Hr]. split; [done|]. destruct (own i j); [|done]. unfold amid. by rewrite Hb. Qed.
Lemma inb_false i0 il j0 jl i j : ~ (i0 <= i < il /\ j0 <= j < jl) -> inb i0 il j0 jl i j = false.
Proof. intros H. apply not_true_is_false. by rewrite inb_spec. Qed.

(** ** The four kernels *)

Section Kernel.
Context (val : Z -> Z -> Z) (kn : Z -> Prop) (pv : Z -> option Z) (ev : list event).
Context (Phi : (Z -> Prop) -> (Z -> option Z) -> list event -> unit -> Prop).

(** An address inside a tile. *)
Local Ltac tiled H i j := rewrite <- (H i j) by lia; lia.

Lemma bmod_wpo i0 il j0 jl k0 kl a b c sa sb sc :
  0 <= k0 <= kl -> kl <= i0 <= il -> il <= n -> kl <= j0 <= jl -> jl <= n ->
  tile Y a sa i0 il k0 kl -> tile Y b sb k0 kl j0 jl -> tile Y c sc i0 il j0 jl ->
  (forall i j, i0 <= i < il -> j0 <= j < jl -> own i j = true) ->
  (forall k c, k0 <= k < kl -> j0 <= c < jl -> rd kn val k c (E kl k c)) ->
  (forall i k, i0 <= i < il -> k0 <= k < kl -> rd kn val i k (E kl i k)) ->
  St pv (before i0 il j0 jl val k0) ->
  (forall pv', St pv' (before i0 il j0 jl val kl) -> Phi kn pv' ev tt) ->
  wpl kn pv ev (bmod3 F a b c (il - i0) (jl - j0) (kl - k0) sa sb sc) Phi.
Proof.
  intros Hk Hi Hil Hj Hjl Ha Hb Hc Hown Hrow Hcol H HPhi. unfold bmod3.
  apply (kernel_loop i0 il j0 jl k0 kl val kn ltac:(lia)) with (first := fun _ => 0)
    (body := fun k j => let! v := read (b + (k + j * sb)) in let alpha := fneg F v in daxpy F (c + j * sc) (a + k * sa) (il - i0) alpha);
    [lia| |done|done].
  intros k x pv1 Hkr Hkx Hx H1. rewrite (Hb k x) by lia.
  apply wpo_bind. eapply (wpo_rd _ _ _ _ _ _ (E kl k x)); [exact H1|apply rd_outside; [apply inb_false; lia|by apply Hrow]|].
  apply (column_below i0 il j0 jl k0 kl val kn ltac:(lia) ltac:(lia) ltac:(lia) Hown k x); auto; [lia|lia|lia| | | |].
  - by rewrite (E_stable F A0 (k + 1) kl) by lia.
  - intros i Hir. tiled Hc i x.
  - intros i Hir. tiled Ha i k.
  - intros i Hir. apply rd_outside; [apply inb_false; lia|]. rewrite <- (E_stable F A0 k kl) by lia. apply Hcol; lia.
Qed.

Lemma bdiv_wpo i0 il k0 kl a d sa sd :
  0 <= k0 <= kl -> kl <= i0 <= il -> il <= n ->
  tile Y a sa i0 il k0 kl -> tile Y d sd k0 kl k0 kl ->
  (forall i j, i0 <= i < il -> k0 <= j < kl -> own i j = true) ->
  (forall k c, k0 <= k < kl -> k0 <= c < kl -> rd kn val k c (E kl k c)) ->
  St pv (before i0 il k0 kl val k0) ->
  (forall pv', St pv' (before i0 il k0 kl val kl) -> Phi kn pv' ev tt) ->
  wpl kn pv ev (bdiv F a d sa sd (il - i0) (kl - k0)) Phi.
Proof.
  intros Hk Hi Hil Ha Hd Hown Hdiag H HPhi. unfold bdiv.
  apply (kernel_loop i0 il k0 kl k0 kl val kn ltac:(lia)) with (first := fun k => k + 1)
    (body := fun k j => let! v := read (d + (k + j * sd)) in let alpha := fneg F v in daxpy F (a + j * sa) (a + k * sa) (il - i0) alpha);
    [lia| |done|done].
  intros k x pv1 Hkr Hkx Hx H1. rewrite (Hd k x) by lia.
  apply wpo_bind. eapply (wpo_rd _ _ _ _ _ _ (E kl k x)); [exact H1|apply rd_outside; [apply inb_false; lia|by apply Hdiag]|].
  apply (column_below i0 il k0 kl k0 kl val kn ltac:(lia) ltac:(lia) ltac:(lia) Hown k x); auto; [lia|lia|lia| | | |].
  - by rewrite (E_stable F A0 (k + 1) kl) by lia.
  - intros i Hir. tiled Ha i x.
  - intros i Hir. tiled Ha i k.
  - intros i Hir. assert (inb i0 il k0 kl i k = true) as Hb by (apply inb_spec; lia).
    split; [unfold LuLayout.inside; lia|]. rewrite Hown by lia. unfold amid. rewrite Hb. destruct (Z.ltb_spec k x); [|lia].
    by rewrite E_stable_1 by lia.
Qed.

(** The body that [bmodd] and [lu0] share. *)
Local Abbreviation divide c d sc sd di := (fun k j : Z =>
  let! x := read (c + (k + j * sc)) in let! y := read (d + (k + k * sd)) in
  write (c + (k + j * sc)) (fdiv F x y) ;! let! v := read (c + (k + j * sc)) in let alpha := fneg F v in
  daxpy F (c + (k + 1 + j * sc)) (d + (k + 1 + k * sd)) (di - k - 1) alpha).

Lemma divide_wpo j0 jl k0 kl c d sc sd k x pv1 :
  0 <= k0 <= kl -> kl <= n -> k0 <= j0 <= jl -> jl <= n ->
  tile Y c sc k0 kl j0 jl -> tile Y d sd k0 kl k0 kl ->
  (forall i j, k0 <= i < kl -> j0 <= j < jl -> own i j = true) ->
  k0 <= k < kl -> k < x -> j0 <= x < jl -> St pv1 (amid k0 kl j0 jl val k x) ->
  (forall i, k <= i < kl -> rd kn (amid k0 kl j0 jl val k x) i k (E k i k)) ->
  wpl kn pv1 ev (divide c d sc sd (kl - k0) (k - k0) (x - j0))
    (fun kn' pv' ev' _ => kn' = kn /\ ev' = ev /\ St pv' (amid k0 kl j0 jl val k (x + 1))).
Proof.
  intros Hk Hkl Hj Hjl Hc Hd Hown Hkr Hkx Hx H1 Hsrc. cbv beta.
  rewrite (Hc k x), (Hd k k) by lia. replace (kl - k0 - (k - k0) - 1) with (kl - (k + 1)) by lia.
  apply (column_from k0 kl j0 jl k0 kl val kn ltac:(lia) ltac:(lia) ltac:(lia) Hown k x); auto.
  - intros i Hir. tiled Hc i x.
  - intros i Hir. tiled Hd i k.
Qed.

Lemma bmodd_wpo j0 jl k0 kl c d sc sd :
  0 <= k0 <= kl -> kl <= n -> kl <= j0 <= jl -> jl <= n ->
  tile Y c sc k0 kl j0 jl -> tile Y d sd k0 kl k0 kl ->
  (forall i j, k0 <= i < kl -> j0 <= j < jl -> own i j = true) ->
  (forall i k, k0 <= i < kl -> k0 <= k < kl -> rd kn val i k (E kl i k)) ->
  St pv (before k0 kl j0 jl val k0) ->
  (forall pv', St pv' (before k0 kl j0 jl val kl) -> Phi kn pv' ev tt) ->
  wpl kn pv ev (bmodd F d c (kl - k0) (jl - j0) sd sc) Phi.
Proof.
  intros Hk Hkl Hj Hjl Hc Hd Hown Hdiag H HPhi. unfold bmodd.
  apply (kernel_loop k0 kl j0 jl k0 kl val kn ltac:(lia)) with (first := fun _ => 0) (body := divide c d sc sd (kl - k0)); [lia| |done|done].
  intros k x pv1 Hkr Hkx Hx H1. apply divide_wpo; auto; [lia|].
  intros i Hir. apply rd_outside; [apply inb_false; lia|]. rewrite <- (E_stable F A0 k kl) by lia. apply Hdiag; lia.
Qed.

Lemma lu0_wpo k0 kl a s :
  0 <= k0 <= kl -> kl <= n -> tile Y a s k0 kl k0 kl ->
  (forall i j, k0 <= i < kl -> k0 <= j < kl -> own i j = true) ->
  St pv (before k0 kl k0 kl val k0) ->
  (forall pv', St pv' (before k0 kl k0 kl val kl) -> Phi kn pv' ev tt) ->
  wpl kn pv ev (lu0 F a (kl - k0) s) Phi.
Proof.
  intros Hk Hkl Ha Hown H HPhi. unfold lu0.
  apply (kernel_loop k0 kl k0 kl k0 kl val kn ltac:(lia)) with (first := fun k => k + 1) (body := divide a a s s (kl - k0)); [lia| |done|done].
  intros k x pv1 Hkr Hkx Hx H1. apply divide_wpo; auto; [lia|].
  intros i Hir. assert (inb k0 kl k0 kl i k = true) as Hb by (apply inb_spec; lia).
  split; [unfold LuLayout.inside; lia|]. rewrite Hown by lia. unfold amid. rewrite Hb. destruct (Z.ltb_spec k x); [|lia].
  by rewrite E_stable_1 by lia.
Qed.
End Kernel.
End Blocks.
End LuBlocks.
