(* ===== verification/LuPhases.v ===== *)
(** * LuPhases: the parallel factorisation is the sequential one

    The phases of [OneSolve] put together, for every layout that keeps the
    promises of LuLayout.v: whatever the number of threads, the size of the
    blocks and the order in which the threads run, the matrix ends as the
    elimination of LuElim.v leaves it, with the same operations on every element
    in the same order, so bit for bit. *)

From stdpp Require Import base list option functions.
From S2P Require Import Prelude Phases PhaseRule Doubles Lu LuElim LuLayout LuBlocks.
Local Open Scope Z_scope.

Module LuPhases.
Import Lu LuElim LuLayout LuBlocks.

Section Main.
Context (F : arith Z) (G : sizes) (Y : layout) `{!LayoutOk G Y} (m : Z -> Z).
Local Abbreviation n := (Lu.n G).
Local Abbreviation bs := (Lu.bs G).
Local Abbreviation N := (Z.to_nat (Lu.P G)).
Hypothesis Hn : 0 <= n.
Hypothesis Hbs : 1 <= bs.
Hypothesis HP : 1 <= Lu.P G.
Local Abbreviation valid := (lvalid Y).
Local Abbreviation at_ := (at_ Y).
Local Abbreviation inside := (inside G).
Local Abbreviation blk := (blk G).
Local Abbreviation kb := (kb G).
Local Abbreviation St := (LuBlocks.St G Y).
Definition A0 (i j : Z) : Z := m (at_ i j).
Local Abbreviation E := (LuElim.E F A0).

Lemma N_pos : (0 < N)%nat.
Proof. lia. Qed.

(** ** Matrices and memories *)

(** The element at an address. *)
Definition cells : list (Z * Z) := i ← seqZ 0 n; j ← seqZ 0 n; mret (i, j).
Definition where_ (l : Z) : option (Z * Z) := find (fun '(i, j) => at_ i j =? l) cells.
Definition mat (M : Z -> Z -> Z) (l : Z) : Z := match where_ l with Some (i, j) => M i j | None => m l end.

Lemma elem_of_cells i j : (i, j) ∈ cells <-> inside i j.
Proof.
  unfold cells, LuLayout.inside. rewrite list_elem_of_bind. setoid_rewrite list_elem_of_bind. setoid_rewrite elem_of_seqZ. split.
  - intros (i' & (j' & E%list_elem_of_singleton & ?) & ?). simplify_eq. lia.
  - intros [? ?]. exists i. split; [|lia]. exists j. split; [by apply list_elem_of_singleton|lia].
Qed.
Lemma where_spec l i j : where_ l = Some (i, j) -> inside i j /\ l = at_ i j.
Proof.
  intros [Hin E]%find_some. apply Z.eqb_eq in E. split; [|done]. apply elem_of_cells. by apply list_elem_of_In.
Qed.
Lemma where_at i j : inside i j -> where_ (at_ i j) = Some (i, j).
Proof.
  intros Hij. destruct (where_ (at_ i j)) as [[i' j']|] eqn:Ew.
  - destruct (where_spec _ _ _ Ew) as [Hin El]. by destruct (at_inj _ _ _ _ Hij Hin El) as [-> ->].
  - unfold where_ in Ew. eapply (find_none _ _) in Ew; [|apply list_elem_of_In; by apply elem_of_cells].
    simpl in Ew. by rewrite Z.eqb_refl in Ew.
Qed.
Lemma mat_at M i j : inside i j -> mat M (at_ i j) = M i j.
Proof. intros Hij. unfold mat. by rewrite where_at. Qed.

(** A phase that takes the matrix from [M] to [M'], in which thread [t] works
    on the elements [own t]. *)
Lemma lu_phase (own : nat -> Z -> Z -> bool) M M' (nxt : nat -> thread unit -> Prop) Q c :
  (idx c <= N)%nat -> (forall l, mem c l = mat M l) ->
  (forall t t' i j, inside i j -> (t < N)%nat -> (t' < N)%nat -> own t i j = true -> own t' i j = true -> t = t') ->
  (forall i j, inside i j -> M i j = M' i j /\ (forall t, (t < N)%nat -> own t i j = false) \/ exists t, (t < N)%nat /\ own t i j = true) ->
  (forall t pv kn free, (t < N)%nat -> St (own t) pv M ->
     (forall i j, inside i j -> (forall t, (t < N)%nat -> own t i j = false) -> kn (at_ i j)) ->
     own_ok valid no_pause (mat M') (fun _ _ => False) free kn pv [] (thr c t)
       (fun kn pv ev q => ev = [] /\ (exists k, q = Barrier start_barrier k /\ nxt t k) /\ St (own t) pv M')) ->
  (forall c', idx c' = N -> (forall t, (t < N)%nat -> nxt t (thr c' t)) -> (forall l, mem c' l = mat M' l) ->
     ends N valid no_pause Q c') ->
  ends N valid no_pause Q c.
Proof.
  intros Hi Hm Hdisj Hcov Hthr Hend.
  set (pv0 := fun t l => match where_ l with Some (i, j) => if own t i j then Some (mem c l) else None | None => None end).
  assert (forall t l, is_Some (pv0 t l) -> exists i j, where_ l = Some (i, j) /\ own t i j = true) as Hown.
  { intros t l. unfold pv0. destruct (where_ l) as [[i j]|] eqn:Ew; [|by intros [? [=]]].
    destruct (own t i j) eqn:Eo; [|by intros [? [=]]]. eauto. }
  apply (phase_owned N N_pos valid no_pause (mat M') nxt pv0 start_barrier Q c); [done| | | | |exact Hend].
  - intros t l v _. unfold pv0. destruct (where_ l) as [[i j]|]; [|done]. destruct (own t i j); congruence.
  - intros t t' l Ht Ht' (i & j & Ew & Ho)%Hown (i' & j' & Ew' & Ho')%Hown. simplify_eq.
    apply (Hdisj t t' i j); [|done..]. by apply (where_spec l).
  - intros l. rewrite Hm. unfold mat, pv0, free_of. destruct (where_ l) as [[i j]|] eqn:Ew.
    + destruct (where_spec _ _ _ Ew) as [Hin El]. destruct (Hcov _ _ Hin) as [[HM Hno]|(t & Ht & Ho)].
      * left. split; [done|]. intros t Ht. by rewrite Hno.
      * right. exists t. split; [done|]. rewrite Ho. by eexists.
    + left. done.
  - intros t Ht. eapply own_ok_mono; [|apply (Hthr t (pv0 t) (free_of N pv0) (free_of N pv0) Ht)].
    + intros kn pv ev q (-> & Hq & HSt). split_and!; [done|done|]. intros l (i & j & Ew & Ho)%Hown.
      destruct (where_spec _ _ _ Ew) as [Hin ->]. rewrite (HSt _ _ Hin), Ho. by rewrite mat_at.
    + intros i j Hij. unfold pv0. rewrite where_at by done. destruct (own t i j); [|done]. by rewrite Hm, mat_at.
    + intros i j Hij Hno t' Ht'. unfold pv0. rewrite where_at, Hno by done. done.
Qed.

(** ** Blocks *)

Lemma blk_spec i K : blk i = K <-> K * bs <= i < (K + 1) * bs.
Proof.
  unfold LuLayout.blk. pose proof (Z.div_mod i bs ltac:(lia)). pose proof (Z.mod_pos_bound i bs ltac:(lia)). split; intros; nia.
Qed.
Lemma blk_lt i K : blk i < K <-> i < K * bs.
Proof. unfold LuLayout.blk. pose proof (Z.div_mod i bs ltac:(lia)). pose proof (Z.mod_pos_bound i bs ltac:(lia)). split; intros; nia. Qed.
Lemma upto_kb K : upto G (K * bs) = kb (K + 1).
Proof. unfold upto, LuLayout.kb. destruct (Z.ltb_spec n (K * bs + bs)); lia. Qed.
Lemma inb_blk I J i j : inside i j -> 0 <= I -> 0 <= J -> I * bs < n -> J * bs < n ->
  inb (I * bs) (kb (I + 1)) (J * bs) (kb (J + 1)) i j = (blk i =? I) && (blk j =? J).
Proof.
  unfold LuLayout.inside. intros [Hi Hj] HI HJ HIn HJn. apply Bool.eq_iff_eq_true. rewrite inb_spec, andb_true_iff, !Z.eqb_eq, !blk_spec.
  unfold LuLayout.kb. lia.
Qed.
Lemma owner_mod I J : 0 <= I -> 0 <= J -> 0 <= BlockOwner G I J < Lu.P G.
Proof. intros. unfold BlockOwner. rewrite Z.rem_mod_nonneg by lia. apply Z.mod_pos_bound. lia. Qed.

(** The rule for the loops over blocks. *)
Lemma blocks_wpo {T} sg K free (Inv : Z -> T -> (Z -> Prop) -> (Z -> option Z) -> list event -> Prop) i0 I0 s body kn pv ev
    (Phi : (Z -> Prop) -> (Z -> option Z) -> list event -> T -> Prop) :
  0 <= I0 -> i0 = Z.min (I0 * bs) n -> Inv I0 s kn pv ev ->
  (forall I s kn pv ev, I0 <= I -> I * bs < n -> Inv I s kn pv ev ->
     wpo valid no_pause sg K free kn pv ev (body (I * bs) I s) (fun kn' pv' ev' s' => Inv (I + 1) s' kn' pv' ev')) ->
  (forall I s kn pv ev, I0 <= I -> n <= I * bs -> Inv I s kn pv ev -> Phi kn pv ev s) ->
  wpo valid no_pause sg K free kn pv ev (blocks G i0 I0 s body) Phi.
Proof.
  intros HI0 Hi0 H Hbody HPhi. unfold blocks.
  assert (forall fuel I s kn pv ev, I0 <= I -> (Z.to_nat (n - I * bs) <= fuel)%nat -> Inv I s kn pv ev ->
    wpo valid no_pause sg K free kn pv ev (for_blocks G fuel (I * bs) I s body) Phi) as Hloop.
  { induction fuel as [|fuel IH]; intros I s' kn' pv' ev' HI Hf HInv; cbn [for_blocks];
      (destruct (Z.ltb_spec (I * bs) n); [|apply wpo_ret; by eapply HPhi]); [lia|].
    apply wpo_bind. eapply wpo_mono; [|by apply Hbody]. cbv beta. intros kn2 pv2 ev2 s2 H2.
    replace (I * bs + bs) with ((I + 1) * bs) by lia. apply IH; [lia|lia|done]. }
  destruct (Z.le_gt_cases (I0 * bs) n) as [Hle|Hgt].
  - rewrite Hi0, Z.min_l by lia. apply Hloop; [lia|lia|done].
  - rewrite Hi0, Z.min_r by lia. destruct (Z.to_nat n); cbn [for_blocks]; rewrite Z.ltb_irrefl; apply wpo_ret; (eapply HPhi; [| |done]; lia).
Qed.

(** ** What one thread does in a phase *)

Local Ltac bools := repeat match goal with
  | |- context [Z.eqb ?a ?b] => destruct (Z.eqb_spec a b)
  | |- context [Z.ltb ?a ?b] => destruct (Z.ltb_spec a b)
  | |- context [Z.leb ?a ?b] => destruct (Z.leb_spec a b)
  end; cbn [andb orb negb]; try lia; try done.

Definition mine (t : nat) (i j : Z) : bool := BlockOwner G (blk i) (blk j) =? Z.of_nat t.
(** In the interior and on the diagonal; on the perimeter. *)
Definition own_inner (K : Z) (t : nat) (i j : Z) : bool := mine t i j && ((K <=? blk i) && (K <=? blk j)).
Definition own_column (K : Z) (t : nat) (i j : Z) : bool :=
  (column_owner Y (blk i) K =? Z.of_nat t) && ((blk j =? K) && (K <? blk i)).
Definition own_row (K : Z) (t : nat) (i j : Z) : bool :=
  (row_owner Y K (blk j) =? Z.of_nat t) && ((blk i =? K) && (K <? blk j)).
Definition own_outer (K : Z) (t : nat) (i j : Z) : bool := own_column K t i j || own_row K t i j.

(** The matrix when the diagonal block [K] is factored, and when the blocks of
    row and column [K] are final. *)
Definition M1 (K i j : Z) : Z := if (blk i =? K) && (blk j =? K) then E (kb (K + 1)) i j else E (kb K) i j.
Definition M2 (K i j : Z) : Z := if (blk i <=? K) || (blk j <=? K) then E (kb (K + 1)) i j else E (kb K) i j.

Lemma own_outer_spec K t i j : own_outer K t i j = true <->
  (column_owner Y (blk i) K = Z.of_nat t /\ blk j = K /\ K < blk i) \/ (row_owner Y K (blk j) = Z.of_nat t /\ blk i = K /\ K < blk j).
Proof. unfold own_outer, own_column, own_row. rewrite orb_true_iff, !andb_true_iff, !Z.eqb_eq, !Z.ltb_lt. done. Qed.

Section Thread.
Context (t : nat) (K : Z) (HK : 0 <= K) (HKn : K * bs < n).
Context (sg : Z -> Z) (kn : Z -> Prop) (free : Z -> Prop) (pv : Z -> option Z) (ev : list event).
Context (Phi : (Z -> Prop) -> (Z -> option Z) -> list event -> unit -> Prop).
Local Abbreviation wpl := (wpo valid no_pause sg (fun _ _ => False) free).
Local Abbreviation k0 := (K * bs).
Local Abbreviation kl := (kb (K + 1)).

Lemma kb_K : kb K = k0.
Proof. unfold LuLayout.kb. lia. Qed.
Lemma kl_bound : k0 <= kl <= n /\ kl <= (K + 1) * bs.
Proof. unfold LuLayout.kb. lia. Qed.
Lemma blk_inside i : 0 <= i < n -> 0 <= blk i.
Proof. intros. apply Z.div_pos; lia. Qed.
Lemma blk_end i I : 0 <= i < n -> n <= I * bs -> blk i < I.
Proof. intros. apply blk_lt. lia. Qed.
Lemma in_block i I : 0 <= I -> I * bs <= i < kb (I + 1) -> blk i = I /\ 0 <= i < n.
Proof. unfold LuLayout.kb. intros. split; [apply blk_spec; lia|nia]. Qed.

(** The pointer to a block. *)
Lemma wpo_ptr I J kn1 pv1 ev1 (g : Z -> thread unit) Psi : 0 <= I -> 0 <= J -> I * bs < n -> J * bs < n ->
  (forall p, tile Y p (stride Y (I * bs)) (I * bs) (kb (I + 1)) (J * bs) (kb (J + 1)) -> wpl kn1 pv1 ev1 (g p) Psi) ->
  wpl kn1 pv1 ev1 (let! A := opt (ptr Y (I * bs) I (J * bs) J) in g A) Psi.
Proof. intros HI HJ HIn HJn H. destruct (ptr_ok I J HI HJ HIn HJn) as (p & -> & Hp). simpl. by apply H. Qed.

(** What is read from blocks that are final. *)
Lemma rd_final own val i j :
  inside i j -> own i j = false -> kn (at_ i j) -> sg (at_ i j) = E kl i j -> rd G Y sg own kn val i j (E kl i j).
Proof. intros Hij Ho Hk Hs. split; [done|]. by rewrite Ho. Qed.

Lemma interior_wpo :
  (forall i j, inside i j -> blk i = K \/ blk j = K -> kn (at_ i j) /\ sg (at_ i j) = E kl i j) ->
  St (own_inner (K + 1) t) pv (E k0) ->
  (forall pv', St (own_inner (K + 1) t) pv' (E kl) -> Phi kn pv' ev tt) ->
  wpl kn pv ev (interior F G Y (Z.of_nat t) k0 K) Phi.
Proof.
  intros Hsrc H HPhi. unfold interior. rewrite upto_kb. pose proof kl_bound as Hkl.
  apply (blocks_wpo _ _ _ (fun I _ kn' pv' ev' => kn' = kn /\ ev' = ev /\
    St (own_inner (K + 1) t) pv' (fun i j => if blk i <? I then E kl i j else E k0 i j))); [lia|done| | |].
  - split_and!; [done|done|]. eapply St_ext; [exact H|]. intros i j _ Ho. unfold own_inner in Ho. bools.
  - intros I [] kn' pv' ev' HI HIn (-> & -> & H'). cbv beta. apply wpo_ptr; [lia..|]. intros pa Ha.
    apply (blocks_wpo _ _ _ (fun J _ kn' pv' ev' => kn' = kn /\ ev' = ev /\
      St (own_inner (K + 1) t) pv' (fun i j => if (blk i <? I) || ((blk i =? I) && (blk j <? J)) then E kl i j else E k0 i j))); [lia|done| | |].
    + split_and!; [done|done|]. eapply St_ext; [exact H'|]. intros i j _ Ho. unfold own_inner in Ho. bools.
    + intros J [] kn' pv2 ev' HJ HJn (-> & -> & H2). destruct (Z.eqb_spec (BlockOwner G I J) (Z.of_nat t)) as [Eo|Eo].
      * apply wpo_ptr; [lia..|]. intros pb Htb. apply wpo_ptr; [lia..|]. intros pc Htc. rewrite !dim_ok by lia.
        set (val := fun i j => if (blk i <? I) || ((blk i =? I) && (blk j <? J)) then E kl i j else E k0 i j) in *.
        apply (bmod_wpo F G Y A0 sg _ free (own_inner (K + 1) t) val kn pv2 ev _ (I * bs) (kb (I + 1)) (J * bs) (kb (J + 1)) k0 kl);
          [nia|unfold LuLayout.kb; nia|unfold LuLayout.kb; nia|unfold LuLayout.kb; nia|unfold LuLayout.kb; nia|done|done|done| | | | |].
        -- intros i j [Ei _]%in_block [Ej _]%in_block; [|lia..]. unfold own_inner, mine. rewrite Ei, Ej, Eo, Z.eqb_refl. bools.
        -- intros k c [Ek Hk]%in_block [Ec Hc]%in_block; [|lia..]. assert (inside k c) as Hin by done.
           apply rd_final; [done|unfold own_inner; rewrite Ek; apply andb_false_intro2; bools|by apply Hsrc; auto..].
        -- intros i k [Ei Hi]%in_block [Ek Hk]%in_block; [|lia..]. assert (inside i k) as Hin by done.
           apply rd_final; [done|unfold own_inner; rewrite Ek; apply andb_false_intro2; bools|by apply Hsrc; auto..].
        -- eapply St_ext; [exact H2|]. intros i j Hij _. unfold before, val. rewrite inb_blk by (done || lia).
           destruct (Z.eqb_spec (blk i) I), (Z.eqb_spec (blk j) J); cbn [andb]; try reflexivity. bools.
        -- intros pv3 H3. split_and!; [done|done|]. eapply St_ext; [exact H3|]. intros i j Hij _. unfold before, val.
           rewrite inb_blk by (done || lia). bools.
      * apply wpo_ret. split_and!; [done|done|]. eapply St_ext; [exact H2|]. intros i j Hij Ho. cbv beta.
        assert (~ (blk i = I /\ blk j = J)) as Hne.
        { intros [Ei Ej]. apply Eo. unfold own_inner, mine in Ho. rewrite Ei, Ej in Ho.
          apply andb_prop in Ho as [Ho _]. by apply Z.eqb_eq in Ho. }
        bools.
    + intros J [] kn' pv2 ev' HJ HJn (-> & -> & H2). split_and!; [done|done|]. eapply St_ext; [exact H2|].
      intros i j Hij Ho. cbv beta. pose proof (blk_end j J ltac:(apply Hij) HJn). bools.
  - intros I [] kn' pv' ev' HI HIn (-> & -> & H'). apply HPhi. eapply St_ext; [exact H'|].
    intros i j Hij Ho. cbv beta. pose proof (blk_end i I ltac:(apply Hij) HIn). bools.
Qed.

Lemma perimeter_wpo :
  (forall i j, inside i j -> blk i = K /\ blk j = K -> kn (at_ i j) /\ sg (at_ i j) = E kl i j) ->
  St (own_outer K t) pv (E k0) ->
  (forall pv', St (own_outer K t) pv' (E kl) -> Phi kn pv' ev tt) ->
  wpl kn pv ev (perimeter F G Y (Z.of_nat t) k0 K) Phi.
Proof.
  intros Hsrc H HPhi. unfold perimeter. rewrite upto_kb. pose proof kl_bound as Hkl.
  assert (forall val k c, K * bs <= k < kl -> K * bs <= c < kl -> rd G Y sg (own_outer K t) kn val k c (E kl k c)) as Hdiag.
  { intros val k c [Ek Hk]%in_block [Ec Hc]%in_block; [|lia..]. assert (inside k c) as Hin by done.
    apply rd_final; [done| |by apply Hsrc..]. apply not_true_is_false. rewrite own_outer_spec. lia. }
  apply wpo_ptr; [lia..|]. intros pd Hd.
  apply wpo_bind.
  apply (blocks_wpo _ _ _ (fun I _ kn' pv' ev' => kn' = kn /\ ev' = ev /\
    St (own_outer K t) pv' (fun i j => if (blk j =? K) && (blk i <? I) then E kl i j else E k0 i j))); [lia|done| | |].
  { split_and!; [done|done|]. eapply St_ext; [exact H|]. intros i j _ Ho. apply own_outer_spec in Ho. bools. }
  { intros I [] kn' pv1 ev' HI HIn (-> & -> & H1). destruct (Z.eqb_spec (column_owner Y I K) (Z.of_nat t)) as [Eo|Eo].
    - apply wpo_ptr; [lia..|]. intros pa Ha. rewrite !dim_ok by lia. set (val := fun i j => if (blk j =? K) && (blk i <? I) then E kl i j else E k0 i j) in *.
      apply (bdiv_wpo F G Y A0 sg _ free (own_outer K t) val kn pv1 ev _ (I * bs) (kb (I + 1)) k0 kl);
        [nia|unfold LuLayout.kb; nia|unfold LuLayout.kb; nia|done|done| |by auto| |].
      + intros i j [Ei _]%in_block [Ej _]%in_block; [|lia..]. apply own_outer_spec. left. rewrite Ei. lia.
      + eapply St_ext; [exact H1|]. intros i j Hij _. unfold before, val. rewrite inb_blk by (done || lia). bools.
      + intros pv2 H2. split_and!; [done|done|]. eapply St_ext; [exact H2|]. intros i j Hij _. unfold before, val.
        rewrite inb_blk by (done || lia). bools.
    - apply wpo_ret. split_and!; [done|done|]. eapply St_ext; [exact H1|]. intros i j Hij Ho. cbv beta.
      assert (~ (blk i = I /\ blk j = K)) as Hne.
      { intros [Ei Ej]. apply Eo. apply own_outer_spec in Ho as [(Ho & _)|(_ & ? & _)]; [by rewrite <- Ei|lia]. }
      bools. }
  intros I [] kn' pv1 ev' HI HIn (-> & -> & H1).
  apply (blocks_wpo _ _ _ (fun J _ kn' pv' ev' => kn' = kn /\ ev' = ev /\
    St (own_outer K t) pv' (fun i j => if (blk j =? K) || (blk j <? J) then E kl i j else E k0 i j))); [lia|done| | |].
  - split_and!; [done|done|]. eapply St_ext; [exact H1|]. intros i j Hij Ho. cbv beta.
    pose proof (blk_end i I ltac:(apply Hij) HIn). apply own_outer_spec in Ho. bools.
  - intros J [] kn' pv2 ev' HJ HJn (-> & -> & H2). destruct (Z.eqb_spec (row_owner Y K J) (Z.of_nat t)) as [Eo|Eo].
    + apply wpo_ptr; [lia..|]. intros pa Ha. rewrite !dim_ok by lia. set (val := fun i j => if (blk j =? K) || (blk j <? J) then E kl i j else E k0 i j) in *.
      apply (bmodd_wpo F G Y A0 sg _ free (own_outer K t) val kn pv2 ev _ (J * bs) (kb (J + 1)) k0 kl);
        [nia|lia|unfold LuLayout.kb; nia|unfold LuLayout.kb; nia|done|done| |by auto| |].
      * intros i j [Ei _]%in_block [Ej _]%in_block; [|lia..]. apply own_outer_spec. right. rewrite Ej. lia.
      * eapply St_ext; [exact H2|]. intros i j Hij _. unfold before, val. rewrite inb_blk by (done || lia). bools.
      * intros pv3 H3. split_and!; [done|done|]. eapply St_ext; [exact H3|]. intros i j Hij Ho. unfold before, val.
        rewrite inb_blk by (done || lia). apply own_outer_spec in Ho. bools.
    + apply wpo_ret. split_and!; [done|done|]. eapply St_ext; [exact H2|]. intros i j Hij Ho. cbv beta.
      assert (~ (blk i = K /\ blk j = J)) as Hne.
      { intros [Ei Ej]. apply Eo. apply own_outer_spec in Ho as [(_ & ? & _)|(Ho & _)]; [lia|by rewrite <- Ej]. }
      apply own_outer_spec in Ho. bools.
  - intros J [] kn' pv2 ev' HJ HJn (-> & -> & H2). apply HPhi. eapply St_ext; [exact H2|].
    intros i j Hij Ho. cbv beta. pose proof (blk_end j J ltac:(apply Hij) HJn). bools.
Qed.

Lemma diagonal_wpo :
  St (own_inner K t) pv (E k0) ->
  (forall pv', St (own_inner K t) pv' (M1 K) -> Phi kn pv' ev tt) ->
  wpl kn pv ev (diagonal F G Y (Z.of_nat t) k0 K) Phi.
Proof.
  intros H HPhi. unfold diagonal. pose proof kl_bound as Hkl.
  destruct (Z.eqb_spec (BlockOwner G K K) (Z.of_nat t)) as [Eo|Eo].
  - apply wpo_ptr; [lia..|]. intros pa Ha. rewrite dim_ok by lia.
    apply (lu0_wpo F G Y A0 sg _ free (own_inner K t) (E k0) kn pv ev _ k0 kl); [nia|lia|done| | |].
    + intros i j [Ei _]%in_block [Ej _]%in_block; [|lia..]. unfold own_inner, mine. rewrite Ei, Ej, Eo, Z.eqb_refl. bools.
    + eapply St_ext; [exact H|]. intros i j Hij _. unfold before. by destruct (inb _ _ _ _ i j).
    + intros pv' H'. apply HPhi. eapply St_ext; [exact H'|]. intros i j Hij _. unfold before, M1.
      rewrite inb_blk, kb_K by (done || lia). done.
  - apply wpo_ret, HPhi. eapply St_ext; [exact H|]. intros i j Hij Ho. unfold M1. rewrite kb_K.
    destruct (Z.eqb_spec (blk i) K) as [Ei|], (Z.eqb_spec (blk j) K) as [Ej|]; cbn [andb]; try done. exfalso. apply Eo.
    unfold own_inner, mine in Ho. rewrite Ei, Ej in Ho. apply andb_prop in Ho as [Ho _]. by apply Z.eqb_eq in Ho.
Qed.
End Thread.

(** ** The phases *)

Definition body (t : nat) (k K : Z) (_ : unit) : thread unit :=
  diagonal F G Y (Z.of_nat t) k K ;! BARRIER start_barrier ;!
  perimeter F G Y (Z.of_nat t) k K ;! BARRIER start_barrier ;! interior F G Y (Z.of_nat t) k K.
Definition fin (_ : unit) : thread unit := BARRIER start_barrier.
(** The rest of thread [t] at the head of the loop, before the perimeter and
    before the interior of [K]. *)
Definition head (fuel : nat) (K : Z) (t : nat) : thread unit := bind (for_blocks G fuel (K * bs) K tt (body t)) fin.
Definition at_perimeter (fuel : nat) (K : Z) (t : nat) : thread unit :=
  bind (bind (perimeter F G Y (Z.of_nat t) (K * bs) K ;! BARRIER start_barrier ;! interior F G Y (Z.of_nat t) (K * bs) K)
    (fun s => for_blocks G fuel (K * bs + bs) (K + 1) s (body t))) fin.
Definition at_interior (fuel : nat) (K : Z) (t : nat) : thread unit :=
  bind (bind (interior F G Y (Z.of_nat t) (K * bs) K) (fun s => for_blocks G fuel (K * bs + bs) (K + 1) s (body t))) fin.
Definition enough (fuel : nat) (K : Z) : Prop := (Z.to_nat (n - K * bs) <= fuel)%nat.

Lemma mine_unique t t' i j : mine t i j = true -> mine t' i j = true -> t = t'.
Proof. unfold mine. intros H%Z.eqb_eq H'%Z.eqb_eq. lia. Qed.
Lemma mine_some i j : inside i j -> exists t, (t < N)%nat /\ mine t i j = true.
Proof.
  intros [Hi Hj]. pose proof (owner_mod (blk i) (blk j) (blk_inside i Hi) (blk_inside j Hj)).
  exists (Z.to_nat (BlockOwner G (blk i) (blk j))). split; [lia|]. unfold mine. apply Z.eqb_eq. lia.
Qed.

Lemma outer_some K i j : 0 <= K -> inside i j -> (blk j = K /\ K < blk i) \/ (blk i = K /\ K < blk j) ->
  exists t, (t < N)%nat /\ own_outer K t i j = true.
Proof.
  intros HK [Hi Hj] Hb. pose proof (blk_inside i Hi) as Hbi. pose proof (blk_inside j Hj) as Hbj. setoid_rewrite own_outer_spec. destruct Hb as [[Ej Hlt]|[Ei Hlt]].
  - pose proof (column_range (blk i) K Hbi HK). exists (Z.to_nat (column_owner Y (blk i) K)). split; [lia|left; lia].
  - pose proof (row_range K (blk j) HK Hbj). exists (Z.to_nat (row_owner Y K (blk j))). split; [lia|right; lia].
Qed.

(** What follows the barrier behind the diagonal. *)
Definition after_diagonal (K : Z) (t : nat) (q : thread unit) : Prop :=
  if K * bs <? n then exists fuel, enough fuel (K + 1) /\ q = at_perimeter fuel K t else q = Ret tt.

Lemma head_ok sg kn free pv fuel K t :
  0 <= K -> enough fuel K -> St (own_inner K t) pv (E (kb K)) ->
  own_ok valid no_pause sg (fun _ _ => False) free kn pv [] (head fuel K t)
    (fun kn pv ev q => ev = [] /\ (exists k, q = Barrier start_barrier k /\ after_diagonal K t k) /\ St (own_inner K t) pv (M1 K)).
Proof.
  intros HK Hf H. unfold head, enough, after_diagonal in *. destruct (Z.ltb_spec (K * bs) n) as [Hlt|Hge].
  - destruct fuel as [|fuel]; [lia|]. cbn [for_blocks]. destruct (Z.ltb_spec (K * bs) n); [|lia].
    apply own_ok_bind3. apply diagonal_wpo; [done|done|by rewrite <- (kb_K K Hlt)|].
    intros pv' H'. simpl. split_and!; [done| |done]. eexists. split; [done|].
    exists fuel. split; [unfold enough; lia|done].
  - assert (St (own_inner K t) pv (M1 K)) as H'.
    { eapply St_ext; [exact H|]. intros i j Hij _. unfold M1. pose proof (blk_end i K ltac:(apply Hij) Hge).
      destruct (Z.eqb_spec (blk i) K); [lia|done]. }
    destruct fuel as [|fuel]; cbn [for_blocks]; (destruct (Z.ltb_spec (K * bs) n); [lia|]); simpl; eauto 6.
Qed.

Lemma inner_cover K i j : 0 <= K -> inside i j ->
  (blk i < K \/ blk j < K) /\ (forall t, (t < N)%nat -> own_inner K t i j = false) \/ exists t, (t < N)%nat /\ own_inner K t i j = true.
Proof.
  intros HK Hij. unfold own_inner. destruct (Z.leb_spec K (blk i)), (Z.leb_spec K (blk j)); cbn [andb].
  1: { right. destruct (mine_some i j Hij) as (t & Ht & Hmine). exists t. by rewrite Hmine. }
  all: left; split; [lia|]; intros; apply andb_false_r.
Qed.

(** From the interior of [K] to the diagonal of [K + 1]. *)
Lemma interior_phase Q c K :
  0 <= K -> K * bs < n -> idx c = N -> (forall l, mem c l = mat (M2 K) l) ->
  (forall t, (t < N)%nat -> exists fuel, enough fuel (K + 1) /\ thr c t = at_interior fuel K t) ->
  (forall c', idx c' = N -> (forall t, (t < N)%nat -> after_diagonal (K + 1) t (thr c' t)) ->
     (forall l, mem c' l = mat (M1 (K + 1)) l) -> ends N valid no_pause Q c') ->
  ends N valid no_pause Q c.
Proof.
  intros HK HKn Hi Hm Ht Hend.
  apply (lu_phase (own_inner (K + 1)) (M2 K) (M1 (K + 1)) (after_diagonal (K + 1))); [lia|done| | | |done].
  - unfold own_inner. intros t t' i j _ _ _ [H _]%andb_prop [H' _]%andb_prop. by apply (mine_unique t t' i j).
  - intros i j Hij. destruct (inner_cover (K + 1) i j ltac:(lia) Hij) as [[Hlt Hno]|]; [left|by right]. split; [|done].
    unfold M1, M2. bools.
  - intros t pv kn free Htn HSt Hkn. destruct (Ht t Htn) as (fuel & Hf & ->). unfold at_interior. apply own_ok_bind2.
    apply interior_wpo; [done|done| | |].
    + intros i j Hij Hb. split.
      * apply Hkn; [done|]. intros t' _. unfold own_inner. apply andb_false_intro2. bools.
      * rewrite mat_at by done. unfold M1. bools.
    + eapply St_ext; [exact HSt|]. intros i j Hij Ho. unfold own_inner in Ho. rewrite <- (kb_K K HKn). unfold M2. bools.
    + intros pv' H'. replace (K * bs + bs) with ((K + 1) * bs) by lia. apply head_ok; [lia|done|done].
Qed.

(** From the diagonal of [K] to the perimeter. *)
Lemma perimeter_phase Q c K :
  0 <= K -> K * bs < n -> idx c = N -> (forall l, mem c l = mat (M1 K) l) ->
  (forall t, (t < N)%nat -> exists fuel, enough fuel (K + 1) /\ thr c t = at_perimeter fuel K t) ->
  (forall c', idx c' = N -> (forall t, (t < N)%nat -> exists fuel, enough fuel (K + 1) /\ thr c' t = at_interior fuel K t) ->
     (forall l, mem c' l = mat (M2 K) l) -> ends N valid no_pause Q c') ->
  ends N valid no_pause Q c.
Proof.
  intros HK HKn Hi Hm Ht Hend. pose proof (kb_K K HKn) as Ek.
  apply (lu_phase (own_outer K) (M1 K) (M2 K) (fun t q => exists fuel, enough fuel (K + 1) /\ q = at_interior fuel K t)); [lia|done| | | |done].
  - intros t t' i j _ _ _ H%own_outer_spec H'%own_outer_spec. lia.
  - intros i j Hij. destruct (((blk j =? K) && (K <? blk i)) || ((blk i =? K) && (K <? blk j))) eqn:Er.
    { right. apply outer_some; [done|done|]. revert Er. rewrite orb_true_iff, !andb_true_iff, !Z.eqb_eq, !Z.ltb_lt. done. }
    left. split; [|intros t' _; apply not_true_is_false; rewrite own_outer_spec; revert Er; bools].
    pose proof (blk_lt i K). pose proof (blk_lt j K). pose proof (kl_bound K HKn).
    unfold M1, M2. rewrite Ek. revert Er.
    destruct (Z.eq_dec (blk i) K) as [Ei|Ei], (Z.eq_dec (blk j) K) as [Ej|Ej]; bools; intros _; symmetry; apply E_stable; lia.
  - intros t pv kn free Htn HSt Hkn. destruct (Ht t Htn) as (fuel & Hf & ->). unfold at_perimeter. apply own_ok_bind3.
    apply perimeter_wpo; [done|done| | |].
    + intros i j Hij [Ei Ej]. split.
      * apply Hkn; [done|]. intros t' _. apply not_true_is_false. rewrite own_outer_spec. lia.
      * rewrite mat_at by done. unfold M2. rewrite Ei. bools.
    + eapply St_ext; [exact HSt|]. intros i j Hij Ho. apply own_outer_spec in Ho. unfold M1. rewrite Ek. bools.
    + intros pv' H'. simpl. split_and!; [done|eauto|]. eapply St_ext; [exact H'|]. intros i j Hij Ho.
      apply own_outer_spec in Ho. unfold M2. bools.
Qed.

(** ** The whole program *)

Definition factored (c : cfg Z) : Prop := forall l, mem c l = mat (E n) l.

Lemma mat_ext M M' l : (forall i j, inside i j -> M i j = M' i j) -> mat M l = mat M' l.
Proof. intros H. unfold mat. destruct (where_ l) as [[i j]|] eqn:Ew; [|done]. apply H. by apply (where_spec l). Qed.
Lemma mat_A0 l : mat A0 l = m l.
Proof. unfold mat. destruct (where_ l) as [[i j]|] eqn:Ew; [|done]. destruct (where_spec _ _ _ Ew) as [_ ->]. done. Qed.

Lemma factor_loop d : forall K c, (Z.to_nat (n - K * bs) <= d)%nat -> 0 <= K -> idx c = N ->
  (forall t, (t < N)%nat -> after_diagonal K t (thr c t)) -> (forall l, mem c l = mat (M1 K) l) ->
  ends N valid no_pause factored c.
Proof.
  induction d as [|d IH]; intros K c Hd HK Hi Ht Hm; unfold after_diagonal in Ht;
    (destruct (Z.ltb_spec (K * bs) n) as [Hlt|Hge];
      [|apply ends_finished; [apply N_pos|by split|]; intros l; rewrite Hm; apply mat_ext; intros i j Hij; unfold M1, LuLayout.kb;
        pose proof (blk_end i K ltac:(apply Hij) Hge); destruct (Z.eqb_spec (blk i) K); [lia|]; simpl; by rewrite Z.min_r by lia]); [lia|].
  apply (perimeter_phase _ c K); [done..|]. intros c1 Hi1 Ht1 Hm1.
  apply (interior_phase _ c1 K); [done..|]. intros c2 Hi2 Ht2 Hm2.
  apply (IH (K + 1)); [lia|lia|done|done|done].
Qed.

(** A function that reads the matrix and nothing else. *)
Definition reads_only {A} (touch : Z -> thread A) : Prop :=
  forall t sg kn free pv ev (Phi : (Z -> Prop) -> (Z -> option Z) -> list event -> A -> Prop),
  (forall i j, inside i j -> pv (at_ i j) = None /\ kn (at_ i j)) -> (forall x, Phi kn pv ev x) ->
  wpo valid no_pause sg (fun _ _ => False) free kn pv ev (touch (Z.of_nat t)) Phi.

Lemma solve_factors {A} (touch : Z -> thread A) : reads_only touch ->
  ends N valid no_pause factored (Cfg 0 (fun t => solve_with F G Y touch (Z.of_nat t)) m (fun _ => false)).
Proof.
  intros Htouch.
  apply (lu_phase (fun _ _ _ => false) A0 A0
    (fun t q => q = (let! _ := touch (Z.of_nat t) in BARRIER start_barrier ;! factor F G Y (Z.of_nat t) ;! BARRIER start_barrier)));
    [simpl; lia|intros l; by rewrite mat_A0|done|by left| |].
  { intros t pv kn free _ HSt _. simpl. eauto 6. }
  intros c1 Hi1 Ht1 Hm1.
  apply (lu_phase (fun _ _ _ => false) A0 A0 (fun t q => q = head (Z.to_nat n) 0 t)); [lia|done|done|by left| |].
  { intros t pv kn free Ht HSt Hkn. rewrite (Ht1 t Ht). apply own_ok_bind, Htouch.
    - intros i j Hij. split; [by rewrite HSt|by apply Hkn].
    - intros x. simpl. eauto 6. }
  intros c2 Hi2 Ht2 Hm2.
  apply (lu_phase (own_inner 0) A0 (M1 0) (after_diagonal 0)); [lia|done| | | |].
  - unfold own_inner. intros t t' i j _ _ _ [H _]%andb_prop [H' _]%andb_prop. by apply (mine_unique t t' i j).
  - intros i j Hij. destruct (inner_cover 0 i j ltac:(lia) Hij) as [[Hlt _]|]; [|by right].
    pose proof (blk_inside i ltac:(apply Hij)). pose proof (blk_inside j ltac:(apply Hij)). lia.
  - intros t pv kn free Ht HSt _. rewrite (Ht2 t Ht). apply head_ok; [lia|unfold enough; lia|].
    replace (kb 0) with 0 by (unfold LuLayout.kb; lia). exact HSt.
  - intros c3 Hi3 Ht3 Hm3. by apply (factor_loop (Z.to_nat n) 0 c3); [lia|lia|..].
Qed.
End Main.

End LuPhases.
