(* ===== verification/LuMain.v ===== *)
(** * LuMain: the factorisation of one array

    The layout of Lu.v, where the matrix is one array: it keeps the promises of
    LuLayout.v, so that the parallel factorisation is the sequential one. *)

From stdpp Require Import base list option functions.
From S2P Require Import Prelude Phases PhaseRule Doubles Lu LuElim LuLayout LuBlocks LuPhases.
Local Open Scope Z_scope.

Module LuMain.
Import Lu LuElim LuLayout LuBlocks LuPhases.

Definition whole (G : sizes) : layout :=
  Layout (fun i I j J => Some (i + j * n G)) (fun _ => n G) (fun i => upto G i - i)
    (BlockOwner G) (BlockOwner G) (valid G) (fun i j => i + j * n G).

Lemma OneSolve_whole F G zero t : OneSolve F G zero t = solve_with F G (whole G) (TouchA F G zero) t.
Proof. done. Qed.

Section Whole.
Context (F : arith Z) (G : sizes).
Hypothesis Hn : 0 <= n G.
Hypothesis Hbs : 1 <= bs G.
Hypothesis HP : 1 <= P G.

#[local] Instance whole_ok : LayoutOk G (whole G).
Proof.
  split; simpl.
  - unfold inside. intros i j i' j' [Hi Hj] [Hi' Hj'] E. assert (j = j') as ->; [|lia].
    transitivity ((i + j * n G) / n G); [apply (Z.div_unique _ (n G) j i); lia|symmetry; apply (Z.div_unique _ (n G) j' i'); lia].
  - unfold inside, valid. intros i j [Hi Hj]. assert (0 <= i + j * n G < n G * n G) by nia. zcases.
  - apply (owner_mod G HP).
  - apply (owner_mod G HP).
  - intros I HI HIn. by rewrite (upto_kb G).
  - intros I J HI HJ HIn HJn. eexists. split; [done|]. intros i j Hi Hj. simpl. lia.
Qed.

Lemma TouchA_reads zero : reads_only G (whole G) (TouchA F G zero).
Proof.
  intros t sg kn free pv ev Phi Hkn HPhi. unfold TouchA.
  pose (Inv := fun (_ : Z) (_ : Z) kn' pv' ev' => kn' = kn /\ pv' = pv /\ ev' = ev).
  apply (blocks_wpo G (whole G) Hbs _ _ _ Inv); [lia|lia|done| |by intros I x ??? _ _ (-> & -> & ->)].
  intros J x ??? HJ HJn (-> & -> & ->).
  apply (blocks_wpo G (whole G) Hbs _ _ _ Inv); [lia|lia|done| |by intros I y ??? _ _ (-> & -> & ->)].
  intros I y ??? HI HIn (-> & -> & ->). destruct (_ =? _); [|by apply wpo_ret].
  apply (wpo_for _ _ _ _ _ Inv); [lia|done| |by intros z ??? (-> & -> & ->)].
  intros j z ??? Hj (-> & -> & ->).
  apply (wpo_for _ _ _ _ _ Inv); [lia|done| |by intros w ??? (-> & -> & ->)].
  intros i w ??? Hi' (-> & -> & ->). assert (inside G i j) as Hij by (split; nia). destruct (Hkn i j Hij) as [Hpv Hk].
  apply wpo_bind. apply (wpo_read _ _ _ _ _ _ _ _ _ (sg (i + j * n G))); [by apply (at_valid (Y := whole G) i j)|right; done|]. by apply wpo_ret.
Qed.
End Whole.

(** The search for the grid of processors ends with a divisor of their number. *)
Lemma grid_loop_ok fuel p r : 1 <= r -> (Z.to_nat r <= fuel)%nat ->
  exists nr nc, grid_loop fuel p r = Some (nr, nc) /\ 1 <= nr <= r /\ nr * nc = p.
Proof.
  revert r. induction fuel as [|fuel IH]; intros r Hr Hf; [lia|]. simpl.
  destruct (Z.eqb_spec r 0); [lia|]. destruct (Z.eqb_spec (r * Z.quot p r) p) as [E|Hne]; [by exists r, (Z.quot p r)|].
  assert (r <> 1) by (intros ->; apply Hne; by rewrite Z.quot_1_r, Z.mul_1_l).
  destruct (IH (r - 1)) as (nr & nc & E & Hb & Hm); [lia..|]. exists nr, nc. split_and!; [done|lia..].
Qed.
Lemma grid_ok p : 1 <= p -> exists nr nc, grid p = Some (nr, nc) /\ 1 <= nr <= nc /\ nr * nc = p.
Proof.
  intros Hp. assert (1 <= Z.sqrt p) as Hs by (change 1 with (Z.sqrt 1); by apply Z.sqrt_le_mono).
  destruct (grid_loop_ok (S (Z.to_nat (Z.sqrt p))) p (Z.sqrt p)) as (nr & nc & E & Hb & Hm); [lia..|].
  exists nr, nc. split_and!; [done|lia| |done]. destruct (Z.sqrt_spec p) as [Hsq _]; [lia|]. destruct (Z.le_gt_cases nr nc); [done|].
  pose proof (Z.mul_le_mono_nonneg nr (Z.sqrt p) nr (Z.sqrt p)). nia.
Qed.
Lemma grid_none : grid 0 = None.
Proof. done. Qed.

(** C20. The parallel blocked factorisation is the sequential one, bit for bit:
    for every matrix, every size of the blocks, every number of processors and
    every order in which they run, and whatever the arithmetic of doubles does,
    every execution ends, no access is outside the array, and every element is
    what elimination column by column gives. *)
Theorem lu_parallel_is_sequential (F : arith Z) (G : sizes) (m : Z -> Z) (zero : Z) :
  0 <= n G -> 1 <= bs G -> 1 <= P G ->
  ends (Z.to_nat (P G)) (valid G) no_pause
    (fun c => forall i j, 0 <= i < n G -> 0 <= j < n G ->
       mem c (i + j * n G) = elim F (fun i j => m (i + j * n G)) (Z.to_nat (n G)) i j)
    (start F G zero m).
Proof.
  intros Hn Hbs HP. pose proof (whole_ok G Hn HP). eapply ends_mono; [|by apply (solve_factors F G (whole G) m Hn Hbs HP (TouchA F G zero)), TouchA_reads].
  intros c Hc i j Hi Hj. rewrite (Hc (i + j * n G)). apply (mat_at G (whole G) m). done.
Qed.

Lemma lu_parallel_is_sequential_witness :
  let F := Arith Z Z.add Z.sub Z.mul Z.div Z.opp in
  ends 3 (valid (Sizes 10 4 3)) no_pause
    (fun c => forall i j, 0 <= i < 10 -> 0 <= j < 10 ->
       mem c (i + j * 10) = elim F (fun i j => i + j * 10 + 1) 10 i j)
    (start F (Sizes 10 4 3) 0 (fun l => l + 1)).
Proof. apply (lu_parallel_is_sequential (Arith Z Z.add Z.sub Z.mul Z.div Z.opp) (Sizes 10 4 3) (fun l => l + 1) 0); simpl; lia. Defined.
End LuMain.
