(* ===== verification/LuContig.v ===== *)
(** * LuContig: the blocked LU factorisation with contiguous blocks
      (papps/splash2/codes/kernels/lu/contiguous_blocks/lu.C)

    Every block of the matrix is an array of its own: [a[I + J * nblocks]]
    points to block [(I, J)], inside the memory of the processor that owns the
    block.  A pointer to double is its address over eight; what [G_MALLOC]
    answers is a parameter.  Here are the allocation of [main], the threads,
    and [InitA] and [CheckResult] with their arithmetic of indices; [daxpy],
    [lu0], [bdiv] and [bmodd], which are the same text in both programs, and the
    options are those of Lu.v.  Times and statistics are left out. *)

From stdpp Require Import base list option.
From S2P Require Import Prelude Phases Doubles Lu.
Local Open Scope Z_scope.

(** [for (i = 0; i < n; i++)] of code that has no shared state. *)
Fixpoint ofor {S} (n : nat) (s : S) (body : Z -> S -> option S) : option S :=
  match n with
  | O => Some s
  | S n => let? s := ofor n s body in body (Z.of_nat n) s
  end.

Module LuContig.
Import Lu.

Definition DEFAULT_N : Z := 512.
Definition PAGE_SIZE : Z := 1024.

Section Contig.
Context (F : arith Z) (G : sizes).
Local Abbreviation n := (Lu.n G).
Local Abbreviation bs := (Lu.bs G).
Local Abbreviation P := (Lu.P G).

Definition BlockOwner (I J : Z) : Z := Z.rem (I + J) P.
Definition BlockOwnerColumn (I J : Z) : Z := Z.rem I P.
Definition BlockOwnerRow (I J : Z) : Z := Z.rem (Z.rem J P + Z.quot P 2) P.

(** ** The allocation of [main] *)

Definition nblocks : Z := Lu.num_blocks n bs.
Definition edge : Z := let edge := Z.rem n bs in if edge =? 0 then bs else edge.

(** The number of doubles of a block. *)
Definition size (i j : Z) : Z :=
  if (i =? nblocks - 1) && (j =? nblocks - 1) then edge * edge
  else if (i =? nblocks - 1) || (j =? nblocks - 1) then edge * bs
  else bs * bs.

Definition proc_bytes : option (list Z) :=
  ofor (Z.to_nat nblocks) (replicate (Z.to_nat P) 0) (fun i pb =>
    ofor (Z.to_nat nblocks) pb (fun j pb =>
      let proc_num := BlockOwner i j in
      let? b := znth pb proc_num in
      zset pb proc_num (b + size i j * 8))).

(** [malloc p] is the address [G_MALLOC] answers for processor [p]; its memory
    starts at the next page. *)
Context (malloc : Z -> Z).
Definition page_up (addr : Z) : Z := addr + PAGE_SIZE - Z.rem addr PAGE_SIZE.
Definition first_malloc : list Z := map (fun p => Z.quot (page_up (malloc p)) 8) (seqZ 0 P).

(** The table [a] of the pointers, and [last_malloc]. *)
Definition place_blocks (a0 : list Z) : option (list Z * list Z) :=
  ofor (Z.to_nat nblocks) (a0, first_malloc) (fun i st =>
    ofor (Z.to_nat nblocks) st (fun j '(a, last_malloc) =>
      let proc_num := BlockOwner i j in
      let? p := znth last_malloc proc_num in
      let? a := zset a (i + j * nblocks) p in
      let? last_malloc := zset last_malloc proc_num (p + size i j) in
      Some (a, last_malloc))).

(** The doubles inside the memory the processors have got. *)
Definition valid (bytes : list Z) (l : Z) : bool :=
  existsb (fun p => match znth bytes p with
    | Some b => (malloc p <=? 8 * l) && (8 * l + 8 <=? malloc p + (b + PAGE_SIZE))
    | None => false
    end) (seqZ 0 P).

(** ** The threads *)

Definition bmod (a b c dimi dimj dimk stridea strideb stridec : Z) : thread unit :=
  for_ 0 dimk tt (fun k _ =>
    for_ 0 dimj tt (fun j _ =>
      let! v := read (b + (k + j * strideb)) in
      let alpha := fneg F v in
      daxpy F (c + j * stridec) (a + k * stridea) dimi alpha)).

(** [il = i + bs; if (il > n) { il = n; strI = il - i; } else strI = bs;] *)
Definition str (i : Z) : Z := if n <? i + bs then n - i else bs.

Context (a : list Z).
Definition block (I J : Z) : thread Z := opt (znth a (I + J * nblocks)).

Definition diagonal (MyNum k K : Z) : thread unit :=
  let strK := str k in
  if BlockOwner K K =? MyNum then
    let! A := block K K in lu0 F A strK strK
  else Ret tt.

Definition perimeter (MyNum k K : Z) : thread unit :=
  let kl := upto G k in
  let strK := str k in
  let! D := block K K in
  blocks G kl (K + 1) tt (fun i I _ =>
    if BlockOwnerColumn I K =? MyNum then
      let strI := str i in
      let! A := block I K in bdiv F A D strI strK strI strK
    else Ret tt) ;!
  blocks G kl (K + 1) tt (fun j J _ =>
    if BlockOwnerRow K J =? MyNum then
      let strJ := str j in
      let! A := block K J in bmodd F D A strK strJ strK strK
    else Ret tt).

Definition interior (MyNum k K : Z) : thread unit :=
  let kl := upto G k in
  let strK := str k in
  blocks G kl (K + 1) tt (fun i I _ =>
    let strI := str i in
    let! A := block I K in
    blocks G kl (K + 1) tt (fun j J _ =>
      let strJ := str j in
      if BlockOwner I J =? MyNum then
        let! B := block K J in
        let! C := block I J in
        bmod A B C strI strJ strK strI strK strI
      else Ret tt)).

Definition lu (MyNum : Z) : thread unit :=
  blocks G 0 0 tt (fun k K _ =>
    diagonal MyNum k K ;!
    BARRIER start_barrier ;!
    perimeter MyNum k K ;!
    BARRIER start_barrier ;!
    interior MyNum k K).

(** The size of the blocks of block row [I] in [TouchA]. *)
Definition touch_size (I : Z) : Z :=
  if I =? nblocks - 1 then let ibs := Z.rem n bs in if ibs =? 0 then bs else ibs else bs.
Definition TouchA (zero MyNum : Z) : thread Z :=
  for_ 0 nblocks zero (fun J tot =>
    for_ 0 nblocks tot (fun I tot =>
      if BlockOwner I J =? MyNum then
        let jbs := touch_size J in
        let ibs := touch_size I in
        for_ 0 jbs tot (fun j tot =>
          for_ 0 ibs tot (fun i tot =>
            let! p := block I J in
            let! x := read (p + (i + j * ibs)) in Ret (fadd F tot x)))
      else Ret tot)).

(** [SlaveStart] from the point where the thread has its number. *)
Definition OneSolve (zero MyNum : Z) : thread unit :=
  BARRIER start_barrier ;!
  let! _ := TouchA zero MyNum in
  BARRIER start_barrier ;!
  lu MyNum ;!
  BARRIER start_barrier.

Definition start (zero : Z) (m : Z -> Z) : cfg Z :=
  Cfg 0 (fun t => OneSolve zero (Z.of_nat t)) m (fun _ => false).

(** ** The sequential parts *)

(** [a % b]: [None] is a division by zero. *)
Definition rem_ (x y : Z) : option Z := if y =? 0 then None else Some (Z.rem x y).

(** The address of element [(i, j)], as [InitA], [PrintA] and [CheckResult] find
    it: [ii], [jj] and [a[ii] + jj]. *)
Definition element (i j : Z) : option Z :=
  let edge := Z.rem n bs in
  let (ibs, skip) := if n - i <=? edge then (n - edge, edge) else (bs, bs) in
  let jbs := if n - j <=? edge then n - edge else bs in
  let ii := Z.quot i bs + Z.quot j bs * nblocks in
  let? x := rem_ i ibs in
  let? y := rem_ j jbs in
  let jj := x + y * skip in
  let? p := znth a ii in
  Some (p + jj).

(** [InitA]: [rnd k] is the [k]th number [lrand48() / MAXRAND], [rhs] the array
    it fills. *)
Definition InitA (rnd : Z -> Z) (ten zero : Z) (rhs : list Z) : thread (list Z) :=
  let! _ := for_ 0 n tt (fun j _ =>
    for_ 0 n tt (fun i _ =>
      let! l := opt (element i j) in
      write l (rnd (i + j * n)) ;!
      (if i =? j then let! x := read l in write l (fmul F x ten) else Ret tt))) in
  let! rhs := for_ 0 n rhs (fun j rhs => opt (zset rhs j zero)) in
  for_ 0 n rhs (fun j rhs =>
    for_ 0 n rhs (fun i rhs =>
      let! l := opt (element i j) in
      let! r := opt (znth rhs i) in
      let! x := read l in
      opt (zset rhs i (fadd F r x)))).

(** [y[i] -= a[ii][jj] * y[j]] *)
Definition subtract (i j : Z) (y : list Z) : thread (list Z) :=
  let! l := opt (element i j) in
  let! yi := opt (znth y i) in
  let! x := read l in
  let! yj := opt (znth y j) in
  opt (zset y i (fsub F yi (fmul F x yj))).

(** [CheckResult]: [y] is the array it allocates, [wrong] is
    [fabs(y - 1.0) > 0.00001]; the answer is whether it prints TEST PASSED. *)
Definition CheckResult (wrong : Z -> bool) (rhs y : list Z) : thread bool :=
  let! y := for_ 0 n y (fun j y => let! r := opt (znth rhs j) in opt (zset y j r)) in
  let! y := for_ 0 n y (fun j y =>
    let! l := opt (element j j) in
    let! v := opt (znth y j) in
    let! d := read l in
    let! y := opt (zset y j (fdiv F v d)) in
    for_ (j + 1) n y (fun i y => subtract i j y)) in
  let! y := for_ 0 n y (fun s y =>
    let j := n - 1 - s in
    for_ 0 j y (fun i y => subtract i j y)) in
  let! bogus := for_ 0 n false (fun j bogus => let! v := opt (znth y j) in Ret (bogus || wrong v)) in
  Ret (negb bogus).
End Contig.
End LuContig.
