(* ===== verification/LuAlloc.v ===== *)
(** * LuAlloc: where the blocks are

    The allocation of LuContig.v: the table of the pointers is filled, the
    blocks are inside the memory of their processors and do not overlap, so
    that the program keeps the promises of LuLayout.v. *)

From stdpp Require Import base list option.
From S2P Require Import Prelude Phases Doubles Lu LuLayout LuContig LuPhases.
Local Open Scope Z_scope.

(** ** Loops and arrays *)

Lemma ofor_ok {T} (Inv : Z -> T -> Prop) (n : nat) (s : T) (body : Z -> T -> option T) :
  Inv 0 s ->
  (forall i s, 0 <= i < Z.of_nat n -> Inv i s -> exists s', body i s = Some s' /\ Inv (i + 1) s') ->
  exists s', ofor n s body = Some s' /\ Inv (Z.of_nat n) s'.
Proof.
  intros H0 Hb. induction n as [|n IH]; cbn [ofor]; [eauto|].
  destruct IH as (s1 & -> & H1); [intros i x Hi; apply Hb; lia|]. simpl.
  destruct (Hb (Z.of_nat n) s1 ltac:(lia) H1) as (s2 & -> & H2). exists s2. split; [done|].
  by replace (Z.of_nat (S n)) with (Z.of_nat n + 1) by lia.
Qed.

Module LuAlloc.
Import Lu LuLayout LuContig LuPhases.

Section Alloc.
Context (F : arith Z) (G : sizes) (malloc : Z -> Z).
Local Abbreviation n := (Lu.n G).
Local Abbreviation bs := (Lu.bs G).
Local Abbreviation P := (Lu.P G).
Local Abbreviation nb := (nblocks G).
Hypothesis Hn : 0 <= n.
Hypothesis Hbs : 1 <= bs.
Hypothesis HP : 1 <= P.

(** ** Sizes *)

Lemma nblocks_spec : (nb - 1) * bs < n <= nb * bs /\ 0 <= nb.
Proof.
  unfold nblocks, Lu.num_blocks. rewrite Z.quot_div_nonneg by lia.
  pose proof (Z.div_mod n bs ltac:(lia)). pose proof (Z.mod_pos_bound n bs ltac:(lia)). pose proof (Z.div_pos n bs Hn ltac:(lia)).
  destruct (Z.eqb_spec (bs * (n / bs)) n); cbn [negb]; nia.
Qed.
Lemma block_range I : 0 <= I -> I * bs < n <-> I < nb.
Proof. intros HI. pose proof nblocks_spec. split; intros; nia. Qed.

Definition rows (I : Z) : Z := if I =? nb - 1 then edge G else bs.
Lemma edge_spec : 1 <= nb -> edge G = n - (nb - 1) * bs.
Proof.
  intros Hb. pose proof nblocks_spec as Hs. unfold edge. rewrite Z.rem_mod_nonneg by lia.
  pose proof (Z.div_mod n bs ltac:(lia)). pose proof (Z.mod_pos_bound n bs ltac:(lia)).
  destruct (Z.eqb_spec (n mod bs) 0) as [|Hne].
  - assert (nb = n / bs) as -> by nia. lia.
  - assert (nb = n / bs + 1) as -> by nia. lia.
Qed.
Lemma rows_spec I : 0 <= I < nb -> rows I = kb G (I + 1) - I * bs /\ 1 <= rows I <= bs.
Proof.
  intros HI. pose proof nblocks_spec as Hs. pose proof (edge_spec ltac:(lia)). unfold rows, kb.
  destruct (Z.eqb_spec I (nb - 1)) as [->|]; nia.
Qed.
Lemma str_rows I : 0 <= I < nb -> str G (I * bs) = rows I.
Proof.
  intros HI. pose proof nblocks_spec as Hs. pose proof (edge_spec ltac:(lia)). unfold rows, str.
  destruct (Z.eqb_spec I (nb - 1)) as [EI|HI2], (Z.ltb_spec n (I * bs + bs)); rewrite ?EI in *; nia.
Qed.
Lemma touch_rows I : touch_size G I = rows I.
Proof. done. Qed.
Lemma size_rows I J : size G I J = rows I * rows J.
Proof. unfold size, rows. destruct (I =? nb - 1), (J =? nb - 1); simpl; lia. Qed.

Lemma owner_range I J : 0 <= I -> 0 <= J -> 0 <= LuContig.BlockOwner G I J < P.
Proof. intros. unfold LuContig.BlockOwner. rewrite Z.rem_mod_nonneg by lia. apply Z.mod_pos_bound. lia. Qed.

(** ** The order of the allocation *)

Definition ord (I J : Z) : nat := Z.to_nat (I * nb + J).
(** The doubles that processor [p] has given to the first [q] blocks. *)
Fixpoint used (q : nat) (p : Z) : Z :=
  match q with
  | O => 0
  | S q => let (I, J) := (Z.of_nat q / nb, Z.of_nat q mod nb) in
           used q p + if p =? LuContig.BlockOwner G I J then size G I J else 0
  end.

Lemma ord_next I J : 0 <= I -> 0 <= J < nb -> ord I (J + 1) = S (ord I J).
Proof. unfold ord. intros. nia. Qed.
Lemma ord_row I : 0 <= I -> 0 <= nb -> ord I nb = ord (I + 1) 0.
Proof. unfold ord. intros. f_equal. lia. Qed.
Lemma ord_lt I J : 0 <= I < nb -> 0 <= J < nb -> (ord I J < ord nb 0)%nat.
Proof. unfold ord. intros. nia. Qed.
Lemma ord_inj I J I' J' : 0 <= I -> 0 <= J < nb -> 0 <= I' -> 0 <= J' < nb -> ord I J = ord I' J' -> I = I' /\ J = J'.
Proof. unfold ord. intros. assert (I * nb + J = I' * nb + J') by nia. assert (I = I') by nia. lia. Qed.
Lemma used_next I J p : 0 <= I -> 0 <= J < nb ->
  used (S (ord I J)) p = used (ord I J) p + if p =? LuContig.BlockOwner G I J then size G I J else 0.
Proof.
  intros HI HJ. simpl. unfold ord at 2 3 4 5. rewrite Z2Nat.id by nia.
  replace ((I * nb + J) / nb) with I by (apply (Z.div_unique _ nb I J); lia).
  by replace ((I * nb + J) mod nb) with J by (apply (Z.mod_unique _ nb I J); lia).
Qed.
Lemma size_pos q : (q < ord nb 0)%nat -> 0 <= size G (Z.of_nat q / nb) (Z.of_nat q mod nb).
Proof.
  intros Hq. pose proof nblocks_spec. unfold ord in Hq. rewrite size_rows. assert (0 < nb) as Hb by nia.
  pose proof (Z.mod_pos_bound (Z.of_nat q) nb Hb). pose proof (Z.div_mod (Z.of_nat q) nb ltac:(lia)).
  assert (0 <= Z.of_nat q / nb < nb) as Hd by nia.
  destruct (rows_spec _ Hd). destruct (rows_spec (Z.of_nat q mod nb) ltac:(lia)). nia.
Qed.
Lemma used_mono q q' p : (q <= q' <= ord nb 0)%nat -> used q p <= used q' p.
Proof.
  intros [Hle Hb]. induction Hle as [|q' Hle IH]; [lia|]. specialize (IH ltac:(lia)). pose proof (size_pos q' ltac:(lia)).
  cbn [used]. destruct (_ =? _); lia.
Qed.

(** A nested loop over the blocks. *)
Lemma blocks_ok {T} (Inv : nat -> T -> Prop) (s : T) (body : Z -> Z -> T -> option T) :
  Inv 0%nat s ->
  (forall I J s, 0 <= I < nb -> 0 <= J < nb -> Inv (ord I J) s -> exists s', body I J s = Some s' /\ Inv (S (ord I J)) s') ->
  exists s', ofor (Z.to_nat nb) s (fun I s => ofor (Z.to_nat nb) s (body I)) = Some s' /\ Inv (ord nb 0) s'.
Proof.
  intros H0 Hb. pose proof nblocks_spec as [_ Hnb].
  destruct (ofor_ok (fun I => Inv (ord I 0)) (Z.to_nat nb) s (fun I s => ofor (Z.to_nat nb) s (body I))) as (s' & E & H');
    [done| |exists s'; by rewrite Z2Nat.id in H'].
  intros I s1 HI H1. destruct (ofor_ok (fun J => Inv (ord I J)) (Z.to_nat nb) s1 (body I)) as (s2 & E2 & H2); [done| |].
  - intros J s2 HJ H2. destruct (Hb I J s2 ltac:(lia) ltac:(lia) H2) as (s3 & E3 & H3). exists s3. split; [done|].
    by rewrite ord_next by lia.
  - exists s2. split; [done|]. rewrite Z2Nat.id in H2 by lia. by rewrite <- ord_row by lia.
Qed.

(** The first loop counts the bytes. *)
Lemma proc_bytes_ok : exists pb, proc_bytes G = Some pb /\ vec pb P (fun p => 8 * used (ord nb 0) p).
Proof.
  apply (blocks_ok (fun q pb => vec pb P (fun p => 8 * used q p))).
  - split; [rewrite length_replicate; lia|]. intros i Hi. unfold znth. destruct (Z.ltb_spec i 0); [lia|].
    apply lookup_replicate_2. lia.
  - intros I J pb HI HJ Hv. pose proof (owner_range I J ltac:(lia) ltac:(lia)) as Ho. destruct (Hv) as [_ Hv'].
    rewrite (Hv' _ Ho). cbv beta iota. destruct (vec_set _ _ _ _ (8 * used (ord I J) (LuContig.BlockOwner G I J) + size G I J * 8) Hv Ho) as (pb' & E & Hv2).
    exists pb'. split; [done|]. eapply vec_ext; [exact Hv2|]. intros p Hp. rewrite used_next by lia. cbv beta.
    destruct (Z.eqb_spec p (LuContig.BlockOwner G I J)) as [->|]; lia.
Qed.

Definition first (p : Z) : Z := Z.quot (page_up (malloc p)) 8.
(** The pointer to block [(I, J)]. *)
Definition base (I J : Z) : Z := first (LuContig.BlockOwner G I J) + used (ord I J) (LuContig.BlockOwner G I J).

Definition table_upto (q : nat) (a : list Z) : Prop :=
  zlen a = nb * nb /\ forall I J, 0 <= I < nb -> 0 <= J < nb -> (ord I J < q)%nat -> znth a (I + J * nb) = Some (base I J).
Definition table (a : list Z) : Prop := forall I J, 0 <= I < nb -> 0 <= J < nb -> znth a (I + J * nb) = Some (base I J).

(** The second loop places the blocks one behind the other. *)
Lemma place_blocks_ok a0 : zlen a0 = nb * nb -> exists a last, place_blocks G malloc a0 = Some (a, last) /\ table a.
Proof.
  intros Ha0. unfold place_blocks.
  destruct (blocks_ok (fun q '(a, last) => table_upto q a /\ vec last P (fun p => first p + used q p)) (a0, first_malloc G malloc)
    (fun i j '(a, last_malloc) => let proc_num := LuContig.BlockOwner G i j in
      let? p := znth last_malloc proc_num in let? a := zset a (i + j * nb) p in
      let? last_malloc := zset last_malloc proc_num (p + size G i j) in Some (a, last_malloc))) as ([a last] & E & [Ht Hv]).
  - split; [split; [done|lia]|]. unfold first_malloc. split; [rewrite length_map, length_seqZ; lia|].
    intros p Hp. unfold znth. destruct (Z.ltb_spec p 0); [lia|]. rewrite list_lookup_fmap, lookup_seqZ_lt by lia. simpl.
    rewrite Z2Nat.id, Z.add_0_l, Z.add_0_r by lia. done.
  - intros I J [a last] HI HJ [[Hl Ht] Hv]. pose proof (owner_range I J ltac:(lia) ltac:(lia)) as Ho. destruct (Hv) as [_ Hv'].
    cbv zeta. rewrite (Hv' _ Ho). cbv beta iota. rewrite zset_Some by nia. cbv beta iota.
    destruct (vec_set _ _ _ _ (first (LuContig.BlockOwner G I J) + used (ord I J) (LuContig.BlockOwner G I J) + size G I J) Hv Ho) as (last' & -> & Hv2).
    eexists. split; [reflexivity|]. split; [split; [by rewrite length_insert|]|].
    + intros I' J' HI' HJ' Hlt. rewrite (znth_zset a _ (I + J * nb) (base I J) (I' + J' * nb)) by (apply zset_Some; nia).
      destruct (Z.eqb_spec (I' + J' * nb) (I + J * nb)) as [Eq|Ne].
      * assert (J' = J) as -> by nia. by assert (I' = I) as -> by lia.
      * apply Ht; [done|done|]. destruct (decide (ord I' J' = ord I J)) as [Eo|]; [|lia].
        destruct (ord_inj I' J' I J) as [-> ->]; [lia|lia|lia|lia|done|done].
    + eapply vec_ext; [exact Hv2|]. intros p Hp. rewrite used_next by lia. cbv beta.
      destruct (Z.eqb_spec p (LuContig.BlockOwner G I J)) as [->|]; lia.
  - exists a, last. split; [exact E|]. destruct Ht as [_ Ht]. intros I J HI HJ. apply Ht; [done|done|]. by apply ord_lt.
Qed.
(** ** The layout *)

Context (pb a : list Z).
Hypothesis Hpb : vec pb P (fun p => 8 * used (ord nb 0) p).
Hypothesis Htable : table a.
(** What [G_MALLOC] answers are disjoint pieces of memory. *)
Hypothesis Hmalloc : forall p, 0 <= p < P -> 0 <= malloc p.
Hypothesis Hsep : forall p p', 0 <= p < P -> 0 <= p' < P -> p <> p' ->
  malloc p + (8 * used (ord nb 0) p + PAGE_SIZE) <= malloc p' \/ malloc p' + (8 * used (ord nb 0) p' + PAGE_SIZE) <= malloc p.

Definition in_block (i j : Z) : Z := (i - blk G i * bs) + (j - blk G j * bs) * rows (blk G i).
Definition at_c (i j : Z) : Z := base (blk G i) (blk G j) + in_block i j.

Lemma blk_rows i : 0 <= i < n -> 0 <= blk G i < nb /\ 0 <= i - blk G i * bs < rows (blk G i).
Proof.
  intros Hi. unfold blk. pose proof (Z.div_mod i bs ltac:(lia)). pose proof (Z.mod_pos_bound i bs ltac:(lia)).
  pose proof (Z.div_pos i bs ltac:(lia) ltac:(lia)). assert (i / bs < nb) as Hlt by (apply block_range; lia).
  split; [lia|]. destruct (rows_spec (i / bs) ltac:(lia)) as [-> _]. unfold kb. nia.
Qed.
Lemma in_block_range i j : inside G i j -> 0 <= in_block i j < size G (blk G i) (blk G j).
Proof.
  intros [Hi Hj]. destruct (blk_rows i Hi) as [_ Ri], (blk_rows j Hj) as [_ Rj]. unfold in_block. rewrite size_rows. nia.
Qed.

Lemma page_up_spec p : 0 <= p < P -> 8 * first p = page_up (malloc p) /\ malloc p <= page_up (malloc p) <= malloc p + PAGE_SIZE.
Proof.
  intros Hp. pose proof (Hmalloc p Hp). unfold first, page_up, PAGE_SIZE. rewrite Z.rem_mod_nonneg by lia.
  pose proof (Z.div_mod (malloc p) 1024 ltac:(lia)). pose proof (Z.mod_pos_bound (malloc p) 1024 ltac:(lia)).
  replace (malloc p + 1024 - malloc p mod 1024) with ((malloc p / 1024 + 1) * 128 * 8) by lia.
  rewrite Z.quot_mul by lia. lia.
Qed.
(** An element is inside its processor's memory. *)
Lemma at_area i j : inside G i j -> let p := LuContig.BlockOwner G (blk G i) (blk G j) in
  0 <= p < P /\ malloc p <= 8 * at_c i j /\ 8 * at_c i j + 8 <= malloc p + (8 * used (ord nb 0) p + PAGE_SIZE).
Proof.
  intros Hij p. pose proof (in_block_range i j Hij) as Hr. destruct Hij as [Hi Hj].
  destruct (blk_rows i Hi) as [Bi _], (blk_rows j Hj) as [Bj _].
  pose proof (owner_range (blk G i) (blk G j) ltac:(lia) ltac:(lia)) as Hp. fold p in Hp. split; [done|].
  destruct (page_up_spec p Hp) as [E1 E2]. unfold at_c, base. fold p.
  pose proof (ord_lt (blk G i) (blk G j) Bi Bj) as Ho. pose proof (used_mono 0 (ord (blk G i) (blk G j)) p ltac:(lia)) as U0.
  pose proof (used_mono (S (ord (blk G i) (blk G j))) (ord nb 0) p ltac:(lia)) as U1.
  rewrite used_next in U1 by lia. fold p in U1. rewrite Z.eqb_refl in U1. simpl in U0. lia.
Qed.

Lemma at_c_inj i j i' j' : inside G i j -> inside G i' j' -> at_c i j = at_c i' j' -> i = i' /\ j = j'.
Proof.
  intros Hij Hij' E. destruct (at_area i j Hij) as (Hp & A1 & A2), (at_area i' j' Hij') as (Hp' & A1' & A2').
  pose proof (in_block_range i j Hij) as Hr. pose proof (in_block_range i' j' Hij') as Hr'. destruct Hij as [Hi Hj], Hij' as [Hi' Hj'].
  destruct (blk_rows i Hi) as [Bi Ri], (blk_rows j Hj) as [Bj Rj], (blk_rows i' Hi') as [Bi' Ri'], (blk_rows j' Hj') as [Bj' Rj'].
  destruct (decide (LuContig.BlockOwner G (blk G i) (blk G j) = LuContig.BlockOwner G (blk G i') (blk G j'))) as [Ep|Np];
    [|destruct (Hsep _ _ Hp Hp' Np); lia].
  unfold at_c, base in E. rewrite <- Ep in E, Hp'. set (p := LuContig.BlockOwner G (blk G i) (blk G j)) in *.
  pose proof (ord_lt (blk G i) (blk G j) Bi Bj) as Ho. pose proof (ord_lt (blk G i') (blk G j') Bi' Bj') as Ho'.
  destruct (Nat.lt_trichotomy (ord (blk G i) (blk G j)) (ord (blk G i') (blk G j'))) as [Hlt|[Heq|Hgt]].
  - pose proof (used_mono (S (ord (blk G i) (blk G j))) (ord (blk G i') (blk G j')) p ltac:(lia)) as U.
    rewrite used_next in U by lia. fold p in U. rewrite Z.eqb_refl in U. lia.
  - destruct (ord_inj (blk G i) (blk G j) (blk G i') (blk G j')) as [E1 E2]; [lia|lia|lia|lia|done|].
    rewrite Heq in E. unfold in_block in E. rewrite <- E1, <- E2 in *. assert (j = j') by nia. nia.
  - pose proof (used_mono (S (ord (blk G i') (blk G j'))) (ord (blk G i) (blk G j)) p ltac:(lia)) as U.
    rewrite used_next in U by lia. rewrite <- Ep, Z.eqb_refl in U. lia.
Qed.

Definition contig : layout :=
  Layout (fun i I j J => znth a (I + J * nb)) (str G) (str G) (BlockOwnerColumn G) (BlockOwnerRow G) (valid G malloc pb) at_c.

#[local] Instance contig_ok : LayoutOk G contig.
Proof.
  split; simpl.
  - apply at_c_inj.
  - intros i j Hij. destruct (at_area i j Hij) as (Hp & A1 & A2). unfold valid. apply existsb_exists.
    exists (LuContig.BlockOwner G (blk G i) (blk G j)). split; [apply list_elem_of_In, elem_of_seqZ; lia|].
    rewrite (proj2 Hpb) by done. apply andb_true_intro. lia.
  - intros I J HI HJ. unfold BlockOwnerColumn. rewrite Z.rem_mod_nonneg by lia. apply Z.mod_pos_bound. lia.
  - intros I J HI HJ. unfold BlockOwnerRow. rewrite (Z.rem_mod_nonneg J), Z.quot_div_nonneg by lia.
    pose proof (Z.mod_pos_bound J P ltac:(lia)). pose proof (Z.div_pos P 2 ltac:(lia) ltac:(lia)).
    rewrite Z.rem_mod_nonneg by lia. apply Z.mod_pos_bound. lia.
  - intros I HI HIn. apply (block_range I HI) in HIn. rewrite str_rows by lia. by apply rows_spec.
  - intros I J HI HJ HIn HJn. apply (block_range I HI) in HIn. apply (block_range J HJ) in HJn. exists (base I J). split; [apply Htable; lia|].
    intros i j Hi Hj. destruct (rows_spec I ltac:(lia)) as [RI _], (rows_spec J ltac:(lia)) as [RJ _].
    assert (blk G i = I) as Ei by (apply (blk_spec G Hbs); unfold kb in Hi; lia).
    assert (blk G j = J) as Ej by (apply (blk_spec G Hbs); unfold kb in Hj; lia).
    simpl. unfold at_c, in_block. rewrite Ei, Ej, str_rows by lia. done.
Qed.
End Alloc.
End LuAlloc.
