(* ===== verification/LuContigMain.v ===== *)
(** * LuContigMain: the factorisation with contiguous blocks is the same

    [main] of LuContig.v put together: the indices with which [InitA] and
    [CheckResult] find an element lead to its place, the threads factor the
    matrix as elimination does, and the verdict is the one the version with one
    array gives. *)

From stdpp Require Import base list option functions.
From S2P Require Import Prelude Phases PhaseRule Doubles Lu LuElim LuLayout LuBlocks LuPhases LuContig LuAlloc.
Local Open Scope Z_scope.

Module LuContigMain.
Import Lu LuElim LuLayout LuPhases LuContig LuAlloc.

(** [G_MALLOC] gives every processor a piece of memory of its own. *)
Definition malloc_ok (G : sizes) (malloc : Z -> Z) (bytes : list Z) : Prop :=
  (forall p, 0 <= p < Lu.P G -> 0 <= malloc p) /\
  forall p p' b b', p <> p' -> znth bytes p = Some b -> znth bytes p' = Some b' ->
    malloc p + (b + PAGE_SIZE) <= malloc p' \/ malloc p' + (b' + PAGE_SIZE) <= malloc p.

Section Main.
Context (F : arith Z) (G : sizes) (malloc : Z -> Z).
Local Abbreviation n := (Lu.n G).
Local Abbreviation bs := (Lu.bs G).
Local Abbreviation P := (Lu.P G).
Local Abbreviation nb := (nblocks G).
Hypothesis Hn : 1 <= bs <= n.
Hypothesis HP : 1 <= P.
Context (pb a : list Z).
Hypothesis Htable : table G malloc a.
Local Abbreviation Y := (contig G malloc pb a).
Context `{!LayoutOk G Y}.
Local Abbreviation at_c := (at_c G malloc).
Local Abbreviation valid := (LuContig.valid G malloc pb).
Local Abbreviation inside := (inside G).

Lemma at_c_valid i j : inside i j -> valid (at_c i j) = true.
Proof. apply (at_valid (Y := Y)). Qed.

(** ** Finding an element *)

Lemma index_row i : 0 <= i < n ->
  let edge := Z.rem n bs in
  rem_ i (if n - i <=? edge then n - edge else bs) = Some (i - blk G i * bs) /\
  (if n - i <=? edge then edge else bs) = rows G (blk G i).
Proof.
  intros Hi. cbv zeta. destruct (blk_rows G ltac:(lia) ltac:(lia) i Hi) as [Bi Ri].
  pose proof (nblocks_spec G ltac:(lia) ltac:(lia)) as Hs. pose proof (edge_spec G ltac:(lia) ltac:(lia) ltac:(lia)) as He.
  unfold edge in He. unfold rows, edge in *. unfold rem_. rewrite Z.rem_mod_nonneg in * by lia.
  pose proof (Z.mod_pos_bound n bs ltac:(lia)) as Hm. destruct (Z.leb_spec (n - i) (n mod bs)) as [Hle|Hgt].
  - assert (n mod bs <> 0) as Hne by lia. rewrite (proj2 (Z.eqb_neq _ _) Hne) in *.
    revert Ri. destruct (Z.eqb_spec (blk G i) (nb - 1)) as [Eb|]; intros Ri; [rewrite Eb in *|exfalso; nia].
    destruct (Z.eqb_spec (n - n mod bs) 0); [nia|]. split; [|done]. f_equal.
    assert (0 < (nb - 1) * bs) as Hpos by lia. assert (1 <= nb - 1) by (clear - Hpos Hn; nia).
    assert (bs <= (nb - 1) * bs) by (clear - H Hn; nia). rewrite Z.rem_mod_nonneg by lia. symmetry. apply (Z.mod_unique _ _ 1); lia.
  - destruct (Z.eqb_spec bs 0) as [|_]; [lia|]. split.
    + f_equal. rewrite Z.rem_mod_nonneg by lia. unfold blk. rewrite Z.mod_eq by lia. lia.
    + revert Ri. destruct (Z.eqb_spec (blk G i) (nb - 1)) as [Eb|]; intros Ri; [rewrite Eb in *|done].
      revert He. destruct (Z.eqb_spec (n mod bs) 0); intros He; [done|lia].
Qed.

Lemma element_at i j : inside i j -> element G a i j = Some (at_c i j).
Proof.
  intros [Hi Hj]. unfold element. destruct (index_row i Hi) as [Ei Es], (index_row j Hj) as [Ej _]. cbv zeta in *.
  destruct (blk_rows G ltac:(lia) ltac:(lia) i Hi) as [Bi _], (blk_rows G ltac:(lia) ltac:(lia) j Hj) as [Bj _].
  assert (Z.quot i bs = blk G i) as -> by (apply Z.quot_div_nonneg; lia).
  assert (Z.quot j bs = blk G j) as -> by (apply Z.quot_div_nonneg; lia).
  rewrite (Htable (blk G i) (blk G j) Bi Bj). rewrite Ej. unfold LuAlloc.at_c, in_block.
  destruct (n - i <=? Z.rem n bs); rewrite Ei, <- Es; done.
Qed.

(** ** The parts of [main] *)

Lemma touch_blocks_reads zero : reads_only G Y (LuContig.TouchA F G a zero).
Proof.
  intros t sg kn free pv ev Phi Hkn HPhi. unfold LuContig.TouchA.
  pose (Inv := fun (_ : Z) (_ : Z) kn' pv' ev' => kn' = kn /\ pv' = pv /\ ev' = ev).
  pose proof (nblocks_spec G ltac:(lia) ltac:(lia)) as Hs.
  apply (wpo_for _ _ _ _ _ Inv); [lia|done| |by intros z ??? (-> & -> & ->)]. intros J x ??? HJ (-> & -> & ->).
  apply (wpo_for _ _ _ _ _ Inv); [lia|done| |by intros z ??? (-> & -> & ->)]. intros I y ??? HI (-> & -> & ->).
  destruct (_ =? _); [|by apply wpo_ret]. rewrite touch_rows. destruct (rows_spec G ltac:(lia) ltac:(lia) I HI) as [RI ?], (rows_spec G ltac:(lia) ltac:(lia) J HJ) as [RJ ?].
  apply (wpo_for _ _ _ _ _ Inv); [lia|done| |by intros z ??? (-> & -> & ->)]. intros j z ??? Hj (-> & -> & ->).
  rewrite touch_rows. apply (wpo_for _ _ _ _ _ Inv); [lia|done| |by intros z' ??? (-> & -> & ->)]. intros i w ??? Hi (-> & -> & ->).
  unfold block. rewrite (Htable I J HI HJ). apply wpo_bind, wpo_ret. unfold kb in RI, RJ.
  assert (inside (I * bs + i) (J * bs + j)) as Hij by (unfold LuLayout.inside; nia). destruct (Hkn _ _ Hij) as [Hpv Hk]. simpl in Hpv, Hk.
  assert (base G malloc I J + (i + j * rows G I) = at_c (I * bs + i) (J * bs + j)) as ->.
  { unfold LuAlloc.at_c, in_block. assert (blk G (I * bs + i) = I) as -> by (apply (blk_spec G); nia).
    assert (blk G (J * bs + j) = J) as -> by (apply (blk_spec G); nia). f_equal. lia. }
  apply wpo_bind. eapply wpo_read; [by apply at_c_valid|right; done|]. by apply wpo_ret.
Qed.
(** The matrix that a memory holds. *)
Definition holds_mat (m : Z -> Z) (M : Z -> Z -> Z) : Prop := forall i j, inside i j -> m (at_c i j) = M i j.
Local Abbreviation N := (Z.to_nat n).

Lemma at_c_write (m : Z -> Z) i j x i' j' : inside i j -> inside i' j' ->
  (<[at_c i j := x]> m) (at_c i' j') = if (i' =? i) && (j' =? j) then x else m (at_c i' j').
Proof.
  intros Hij Hij'. destruct (decide (at_c i' j' = at_c i j)) as [E|E].
  - destruct (at_inj (Y := Y) _ _ _ _ Hij' Hij E) as [-> ->]. by rewrite fn_lookup_insert, !Z.eqb_refl.
  - rewrite fn_lookup_insert_ne by done. destruct (Z.eqb_spec i' i) as [->|], (Z.eqb_spec j' j) as [->|]; done.
Qed.

(** The loop that fills the matrix. *)
Lemma fill_ok rnd ten m Q :
  (forall m', holds_mat m' (init_element F N rnd ten) -> Q tt m') ->
  wpa valid (for_ 0 n tt (fun j _ => for_ 0 n tt (fun i _ =>
    let! l := opt (element G a i j) in write l (rnd (i + j * n)) ;!
    (if i =? j then let! x := read l in write l (fmul F x ten) else Ret tt)))) m Q.
Proof.
  intros HQ. set (M := init_element F N rnd ten) in *.
  assert (forall i j, M i j = if i =? j then fmul F (rnd (i + j * n)) ten else rnd (i + j * n)) as HM
    by (intros i j; unfold M, init_element; by rewrite Z2Nat.id by lia).
  pose (Inv := fun j i (m : Z -> Z) => forall i' j', inside i' j' -> j' < j \/ (j' = j /\ i' < i) -> m (at_c i' j') = M i' j').
  apply (wpa_for _ (fun j _ => Inv j 0)); [lia|intros ???; unfold LuLayout.inside in *; lia| |].
  2: { intros [] m' H. apply HQ. intros i j Hij. apply H; [done|]. unfold LuLayout.inside in Hij. lia. }
  intros j [] m1 Hj H1. apply (wpa_for _ (fun i _ => Inv j i)); [lia|done| |].
  2: { intros [] m2 H2 i' j' Hij Hlt. apply H2; [done|]. unfold LuLayout.inside in Hij. lia. }
  intros i [] m2 Hi H2. assert (inside i j) as Hij by done.
  apply wpa_bind. eapply wpa_opt; [by apply element_at|]. apply wpa_bind, wpa_write; [by apply at_c_valid|].
  assert (forall m3, m3 (at_c i j) = M i j -> (forall i' j', inside i' j' -> (i', j') <> (i, j) -> m3 (at_c i' j') = m2 (at_c i' j')) ->
    Inv j (i + 1) m3) as Hnext.
  { intros m3 Hnew Hold i' j' Hij' Hlt. destruct (decide ((i', j') = (i, j))) as [[= -> ->]|Hne]; [done|].
    rewrite Hold by done. apply H2; [done|]. destruct Hlt as [|[-> ?]]; [lia|]. right. split; [done|].
    assert (i' <> i) by congruence. lia. }
  assert (forall i' j' x (m3 : Z -> Z), inside i' j' -> (i', j') <> (i, j) -> (<[at_c i j := x]> m3) (at_c i' j') = m3 (at_c i' j')) as Hother.
  { intros i' j' x m3 Hij' Hne. rewrite at_c_write by done. destruct (Z.eqb_spec i' i), (Z.eqb_spec j' j); simpl; congruence. }
  destruct (Z.eqb_spec i j) as [Eij|Nij].
  - apply wpa_bind, wpa_read; [by apply at_c_valid|]. apply wpa_write; [by apply at_c_valid|]. apply Hnext.
    + rewrite HM, !fn_lookup_insert, Eij, Z.eqb_refl. done.
    + intros. by rewrite !Hother.
  - apply wpa_ret, Hnext; [|by intros; rewrite Hother]. rewrite HM, fn_lookup_insert. destruct (Z.eqb_spec i j); done.
Qed.

(** Every array is what its elements are. *)
Lemma vec_any l : zlen l = n -> vec l n (fun i => default 0 (znth l i)).
Proof. intros Hl. split; [done|]. intros i Hi. destruct (znth_Some l i) as [x ->]; [lia|done]. Qed.

Lemma InitA_ok rnd ten zero rhs m : zlen rhs = n ->
  wpa valid (InitA F G a rnd ten zero rhs) m (fun rhs' m' =>
    let M := init_element F N rnd ten in holds_mat m' M /\ vec rhs' n (row_sums F zero M N)).
Proof.
  intros Hrhs. unfold InitA. apply wpa_bind, fill_ok. intros m1 Hm. set (M := init_element F N rnd ten) in *. apply wpa_bind.
  apply (wpa_for _ (fun j r m' => m' = m1 /\ vec r n (fun i => if i <? j then zero else default 0 (znth rhs i)))); [lia| | |].
  - split; [done|]. eapply vec_ext; [by apply vec_any|]. intros i Hi. destruct (Z.ltb_spec i 0); [lia|done].
  - intros j r ? Hj (-> & Hv). destruct (vec_set _ _ _ j zero Hv Hj) as (r' & E & Hv'). eapply wpa_opt; [exact E|].
    split; [done|]. eapply vec_ext; [exact Hv'|]. intros i Hi. cbv beta.
    destruct (Z.eqb_spec i j), (Z.ltb_spec i j), (Z.ltb_spec i (j + 1)); try lia; done.
  - intros r ? (-> & Hv0).
    apply (wpa_for _ (fun j r m' => m' = m1 /\ vec r n (row_sums F zero M (Z.to_nat j)))); [lia| | |].
    + split; [done|]. eapply vec_ext; [exact Hv0|]. intros i Hi. cbv beta. destruct (Z.ltb_spec i n); [reflexivity|lia].
    + intros j r1 ? Hj (-> & Hv1).
      apply (wpa_for _ (fun i r m' => m' = m1 /\
        vec r n (fun k => row_sums F zero M (if k <? i then S (Z.to_nat j) else Z.to_nat j) k))); [lia| | |].
      * split; [done|]. eapply vec_ext; [exact Hv1|]. intros i Hi. cbv beta. destruct (Z.ltb_spec i 0); [lia|done].
      * intros i r2 ? Hi (-> & Hv2). assert (inside i j) as Hij by done.
        apply wpa_bind. eapply wpa_opt; [by apply element_at|]. apply wpa_bind. eapply wpa_opt; [by apply Hv2|]. cbv beta.
        apply wpa_bind, wpa_read; [by apply at_c_valid|]. rewrite Hm, Z.ltb_irrefl by done.
        destruct (vec_set _ _ _ i (fadd F (row_sums F zero M (Z.to_nat j) i) (M i j)) Hv2 Hi) as (r3 & E & Hv3). eapply wpa_opt; [exact E|].
        split; [done|]. eapply vec_ext; [exact Hv3|]. intros k Hk. cbv beta.
        destruct (Z.eqb_spec k i) as [Ek|], (Z.ltb_spec k i), (Z.ltb_spec k (i + 1)); try lia; try done.
        simpl. by rewrite Ek, Z2Nat.id by lia.
      * intros r2 ? (-> & Hv2). split; [done|]. eapply vec_ext; [exact Hv2|]. intros k Hk. cbv beta.
        destruct (Z.ltb_spec k n); [|lia]. by replace (Z.to_nat (j + 1)) with (S (Z.to_nat j)) by lia.
    + intros r1 ? (-> & Hv1). done.
Qed.
(** ** [CheckResult] *)

Section Check.
Context (m : Z -> Z) (M : Z -> Z -> Z) (Hm : holds_mat m M).
Local Ltac cmp := repeat match goal with
  | |- context [Z.eqb ?a ?b] => destruct (Z.eqb_spec a b)
  | |- context [Z.ltb ?a ?b] => destruct (Z.ltb_spec a b)
  | |- context [Z.leb ?a ?b] => destruct (Z.leb_spec a b)
  end; cbn [andb]; try lia; try congruence.

Lemma subtract_ok i j y f (Q : list Z -> (Z -> Z) -> Prop) : inside i j -> vec y n f ->
  (forall y', vec y' n (fun k => if k =? i then fsub F (f i) (fmul F (M i j) (f j)) else f k) -> Q y' m) ->
  wpa valid (subtract F G a i j y) m Q.
Proof.
  intros Hij Hv HQ. unfold subtract. apply wpa_bind. eapply wpa_opt; [by apply element_at|].
  apply wpa_bind. eapply wpa_opt; [apply Hv, Hij|]. apply wpa_bind, wpa_read; [by apply at_c_valid|].
  apply wpa_bind. eapply wpa_opt; [apply Hv, Hij|]. rewrite Hm by done.
  destruct (vec_set _ _ _ i (fsub F (f i) (fmul F (M i j) (f j))) Hv ltac:(apply Hij)) as (y' & E & Hv'). eapply wpa_opt; [exact E|]. by apply HQ.
Qed.

Lemma forward_ok y f (Q : list Z -> (Z -> Z) -> Prop) : vec y n f ->
  (forall y', vec y' n (forward F N M N f) -> Q y' m) ->
  wpa valid (for_ 0 n y (fun j y =>
    let! l := opt (element G a j j) in let! v := opt (znth y j) in let! d := read l in
    let! y := opt (zset y j (fdiv F v d)) in for_ (j + 1) n y (fun i y => subtract F G a i j y))) m Q.
Proof.
  intros Hv HQ. apply (wpa_for _ (fun j y m' => m' = m /\ vec y n (forward F N M (Z.to_nat j) f))); [lia|done| |by intros y' ? (-> & ?); auto].
  intros j y1 ? Hj (-> & H1). set (g := forward F N M (Z.to_nat j) f) in *. assert (inside j j) as Hjj by done.
  apply wpa_bind. eapply wpa_opt; [by apply element_at|]. apply wpa_bind. eapply wpa_opt; [by apply H1|].
  apply wpa_bind, wpa_read; [by apply at_c_valid|]. rewrite Hm by done.
  destruct (vec_set _ _ _ j (fdiv F (g j) (M j j)) H1 Hj) as (y2 & E & H2). apply wpa_bind. eapply wpa_opt; [exact E|].
  set (yj := fdiv F (g j) (M j j)) in *.
  apply (wpa_for _ (fun i y m' => m' = m /\
    vec y n (fun k => if k =? j then yj else if (j <? k) && (k <? i) then fsub F (g k) (fmul F (M k j) yj) else g k))); [lia| | |].
  - split; [done|]. eapply vec_ext; [exact H2|]. intros k Hk. cbv beta. cmp.
  - intros i y3 ? Hi (-> & H3). apply (subtract_ok i j y3 _ _ ltac:(split; lia) H3). intros y4 H4. split; [done|].
    eapply vec_ext; [exact H4|]. intros k Hk. cbv beta. rewrite Z.eqb_refl. destruct (Z.eqb_spec k i) as [->|]; cmp.
  - intros y3 ? (-> & H3). split; [done|]. eapply vec_ext; [exact H3|]. intros k Hk. cbv beta.
    replace (Z.to_nat (j + 1)) with (S (Z.to_nat j)) by lia. cbn [forward]. fold g. rewrite !Z2Nat.id by lia. done.
Qed.

Lemma backward_ok y f (Q : list Z -> (Z -> Z) -> Prop) : vec y n f ->
  (forall y', vec y' n (backward F N M N f) -> Q y' m) ->
  wpa valid (for_ 0 n y (fun s y => let j := n - 1 - s in for_ 0 j y (fun i y => subtract F G a i j y))) m Q.
Proof.
  intros Hv HQ. apply (wpa_for _ (fun s y m' => m' = m /\ vec y n (backward F N M (Z.to_nat s) f))); [lia|done| |by intros y' ? (-> & ?); auto].
  intros s y1 ? Hs (-> & H1). set (g := backward F N M (Z.to_nat s) f) in *. cbv zeta. set (j := n - 1 - s) in *.
  apply (wpa_for _ (fun i y m' => m' = m /\
    vec y n (fun k => if (0 <=? k) && (k <? i) then fsub F (g k) (fmul F (M k j) (g j)) else g k))); [lia| | |].
  - split; [done|]. eapply vec_ext; [exact H1|]. intros k Hk. cbv beta. cmp.
  - intros i y3 ? Hi (-> & H3). apply (subtract_ok i j y3 _ _ ltac:(split; lia) H3). intros y4 H4. split; [done|].
    eapply vec_ext; [exact H4|]. intros k Hk. cbv beta. destruct (Z.eqb_spec k i) as [->|]; cmp.
  - intros y3 ? (-> & H3). split; [done|]. eapply vec_ext; [exact H3|]. intros k Hk. cbv beta.
    replace (Z.to_nat (s + 1)) with (S (Z.to_nat s)) by lia. cbn [backward]. fold g.
    by replace (Z.of_nat N - Z.of_nat (S (Z.to_nat s))) with j by lia.
Qed.

Lemma CheckResult_ok wrong rhs r y : vec rhs n r -> zlen y = n ->
  wpa valid (LuContig.CheckResult F G a wrong rhs y) m (fun v m' => v = Lu.CheckResult F N wrong M r).
Proof.
  intros Hr Hy. unfold LuContig.CheckResult. apply wpa_bind.
  apply (wpa_for _ (fun j y' m' => m' = m /\ vec y' n (fun i => if i <? j then r i else default 0 (znth y i)))); [lia| | |].
  { split; [done|]. eapply vec_ext; [by apply vec_any|]. intros i Hi. cbv beta. cmp. }
  { intros j y1 ? Hj (-> & H1). apply wpa_bind. eapply wpa_opt; [by apply Hr|].
    destruct (vec_set _ _ _ j (r j) H1 Hj) as (y2 & E & H2). eapply wpa_opt; [exact E|]. split; [done|].
    eapply vec_ext; [exact H2|]. intros i Hi. cbv beta. cmp. }
  intros y1 ? (-> & H1). apply wpa_bind. apply (forward_ok y1 r).
  { eapply vec_ext; [exact H1|]. intros i Hi. cbv beta. cmp. }
  intros y2 H2. apply wpa_bind. apply (backward_ok y2 _ _ H2). intros y3 H3. apply wpa_bind. fold (solve F N M r) in H3.
  apply (wpa_for _ (fun j b m' => b = existsb (fun j => wrong (solve F N M r (Z.of_nat j))) (seq 0 (Z.to_nat j)))); [lia|done| |].
  - intros j b m1 Hj ->. apply wpa_bind. eapply wpa_opt; [by apply H3|]. apply wpa_ret.
    replace (Z.to_nat (j + 1)) with (S (Z.to_nat j)) by lia. rewrite seq_S, existsb_app. simpl. by rewrite Z2Nat.id, orb_false_r by lia.
  - intros b m1 ->. by apply wpa_ret.
Qed.
End Check.

Lemma OneSolve_contig zero t : LuContig.OneSolve F G a zero t = solve_with F G Y (LuContig.TouchA F G a zero) t.
Proof. done. Qed.

(** The threads, on a memory that holds the matrix [M]. *)
Lemma contig_factors zero m M : holds_mat m M ->
  ends (Z.to_nat P) valid no_pause (fun c => holds_mat (mem c) (elim F M N)) (LuContig.start F G a zero m).
Proof.
  intros Hm. eapply ends_mono; [|apply (solve_factors F G Y m ltac:(lia) ltac:(lia) HP (LuContig.TouchA F G a zero)), touch_blocks_reads].
  intros c Hc i j Hij. rewrite (Hc (at_c i j)). etransitivity; [by apply (mat_at G Y m)|]. unfold E.
  apply (elim_ext F _ _ n); [|lia|apply Hij|apply Hij]. intros i' j' Hi' Hj'. by apply Hm.
Qed.
End Main.

(** A matrix smaller than a block divides by zero. *)
Lemma small_matrix_fails F G malloc bytes a rnd ten zero rhs m :
  1 <= n G < bs G -> alone (LuContig.valid G malloc bytes) (InitA F G a rnd ten zero rhs) m = None.
Proof.
  intros Hn. assert (element G a 0 0 = None) as He.
  { unfold element. rewrite Z.rem_small by lia. rewrite Z.sub_0_r, Z.leb_refl, Z.sub_diag. done. }
  unfold InitA, for_. replace (Z.to_nat (n G - 0)) with (S (Z.to_nat (n G - 1))) by lia. simpl. by rewrite He.
Qed.

(** C21. The version with contiguous blocks computes the same, if a block is not
    larger than the matrix ([bs <= n]; otherwise [InitA] divides by zero, as
    [small_matrix_fails] shows) and the memory the processors have got does not
    overlap: the two loops of [main] place the blocks inside the memory the processors have got, [InitA]
    fills in the matrix of the version with one array, every execution of the
    threads ends, every element, where [CheckResult] looks for it, is what
    elimination gives, and its verdict is the one of the other version. *)
Theorem contiguous_lu_same (F : arith Z) (G : sizes) (malloc : Z -> Z) (a0 rhs0 y : list Z)
    (m0 rnd : Z -> Z) (ten zero : Z) (wrong : Z -> bool) :
  let N := Z.to_nat (n G) in
  let M := init_element F N rnd ten in
  1 <= bs G <= n G -> 1 <= P G -> zlen a0 = nblocks G * nblocks G -> zlen rhs0 = n G -> zlen y = n G ->
  exists bytes a last, proc_bytes G = Some bytes /\ place_blocks G malloc a0 = Some (a, last) /\
    (malloc_ok G malloc bytes ->
     exists rhs m1, alone (LuContig.valid G malloc bytes) (InitA F G a rnd ten zero rhs0) m0 = Some (rhs, m1) /\
     ends (Z.to_nat (P G)) (LuContig.valid G malloc bytes) no_pause
       (fun c => (forall i j, inside G i j -> exists l, element G a i j = Some l /\ mem c l = elim F M N i j) /\
          exists m2, alone (LuContig.valid G malloc bytes) (LuContig.CheckResult F G a wrong rhs y) (mem c) =
            Some (Lu.CheckResult F N wrong (elim F M N) (row_sums F zero M N), m2))
       (LuContig.start F G a zero m1)).
Proof.
  intros N M Hbs HP Ha0 Hrhs Hy.
  destruct (proc_bytes_ok G ltac:(lia) ltac:(lia) HP) as (bytes & Eb & Hb).
  destruct (place_blocks_ok G malloc ltac:(lia) ltac:(lia) HP a0 Ha0) as (a & last & Ea & Ht).
  exists bytes, a, last. split_and!; [done|done|]. intros [Hm1 Hm2].
  assert (LayoutOk G (contig G malloc bytes a)).
  { apply contig_ok; [lia|lia|done|done|done|done|]. intros p p' Hp Hp' Hne. apply Hm2; [done|by apply Hb..]. }
  destruct (InitA_ok F G malloc ltac:(lia) bytes a Ht rnd ten zero rhs0 m0 Hrhs) as (rhs & m1 & E1 & HM & Hv).
  exists rhs, m1. split; [done|]. eapply ends_mono; [|by apply contig_factors]. intros c Hc. split.
  - intros i j Hij. exists (at_c G malloc i j). split; [by apply (element_at G malloc ltac:(lia))|by apply Hc].
  - destruct (CheckResult_ok F G malloc ltac:(lia) bytes a Ht (mem c) _ Hc wrong rhs _ y Hv Hy) as (v & m2 & E2 & ->). eauto.
Qed.

Lemma contiguous_lu_same_witness :
  let F := Arith Z Z.add Z.sub Z.mul Z.div Z.opp in
  let G := Sizes 10 4 3 in
  let malloc := fun p => 10000 * p in
  malloc_ok G malloc [256; 288; 256] /\
  exists bytes a last, proc_bytes G = Some bytes /\ place_blocks G malloc (replicate 9 0) = Some (a, last) /\
    (malloc_ok G malloc bytes ->
     exists rhs m1, alone (LuContig.valid G malloc bytes) (InitA F G a (fun k => k + 1) 10 0 (replicate 10 0)) (fun _ => 0) = Some (rhs, m1) /\
     ends 3 (LuContig.valid G malloc bytes) no_pause
       (fun c => (forall i j, inside G i j -> exists l, element G a i j = Some l /\
            mem c l = elim F (init_element F 10 (fun k => k + 1) 10) 10 i j) /\
          exists m2, alone (LuContig.valid G malloc bytes) (LuContig.CheckResult F G a (fun v => negb (v =? 1)) rhs (replicate 10 0)) (mem c) =
            Some (Lu.CheckResult F 10 (fun v => negb (v =? 1)) (elim F (init_element F 10 (fun k => k + 1) 10) 10)
              (row_sums F 0 (init_element F 10 (fun k => k + 1) 10) 10), m2))
       (LuContig.start F G a 0 m1)).
Proof.
  intros F G malloc. split.
  - split; [unfold malloc; lia|]. intros p p' b b' Hne Hp Hp'.
    pose proof (znth_bound _ _ _ Hp) as B. pose proof (znth_bound _ _ _ Hp') as B'. simpl in B, B'.
    assert (b <= 288) by (assert (p = 0 \/ p = 1 \/ p = 2) as [-> | [-> | ->]] by lia; vm_compute in Hp; injection Hp as <-; lia).
    assert (b' <= 288) by (assert (p' = 0 \/ p' = 1 \/ p' = 2) as [-> | [-> | ->]] by lia; vm_compute in Hp'; injection Hp' as <-; lia).
    unfold malloc, PAGE_SIZE. lia.
  - apply (contiguous_lu_same F G malloc (replicate 9 0) (replicate 10 0) (replicate 10 0) (fun _ => 0) (fun k => k + 1) 10 0 (fun v => negb (v =? 1)));
      (reflexivity || (simpl; lia)).
Defined.
End LuContigMain.
