(* ===== verification/PhaseScript.v ===== *)
(** * PhaseScript: programs that share nothing inside a phase

    In many phases every location has at most one thread that uses it, or is
    only read.  Then a thread may be run by itself, on the memory at the start
    of the phase ([wps], and [wpb] up to the next barrier).  A script says for
    every phase who works where and what the memory is at its end; if every
    thread follows the script, every execution ends with its last memory. *)

From stdpp Require Import base list option functions.
From S2P Require Import Prelude Phases PhaseRule.
Local Open Scope Z_scope.

Section Solo.
Context {L : Type} `{EqDecision L} (valid : L -> bool) (vf : Z -> bool).
(** What the thread may write, and what else it may read. *)
Context (own : L -> bool) (kn : L -> Prop).

(** A thread by itself on the memory [V]; it does not come to a barrier. *)
Fixpoint wps {A} (p : prog L A) (V : L -> Z) (Q : A -> (L -> Z) -> Prop) : Prop :=
  match p with
  | Ret a => Q a V
  | Read l k => valid l = true /\ (own l = true \/ kn l) /\ wps (k (V l)) V Q
  | Write l v k => valid l = true /\ own l = true /\ wps k (<[l := v]> V) Q
  | _ => False
  end.

(** As [wps], up to the next barrier. *)
Fixpoint wpb {A} (p : prog L A) (V : L -> Z) (R : Z -> prog L A -> (L -> Z) -> Prop) : Prop :=
  match p with
  | Barrier b k => R b k V
  | Read l k => valid l = true /\ (own l = true \/ kn l) /\ wpb (k (V l)) V R
  | Write l v k => valid l = true /\ own l = true /\ wpb k (<[l := v]> V) R
  | _ => False
  end.

Lemma wps_mono {A} (p : prog L A) V (Q Q' : A -> (L -> Z) -> Prop) :
  (forall a V', Q a V' -> Q' a V') -> wps p V Q -> wps p V Q'.
Proof.
  intros H. revert V. induction p as [x| |l k IH|l v k IH|f k IH|f k IH|x k IH]; simpl; intros V Hp; try by auto.
  - destruct Hp as (? & ? & ?). auto.
  - destruct Hp as (? & ? & ?). auto.
Qed.
Lemma wpb_mono {A} (p : prog L A) V (R R' : Z -> prog L A -> (L -> Z) -> Prop) :
  (forall b k V', R b k V' -> R' b k V') -> wpb p V R -> wpb p V R'.
Proof.
  intros H. revert V. induction p as [x| |l k IH|l v k IH|f k IH|f k IH|x k IH]; simpl; intros V Hp; try by auto.
  - destruct Hp as (? & ? & ?). auto.
  - destruct Hp as (? & ? & ?). auto.
Qed.
Lemma wps_bind {A B} (p : prog L A) (g : A -> prog L B) V Q :
  wps p V (fun a V' => wps (g a) V' Q) -> wps (bind p g) V Q.
Proof.
  revert V. induction p as [x| |l k IH|l v k IH|f k IH|f k IH|x k IH]; simpl; intros V Hp; try done.
  - destruct Hp as (? & ? & ?). auto.
  - destruct Hp as (? & ? & ?). auto.
Qed.
Lemma wpb_bind {A B} (p : prog L A) (g : A -> prog L B) V R :
  wps p V (fun a V' => wpb (g a) V' R) -> wpb (bind p g) V R.
Proof.
  revert V. induction p as [x| |l k IH|l v k IH|f k IH|f k IH|x k IH]; simpl; intros V Hp; try done.
  - destruct Hp as (? & ? & ?). auto.
  - destruct Hp as (? & ? & ?). auto.
Qed.
(** What runs first may be taken out of two binds. *)
Lemma wpb_bind2 {A B C} (p : prog L A) (g1 : A -> prog L B) (g2 : B -> prog L C) V R :
  wps p V (fun a V' => wpb (bind (g1 a) g2) V' R) -> wpb (bind (bind p g1) g2) V R.
Proof.
  revert V. induction p as [x| |l k IH|l v k IH|f k IH|f k IH|x k IH]; simpl; intros V Hp; try done.
  - destruct Hp as (? & ? & ?). auto.
  - destruct Hp as (? & ? & ?). auto.
Qed.

Lemma wps_ret {A} (a : A) V (Q : A -> (L -> Z) -> Prop) : Q a V -> wps (Ret a) V Q.
Proof. done. Qed.
Lemma wps_opt {A} (o : option A) a V (Q : A -> (L -> Z) -> Prop) : o = Some a -> Q a V -> wps (opt o) V Q.
Proof. by intros ->. Qed.
Lemma wps_read l V (Q : Z -> (L -> Z) -> Prop) :
  valid l = true -> own l = true \/ kn l -> Q (V l) V -> wps (read l) V Q.
Proof. done. Qed.
Lemma wps_write l v V (Q : unit -> (L -> Z) -> Prop) :
  valid l = true -> own l = true -> Q tt (<[l := v]> V) -> wps (write l v) V Q.
Proof. done. Qed.

Lemma wps_for {S} (Inv : Z -> S -> (L -> Z) -> Prop) (body : Z -> S -> prog L S) a b s V (Q : S -> (L -> Z) -> Prop) :
  a <= b -> Inv a s V ->
  (forall i s V, a <= i < b -> Inv i s V -> wps (body i s) V (fun s' V' => Inv (i + 1) s' V')) ->
  (forall s V, Inv b s V -> Q s V) ->
  wps (for_ a b s body) V Q.
Proof.
  intros Hab Hi Hb HQ. unfold for_. remember (Z.to_nat (b - a)) as n eqn:Hn. revert a s V Hab Hi Hb Hn.
  induction n as [|n IH]; intros a s V Hab Hi Hb Hn; simpl.
  - apply HQ. by replace b with a by lia.
  - apply wps_bind. eapply wps_mono; [|apply Hb; [lia|done]].
    intros s' V' Hs. apply IH; [lia|done| |lia]. intros; apply Hb; [lia|done].
Qed.

(** The thread among the others. *)
Lemma wpb_own_ok {A} sg K free pv (p : prog L A) V R :
  (forall l, own l = false -> kn l -> V l = sg l) ->
  (forall l, pv l = if own l then Some (V l) else None) ->
  wpb p V R ->
  own_ok valid vf sg K free kn pv [] p (fun _ pv' ev q => ev = [] /\
    exists b k V', q = Barrier b k /\ R b k V' /\ forall l, pv' l = if own l then Some (V' l) else None).
Proof.
  revert V pv. induction p as [x| |l k IH|l v k IH|f k IH|f k IH|x k IH]; simpl; intros V pv Hsg Hpv Hp; try done.
  - destruct Hp as (Hv & Hr & Hp). split; [done|]. rewrite Hpv. destruct (own l) eqn:Eo; [by apply (IH (V l) V)|].
    destruct Hr as [|Hk]; [done|]. split; [done|]. rewrite <- Hsg by done. by apply (IH (V l) V).
  - destruct Hp as (Hv & Ho & Hp). split; [done|]. rewrite Hpv, Ho. apply (IH (<[l := v]> V)); [| |done].
    + intros x Hx Hk. rewrite fn_lookup_insert_ne by congruence. auto.
    + intros x. destruct (decide (x = l)) as [->|]; [by rewrite !fn_lookup_insert, Ho|]. by rewrite !fn_lookup_insert_ne.
  - split; [done|]. by exists x, k, V.
Qed.
End Solo.

Lemma wpb_kn {L} `{EqDecision L} valid own (kn kn' : L -> Prop) {A} (p : prog L A) V R :
  (forall l, kn l -> kn' l) -> wpb valid own kn p V R -> wpb valid own kn' p V R.
Proof.
  intros H. revert V. induction p as [x| |l k IH|l v k IH|f k IH|f k IH|x k IH]; simpl; intros V Hp; try by auto.
  - destruct Hp as (? & [?|?] & ?); auto.
  - destruct Hp as (? & ? & ?). auto.
Qed.

(** ** Scripts *)

Section Script.
Context {L : Type} `{EqDecision L} (P : nat) (HP : (0 < P)%nat) (valid : L -> bool) (vf : Z -> bool).
(** The barrier between the phases. *)
Context (bar : Z).

(** Who works where, and the memory at the end. *)
Record stretch := Stretch { st_own : nat -> L -> bool; st_mem : L -> Z }.
Definition nobody (s : stretch) (l : L) : Prop := forall t, (t < P)%nat -> st_own s t l = false.

Fixpoint follows (t : nat) (W : L -> Z) (sc : list stretch) (p : prog L unit) : Prop :=
  match sc with
  | [] => p = Ret tt
  | s :: sc => wpb valid (st_own s t) (nobody s) p W (fun b k V =>
      b = bar /\ (forall l, st_own s t l = true -> V l = st_mem s l) /\ follows t (st_mem s) sc k)
  end.

(** No two threads work on the same location, and what nobody works on stays. *)
Fixpoint coherent (W : L -> Z) (sc : list stretch) : Prop :=
  match sc with
  | [] => True
  | s :: sc => (forall t t' l, (t < P)%nat -> (t' < P)%nat -> st_own s t l = true -> st_own s t' l = true -> t = t') /\
      (forall l, (W l = st_mem s l /\ nobody s l) \/ exists t, (t < P)%nat /\ st_own s t l = true) /\ coherent (st_mem s) sc
  end.
Fixpoint final (W : L -> Z) (sc : list stretch) : L -> Z :=
  match sc with [] => W | s :: sc => final (st_mem s) sc end.

Lemma follows_ret t W sc p : follows t W sc (bind p Ret) -> follows t W sc p.
Proof.
  revert W p. induction sc as [|s sc IHs]; intros W p.
  - simpl. destruct p as [[]| |l k|l v k|f k|f k|b k]; done.
  - cbn [follows]. revert W. induction p as [x| |l k IH|l v k IH|f k IH|f k IH|b k IH]; simpl; intros V Hp; try done.
    + destruct Hp as (? & ? & ?). auto.
    + destruct Hp as (? & ? & ?). auto.
    + destruct Hp as (? & ? & ?). auto.
Qed.

Lemma follows_bind t W sc sc' p (g : unit -> prog L unit) :
  follows t W sc p -> follows t (final W sc) sc' (g tt) -> follows t W (sc ++ sc') (bind p g).
Proof.
  revert W p. induction sc as [|s sc IHs]; intros W p; cbn [follows final app]; [by intros ->|].
  intros Hp Hg. revert Hp. generalize W at 1 2. induction p as [x| |l k IH|l v k IH|f k IH|f k IH|b k IH]; simpl; intros V Hp; try done.
  - destruct Hp as (? & ? & ?). auto.
  - destruct Hp as (? & ? & ?). auto.
  - destruct Hp as (? & ? & ?). auto.
Qed.
Lemma coherent_app W sc sc' : coherent W sc -> coherent (final W sc) sc' -> coherent W (sc ++ sc').
Proof. revert W. induction sc as [|s sc IH]; intros W; cbn [coherent final app]; [done|]. intros (? & ? & ?) ?. auto. Qed.
Lemma final_app W sc sc' : final W (sc ++ sc') = final (final W sc) sc'.
Proof. revert W. induction sc as [|s sc IH]; intros W; cbn [final app]; auto. Qed.

Lemma script_ends W sc c :
  (idx c <= P)%nat -> (forall l, mem c l = W l) -> coherent W sc ->
  (forall t, (t < P)%nat -> follows t W sc (thr c t)) -> (sc = [] -> idx c = P) ->
  ends P valid vf (fun c => forall l, mem c l = final W sc l) c.
Proof.
  revert W c. induction sc as [|s sc IH]; intros W c Hi Hm Hco Hfo Hend; simpl in *.
  - apply ends_finished; [done|split; [by apply Hend|done]|done].
  - destruct Hco as (Hdisj & Hcov & Hco).
    set (pv0 := fun t l => if st_own s t l then Some (W l) else None).
    assert (forall t l, is_Some (pv0 t l) -> st_own s t l = true) as Hpv.
    { intros t l. unfold pv0. destruct (st_own s t l); [done|by intros [? [=]]]. }
    apply (phase_owned P HP valid vf (st_mem s) (fun t k => follows t (st_mem s) sc k) pv0 bar); [done| | | | |].
    + intros t l v _. unfold pv0. destruct (st_own s t l); [|done]. rewrite Hm. congruence.
    + intros t t' l Ht Ht' H1%Hpv H2%Hpv. by apply (Hdisj t t' l).
    + intros l. rewrite Hm. destruct (Hcov l) as [[? Hno]|(t & Ht & Ho)].
      * left. split; [done|]. intros t Ht. unfold pv0. by rewrite Hno.
      * right. exists t. split; [done|]. unfold pv0. rewrite Ho. by eexists.
    + intros t Ht. assert (forall l, st_own s t l = false -> free_of P pv0 l -> W l = st_mem s l) as Hsg.
      { intros l _ Hl. destruct (Hcov l) as [[? _]|(t' & Ht' & Ho)]; [done|]. specialize (Hl t' Ht'). unfold pv0 in Hl. by rewrite Ho in Hl. }
      assert (forall l, nobody s l -> free_of P pv0 l) as Hkn by (intros l Hl t' Ht'; unfold pv0; by rewrite Hl).
      eapply own_ok_mono; [|apply (wpb_own_ok valid vf _ _ (st_mem s) _ _ (pv0 t) _ W _ Hsg ltac:(done) (wpb_kn _ _ _ _ _ _ _ Hkn (Hfo t Ht)))].
      intros kn pv ev q (-> & b & k & V & -> & (-> & HV & Hk) & Hp). split_and!; [done|by eexists|].
      intros l Ho%Hpv. by rewrite Hp, Ho, HV.
    + intros c' Hi' Ht' Hm'. apply (IH (st_mem s) c'); [lia|done|done|done|done].
Qed.
End Script.
