(* ===== verification/Fft.v ===== *)
(** * Fft: the fast Fourier transform of splash2
      (papps/splash2/codes/kernels/fft/fft.C)

    The data are [N = 2^M] complex numbers, as a matrix of [rootN] rows, each
    with [rootN] numbers and [pad_length] unused ones behind them; a complex
    number is two doubles.  The threads transpose the matrix, transform the rows,
    multiply by roots of unity, and so on, between barriers.

    - The shared arrays are [x], [trans], [umain] and [umain2] ([arr]); a pointer
      into one of them is the array and an offset.  [upriv] is private.
    - The arithmetic of doubles is a parameter; so are the conversion of a [long]
      to a double and what [cos], [sin] and [drand48] answer.
    - The options and the set-up of [main], the threads, the tables and the
      checksum are here; times, statistics and printing are left out. *)

From stdpp Require Import base list option.
From S2P Require Import Prelude Phases Doubles.
Local Open Scope Z_scope.

Module Fft.

Definition PAGE_SIZE : Z := 4096.
Definition NUM_CACHE_LINES : Z := 65536.
Definition LOG2_LINE_SIZE : Z := 4.
Definition DEFAULT_M : Z := 10.
Definition DEFAULT_P : Z := 1.

(** ** The options of [main] *)

Fixpoint log_2_loop (fuel : nat) (number cumulative out : Z) : Z * Z :=
  match fuel with
  | O => (cumulative, out)
  | S fuel =>
      if (cumulative <? number) && (out <? 50)
      then log_2_loop fuel number (cumulative * 2) (out + 1)
      else (cumulative, out)
  end.
Definition log_2 (number : Z) : Z :=
  let (cumulative, out) := log_2_loop 51 number 1 0 in
  if cumulative =? number then out else -1.

Record settings := Settings {
  s_P : Z; s_M : Z; cache_lines : Z; log2_line_size : Z;
  dostats : bool; test : bool; doprint : bool }.
Definition defaults : settings := Settings DEFAULT_P DEFAULT_M NUM_CACHE_LINES LOG2_LINE_SIZE false false false.

(** The loop over what [getopt] answers: a letter and the value [atoi] finds
    in its argument.  [inl e] is [exit(e)]. *)
Fixpoint options (os : list (Z * Z)) (s : settings) : Z + settings :=
  match os with
  | [] => inr s
  | (c, v) :: os =>
      let '(Settings p m n l st te pr) := s in
      if c =? 112 then
        if v <? 1 then inl (-1) else if log_2 v =? -1 then inl (-1)
        else options os (Settings v m n l st te pr)
      else if c =? 109 then
        let m1 := Z.quot v 2 in
        if negb (2 * m1 =? v) then inl (-1) else options os (Settings p v n l st te pr)
      else if c =? 110 then
        if v <? 1 then inl (-1) else options os (Settings p m v l st te pr)
      else if c =? 108 then
        if v <? 0 then inl (-1) else options os (Settings p m n v st te pr)
      else if c =? 115 then options os (Settings p m n l (negb st) te pr)
      else if c =? 116 then options os (Settings p m n l st (negb te) pr)
      else if c =? 111 then options os (Settings p m n l st te (negb pr))
      else if c =? 104 then inl 0
      else options os s
  end.

(** What [main] has set up when it creates the threads. *)
Record globals := Globals {
  P : Z; M : Z; N : Z; rootN : Z; pad_length : Z; num_cache_lines : Z;
  test_result : bool; print_result : bool }.

(** [1 << k] in the type [int]: C leaves it undefined unless the result is one. *)
Definition int_shift (k : Z) : option Z := if (0 <=? k) && (k <? 31) then Some (Z.shiftl 1 k) else None.

(** From the options to the sizes; [Some (inl e)] is [exit(e)], [None] a shift that is
    not defined. [sizeof(double)] is 8. *)
Definition setup (s : settings) : option (Z + globals) :=
  let? N := int_shift (s_M s) in
  let? rootN := int_shift (Z.quot (s_M s) 2) in
  let rowsperproc := Z.quot rootN (s_P s) in
  if rowsperproc =? 0 then Some (inl (-1))
  else
    let? line_size := int_shift (log2_line_size s) in
    let num_cache_lines :=
      if line_size <? 2 * 8 then Z.quot (cache_lines s) (Z.quot (2 * 8) line_size) else cache_lines s in
    let pad_length := if line_size <=? 2 * 8 then 1 else Z.quot line_size (2 * 8) in
    let done pad := Some (inr (Globals (s_P s) (s_M s) N rootN pad num_cache_lines (test s) (doprint s))) in
    if PAGE_SIZE <=? rowsperproc * rootN * 2 * 8 then
      let pages := Z.quot (2 * pad_length * 8 * rowsperproc) PAGE_SIZE in
      let pages := if negb (pages * PAGE_SIZE =? 2 * pad_length * 8 * rowsperproc) then pages + 1 else pages in
      done (Z.quot (pages * PAGE_SIZE) (2 * 8 * rowsperproc))
    else
      let pad := Z.quot (PAGE_SIZE - rowsperproc * rootN * 2 * 8) (2 * 8 * rowsperproc) in
      if negb (pad * (2 * 8 * rowsperproc) =? PAGE_SIZE - rowsperproc * rootN * 2 * 8) then Some (inl (-1)) else done pad.

(** ** The arrays *)

Inductive arr := AX | ATrans | AU | AU2.
#[export] Instance arr_eq_dec : EqDecision arr.
Proof. solve_decision. Defined.
Definition loc : Type := arr * Z.
Abbreviation thread := (prog loc).

(** The two products [omega * x] of [FFT1DOnce] and [TwiddleOneCol]. *)
Definition product {V} (F : arith V) (omega x : V * V) : V * V :=
  (fsub F (fmul F omega.1 x.1) (fmul F omega.2 x.2), fadd F (fmul F omega.1 x.2) (fmul F omega.2 x.1)).

Section Program.
Context (F : arith Z) (of_long : Z -> Z) (G : globals).

(** The sizes the arrays are allocated with. *)
Definition capacity (a : arr) : Z :=
  match a with AU => 2 * rootN G | _ => 2 * (N G + rootN G * pad_length G) end.
Definition valid (l : loc) : bool := (0 <=? l.2) && (l.2 <? capacity l.1).

(** ** One row *)

Fixpoint reverse_loop (i : nat) (j tmp : Z) : Z :=
  match i with O => j | S i => reverse_loop i (2 * j + Z.land tmp 1) (Z.shiftr tmp 1) end.
Definition BitReverse (M k : Z) : Z := reverse_loop (Z.to_nat M) 0 k.

(** [SWAP_VALS]: the pointers to two doubles. *)
Definition SWAP_VALS (a : arr) (p q : Z) : thread unit :=
  let! tmp := read (a, p) in
  let! b := read (a, q) in
  write (a, p) b ;!
  write (a, q) tmp.

Definition Reverse (N M : Z) (a : arr) (x : Z) : thread unit :=
  for_ 0 N tt (fun k _ =>
    let j := BitReverse M k in
    if k <? j then
      SWAP_VALS a (x + 2 * j) (x + 2 * k) ;!
      SWAP_VALS a (x + (2 * j + 1)) (x + (2 * k + 1))
    else Ret tt).

(** The innermost loop of [FFT1DOnce]; [u1] is an offset into [upriv]. *)
Definition butterfly (direction : Z) (upriv : list Z) (u1 : Z) (a : arr) (x1 x2 j : Z) : thread unit :=
  let! omega_r := opt (znth upriv (u1 + 2 * j)) in
  let! v := opt (znth upriv (u1 + (2 * j + 1))) in
  let omega_c := fmul F (of_long direction) v in
  let! x_r := read (a, x2 + 2 * j) in
  let! x_c := read (a, x2 + (2 * j + 1)) in
  let (tau_r, tau_c) := product F (omega_r, omega_c) (x_r, x_c) in
  let! x_r := read (a, x1 + 2 * j) in
  let! x_c := read (a, x1 + (2 * j + 1)) in
  write (a, x2 + 2 * j) (fsub F x_r tau_r) ;!
  write (a, x2 + (2 * j + 1)) (fsub F x_c tau_c) ;!
  write (a, x1 + 2 * j) (fadd F x_r tau_r) ;!
  write (a, x1 + (2 * j + 1)) (fadd F x_c tau_c).

Definition FFT1DOnce (direction M N : Z) (upriv : list Z) (a : arr) (x : Z) : thread unit :=
  Reverse N M a x ;!
  for_ 1 (M + 1) tt (fun q _ =>
    let L := Z.shiftl 1 q in
    let r := Z.quot N L in
    let Lstar := Z.quot L 2 in
    let u1 := 2 * (Lstar - 1) in
    for_ 0 r tt (fun k _ =>
      let x1 := x + 2 * (k * L) in
      let x2 := x + 2 * (k * L + Lstar) in
      for_ 0 Lstar tt (fun j _ => butterfly direction upriv u1 a x1 x2 j))).

Definition TwiddleOneCol (direction n1 j : Z) (a : arr) (x : Z) : thread unit :=
  for_ 0 n1 tt (fun i _ =>
    let! omega_r := read (AU2, 2 * (j * (n1 + pad_length G) + i)) in
    let! v := read (AU2, 2 * (j * (n1 + pad_length G) + i) + 1) in
    let omega_c := fmul F (of_long direction) v in
    let! x_r := read (a, x + 2 * i) in
    let! x_c := read (a, x + (2 * i + 1)) in
    let (y_r, y_c) := product F (omega_r, omega_c) (x_r, x_c) in
    write (a, x + 2 * i) y_r ;!
    write (a, x + (2 * i + 1)) y_c).

Definition Scale (n1 N : Z) (a : arr) (x : Z) : thread unit :=
  for_ 0 n1 tt (fun i _ =>
    let! v := read (a, x + 2 * i) in
    write (a, x + 2 * i) (fdiv F v (of_long N)) ;!
    let! v := read (a, x + (2 * i + 1)) in
    write (a, x + (2 * i + 1)) (fdiv F v (of_long N))).

Definition CopyColumn (n1 : Z) (src : arr) (s : Z) (dest : arr) (d : Z) : thread unit :=
  for_ 0 n1 tt (fun i _ =>
    let! v := read (src, s + 2 * i) in
    write (dest, d + 2 * i) v ;!
    let! v := read (src, s + (2 * i + 1)) in
    write (dest, d + (2 * i + 1)) v).

(** ** The transposition *)

Definition copy_block (src dest : arr) (n1p v_off h_off blksize : Z) : thread unit :=
  for_ 0 blksize tt (fun i _ =>
    let v := v_off + i in
    for_ 0 blksize tt (fun j _ =>
      let h := h_off + j in
      let! a := read (src, 2 * (v * n1p + h)) in
      write (dest, 2 * (h * n1p + v)) a ;!
      let! a := read (src, 2 * (v * n1p + h) + 1) in
      write (dest, 2 * (h * n1p + v) + 1) a)).

(** The body of the three loops over [l]: the columns that thread [l] owns. *)
Definition copy_patch (src dest : arr) (n1p row_count firstfirst numblks blksize l : Z) : thread unit :=
  let! _ := for_ 0 numblks (l * row_count) (fun k v_off =>
    let! _ := for_ 0 numblks firstfirst (fun m h_off =>
      copy_block src dest n1p v_off h_off blksize ;! Ret (h_off + blksize)) in
    Ret (v_off + blksize)) in
  Ret tt.

(** [a / b]: [None] is a division by zero. *)
Definition quot_ (x y : Z) : option Z := if y =? 0 then None else Some (Z.quot x y).

Definition Transpose (n1 : Z) (src dest : arr) (MyNum MyFirst MyLast : Z) : thread unit :=
  let blksize := MyLast - MyFirst in
  let! numblks := opt (quot_ (2 * blksize) (num_cache_lines G)) in
  let numblks := if negb (numblks * num_cache_lines G =? 2 * blksize) then numblks + 1 else numblks in
  let! blksize := opt (quot_ blksize numblks) in
  let firstfirst := MyFirst in
  let row_count := Z.quot n1 (P G) in
  let n1p := n1 + pad_length G in
  let patch l := copy_patch src dest n1p row_count firstfirst numblks blksize l in
  for_ (MyNum + 1) (P G) tt (fun l _ => patch l) ;!
  for_ 0 MyNum tt (fun l _ => patch l) ;!
  patch MyNum.

(** ** The threads *)

(** [Global->start], the only barrier. *)
Definition start_barrier : Z := 0.

Definition FFT1D (direction : Z) (upriv : list Z) (MyNum MyFirst MyLast : Z) : thread unit :=
  let m1 := Z.quot (M G) 2 in
  let n1 := Z.shiftl 1 m1 in
  let row j := 2 * j * (n1 + pad_length G) in
  BARRIER start_barrier ;!
  Transpose n1 AX ATrans MyNum MyFirst MyLast ;!
  for_ MyFirst MyLast tt (fun j _ =>
    FFT1DOnce direction m1 n1 upriv ATrans (row j) ;!
    TwiddleOneCol direction n1 j ATrans (row j)) ;!
  BARRIER start_barrier ;!
  Transpose n1 ATrans AX MyNum MyFirst MyLast ;!
  for_ MyFirst MyLast tt (fun j _ =>
    FFT1DOnce direction m1 n1 upriv AX (row j) ;!
    (if direction =? -1 then Scale n1 (N G) AX (row j) else Ret tt)) ;!
  BARRIER start_barrier ;!
  Transpose n1 AX ATrans MyNum MyFirst MyLast ;!
  BARRIER start_barrier ;!
  (if test_result G || print_result G
   then for_ MyFirst MyLast tt (fun j _ => CopyColumn n1 ATrans (row j) AX (row j))
   else Ret tt) ;!
  BARRIER start_barrier.

(** [TouchArray]: the sum, which its caller drops, starts at [zero]. *)
Definition TouchArray (zero : Z) (upriv : list Z) (MyFirst MyLast : Z) : thread Z :=
  let! tot := for_ 0 (2 * (rootN G - 1)) zero (fun j tot => let! v := opt (znth upriv j) in Ret (fadd F tot v)) in
  for_ MyFirst MyLast tot (fun j tot =>
    let k := j * (rootN G + pad_length G) in
    for_ 0 (rootN G) tot (fun i tot =>
      let! a := read (AX, 2 * (k + i)) in
      let! b := read (AX, 2 * (k + i) + 1) in
      let! c := read (ATrans, 2 * (k + i)) in
      let! d := read (ATrans, 2 * (k + i) + 1) in
      let! e := read (AU2, 2 * (k + i)) in
      let! f := read (AU2, 2 * (k + i) + 1) in
      Ret (fadd F tot (fadd F (fadd F (fadd F (fadd F (fadd F a b) c) d) e) f)))).

(** [SlaveStart] from the point where the thread has its number; [upriv] is
    what the memory it allocates holds. *)
Definition SlaveStart (zero : Z) (upriv : list Z) (MyNum : Z) : thread unit :=
  BARRIER start_barrier ;!
  let! upriv := for_ 0 (2 * (rootN G - 1)) upriv (fun i upriv =>
    let! v := read (AU, i) in opt (zset upriv i v)) in
  let MyFirst := Z.quot (rootN G * MyNum) (P G) in
  let MyLast := Z.quot (rootN G * (MyNum + 1)) (P G) in
  let! _ := TouchArray zero upriv MyFirst MyLast in
  BARRIER start_barrier ;!
  FFT1D 1 upriv MyNum MyFirst MyLast ;!
  (if test_result G then FFT1D (-1) upriv MyNum MyFirst MyLast else Ret tt).

Definition start (zero : Z) (upriv : nat -> list Z) (m : loc -> Z) : cfg loc :=
  Cfg 0 (fun t => SlaveStart zero (upriv t) (Z.of_nat t)) m (fun _ => false).

(** ** The sequential parts of [main] *)

(** [InitX]: [rnd k] is the [k]th number of [drand48]. *)
Definition InitX (rnd : Z -> Z) : thread unit :=
  for_ 0 (rootN G) tt (fun j _ =>
    let k := j * (rootN G + pad_length G) in
    for_ 0 (rootN G) tt (fun i _ =>
      write (AX, 2 * (k + i)) (rnd (2 * (j * rootN G + i))) ;!
      write (AX, 2 * (k + i) + 1) (rnd (2 * (j * rootN G + i) + 1)))).

(** The tables: [root k n] is the pair of [cos(2.0*PI*k/n)] and
    [-sin(2.0*PI*k/n)], and [root2 i j n] that of [cos(2.0*PI*i*j/n)] and
    [-sin(2.0*PI*i*j/n)]. The loop over [q] ends by the [return] inside it, or with
    [1 << q >= N]. *)
Context (root : Z -> Z -> Z * Z) (root2 : Z -> Z -> Z -> Z * Z).
Fixpoint init_powers (fuel : nat) (q : Z) : thread unit :=
  if Z.shiftl 1 q <? N G then
    match fuel with
    | O => Fail
    | S fuel =>
        let n1 := Z.shiftl 1 q in
        let base := n1 - 1 in
        let! returned := for_ 0 n1 false (fun j returned =>
          if returned || (rootN G - 1 <? base + j) then Ret true
          else
            write (AU, 2 * (base + j)) (root j (2 * n1)).1 ;!
            write (AU, 2 * (base + j) + 1) (root j (2 * n1)).2 ;!
            Ret false) in
        if returned then Ret tt else init_powers fuel (q + 1)
    end
  else Ret tt.
Definition InitU : thread unit := init_powers 64 0.

Definition InitU2 (n1 : Z) : thread unit :=
  for_ 0 n1 tt (fun j _ =>
    let k := j * (rootN G + pad_length G) in
    for_ 0 n1 tt (fun i _ =>
      write (AU2, 2 * (k + i)) (root2 i j (N G)).1 ;!
      write (AU2, 2 * (k + i) + 1) (root2 i j (N G)).2)).

Definition CheckSum (zero : Z) : thread Z :=
  for_ 0 (rootN G) zero (fun j cks =>
    let k := j * (rootN G + pad_length G) in
    for_ 0 (rootN G) cks (fun i cks =>
      let! a := read (AX, 2 * (k + i)) in
      let! b := read (AX, 2 * (k + i) + 1) in
      Ret (fadd F cks (fadd F a b)))).
End Program.
End Fft.
