(* ===== verification/FftRow.v ===== *)
(** * FftRow: what happens to one row

    The kernels of Fft.v that work on one row of the matrix, as functions on
    rows of complex numbers: [Reverse] permutes, a round of [FFT1DOnce] is
    [stage], [TwiddleOneCol] multiplies, [Scale] divides, [CopyColumn] copies. *)

From stdpp Require Import base list option functions.
From S2P Require Import Prelude Phases PhaseScript Doubles Fft.
Local Open Scope Z_scope.

Module FftRow.
Import Fft.

(** ** Bit reversal *)

Fixpoint rev (m : nat) (k : Z) : Z :=
  match m with O => 0 | S m => k mod 2 * 2 ^ Z.of_nat m + rev m (k / 2) end.

Lemma reverse_loop_rev i j tmp : reverse_loop i j tmp = j * 2 ^ Z.of_nat i + rev i tmp.
Proof.
  revert j tmp. induction i as [|i IH]; intros j tmp; cbn [reverse_loop rev]; [lia|].
  rewrite IH. change 1 with (Z.ones 1) at 1. rewrite Z.land_ones, Z.shiftr_div_pow2 by lia. change (2 ^ 1) with 2.
  rewrite Nat2Z.inj_succ, Z.pow_succ_r by lia. lia.
Qed.
Lemma BitReverse_rev m k : BitReverse (Z.of_nat m) k = rev m k.
Proof. unfold BitReverse. rewrite reverse_loop_rev, Nat2Z.id. lia. Qed.

Lemma rev_range m k : 0 <= rev m k < 2 ^ Z.of_nat m.
Proof.
  revert k. induction m as [|m IH]; intros k; cbn [rev]; [lia|]. specialize (IH (k / 2)).
  rewrite Nat2Z.inj_succ, Z.pow_succ_r by lia. pose proof (Z.mod_pos_bound k 2). nia.
Qed.
(** The last bit of the result is the first one of the number. *)
Lemma rev_top m k : 0 <= k < 2 ^ Z.of_nat (S m) -> rev (S m) k = 2 * rev m (k mod 2 ^ Z.of_nat m) + k / 2 ^ Z.of_nat m.
Proof.
  revert k. induction m as [|m IH]; intros k Hk.
  - cbn [rev]. change (2 ^ Z.of_nat 1) with 2 in Hk. change (2 ^ Z.of_nat 0) with 1. rewrite Z.mod_small, Z.div_1_r by lia. lia.
  - change (rev (S (S m)) k) with (k mod 2 * 2 ^ Z.of_nat (S m) + rev (S m) (k / 2)).
    change (rev (S m) (k mod 2 ^ Z.of_nat (S m))) with
      ((k mod 2 ^ Z.of_nat (S m)) mod 2 * 2 ^ Z.of_nat m + rev m (k mod 2 ^ Z.of_nat (S m) / 2)).
    assert (2 ^ Z.of_nat (S m) = 2 * 2 ^ Z.of_nat m) as Ep by (rewrite Nat2Z.inj_succ, Z.pow_succ_r by lia; done).
    assert (2 ^ Z.of_nat (S (S m)) = 2 * (2 * 2 ^ Z.of_nat m)) as Epp by (rewrite !Nat2Z.inj_succ, !Z.pow_succ_r by lia; done).
    assert (0 < 2 ^ Z.of_nat m) as Hpos by (apply Z.pow_pos_nonneg; lia).
    rewrite (IH (k / 2)) by (split; [apply Z.div_pos; lia|apply Z.div_lt_upper_bound; lia]).
    rewrite Ep. rewrite (Z.rem_mul_r k 2 (2 ^ Z.of_nat m)) by lia.
    replace ((k mod 2 + 2 * ((k / 2) mod 2 ^ Z.of_nat m)) mod 2) with (k mod 2)
      by (rewrite (Z.mul_comm 2), Z.mod_add, Z.mod_mod by lia; done).
    replace ((k mod 2 + 2 * ((k / 2) mod 2 ^ Z.of_nat m)) / 2) with ((k / 2) mod 2 ^ Z.of_nat m)
      by (rewrite (Z.mul_comm 2), Z.div_add by lia; rewrite (Z.div_small (k mod 2)) by (apply Z.mod_pos_bound; lia); lia).
    rewrite <- Z.div_div by lia. lia.
Qed.
Lemma rev_rev m k : 0 <= k < 2 ^ Z.of_nat m -> rev m (rev m k) = k.
Proof.
  revert k. induction m as [|m IH]; intros k Hk; [simpl in *; lia|].
  assert (2 ^ Z.of_nat (S m) = 2 * 2 ^ Z.of_nat m) as Ep by (rewrite Nat2Z.inj_succ, Z.pow_succ_r by lia; done).
  pose proof (rev_range m (k / 2)) as Hr. pose proof (Z.mod_pos_bound k 2 ltac:(lia)).
  rewrite rev_top by apply rev_range. cbn [rev].
  assert (0 < 2 ^ Z.of_nat m) by (apply Z.pow_pos_nonneg; lia).
  rewrite (Z.add_comm (k mod 2 * 2 ^ Z.of_nat m) (rev m (k / 2))). rewrite Z.mod_add, Z.mod_small, Z.div_add, (Z.div_small (rev m (k / 2))) by lia.
  rewrite IH by (split; [apply Z.div_pos; lia|apply Z.div_lt_upper_bound; lia]).
  rewrite (Z.div_mod k 2) at 3 by lia. lia.
Qed.

(** ** Rows of complex numbers *)

Section Pure.
Context {V : Type} (F : arith V).
Definition cadd (a b : V * V) : V * V := (fadd F a.1 b.1, fadd F a.2 b.2).
Definition csub (a b : V * V) : V * V := (fsub F a.1 b.1, fsub F a.2 b.2).

(** Round [q] of [FFT1DOnce], with the roots [w]. *)
Definition stage (w : Z -> V * V) (q : nat) (c : Z -> V * V) (e : Z) : V * V :=
  let Lstar := 2 ^ Z.of_nat q in
  let r := e mod (2 * Lstar) in
  if r <? Lstar then cadd (c e) (product F (w (Lstar - 1 + r)) (c (e + Lstar)))
  else csub (c (e - Lstar)) (product F (w (Lstar - 1 + (r - Lstar))) (c e)).
Fixpoint stages (w : Z -> V * V) (q : nat) (c : Z -> V * V) : Z -> V * V :=
  match q with O => c | S q => stage w q (stages w q c) end.
(** A row of [2^m] numbers is transformed. *)
Definition fft_row (w : Z -> V * V) (m : nat) (c : Z -> V * V) : Z -> V * V := stages w m (fun e => c (rev m e)).

Lemma stage_ext w q c c' n : (forall e, 0 <= e < n -> c e = c' e) -> (2 * 2 ^ Z.of_nat q | n) ->
  forall e, 0 <= e < n -> stage w q c e = stage w q c' e.
Proof.
  intros H [d ->] e He. unfold stage. set (Ls := 2 ^ Z.of_nat q) in *. assert (0 < Ls) by (apply Z.pow_pos_nonneg; lia).
  pose proof (Z.mod_pos_bound e (2 * Ls) ltac:(lia)). pose proof (Z.div_mod e (2 * Ls) ltac:(lia)).
  assert (e / (2 * Ls) < d) by (apply Z.div_lt_upper_bound; lia). pose proof (Z.div_pos e (2 * Ls) ltac:(lia) ltac:(lia)).
  destruct (Z.ltb_spec (e mod (2 * Ls)) Ls); rewrite !H by nia; done.
Qed.
Lemma stages_ext w q c c' n : (forall e, 0 <= e < n -> c e = c' e) -> (2 ^ Z.of_nat q | n) ->
  forall e, 0 <= e < n -> stages w q c e = stages w q c' e.
Proof.
  intros H. induction q as [|q IH]; intros Hd e He; [by apply H|]. cbn [stages].
  rewrite Nat2Z.inj_succ, Z.pow_succ_r in Hd by lia.
  apply (stage_ext w q _ _ n); [|done|done]. apply IH. destruct Hd as [d ->]. exists (d * 2). lia.
Qed.
Lemma fft_row_ext w m c c' : (forall e, 0 <= e < 2 ^ Z.of_nat m -> c e = c' e) ->
  forall e, 0 <= e < 2 ^ Z.of_nat m -> fft_row w m c e = fft_row w m c' e.
Proof.
  intros H. apply stages_ext; [|done]. intros e He. apply H, rev_range.
Qed.
End Pure.

(** ** The kernels *)

(** The doubles of a row of complex numbers. *)
Definition raw (c : Z -> Z * Z) (i : Z) : Z := if Z.even i then (c (i / 2)).1 else (c (i / 2)).2.
Lemma raw_re c j : raw c (2 * j) = (c j).1.
Proof. unfold raw. rewrite Z.even_mul. simpl. by rewrite Z.mul_comm, Z.div_mul by lia. Qed.
Lemma raw_im c j : raw c (2 * j + 1) = (c j).2.
Proof.
  unfold raw. rewrite Z.even_add, Z.even_mul. simpl. rewrite Z.mul_comm, Z.div_add_l by lia. by rewrite Z.add_0_r.
Qed.
Lemma raw_ext c c' n i : (forall j, 0 <= j < n -> c j = c' j) -> 0 <= i < 2 * n -> raw c i = raw c' i.
Proof. intros H Hi. unfold raw. rewrite H; [done|]. split; [apply Z.div_pos; lia|apply Z.div_lt_upper_bound; lia]. Qed.
Lemma even_odd i : exists j, i = 2 * j \/ i = 2 * j + 1.
Proof. exists (i / 2). pose proof (Z.div_mod i 2). pose proof (Z.mod_pos_bound i 2). lia. Qed.

Section Row.
Context (F : arith Z) (of_long : Z -> Z) (valid own : loc -> bool) (kn : loc -> Prop).
Context (a : arr) (x : Z) (m : nat).
Local Abbreviation n := (2 ^ Z.of_nat m).
Hypothesis Hrow : forall i, 0 <= i < 2 * n -> valid (a, x + i) = true /\ own (a, x + i) = true.
Local Abbreviation wp := (wps valid own kn).

(** The memory [V0] with the row [f]. *)
Definition in_row (l : loc) : bool := bool_decide (l.1 = a) && ((x <=? l.2) && (l.2 <? x + 2 * n)).
Definition row_set (V0 : loc -> Z) (f : Z -> Z) (l : loc) : Z := if in_row l then f (l.2 - x) else V0 l.
Definition Rw (V0 : loc -> Z) (f : Z -> Z) (V : loc -> Z) : Prop := forall l, V l = row_set V0 f l.

Lemma in_row_at i : in_row (a, x + i) = (0 <=? i) && (i <? 2 * n).
Proof.
  unfold in_row. simpl. rewrite bool_decide_true by done.
  destruct (Z.leb_spec 0 i), (Z.ltb_spec i (2 * n)), (Z.leb_spec x (x + i)), (Z.ltb_spec (x + i) (x + 2 * n)); lia || done.
Qed.
Lemma row_get V0 f V i : Rw V0 f V -> 0 <= i < 2 * n -> V (a, x + i) = f i.
Proof.
  intros H Hi. rewrite H. unfold row_set. rewrite in_row_at.
  destruct (Z.leb_spec 0 i), (Z.ltb_spec i (2 * n)); try lia. simpl. f_equal. lia.
Qed.
Lemma Rw_ext V0 f g V : Rw V0 f V -> (forall i, 0 <= i < 2 * n -> f i = g i) -> Rw V0 g V.
Proof.
  intros H He l. rewrite H. unfold row_set, in_row. destruct (bool_decide (l.1 = a)); [|done].
  destruct (Z.leb_spec x l.2), (Z.ltb_spec l.2 (x + 2 * n)); simpl; try done. apply He. lia.
Qed.
Lemma Rw_set V0 f V i y : Rw V0 f V -> 0 <= i < 2 * n -> Rw V0 (<[i := y]> f) (<[(a, x + i) := y]> V).
Proof.
  intros H Hi l. unfold row_set. destruct (decide (l = (a, x + i))) as [->|Hne].
  - rewrite fn_lookup_insert, in_row_at. destruct (Z.leb_spec 0 i), (Z.ltb_spec i (2 * n)); try lia. simpl.
    replace (x + i - x) with i by lia. by rewrite fn_lookup_insert.
  - rewrite fn_lookup_insert_ne, H by done. unfold row_set. destruct (in_row l) eqn:El; [|done].
    rewrite fn_lookup_insert_ne; [done|]. intros E. apply Hne. unfold in_row in El. apply andb_prop in El as [El _].
    apply bool_decide_eq_true in El. destruct l as [a' p]. simpl in *. subst. f_equal. lia.
Qed.

Lemma wp_get {A} i p V0 f V (g : Z -> thread A) Q :
  p = x + i -> 0 <= i < 2 * n -> Rw V0 f V -> wp (g (f i)) V Q -> wp (let! v := read (a, p) in g v) V Q.
Proof.
  intros -> Hi H Hg. apply wps_bind, wps_read; [by apply Hrow|left; by apply Hrow|]. by rewrite (row_get V0 f).
Qed.
Lemma wp_put {A} i p y V0 f V (g : thread A) Q :
  p = x + i -> 0 <= i < 2 * n -> Rw V0 f V -> (forall V', Rw V0 (<[i := y]> f) V' -> wp g V' Q) -> wp (write (a, p) y ;! g) V Q.
Proof.
  intros -> Hi H Hg. apply wps_bind, wps_write; [by apply Hrow..|]. by apply Hg, Rw_set.
Qed.
Lemma wp_put_last i p y V0 f V (Q : unit -> (loc -> Z) -> Prop) :
  p = x + i -> 0 <= i < 2 * n -> Rw V0 f V -> (forall V', Rw V0 (<[i := y]> f) V' -> Q tt V') -> wp (write (a, p) y) V Q.
Proof. intros -> Hi H Hg. apply wps_write; [by apply Hrow..|]. by apply Hg, Rw_set. Qed.

(** The two doubles of element [j] are written. *)
Lemma raw_set c j u v i : <[2 * j + 1 := v]> (<[2 * j := u]> (raw c)) i = raw (fun k => if k =? j then (u, v) else c k) i.
Proof.
  destruct (even_odd i) as [k [-> | ->]]; rewrite ?raw_re, ?raw_im.
  - rewrite fn_lookup_insert_ne by lia. destruct (Z.eqb_spec k j) as [->|]; [by rewrite fn_lookup_insert|].
    rewrite fn_lookup_insert_ne by lia. by rewrite raw_re.
  - destruct (Z.eqb_spec k j) as [->|]; [by rewrite fn_lookup_insert|]. rewrite !fn_lookup_insert_ne by lia. by rewrite raw_im.
Qed.
Lemma wp_put2 {A} j p q u v V0 c V (g : thread A) Q :
  p = x + 2 * j -> q = x + (2 * j + 1) -> 0 <= j < n -> Rw V0 (raw c) V ->
  (forall V', Rw V0 (raw (fun k => if k =? j then (u, v) else c k)) V' -> wp g V' Q) ->
  wp (write (a, p) u ;! write (a, q) v ;! g) V Q.
Proof.
  intros Hp Hq Hj H Hg. eapply (wp_put (2 * j)); [done|lia|exact H|]. intros V1 H1.
  eapply (wp_put (2 * j + 1)); [done|lia|exact H1|]. intros V2 H2. apply Hg. eapply Rw_ext; [exact H2|]. intros i _. apply raw_set.
Qed.
Lemma wp_put2_last j p q u v V0 c V (Q : unit -> (loc -> Z) -> Prop) :
  p = x + 2 * j -> q = x + (2 * j + 1) -> 0 <= j < n -> Rw V0 (raw c) V ->
  (forall V', Rw V0 (raw (fun k => if k =? j then (u, v) else c k)) V' -> Q tt V') ->
  wp (write (a, p) u ;! write (a, q) v) V Q.
Proof.
  intros Hp Hq Hj H Hg. eapply (wp_put (2 * j)); [done|lia|exact H|]. intros V1 H1.
  eapply (wp_put_last (2 * j + 1)); [done|lia|exact H1|]. intros V2 H2. apply Hg. eapply Rw_ext; [exact H2|]. intros i _. apply raw_set.
Qed.

(** [Reverse] *)
Lemma swap_ok {A} i j p q V0 f V (g : thread A) Q :
  p = x + i -> q = x + j -> 0 <= i < 2 * n -> 0 <= j < 2 * n -> Rw V0 f V ->
  (forall V', Rw V0 (<[j := f i]> (<[i := f j]> f)) V' -> wp g V' Q) -> wp (SWAP_VALS a p q ;! g) V Q.
Proof.
  intros Hp Hq Hi Hj H Hg. unfold SWAP_VALS. apply wps_bind.
  eapply (wp_get i); [done|done|exact H|]. eapply (wp_get j); [done|done|exact H|].
  eapply (wp_put i); [done|done|exact H|]. intros V1 H1. eapply (wp_put_last j); [done|done|exact H1|done].
Qed.

Lemma swap_ok_last i j p q V0 f V (Q : unit -> (loc -> Z) -> Prop) :
  p = x + i -> q = x + j -> 0 <= i < 2 * n -> 0 <= j < 2 * n -> Rw V0 f V ->
  (forall V', Rw V0 (<[j := f i]> (<[i := f j]> f)) V' -> Q tt V') -> wp (SWAP_VALS a p q) V Q.
Proof.
  intros Hp Hq Hi Hj H Hg. unfold SWAP_VALS. eapply (wp_get i); [done|done|exact H|]. eapply (wp_get j); [done|done|exact H|].
  eapply (wp_put i); [done|done|exact H|]. intros V1 H1. eapply (wp_put_last j); [done|done|exact H1|done].
Qed.

Definition swapped (K : Z) (c : Z -> Z * Z) (e : Z) : Z * Z := c (if Z.min e (rev m e) <? K then rev m e else e).

Lemma swapped_step k c e : 0 <= k < n -> k < rev m k -> 0 <= e < n ->
  swapped (k + 1) c e = if e =? k then swapped k c (rev m k) else if e =? rev m k then swapped k c k else swapped k c e.
Proof.
  intros Hk Hlt He. unfold swapped. pose proof (rev_rev m k Hk) as Hrr. pose proof (rev_rev m e He).
  destruct (Z.eqb_spec e k) as [->|Hne]; [|destruct (Z.eqb_spec e (rev m k)) as [->|Hne2]]; rewrite ?Hrr.
  1,2: destruct (Z.ltb_spec (Z.min k (rev m k)) (k + 1)), (Z.ltb_spec (Z.min (rev m k) k) k),
    (Z.ltb_spec (Z.min (rev m k) k) (k + 1)), (Z.ltb_spec (Z.min k (rev m k)) k); try lia; done.
  assert (rev m e <> k) by congruence.
  destruct (Z.ltb_spec (Z.min e (rev m e)) (k + 1)), (Z.ltb_spec (Z.min e (rev m e)) k); try lia; done.
Qed.
Lemma swapped_next k c i : 0 <= k < n -> k < rev m k -> 0 <= i < 2 * n ->
  let j := rev m k in let f := raw (swapped k c) in
  let f2 := <[2 * k := f (2 * j)]> (<[2 * j := f (2 * k)]> f) in
  <[2 * k + 1 := f2 (2 * j + 1)]> (<[2 * j + 1 := f2 (2 * k + 1)]> f2) i = raw (swapped (k + 1) c) i.
Proof.
  intros Hk Hlt Hi. cbv zeta. pose proof (rev_range m k). destruct (even_odd i) as [e [-> | ->]]; rewrite ?raw_re, ?raw_im.
  all: rewrite swapped_step by lia; destruct (Z.eqb_spec e k) as [->|]; [|destruct (Z.eqb_spec e (rev m k)) as [->|]].
  all: repeat first [rewrite fn_lookup_insert | rewrite fn_lookup_insert_ne by lia]; by rewrite ?raw_re, ?raw_im.
Qed.

Lemma Reverse_ok c V0 V Q : Rw V0 (raw c) V ->
  (forall V', Rw V0 (raw (fun e => c (rev m e))) V' -> Q tt V') -> wp (Reverse n (Z.of_nat m) a x) V Q.
Proof.
  intros H HQ. unfold Reverse. assert (0 < n) by (apply Z.pow_pos_nonneg; lia).
  apply (wps_for _ _ _ (fun K _ V => Rw V0 (raw (swapped K c)) V)); [lia| | |].
  - eapply Rw_ext; [exact H|]. intros i Hi. apply (raw_ext _ _ n); [|done]. intros e He. unfold swapped.
    pose proof (rev_range m e). destruct (Z.ltb_spec (Z.min e (rev m e)) 0); [lia|done].
  - intros k [] V1 Hk H1. rewrite BitReverse_rev. pose proof (rev_range m k) as Hr. pose proof (rev_rev m k Hk) as Hrr.
    destruct (Z.ltb_spec k (rev m k)) as [Hlt|Hge].
    + set (j := rev m k) in *. eapply (swap_ok (2 * j) (2 * k)); [done|done|lia|lia|exact H1|]. intros V2 H2.
      eapply (swap_ok_last (2 * j + 1) (2 * k + 1)); [done|done|lia|lia|exact H2|]. intros V3 H3.
      eapply Rw_ext; [exact H3|]. intros i Hi. by apply swapped_next.
    + apply wps_ret. eapply Rw_ext; [exact H1|]. intros i Hi. apply (raw_ext _ _ n); [|done]. intros e He. unfold swapped.
      pose proof (rev_range m e). pose proof (rev_rev m e He).
      destruct (Z.ltb_spec (Z.min e (rev m e)) k), (Z.ltb_spec (Z.min e (rev m e)) (k + 1)); try lia; [done| |done].
      assert (e = k \/ rev m e = k) as [-> | E] by lia; f_equal; [lia|]. rewrite E in *. lia.
  - intros [] V1 H1. apply HQ. eapply Rw_ext; [exact H1|]. intros i Hi. apply (raw_ext _ _ n); [|done]. intros e He. unfold swapped.
    destruct (Z.ltb_spec (Z.min e (rev m e)) n); [done|lia].
Qed.
(** [FFT1DOnce] *)

Section Rounds.
Context (direction : Z) (up : list Z) (uv : Z -> Z).
Hypothesis Hup : vec up (2 * (n - 1)) uv.
Definition roots (j : Z) : Z * Z := (uv (2 * j), fmul F (of_long direction) (uv (2 * j + 1))).

Context (q : nat) (Hq : (q < m)%nat).
Local Abbreviation Ls := (2 ^ Z.of_nat q).

Lemma blocks_count : exists r, 0 < r /\ n = r * (2 * Ls).
Proof.
  exists (2 ^ Z.of_nat (m - S q)). split; [apply Z.pow_pos_nonneg; lia|].
  rewrite Z.mul_assoc, (Z.mul_comm _ 2), <- Z.pow_succ_r, <- Z.pow_add_r by lia. f_equal. lia.
Qed.

(** The round when the blocks before [k] are done, and [j] pairs of block [k]. *)
Definition partly (k j : Z) (S : Z -> Z * Z) (e : Z) : Z * Z :=
  if (e / (2 * Ls) <? k) || ((e / (2 * Ls) =? k) && (e mod Ls <? j)) then stage F roots q S e else S e.

(** The elements of block [k]. *)
Lemma block_elem k s j : s = 0 \/ s = 1 -> 0 <= j < Ls -> let e := k * (2 * Ls) + s * Ls + j in
  e / (2 * Ls) = k /\ e mod (2 * Ls) = s * Ls + j /\ e mod Ls = j.
Proof.
  intros Hs Hj e. assert (0 <= s * Ls + j < 2 * Ls) by nia. split_and!.
  - symmetry. apply (Z.div_unique _ _ _ (s * Ls + j)); lia.
  - symmetry. apply (Z.mod_unique _ _ k); lia.
  - symmetry. apply (Z.mod_unique _ _ (2 * k + s)); lia.
Qed.
Lemma elem_block e : exists k s j, e = k * (2 * Ls) + s * Ls + j /\ (s = 0 \/ s = 1) /\ 0 <= j < Ls.
Proof.
  assert (0 < Ls) by (apply Z.pow_pos_nonneg; lia).
  pose proof (Z.div_mod e (2 * Ls) ltac:(lia)). pose proof (Z.mod_pos_bound e (2 * Ls) ltac:(lia)).
  destruct (Z.lt_ge_cases (e mod (2 * Ls)) Ls).
  - exists (e / (2 * Ls)), 0, (e mod (2 * Ls)). lia.
  - exists (e / (2 * Ls)), 1, (e mod (2 * Ls) - Ls). lia.
Qed.
(** A pair of the round. *)
Lemma stage_pair S k j : 0 <= j < Ls ->
  let e1 := k * (2 * Ls) + j in let e2 := k * (2 * Ls) + Ls + j in let tau := product F (roots (Ls - 1 + j)) (S e2) in
  stage F roots q S e1 = cadd F (S e1) tau /\ stage F roots q S e2 = csub F (S e1) tau.
Proof.
  intros Hj. cbv zeta. unfold stage. destruct (block_elem k 0 j) as (_ & M1 & _); [lia|done|]. destruct (block_elem k 1 j) as (_ & M2 & _); [lia|done|].
  replace (k * (2 * Ls) + 0 * Ls + j) with (k * (2 * Ls) + j) in M1 by lia. replace (k * (2 * Ls) + 1 * Ls + j) with (k * (2 * Ls) + Ls + j) in M2 by lia.
  rewrite M1, M2. destruct (Z.ltb_spec (0 * Ls + j) Ls), (Z.ltb_spec (1 * Ls + j) Ls); try lia.
  replace (Ls - 1 + (0 * Ls + j)) with (Ls - 1 + j) by lia. replace (Ls - 1 + (1 * Ls + j - Ls)) with (Ls - 1 + j) by lia.
  replace (k * (2 * Ls) + j + Ls) with (k * (2 * Ls) + Ls + j) by lia. by replace (k * (2 * Ls) + Ls + j - Ls) with (k * (2 * Ls) + j) by lia.
Qed.

Lemma partly_next S k j e : 0 <= j < Ls ->
  partly k (j + 1) S e = if e =? k * (2 * Ls) + j then stage F roots q S e else if e =? k * (2 * Ls) + Ls + j then stage F roots q S e else partly k j S e.
Proof.
  intros Hj. destruct (elem_block e) as (k' & s & j' & -> & Hs & Hj'). unfold partly.
  destruct (block_elem k' s j' Hs Hj') as (E1 & _ & E2). rewrite E1, E2.
  destruct (Z.eqb_spec (k' * (2 * Ls) + s * Ls + j') (k * (2 * Ls) + j)) as [Ee|N1];
    [|destruct (Z.eqb_spec (k' * (2 * Ls) + s * Ls + j') (k * (2 * Ls) + Ls + j)) as [Ee|N2]].
  1,2: assert (k' = k) as -> by nia; assert (j' = j) as -> by nia;
    destruct (Z.ltb_spec k k), (Z.eqb_spec k k), (Z.ltb_spec j (j + 1)); try lia; done.
  destruct (Z.ltb_spec k' k), (Z.eqb_spec k' k) as [->|], (Z.ltb_spec j' j), (Z.ltb_spec j' (j + 1)); try lia; try done.
  all: assert (j' = j) as -> by lia; destruct Hs as [-> | ->]; lia.
Qed.

Lemma butterfly_ok S k j V0 V (Q : unit -> (loc -> Z) -> Prop) : 0 <= k -> (k + 1) * (2 * Ls) <= n -> 0 <= j < Ls ->
  Rw V0 (raw (partly k j S)) V -> (forall V', Rw V0 (raw (partly k (j + 1) S)) V' -> Q tt V') ->
  wp (butterfly F of_long direction up (2 * (Ls - 1)) a (x + 2 * (k * (2 * Ls))) (x + 2 * (k * (2 * Ls) + Ls)) j) V Q.
Proof.
  intros Hk Hkn Hj H HQ. unfold butterfly. set (e1 := k * (2 * Ls) + j). set (e2 := k * (2 * Ls) + Ls + j).
  destruct (block_elem k 0 j) as (D1 & _ & M1); [lia|done|]. destruct (block_elem k 1 j) as (D2 & _ & M2); [lia|done|].
  replace (k * (2 * Ls) + 0 * Ls + j) with e1 in D1, M1 by lia. replace (k * (2 * Ls) + 1 * Ls + j) with e2 in D2, M2 by lia.
  assert (forall e, e = e1 \/ e = e2 -> partly k j S e = S e) as Hold.
  { intros e He. unfold partly. assert (e / (2 * Ls) = k) as -> by (destruct He; congruence). assert (e mod Ls = j) as -> by (destruct He; congruence).
    destruct (Z.ltb_spec k k), (Z.ltb_spec j j); try lia. by rewrite andb_false_r. }
  apply wps_bind. eapply wps_opt; [apply Hup; nia|]. apply wps_bind. eapply wps_opt; [apply Hup; nia|].
  eapply (wp_get (2 * e2)); [lia|nia|exact H|]. eapply (wp_get (2 * e2 + 1)); [lia|nia|exact H|].
  rewrite raw_re, raw_im, (Hold e2) by auto. destruct (product F _ _) as [tau_r tau_c] eqn:Et.
  eapply (wp_get (2 * e1)); [lia|nia|exact H|]. eapply (wp_get (2 * e1 + 1)); [lia|nia|exact H|]. rewrite raw_re, raw_im, (Hold e1) by auto.
  eapply (wp_put2 e2); [lia|lia|nia|exact H|]. intros V1 H1. eapply (wp_put2_last e1); [lia|lia|nia|exact H1|]. intros V2 H2.
  apply HQ. eapply Rw_ext; [exact H2|]. intros i Hi. apply (raw_ext _ _ n); [|done]. intros e _. rewrite partly_next by done. fold e1 e2.
  assert (product F (roots (Ls - 1 + j)) (S e2) = (tau_r, tau_c)) as Etau.
  { rewrite <- Et. unfold roots. replace (2 * (Ls - 1 + j)) with (2 * (Ls - 1) + 2 * j) by lia.
    replace (2 * (Ls - 1) + 2 * j + 1) with (2 * (Ls - 1) + (2 * j + 1)) by lia. by rewrite (surjective_pairing (S e2)). }
  destruct (stage_pair S k j Hj) as [P1 P2]. fold e1 e2 in P1, P2. rewrite Etau in P1, P2.
  destruct (Z.eqb_spec e e1) as [->|]; [by rewrite P1|]. destruct (Z.eqb_spec e e2) as [->|]; [by rewrite P2|done].
Qed.
Lemma round_ok S V0 V (Q : unit -> (loc -> Z) -> Prop) : Rw V0 (raw S) V ->
  (forall V', Rw V0 (raw (stage F roots q S)) V' -> Q tt V') ->
  wp (for_ 0 (Z.quot n (2 * Ls)) tt (fun k _ => for_ 0 Ls tt (fun j _ =>
    butterfly F of_long direction up (2 * (Ls - 1)) a (x + 2 * (k * (2 * Ls))) (x + 2 * (k * (2 * Ls) + Ls)) j))) V Q.
Proof.
  intros H HQ. destruct blocks_count as (r & Hr & Er). assert (0 < Ls) by (apply Z.pow_pos_nonneg; lia).
  rewrite Z.quot_div_nonneg by lia. replace (n / (2 * Ls)) with r by (rewrite Er, Z.div_mul by lia; done).
  assert (forall e, 0 <= e < n -> 0 <= e / (2 * Ls) < r) as Hblk.
  { intros e He. split; [apply Z.div_pos; lia|]. apply Z.div_lt_upper_bound; lia. }
  apply (wps_for _ _ _ (fun k _ V => Rw V0 (raw (partly k 0 S)) V)); [lia| | |].
  - eapply Rw_ext; [exact H|]. intros i Hi. apply (raw_ext _ _ n); [|done]. intros e He. unfold partly. specialize (Hblk e He).
    pose proof (Z.mod_pos_bound e Ls ltac:(lia)). destruct (Z.ltb_spec (e / (2 * Ls)) 0), (Z.ltb_spec (e mod Ls) 0); try lia. by rewrite andb_false_r.
  - intros k [] V1 Hk H1. apply (wps_for _ _ _ (fun j _ V => Rw V0 (raw (partly k j S)) V)); [lia|done| |].
    + intros j [] V2 Hj H2. eapply (butterfly_ok S k j); [lia|nia|done|exact H2|done].
    + intros [] V2 H2. eapply Rw_ext; [exact H2|]. intros i Hi. apply (raw_ext _ _ n); [|done]. intros e He. unfold partly.
      pose proof (Z.mod_pos_bound e Ls ltac:(lia)).
      destruct (Z.ltb_spec (e / (2 * Ls)) k), (Z.eqb_spec (e / (2 * Ls)) k), (Z.ltb_spec (e mod Ls) Ls), (Z.ltb_spec (e / (2 * Ls)) (k + 1)),
        (Z.ltb_spec (e mod Ls) 0); try lia; simpl; rewrite ?andb_false_r; done.
  - intros [] V1 H1. apply HQ. eapply Rw_ext; [exact H1|]. intros i Hi. apply (raw_ext _ _ n); [|done]. intros e He. unfold partly.
    specialize (Hblk e He). destruct (Z.ltb_spec (e / (2 * Ls)) r); [done|lia].
Qed.
End Rounds.

Lemma FFT1DOnce_ok direction up uv c V0 V (Q : unit -> (loc -> Z) -> Prop) : vec up (2 * (n - 1)) uv -> Rw V0 (raw c) V ->
  (forall V', Rw V0 (raw (fft_row F (roots direction uv) m c)) V' -> Q tt V') ->
  wp (FFT1DOnce F of_long direction (Z.of_nat m) n up a x) V Q.
Proof.
  intros Hup H HQ. unfold FFT1DOnce. apply wps_bind, (Reverse_ok c V0 V); [done|]. intros V1 H1.
  apply (wps_for _ _ _ (fun q _ V => Rw V0 (raw (stages F (roots direction uv) (Z.to_nat (q - 1)) (fun e => c (rev m e)))) V)); [lia|done| |].
  - intros q [] V2 Hq H2. remember (Z.to_nat (q - 1)) as q' eqn:Eq. assert (q = Z.of_nat (S q')) as -> by lia.
    replace (Z.to_nat (Z.of_nat (S q') + 1 - 1)) with (S q') by lia.
    assert (Z.shiftl 1 (Z.of_nat (S q')) = 2 * 2 ^ Z.of_nat q') as ->
      by (rewrite Z.shiftl_1_l, Nat2Z.inj_succ, Z.pow_succ_r by lia; done).
    assert (Z.quot (2 * 2 ^ Z.of_nat q') 2 = 2 ^ Z.of_nat q') as -> by (rewrite Z.mul_comm, Z.quot_mul by lia; done). eapply (round_ok direction up uv Hup q' ltac:(lia)); [exact H2|done].
  - intros [] V2 H2. apply HQ. by replace (Z.to_nat (Z.of_nat m + 1 - 1)) with m in H2 by lia.
Qed.

(** [TwiddleOneCol]: the roots are in another array. *)
Lemma Twiddle_ok G direction j c V0 V (Q : unit -> (loc -> Z) -> Prop) : a <> AU2 ->
  (forall i b, 0 <= i < n -> 0 <= b < 2 -> valid (AU2, 2 * (j * (n + pad_length G) + i) + b) = true /\ kn (AU2, 2 * (j * (n + pad_length G) + i) + b)) ->
  Rw V0 (raw c) V ->
  (forall V', Rw V0 (raw (fun i => product F (V0 (AU2, 2 * (j * (n + pad_length G) + i)),
      fmul F (of_long direction) (V0 (AU2, 2 * (j * (n + pad_length G) + i) + 1))) (c i))) V' -> Q tt V') ->
  wp (TwiddleOneCol F of_long G direction n j a x) V Q.
Proof.
  intros Ha Hu H HQ. unfold TwiddleOneCol. assert (0 < n) by (apply Z.pow_pos_nonneg; lia).
  set (d := fun i => product F (V0 (AU2, 2 * (j * (n + pad_length G) + i)), fmul F (of_long direction) (V0 (AU2, 2 * (j * (n + pad_length G) + i) + 1))) (c i)) in *.
  assert (forall f V l, Rw V0 f V -> V (AU2, l) = V0 (AU2, l)) as Hother.
  { intros f V1 l H1. rewrite H1. unfold row_set, in_row. simpl. by rewrite bool_decide_false by congruence. }
  apply (wps_for _ _ _ (fun i _ V => Rw V0 (raw (fun e => if e <? i then d e else c e)) V)); [lia| | |].
  - eapply Rw_ext; [exact H|]. intros i Hi. apply (raw_ext _ _ n); [|done]. intros e He. destruct (Z.ltb_spec e 0); [lia|done].
  - intros i [] V1 Hi H1. destruct (Hu i 0 Hi ltac:(lia)) as [U1 U2], (Hu i 1 Hi ltac:(lia)) as [U3 U4]. rewrite Z.add_0_r in U1, U2.
    apply wps_bind, wps_read; [done|by right|]. apply wps_bind, wps_read; [done|by right|]. rewrite !(Hother _ _ _ H1).
    eapply (wp_get (2 * i)); [lia|lia|exact H1|]. eapply (wp_get (2 * i + 1)); [lia|lia|exact H1|]. rewrite raw_re, raw_im, Z.ltb_irrefl.
    destruct (product F _ _) as [y_r y_c] eqn:Ey. eapply (wp_put2_last i); [lia|lia|lia|exact H1|]. intros V2 H2.
    eapply Rw_ext; [exact H2|]. intros k Hk. apply (raw_ext _ _ n); [|done]. intros e He. cbv beta.
    destruct (Z.eqb_spec e i) as [Ee|], (Z.ltb_spec e i), (Z.ltb_spec e (i + 1)); try lia; try done.
    subst e. unfold d. by rewrite <- Ey, (surjective_pairing (c i)).
  - intros [] V1 H1. apply HQ. eapply Rw_ext; [exact H1|]. intros i Hi. apply (raw_ext _ _ n); [|done]. intros e He. destruct (Z.ltb_spec e n); [done|lia].
Qed.

(** [Scale] *)
Lemma Scale_ok N c V0 V (Q : unit -> (loc -> Z) -> Prop) : Rw V0 (raw c) V ->
  (forall V', Rw V0 (raw (fun i => (fdiv F (c i).1 (of_long N), fdiv F (c i).2 (of_long N)))) V' -> Q tt V') ->
  wp (Scale F of_long n N a x) V Q.
Proof.
  intros H HQ. unfold Scale. assert (0 < n) by (apply Z.pow_pos_nonneg; lia).
  set (d := fun i => (fdiv F (c i).1 (of_long N), fdiv F (c i).2 (of_long N))) in *.
  apply (wps_for _ _ _ (fun i _ V => Rw V0 (raw (fun e => if e <? i then d e else c e)) V)); [lia| | |].
  - eapply Rw_ext; [exact H|]. intros i Hi. apply (raw_ext _ _ n); [|done]. intros e He. destruct (Z.ltb_spec e 0); [lia|done].
  - intros i [] V1 Hi H1. eapply (wp_get (2 * i)); [lia|lia|exact H1|]. eapply (wp_put (2 * i)); [lia|lia|exact H1|]. intros V2 H2.
    eapply (wp_get (2 * i + 1)); [lia|lia|exact H2|]. eapply (wp_put_last (2 * i + 1)); [lia|lia|exact H2|]. intros V3 H3.
    rewrite raw_re, Z.ltb_irrefl in H3. rewrite fn_lookup_insert_ne, raw_im, Z.ltb_irrefl in H3 by lia.
    eapply Rw_ext; [exact H3|]. intros k Hk. rewrite raw_set. apply (raw_ext _ _ n); [|done]. intros e He. cbv beta.
    destruct (Z.eqb_spec e i) as [Ee|], (Z.ltb_spec e i), (Z.ltb_spec e (i + 1)); try lia; try done.
    by subst e.
  - intros [] V1 H1. apply HQ. eapply Rw_ext; [exact H1|]. intros i Hi. apply (raw_ext _ _ n); [|done]. intros e He. destruct (Z.ltb_spec e n); [done|lia].
Qed.

(** [CopyColumn], from another array. *)
Lemma CopyColumn_ok src s c V0 V (Q : unit -> (loc -> Z) -> Prop) : a <> src ->
  (forall i, 0 <= i < 2 * n -> valid (src, s + i) = true /\ kn (src, s + i)) -> Rw V0 (raw c) V ->
  (forall V', Rw V0 (fun i => V0 (src, s + i)) V' -> Q tt V') ->
  wp (CopyColumn n src s a x) V Q.
Proof.
  intros Ha Hs H HQ. unfold CopyColumn. assert (0 < n) by (apply Z.pow_pos_nonneg; lia).
  assert (forall f V l, Rw V0 f V -> V (src, l) = V0 (src, l)) as Hother.
  { intros f V1 l H1. rewrite H1. unfold row_set, in_row. simpl. by rewrite bool_decide_false by congruence. }
  apply (wps_for _ _ _ (fun i _ V => Rw V0 (fun k => if k <? 2 * i then V0 (src, s + k) else raw c k) V)); [lia| | |].
  - eapply Rw_ext; [exact H|]. intros k Hk. cbv beta. destruct (Z.ltb_spec k (2 * 0)); [lia|done].
  - intros i [] V1 Hi H1. destruct (Hs (2 * i) ltac:(lia)) as [S1 S2], (Hs (2 * i + 1) ltac:(lia)) as [S3 S4].
    apply wps_bind, wps_read; [done|by right|]. eapply (wp_put (2 * i)); [lia|lia|exact H1|]. intros V2 H2.
    apply wps_bind, wps_read; [done|by right|]. eapply (wp_put_last (2 * i + 1)); [lia|lia|exact H2|]. intros V3 H3.
    rewrite (Hother _ _ _ H1), (Hother _ _ _ H2) in H3. eapply Rw_ext; [exact H3|]. intros k Hk. cbv beta.
    destruct (decide (k = 2 * i + 1)) as [->|N1]; [rewrite fn_lookup_insert|rewrite fn_lookup_insert_ne by done; destruct (decide (k = 2 * i)) as [->|N2];
      [rewrite fn_lookup_insert|rewrite fn_lookup_insert_ne by done]].
    + destruct (Z.ltb_spec (2 * i + 1) (2 * (i + 1))); [done|lia].
    + destruct (Z.ltb_spec (2 * i) (2 * (i + 1))); [done|lia].
    + destruct (Z.ltb_spec k (2 * i)), (Z.ltb_spec k (2 * (i + 1))); try lia; done.
  - intros [] V1 H1. apply HQ. eapply Rw_ext; [exact H1|]. intros k Hk. cbv beta. destruct (Z.ltb_spec k (2 * n)); [done|lia].
Qed.
End Row.
End FftRow.
