(* ===== verification/FftTranspose.v ===== *)
(** * FftTranspose: the blocked transposition

    [Transpose] copies square patches, block by block, starting behind the
    thread's own patch and ending with it.  Whatever the order, a thread that
    has finished has turned its rows of the destination into columns of the
    source, if its number of rows is the number of blocks times their size. *)

From stdpp Require Import base list option functions.
From Stdlib Require Import ZifyBool.
From S2P Require Import Prelude Phases PhaseScript Doubles Fft FftRow.
Local Open Scope Z_scope.

Module FftTranspose.
Import Fft FftRow.

(** ** Positions in a matrix with rows of [w] numbers *)

Section Positions.
Context (w : Z) (Hw : 0 < w).
Definition row_of (i : Z) : Z := i / 2 / w.
Definition col_of (i : Z) : Z := (i / 2) mod w.
Definition at_ (r c : Z) : Z := 2 * (r * w + c).

Lemma at_row r c b : 0 <= c < w -> 0 <= b < 2 -> row_of (at_ r c + b) = r.
Proof.
  intros Hc Hb. unfold row_of, at_. rewrite (Z.mul_comm 2), Z.div_add_l, (Z.div_small b), Z.add_0_r by lia.
  rewrite Z.div_add_l, Z.div_small by lia. lia.
Qed.
Lemma at_col r c b : 0 <= c < w -> 0 <= b < 2 -> col_of (at_ r c + b) = c.
Proof.
  intros Hc Hb. unfold col_of, at_. rewrite (Z.mul_comm 2), Z.div_add_l, (Z.div_small b), Z.add_0_r by lia.
  rewrite Z.add_comm, Z.mod_add, Z.mod_small by lia. done.
Qed.
Lemma at_bit r c b : 0 <= b < 2 -> (at_ r c + b) mod 2 = b.
Proof. intros Hb. unfold at_. rewrite Z.add_comm, (Z.mul_comm 2), Z.mod_add, Z.mod_small by lia. done. Qed.
Lemma at_split i : i = at_ (row_of i) (col_of i) + i mod 2.
Proof.
  unfold at_, row_of, col_of. pose proof (Z.div_mod i 2). pose proof (Z.div_mod (i / 2) w ltac:(lia)). lia.
Qed.
Lemma col_range i : 0 <= col_of i < w.
Proof. apply Z.mod_pos_bound. lia. Qed.
Lemma at_elim (P : Z -> Prop) : (forall r c b, 0 <= c < w -> b = 0 \/ b = 1 -> P (at_ r c + b)) -> forall i, P i.
Proof. intros H i. rewrite (at_split i). apply H; [apply col_range|]. pose proof (Z.mod_pos_bound i 2). lia. Qed.
End Positions.

(** ** Elements that are set one by one *)

Section Put.
Context (dest : arr) (w : Z) (Hw : 0 < w) (g : Z -> Z -> Z -> Z).
(** The memory [V0] where the elements [D] of [dest] are those of [g]. *)
Definition Put (V0 : loc -> Z) (D : Z -> Z -> bool) (V : loc -> Z) : Prop :=
  forall a r c b, 0 <= c < w -> b = 0 \/ b = 1 ->
    V (a, at_ w r c + b) = if bool_decide (a = dest) && D r c then g r c b else V0 (a, at_ w r c + b).

Definition box (D : Z -> Z -> bool) (v0 v1 h0 h1 r c : Z) : bool :=
  D r c || ((v0 <=? c) && (c <? v1) && (h0 <=? r) && (r <? h1)).

Lemma Put_ext V0 D D' V : Put V0 D V -> (forall r c, D r c = D' r c) -> Put V0 D' V.
Proof. intros H He a r c b Hc Hb. by rewrite H, He. Qed.
Lemma Put_refl V : Put V (fun _ _ => false) V.
Proof. intros a r c b _ _. by rewrite andb_false_r. Qed.
Lemma Put_other V0 D V a r c b : Put V0 D V -> a <> dest -> 0 <= c < w -> b = 0 \/ b = 1 -> V (a, at_ w r c + b) = V0 (a, at_ w r c + b).
Proof. intros H Ha Hc Hb. rewrite H by done. by rewrite bool_decide_false. Qed.

Lemma Put_elem V0 D V h v : 0 <= v < w -> Put V0 D V ->
  Put V0 (box D v (v + 1) h (h + 1)) (<[(dest, at_ w h v + 1) := g h v 1]> (<[(dest, at_ w h v) := g h v 0]> V)).
Proof.
  intros Hv H a r c b Hc Hb. destruct (decide (a = dest)) as [->|Ha].
  2:{ rewrite !fn_lookup_insert_ne by congruence. rewrite H by done. by rewrite !bool_decide_false. }
  rewrite bool_decide_true by done. simpl.
  assert (forall b', b' = 0 \/ b' = 1 -> at_ w h v + b' = at_ w r c + b -> h = r /\ v = c /\ b' = b) as Hat.
  { intros b' Hb' E. split_and!.
    - rewrite <- (at_row w Hw h v b'), <- (at_row w Hw r c b) by lia. by rewrite E.
    - rewrite <- (at_col w Hw h v b'), <- (at_col w Hw r c b) by lia. by rewrite E.
    - rewrite <- (at_bit w h v b'), <- (at_bit w r c b) by lia. by rewrite E. }
  destruct (decide (h = r /\ v = c)) as [[-> ->]|Hne].
  - assert (box D c (c + 1) r (r + 1) r c = true) as -> by (unfold box; lia).
    destruct Hb as [-> | ->]; [|by rewrite fn_lookup_insert].
    by rewrite Z.add_0_r, fn_lookup_insert_ne, fn_lookup_insert by (intros [= E]; lia).
  - assert (box D v (v + 1) h (h + 1) r c = D r c) as -> by (unfold box; lia).
    rewrite !fn_lookup_insert_ne; [rewrite H by done; by rewrite bool_decide_true|..].
    + intros [= E]. destruct (Hat 0); lia.
    + intros [= E]. destruct (Hat 1); lia.
Qed.
End Put.

(** ** The transposition *)

Section Transpose.
Context (G : globals) (own : loc -> bool) (kn : loc -> Prop) (src dest : arr) (Hsd : src <> dest).
(** The thread has the rows from [first] to [last]. *)
Context (n w first last : Z).
Hypothesis Hsrc : forall v h b, 0 <= v < n -> first <= h < last -> b = 0 \/ b = 1 ->
  valid G (src, at_ w v h + b) = true /\ kn (src, at_ w v h + b).
Hypothesis Hdest : forall h v b, first <= h < last -> 0 <= v < n -> b = 0 \/ b = 1 ->
  valid G (dest, at_ w h v + b) = true /\ own (dest, at_ w h v + b) = true.
Hypothesis Hnw : n <= w.
Hypothesis Hw : 0 < w.
Local Abbreviation wp := (wps (valid G) own kn).

(** The memory [V0], with the elements [D] copied. *)
Definition Tr (V0 : loc -> Z) : (Z -> Z -> bool) -> (loc -> Z) -> Prop := Put dest w (fun r c b => V0 (src, at_ w c r + b)) V0.

Lemma copy_elem_ok V0 D V v h (Q : unit -> (loc -> Z) -> Prop) : 0 <= v < n -> first <= h < last -> 0 <= h < w -> Tr V0 D V ->
  (forall V', Tr V0 (box D v (v + 1) h (h + 1)) V' -> Q tt V') ->
  wp (let! a := read (src, at_ w v h) in write (dest, at_ w h v) a ;!
      let! a := read (src, at_ w v h + 1) in write (dest, at_ w h v + 1) a) V Q.
Proof.
  intros Hv Hh Hhw H HQ. destruct (Hsrc v h 0) as [S1 S2]; [lia..|]. destruct (Hsrc v h 1) as [S3 S4]; [lia..|].
  destruct (Hdest h v 0) as [D1 D2]; [lia..|]. destruct (Hdest h v 1) as [D3 D4]; [lia..|].
  pose proof (Put_elem dest w Hw (fun r c b => V0 (src, at_ w c r + b)) V0 D V h v ltac:(lia) H) as H2. cbv beta in H2.
  pose proof (Put_other dest w _ V0 D V src v h 0 H Hsd Hhw ltac:(lia)) as E. rewrite Z.add_0_r in *.
  apply wps_bind, wps_read; [done|by right|]. apply wps_bind, wps_write; [done..|].
  apply wps_bind, wps_read; [done|by right|]. apply wps_write; [done..|]. apply HQ.
  rewrite fn_lookup_insert_ne by congruence. rewrite E, (Put_other dest w _ V0 D V src v h 1 H) by (lia || done). exact H2.
Qed.

Lemma copy_block_ok V0 D V v_off h_off bs (Q : unit -> (loc -> Z) -> Prop) :
  0 <= bs -> 0 <= v_off -> v_off + bs <= n -> first <= h_off -> h_off + bs <= last -> 0 <= first -> last <= w -> Tr V0 D V ->
  (forall V', Tr V0 (box D v_off (v_off + bs) h_off (h_off + bs)) V' -> Q tt V') ->
  wp (copy_block src dest w v_off h_off bs) V Q.
Proof.
  intros Hbs Hv Hvn Hh Hhl Hf Hl H HQ. unfold copy_block.
  apply (wps_for _ _ _ (fun i _ V => Tr V0 (box D v_off (v_off + i) h_off (h_off + bs)) V)); [lia| | |].
  - eapply Put_ext; [exact H|]. intros r c. unfold box. lia.
  - intros i [] V1 Hi H1.
    apply (wps_for _ _ _ (fun j _ V => Tr V0 (box (box D v_off (v_off + i) h_off (h_off + bs)) (v_off + i) (v_off + i + 1) h_off (h_off + j)) V)); [lia| | |].
    + eapply Put_ext; [exact H1|]. intros r c. unfold box. lia.
    + intros j [] V2 Hj H2. eapply copy_elem_ok; [lia|lia|lia|exact H2|]. intros V3 H3. eapply Put_ext; [exact H3|]. intros r c. unfold box. lia.
    + intros [] V2 H2. eapply Put_ext; [exact H2|]. intros r c. unfold box. lia.
  - intros [] V1 H1. by apply HQ.
Qed.

Lemma copy_patch_ok V0 D V rows nb bs l (Q : unit -> (loc -> Z) -> Prop) :
  0 < nb -> 0 < bs -> nb * bs = rows -> 0 <= l -> (l + 1) * rows <= n -> last = first + rows -> 0 <= first -> last <= w -> Tr V0 D V ->
  (forall V', Tr V0 (box D (l * rows) ((l + 1) * rows) first last) V' -> Q tt V') ->
  wp (copy_patch src dest w rows first nb bs l) V Q.
Proof.
  intros Hnb Hbs Hrows Hl Hln Hlast Hf Hlw H HQ. unfold copy_patch. apply wps_bind.
  apply (wps_for _ _ _ (fun k v V => v = l * rows + k * bs /\ Tr V0 (box D (l * rows) v first last) V)); [lia| | |].
  - split; [lia|]. eapply Put_ext; [exact H|]. intros r c. unfold box. lia.
  - intros k v V1 Hk [-> H1]. set (v := l * rows + k * bs) in *. assert (l * rows <= v /\ v + bs <= (l + 1) * rows) as Hv by nia. apply wps_bind.
    apply (wps_for _ _ _ (fun j h V => h = first + j * bs /\ Tr V0 (box (box D (l * rows) v first last) v (v + bs) first h) V)); [lia| | |].
    + split; [lia|]. eapply Put_ext; [exact H1|]. intros r c. unfold box. lia.
    + intros j h V2 Hj [-> H2]. set (h := first + j * bs) in *. assert (first <= h /\ h + bs <= last) as Hh by nia. apply wps_bind.
      eapply copy_block_ok; [lia|nia|nia|lia|lia|lia|lia|exact H2|]. intros V3 H3. apply wps_ret. split; [lia|].
      eapply Put_ext; [exact H3|]. intros r c. unfold box. lia.
    + intros h V2 [-> H2]. apply wps_ret. split; [lia|]. eapply Put_ext; [exact H2|]. intros r c. unfold box.
      replace (first + nb * bs) with last by lia. lia.
  - intros v V1 [-> H1]. apply wps_ret. apply HQ. by replace (l * rows + nb * bs) with ((l + 1) * rows) in H1 by lia.
Qed.
End Transpose.

(** ** The number and the size of the blocks *)

(** What [Transpose] makes of the number of rows. *)
Definition blocks (lines rows : Z) : Z :=
  let nb := Z.quot (2 * rows) lines in if negb (nb * lines =? 2 * rows) then nb + 1 else nb.

(** Powers of two always fit. *)
Lemma blocks_fit (c r : nat) : (1 <= c)%nat ->
  0 < blocks (2 ^ Z.of_nat c) (2 ^ Z.of_nat r) /\ (blocks (2 ^ Z.of_nat c) (2 ^ Z.of_nat r) | 2 ^ Z.of_nat r).
Proof.
  intros Hc. unfold blocks. rewrite <- Z.pow_succ_r by lia. assert (forall k, 0 < 2 ^ Z.of_nat k) as Hp by (intros; apply Z.pow_pos_nonneg; lia).
  pose proof (Hp c). pose proof (Hp r). replace (Z.succ (Z.of_nat r)) with (Z.of_nat (S r)) by lia. pose proof (Hp (S r)).
  destruct (decide (c <= S r)%nat) as [Hle|Hgt].
  - assert (2 ^ Z.of_nat (S r) = 2 ^ Z.of_nat (S r - c) * 2 ^ Z.of_nat c) as E by (rewrite <- Z.pow_add_r by lia; f_equal; lia).
    rewrite E, Z.quot_mul, Z.eqb_refl by lia. simpl. split; [apply Hp|]. exists (2 ^ Z.of_nat (c - 1)). rewrite <- Z.pow_add_r by lia. f_equal. lia.
  - assert (2 ^ Z.of_nat (S r) < 2 ^ Z.of_nat c) by (apply Z.pow_lt_mono_r; lia).
    rewrite Z.quot_small by lia. destruct (Z.eqb_spec (0 * 2 ^ Z.of_nat c) (2 ^ Z.of_nat (S r))); [lia|]. simpl. split; [lia|]. apply Z.divide_1_l.
Qed.

Lemma Transpose_ok (G : globals) own kn src dest n w t rows V (Q : unit -> (loc -> Z) -> Prop) :
  src <> dest -> 0 < P G -> 0 <= t < P G -> 0 < rows -> n = P G * rows -> w = n + pad_length G -> 0 <= pad_length G ->
  0 < num_cache_lines G -> 0 < blocks (num_cache_lines G) rows -> (blocks (num_cache_lines G) rows | rows) ->
  (forall v h b, 0 <= v < n -> t * rows <= h < (t + 1) * rows -> b = 0 \/ b = 1 -> valid G (src, at_ w v h + b) = true /\ kn (src, at_ w v h + b)) ->
  (forall h v b, t * rows <= h < (t + 1) * rows -> 0 <= v < n -> b = 0 \/ b = 1 -> valid G (dest, at_ w h v + b) = true /\ own (dest, at_ w h v + b) = true) ->
  (forall V', Tr src dest w V (fun r c => (t * rows <=? r) && (r <? (t + 1) * rows) && (0 <=? c) && (c <? n)) V' -> Q tt V') ->
  wps (valid G) own kn (Transpose G n src dest t (t * rows) ((t + 1) * rows)) V Q.
Proof.
  intros Hsd HP Ht Hrows Hn Hw Hpad Hlines Hnb [bs Hbs] Hsrc Hdest HQ. unfold Transpose.
  replace ((t + 1) * rows - t * rows) with rows by lia. unfold quot_. destruct (Z.eqb_spec (num_cache_lines G) 0); [lia|].
  apply wps_bind. eapply wps_opt; [done|]. fold (blocks (num_cache_lines G) rows). set (nb := blocks (num_cache_lines G) rows) in *.
  destruct (Z.eqb_spec nb 0); [lia|]. apply wps_bind. eapply wps_opt; [done|].
  assert (Z.quot rows nb = bs) as -> by (rewrite Hbs, Z.quot_mul by lia; done). rewrite <- Hw.
  assert (Z.quot n (P G) = rows) as -> by (rewrite Hn, Z.mul_comm, Z.quot_mul by lia; done).
  assert ((t + 1) * rows <= n) by nia. assert (0 < bs) by nia.
  assert (forall D l V1 (Q1 : unit -> (loc -> Z) -> Prop), 0 <= l < P G -> Tr src dest w V D V1 ->
    (forall V', Tr src dest w V (box D (l * rows) ((l + 1) * rows) (t * rows) ((t + 1) * rows)) V' -> Q1 tt V') ->
    wps (valid G) own kn (copy_patch src dest w rows (t * rows) nb bs l) V1 Q1) as Hpatch.
  { intros D l V1 Q1 Hl H1 HQ1. eapply (copy_patch_ok G own kn src dest Hsd n w); [done|done|lia|nia|done|done|lia|lia|nia|lia|nia|lia|exact H1|done]. }
  apply wps_bind. apply (wps_for _ _ _ (fun l _ => Tr src dest w V (box (fun _ _ => false) ((t + 1) * rows) (l * rows) (t * rows) ((t + 1) * rows)))); [lia| | |].
  { eapply Put_ext; [apply Put_refl|]. intros r c. unfold box. nia. }
  { intros l [] V1 Hl H1. eapply Hpatch; [lia|exact H1|]. intros V2 H2. eapply Put_ext; [exact H2|]. intros r c. unfold box. nia. }
  intros [] V1 H1. apply wps_bind.
  apply (wps_for _ _ _ (fun l _ => Tr src dest w V (box (box (fun _ _ => false) ((t + 1) * rows) (P G * rows) (t * rows) ((t + 1) * rows)) 0 (l * rows) (t * rows) ((t + 1) * rows)))); [lia| | |].
  { eapply Put_ext; [exact H1|]. intros r c. unfold box. lia. }
  { intros l [] V2 Hl H2. eapply Hpatch; [lia|exact H2|]. intros V3 H3. eapply Put_ext; [exact H3|]. intros r c. unfold box. nia. }
  intros [] V2 H2. eapply Hpatch; [lia|exact H2|]. intros V3 H3. apply HQ. eapply Put_ext; [exact H3|]. intros r c. unfold box. nia.
Qed.

(** With one cache line the blocks have no rows, and nothing is copied. *)
Lemma one_cache_line (G : globals) own kn src dest n t rows V (Q : unit -> (loc -> Z) -> Prop) :
  num_cache_lines G = 1 -> 0 < P G -> 0 <= t < P G -> 0 < rows -> Q tt V ->
  wps (valid G) own kn (Transpose G n src dest t (t * rows) ((t + 1) * rows)) V Q.
Proof.
  intros Hl HP Ht Hrows HQ. unfold Transpose. replace ((t + 1) * rows - t * rows) with rows by lia. rewrite Hl.
  apply wps_bind. eapply wps_opt; [done|]. rewrite Z.quot_1_r, Z.mul_1_r, Z.eqb_refl. cbn [negb].
  unfold quot_. destruct (Z.eqb_spec (2 * rows) 0); [lia|]. apply wps_bind. eapply wps_opt; [done|]. rewrite (Z.quot_small rows (2 * rows)) by lia.
  assert (forall l (Q1 : unit -> (loc -> Z) -> Prop), Q1 tt V ->
    wps (valid G) own kn (copy_patch src dest (n + pad_length G) (Z.quot n (P G)) (t * rows) (2 * rows) 0 l) V Q1) as Hpatch.
  { intros l Q1 HQ1. unfold copy_patch. apply wps_bind. apply (wps_for _ _ _ (fun _ _ V' => V' = V)); [lia|done| |by intros s ? ->].
    intros k v ? _ ->. apply wps_bind. apply (wps_for _ _ _ (fun _ _ V' => V' = V)); [lia|done| |by intros s ? ->].
    intros j h ? _ ->. done. }
  apply wps_bind. apply (wps_for _ _ _ (fun _ _ V' => V' = V)); [lia|done|by intros l [] ? _ ->; apply Hpatch|]. intros [] ? ->.
  apply wps_bind. apply (wps_for _ _ _ (fun _ _ V' => V' = V)); [lia|done|by intros l [] ? _ ->; apply Hpatch|]. intros [] ? ->.
  by apply Hpatch.
Qed.
End FftTranspose.
