(* ===== verification/FftMain.v ===== *)
(** * FftMain: the transform by all threads

    The phases of [FFT1D] as functions on matrices ([six_step]), and that every
    execution of the threads computes them: a thread works on its own rows, and
    between two barriers reads other rows only of the array that nobody writes. *)

From stdpp Require Import base list option functions.
From Stdlib Require Import ZifyBool.
From S2P Require Import Prelude Phases PhaseScript Doubles Fft FftRow FftTranspose.
Local Open Scope Z_scope.

Module FftMain.
Import Fft FftRow FftTranspose.

(** ** The transform of a matrix *)

Section Directions.
Context {V : Type} (F : arith V) (of_long : Z -> V) (N d : Z).
(** The imaginary part of the roots is negated in the other direction, *)
Definition toward (z : V * V) : V * V := (z.1, fmul F (of_long d) z.2).
(** and the result is divided. *)
Definition scaled (z : V * V) : V * V := if d =? -1 then (fdiv F z.1 (of_long N), fdiv F z.2 (of_long N)) else z.
End Directions.

Section SixStep.
Context {V : Type} (F : arith V) (w : Z -> V * V) (tw : Z -> Z -> V * V) (fin : V * V -> V * V) (m : nat).
Definition columns_transformed (X : Z -> Z -> V * V) (r c : Z) : V * V := product F (tw r c) (fft_row F w m (fun i => X i r) c).
Definition rows_transformed (Y : Z -> Z -> V * V) (r c : Z) : V * V := fin (fft_row F w m (fun i => Y i r) c).
Definition six_step (X : Z -> Z -> V * V) (r c : Z) : V * V := rows_transformed (columns_transformed X) c r.
End SixStep.

(** The root number [e] of [umain], when [root k n] is the [k]th [n]th root. *)
Definition unity {V} (root : Z -> Z -> V * V) (e : Z) : V * V :=
  let q := Z.log2 (e + 1) in root (e + 1 - 2 ^ q) (2 * 2 ^ q).
Lemma unity_at {V} (root : Z -> Z -> V * V) q j : 0 <= q -> 0 <= j < 2 ^ q -> unity root (2 ^ q - 1 + j) = root j (2 * 2 ^ q).
Proof.
  intros Hq Hj. unfold unity. replace (2 ^ q - 1 + j + 1) with (2 ^ q + j) by lia.
  assert (Z.log2 (2 ^ q + j) = q) as -> by (apply Z.log2_unique; [lia|]; rewrite Z.pow_succ_r by lia; lia). f_equal. lia.
Qed.
(** The transform in direction [d], with the tables [main] makes. *)
Definition dft_matrix {V} (F : arith V) (of_long : Z -> V) (root : Z -> Z -> V * V) (root2 : Z -> Z -> Z -> V * V)
    (N : Z) (m : nat) (d : Z) : (Z -> Z -> V * V) -> Z -> Z -> V * V :=
  six_step F (fun e => toward F of_long d (unity root e)) (fun r c => toward F of_long d (root2 c r N)) (scaled F of_long N d) m.

(** ** Matrices in memory *)

Section Matrices.
Context (n w : Z) (Hn : 0 < n) (Hnw : n <= w).

(** The memory [W] with the matrix [f] in [a]. *)
Definition in_mat (a : arr) (l : loc) : bool :=
  bool_decide (l.1 = a) && (0 <=? row_of w l.2) && (row_of w l.2 <? n) && (col_of w l.2 <? n).
Definition mat_mem (a : arr) (f : Z -> Z -> Z * Z) (W : loc -> Z) (l : loc) : Z :=
  if in_mat a l then raw (f (row_of w l.2)) (2 * col_of w l.2 + l.2 mod 2) else W l.
Definition mat (W : loc -> Z) (a : arr) (r c : Z) : Z * Z := (W (a, at_ w r c), W (a, at_ w r c + 1)).

Lemma in_mat_at a r c b : 0 <= c < w -> b = 0 \/ b = 1 -> in_mat a (a, at_ w r c + b) = (0 <=? r) && (r <? n) && (c <? n).
Proof. intros Hc Hb. unfold in_mat. simpl. rewrite at_row, at_col by lia. by rewrite bool_decide_true. Qed.
Lemma mat_mem_at a f W r c b : 0 <= r < n -> 0 <= c < n -> b = 0 \/ b = 1 ->
  mat_mem a f W (a, at_ w r c + b) = raw (f r) (2 * c + b).
Proof.
  intros Hr Hc Hb. unfold mat_mem. rewrite in_mat_at by lia. replace ((0 <=? r) && (r <? n) && (c <? n)) with true by lia. simpl.
  rewrite at_row, at_col, at_bit by lia. done.
Qed.
Lemma mat_mem_other a f W l : l.1 <> a -> mat_mem a f W l = W l.
Proof. intros H. unfold mat_mem, in_mat. by rewrite bool_decide_false. Qed.
Lemma mat_of_mem a f W r c : 0 <= r < n -> 0 <= c < n -> mat (mat_mem a f W) a r c = f r c.
Proof.
  intros Hr Hc. unfold mat. pose proof (mat_mem_at a f W r c 0 Hr Hc ltac:(lia)) as E0. rewrite !Z.add_0_r in E0.
  rewrite E0, mat_mem_at, raw_re, raw_im by lia. by destruct (f r c).
Qed.
Lemma mat_of_other a a' f W r c : a <> a' -> mat (mat_mem a f W) a' r c = mat W a' r c.
Proof. intros H. unfold mat. by rewrite !mat_mem_other by (simpl; congruence). Qed.
Lemma mat_mem_ext W W' a r c : (forall l, W l = W' l) -> mat W a r c = mat W' a r c.
Proof. intros H. unfold mat. by rewrite !H. Qed.
End Matrices.

(** ** The threads *)

Section Threads.
Context (F : arith Z) (of_long : Z -> Z) (G : globals) (m p : nat).
Local Abbreviation n := (2 ^ Z.of_nat m).
Local Abbreviation w := (n + pad_length G).
Local Abbreviation rows := (2 ^ Z.of_nat (m - p)).
(** What [main] has set up, and that the blocks of [Transpose] fit. *)
Record sizes_ok : Prop := {
  so_p : (p <= m)%nat; so_P : P G = 2 ^ Z.of_nat p; so_M : M G = 2 * Z.of_nat m; so_N : N G = n * n; so_rootN : rootN G = n;
  so_pad : 0 <= pad_length G; so_lines : 0 < num_cache_lines G;
  so_blocks : 0 < blocks (num_cache_lines G) rows; so_fit : (blocks (num_cache_lines G) rows | rows) }.
Hypothesis OK : sizes_ok.

Lemma n_pos : 0 < n.
Proof. apply Z.pow_pos_nonneg; lia. Qed.
Lemma rows_pos : 0 < rows.
Proof. apply Z.pow_pos_nonneg; lia. Qed.
Lemma P_pos : 0 < P G.
Proof. rewrite (so_P OK). apply Z.pow_pos_nonneg; lia. Qed.
Lemma n_rows : n = P G * rows.
Proof. rewrite (so_P OK), <- Z.pow_add_r by lia. f_equal. pose proof (so_p OK). lia. Qed.
Lemma w_ok : n <= w.
Proof. pose proof (so_pad OK). lia. Qed.
Local Hint Resolve n_pos rows_pos P_pos w_ok : core.

(** The elements of thread [t] in the array [a]. *)
Definition mine (a : arr) (t : nat) (l : loc) : bool :=
  bool_decide (l.1 = a) && (row_of w l.2 / rows =? Z.of_nat t) && (col_of w l.2 <? n).

Lemma mine_row (t : nat) r : Z.of_nat t * rows <= r < (Z.of_nat t + 1) * rows <-> r / rows = Z.of_nat t.
Proof.
  pose proof rows_pos. split.
  - intros Hr. symmetry. apply (Z.div_unique _ _ _ (r - Z.of_nat t * rows)); lia.
  - intros E. pose proof (Z.div_mod r rows ltac:(lia)). pose proof (Z.mod_pos_bound r rows ltac:(lia)). rewrite E in *. lia.
Qed.
Lemma mine_in_n (t : nat) r : Z.of_nat t < P G -> Z.of_nat t * rows <= r < (Z.of_nat t + 1) * rows -> 0 <= r < n.
Proof. intros Ht Hr. rewrite n_rows. pose proof rows_pos. nia. Qed.
Lemma mine_at a t r c b : Z.of_nat t * rows <= r < (Z.of_nat t + 1) * rows -> 0 <= c < n -> b = 0 \/ b = 1 -> mine a t (a, at_ w r c + b) = true.
Proof.
  intros Hr%mine_row Hc Hb. unfold mine. simpl. pose proof w_ok. rewrite at_row, at_col by lia. rewrite bool_decide_true by done. lia.
Qed.
Lemma mine_inv a t l : mine a t l = true -> exists r c b, l = (a, at_ w r c + b) /\
  Z.of_nat t * rows <= r < (Z.of_nat t + 1) * rows /\ 0 <= c < n /\ (b = 0 \/ b = 1).
Proof.
  intros H. unfold mine in H. apply andb_prop in H as [[Ha Hr]%andb_prop Hc]. apply bool_decide_eq_true in Ha.
  exists (row_of w l.2), (col_of w l.2), (l.2 mod 2). pose proof w_ok. pose proof n_pos. split_and!.
  - destruct l as [a' i]. simpl in *. subst. f_equal. apply at_split. lia.
  - apply mine_row. lia.
  - apply mine_row. lia.
  - pose proof (col_range w ltac:(lia) l.2). lia.
  - lia.
  - pose proof (Z.mod_pos_bound l.2 2). lia.
Qed.
Lemma valid_at a r c b : a <> AU -> 0 <= r < n -> 0 <= c < n -> b = 0 \/ b = 1 -> valid G (a, at_ w r c + b) = true.
Proof.
  intros Ha Hr Hc Hb. unfold valid, at_. simpl. assert (capacity G a = 2 * (n * n + n * pad_length G)) as ->.
  { unfold capacity. rewrite (so_N OK), (so_rootN OK). by destruct a. }
  pose proof (so_pad OK). assert (r * (n + pad_length G) <= (n - 1) * (n + pad_length G)) by nia. apply andb_true_intro. split; [nia|]. apply Z.ltb_lt. nia.
Qed.
Lemma valid_u i : 0 <= i < 2 * n -> valid G (AU, i) = true.
Proof. intros Hi. unfold valid. simpl. rewrite (so_rootN OK). lia. Qed.

(** *** Work on the thread's rows *)

Section Mine.
Context (t : nat) (Ht : Z.of_nat t < P G) (a : arr) (Ha : a <> AU) (kn : loc -> Prop).
Local Abbreviation own := (mine a t).
Local Abbreviation first := (Z.of_nat t * rows).
Local Abbreviation last := ((Z.of_nat t + 1) * rows).
Local Abbreviation wp := (wps (valid G) own kn).

(** The memory [W] where the thread's rows of [a] are those of [f]. *)
Definition Mt (W : loc -> Z) (f : Z -> Z -> Z * Z) (V : loc -> Z) : Prop :=
  forall l, V l = if own l then raw (f (row_of w l.2)) (2 * col_of w l.2 + l.2 mod 2) else W l.

Lemma Mt_at W f V r c b : Mt W f V -> first <= r < last -> 0 <= c < n -> b = 0 \/ b = 1 -> V (a, at_ w r c + b) = raw (f r) (2 * c + b).
Proof.
  intros H Hr Hc Hb. rewrite H, mine_at by done. simpl. pose proof w_ok. by rewrite at_row, at_col, at_bit by lia.
Qed.
Lemma Mt_ext W f g V : Mt W f V -> (forall r c, first <= r < last -> 0 <= c < n -> f r c = g r c) -> Mt W g V.
Proof.
  intros H He l. rewrite H. destruct (own l) eqn:El; [|done]. apply mine_inv in El as (r & c & b & -> & Hr & Hc & Hb).
  simpl. pose proof w_ok. rewrite at_row, at_col by lia. apply (raw_ext _ _ n); [|rewrite at_bit by lia; lia]. intros j Hj. by apply He.
Qed.

(** A row, at the place where [row j] points. *)
Lemma row_place r i : first <= r < last -> 0 <= i < 2 * n -> exists c b, 2 * r * w + i = at_ w r c + b /\ 0 <= c < n /\ (b = 0 \/ b = 1) /\ i = 2 * c + b.
Proof.
  intros Hr Hi. destruct (even_odd i) as [c Hc]. exists c, (i - 2 * c). unfold at_. split_and!; lia.
Qed.
Lemma row_mine r i : first <= r < last -> 0 <= i < 2 * n -> valid G (a, 2 * r * w + i) = true /\ own (a, 2 * r * w + i) = true.
Proof.
  intros Hr Hi. destruct (row_place r i Hr Hi) as (c & b & -> & Hc & Hb & _). split; [|by apply mine_at].
  apply valid_at; [done| |done|done]. by apply (mine_in_n t).
Qed.
Lemma Mt_row W f V r : Mt W f V -> first <= r < last -> Rw a (2 * r * w) m V (raw (f r)) V.
Proof.
  intros H Hr l. unfold row_set. destruct (in_row a (2 * r * w) m l) eqn:El; [|done].
  unfold in_row in El. apply andb_prop in El as [El%bool_decide_eq_true Hl]. destruct l as [a' i]. simpl in *. subst a'.
  destruct (row_place r (i - 2 * r * w) Hr ltac:(lia)) as (c & b & Ei & Hc & Hb & Ec). rewrite Ec.
  replace i with (at_ w r c + b) by lia. by apply Mt_at with W.
Qed.
Lemma row_Mt W f V V' r g : Mt W f V -> first <= r < last -> Rw a (2 * r * w) m V (raw g) V' ->
  Mt W (fun r' => if r' =? r then g else f r') V'.
Proof.
  intros H Hr H' l. rewrite H'. unfold row_set. destruct (own l) eqn:El.
  - apply mine_inv in El as (r' & c & b & -> & Hr' & Hc & Hb). simpl. pose proof w_ok. rewrite at_row, at_col, at_bit by lia.
    destruct (Z.eqb_spec r' r) as [->|Hne].
    + replace (at_ w r c + b) with (2 * r * w + (2 * c + b)) by (unfold at_; lia). rewrite in_row_at.
      replace ((0 <=? 2 * c + b) && (2 * c + b <? 2 * n)) with true by lia. f_equal. lia.
    + replace (in_row a (2 * r * w) m (a, at_ w r' c + b)) with false; [by apply Mt_at with W|].
      symmetry. unfold in_row. simpl. rewrite bool_decide_true by done. simpl. unfold at_. assert (r' * w + w <= r * w \/ r * w + w <= r' * w) by nia. lia.
  - destruct (in_row a (2 * r * w) m l) eqn:Ei; [|rewrite H, El; done]. exfalso.
    unfold in_row in Ei. apply andb_prop in Ei as [Ea%bool_decide_eq_true Hl]. destruct l as [a' i]. simpl in *. subst a'.
    destruct (row_mine r (i - 2 * r * w) Hr ltac:(lia)) as [_ Hm]. replace (2 * r * w + (i - 2 * r * w)) with i in Hm by lia. congruence.
Qed.

(** A loop over the thread's rows. *)
Lemma wp_rows W f g (body : Z -> thread unit) V (Q : unit -> (loc -> Z) -> Prop) :
  Mt W f V ->
  (forall r V f', first <= r < last -> (forall c, 0 <= c < n -> f' r c = f r c) -> Mt W f' V ->
     wp (body r) V (fun _ V' => exists h, (forall c, 0 <= c < n -> h c = g r c) /\ Rw a (2 * r * w) m V (raw h) V')) ->
  (forall V', Mt W g V' -> Q tt V') ->
  wp (for_ first last tt (fun j _ => body j)) V Q.
Proof.
  intros H Hb HQ. pose proof rows_pos.
  apply (wps_for _ _ _ (fun r _ V => Mt W (fun r' => if r' <? r then g r' else f r') V)); [lia| | |].
  - eapply Mt_ext; [exact H|]. intros r c Hr Hc. by replace (r <? first) with false by lia.
  - intros r [] V1 Hr H1. eapply wps_mono; [|refine (Hb r V1 _ Hr _ H1)].
    + intros [] V2 (h & Hh & H2). eapply Mt_ext; [exact (row_Mt _ _ _ _ _ _ H1 Hr H2)|]. intros r' c Hr' Hc. cbv beta.
      destruct (Z.eqb_spec r' r) as [->|]; [replace (r <? r + 1) with true by lia; by apply Hh|].
      destruct (Z.ltb_spec r' r), (Z.ltb_spec r' (r + 1)); try lia; done.
    + intros c Hc. cbv beta. by rewrite Z.ltb_irrefl.
  - intros [] V1 H1. apply HQ. eapply Mt_ext; [exact H1|]. intros r c Hr Hc. cbv beta. by replace (r <? last) with true by lia.
Qed.

(** Another array of the same shape is transposed into the thread's rows. *)
Lemma wp_transpose W src (Q : unit -> (loc -> Z) -> Prop) :
  src <> a -> src <> AU -> (forall r c b, 0 <= r < n -> 0 <= c < n -> b = 0 \/ b = 1 -> kn (src, at_ w r c + b)) ->
  (forall V', Mt W (fun r c => mat w W src c r) V' -> Q tt V') ->
  wp (Transpose G n src a (Z.of_nat t) first last) W Q.
Proof.
  intros Hs Hsu Hk HQ. pose proof w_ok.
  apply (Transpose_ok G own kn src a n w); [done|done|lia|done|apply n_rows|done|apply (so_pad OK)|apply (so_lines OK)|apply (so_blocks OK)|apply (so_fit OK)| | |].
  - intros v h b Hv Hh Hb. apply (mine_in_n t) in Hh; [|done]. split; [by apply valid_at|by apply Hk].
  - intros h v b Hh Hv Hb. split; [|by apply mine_at]. apply valid_at; [done| |done|done]. by apply (mine_in_n t).
  - intros V' Htr. apply HQ. intros l. destruct l as [a' i]. simpl. revert i. apply (at_elim w); [lia|]. intros r c b Hc Hb. rewrite Htr by done.
    unfold mine. simpl. rewrite at_row, at_col, at_bit by lia. destruct (decide (a' = a)) as [->|Hne]; [|by rewrite !bool_decide_false].
    rewrite bool_decide_true by done. simpl.
    replace ((first <=? r) && (r <? last) && (0 <=? c) && (c <? n)) with ((r / rows =? Z.of_nat t) && (c <? n)).
    2:{ pose proof (mine_row t r). destruct (Z.eqb_spec (r / rows) (Z.of_nat t)); lia. }
    destruct (_ && _); [|done]. destruct Hb as [-> | ->]; [by rewrite !Z.add_0_r, raw_re|by rewrite raw_im].
Qed.
End Mine.

(** *** The phases of [FFT1D] *)

Section Phases.
Context (up : list Z) (uv : Z -> Z) (Hup : vec up (2 * (n - 1)) uv).

Definition twiddles (d : Z) (W : loc -> Z) (r c : Z) : Z * Z := toward F of_long d (mat w W AU2 r c).
Definition quiet (W : loc -> Z) : stretch := Stretch (fun _ _ => false) W.
Definition work (a : arr) (f : Z -> Z -> Z * Z) (W : loc -> Z) : stretch := Stretch (mine a) (mat_mem n w a f W).

(** The memory after the four phases of [FFT1D]. *)
Definition after1 (d : Z) (W : loc -> Z) : loc -> Z :=
  mat_mem n w ATrans (columns_transformed F (roots F of_long d uv) (twiddles d W) m (mat w W AX)) W.
Definition after2 (d : Z) (W : loc -> Z) : loc -> Z :=
  mat_mem n w AX (rows_transformed F (roots F of_long d uv) (scaled F of_long (N G) d) m (mat w W ATrans)) W.
Definition after3 (W : loc -> Z) : loc -> Z := mat_mem n w ATrans (fun r c => mat w W AX c r) W.
Definition copied : bool := test_result G || print_result G.
Definition after4 (W : loc -> Z) : loc -> Z := if copied then mat_mem n w AX (mat w W ATrans) W else W.
Definition script (d : Z) (W : loc -> Z) : list stretch :=
  let W1 := after1 d W in let W2 := after2 d W1 in let W3 := after3 W2 in
  [quiet W; Stretch (mine ATrans) W1; Stretch (mine AX) W2; Stretch (mine ATrans) W3;
   Stretch (fun t l => copied && mine AX t l) (after4 W3)].
Definition transformed (d : Z) (W : loc -> Z) : loc -> Z := after4 (after3 (after2 d (after1 d W))).

Section Thread.
Context (t : nat) (Ht : Z.of_nat t < P G).
Local Abbreviation first := (Z.of_nat t * rows).
Local Abbreviation last := ((Z.of_nat t + 1) * rows).
Local Abbreviation PN := (Z.to_nat (P G)).

Lemma not_mine a t' l : l.1 <> a -> mine a t' l = false.
Proof. intros H. unfold mine. by rewrite bool_decide_false. Qed.
Lemma Mt_mem a W f V l : Mt t a W f V -> mine a t l = true -> V l = mat_mem n w a f W l.
Proof.
  intros H Hl. rewrite H, Hl. unfold mat_mem. replace (in_mat n w a l) with true; [done|]. symmetry.
  apply mine_inv in Hl as (r & c & b & -> & Hr & Hc & Hb). pose proof w_ok. rewrite in_mat_at by lia. pose proof (mine_in_n t r Ht Hr). lia.
Qed.
Lemma Mt_other a W f V l : Mt t a W f V -> l.1 <> a -> V l = W l.
Proof. intros H Hl. by rewrite H, not_mine. Qed.

(** The first half: a column of the matrix is transformed and multiplied. *)
Lemma wp_columns d kn W V f (Q : unit -> (loc -> Z) -> Prop) :
  (forall l, l.1 <> ATrans -> kn l) -> Mt t ATrans W f V ->
  (forall V', Mt t ATrans W (fun r c => product F (twiddles d W r c) (fft_row F (roots F of_long d uv) m (f r) c)) V' -> Q tt V') ->
  wps (valid G) (mine ATrans t) kn (for_ first last tt (fun j _ =>
    FFT1DOnce F of_long d (Z.of_nat m) n up ATrans (2 * j * w) ;! TwiddleOneCol F of_long G d n j ATrans (2 * j * w))) V Q.
Proof.
  intros Hk H HQ. eapply (wp_rows t Ht ATrans ltac:(done) kn W f); [exact H| |exact HQ].
  intros r V1 f' Hr Hf H1. pose proof (mine_in_n t r Ht Hr) as Hrn. apply wps_bind.
  eapply (FFT1DOnce_ok F of_long _ _ _ _ _ m); [by intros i Hi; apply (row_mine t Ht)|exact Hup|by eapply (Mt_row t)|]. intros V2 H2.
  eapply (Twiddle_ok F of_long _ _ _ _ _ m); [by intros i Hi; apply (row_mine t Ht)|done| |exact H2|].
  - intros i b Hi Hb. split; [|by apply Hk]. apply (valid_at AU2 r i b); [done|done|done|lia].
  - intros V3 H3. eexists. split; [|exact H3]. intros c Hc. cbv beta. unfold twiddles, toward, mat, at_. cbn [fst snd].
    rewrite !(Mt_other ATrans W _ V1 _ H1) by done. f_equal. apply fft_row_ext; [|done]. intros e He. by apply Hf.
Qed.

(** The second half: rows are transformed, and divided when going back. *)
Lemma wp_back d kn W V f (Q : unit -> (loc -> Z) -> Prop) :
  Mt t AX W f V ->
  (forall V', Mt t AX W (fun r c => scaled F of_long (N G) d (fft_row F (roots F of_long d uv) m (f r) c)) V' -> Q tt V') ->
  wps (valid G) (mine AX t) kn (for_ first last tt (fun j _ =>
    FFT1DOnce F of_long d (Z.of_nat m) n up AX (2 * j * w) ;!
    (if d =? -1 then Scale F of_long n (N G) AX (2 * j * w) else Ret tt))) V Q.
Proof.
  intros H HQ. eapply (wp_rows t Ht AX ltac:(done) kn W f); [exact H| |exact HQ].
  intros r V1 f' Hr Hf H1. apply wps_bind.
  eapply (FFT1DOnce_ok F of_long _ _ _ _ _ m); [by intros i Hi; apply (row_mine t Ht)|exact Hup|by eapply (Mt_row t)|]. intros V2 H2.
  assert (forall c, 0 <= c < n -> fft_row F (roots F of_long d uv) m (f' r) c = fft_row F (roots F of_long d uv) m (f r) c) as He
    by (apply fft_row_ext; intros e He; by apply Hf).
  unfold scaled. destruct (d =? -1).
  - eapply (Scale_ok F of_long _ _ _ _ _ m); [by intros i Hi; apply (row_mine t Ht)|exact H2|]. intros V3 H3.
    eexists. split; [|exact H3]. intros c Hc. cbv beta. by rewrite He.
  - apply wps_ret. eexists. split; [|exact H2]. done.
Qed.
Lemma wp_copy kn W (Q : unit -> (loc -> Z) -> Prop) :
  (forall l, l.1 <> AX -> kn l) -> (forall V', Mt t AX W (mat w W ATrans) V' -> Q tt V') ->
  wps (valid G) (mine AX t) kn (for_ first last tt (fun j _ => CopyColumn n ATrans (2 * j * w) AX (2 * j * w))) W Q.
Proof.
  intros Hk HQ. assert (Mt t AX W (mat w W AX) W) as H0.
  { intros l. destruct (mine AX t l) eqn:El; [|done]. apply mine_inv in El as (r & c & b & -> & Hr & Hc & Hb). simpl. pose proof w_ok.
    rewrite at_row, at_col, at_bit by lia. destruct Hb as [-> | ->]; [by rewrite !Z.add_0_r, raw_re|by rewrite raw_im]. }
  eapply (wp_rows t Ht AX ltac:(done) kn W); [exact H0| |exact HQ]. intros r V1 f' Hr _ H1. pose proof (mine_in_n t r Ht Hr) as Hrn.
  eapply (CopyColumn_ok _ _ _ _ _ m); [by intros i Hi; apply (row_mine t Ht)|done| |by eapply (Mt_row t)|].
  - intros i Hi. split; [|by apply Hk]. destruct (row_place t r i Hr Hi) as (c & b & -> & Hc & Hb & _). by apply valid_at.
  - intros V2 H2. exists (mat w W ATrans r). split; [done|]. eapply Rw_ext; [exact H2|]. intros i Hi. cbv beta.
    rewrite (Mt_other AX W _ V1 _ H1) by done. destruct (row_place t r i Hr Hi) as (c & b & -> & Hc & Hb & ->).
    destruct Hb as [-> | ->]; [by rewrite !Z.add_0_r, raw_re|by rewrite raw_im].
Qed.

Lemma nobody_other a f l : l.1 <> a -> nobody PN (Stretch (mine a) f) l.
Proof. intros H t' _. by apply not_mine. Qed.
Lemma mine_copied a f l : l.1 <> a -> nobody PN (Stretch (fun t l => copied && mine a t l) f) l.
Proof. intros H t' _. simpl. by rewrite not_mine, andb_false_r. Qed.

Lemma FFT1D_follows d W : follows PN (valid G) start_barrier t W (script d W) (FFT1D F of_long G d up (Z.of_nat t) first last).
Proof.
  assert (Z.quot (M G) 2 = Z.of_nat m) as Em by (rewrite (so_M OK), Z.mul_comm, Z.quot_mul by lia; done).
  unfold FFT1D. rewrite Em, Z.shiftl_1_l. unfold script. set (W1 := after1 d W). set (W2 := after2 d W1). set (W3 := after3 W2).
  cbn [follows st_own st_mem quiet]. split_and!; [done|done|].
  apply wpb_bind, wps_ret, wpb_bind, (wp_transpose t Ht); [done..|by intros; apply nobody_other|]. intros V1 H1.
  apply wpb_bind, (wp_columns d _ W V1 _ _ ltac:(by intros; apply nobody_other) H1). intros V2 H2.
  split_and!; [done|intros l Hl; by apply (Mt_mem ATrans _ _ _ l H2)|].
  apply wpb_bind, wps_ret, wpb_bind, (wp_transpose t Ht); [done..|by intros; apply nobody_other|]. intros V3 H3.
  apply wpb_bind, (wp_back d _ W1 V3 _ _ H3). intros V4 H4.
  split_and!; [done|intros l Hl; by apply (Mt_mem AX _ _ _ l H4)|].
  apply wpb_bind, wps_ret, wpb_bind, (wp_transpose t Ht); [done..|by intros; apply nobody_other|]. intros V5 H5.
  split_and!; [done|intros l Hl; by apply (Mt_mem ATrans _ _ _ l H5)|].
  fold copied. pose proof (mine_copied AX (after4 W3)) as Hkn. unfold after4 in *. destruct copied; simpl in *; [|split_and!; done].
  apply wpb_bind, wp_copy; [by intros; apply Hkn|]. intros V6 H6.
  split_and!; [done|intros l Hl; by apply (Mt_mem AX _ _ _ l H6)|done].
Qed.
End Thread.

(** The script is one of threads that do not meet. *)
Lemma mine_apart a t t' l : mine a t l = true -> mine a t' l = true -> t = t'.
Proof. unfold mine. lia. Qed.
Lemma mine_covers a f W l : (W l = mat_mem n w a f W l /\ forall t, (t < Z.to_nat (P G))%nat -> mine a t l = false) \/
  exists t, (t < Z.to_nat (P G))%nat /\ mine a t l = true.
Proof.
  unfold mat_mem. destruct (in_mat n w a l) eqn:El.
  - right. unfold in_mat in El. unfold mine. pose proof P_pos. pose proof rows_pos.
    assert (0 <= row_of w l.2 / rows < P G) by (split; [apply Z.div_pos; lia|apply Z.div_lt_upper_bound; [lia|]; rewrite Z.mul_comm, <- n_rows; lia]).
    exists (Z.to_nat (row_of w l.2 / rows)). lia.
  - left. split; [done|]. intros t Ht. apply not_true_iff_false. intros (r & c & b & -> & Hr & Hc & Hb)%mine_inv.
    pose proof w_ok. rewrite in_mat_at in El by lia. pose proof (mine_in_n t r ltac:(lia) Hr). lia.
Qed.
Lemma script_coherent d W : coherent (Z.to_nat (P G)) W (script d W).
Proof.
  cbn [script coherent]. unfold quiet. cbn [st_own st_mem]. unfold nobody. cbn [st_own].
  split_and!; try done; try (intros t t' l _ _; apply mine_apart); try (intros l; apply mine_covers).
  - intros l. by left.
  - intros t t' l _ _. destruct copied; [apply mine_apart|done].
  - intros l. unfold after4. destruct copied; simpl; [apply mine_covers|by left].
Qed.

(** What [transformed] leaves in the arrays. *)
Lemma six_step_range d W r c : 0 <= r < n -> 0 <= c < n -> mat w (after3 (after2 d (after1 d W))) ATrans r c =
  six_step F (roots F of_long d uv) (twiddles d W) (scaled F of_long (N G) d) m (mat w W AX) r c.
Proof.
  intros Hr Hc. pose proof w_ok. unfold after3, after2. rewrite mat_of_mem, mat_of_mem by done. unfold six_step, rows_transformed. f_equal.
  apply fft_row_ext; [|done]. intros e He. unfold after1. by rewrite mat_of_mem.
Qed.
Lemma transformed_trans d W r c : 0 <= r < n -> 0 <= c < n -> mat w (transformed d W) ATrans r c =
  six_step F (roots F of_long d uv) (twiddles d W) (scaled F of_long (N G) d) m (mat w W AX) r c.
Proof.
  intros Hr Hc. unfold transformed, after4. destruct copied; [|by apply six_step_range]. rewrite mat_of_other by done. by apply six_step_range.
Qed.
Lemma transformed_x d W r c : copied = true -> 0 <= r < n -> 0 <= c < n -> mat w (transformed d W) AX r c =
  six_step F (roots F of_long d uv) (twiddles d W) (scaled F of_long (N G) d) m (mat w W AX) r c.
Proof. intros E Hr Hc. pose proof w_ok. unfold transformed, after4. rewrite E, mat_of_mem by done. by apply six_step_range. Qed.
Lemma transformed_u2 d W r c : mat w (transformed d W) AU2 r c = mat w W AU2 r c.
Proof.
  unfold transformed, after4, after3, after2, after1. destruct copied; by rewrite !mat_of_other.
Qed.
End Phases.

(** *** The whole program of a thread *)

Definition whole_script (uv : Z -> Z) (W : loc -> Z) : list stretch :=
  [quiet W; quiet W] ++ script uv 1 W ++ (if test_result G then script uv (-1) (transformed uv 1 W) else []).

Lemma TouchArray_ok zero up uv first last (kn : loc -> Prop) own V (Q : Z -> (loc -> Z) -> Prop) :
  vec up (2 * (n - 1)) uv -> 0 <= first <= last -> last <= n -> (forall l, kn l) -> (forall x, Q x V) ->
  wps (valid G) own kn (TouchArray F G zero up first last) V Q.
Proof.
  intros Hup Hf Hl Hk HQ. unfold TouchArray. rewrite (so_rootN OK). pose proof n_pos. apply wps_bind.
  apply (wps_for _ _ _ (fun _ _ V' => V' = V)); [lia|done| |].
  { intros i tot V1 Hi ->. apply wps_bind. eapply wps_opt; [by apply Hup|]. done. }
  intros tot V1 ->. apply (wps_for _ _ _ (fun _ _ V' => V' = V)); [lia|done| |by intros s V1 ->].
  intros j tot1 V1 Hj ->. apply (wps_for _ _ _ (fun _ _ V' => V' = V)); [lia|done| |done].
  intros i tot2 V1 Hi ->.
  assert (forall a b, a <> AU -> b = 0 \/ b = 1 -> valid G (a, at_ w j i + b) = true) as Hv by (intros; apply valid_at; lia || done).
  unfold at_ in Hv. pose proof (fun a Ha => Hv a 0 Ha ltac:(lia)) as Hv0. setoid_rewrite Z.add_0_r in Hv0.
  repeat (apply wps_bind, wps_read; [first [by apply Hv0|apply Hv; [done|lia]]|by right|]). done.
Qed.

Lemma SlaveStart_follows zero up W t : zlen up = 2 * (n - 1) -> Z.of_nat t < P G ->
  follows (Z.to_nat (P G)) (valid G) start_barrier t W (whole_script (fun i => W (AU, i)) W) (SlaveStart F of_long G zero up (Z.of_nat t)).
Proof.
  intros Hlen Ht. unfold SlaveStart, whole_script. pose proof n_pos. pose proof rows_pos. pose proof P_pos.
  assert (Z.quot (rootN G * Z.of_nat t) (P G) = Z.of_nat t * rows) as ->.
  { rewrite (so_rootN OK), n_rows. replace (P G * rows * Z.of_nat t) with (Z.of_nat t * rows * P G) by lia. by rewrite Z.quot_mul by lia. }
  assert (Z.quot (rootN G * (Z.of_nat t + 1)) (P G) = (Z.of_nat t + 1) * rows) as ->.
  { rewrite (so_rootN OK), n_rows. replace (P G * rows * (Z.of_nat t + 1)) with ((Z.of_nat t + 1) * rows * P G) by lia. by rewrite Z.quot_mul by lia. }
  rewrite (so_rootN OK). cbn [follows app quiet st_own st_mem]. split_and!; [done|done|].
  set (uv := fun i => W (AU, i)). apply wpb_bind, wps_ret, wpb_bind.
  apply (wps_for _ _ _ (fun i s V => V = W /\ zlen s = 2 * (n - 1) /\ forall k, 0 <= k < i -> znth s k = Some (uv k))); [lia|split_and!; [done|done|intros; lia]| |].
  { intros i s V Hi (-> & Hs & Hk). apply wps_bind, wps_read; [apply valid_u; lia|by right|].
    destruct (zset s i (W (AU, i))) as [s'|] eqn:Es; [|rewrite zset_Some in Es by lia; done]. eapply wps_opt; [done|].
    split_and!; [done|by rewrite (zset_length _ _ _ _ Es)|]. intros k Hki. rewrite (znth_zset _ _ _ _ k Es).
    destruct (Z.eqb_spec k i) as [->|]; [done|apply Hk; lia]. }
  intros s V (-> & Hs & Hk). assert (vec s (2 * (n - 1)) uv) as Hvec by (split; [done|exact Hk]).
  apply wpb_bind. apply (TouchArray_ok zero s uv); [done|nia|rewrite n_rows; nia|done|]. intros tot. split_and!; [done|done|].
  apply (follows_bind _ _ _ t W (script uv 1 W) _ (FFT1D F of_long G 1 s (Z.of_nat t) (Z.of_nat t * rows) ((Z.of_nat t + 1) * rows)));
    [by apply FFT1D_follows|]. destruct (test_result G); [|done].
  by apply (FFT1D_follows s uv Hvec).
Qed.

Lemma whole_coherent uv W : coherent (Z.to_nat (P G)) W (whole_script uv W).
Proof.
  unfold whole_script. apply (coherent_app _ _ [quiet W; quiet W]); [cbn [coherent quiet st_own st_mem]; split_and!; done || (intros; by left)|].
  cbn [final quiet st_mem]. apply coherent_app; [apply script_coherent|]. destruct (test_result G); [apply script_coherent|done].
Qed.

Lemma fft_ends zero up W : (forall t, (t < Z.to_nat (P G))%nat -> zlen (up t) = 2 * (n - 1)) ->
  ends (Z.to_nat (P G)) (valid G) (fun _ => false)
    (fun c => forall l, mem c l = (if test_result G then transformed (fun i => W (AU, i)) (-1) (transformed (fun i => W (AU, i)) 1 W)
                                   else transformed (fun i => W (AU, i)) 1 W) l)
    (start F of_long G zero up W).
Proof.
  intros Hup. pose proof P_pos. eapply ends_mono; [|apply (script_ends (L := loc) (Z.to_nat (P G)) ltac:(lia) _ _ start_barrier W (whole_script (fun i => W (AU, i)) W)); [simpl; lia|done|apply whole_coherent| |done]].
  - intros c Hc l. rewrite Hc. unfold whole_script. destruct (test_result G); done.
  - intros t Ht. apply SlaveStart_follows; [by apply Hup|lia].
Qed.
End Threads.
End FftMain.
