(* ===== verification/FftSetup.v ===== *)
(** * FftSetup: from the command line to the result

    What [options] and [setup] accept has sizes for which the threads work; what
    [InitX], [InitU] and [InitU2] leave in memory; and the program from there to
    the end. *)

From stdpp Require Import base list option functions.
From Stdlib Require Import ZifyBool.
From S2P Require Import Prelude Phases PhaseScript Doubles Fft FftRow FftTranspose FftMain.
Local Open Scope Z_scope.

Module FftSetup.
Import Fft FftRow FftTranspose FftMain.

(** ** The options *)

Lemma log_2_loop_pow fuel number k : let (c, out) := log_2_loop fuel number (2 ^ Z.of_nat k) (Z.of_nat k) in exists j : nat, c = 2 ^ Z.of_nat j /\ out = Z.of_nat j.
Proof.
  revert k. induction fuel as [|fuel IH]; intros k; cbn [log_2_loop]; [by exists k|].
  destruct (_ && _); [|by exists k]. specialize (IH (S k)). rewrite Nat2Z.inj_succ, Z.pow_succ_r in IH by lia.
  by rewrite (Z.mul_comm (2 ^ Z.of_nat k)), Z.add_1_r.
Qed.
(** [log_2] finds the exponent, or the number is not accepted. *)
Lemma log_2_pow v : log_2 v <> -1 -> exists p : nat, v = 2 ^ Z.of_nat p /\ log_2 v = Z.of_nat p.
Proof.
  unfold log_2. pose proof (log_2_loop_pow 51 v 0) as H. change (2 ^ Z.of_nat 0) with 1 in H. change (Z.of_nat 0) with 0 in H.
  destruct (log_2_loop 51 v 1 0) as [c out]. destruct H as (j & -> & ->).
  destruct (Z.eqb_spec (2 ^ Z.of_nat j) v); [|done]. intros _. by exists j.
Qed.

Definition settings_ok (s : settings) : Prop :=
  (exists p : nat, s_P s = 2 ^ Z.of_nat p) /\ (exists k, s_M s = 2 * k) /\ 1 <= cache_lines s /\ 0 <= log2_line_size s.
Lemma options_ok os s s' : settings_ok s -> options os s = inr s' -> settings_ok s'.
Proof.
  revert s. induction os as [|[c v] os IH]; intros s Hs; cbn [options]; [by intros [= <-]|].
  destruct s as [p m n l st te pr]. destruct Hs as (Hp & Hm & Hn & Hl). cbn in Hp, Hm, Hn, Hl.
  repeat match goal with |- context [if ?b then _ else _] => destruct b eqn:? end; try done; apply IH; split_and!; simpl; try done; try lia.
  - destruct (log_2_pow v) as (k & Hk & _); [lia|by exists k].
  - exists (Z.quot v 2). lia.
Qed.
Lemma defaults_ok : settings_ok defaults.
Proof. split_and!; [by exists 0%nat|by exists 5|done|done]. Qed.

Lemma int_shift_pow k z : int_shift k = Some z -> 0 <= k < 31 /\ z = 2 ^ k.
Proof. unfold int_shift. rewrite Z.shiftl_1_l. destruct ((0 <=? k) && (k <? 31)) eqn:?; [intros [= <-]; lia|done]. Qed.

(** What is set up has sizes and lines that are shifts of an [int]. *)
Lemma setup_shifts s r : setup s = Some r -> 0 <= s_M s < 31.
Proof. unfold setup. destruct (int_shift (s_M s)) eqn:E; [|done]. by apply int_shift_pow in E as [? _]. Qed.

Lemma setup_ok s G (m c : nat) : settings_ok s -> setup s = Some (inr G) -> s_M s = 2 * Z.of_nat m -> num_cache_lines G = 2 ^ Z.of_nat c -> (1 <= c)%nat ->
  exists p, sizes_ok G m p.
Proof.
  intros ((p & Hp) & _ & _ & _) HG Hm Hc Hc1. exists p. unfold setup in HG. rewrite Hm, Hp in HG.
  assert (Z.quot (2 * Z.of_nat m) 2 = Z.of_nat m) as E by (rewrite Z.mul_comm, Z.quot_mul by lia; done). rewrite E in HG.
  destruct (int_shift (2 * Z.of_nat m)) as [z|] eqn:Ez; [|done]. apply int_shift_pow in Ez as [_ ->].
  destruct (int_shift (Z.of_nat m)) as [z|] eqn:Ez; [|done]. apply int_shift_pow in Ez as [_ ->].
  assert (0 < 2 ^ Z.of_nat m) by (apply Z.pow_pos_nonneg; lia). assert (0 < 2 ^ Z.of_nat p) by (apply Z.pow_pos_nonneg; lia).
  destruct (Z.eqb_spec (Z.quot (2 ^ Z.of_nat m) (2 ^ Z.of_nat p)) 0) as [|Hr]; [done|].
  destruct (int_shift (log2_line_size s)) as [z|] eqn:Ez; [|done]. apply int_shift_pow in Ez as [_ ->].
  assert (p <= m)%nat as Hpm.
  { destruct (decide (p <= m)%nat); [done|]. exfalso. apply Hr, Z.quot_small. split; [lia|]. apply Z.pow_lt_mono_r; lia. }
  assert (Z.quot (2 ^ Z.of_nat m) (2 ^ Z.of_nat p) = 2 ^ Z.of_nat (m - p)) as Er.
  { replace (2 ^ Z.of_nat m) with (2 ^ Z.of_nat (m - p) * 2 ^ Z.of_nat p) by (rewrite <- Z.pow_add_r by lia; f_equal; lia). by rewrite Z.quot_mul by lia. }
  rewrite Er in HG. assert (0 < 2 ^ Z.of_nat (m - p)) by (apply Z.pow_pos_nonneg; lia).
  set (rows := 2 ^ Z.of_nat (m - p)) in *. set (n := 2 ^ Z.of_nat m) in *.
  set (pad0 := if 2 ^ log2_line_size s <=? 2 * 8 then 1 else _) in HG.
  assert (0 <= pad0) by (unfold pad0; destruct (Z.leb_spec (2 ^ log2_line_size s) (2 * 8)); [lia|apply Z.quot_pos; lia]).
  assert (2 ^ (2 * Z.of_nat m) = n * n) as En by (unfold n; rewrite <- Z.pow_add_r by lia; f_equal; lia). rewrite En in HG.
  assert (exists pad lines, 0 <= pad /\ G = Globals (2 ^ Z.of_nat p) (2 * Z.of_nat m) (n * n) n pad lines (test s) (doprint s)) as (pad & lines & Hpad & ->).
  { set (lines := if 2 ^ log2_line_size s <? 2 * 8 then _ else _) in HG. destruct (Z.leb_spec PAGE_SIZE (rows * n * 2 * 8)).
    - injection HG as <-. eexists _, lines. split; [|done]. apply Z.quot_pos; [|lia]. unfold PAGE_SIZE.
      assert (0 <= Z.quot (2 * pad0 * 8 * rows) 4096) by (apply Z.quot_pos; nia). destruct (negb _); lia.
    - destruct (negb _); [done|]. injection HG as <-. eexists _, lines. split; [|done]. apply Z.quot_pos; lia. }
  cbn [num_cache_lines] in Hc. subst lines. assert (0 < 2 ^ Z.of_nat c) by (apply Z.pow_pos_nonneg; lia).
  destruct (blocks_fit c (m - p) Hc1) as [B1 B2]. by split.
Qed.

(** ** The tables *)

Section Tables.
Context (G : globals) (m p : nat) (OK : sizes_ok G m p).
Local Abbreviation n := (2 ^ Z.of_nat m).
Local Abbreviation w := (n + pad_length G).
Local Abbreviation wp := (wps (valid G) (fun _ => true) (fun _ => True)).

(** Two nested loops set all elements. *)
Lemma fill_matrix_ok a f V (Q : unit -> (loc -> Z) -> Prop) : a <> AU ->
  (forall V', (forall l, V' l = mat_mem n w a f V l) -> Q tt V') ->
  wp (for_ 0 n tt (fun j _ => for_ 0 n tt (fun i _ =>
    write (a, 2 * (j * w + i)) (f j i).1 ;! write (a, 2 * (j * w + i) + 1) (f j i).2))) V Q.
Proof.
  intros Ha HQ. pose proof (n_pos m). pose proof (w_ok G m p OK) as Hw. set (g := fun r c b => raw (f r) (2 * c + b)).
  apply (wps_for _ _ _ (fun j _ => Put a w g V (box (fun _ _ => false) 0 n 0 j))); [lia| | |].
  - eapply Put_ext; [apply Put_refl|]. intros r c. unfold box. lia.
  - intros j [] V1 Hj H1. apply (wps_for _ _ _ (fun i _ => Put a w g V (box (box (fun _ _ => false) 0 n 0 j) 0 i j (j + 1)))); [lia| | |].
    + eapply Put_ext; [exact H1|]. intros r c. unfold box. lia.
    + intros i [] V2 Hi H2. pose proof (valid_at G m p OK a j i 0 Ha Hj Hi ltac:(lia)) as V0. rewrite Z.add_0_r in V0.
      apply wps_bind, wps_write; [exact V0|done|]. apply wps_write; [exact (valid_at G m p OK a j i 1 Ha Hj Hi ltac:(lia))|done|].
      eapply Put_ext; [|intros r c; instantiate (1 := box (box (box (fun _ _ => false) 0 n 0 j) 0 i j (j + 1)) i (i + 1) j (j + 1)); unfold box; lia].
      pose proof (Put_elem a w ltac:(lia) g V _ V2 j i ltac:(lia) H2) as H3. unfold g in H3. by rewrite Z.add_0_r, raw_re, raw_im in H3.
    + intros [] V2 H2. eapply Put_ext; [exact H2|]. intros r c. unfold box. lia.
  - intros [] V1 H1. apply HQ. intros [a' i]. revert i. apply (at_elim w); [lia|]. intros r c b Hc Hb. rewrite H1 by done.
    unfold mat_mem, in_mat. simpl. rewrite at_row, at_col, at_bit by lia. destruct (decide (a' = a)) as [->|]; [|by rewrite !bool_decide_false].
    rewrite !bool_decide_true by done. unfold box, g. simpl. by replace ((0 <=? c) && (c <? n) && (0 <=? r) && (r <? n)) with ((0 <=? r) && (r <? n) && (c <? n)) by lia.
Qed.

(** The first [k] roots are in [umain]; the other arrays are those of [V0]. *)
Definition Roots (root : Z -> Z -> Z * Z) (V0 : loc -> Z) (k : Z) (V : loc -> Z) : Prop :=
  (forall e, 0 <= e < k -> V (AU, 2 * e) = (unity root e).1 /\ V (AU, 2 * e + 1) = (unity root e).2) /\
  forall l, l.1 <> AU -> V l = V0 l.
Lemma Roots_step root V0 k V e u v : Roots root V0 k V -> 0 <= e -> (e < k -> False) -> e <> k \/ unity root e = (u, v) ->
  Roots root V0 (if e =? k then k + 1 else k) (<[(AU, 2 * e + 1) := v]> (<[(AU, 2 * e) := u]> V)).
Proof.
  intros [H H'] He Hk Hu. split.
  - intros e' He'. destruct (decide (e' = e)) as [->|Hne].
    + rewrite fn_lookup_insert, fn_lookup_insert_ne, fn_lookup_insert by (intros [= E]; lia).
      destruct (Z.eqb_spec e k); [|lia]. destruct Hu as [|E]; [lia|]. by rewrite E.
    + rewrite !fn_lookup_insert_ne by (intros [= E]; lia). apply H. destruct (Z.eqb_spec e k); lia.
  - intros l Hl. rewrite !fn_lookup_insert_ne by (intros <-; done). by apply H'.
Qed.

Lemma init_powers_ok root V0 (q fuel : nat) V (Q : unit -> (loc -> Z) -> Prop) : (q <= m)%nat -> (m < q + fuel)%nat ->
  Roots root V0 (2 ^ Z.of_nat q - 1) V -> (forall V', Roots root V0 (n - 1) V' -> Q tt V') ->
  wp (init_powers G root fuel (Z.of_nat q)) V Q.
Proof.
  intros Hq Hf H HQ. revert q V Hq Hf H. induction fuel as [|fuel IH]; intros q V Hq Hf H; [lia|].
  cbn [init_powers]. rewrite Z.shiftl_1_l, (so_N _ _ _ OK), (so_rootN _ _ _ OK). pose proof (n_pos m).
  assert (0 < 2 ^ Z.of_nat q) by (apply Z.pow_pos_nonneg; lia). assert (2 ^ Z.of_nat q <= n) by (apply Z.pow_le_mono_r; lia).
  destruct (Z.ltb_spec (2 ^ Z.of_nat q) (n * n)) as [Hlt|Hge].
  2:{ assert (n = 2 ^ Z.of_nat q) as E by nia. apply HQ. by rewrite E. }
  apply wps_bind. destruct (decide (q = m)) as [->|Hne].
  - assert (2 <= n) by nia.
    apply (wps_for _ _ _ (fun j ret V => Roots root V0 (n - 1) V /\ (2 <= j -> ret = true))); [lia|split; [done|lia]| |].
    + intros j ret V1 Hj [HR1 Hret]. destruct (ret || _) eqn:Eb; [apply wps_ret; done|]. apply orb_false_elim in Eb as [-> Eb].
      assert (j = 0) as -> by lia. rewrite !Z.add_0_r in *. apply wps_bind, wps_write; [apply (valid_u G m p OK); lia|done|].
      apply wps_bind, wps_write; [apply (valid_u G m p OK); lia|done|]. apply wps_ret. split; [|lia].
      pose proof (Roots_step root V0 (n - 1) V1 (n - 1) (root 0 (2 * n)).1 (root 0 (2 * n)).2 HR1) as HR2. rewrite Z.eqb_refl in HR2.
      destruct HR2 as [HR2 HR2']; [lia|lia|right|]. { pose proof (unity_at root (Z.of_nat m) 0 ltac:(lia) ltac:(lia)) as E. rewrite Z.add_0_r in E. rewrite E. by destruct (root 0 _). }
      split; [|done]. intros e He. apply HR2. lia.
    + intros ret V1 [HR1 Hret]. rewrite Hret by lia. by apply HQ.
  - assert (2 * 2 ^ Z.of_nat q <= n) by (rewrite <- Z.pow_succ_r by lia; apply Z.pow_le_mono_r; lia).
    apply (wps_for _ _ _ (fun j ret V => Roots root V0 (2 ^ Z.of_nat q - 1 + j) V /\ ret = false)); [lia|split; [by rewrite Z.add_0_r|done]| |].
    + intros j ret V1 Hj [HR1 ->]. destruct (Z.ltb_spec (n - 1) (2 ^ Z.of_nat q - 1 + j)); [lia|]. cbn [orb].
      apply wps_bind, wps_write; [apply (valid_u G m p OK); lia|done|].
      apply wps_bind, wps_write; [apply (valid_u G m p OK); lia|done|]. apply wps_ret. split; [|done].
      pose proof (Roots_step root V0 _ V1 (2 ^ Z.of_nat q - 1 + j) (root j (2 * 2 ^ Z.of_nat q)).1 (root j (2 * 2 ^ Z.of_nat q)).2 HR1) as HR2. rewrite Z.eqb_refl in HR2.
      rewrite <- Z.add_assoc in HR2. apply HR2; [lia|lia|right]. rewrite unity_at by lia. by destruct (root j _).
    + intros ret V1 [HR1 ->]. replace (Z.of_nat q + 1) with (Z.of_nat (S q)) by lia. apply IH; [lia|lia|].
      rewrite Nat2Z.inj_succ, Z.pow_succ_r by lia. by replace (2 * 2 ^ Z.of_nat q - 1) with (2 ^ Z.of_nat q - 1 + 2 ^ Z.of_nat q) by lia.
Qed.

(** The sequential part of [main] before the threads. *)
Definition prepare (rnd : Z -> Z) (root : Z -> Z -> Z * Z) (root2 : Z -> Z -> Z -> Z * Z) : thread unit :=
  InitX G rnd ;! InitU G root ;! InitU2 G root2 (rootN G).

Definition input (rnd : Z -> Z) (r c : Z) : Z * Z := (rnd (2 * (r * n + c)), rnd (2 * (r * n + c) + 1)).
Lemma prepare_ok rnd root root2 V (Q : unit -> (loc -> Z) -> Prop) : (m < 64)%nat ->
  (forall W, (forall e, 0 <= e < n - 1 -> W (AU, 2 * e) = (unity root e).1 /\ W (AU, 2 * e + 1) = (unity root e).2) ->
    (forall r c, 0 <= r < n -> 0 <= c < n -> mat w W AX r c = input rnd r c) ->
    (forall r c, 0 <= r < n -> 0 <= c < n -> mat w W AU2 r c = root2 c r (N G)) -> Q tt W) ->
  wp (prepare rnd root root2) V Q.
Proof.
  intros Hm HQ. unfold prepare, InitX, InitU, InitU2. rewrite (so_rootN _ _ _ OK). pose proof (n_pos m) as Hn. pose proof (w_ok G m p OK) as Hw.
  apply wps_bind, (fill_matrix_ok AX (input rnd)); [done|]. intros V1 H1.
  apply wps_bind, (init_powers_ok root V1 0 64); [lia|lia|split; [intros; lia|done]|]. intros V2 [H2 H2'].
  apply (fill_matrix_ok AU2 (fun j i => root2 i j (N G))); [done|]. intros V3 H3. apply HQ.
  - intros e He. rewrite !H3, !mat_mem_other by done. by apply H2.
  - intros r c Hr Hc. rewrite <- (mat_of_mem n w Hn Hw AX (input rnd) V r c Hr Hc). unfold mat.
    by rewrite !H3, !mat_mem_other, !H2', !H1 by done.
  - intros r c Hr Hc. rewrite <- (mat_of_mem n w Hn Hw AU2 (fun j i => root2 i j (N G)) V2 r c Hr Hc). unfold mat. by rewrite !H3.
Qed.
End Tables.

(** ** Only the elements of the matrix and of the tables matter *)

Section Extensionality.
Context {V : Type} (F : arith V).
Lemma stages_roots w w' q c e : (forall e, 0 <= e < 2 ^ Z.of_nat q - 1 -> w e = w' e) -> stages F w q c e = stages F w' q c e.
Proof.
  revert e. induction q as [|q IH]; intros e H; [done|]. cbn [stages]. rewrite Nat2Z.inj_succ, Z.pow_succ_r in H by lia.
  assert (0 < 2 ^ Z.of_nat q) by (apply Z.pow_pos_nonneg; lia). unfold stage.
  pose proof (Z.mod_pos_bound e (2 * 2 ^ Z.of_nat q) ltac:(lia)).
  destruct (Z.ltb_spec (e mod (2 * 2 ^ Z.of_nat q)) (2 ^ Z.of_nat q)); rewrite H, !IH by (intros; apply H; lia) || lia; done.
Qed.
Lemma fft_row_roots w w' m c e : (forall e, 0 <= e < 2 ^ Z.of_nat m - 1 -> w e = w' e) -> fft_row F w m c e = fft_row F w' m c e.
Proof. apply stages_roots. Qed.
Lemma six_step_ext w w' tw tw' fin m X X' r c :
  (forall e, 0 <= e < 2 ^ Z.of_nat m - 1 -> w e = w' e) ->
  (forall r c, 0 <= r < 2 ^ Z.of_nat m -> 0 <= c < 2 ^ Z.of_nat m -> tw r c = tw' r c) ->
  (forall r c, 0 <= r < 2 ^ Z.of_nat m -> 0 <= c < 2 ^ Z.of_nat m -> X r c = X' r c) ->
  0 <= r < 2 ^ Z.of_nat m -> 0 <= c < 2 ^ Z.of_nat m -> six_step F w tw fin m X r c = six_step F w' tw' fin m X' r c.
Proof.
  intros Hw Ht HX Hr Hc. unfold six_step, rows_transformed. f_equal. rewrite (fft_row_roots w w') by done.
  apply (fft_row_ext F w' m); [|done]. intros i Hi. unfold columns_transformed. rewrite Ht by done. f_equal.
  rewrite (fft_row_roots w w') by done. apply (fft_row_ext F w' m); [|done]. intros e He. by apply HX.
Qed.
End Extensionality.

(** ** The program *)

Section Program.
Context (F : arith Z) (of_long : Z -> Z) (G : globals) (m p : nat) (OK : sizes_ok G m p) (root : Z -> Z -> Z * Z) (root2 : Z -> Z -> Z -> Z * Z) (W : loc -> Z).
Local Abbreviation n := (2 ^ Z.of_nat m).
Local Abbreviation w := (n + pad_length G).
Hypothesis Hroots : forall e, 0 <= e < n - 1 -> W (AU, 2 * e) = (unity root e).1 /\ W (AU, 2 * e + 1) = (unity root e).2.
Hypothesis Htwiddles : forall r c, 0 <= r < n -> 0 <= c < n -> mat w W AU2 r c = root2 c r (N G).
Local Abbreviation uv := (fun i => W (AU, i)).

Lemma tables_matrix d W' X X' r c : (forall r c, mat w W' AU2 r c = mat w W AU2 r c) ->
  (forall r c, 0 <= r < n -> 0 <= c < n -> X r c = X' r c) -> 0 <= r < n -> 0 <= c < n ->
  six_step F (roots F of_long d uv) (twiddles F of_long G m d W') (scaled F of_long (N G) d) m X r c = dft_matrix F of_long root root2 (N G) m d X' r c.
Proof.
  intros HW HX. apply six_step_ext; [| |done].
  - intros e He. unfold roots, toward. by destruct (Hroots e He) as [-> ->].
  - intros r' c' Hr Hc. unfold twiddles. by rewrite HW, Htwiddles.
Qed.
(** The result of one pass, and of two. *)
Lemma one_pass X r c : (forall r c, 0 <= r < n -> 0 <= c < n -> mat w W AX r c = X r c) -> 0 <= r < n -> 0 <= c < n ->
  mat w (transformed F of_long G m uv 1 W) ATrans r c = dft_matrix F of_long root root2 (N G) m 1 X r c /\
  (copied G = true -> mat w (transformed F of_long G m uv 1 W) AX r c = dft_matrix F of_long root root2 (N G) m 1 X r c).
Proof.
  intros HX Hr Hc. rewrite (transformed_trans F of_long G m p OK), (tables_matrix 1 W _ X) by done. split; [done|]. intros Hcp.
  rewrite (transformed_x F of_long G m p OK) by done. by apply tables_matrix.
Qed.
Lemma two_passes X r c : copied G = true -> (forall r c, 0 <= r < n -> 0 <= c < n -> mat w W AX r c = X r c) -> 0 <= r < n -> 0 <= c < n ->
  let W2 := transformed F of_long G m uv (-1) (transformed F of_long G m uv 1 W) in
  let Y := dft_matrix F of_long root root2 (N G) m (-1) (dft_matrix F of_long root root2 (N G) m 1 X) in
  mat w W2 ATrans r c = Y r c /\ mat w W2 AX r c = Y r c.
Proof.
  intros Hcp HX Hr Hc. cbv zeta. rewrite (transformed_trans F of_long G m p OK), (transformed_x F of_long G m p OK) by done.
  split; (apply tables_matrix; [by intros; apply transformed_u2|by intros r' c' Hr' Hc'; apply one_pass|done|done]).
Qed.
End Program.

Lemma program_ok (F : arith Z) of_long G m p rnd root root2 zero up W0 : sizes_ok G m p -> (m < 64)%nat ->
  (forall t, zlen (up t) = 2 * (2 ^ Z.of_nat m - 1)) ->
  wps (valid G) (fun _ => true) (fun _ => True) (prepare G rnd root root2) W0 (fun _ W =>
    ends (Z.to_nat (P G)) (valid G) (fun _ => false)
      (fun c => forall r j, 0 <= r < 2 ^ Z.of_nat m -> 0 <= j < 2 ^ Z.of_nat m ->
         let T d := dft_matrix F of_long root root2 (N G) m d in
         let result := if test_result G then T (-1) (T 1 (input m rnd)) else T 1 (input m rnd) in
         mat (2 ^ Z.of_nat m + pad_length G) (mem c) ATrans r j = result r j /\
         (copied G = true -> mat (2 ^ Z.of_nat m + pad_length G) (mem c) AX r j = result r j))
      (start F of_long G zero up W)).
Proof.
  intros OK Hm Hup. apply (prepare_ok G m p OK); [lia|]. intros W HU HX HT.
  eapply ends_mono; [|apply (fft_ends F of_long G m p OK); by intros]. intros cf Hcf r j Hr Hj. cbv zeta.
  rewrite !(mat_mem_ext _ _ _ _ _ _ Hcf). destruct (test_result G) eqn:Et.
  - destruct (two_passes F of_long G m p OK root root2 W HU HT (input m rnd) r j) as [E1 E2]; [unfold copied; by rewrite Et|done|done|done|].
    split; [exact E1|by intros _].
  - destruct (one_pass F of_long G m p OK root root2 W HU HT (input m rnd) r j) as [E1 E2]; [done|done|done|]. by split.
Qed.
(** What a command line that is accepted leads to. *)
Lemma accepted_sizes os s G (c : nat) : options os defaults = inr s -> setup s = Some (inr G) ->
  num_cache_lines G = 2 ^ Z.of_nat c -> (1 <= c)%nat ->
  exists m p, sizes_ok G m p /\ (m < 64)%nat /\ Z.to_nat (Z.quot (M G) 2) = m.
Proof.
  intros Hos HG Hc Hc1. pose proof (setup_shifts _ _ HG). pose proof (options_ok _ _ _ defaults_ok Hos) as Hs. destruct (Hs) as (_ & (k & Hk) & _).
  destruct (setup_ok s G (Z.to_nat k) c Hs HG ltac:(lia) Hc Hc1) as (p & OK). exists (Z.to_nat k), p. split_and!; [done|lia|].
  by rewrite (so_M _ _ _ OK), Z.mul_comm, Z.quot_mul, Nat2Z.id by lia.
Qed.

(** C23. The parallel transform is the sequential one, bit for bit. The command
    line is one that the program accepts, with three conditions: [-m] and [-l] are
    below 31, since [1<<M] and [1 << log2_line_size] are shifts of an [int] (other
    values have no [setup]); the number of cache lines used for the transposition
    is a power of two; and it is at least two. Then, for every number of processors,
    every order in which they run, and whatever the arithmetic of doubles does, the
    tables and the data are set up without an access outside the arrays, every
    execution of the threads ends, and [trans] holds the transform of the data
    that was drawn; with [-t] it has been transformed back, and with [-t] or [-o]
    [x] holds the result too. *)
Theorem fft_parallel_is_sequential (F : arith Z) (of_long : Z -> Z) (rnd : Z -> Z) (root : Z -> Z -> Z * Z) (root2 : Z -> Z -> Z -> Z * Z)
    (os : list (Z * Z)) (s : settings) (G : globals) (c : nat) (zero : Z) (up : nat -> list Z) (W0 : loc -> Z) :
  options os defaults = inr s -> setup s = Some (inr G) ->
  num_cache_lines G = 2 ^ Z.of_nat c -> (1 <= c)%nat -> (forall t, zlen (up t) = 2 * (rootN G - 1)) ->
  wps (valid G) (fun _ => true) (fun _ => True) (prepare G rnd root root2) W0 (fun _ W =>
    ends (Z.to_nat (P G)) (valid G) (fun _ => false)
      (fun c => forall r j, 0 <= r < rootN G -> 0 <= j < rootN G ->
         let m := Z.to_nat (Z.quot (M G) 2) in
         let T d := dft_matrix F of_long root root2 (N G) m d in
         let X r c := (rnd (2 * (r * rootN G + c)), rnd (2 * (r * rootN G + c) + 1)) in
         let result := if test_result G then T (-1) (T 1 X) else T 1 X in
         mat (rootN G + pad_length G) (mem c) ATrans r j = result r j /\
         (test_result G || print_result G = true -> mat (rootN G + pad_length G) (mem c) AX r j = result r j))
      (start F of_long G zero up W)).
Proof.
  intros Hos HG Hc Hc1 Hup. destruct (accepted_sizes os s G c Hos HG Hc Hc1) as (m & p & OK & Hm & ->).
  rewrite (so_rootN _ _ _ OK) in *. by apply (program_ok F of_long G m p).
Qed.

(** Four numbers and two processors, back and forth: [FFT -m2 -p2 -t]. *)
Lemma fft_parallel_is_sequential_witness :
  let F := Arith Z Z.add Z.sub Z.mul Z.div Z.opp in
  let G := Globals 2 2 4 2 254 65536 true false in
  let root k n := (k, n) in let root2 i j n := (i, j + n) in
  wps (valid G) (fun _ => true) (fun _ => True) (prepare G (fun k => k) root root2) (fun _ => 0) (fun _ W =>
    ends 2 (valid G) (fun _ => false)
      (fun c => mat 256 (mem c) AX 1 0 = dft_matrix F (fun k => k) root root2 4 1 (-1) (dft_matrix F (fun k => k) root root2 4 1 1
         (fun r c => (2 * (r * 2 + c), 2 * (r * 2 + c) + 1))) 1 0)
      (start F (fun k => k) G 0 (fun _ => [0; 0]) W)).
Proof.
  cbv zeta. eapply wps_mono; [|apply (fft_parallel_is_sequential (Arith Z Z.add Z.sub Z.mul Z.div Z.opp) (fun k => k) (fun k => k) (fun k n => (k, n)) (fun i j n => (i, j + n))
    [(109, 2); (112, 2); (116, 1)] (Settings 2 2 65536 4 false true false) (Globals 2 2 4 2 254 65536 true false) 16 0 (fun _ => [0; 0]));
    [vm_compute; reflexivity|vm_compute; reflexivity|vm_compute; reflexivity|lia|intros t; reflexivity]].
  intros [] W H. eapply ends_mono; [|exact H]. intros c Hc. destruct (Hc 1 0) as [_ E]; [simpl; lia|simpl; lia|].
  apply E. reflexivity.
Defined.
End FftSetup.
