(* ===== verification/FftExact.v ===== *)
(** * FftExact: what the transform computes in exact arithmetic

    Over a field, with exact tables, [six_step] is the discrete Fourier
    transform, and transforming back gives the data again. *)

From Stdlib Require Import Ring Field QArith Qcanon.
From stdpp Require Import base list option.
From S2P Require Import Prelude Phases PhaseScript Doubles Fft FftRow FftMain FftSetup.
Local Open Scope Z_scope.

Module FftExact.
Import Fft FftRow FftMain FftSetup.

Section Exact.
Context {V : Type} (F : arith V) (zero one : V) (inv : V -> V).
Hypothesis HF : field_theory zero one (fadd F) (fmul F) (fsub F) (fneg F) (fdiv F) inv eq.
Add Field VField : HF.

(** ** Complex numbers *)

Local Abbreviation C := (V * V)%type.
Definition c0 : C := (zero, zero).
Definition c1 : C := (one, zero).
Definition cneg (z : C) : C := (fneg F z.1, fneg F z.2).
Definition conj (z : C) : C := (z.1, fneg F z.2).
Local Notation "x +c y" := (cadd F x y) (at level 50, left associativity).
Local Notation "x -c y" := (csub F x y) (at level 50, left associativity).
Local Notation "x *c y" := (product F x y) (at level 40, left associativity).

Lemma complex_ring : ring_theory c0 c1 (cadd F) (product F) (csub F) cneg eq.
Proof.
  split; intros; unfold cadd, product, csub, cneg, c0, c1; destruct_and?;
    repeat match goal with z : (V * V)%type |- _ => destruct z end; simpl; f_equal; ring.
Qed.
Add Ring CRing : complex_ring.

Fixpoint cpow (z : C) (k : nat) : C := match k with O => c1 | S k => z *c cpow z k end.
Fixpoint csum (f : nat -> C) (n : nat) : C := match n with O => c0 | S n => csum f n +c f n end.

Lemma cpow_add z a b : cpow z (a + b) = cpow z a *c cpow z b.
Proof. induction a as [|a IH]; simpl; [ring|]. rewrite IH. ring. Qed.
Lemma cpow_mul z a b : cpow z (a * b) = cpow (cpow z a) b.
Proof. induction b as [|b IH]; [by rewrite Nat.mul_0_r|]. rewrite Nat.mul_succ_r, cpow_add, IH. simpl. ring. Qed.
Lemma cpow_one k : cpow c1 k = c1.
Proof. induction k as [|k IH]; simpl; [done|]. rewrite IH. ring. Qed.
Lemma cpow_prod y z k : cpow (y *c z) k = cpow y k *c cpow z k.
Proof. induction k as [|k IH]; simpl; [ring|]. rewrite IH. ring. Qed.

Lemma csum_ext f g n : (forall i, (i < n)%nat -> f i = g i) -> csum f n = csum g n.
Proof. induction n as [|n IH]; intros H; simpl; [done|]. rewrite IH, H by (intros; try apply H; lia). done. Qed.
Lemma csum_plus f g n : csum (fun i => f i +c g i) n = csum f n +c csum g n.
Proof. induction n as [|n IH]; simpl; [ring|]. rewrite IH. ring. Qed.
Lemma csum_scale z f n : csum (fun i => z *c f i) n = z *c csum f n.
Proof. induction n as [|n IH]; simpl; [ring|]. rewrite IH. ring. Qed.
Lemma csum_zero n : csum (fun _ => c0) n = c0.
Proof. induction n as [|n IH]; simpl; [done|]. rewrite IH. ring. Qed.
Lemma csum_app f a b : csum f (a + b) = csum f a +c csum (fun i => f (a + i)%nat) b.
Proof. induction b as [|b IH]; [rewrite Nat.add_0_r; simpl; ring|]. rewrite Nat.add_succ_r. simpl. rewrite IH. ring. Qed.
Lemma csum_halves f n : csum f (2 * n) = csum (fun u => f (2 * u)%nat) n +c csum (fun u => f (2 * u + 1)%nat) n.
Proof.
  induction n as [|n IH]; [simpl; ring|]. replace (2 * S n)%nat with (S (S (2 * n))) by lia. cbn [csum]. rewrite IH.
  replace (2 * n + 1)%nat with (S (2 * n)) by lia. ring.
Qed.
Lemma csum_swap (f : nat -> nat -> C) a b : csum (fun i => csum (fun j => f i j) b) a = csum (fun j => csum (fun i => f i j) a) b.
Proof. induction a as [|a IH]; simpl; [by rewrite csum_zero|]. by rewrite IH, <- csum_plus. Qed.
(** The numbers below [a * b], row by row. *)
Lemma csum_rows f a b : csum f (a * b) = csum (fun k => csum (fun i => f (k * b + i)%nat) b) a.
Proof. induction a as [|a IH]; [done|]. simpl. by rewrite Nat.add_comm, csum_app, IH. Qed.
Lemma csum_only f n k : (k < n)%nat -> (forall i, (i < n)%nat -> i <> k -> f i = c0) -> csum f n = f k.
Proof.
  intros Hk H. induction n as [|n IH]; [lia|]. simpl. destruct (decide (k = n)) as [->|].
  - rewrite (csum_ext f (fun _ => c0) n), csum_zero; [ring|]. intros; apply H; lia.
  - rewrite IH, (H n) by (intros; try apply H; lia). ring.
Qed.

(** ** A row *)

Lemma pow2_nat q : 2 ^ Z.of_nat q = Z.of_nat (2 ^ q).
Proof. by rewrite Nat2Z.inj_pow. Qed.
Lemma pow2_pos q : (0 < 2 ^ q)%nat.
Proof. induction q; simpl; lia. Qed.

(** [th q] is a root of order [2^q], the square of the next one. *)
Section Row.
Context (w : Z -> C) (m : nat) (th : nat -> C).
Hypothesis Hsq : forall q, (q < m)%nat -> th q = cpow (th (S q)) 2.
Hypothesis Hhalf : forall q, (q < m)%nat -> cpow (th (S q)) (2 ^ q) = cneg c1.
Hypothesis Hw : forall q j, (q < m)%nat -> (j < 2 ^ q)%nat -> w (2 ^ Z.of_nat q - 1 + Z.of_nat j) = cpow (th (S q)) j.

Lemma th_order q u : (q < m)%nat -> cpow (th q) (u * 2 ^ q) = c1.
Proof.
  intros Hq. rewrite Hsq, Nat.mul_comm, <- cpow_mul by done. replace (2 * (2 ^ q * u))%nat with (2 ^ q * (2 * u))%nat by lia.
  rewrite cpow_mul, Hhalf by done. rewrite cpow_mul. simpl. replace (cneg c1 *c (cneg c1 *c c1)) with c1 by ring. apply cpow_one.
Qed.

Lemma stages_dft q c b k : (q <= m)%nat -> (k < 2 ^ q)%nat ->
  stages F w q c (b * 2 ^ Z.of_nat q + Z.of_nat k) =
  csum (fun v => c (b * 2 ^ Z.of_nat q + rev q (Z.of_nat v)) *c cpow (th q) (v * k)) (2 ^ q).
Proof.
  revert b k. induction q as [|q IH]; intros b k Hq Hk.
  - change (2 ^ 0)%nat with 1%nat in *. assert (k = 0)%nat as -> by lia. cbn [stages csum cpow rev Nat.mul]. change (Z.of_nat 0) with 0. ring.
  - cbn [stages]. rewrite Nat.pow_succ_r' in *. rewrite csum_halves.
    rewrite (Nat2Z.inj_succ q), Z.pow_succ_r by lia. set (P := 2 ^ Z.of_nat q) in *. assert (0 < P) by (apply Z.pow_pos_nonneg; lia).
    assert (P = Z.of_nat (2 ^ q)) as EP by apply pow2_nat.
    assert (exists s j, k = (s * 2 ^ q + j)%nat /\ (s = 0 \/ s = 1)%nat /\ (j < 2 ^ q)%nat) as (s & j & -> & Hs & Hj).
    { destruct (decide (k < 2 ^ q)%nat); [exists 0%nat, k|exists 1%nat, (k - 2 ^ q)%nat]; lia. }
    (* the two halves of the block *)
    assert (csum (fun u => c (b * (2 * P) + rev (S q) (Z.of_nat (2 * u))) *c cpow (th (S q)) (2 * u * (s * 2 ^ q + j))) (2 ^ q) =
      stages F w q c ((2 * b) * P + Z.of_nat j)) as ->.
    { rewrite IH by lia. apply csum_ext. intros u Hu. f_equal.
      - f_equal. cbn [rev]. replace (Z.of_nat (2 * u)) with (Z.of_nat u * 2) by lia. rewrite Z.mod_mul, Z.div_mul by lia. lia.
      - rewrite <- Nat.mul_assoc, cpow_mul, <- Hsq by lia. replace (u * (s * 2 ^ q + j))%nat with ((u * s) * 2 ^ q + u * j)%nat by lia.
        rewrite cpow_add, th_order by lia. ring. }
    assert (csum (fun u => c (b * (2 * P) + rev (S q) (Z.of_nat (2 * u + 1))) *c cpow (th (S q)) ((2 * u + 1) * (s * 2 ^ q + j))) (2 ^ q) =
      cpow (th (S q)) (s * 2 ^ q + j) *c stages F w q c ((2 * b + 1) * P + Z.of_nat j)) as ->.
    { rewrite IH by lia. rewrite <- csum_scale. apply csum_ext. intros u Hu.
      replace ((2 * u + 1) * (s * 2 ^ q + j))%nat with ((2 * (u * s * 2 ^ q + u * j)) + (s * 2 ^ q + j))%nat by lia.
      rewrite cpow_add, cpow_mul, <- Hsq, cpow_add, th_order by lia.
      replace (b * (2 * P) + rev (S q) (Z.of_nat (2 * u + 1))) with ((2 * b + 1) * P + rev q (Z.of_nat u)); [ring|].
      cbn [rev]. fold P. replace (Z.of_nat (2 * u + 1)) with (1 + Z.of_nat u * 2) by lia. rewrite Z.mod_add, Z.div_add by lia.
      change (1 mod 2) with 1. change (1 / 2) with 0. rewrite Z.add_0_l. lia. }
    pose proof (Hw q j ltac:(lia) Hj) as Ew. fold P in Ew. unfold stage. fold P. replace (b * (2 * P) + Z.of_nat (s * 2 ^ q + j)) with (Z.of_nat (s * 2 ^ q + j) + b * (2 * P)) by lia.
    rewrite Z.mod_add, Z.mod_small by lia. rewrite cpow_add. destruct Hs as [-> | ->]; simpl Nat.mul; rewrite ?Nat.add_0_l, ?Nat.add_0_r.
    + destruct (Z.ltb_spec (Z.of_nat j) P); [|lia]. rewrite Ew. simpl (cpow _ 0).
      replace (Z.of_nat j + b * (2 * P)) with (2 * b * P + Z.of_nat j) by lia.
      replace (2 * b * P + Z.of_nat j + P) with ((2 * b + 1) * P + Z.of_nat j) by lia. ring.
    + destruct (Z.ltb_spec (Z.of_nat (2 ^ q + j)) P); [lia|]. replace (Z.of_nat (2 ^ q + j) - P) with (Z.of_nat j) by lia.
      rewrite Ew, Hhalf by lia. replace (Z.of_nat (2 ^ q + j) + b * (2 * P)) with ((2 * b + 1) * P + Z.of_nat j) by lia.
      replace ((2 * b + 1) * P + Z.of_nat j - P) with (2 * b * P + Z.of_nat j) by lia. ring.
Qed.

(** A row is transformed. *)
Lemma fft_row_dft c k : (k < 2 ^ m)%nat -> fft_row F w m c (Z.of_nat k) = csum (fun v => c (Z.of_nat v) *c cpow (th m) (v * k)) (2 ^ m).
Proof.
  intros Hk. unfold fft_row. pose proof (stages_dft m (fun e => c (rev m e)) 0 k ltac:(lia) Hk) as H. rewrite Z.mul_0_l, Z.add_0_l in H. rewrite H.
  apply csum_ext. intros v Hv. by rewrite Z.add_0_l, rev_rev by (rewrite pow2_nat; lia).
Qed.
End Row.

(** ** The matrix *)

Section Matrix.
Context (m : nat).
Local Abbreviation n := (2 ^ m)%nat.
Local Abbreviation N := (n * n)%nat.
(** [om] is a primitive root of order [N], and the tables hold its powers. *)
Definition primitive (om : C) : Prop := (0 < m)%nat -> cpow om (2 ^ (2 * m - 1)) = cneg c1.
Definition table (om : C) (w : Z -> C) : Prop :=
  forall q j, (q < m)%nat -> (j < 2 ^ q)%nat -> w (2 ^ Z.of_nat q - 1 + Z.of_nat j) = cpow om (j * 2 ^ (2 * m - S q)).

Lemma N_pow : N = (2 ^ (2 * m))%nat.
Proof. rewrite <- Nat.pow_add_r. f_equal. lia. Qed.
Lemma order_N om u : primitive om -> (0 < m)%nat -> cpow om (N * u) = c1.
Proof.
  intros Hp Hm. rewrite N_pow. replace (2 ^ (2 * m) * u)%nat with (2 ^ (2 * m - 1) * (2 * u))%nat.
  - rewrite cpow_mul, Hp, cpow_mul by done. simpl. replace (cneg c1 *c (cneg c1 *c c1)) with c1 by ring. apply cpow_one.
  - replace (2 * m)%nat with (S (2 * m - 1)) at 2 by lia. rewrite Nat.pow_succ_r'. lia.
Qed.

Lemma row_exact om w c k : primitive om -> table om w -> (k < n)%nat ->
  fft_row F w m c (Z.of_nat k) = csum (fun v => c (Z.of_nat v) *c cpow om (n * (v * k))) n.
Proof.
  intros Hp Ht Hk. rewrite (fft_row_dft w m (fun q => cpow om (2 ^ (2 * m - q)))); [| | | |done].
  - apply csum_ext. intros v _. rewrite <- cpow_mul. by replace (2 * m - m)%nat with m by lia.
  - intros q Hq. rewrite <- cpow_mul. replace (2 * m - q)%nat with (S (2 * m - S q)) by lia. rewrite Nat.pow_succ_r'. f_equal. lia.
  - intros q Hq. rewrite <- cpow_mul, <- Nat.pow_add_r. replace (2 * m - S q + q)%nat with (2 * m - 1)%nat by lia. apply Hp. lia.
  - intros q j Hq Hj. rewrite <- cpow_mul, Nat.mul_comm. by apply Ht.
Qed.

(** The discrete Fourier transform of the rows one after the other. *)
Definition flat (X : Z -> Z -> C) (l : nat) : C := X (Z.of_nat (l / n)) (Z.of_nat (l mod n)).
Definition dft (om : C) (x : nat -> C) (k : nat) : C := csum (fun l => x l *c cpow om (l * k)) N.

Lemma six_step_dft om w tw fin X r c : primitive om -> table om w ->
  (forall i j, (i < n)%nat -> (j < n)%nat -> tw (Z.of_nat i) (Z.of_nat j) = cpow om (i * j)) -> (r < n)%nat -> (c < n)%nat ->
  six_step F w tw fin m X (Z.of_nat r) (Z.of_nat c) = fin (dft om (flat X) (r * n + c)).
Proof.
  intros Hp Ht Htw Hr Hc. unfold six_step, rows_transformed, dft. f_equal. rewrite (row_exact om) by done. rewrite csum_rows, csum_swap.
  apply csum_ext. intros i Hi. unfold columns_transformed. rewrite (row_exact om), Htw by done.
  replace (cpow om (i * c) *c csum (fun v => X (Z.of_nat v) (Z.of_nat i) *c cpow om (n * (v * c))) n *c cpow om (n * (i * r)))
    with ((cpow om (i * c) *c cpow om (n * (i * r))) *c csum (fun v => X (Z.of_nat v) (Z.of_nat i) *c cpow om (n * (v * c))) n) by ring.
  rewrite <- csum_scale. apply csum_ext. intros k Hk. unfold flat.
  replace ((k * n + i) / n)%nat with k by (rewrite Nat.div_add_l, Nat.div_small by lia; lia).
  replace ((k * n + i) mod n)%nat with i by (rewrite Nat.add_comm, Nat.Div0.mod_add, Nat.mod_small by lia; done).
  replace ((k * n + i) * (r * n + c))%nat with (N * (k * r) + (n * (k * c) + (n * (i * r) + i * c)))%nat by lia. rewrite !cpow_add.
  destruct (decide (m = 0)%nat) as [E|]; [|rewrite (order_N om) by (done || lia); ring].
  assert (k * r = 0)%nat as -> by (rewrite E in Hk; simpl in Hk; lia). rewrite Nat.mul_0_r. simpl (cpow om 0). ring.
Qed.

(** *** Back again *)

Lemma geometric z k k0 : (k0 < k)%nat -> cpow z (2 ^ k0) = cneg c1 -> csum (cpow z) (2 ^ k) = c0.
Proof.
  intros Hk Hz. induction k as [|k IH]; [lia|]. replace (2 ^ S k)%nat with (2 ^ k + 2 ^ k)%nat by (simpl; lia). rewrite csum_app.
  rewrite (csum_ext (fun i => cpow z (2 ^ k + i)) (fun i => cpow z (2 ^ k) *c cpow z i)), csum_scale by (intros; apply cpow_add).
  destruct (decide (k0 = k)) as [->|]; [rewrite Hz; ring|]. rewrite IH by lia. ring.
Qed.
Lemma odd_part d : (0 < d)%nat -> exists s o, d = (2 ^ s * (2 * o + 1))%nat.
Proof.
  induction (lt_wf d) as [d _ IH]. intros Hd. destruct (Nat.Even_or_Odd d) as [[e ->]|[o ->]]; [|exists 0%nat, o; simpl; lia].
  destruct (IH e) as (s & o & E); [lia|lia|]. exists (S s), o. rewrite Nat.pow_succ_r'. lia.
Qed.
Lemma power_sum_zero om d : primitive om -> (0 < d < N)%nat -> csum (cpow (cpow om d)) N = c0.
Proof.
  intros Hp Hd. destruct (odd_part d) as (s & o & ->); [lia|]. rewrite N_pow in *.
  assert (s < 2 * m)%nat as Hs by (apply (Nat.pow_lt_mono_r_iff 2); [lia|]; pose proof (pow2_pos s); nia).
  apply (geometric _ _ (2 * m - 1 - s)); [lia|]. rewrite <- cpow_mul.
  replace (2 ^ s * (2 * o + 1) * 2 ^ (2 * m - 1 - s))%nat with (2 ^ (2 * m - 1) * (2 * o + 1))%nat.
  - rewrite cpow_mul, Hp, cpow_add, (cpow_mul (cneg c1) 2 o) by lia. simpl. replace (cneg c1 *c (cneg c1 *c c1)) with c1 by ring. rewrite cpow_one. ring.
  - replace (2 * m - 1)%nat with (s + (2 * m - 1 - s))%nat at 1 by lia. rewrite Nat.pow_add_r. lia.
Qed.

Lemma conj_pow z k : conj (cpow z k) = cpow (conj z) k.
Proof.
  induction k as [|k IH]; simpl; [unfold conj, c1; simpl; f_equal; ring|]. rewrite <- IH. unfold conj, product. simpl. f_equal; ring.
Qed.
Lemma conj_primitive om : primitive om -> primitive (conj om).
Proof. intros Hp Hm. rewrite <- conj_pow, Hp by done. unfold conj, cneg, c1. simpl. f_equal; ring. Qed.

Lemma dft_back om x k : primitive om -> om *c conj om = c1 -> (k < N)%nat -> dft (conj om) (dft om x) k = csum (fun _ => c1) N *c x k.
Proof.
  intros Hp Hc Hk. unfold dft.
  rewrite (csum_ext _ (fun l' => csum (fun l => x l *c cpow (cpow om l *c cpow (conj om) k) l') N)).
  2:{ intros l' _. replace (csum (fun l => x l *c cpow om (l * l')) N *c cpow (conj om) (l' * k))
        with (cpow (conj om) (l' * k) *c csum (fun l => x l *c cpow om (l * l')) N) by ring.
      rewrite <- csum_scale. apply csum_ext. intros l _. rewrite cpow_prod, <- !cpow_mul, (Nat.mul_comm l' k). ring. }
  rewrite csum_swap. rewrite (csum_only _ _ k Hk).
  - rewrite csum_scale. rewrite (csum_ext _ (fun _ => c1)); [ring|]. intros i _. by rewrite <- cpow_prod, Hc, !cpow_one.
  - intros l Hl Hne. rewrite csum_scale. replace (csum _ N) with c0; [ring|]. symmetry.
    destruct (decide (k < l)%nat) as [Hlt|Hge].
    + replace (cpow om l *c cpow (conj om) k) with (cpow om (l - k)); [apply power_sum_zero; [done|lia]|].
      replace l with ((l - k) + k)%nat at 2 by lia. rewrite cpow_add.
      replace (cpow om (l - k) *c cpow om k *c cpow (conj om) k) with (cpow om (l - k) *c (cpow om k *c cpow (conj om) k)) by ring.
      rewrite <- cpow_prod, Hc, cpow_one. ring.
    + replace (cpow om l *c cpow (conj om) k) with (cpow (conj om) (k - l)); [apply power_sum_zero; [by apply conj_primitive|lia]|].
      replace k with (l + (k - l))%nat at 2 by lia. rewrite cpow_add.
      replace (cpow om l *c (cpow (conj om) l *c cpow (conj om) (k - l))) with ((cpow om l *c cpow (conj om) l) *c cpow (conj om) (k - l)) by ring.
      rewrite <- cpow_prod, Hc, cpow_one. ring.
Qed.

(** *** The program's tables and scaling *)

Context (of_long : Z -> V) (root : Z -> Z -> C) (root2 : Z -> Z -> Z -> C) (om : C).
Hypothesis Hlong : of_long 0 = zero /\ forall k, of_long (k + 1) = fadd F (of_long k) one.
Hypothesis Hroot : forall q k, (q <= 2 * m)%nat -> root (Z.of_nat k) (2 ^ Z.of_nat q) = cpow om (k * 2 ^ (2 * m - q)).
Hypothesis Hroot2 : forall i j, root2 (Z.of_nat i) (Z.of_nat j) (Z.of_nat N) = cpow om (i * j).
Hypothesis Hom : primitive om.

Lemma long_minus_one : of_long (-1) = fneg F one.
Proof. destruct Hlong as [H0 Hs]. specialize (Hs (-1)). change (-1 + 1) with 0 in Hs. rewrite H0 in Hs. replace (of_long (-1)) with (fsub F (fadd F (of_long (-1)) one) one) by ring. rewrite <- Hs. ring. Qed.
Lemma ones_sum k : csum (fun _ => c1) k = (of_long (Z.of_nat k), zero).
Proof.
  destruct Hlong as [H0 Hs]. induction k as [|k IH]; [cbn [csum]; change (Z.of_nat 0) with 0; by rewrite H0|].
  cbn [csum]. rewrite IH, Nat2Z.inj_succ, <- Z.add_1_r, Hs. unfold cadd, c1. simpl. f_equal. ring.
Qed.
Lemma toward_forth z : toward F of_long 1 z = z.
Proof.
  destruct Hlong as [H0 Hs]. specialize (Hs 0). rewrite H0 in Hs. change (0 + 1) with 1 in Hs. unfold toward. rewrite Hs. destruct z. simpl. f_equal. ring.
Qed.
Lemma toward_back z : toward F of_long (-1) z = conj z.
Proof. unfold toward. rewrite long_minus_one. unfold conj. f_equal. ring. Qed.

Lemma unity_table : table om (unity root).
Proof.
  intros q j Hq Hj. rewrite unity_at by (rewrite ?pow2_nat; lia). rewrite <- Z.pow_succ_r, <- Nat2Z.inj_succ by lia. apply Hroot. lia.
Qed.
Lemma forth X r c : (r < n)%nat -> (c < n)%nat ->
  dft_matrix F of_long root root2 (Z.of_nat N) m 1 X (Z.of_nat r) (Z.of_nat c) = dft om (flat X) (r * n + c).
Proof.
  intros Hr Hc. unfold dft_matrix. rewrite (six_step_dft om); [done|done| | |done|done].
  - intros q j Hq Hj. rewrite toward_forth. by apply unity_table.
  - intros i j Hi Hj. rewrite toward_forth, Hroot2. f_equal. lia.
Qed.
Lemma back X r c : (r < n)%nat -> (c < n)%nat ->
  dft_matrix F of_long root root2 (Z.of_nat N) m (-1) X (Z.of_nat r) (Z.of_nat c) =
  scaled F of_long (Z.of_nat N) (-1) (dft (conj om) (flat X) (r * n + c)).
Proof.
  intros Hr Hc. unfold dft_matrix. rewrite (six_step_dft (conj om)); [done|by apply conj_primitive| | |done|done].
  - intros q j Hq Hj. rewrite toward_back, unity_table by done. apply conj_pow.
  - intros i j Hi Hj. rewrite toward_back, Hroot2, Nat.mul_comm. apply conj_pow.
Qed.
Lemma there_and_back X r c : of_long (Z.of_nat N) <> zero -> om *c conj om = c1 -> (r < n)%nat -> (c < n)%nat ->
  dft_matrix F of_long root root2 (Z.of_nat N) m (-1) (dft_matrix F of_long root root2 (Z.of_nat N) m 1 X) (Z.of_nat r) (Z.of_nat c) = X (Z.of_nat r) (Z.of_nat c).
Proof.
  intros HN Hc1 Hr Hc. pose proof (pow2_pos m). rewrite back by done. unfold dft at 1.
  rewrite (csum_ext _ (fun l => dft om (flat X) l *c cpow (conj om) (l * (r * n + c)))).
  2:{ intros l Hl. f_equal. unfold flat at 1. rewrite forth; [|apply Nat.Div0.div_lt_upper_bound; lia|apply Nat.mod_upper_bound; lia].
      f_equal. pose proof (Nat.div_mod_eq l n). lia. }
  change (csum _ N) with (dft (conj om) (dft om (flat X)) (r * n + c)). rewrite dft_back by (done || nia).
  rewrite ones_sum. unfold flat. rewrite Nat.div_add_l, Nat.div_small, Nat.add_0_r by lia.
  rewrite Nat.add_comm, Nat.Div0.mod_add, Nat.mod_small by lia. unfold scaled, product. simpl.
  destruct (X _ _) as [x y]. simpl. f_equal; field; done.
Qed.
End Matrix.
End Exact.

(** Over a field, with exact tables, the transform of the matrix, read row by
    row, is the discrete Fourier transform, and transforming back gives the data. *)
Lemma dft_matrix_exact {V} (F : arith V) (zero one : V) (inv : V -> V) (of_long : Z -> V) (root : Z -> Z -> V * V)
    (root2 : Z -> Z -> Z -> V * V) (m : nat) (om : V * V) :
  field_theory zero one (fadd F) (fmul F) (fsub F) (fneg F) (fdiv F) inv eq ->
  of_long 0 = zero /\ (forall k, of_long (k + 1) = fadd F (of_long k) one) ->
  of_long (Z.of_nat (2 ^ m * 2 ^ m)) <> zero ->
  primitive F zero one m om -> product F om (conj F om) = c1 zero one ->
  (forall q k, (q <= 2 * m)%nat -> root (Z.of_nat k) (2 ^ Z.of_nat q) = cpow F zero one om (k * 2 ^ (2 * m - q))) ->
  (forall i j, root2 (Z.of_nat i) (Z.of_nat j) (Z.of_nat (2 ^ m * 2 ^ m)) = cpow F zero one om (i * j)) ->
  forall X r c, (r < 2 ^ m)%nat -> (c < 2 ^ m)%nat ->
  let T d := dft_matrix F of_long root root2 (Z.of_nat (2 ^ m * 2 ^ m)) m d in
  T 1 X (Z.of_nat r) (Z.of_nat c) = dft F zero one m om (flat m X) (r * 2 ^ m + c) /\
  T (-1) (T 1 X) (Z.of_nat r) (Z.of_nat c) = X (Z.of_nat r) (Z.of_nat c).
Proof.
  intros HF Hlong HN Hom Hc1 Hroot Hroot2 X r c Hr Hc. split.
  - by apply (forth F zero one inv HF m of_long root root2 om Hlong Hroot Hroot2 Hom).
  - by apply (there_and_back F zero one inv HF m of_long root root2 om Hlong Hroot Hroot2 Hom).
Qed.

(** Four rational numbers, and the root of order four. *)
Example four_rationals :
  let T d := dft_matrix Qc_arith (fun k => Q2Qc (inject_Z k)) (fun k n => cpow Qc_arith 0%Qc 1%Qc (0%Qc, (-(1))%Qc) (Z.to_nat (k * (4 / n))))
    (fun i j n => cpow Qc_arith 0%Qc 1%Qc (0%Qc, (-(1))%Qc) (Z.to_nat (i * j))) 4 1 d in
  let X r c := (Q2Qc (inject_Z (r + 2 * c)), Q2Qc (inject_Z (r * c))) in
  T 1 X 1 0 = dft Qc_arith 0%Qc 1%Qc 1 (0%Qc, (-(1))%Qc) (flat 1 X) 2 /\ T (-1) (T 1 X) 1 0 = X 1 0.
Proof.
  cbv zeta. apply (dft_matrix_exact Qc_arith 0%Qc 1%Qc Qcinv (fun k => Q2Qc (inject_Z k)) _ _ 1 (0%Qc, (-(1))%Qc) Qcft) with (r := 1%nat) (c := 0%nat); try lia.
  - split; [reflexivity|]. intros k. apply Qc_is_canon. simpl. unfold Qcplus. simpl. rewrite !Qred_correct, inject_Z_plus. reflexivity.
  - vm_compute. discriminate.
  - intros _. vm_compute. reflexivity.
  - vm_compute. reflexivity.
  - intros q k Hq. f_equal. assert (q = 0 \/ q = 1 \/ q = 2)%nat as [-> | [-> | ->]] by lia.
    + change (4 / 2 ^ Z.of_nat 0) with 4. change (2 ^ (2 * 1 - 0))%nat with 4%nat. lia.
    + change (4 / 2 ^ Z.of_nat 1) with 2. change (2 ^ (2 * 1 - 1))%nat with 2%nat. lia.
    + change (4 / 2 ^ Z.of_nat 2) with 1. change (2 ^ (2 * 1 - 2))%nat with 1%nat. lia.
  - intros i j. f_equal. lia.
  - simpl. lia.
  - simpl. lia.
Qed.

(** ** Exact doubles *)

(** The operations of [F] are those of [H] on the numbers that the doubles stand for. *)
Record represents {V} (F : arith Z) (H : arith V) (num : Z -> V) : Prop := {
  re_add : forall a b, num (fadd F a b) = fadd H (num a) (num b);
  re_sub : forall a b, num (fsub F a b) = fsub H (num a) (num b);
  re_mul : forall a b, num (fmul F a b) = fmul H (num a) (num b);
  re_div : forall a b, num (fdiv F a b) = fdiv H (num a) (num b) }.

Definition number {V} (num : Z -> V) (z : Z * Z) : V * V := (num z.1, num z.2).

Lemma fft_row_same {V} (F : arith V) w m c c' : (forall e, c e = c' e) -> forall e, fft_row F w m c e = fft_row F w m c' e.
Proof.
  intros H. unfold fft_row. generalize m at 1 3. intros q. induction q as [|q IH]; intros e; cbn [stages]; [by rewrite H|].
  unfold stage. by rewrite !IH.
Qed.

Section Represents.
Context {V : Type} (F : arith Z) (H : arith V) (num : Z -> V) (R : represents F H num).
Local Abbreviation nm := (number num).
Lemma num_cadd x y : nm (cadd F x y) = cadd H (nm x) (nm y).
Proof. unfold number, cadd. simpl. by rewrite !(re_add _ _ _ R). Qed.
Lemma num_csub x y : nm (csub F x y) = csub H (nm x) (nm y).
Proof. unfold number, csub. simpl. by rewrite !(re_sub _ _ _ R). Qed.
Lemma num_product x y : nm (product F x y) = product H (nm x) (nm y).
Proof. unfold number, product. simpl. by rewrite (re_sub _ _ _ R), (re_add _ _ _ R), !(re_mul _ _ _ R). Qed.
Lemma num_stages w q c e : nm (stages F w q c e) = stages H (fun i => nm (w i)) q (fun i => nm (c i)) e.
Proof.
  revert e. induction q as [|q IH]; intros e; [done|]. cbn [stages]. unfold stage. destruct (_ <? _).
  - by rewrite num_cadd, num_product, !IH.
  - by rewrite num_csub, num_product, !IH.
Qed.
Lemma num_fft_row w m c e : nm (fft_row F w m c e) = fft_row H (fun i => nm (w i)) m (fun i => nm (c i)) e.
Proof. apply num_stages. Qed.
Lemma num_six_step w tw fin fin' m X r c : (forall z, nm (fin z) = fin' (nm z)) ->
  nm (six_step F w tw fin m X r c) = six_step H (fun i => nm (w i)) (fun r c => nm (tw r c)) fin' m (fun r c => nm (X r c)) r c.
Proof.
  intros Hf. unfold six_step, rows_transformed. rewrite Hf, num_fft_row. f_equal. apply fft_row_same. intros e.
  unfold columns_transformed. by rewrite num_product, num_fft_row.
Qed.
Lemma num_toward of_long d z : nm (toward F of_long d z) = toward H (fun k => num (of_long k)) d (nm z).
Proof. unfold number, toward. simpl. by rewrite (re_mul _ _ _ R). Qed.
Lemma num_scaled of_long N d z : nm (scaled F of_long N d z) = scaled H (fun k => num (of_long k)) N d (nm z).
Proof. unfold number, scaled. destruct (d =? -1); [|done]. simpl. by rewrite !(re_div _ _ _ R). Qed.
End Represents.

Lemma num_dft_matrix {V} (F : arith Z) (H : arith V) num of_long root root2 N m d X r c : represents F H num ->
  0 <= r < 2 ^ Z.of_nat m -> 0 <= c < 2 ^ Z.of_nat m ->
  number num (dft_matrix F of_long root root2 N m d X r c) =
  dft_matrix H (fun k => num (of_long k)) (fun k n => number num (root k n)) (fun i j n => number num (root2 i j n)) N m d (fun r c => number num (X r c)) r c.
Proof.
  intros R Hr Hc. unfold dft_matrix. rewrite (num_six_step F H num R _ _ _ (scaled H (fun k => num (of_long k)) N d)) by (intros; by apply num_scaled).
  apply six_step_ext; [intros|intros|done|done|done]; by apply (num_toward F H num R).
Qed.

(** C24. In exact arithmetic the program computes the discrete Fourier transform:
    if the operations on doubles are those of a field on the numbers they stand
    for, the tables hold powers of a root of order [N] on the unit circle, the
    command line is accepted with [-m] and [-l] below 31 (shifts of an [int]), and
    the number of cache lines used for the transposition is a power of two and at
    least two (with one line nothing is transposed), then for every order of the
    threads the program ends, and [trans], read row by row, is the sum of the data times the
    powers of the root; with [-t] the data have been transformed back, and [x]
    holds the numbers that it held at the beginning. *)
Theorem fft_exact {V} (H : arith V) (zero one : V) (inv : V -> V) (F : arith Z) (num : Z -> V) (of_long : Z -> Z) (om : V * V)
    (rnd : Z -> Z) (root : Z -> Z -> Z * Z) (root2 : Z -> Z -> Z -> Z * Z) (os : list (Z * Z)) (s : settings) (G : globals) (c : nat) (z : Z) (up : nat -> list Z) (W0 : loc -> Z) :
  field_theory zero one (fadd H) (fmul H) (fsub H) (fneg H) (fdiv H) inv eq -> represents F H num ->
  num (of_long 0) = zero /\ (forall k, num (of_long (k + 1)) = fadd H (num (of_long k)) one) -> num (of_long (N G)) <> zero ->
  options os defaults = inr s -> setup s = Some (inr G) ->
  num_cache_lines G = 2 ^ Z.of_nat c -> (1 <= c)%nat -> (forall t, zlen (up t) = 2 * (rootN G - 1)) ->
  let m := Z.to_nat (Z.quot (M G) 2) in
  primitive H zero one m om -> product H om (conj H om) = c1 zero one ->
  (forall q k, (q <= 2 * m)%nat -> number num (root (Z.of_nat k) (2 ^ Z.of_nat q)) = cpow H zero one om (k * 2 ^ (2 * m - q))) ->
  (forall i j, number num (root2 (Z.of_nat i) (Z.of_nat j) (N G)) = cpow H zero one om (i * j)) ->
  wps (valid G) (fun _ => true) (fun _ => True) (prepare G rnd root root2) W0 (fun _ W =>
    ends (Z.to_nat (P G)) (valid G) (fun _ => false)
      (fun cf => forall r j, (r < 2 ^ m)%nat -> (j < 2 ^ m)%nat ->
         let x l := number num (rnd (2 * Z.of_nat l), rnd (2 * Z.of_nat l + 1)) in
         let at_ a := number num (mat (rootN G + pad_length G) (mem cf) a (Z.of_nat r) (Z.of_nat j)) in
         at_ ATrans = (if test_result G then x (r * 2 ^ m + j)%nat else dft H zero one m om x (r * 2 ^ m + j)) /\
         (test_result G || print_result G = true -> at_ AX = at_ ATrans))
      (start F of_long G z up W)).
Proof.
  intros HH R Hlong HN Hos HG Hc Hc1 Hup m. destruct (accepted_sizes os s G c Hos HG Hc Hc1) as (m' & p & OK & Hm & E).
  assert (m = m') as -> by exact E. intros Hom Hunit Hroot Hroot2. rewrite (so_rootN _ _ _ OK) in *.
  eapply wps_mono; [|by apply (program_ok F of_long G m' p)]. intros [] W He. eapply ends_mono; [|exact He]. clear He. intros cf Hcf r j Hr Hj.
  cbv zeta. assert (N G = Z.of_nat (2 ^ m' * 2 ^ m')) as EN by (rewrite (so_N _ _ _ OK), Nat2Z.inj_mul, pow2_nat; done). rewrite EN in *.
  destruct (Hcf (Z.of_nat r) (Z.of_nat j)) as [E1 E2]; [rewrite pow2_nat; lia|rewrite pow2_nat; lia|]. clear Hcf.
  split; [|intros Hcp; rewrite E1; f_equal; by apply E2]. rewrite E1.
  assert (forall l, flat m' (fun r c => number num (input m' rnd r c)) l = number num (rnd (2 * Z.of_nat l), rnd (2 * Z.of_nat l + 1))) as Hflat.
  { intros l. unfold flat, input. replace (Z.of_nat (l / 2 ^ m') * 2 ^ Z.of_nat m' + Z.of_nat (l mod 2 ^ m')) with (Z.of_nat l); [done|].
    rewrite pow2_nat, <- Nat2Z.inj_mul, <- Nat2Z.inj_add. f_equal. pose proof (Nat.div_mod_eq l (2 ^ m')). lia. }
  destruct (dft_matrix_exact H zero one inv (fun k => num (of_long k)) (fun k n => number num (root k n)) (fun i j n => number num (root2 i j n)) m' om HH Hlong HN Hom Hunit Hroot Hroot2
    (fun r c => number num (input m' rnd r c)) r j Hr Hj) as [X1 X2].
  assert (0 <= Z.of_nat r < 2 ^ Z.of_nat m') as Hr' by (rewrite pow2_nat; lia). assert (0 <= Z.of_nat j < 2 ^ Z.of_nat m') as Hj' by (rewrite pow2_nat; lia).
  destruct (test_result G).
  - rewrite num_dft_matrix with (H := H) by done. rewrite <- Hflat. unfold flat. pose proof (pow2_pos m').
    rewrite Nat.div_add_l, Nat.div_small, Nat.add_0_r, (Nat.add_comm _ j), Nat.Div0.mod_add, Nat.mod_small by lia. rewrite <- X2.
    apply six_step_ext; [done|done| |done|done]. intros r' c' Hr1 Hc2. by apply num_dft_matrix.
  - rewrite num_dft_matrix with (H := H), X1 by done. unfold dft. apply csum_ext. intros l _. by rewrite Hflat.
Qed.

(** *** Arithmetic modulo three *)

Inductive mod3 := T0 | T1 | T2.
Definition add3 (x y : mod3) : mod3 :=
  match x, y with T0, z | z, T0 => z | T1, T1 => T2 | T2, T2 => T1 | _, _ => T0 end.
Definition mul3 (x y : mod3) : mod3 :=
  match x, y with T0, _ | _, T0 => T0 | T1, z | z, T1 => z | T2, T2 => T1 end.
Definition neg3 (x : mod3) : mod3 := match x with T0 => T0 | T1 => T2 | T2 => T1 end.
Definition arith3 : arith mod3 := Arith mod3 add3 (fun x y => add3 x (neg3 y)) mul3 mul3 neg3.
Definition num3 (z : Z) : mod3 := if z mod 3 =? 0 then T0 else if z mod 3 =? 1 then T1 else T2.
(** In this field every number but zero is its own inverse. *)
Definition Z_arith3 : arith Z := Arith Z Z.add Z.sub Z.mul Z.mul Z.opp.

Lemma field3 : field_theory T0 T1 add3 mul3 (fun x y => add3 x (neg3 y)) neg3 mul3 (fun x => x) eq.
Proof.
  split; [split|done|..].
  all: try (intros [] [] []; reflexivity); try (intros [] []; reflexivity); try (intros []; reflexivity).
  intros [] Hx; done.
Qed.
Lemma num3_cases a : (a mod 3 = 0 /\ num3 a = T0) \/ (a mod 3 = 1 /\ num3 a = T1) \/ (a mod 3 = 2 /\ num3 a = T2).
Proof.
  unfold num3. pose proof (Z.mod_pos_bound a 3). destruct (Z.eqb_spec (a mod 3) 0), (Z.eqb_spec (a mod 3) 1); lia || (repeat split; auto with lia).
Qed.
Lemma represents3 : represents Z_arith3 arith3 num3.
Proof.
  split; intros a b; cbn [fadd fsub fmul fdiv Z_arith3 arith3].
  all: destruct (num3_cases a) as [[Ea ->] | [[Ea ->] | [Ea ->]]]; destruct (num3_cases b) as [[Eb ->] | [[Eb ->] | [Eb ->]]]; unfold num3.
  1-9: rewrite Z.add_mod, Ea, Eb by lia; reflexivity.
  1-9: rewrite Zminus_mod, Ea, Eb; reflexivity.
  all: rewrite Z.mul_mod, Ea, Eb by lia; reflexivity.
Qed.

(** The powers of [-i]. *)
Definition root4 (k n : Z) : Z * Z :=
  let e := (k * (4 / n)) mod 4 in if e =? 0 then (1, 0) else if e =? 1 then (0, -1) else if e =? 2 then (-1, 0) else (0, 1).
Lemma root4_pow q k : (q <= 2)%nat -> number num3 (root4 (Z.of_nat k) (2 ^ Z.of_nat q)) = cpow arith3 T0 T1 (T0, T2) (k * 2 ^ (2 - q)).
Proof.
  intros Hq. assert (Z.of_nat k * (4 / 2 ^ Z.of_nat q) = Z.of_nat (k * 2 ^ (2 - q))) as E.
  { rewrite Nat2Z.inj_mul. assert (q = 0 \/ q = 1 \/ q = 2)%nat as [-> | [-> | ->]] by lia; reflexivity. }
  unfold root4. rewrite E. generalize (k * 2 ^ (2 - q))%nat. clear. intros e.
  change 4 with (Z.of_nat 4). rewrite <- Nat2Z.inj_mod. pose proof (Nat.div_mod_eq e 4) as Ee. pose proof (Nat.mod_upper_bound e 4).
  replace (cpow arith3 T0 T1 (T0, T2) e) with (cpow arith3 T0 T1 (T0, T2) (4 * (e / 4) + e mod 4)) by (f_equal; lia).
  rewrite (cpow_add arith3 T0 T1 _ field3), (cpow_mul arith3 T0 T1 _ field3).
  change (cpow arith3 T0 T1 (T0, T2) 4) with (c1 T0 T1). rewrite (cpow_one arith3 T0 T1 _ field3).
  assert (e mod 4 = 0 \/ e mod 4 = 1 \/ e mod 4 = 2 \/ e mod 4 = 3)%nat as [-> | [-> | [-> | ->]]] by lia; reflexivity.
Qed.

(** [FFT -m2 -p2 -t], modulo three. *)
Lemma fft_exact_witness :
  let G := Globals 2 2 4 2 254 65536 true false in
  wps (valid G) (fun _ => true) (fun _ => True) (prepare G (fun k => k) root4 (fun i j n => root4 (i * j) n)) (fun _ => 0) (fun _ W =>
    ends 2 (valid G) (fun _ => false)
      (fun cf => number num3 (mat 256 (mem cf) AX 1 0) = (num3 4, num3 5))
      (start Z_arith3 (fun k => k) G 0 (fun _ => [0; 0]) W)).
Proof.
  cbv zeta. eapply wps_mono.
  2:{ apply (fft_exact arith3 T0 T1 (fun x => x) Z_arith3 num3 (fun k => k) (T0, T2) (fun k => k) root4 (fun i j n => root4 (i * j) n)
        [(109, 2); (112, 2); (116, 1)] (Settings 2 2 65536 4 false true false) (Globals 2 2 4 2 254 65536 true false) 16 0 (fun _ => [0; 0]) (fun _ => 0) field3 represents3).
      - split; [reflexivity|]. intros k. apply (re_add _ _ _ represents3 k 1).
      - vm_compute. discriminate.
      - vm_compute. reflexivity.
      - vm_compute. reflexivity.
      - vm_compute. reflexivity.
      - lia.
      - intros t. reflexivity.
      - intros _. reflexivity.
      - reflexivity.
      - intros q k Hq. apply root4_pow. exact Hq.
      - intros i j. rewrite <- Nat2Z.inj_mul. change 4 with (2 ^ Z.of_nat 2). rewrite (root4_pow 2) by lia. f_equal. simpl. lia. }
  intros [] W He. eapply ends_mono; [|exact He]. intros cf Hcf. destruct (Hcf 1%nat 0%nat) as [E1 E2]; [simpl; lia|simpl; lia|].
  etransitivity; [apply E2; reflexivity|exact E1].
Defined.
End FftExact.
