(* ===== verification/Cholesky.v ===== *)
(** * Cholesky: the analysis of a sparse matrix
      (papps/splash2/codes/kernels/cholesky/tree.C, util.C)

    Before the numbers of the factor are computed, the program finds where they
    will be: the elimination tree, the children of its nodes, the number of
    nonzeros of every column of the factor, and the columns with the same
    structure (supernodes).  Columns are numbered in the order of elimination:
    [P[j]] is the column of the matrix that is eliminated as number [j], and
    [INVP] goes back.

    - A matrix is stored by columns: the rows of column [j] are [row[col[j]]] to
      [row[col[j + 1] - 1]].
    - Arrays are lists; an access out of range is [None].  Memory that is
      allocated holds anything. *)

From stdpp Require Import base list option.
From S2P Require Import Prelude Doubles.
Local Open Scope Z_scope.

(** [for (i = a; i < b; i++)] *)
Fixpoint turns {S} (fuel : nat) (i : Z) (s : S) (body : Z -> S -> option S) : option S :=
  match fuel with
  | O => Some s
  | S fuel => let? s := body i s in turns fuel (i + 1) s body
  end.
Definition upto {S} (a b : Z) (s : S) (body : Z -> S -> option S) : option S := turns (Z.to_nat (b - a)) a s body.

Lemma upto_ok {S} (Inv : Z -> S -> Prop) a b s (body : Z -> S -> option S) : a <= b -> Inv a s ->
  (forall i s, a <= i < b -> Inv i s -> exists s', body i s = Some s' /\ Inv (i + 1) s') ->
  exists s', upto a b s body = Some s' /\ Inv b s'.
Proof.
  intros Hab H Hb. unfold upto. remember (Z.to_nat (b - a)) as k eqn:Hk. revert a s Hab H Hb Hk.
  induction k as [|k IH]; intros a s Hab H Hb Hk; cbn [turns].
  - exists s. by replace b with a by lia.
  - destruct (Hb a s ltac:(lia) H) as (s1 & -> & H1). apply IH; [lia|done| |lia]. intros; apply Hb; [lia|done].
Qed.

(** ** Arrays that are filled from the front *)

Definition elem (l : list Z) (i : Z) : Z := default 0 (znth l i).
Lemma elem_at l i : 0 <= i < zlen l -> znth l i = Some (elem l i).
Proof. intros Hi. unfold elem. destruct (znth_Some l i Hi) as [x ->]. done. Qed.

Lemma vec_elem l k : zlen l = k -> vec l k (elem l).
Proof. intros <-. split; [done|]. intros i Hi. by apply elem_at. Qed.
Lemma vec_fill_start l k f : zlen l = k -> vec l k (fun j => if j <? 0 then f j else elem l j).
Proof. intros Hl. apply (vec_ext _ _ _ _ (vec_elem l k Hl)). intros i Hi. destruct (Z.ltb_spec i 0); [lia|done]. Qed.
Lemma vec_fill l k (f g : Z -> Z) i : vec l k (fun j => if j <? i then f j else g j) -> 0 <= i < k ->
  exists l', zset l i (f i) = Some l' /\ vec l' k (fun j => if j <? i + 1 then f j else g j).
Proof.
  intros H Hi. destruct (vec_set l k _ i (f i) H Hi) as (l' & E & H'). exists l'. split; [done|]. apply (vec_ext _ _ _ _ H'). intros j Hj. cbn.
  destruct (Z.eqb_spec j i) as [->|Hne]; [destruct (Z.ltb_spec i (i + 1)); [done|lia]|]. destruct (Z.ltb_spec j i), (Z.ltb_spec j (i + 1)); done || lia.
Qed.
Lemma vec_filled l k (f g : Z -> Z) b : vec l k (fun j => if j <? b then f j else g j) -> k <= b -> vec l k f.
Proof. intros H Hb. apply (vec_ext _ _ _ _ H). intros j Hj. destruct (Z.ltb_spec j b); [done|lia]. Qed.

(** One array, and two. *)
Lemma upto_fill l k (f g : Z -> Z) b body : vec l k g -> 0 <= b <= k -> (forall i l, 0 <= i < b -> body i l = zset l i (f i)) ->
  exists l', upto 0 b l body = Some l' /\ vec l' k (fun j => if j <? b then f j else g j).
Proof.
  intros H Hb Hbody. apply (upto_ok (fun i l => vec l k (fun j => if j <? i then f j else g j))); [lia| |].
  - apply (vec_ext _ _ _ _ H). intros i Hi. destruct (Z.ltb_spec i 0); [lia|done].
  - intros i l' Hi Hl. rewrite Hbody by done. apply vec_fill; [done|lia].
Qed.
Lemma upto_fill2 l1 l2 k1 k2 b x1 x2 : zlen l1 = k1 -> zlen l2 = k2 -> 0 <= b -> b <= k1 -> b <= k2 ->
  exists l1' l2', upto 0 b (l1, l2) (fun i '(l1, l2) => let? l2 := zset l2 i x2 in let? l1 := zset l1 i x1 in Some (l1, l2)) = Some (l1', l2') /\
    vec l1' k1 (fun j => if j <? b then x1 else elem l1 j) /\ vec l2' k2 (fun j => if j <? b then x2 else elem l2 j).
Proof.
  intros H1 H2 H0 Hb1 Hb2.
  destruct (upto_ok (fun i '(l1', l2') => vec l1' k1 (fun j => if j <? i then x1 else elem l1 j) /\ vec l2' k2 (fun j => if j <? i then x2 else elem l2 j)) 0 b (l1, l2)
    (fun i '(l1, l2) => let? l2 := zset l2 i x2 in let? l1 := zset l1 i x1 in Some (l1, l2))) as ([l1' l2'] & -> & G1 & G2).
  - done.
  - split; by apply vec_fill_start.
  - intros i [a1 a2] Hi [A1 A2]. destruct (vec_fill _ _ _ _ i A2 ltac:(lia)) as (a2' & -> & G2). destruct (vec_fill _ _ _ _ i A1 ltac:(lia)) as (a1' & -> & G1). by eexists.
  - by exists l1', l2'.
Qed.

Module Cholesky.

(** [startrow] is a copy of [col]; [nz] is [NULL] in every matrix of the program. *)
Record SMatrix := Matrix { n : Z; m : Z; col : list Z; startrow : list Z; row : list Z }.

(** ** [EliminationTreeFromA] *)

(** [for (r = nabor; subtree[r] != A.n; r = subtree[r]);] *)
Fixpoint find_root (fuel : nat) (n : Z) (subtree : list Z) (r : Z) : option Z :=
  match fuel with
  | O => None
  | S fuel =>
      let? s := znth subtree r in
      if negb (s =? n) then find_root fuel n subtree s else Some r
  end.
(** The [while] loop: everything on the way points to [root]. *)
Fixpoint compress (fuel : nat) (n : Z) (subtree : list Z) (r root : Z) : option (list Z) :=
  match fuel with
  | O => None
  | S fuel =>
      let? nextr := znth subtree r in
      if negb (nextr =? n) then
        let? subtree := zset subtree r root in
        compress fuel n subtree nextr root
      else Some subtree
  end.
(** The fuel: a path goes up, and has at most [n + 1] nodes. *)
Definition link (n j nabor : Z) (T subtree : list Z) : option (list Z * list Z) :=
  let fuel := S (S (Z.to_nat n)) in
  let? r := find_root fuel n subtree nabor in
  let? (T, subtree, root) :=
    if negb (r =? j) then
      let? subtree := zset subtree r j in
      let? T := zset T r j in
      Some (T, subtree, j)
    else Some (T, subtree, r) in
  let? subtree := compress fuel n subtree nabor root in
  Some (T, subtree).

Definition EliminationTreeFromA (A : SMatrix) (T P INVP subtree : list Z) : option (list Z) :=
  let? (T, subtree) := upto 0 (n A + 1) (T, subtree) (fun i '(T, subtree) =>
    let? subtree := zset subtree i (n A) in
    let? T := zset T i (n A) in
    Some (T, subtree)) in
  let? (T, subtree) := upto 0 (n A) (T, subtree) (fun j '(T, subtree) =>
    let? nd := znth P j in
    let? a := znth (col A) nd in
    let? b := znth (col A) (nd + 1) in
    upto a b (T, subtree) (fun i '(T, subtree) =>
      let? k := znth (row A) i in
      let? nabor := znth INVP k in
      if nabor <? j then link (n A) j nabor T subtree else Some (T, subtree))) in
  Some T.

(** ** [ParentToChild] *)

(** [while (k != -1) { child[count++] = k; k = next[k]; }]: a node has at most
    [n + 1] children. *)
Fixpoint list_children (fuel : nat) (next : list Z) (k : Z) (child : list Z) (count : Z) : option (list Z * Z) :=
  match fuel with
  | O => None
  | S fuel =>
      if negb (k =? -1) then
        let? child := zset child count k in
        let? k := znth next k in
        list_children fuel next k child (count + 1)
      else Some (child, count)
  end.
Definition ParentToChild (T : list Z) (n : Z) (firstchild child next : list Z) : option (list Z * list Z) :=
  let? (firstchild, next) := upto 0 (n + 1) (firstchild, next) (fun i '(firstchild, next) =>
    let? next := zset next i (-1) in
    let? firstchild := zset firstchild i (-1) in
    Some (firstchild, next)) in
  let? (firstchild, next) := upto 0 (n + 1) (firstchild, next) (fun u '(firstchild, next) =>
    let i := n - u in
    let? parent := znth T i in
    if negb (parent =? i) then
      let? f := znth firstchild parent in
      let? next := zset next i f in
      let? firstchild := zset firstchild parent i in
      Some (firstchild, next)
    else Some (firstchild, next)) in
  let? (firstchild, child, count) := upto 0 (n + 1) (firstchild, child, 0) (fun i '(firstchild, child, count) =>
    let? k := znth firstchild i in
    let? firstchild := zset firstchild i count in
    let? (child, count) := list_children (S (S (Z.to_nat n))) next k child count in
    Some (firstchild, child, count)) in
  let? firstchild := zset firstchild (n + 1) count in
  Some (firstchild, child).

(** ** [ComputeNZ] *)

(** The [while] loop. The path ends at [i]. *)
Fixpoint climb (fuel : nat) (i : Z) (T : list Z) (k : Z) (nz marker : list Z) : option (list Z * list Z) :=
  match fuel with
  | O => None
  | S fuel =>
      let? m := znth marker k in
      if negb (m =? i) && (k <? i) then
        let? z := znth nz k in
        let? nz := zset nz k (z + 1) in
        let? marker := zset marker k i in
        let? k := znth T k in
        climb fuel i T k nz marker
      else Some (nz, marker)
  end.
Definition ComputeNZ (A : SMatrix) (T nz PERM INVP marker : list Z) : option (list Z) :=
  let? nz := upto 0 (n A) nz (fun i nz => zset nz i 1) in
  let? nz := zset nz (n A) 0 in
  let? (nz, marker) := upto 0 (n A) (nz, marker) (fun i '(nz, marker) =>
    let? nd := znth PERM i in
    let? marker := zset marker i (-1) in
    let? a := znth (col A) nd in
    let? b := znth (col A) (nd + 1) in
    upto a b (nz, marker) (fun j '(nz, marker) =>
      let? r := znth (row A) j in
      let? nabor := znth INVP r in
      climb (S (Z.to_nat (n A))) i T nabor nz marker)) in
  Some nz.

(** ** [FindSupernodes] *)

(** The loop over the columns; the state is [node], [current] and [size]. What
    is counted for the message is left out. *)
Definition FindSupernodes (A : SMatrix) (T nz node nchild : list Z) : option (list Z) :=
  let? nchild := upto 0 (n A + 1) nchild (fun i nchild => zset nchild i 0) in
  let? nchild := upto 0 (n A) nchild (fun i nchild =>
    let? t := znth T i in
    let? c := znth nchild t in
    zset nchild t (c + 1)) in
  let? (node, current, size) := upto 1 (n A) (node, 0, 1) (fun i '(node, current, size) =>
    let? z := znth nz i in
    let? z' := znth nz (i - 1) in
    let? t := znth T (i - 1) in
    let? c := znth nchild i in
    if (z =? z' - 1) && (t =? i) && (c =? 1) then
      let? node := zset node i (current - i) in
      Some (node, current, size + 1)
    else
      let? node := zset node current size in
      Some (node, i, 1)) in
  let? node := zset node current size in
  zset node (n A) 0.

(** ** [ComputeWorkTree] *)

Definition ComputeWorkTree {V} (F : arith V) (of_long : Z -> V) (A : SMatrix) (nz firstchild child : list Z) (work_tree : list V) : option (list V) :=
  upto 0 (n A + 1) work_tree (fun j work_tree =>
    let? work_tree :=
      if negb (j =? n A) then
        let? nzj := znth nz j in
        zset work_tree j (of_long (nzj + nzj * (nzj - 1)))
      else zset work_tree j (of_long 0) in
    let? a := znth firstchild j in
    let? b := znth firstchild (j + 1) in
    upto a b work_tree (fun i work_tree =>
      let? w := znth work_tree j in
      let? c := znth child i in
      let? wc := znth work_tree c in
      zset work_tree j (fadd F w wc))).

(** ** [ISort] *)

(** [while (M.row[j-1] > tmp && j > lo)]: the row before the first is read
    before [j] is looked at; [before] is what is there. *)
Fixpoint shift (fuel : nat) (before : Z) (row : list Z) (lo tmp j : Z) : option (list Z * Z) :=
  match fuel with
  | O => None
  | S fuel =>
      let? x := if j =? 0 then Some before else znth row (j - 1) in
      if (tmp <? x) && (lo <? j) then
        let? row := zset row j x in
        shift fuel before row lo tmp (j - 1)
      else Some (row, j)
  end.
Definition ISort (before : Z) (M : SMatrix) (k : Z) : option SMatrix :=
  let? hi := znth (col M) (k + 1) in
  let? lo := znth (col M) k in
  let? row := upto lo hi (row M) (fun i row =>
    let? tmp := znth row i in
    let? (row, j) := shift (S (Z.to_nat (i - lo))) before row lo tmp i in
    zset row j tmp) in
  Some (Matrix (n M) (m M) (col M) (startrow M) row).

(** ** [LowerToFull] *)

(** [AddMember(set, new)] *)
Definition AddMember (link : list Z) (set new : Z) : option (list Z) :=
  let? h := znth link set in
  let? link := zset link new h in
  zset link set new.
(** [while (j != -1)]: the columns whose next row is this one; a list has at most
    [n] columns. *)
Fixpoint drain (fuel : nat) (L : SMatrix) (j : Z) (mrow : list Z) (ind : Z) (link first : list Z) : option (list Z * Z * list Z * list Z) :=
  match fuel with
  | O => None
  | S fuel =>
      if negb (j =? -1) then
        let? nextj := znth link j in
        let? mrow := zset mrow ind j in
        let? f := znth first j in
        let? first := zset first j (f + 1) in
        let? e := znth (col L) (j + 1) in
        let? link := if f + 1 <? e then let? r := znth (row L) (f + 1) in AddMember link r j else Some link in
        drain fuel L nextj mrow (ind + 1) link first
      else Some (mrow, ind, link, first)
  end.
(** The result, the columns that are reported without a diagonal, and whether
    elements are reported lost. [mcol], [mstart] and [mrow] are the memory of the
    new matrix. *)
Definition LowerToFull (L : SMatrix) (link first mcol mstart mrow : list Z) : option (SMatrix * list Z * bool) :=
  let? (link, first) := upto 0 (n L) (link, first) (fun i '(link, first) =>
    let? first := zset first i (-1) in
    let? link := zset link i (-1) in
    Some (link, first)) in
  let mm := 2 * (m L - n L) + n L in
  let? (mcol, mrow, link, first, ind, missing) := upto 0 (n L) (mcol, mrow, link, first, 0, []) (fun i '(mcol, mrow, link, first, ind, missing) =>
    let? mcol := zset mcol i ind in
    let? a := znth (col L) i in
    let? b := znth (col L) (i + 1) in
    let? (mrow, ind) := upto a b (mrow, ind) (fun j '(mrow, ind) =>
      let? r := znth (row L) j in
      if i <=? r then let? mrow := zset mrow ind r in Some (mrow, ind + 1) else Some (mrow, ind)) in
    let? j := znth link i in
    let? (mrow, ind, link, first) := drain (S (Z.to_nat (n L))) L j mrow ind link first in
    let? first := zset first i a in
    let? d := znth (row L) a in
    let? (first, f, missing) :=
      if d =? i then let? first := zset first i (a + 1) in Some (first, a + 1, missing)
      else Some (first, a, missing ++ [i]) in
    let? link := if f <? b then let? r := znth (row L) f in AddMember link r i else Some link in
    Some (mcol, mrow, link, first, ind, missing)) in
  let? mcol := zset mcol (n L) ind in
  let? mstart := upto 0 (n L + 1) mstart (fun i mstart => let? c := znth mcol i in zset mstart i c) in
  Some (Matrix (n L) mm mcol mstart mrow, missing, negb (ind =? mm)).

(** What [ReadSparse] does with the lower triangle [M] it has read: the full
    matrix, what is reported, and [maxm]. *)
Definition arrange (before : Z) (M : SMatrix) (link first mcol mstart mrow : list Z) : option (SMatrix * list Z * bool * Z) :=
  let? M := upto 0 (n M) M (fun i M => ISort before M i) in
  let? st := upto 0 (n M + 1) (startrow M) (fun i st => let? c := znth (col M) i in zset st i c) in
  let? (F, missing, lost) := LowerToFull (Matrix (n M) (m M) (col M) st (row M)) link first mcol mstart mrow in
  let? maxm := upto 0 (n M) 0 (fun i maxm =>
    let? b := znth (col F) (i + 1) in
    let? a := znth (col F) i in
    if maxm <? b - a then Some (b - a) else Some maxm) in
  Some (F, missing, lost, maxm).

(** ** Permutations *)

(** [CreatePermutation], with the only method there is ([NO_PERM]). *)
Definition CreatePermutation (n : Z) (PERM : list Z) (no_perm : bool) : option (list Z) :=
  let? PERM := zset PERM n n in
  if no_perm then upto 0 n PERM (fun j PERM => zset PERM j j) else Some PERM.

(** The result, and whether a permutation is reported not to be one. *)
Definition InvertPerm (n : Z) (PERM INVP : list Z) : option (list Z * bool) :=
  let? INVP := upto 0 (n + 1) INVP (fun i INVP => zset INVP i (-1)) in
  let? INVP := upto 0 (n + 1) INVP (fun i INVP => let? p := znth PERM i in zset INVP p i) in
  let? bad := upto 0 (n + 1) false (fun i bad => let? p := znth INVP i in Some (bad || (p =? -1))) in
  Some (INVP, bad).
Definition ComposePerm (PERM1 PERM2 : list Z) (n : Z) (PERM3 : list Z) : option (list Z) :=
  let? PERM3 := upto 0 n PERM3 (fun i PERM3 =>
    let? p := znth PERM2 i in
    let? q := znth PERM1 p in
    zset PERM3 i q) in
  upto 0 n PERM1 (fun i PERM1 => let? q := znth PERM3 i in zset PERM1 i q).

(** ** The analysis, as [main] does it *)

(** The arrays that [main] allocates, and those that the functions allocate for
    themselves. *)
Record memory (V : Type) := Memory {
  PERM : list Z; INVP : list Z; T : list Z; firstchild : list Z; child : list Z; nz : list Z; work_tree : list V; node : list Z;
  subtree : list Z; next : list Z; marker : list Z; nchild : list Z }.
#[global] Arguments Memory {_}.
#[global] Arguments PERM {_}.
#[global] Arguments INVP {_}.
#[global] Arguments T {_}.
#[global] Arguments firstchild {_}.
#[global] Arguments child {_}.
#[global] Arguments nz {_}.
#[global] Arguments work_tree {_}.
#[global] Arguments node {_}.
#[global] Arguments subtree {_}.
#[global] Arguments next {_}.
#[global] Arguments marker {_}.
#[global] Arguments nchild {_}.

Definition analyse {V} (F : arith V) (of_long : Z -> V) (M : SMatrix) (w : memory V) : option (memory V) :=
  let? PERM := CreatePermutation (n M) (PERM w) true in
  let? (INVP, _) := InvertPerm (n M) PERM (INVP w) in
  let? T := EliminationTreeFromA M (T w) PERM INVP (subtree w) in
  let? (firstchild, child) := ParentToChild T (n M) (firstchild w) (child w) (next w) in
  let? nz := ComputeNZ M T (nz w) PERM INVP (marker w) in
  let? work_tree := ComputeWorkTree F of_long M nz firstchild child (work_tree w) in
  let? node := FindSupernodes M T nz (node w) (nchild w) in
  Some (Memory PERM INVP T firstchild child nz work_tree node (subtree w) (next w) (marker w) (nchild w)).
End Cholesky.
