(* ===== verification/Etree.v ===== *)
(** * Etree: the elimination tree is right

    Where the factor of a matrix has nonzeros is defined by elimination
    ([Filled]).  The parent of a column is the first row below the diagonal that
    is filled; [EliminationTreeFromA], which never looks at the factor, finds it
    for every column. *)

From stdpp Require Import base list option relations.
From S2P Require Import Prelude Cholesky.
Local Open Scope Z_scope.

Module Etree.
Import Cholesky.

Section Structure.
Context (A : SMatrix) (P INVP : list Z).
Local Abbreviation n := (Cholesky.n A).

(** The matrix is stored as it should, and the order of elimination is one. *)
Record matrix_ok : Prop := {
  mk_n : 0 <= n;
  mk_col : n < zlen (col A);
  mk_range j : 0 <= j < n -> 0 <= elem (col A) j <= elem (col A) (j + 1) /\ elem (col A) (j + 1) <= zlen (row A);
  mk_row j i : 0 <= j < n -> elem (col A) j <= i < elem (col A) (j + 1) -> 0 <= elem (row A) i < n;
  mk_P : n <= zlen P /\ forall j, 0 <= j < n -> 0 <= elem P j < n;
  mk_INVP : n <= zlen INVP /\ forall j, 0 <= j < n -> 0 <= elem INVP j < n }.

(** Rows [a] to [b - 1] of the matrix are those of column [j]; one of the first is [k]. *)
Definition starts (j : Z) : Z := elem (col A) (elem P j).
Definition stops (j : Z) : Z := elem (col A) (elem P j + 1).
Definition nbr_upto (j i k : Z) : Prop := exists i', starts j <= i' < i /\ elem INVP (elem (row A) i') = k.
Definition nbr (j k : Z) : Prop := nbr_upto j (stops j) k.

(** The factor: where the matrix has an element, and where elimination makes one. *)
Inductive Filled : Z -> Z -> Prop :=
| filled_nbr j k : 0 <= k < j -> j < n -> nbr j k -> Filled j k
| filled_by i j k : k < i < j -> Filled i k -> Filled j k -> Filled j i.
Definition is_parent (k j : Z) : Prop := k < j /\ Filled j k /\ forall i, k < i < j -> ~ Filled i k.

Lemma Filled_range j k : Filled j k -> 0 <= k < j /\ j < n.
Proof. induction 1; lia. Qed.

(** ** Forests *)

(** [b] is the parent of [a]; [n] is no parent. *)
Definition edge (t : Z -> Z) (a b : Z) : Prop := 0 <= a < n /\ t a = b /\ b <> n.
Local Abbreviation path t := (rtc (edge t)).

Lemma path_root t a b r : path t a b -> path t a r -> t r = n -> path t b r.
Proof.
  intros Hab. revert r. induction Hab as [a|a a' b (Ha & Ea & Ne) _ IH]; intros r Har Hr; [done|]. apply IH; [|done].
  inversion Har as [|? y ? (_ & E & _) Hy]; subst; [congruence|]. done.
Qed.
Lemma path_same t a r r' : path t a r -> path t a r' -> t r = n -> t r' = n -> r = r'.
Proof.
  intros H1 H2 Er Er'. pose proof (path_root t a r r' H1 H2 Er') as H. inversion H as [|? y ? (_ & E & Ne) _]; [done|]. congruence.
Qed.
Lemma path_mono t t' a b : (forall k, 0 <= k < n -> t k <> n -> t' k = t k) -> path t a b -> path t' a b.
Proof.
  intros H. induction 1 as [a|a a' b (Ha & Ea & Ne) _ IH]; [done|]. eapply rtc_l; [|exact IH]. split; [done|]. rewrite H by congruence. done.
Qed.

(** The tree when the rows before [j] are done, and the neighbours [D] of [j];
    [s] are the shortcuts. *)
Record forest (j : Z) (D : Z -> Prop) (t s : Z -> Z) : Prop := {
  fo_parent k : 0 <= k < n -> t k <> n -> is_parent k (t k) /\ t k <= j;
  fo_root k i : 0 <= k < n -> t k = n -> i < j -> ~ Filled i k;
  fo_end : t n = n /\ s n = n;
  fo_short k : 0 <= k < n -> (s k = n <-> t k = n) /\ (s k <> n -> k < s k < n /\ path t k (s k));
  fo_done k : D k -> 0 <= k < j -> path t k j }.

Section Row.
Context (j : Z) (D : Z -> Prop) (t s : Z -> Z) (HF : forest j D t s) (Hj : 0 <= j <= n).

Lemma fo_above k : j <= k < n -> t k = n.
Proof.
  intros Hk. destruct (decide (t k = n)) as [|Hne]; [done|]. destruct (fo_parent _ _ _ _ HF k ltac:(lia) Hne) as [[Hlt _] Hle]. lia.
Qed.
Lemma path_up a b : path t a b -> 0 <= a <= j -> a <= b <= j.
Proof.
  induction 1 as [a|a a' b (Ha & Ea & Ne) _ IH]; intros Hab; [lia|]. destruct (fo_parent _ _ _ _ HF a Ha ltac:(congruence)) as [[Hlt _] Hle]. lia.
Qed.
(** What is filled below a column is filled below its ancestors. *)
Lemma path_filled k r : path t k r -> Filled j k -> r < j -> Filled j r.
Proof.
  induction 1 as [a|a a' b (Ha & Ea & Ne) Hp IH]; intros Hk Hr; [done|]. destruct (fo_parent _ _ _ _ HF a Ha ltac:(congruence)) as [(Hlt & Hfi & _) Hle].
  rewrite Ea in *. pose proof (Filled_range _ _ Hk). pose proof (path_up a' b Hp ltac:(lia)). apply IH; [|done]. apply (filled_by a' j a); [lia|done|done].
Qed.
(** A filled row is an ancestor. *)
Lemma filled_path i k : Filled i k -> i < j -> path t k i.
Proof.
  intros Hi Hij. remember (Z.to_nat (i - k)) as d eqn:Hd. revert k Hi Hd. induction (lt_wf d) as [d _ IH]. intros k Hi Hd.
  pose proof (Filled_range _ _ Hi). destruct (decide (t k = n)) as [E|Ne]; [by destruct (fo_root _ _ _ _ HF k i ltac:(lia) E Hij)|].
  destruct (fo_parent _ _ _ _ HF k ltac:(lia) Ne) as [(Hlt & Hfi & Hmin) Hle].
  assert (t k <= i) as Hti by (destruct (decide (t k <= i)); [done|]; destruct (Hmin i ltac:(lia)); done).
  apply (rtc_l _ _ (t k)); [by split_and!; [lia|lia|done|done]|]. destruct (decide (t k = i)) as [->|]; [done|].
  apply (IH (Z.to_nat (i - t k))); [lia| |done]. apply (filled_by (t k) i k); [lia|done|done].
Qed.
Lemma filled_from_nbr i r : Filled i r -> i <= j -> exists k, nbr i k /\ 0 <= k < i /\ path t k r.
Proof.
  intros H Hi. induction H as [i k Hk Hn Hb|i' i k Hk Hi' _ Hjk IH]; [by exists k|].
  destruct (IH Hi) as (k0 & Hb & Hk0 & Hp). exists k0. split; [done|]. split; [done|]. etrans; [exact Hp|]. apply filled_path; [done|lia].
Qed.
End Row.

(** ** The loops *)

Lemma find_root_ok fuel j D t s S r : forest j D t s -> vec S (n + 1) s -> 0 <= r < n -> (Z.to_nat (n - r) < fuel)%nat ->
  exists q, find_root fuel n S r = Some q /\ path t r q /\ 0 <= q < n /\ t q = n.
Proof.
  intros HF [HS Hs]. revert r. induction fuel as [|fuel IH]; intros r Hr Hf; [lia|]. cbn [find_root]. rewrite Hs by lia.
  destruct (fo_short _ _ _ _ HF r Hr) as [Hroot Hup]. destruct (Z.eqb_spec (s r) n) as [E|Ne]; cbn [negb].
  - exists r. split; [done|]. split; [done|]. split; [done|by apply Hroot].
  - destruct (Hup Ne) as [Hlt Hp]. destruct (IH (s r)) as (q & -> & Hq & Hq'); [lia|lia|]. exists q. split; [done|]. split; [by etrans|done].
Qed.
Lemma compress_ok fuel j D t s S r : forest j D t s -> 0 <= j < n -> t j = n -> vec S (n + 1) s -> 0 <= r < n -> path t r j -> (Z.to_nat (n - r) < fuel)%nat ->
  exists S' s', compress fuel n S r j = Some S' /\ vec S' (n + 1) s' /\ forest j D t s'.
Proof.
  intros HF Hj Ej HS Hr Hp. revert s S HF HS r Hr Hp. induction fuel as [|fuel IH]; intros s S HF HS r Hr Hp Hf; [lia|]. cbn [compress].
  destruct HS as [HSl HSs]. rewrite HSs by lia. destruct (fo_short _ _ _ _ HF r Hr) as [Hroot Hup].
  destruct (Z.eqb_spec (s r) n) as [E|Ne]; cbn [negb]; [by exists S, s|]. destruct (Hup Ne) as [Hlt Hpr].
  destruct (vec_set S (n + 1) s r j) as (S1 & -> & HS1); [done|lia|].
  pose proof (path_root t r (s r) j Hpr Hp Ej) as Hp1.
  assert (r < j) as Hrlt.
  { destruct (decide (r < j)) as [|Hge]; [done|]. pose proof (fo_above j D t s HF ltac:(lia) r ltac:(lia)). tauto. }
  apply (IH (fun x => if x =? r then j else s x) S1); [|done|lia|exact Hp1|lia].
  destruct HF as [F1 F2 F3 F4 F5]. split; [done|done| | |done].
  - destruct (Z.eqb_spec n r); [lia|done].
  - intros k Hk. destruct (Z.eqb_spec k r) as [->|]; [|by apply F4]. split; [split; [lia|tauto]|]. intros _. split; [lia|done].
Qed.

Lemma link_ok j (D : Z -> Prop) t s T S k : forest j D t s -> 0 <= j < n -> vec T (n + 1) t -> vec S (n + 1) s -> nbr j k -> 0 <= k < j ->
  exists T' S' t' s', link n j k T S = Some (T', S') /\ vec T' (n + 1) t' /\ vec S' (n + 1) s' /\ forest j (fun x => D x \/ x = k) t' s'.
Proof.
  intros HF Hj HT HS Hb Hk. unfold link. set (fuel := Datatypes.S (Datatypes.S (Z.to_nat n))).
  destruct (find_root_ok fuel j D t s S k HF HS ltac:(lia) ltac:(lia)) as (r & -> & Hp & Hr & Er).
  pose proof (fo_above j D t s HF ltac:(lia) j ltac:(lia)) as Ej. destruct (Z.eqb_spec r j) as [->|Hne]; cbn [negb].
  - destruct (compress_ok fuel j D t s S k HF Hj Ej HS ltac:(lia) Hp ltac:(lia)) as (S' & s' & -> & HS' & [F1 F2 F3 F4 F5]).
    exists T, S', t, s'. split; [done|]. split; [done|]. split; [done|]. split; try done. intros x [Hx| ->] Hx'; [by apply F5|done].
  - pose proof (path_up j D t s HF ltac:(lia) k r Hp ltac:(lia)) as Hkr. assert (r < j) as Hrj by lia.
    pose proof (path_filled j D t s HF ltac:(lia) k r Hp (filled_nbr j k Hk ltac:(lia) Hb) Hrj) as Hfi.
    destruct (vec_set S (n + 1) s r j HS ltac:(lia)) as (S1 & -> & HS1). destruct (vec_set T (n + 1) t r j HT ltac:(lia)) as (T1 & -> & HT1).
    set (t1 := fun x => if x =? r then j else t x) in *. set (s1 := fun x => if x =? r then j else s x) in *.
    assert (forall a b, path t a b -> path t1 a b) as Hmono.
    { intros a b. apply path_mono. intros x Hx Hn. unfold t1. destruct (Z.eqb_spec x r) as [->|]; [done|done]. }
    assert (edge t1 r j) as Hedge by (split; [lia|]; unfold t1; rewrite Z.eqb_refl; split; [done|lia]).
    assert (forest j D t1 s1) as HF1.
    { destruct HF as [F1 F2 F3 F4 F5]. split.
      - intros x Hx Hn. unfold t1 in *. destruct (Z.eqb_spec x r) as [->|]; [|by apply F1]. split; [|lia]. split; [done|]. split; [done|]. intros i Hi. apply F2; [lia|done|lia].
      - intros x i Hx Hn Hi. unfold t1 in Hn. destruct (Z.eqb_spec x r); [lia|]. by apply F2.
      - unfold t1, s1. destruct (Z.eqb_spec n r); [lia|done].
      - intros x Hx. unfold s1. destruct (Z.eqb_spec x r) as [->|Hxr].
        + unfold t1. rewrite Z.eqb_refl. split; [lia|]. intros _. split; [lia|]. by apply rtc_once.
        + unfold t1 at 1. destruct (Z.eqb_spec x r); [done|]. destruct (F4 x Hx) as [G1 G2]. split; [done|]. intros Hs. destruct (G2 Hs). auto.
      - intros x Hx Hx'. auto. }
    assert (t1 j = n) as Ej1 by (unfold t1; destruct (Z.eqb_spec j r); [lia|done]).
    assert (path t1 k j) as Hkj by (etrans; [by apply Hmono|]; by apply rtc_once).
    destruct (compress_ok fuel j D t1 s1 S1 k HF1 Hj Ej1 HS1 ltac:(lia) Hkj ltac:(lia)) as (S' & s' & -> & HS' & [F1 F2 F3 F4 F5]).
    exists T1, S', t1, s'. split; [done|]. split; [done|]. split; [done|]. split; try done. intros x [Hx| ->] Hx'; [by apply F5|done].
Qed.

(** ** The tree *)

Lemma forest_start D : forest 0 D (fun _ => n) (fun _ => n).
Proof. split; [done| |done|done|lia]. intros k i _ _ Hi Hf. apply Filled_range in Hf. lia. Qed.
Lemma forest_next j t s : forest j (nbr j) t s -> 0 <= j < n -> forest (j + 1) (fun _ => False) t s.
Proof.
  intros HF Hj. pose proof (fo_above j _ t s HF ltac:(lia) j ltac:(lia)) as Ej. split; [| |by destruct HF|by destruct HF|done].
  - intros k Hk Hn. destruct (fo_parent _ _ _ _ HF k Hk Hn). split; [done|lia].
  - intros k i Hk Hn Hi Hf. destruct (decide (i < j)) as [Hlt|Hge]; [by destruct (fo_root _ _ _ _ HF k i Hk Hn Hlt)|].
    assert (i = j) as -> by lia. destruct (filled_from_nbr j _ t s HF j k Hf ltac:(lia)) as (k0 & Hb & Hk0 & Hp).
    pose proof (fo_done _ _ _ _ HF k0 Hb Hk0) as Hp'. pose proof (path_same t k0 k j Hp Hp' Hn Ej). pose proof (Filled_range _ _ Hf). lia.
Qed.
Lemma forest_change j (D D' : Z -> Prop) t s : (forall k, D' k -> 0 <= k < j -> D k) -> forest j D t s -> forest j D' t s.
Proof. intros H [F1 F2 F3 F4 F5]. split; try done. intros k Hk Hr. apply F5; auto. Qed.

(** The state of the loops: the arrays hold a forest. *)
Definition built (j : Z) (D : Z -> Prop) : list Z * list Z -> Prop :=
  fun '(T, sub) => exists t s, vec T (n + 1) t /\ vec sub (n + 1) s /\ forest j D t s.

Context (HA : matrix_ok).

Lemma nbr_now j i : 0 <= j < n -> starts j <= i < stops j ->
  znth (row A) i = Some (elem (row A) i) /\ 0 <= elem (row A) i < n /\
  znth INVP (elem (row A) i) = Some (elem INVP (elem (row A) i)) /\ 0 <= elem INVP (elem (row A) i) < n /\ nbr j (elem INVP (elem (row A) i)).
Proof.
  destruct HA as [M1 M2 M3 M4 [M5 M6] [M7 M8]]. intros Hj Hi. pose proof (M6 j Hj) as Hp. pose proof (M3 _ Hp) as Hc. unfold starts, stops in *.
  pose proof (M4 _ i Hp Hi) as Hr. split_and!; try apply M8; try lia; try (apply elem_at; lia). exists i. unfold starts, stops. split; [lia|done].
Qed.
Lemma column_now j : 0 <= j < n ->
  znth P j = Some (elem P j) /\ znth (col A) (elem P j) = Some (starts j) /\ znth (col A) (elem P j + 1) = Some (stops j) /\ starts j <= stops j.
Proof.
  destruct HA as [M1 M2 M3 M4 [M5 M6] [M7 M8]]. intros Hj. pose proof (M6 j Hj) as Hp. pose proof (M3 _ Hp) as Hc. unfold starts, stops.
  split_and!; try (apply elem_at; lia). lia.
Qed.
Lemma nbr_upto_S j i k : starts j <= i -> nbr_upto j (i + 1) k -> nbr_upto j i k \/ k = elem INVP (elem (row A) i).
Proof.
  intros Hi (i' & Hi' & <-). destruct (decide (i' = i)) as [->|]; [by right|]. left. exists i'. split; [lia|done].
Qed.

Lemma row_built j T S : 0 <= j < n -> built j (fun _ => False) (T, S) ->
  exists TS, upto (starts j) (stops j) (T, S) (fun i '(T, sub) =>
      let? k := znth (row A) i in
      let? nabor := znth INVP k in
      if nabor <? j then link n j nabor T sub else Some (T, sub)) = Some TS /\ built (j + 1) (fun _ => False) TS.
Proof.
  intros Hj HB. destruct (column_now j Hj) as (_ & _ & _ & Hle).
  destruct (upto_ok (fun i => built j (nbr_upto j i)) (starts j) (stops j) (T, S) (fun i '(T, sub) =>
      let? k := znth (row A) i in
      let? nabor := znth INVP k in
      if nabor <? j then link n j nabor T sub else Some (T, sub))) as ([T1 S1] & E & t & s & HT & HS & HF).
  - done.
  - destruct HB as (t & s & HT & HS & HF). exists t, s. split; [done|]. split; [done|]. revert HF. apply forest_change. intros k (i & Hi & _). lia.
  - intros i [T1 S1] Hi (t & s & HT & HS & HF). destruct (nbr_now j i Hj Hi) as (-> & _ & -> & Hr & Hb).
    destruct (Z.ltb_spec (elem INVP (elem (row A) i)) j) as [Hlt|Hge].
    + destruct (link_ok j _ t s T1 S1 _ HF Hj HT HS Hb ltac:(lia)) as (T2 & S2 & t2 & s2 & -> & HT2 & HS2 & HF2). exists (T2, S2). split; [done|].
      exists t2, s2. split; [done|]. split; [done|]. revert HF2. apply forest_change. intros k Hk _. apply nbr_upto_S in Hk; [done|lia].
    + exists (T1, S1). split; [done|]. exists t, s. split; [done|]. split; [done|]. revert HF. apply forest_change. intros k Hk Hkj. apply nbr_upto_S in Hk; [|lia].
      destruct Hk as [|]; [done|lia].
  - exists (T1, S1). split; [done|]. exists t, s. split; [done|]. split; [done|]. by apply forest_next.
Qed.

Lemma tree_built T0 S0 : zlen T0 = n + 1 -> zlen S0 = n + 1 ->
  exists T t s, EliminationTreeFromA A T0 P INVP S0 = Some T /\ vec T (n + 1) t /\ forest n (fun _ => False) t s.
Proof.
  intros HT0 HS0. destruct HA as [M1 _ _ _ _ _]. unfold EliminationTreeFromA.
  destruct (upto_fill2 T0 S0 (n + 1) (n + 1) (n + 1) n n HT0 HS0) as (T1 & S1 & -> & HT1 & HS1); [lia|lia|lia|].
  destruct (upto_ok (fun j => built j (fun _ => False)) 0 n (T1, S1) (fun j '(T, subtree) =>
    let? nd := znth P j in
    let? a := znth (col A) nd in
    let? b := znth (col A) (nd + 1) in
    upto a b (T, subtree) (fun i '(T, subtree) =>
      let? k := znth (row A) i in
      let? nabor := znth INVP k in
      if nabor <? j then link n j nabor T subtree else Some (T, subtree)))) as ([T2 S2] & -> & t & s & HT & _ & HF).
  - done.
  - exists (fun _ => n), (fun _ => n). split_and!; [by eapply vec_filled|by eapply vec_filled|apply forest_start].
  - intros j [T S] Hj HB. destruct (column_now j Hj) as (-> & -> & -> & _). by apply row_built.
  - exists T2, t, s. done.
Qed.
End Structure.

(** C26. The elimination tree, for every matrix and order of elimination: the call
    ends, and the parent of column [k] is the first row below the diagonal where
    column [k] of the factor is filled, or [n] where the column has none. *)
Theorem elimination_tree_correct A P INVP T0 subtree :
  matrix_ok A P INVP -> zlen T0 = n A + 1 -> zlen subtree = n A + 1 ->
  exists T, EliminationTreeFromA A T0 P INVP subtree = Some T /\ zlen T = n A + 1 /\ znth T (n A) = Some (n A) /\
  forall k, 0 <= k < n A -> exists p, znth T k = Some p /\
    (is_parent A P INVP k p /\ p < n A \/ p = n A /\ forall i, ~ Filled A P INVP i k).
Proof.
  intros HA HT0 HS0. destruct (tree_built A P INVP HA T0 subtree HT0 HS0) as (T & t & s & -> & [HTl HTs] & HF).
  exists T. split; [done|]. split; [done|]. pose proof (mk_n _ _ _ HA). split; [rewrite HTs by lia; by destruct (fo_end _ _ _ _ _ _ _ HF) as [-> _]|].
  intros k Hk. exists (t k). split; [apply HTs; lia|]. destruct (decide (t k = n A)) as [E|Ne].
  - right. split; [done|]. intros i Hi. pose proof (Filled_range _ _ _ _ _ Hi). by destruct (fo_root _ _ _ _ _ _ _ HF k i Hk E ltac:(lia)).
  - left. destruct (fo_parent _ _ _ _ _ _ _ HF k Hk Ne). split; [done|lia].
Qed.

(** A 4 by 4 matrix with a ring of neighbours: eliminating column 0 fills (3, 1)
    and column 1 fills (3, 2). *)
Definition ring : SMatrix := Matrix 4 8 [0; 2; 4; 6; 8] [0; 2; 4; 6; 8] [3; 1; 0; 2; 1; 3; 2; 0].
Definition natural : list Z := [0; 1; 2; 3].
Lemma cases4 (Q : Z -> Prop) : Q 0 -> Q 1 -> Q 2 -> Q 3 -> forall i, 0 <= i < 4 -> Q i.
Proof. intros H0 H1 H2 H3 i Hi. assert (i = 0 \/ i = 1 \/ i = 2 \/ i = 3) as [->|[->|[->| ->]]] by lia; done. Qed.
Lemma ring_ok : matrix_ok ring natural natural.
Proof.
  split; [done|done| | | |].
  - apply (cases4 (fun j => 0 <= elem (col ring) j <= elem (col ring) (j + 1) /\ elem (col ring) (j + 1) <= zlen (row ring))); by vm_compute.
  - intros j i Hj Hr. assert (0 <= i < 8) as Hi.
    { revert Hr. revert j Hj. apply (cases4 (fun j => elem (col ring) j <= i < elem (col ring) (j + 1) -> 0 <= i < 8)); intros H;
        [change (0 <= i < 2) in H|change (2 <= i < 4) in H|change (4 <= i < 6) in H|change (6 <= i < 8) in H]; lia. }
    clear j Hj Hr. assert (0 <= i < 4 \/ 0 <= i - 4 < 4) as [H|H] by lia.
    + clear Hi. revert i H. apply (cases4 (fun i => 0 <= elem (row ring) i < 4)); by vm_compute.
    + replace i with (i - 4 + 4) by lia. revert H. generalize (i - 4). apply (cases4 (fun i => 0 <= elem (row ring) (i + 4) < 4)); by vm_compute.
  - split; [done|]. apply (cases4 (fun i => 0 <= elem natural i < 4)); by vm_compute.
  - split; [done|]. apply (cases4 (fun i => 0 <= elem natural i < 4)); by vm_compute.
Qed.

Lemma elimination_tree_correct_witness :
  EliminationTreeFromA ring [9; 9; 9; 9; 9] natural natural [7; 7; 7; 7; 7] = Some [1; 2; 3; 4; 4] /\
  is_parent ring natural natural 1 2.
Proof.
  split; [reflexivity|].
  destruct (elimination_tree_correct ring natural natural [9; 9; 9; 9; 9] [7; 7; 7; 7; 7] ring_ok eq_refl eq_refl) as (T & E & _ & _ & H).
  destruct (H 1 ltac:(cbn; lia)) as (p & Hp & [[Q _]|[E' _]]); vm_compute in E; injection E as <-; vm_compute in Hp; injection Hp as <-; [exact Q|discriminate].
Defined.
End Etree.
