(* ===== verification/Nonzeros.v ===== *)
(** * Nonzeros: the columns of the factor are counted right

    [ComputeNZ] counts the elements of every column of the factor without
    computing it: row [i] is filled where a path of the elimination tree from a
    neighbour of [i] to [i] goes.  [FindSupernodes] then decides from the tree and
    the counts alone which columns have the same structure. *)

From stdpp Require Import base list option relations.
From S2P Require Import Prelude Cholesky Etree.
Local Open Scope Z_scope.

Module Nonzeros.
Import Cholesky Etree.

(** [x] is one more than the number of values with [Q]. *)
Definition counts (Q : Z -> Prop) (x : Z) : Prop := exists l : list Z, NoDup l /\ (forall i, i ∈ l <-> Q i) /\ x = 1 + zlen l.

Lemma counts_ext Q Q' x : (forall i, Q i <-> Q' i) -> counts Q x -> counts Q' x.
Proof. intros H (l & H1 & H2 & H3). exists l. split; [done|]. split; [|done]. intros i. by rewrite H2. Qed.
Lemma counts_none Q : (forall i, ~ Q i) -> counts Q 1.
Proof. intros H. exists []. split; [constructor|]. split; [|done]. intros i. rewrite elem_of_nil. split; [done|]. apply H. Qed.
Lemma counts_more (Q : Z -> Prop) i x : counts Q x -> ~ Q i -> counts (fun k => Q k \/ k = i) (x + 1).
Proof.
  intros (l & H1 & H2 & H3) Hi. exists (i :: l). split; [constructor; [by rewrite H2|done]|]. split; [|cbn [length]; lia].
  intros k. rewrite elem_of_cons, H2. tauto.
Qed.
(** Of two sets of the same size, one inside the other, both are the same. *)
Lemma counts_inside (Q R : Z -> Prop) x : counts Q x -> counts R x -> (forall i, Q i -> R i) -> forall i, R i -> Q i.
Proof.
  intros (l & L1 & L2 & L3) (m & M1 & M2 & M3) H i Hi. apply L2. assert (m ≡ₚ l) as Hp; [|rewrite <- Hp; by apply M2].
  symmetry. apply submseteq_length_Permutation; [|lia]. apply NoDup_submseteq; [done|]. intros k Hk. apply M2, H, L2, Hk.
Qed.

Section Count.
Context (A : SMatrix) (P INVP : list Z) (HA : matrix_ok A P INVP).
Local Abbreviation n := (Cholesky.n A).
Local Abbreviation Filled := (Etree.Filled A P INVP).
Context (T : list Z) (t s : Z -> Z) (HT : vec T (n + 1) t) (HF : forest A P INVP n (fun _ => False) t s).

(** The next filled row is at most [i], where [i] is filled. *)
Lemma filled_next i k : Filled i k -> k < t k <= i /\ (t k < i -> Filled i (t k)).
Proof.
  intros Hi. pose proof (Filled_range _ _ _ _ _ Hi) as Hr. destruct (decide (t k = n)) as [E|Ne].
  { by destruct (fo_root _ _ _ _ _ _ _ HF k i ltac:(lia) E ltac:(lia)). }
  destruct (fo_parent _ _ _ _ _ _ _ HF k ltac:(lia) Ne) as [(Hlt & Hfi & Hmin) _].
  assert (t k <= i) as Hti by (destruct (decide (t k <= i)); [done|]; by destruct (Hmin i ltac:(lia))).
  split; [lia|]. intros Hlt'. by apply (filled_by _ _ _ (t k) i k); [lia| |].
Qed.

(** Row [i]: the marked columns are filled; what is above a marked one is
    marked, but for the one that is looked at ([cur]); [D] are the neighbours
    whose paths are done. The counts are those of the rows before, and of row
    [i] where the column is marked. *)
Record climbing (i : Z) (D : Z -> Prop) (cur : Z -> Prop) (z m : Z -> Z) : Prop := {
  cl_marked k : 0 <= k < i -> m k <= i /\ (m k = i -> Filled i k);
  cl_self : m i < i;
  cl_up k : 0 <= k < i -> m k = i -> t k < i -> m (t k) = i \/ cur (t k);
  cl_done k : D k -> 0 <= k < i -> m k = i \/ cur k;
  cl_counts k : 0 <= k < n -> counts (fun x => x < i /\ Filled x k \/ x = i /\ k < i /\ m k = i) (z k) }.

Lemma climb_ok fuel i D k nz marker z m : 0 <= i < n -> vec nz (n + 1) z -> vec marker n m -> climbing i D (fun x => x = k) z m ->
  0 <= k < n -> (k < i -> Filled i k) -> (Z.to_nat (n - k) < fuel)%nat ->
  exists nz' marker' z' m', climb fuel i T k nz marker = Some (nz', marker') /\ vec nz' (n + 1) z' /\ vec marker' n m' /\ climbing i D (fun _ => False) z' m' /\
    z' n = z n.
Proof.
  intros Hi. revert k nz marker z m. induction fuel as [|fuel IH]; intros k nz marker z m Hz Hm HC Hk Hfi Hf; [lia|]. cbn [climb].
  rewrite (proj2 Hm) by lia. destruct (Z.eqb_spec (m k) i) as [E|Ne]; cbn [negb andb].
  { exists nz, marker, z, m. split_and!; try done. destruct HC as [C1 C2 C3 C4 C5]. split; try done.
    - intros x Hx Hx' Ht. destruct (C3 x Hx Hx' Ht) as [|Ex]; [by left|]. left. congruence.
    - intros x Hx Hx'. destruct (C4 x Hx Hx') as [| ->]; by left. }
  destruct (Z.ltb_spec k i) as [Hlt|Hge]; cbn [andb].
  2:{ exists nz, marker, z, m. split_and!; try done. destruct HC as [C1 C2 C3 C4 C5]. split; try done.
    - intros x Hx Hx' Ht. destruct (C3 x Hx Hx' Ht) as [|Ex]; [by left|lia].
    - intros x Hx Hx'. destruct (C4 x Hx Hx'); [by left|lia]. }
  rewrite (proj2 Hz) by lia. destruct (vec_set nz (n + 1) z k (z k + 1) Hz ltac:(lia)) as (nz1 & -> & Hz1).
  destruct (vec_set marker n m k i Hm ltac:(lia)) as (marker1 & -> & Hm1). rewrite (proj2 HT) by lia.
  destruct (filled_next i k (Hfi Hlt)) as [Hup Hnext].
  destruct (IH (t k) nz1 marker1 _ _ Hz1 Hm1) as (nz' & marker' & z' & m' & -> & G1 & G2 & G3 & G4); [|lia|done|lia|].
  2:{ exists nz', marker', z', m'. split_and!; try done. rewrite G4. destruct (Z.eqb_spec n k); [lia|done]. }
  destruct HC as [C1 C2 C3 C4 C5]. split.
  - intros x Hx. destruct (Z.eqb_spec x k) as [->|]; [|by apply C1]. split; [lia|]. intros _. by apply Hfi.
  - destruct (Z.eqb_spec i k); [lia|done].
  - intros x Hx Hx' Ht. destruct (Z.eqb_spec x k) as [->|]; [by right|]. destruct (Z.eqb_spec (t x) k); [by left|]. destruct (C3 x Hx Hx' Ht); [by left|done].
  - intros x Hx Hx'. destruct (Z.eqb_spec x k) as [->|]; [by left|]. destruct (C4 x Hx Hx'); [by left|done].
  - intros x Hx. destruct (Z.eqb_spec x k) as [->|]; [|by apply C5].
    eapply counts_ext; [|apply (counts_more _ i _ (C5 k Hx)); lia]. intros y. cbn. split; [|lia || tauto]. intros [[H|H]| ->]; [by left|lia|by right].
Qed.

(** Between rows. *)
Definition counting (i : Z) (z m : Z -> Z) : Prop :=
  (forall k, 0 <= k < i -> m k < i) /\ forall k, 0 <= k < n -> counts (fun x => x < i /\ Filled x k) (z k).

Lemma climbing_start i D z m : 0 <= i < n -> (forall k, D k -> ~ 0 <= k < i) -> counting i z m -> climbing i D (fun _ => False) z (fun k => if k =? i then -1 else m k).
Proof.
  intros Hi HD [H1 H2]. split.
  - intros k Hk. destruct (Z.eqb_spec k i); [lia|]. specialize (H1 k Hk). lia.
  - rewrite Z.eqb_refl. lia.
  - intros k Hk. destruct (Z.eqb_spec k i); [lia|]. specialize (H1 k Hk). lia.
  - intros k Hk Hk'. by destruct (HD k Hk).
  - intros k Hk. apply (counts_ext (fun x => x < i /\ Filled x k)); [|by apply H2]. intros x. split; [tauto|]. intros [?|(-> & Hlt & E)]; [done|].
    destruct (Z.eqb_spec k i); [lia|]. specialize (H1 k ltac:(lia)). lia.
Qed.
Lemma climbing_from i (D : Z -> Prop) (D' : Z -> Prop) k z m : (forall x, D' x -> D x \/ x = k) -> climbing i D (fun _ => False) z m -> climbing i D' (fun x => x = k) z m.
Proof.
  intros HD [C1 C2 C3 C4 C5]. split; try done.
  - intros x Hx Hx' Ht. destruct (C3 x Hx Hx' Ht); [by left|done].
  - intros x Hx Hx'. destruct (HD x Hx) as [H|H]; [|by right]. destruct (C4 x H Hx'); [by left|done].
Qed.
Lemma path_marked i D z m a b : climbing i D (fun _ => False) z m -> i < n -> rtc (edge A t) a b -> 0 <= a < i -> b < i -> m a = i -> m b = i.
Proof.
  intros HC Hn. induction 1 as [a|a a' b (Ha & Ea & Ne) Hp IH]; intros Hr Hb Hm; [done|]. destruct (fo_parent _ _ _ _ _ _ _ HF a Ha ltac:(congruence)) as [[Hlt _] Hle].
  pose proof (path_up _ _ _ n _ t s HF ltac:(lia) a' b Hp ltac:(lia)). apply IH; [lia|lia|]. destruct (cl_up _ _ _ _ _ HC a Hr Hm ltac:(lia)) as [G|[]]. congruence.
Qed.
Lemma climbing_end i z m : 0 <= i < n -> climbing i (nbr A P INVP i) (fun _ => False) z m -> counting (i + 1) z m.
Proof.
  intros Hi HC. pose proof HC as [C1 C2 C3 C4 C5]. split.
  - intros k Hk. destruct (decide (k = i)) as [->|]; [lia|]. destruct (C1 k ltac:(lia)). lia.
  - intros k Hk. eapply counts_ext; [|by apply C5]. intros x. cbn. split.
    + intros [[Hx Hf]|(-> & Hlt & E)]; [split; [lia|done]|]. split; [lia|]. by apply C1; [lia|].
    + intros [Hx Hf]. destruct (decide (x < i)) as [|Hge]; [by left|]. assert (x = i) as -> by lia. right. pose proof (Filled_range _ _ _ _ _ Hf). split; [done|]. split; [lia|].
      destruct (filled_from_nbr _ _ _ n _ t s HF i k Hf ltac:(lia)) as (k0 & Hb & Hk0 & Hp). apply (path_marked i _ z m k0 k HC); try lia; [done|].
      by destruct (C4 k0 Hb Hk0) as [|[]].
Qed.

(** The arrays: [nz] counts, and has a last element that is 0. *)
Definition holds (Inv : (Z -> Z) -> (Z -> Z) -> Prop) : list Z * list Z -> Prop :=
  fun '(nz, marker) => exists z m, vec nz (n + 1) z /\ vec marker n m /\ z n = 0 /\ Inv z m.

Lemma row_counted i nz marker : 0 <= i < n -> holds (counting i) (nz, marker) ->
  exists st, (let? nd := znth P i in
    let? marker := zset marker i (-1) in
    let? a := znth (col A) nd in
    let? b := znth (col A) (nd + 1) in
    upto a b (nz, marker) (fun j '(nz, marker) =>
      let? r := znth (row A) j in
      let? nabor := znth INVP r in
      climb (S (Z.to_nat n)) i T nabor nz marker)) = Some st /\ holds (counting (i + 1)) st.
Proof.
  intros Hi (z & m & Hz & Hm & H0 & HC). destruct (column_now A P INVP HA i Hi) as (-> & -> & -> & Hle).
  destruct (vec_set marker n m i (-1) Hm Hi) as (marker1 & -> & Hm1).
  destruct (upto_ok (fun j => holds (climbing i (nbr_upto A P INVP i j) (fun _ => False))) (starts A P i) (stops A P i) (nz, marker1) (fun j '(nz, marker) =>
      let? r := znth (row A) j in
      let? nabor := znth INVP r in
      climb (S (Z.to_nat n)) i T nabor nz marker)) as ([nz' marker'] & -> & z' & m' & Hz' & Hm' & H0' & HC').
  - done.
  - eexists z, _. split_and!; [done|exact Hm1|done|]. apply climbing_start; [done| |done]. intros k (j & Hj & _). lia.
  - intros j [nz2 marker2] Hj (z2 & m2 & Hz2 & Hm2 & H02 & HC2). destruct (nbr_now A P INVP HA i j Hi Hj) as (-> & _ & -> & Hr & Hb).
    set (k := elem INVP (elem (row A) j)) in *.
    destruct (climb_ok (S (Z.to_nat n)) i (nbr_upto A P INVP i (j + 1)) k nz2 marker2 z2 m2) as (nz3 & marker3 & z3 & m3 & -> & Hz3 & Hm3 & HC3 & E3);
      [done|done|done| |done| |lia|].
    + revert HC2. apply climbing_from. intros x Hx. apply nbr_upto_S in Hx; [done|lia].
    + intros Hlt. by apply filled_nbr; [lia|lia|].
    + eexists (_, _). split; [done|]. exists z3, m3. split_and!; try done. congruence.
  - eexists (_, _). split; [done|]. exists z', m'. split_and!; try done. by apply climbing_end.
Qed.

Lemma nz_counted nz0 marker : zlen nz0 = n + 1 -> zlen marker = n ->
  exists nz z, ComputeNZ A T nz0 P INVP marker = Some nz /\ vec nz (n + 1) z /\ z n = 0 /\ forall k, 0 <= k < n -> counts (fun i => Filled i k) (z k).
Proof.
  intros Hnz Hmk. unfold ComputeNZ. pose proof (mk_n _ _ _ HA) as Hn.
  destruct (upto_fill nz0 (n + 1) (fun _ => 1) (elem nz0) n (fun i nz => zset nz i 1) (vec_elem _ _ Hnz)) as (nz1 & -> & H1); [lia|done|].
  destruct (vec_set nz1 (n + 1) _ n 0 H1 ltac:(lia)) as (nz2 & -> & H2).
  destruct (upto_ok (fun i => holds (counting i)) 0 n (nz2, marker) (fun i '(nz, marker) =>
    let? nd := znth P i in
    let? marker := zset marker i (-1) in
    let? a := znth (col A) nd in
    let? b := znth (col A) (nd + 1) in
    upto a b (nz, marker) (fun j '(nz, marker) =>
      let? r := znth (row A) j in
      let? nabor := znth INVP r in
      climb (S (Z.to_nat n)) i T nabor nz marker))) as ([nz3 marker3] & -> & z & m & Hz & _ & H0 & _ & HC).
  - done.
  - eexists _, (elem marker). split_and!; [exact H2|split; [done|]; intros k Hk; apply elem_at; lia|cbn; by rewrite Z.eqb_refl|]. split; [lia|].
    intros k Hk. cbn. destruct (Z.eqb_spec k n) as [|Hne]; [lia|]. destruct (Z.ltb_spec k n); [|lia]. apply counts_none. intros i [Hi Hf]. apply Filled_range in Hf. lia.
  - intros i [nz marker'] Hi H. by apply row_counted.
  - exists nz3, z. split_and!; try done. intros k Hk. eapply counts_ext; [|by apply HC]. intros i. cbn. split; [tauto|]. intros Hf. split; [|done]. apply Filled_range in Hf. lia.
Qed.
End Count.

(** The counts, for every matrix, on the tree that [EliminationTreeFromA] found
    and whatever the uninitialised memory of the marks holds: the call ends
    without an access out of the arrays, and the count of column [k] is the
    number of rows that are filled below the diagonal, and one for the diagonal. *)
Theorem nonzeros_correct A P INVP T0 subtree nz0 marker :
  matrix_ok A P INVP -> zlen T0 = n A + 1 -> zlen subtree = n A + 1 -> zlen nz0 = n A + 1 -> zlen marker = n A ->
  exists T nz, EliminationTreeFromA A T0 P INVP subtree = Some T /\ ComputeNZ A T nz0 P INVP marker = Some nz /\ znth nz (n A) = Some 0 /\
  forall k, 0 <= k < n A -> exists l : list Z, NoDup l /\ (forall i, i ∈ l <-> Filled A P INVP i k) /\ znth nz k = Some (1 + zlen l).
Proof.
  intros HA HT0 HS0 Hnz Hmk. destruct (tree_built A P INVP HA T0 subtree HT0 HS0) as (T & t & s & -> & HT & HF).
  destruct (nz_counted A P INVP HA T t s HT HF nz0 marker Hnz Hmk) as (nz & z & Enz & [_ Hz] & Hzn & Hcount). pose proof (mk_n _ _ _ HA).
  exists T, nz. split_and!; [done|done|rewrite Hz by lia; congruence|]. intros k Hk. destruct (Hcount k Hk) as (l & L1 & L2 & L3).
  exists l. split_and!; [done|done|]. rewrite Hz by lia. congruence.
Qed.

Lemma nonzeros_correct_witness :
  ComputeNZ ring [1; 2; 3; 4; 4] [6; 6; 6; 6; 6] natural natural [0; 1; 2; 3] = Some [3; 3; 2; 1; 0] /\
  exists l : list Z, NoDup l /\ (forall i, i ∈ l <-> Filled ring natural natural i 1) /\ length l = 2%nat.
Proof.
  split; [reflexivity|].
  destruct (nonzeros_correct ring natural natural [9; 9; 9; 9; 9] [7; 7; 7; 7; 7] [6; 6; 6; 6; 6] [0; 1; 2; 3] ring_ok eq_refl eq_refl eq_refl eq_refl)
    as (T & nz & ET & Enz & _ & H).
  vm_compute in ET; injection ET as <-. vm_compute in Enz; injection Enz as <-.
  destruct (H 1 ltac:(cbn; lia)) as (l & L1 & L2 & E). exists l. split; [exact L1|]. split; [exact L2|]. assert (Some 3 = Some (1 + zlen l)) as E' by exact E. injection E'. lia.
Defined.
End Nonzeros.
