(* ===== verification/Supernodes.v ===== *)
(** * Supernodes: the columns with the same structure

    [FindSupernodes] compares counts and looks at the tree; what it joins are the
    columns with the same structure, one the only child of the other. *)

From stdpp Require Import base list option relations.
From S2P Require Import Prelude Cholesky Etree Nonzeros.
Local Open Scope Z_scope.

Module Supernodes.
Import Cholesky Etree Nonzeros.

Lemma counts_unique Q x y : counts Q x -> counts Q y -> x = y.
Proof.
  intros (l & L1 & L2 & L3) (m & M1 & M2 & M3). assert (length l = length m); [|lia]. apply Permutation_length, NoDup_Permutation; [done|done|].
  intros i. by rewrite L2, M2.
Qed.
Lemma counts_one k : counts (fun x => x = k) 2.
Proof.
  apply (counts_ext (fun x => False \/ x = k)); [tauto|]. apply (counts_more (fun _ => False) k 1); [|tauto]. apply counts_none. tauto.
Qed.

(** Column [j] goes on where [k = j - 1] ends: [j] is the parent of [k] and of no
    other, and below row [j] they are filled in the same rows. *)
Definition joins (A : SMatrix) (P INVP : list Z) (k j : Z) : Prop :=
  is_parent A P INVP k j /\ (forall k', is_parent A P INVP k' j -> k' = k) /\ forall i, j < i -> Filled A P INVP i k <-> Filled A P INVP i j.

Section Find.
Context (A : SMatrix) (P INVP : list Z) (HA : matrix_ok A P INVP).
Local Abbreviation n := (Cholesky.n A).
Local Abbreviation Filled := (Etree.Filled A P INVP).
Local Abbreviation is_parent := (Etree.is_parent A P INVP).
Context (T nz : list Z) (t s z : Z -> Z) (HT : vec T (n + 1) t) (HF : forest A P INVP n (fun _ => False) t s).
Context (Hz : vec nz (n + 1) z) (Hcount : forall k, 0 <= k < n -> counts (fun i => Filled i k) (z k)).

Lemma parent_iff k p : 0 <= k < n -> p < n -> t k = p <-> is_parent k p.
Proof.
  intros Hk Hp. split.
  - intros <-. by destruct (fo_parent _ _ _ _ _ _ _ HF k Hk ltac:(lia)).
  - intros (Hlt & Hfi & Hmin). destruct (decide (t k = n)) as [E|Ne].
    { destruct (fo_root _ _ _ _ _ _ _ HF k p Hk E ltac:(lia)). done. }
    destruct (fo_parent _ _ _ _ _ _ _ HF k Hk Ne) as [(Hlt' & Hfi' & Hmin') _].
    destruct (Z.lt_trichotomy (t k) p) as [H|[H|H]]; [by destruct (Hmin (t k) ltac:(lia))|done|by destruct (Hmin' p ltac:(lia))].
Qed.

(** Columns with one more and one less element have the same structure. *)
Lemma same_structure k : 0 <= k -> k + 1 < n -> is_parent k (k + 1) ->
  z (k + 1) = z k - 1 <-> (forall i, k + 1 < i -> Filled i k <-> Filled i (k + 1)).
Proof.
  intros Hk Hn (_ & Hfi & _). pose proof (Hcount k ltac:(lia)) as H0.
  assert (~ Filled (k + 1) (k + 1)) as Hself by (intros H; apply Filled_range in H; lia).
  pose proof (counts_more _ (k + 1) _ (Hcount (k + 1) ltac:(lia)) Hself) as H1. cbn in H1. split.
  - intros E. replace (z (k + 1) + 1) with (z k) in H1 by lia. intros i Hi. split; [intros H; by apply (filled_by _ _ _ (k + 1) i k); [lia| |]|].
    intros H. apply (counts_inside _ _ _ H0 H1); [|by left]. intros x Hx. pose proof (Filled_range _ _ _ _ _ Hx).
    destruct (decide (x = k + 1)) as [|Hne]; [by right|]. left. by apply (filled_by _ _ _ (k + 1) x k); [lia| |].
  - intros E. enough (z k = z (k + 1) + 1) by lia. eapply counts_unique; [exact H0|]. eapply counts_ext; [|exact H1]. intros x. cbn. split.
    + intros [H| ->]; [|done]. pose proof (Filled_range _ _ _ _ _ H). apply E; [lia|done].
    + intros H. pose proof (Filled_range _ _ _ _ _ H). destruct (decide (x = k + 1)); [by right|]. left. apply E; [lia|done].
Qed.

(** What the loop tests. *)
Definition joined (c : Z -> Z) (i : Z) : Prop := z i = z (i - 1) - 1 /\ t (i - 1) = i /\ c i = 1.

Lemma joined_iff c i : (forall p, 0 <= p <= n -> counts (fun k => 0 <= k < n /\ t k = p) (c p + 1)) -> 1 <= i < n ->
  joined c i <-> joins A P INVP (i - 1) i.
Proof.
  intros Hc Hi. pose proof (Hc i ltac:(lia)) as Hci. unfold joined, joins. rewrite (parent_iff (i - 1) i) by lia.
  assert (is_parent (i - 1) i -> c i = 1 <-> (forall k', is_parent k' i -> k' = i - 1)) as Hone.
  { intros Hp. split.
    - intros E k' Hk'. rewrite E in Hci. apply (counts_inside _ _ _ (counts_one (i - 1)) Hci).
      + intros x ->. split; [lia|]. by apply parent_iff; [lia|lia|].
      + destruct Hk' as (Hlt & Hfi & Hm). pose proof (Filled_range _ _ _ _ _ Hfi). split; [lia|]. apply parent_iff; [lia|lia|]. done.
    - intros Hu. enough (c i + 1 = 2) by lia. apply (counts_unique _ _ _ Hci). eapply counts_ext; [|apply (counts_one (i - 1))]. intros x. cbn. split.
      + intros ->. split; [lia|]. by apply parent_iff; [lia|lia|].
      + intros [Hx E]. apply Hu, parent_iff; [lia|lia|done]. }
  assert (is_parent (i - 1) i -> z i = z (i - 1) - 1 <-> (forall x, i < x -> Filled x (i - 1) <-> Filled x i)) as Hs.
  { intros Hp. pose proof (same_structure (i - 1)) as H. replace (i - 1 + 1) with i in H by lia. apply H; [lia|lia|done]. }
  tauto.
Qed.

(** ** The loops *)

Lemma nchild_ok nchild0 : zlen nchild0 = n + 1 -> exists nchild c,
  (let? nchild := upto 0 (n + 1) nchild0 (fun i nchild => zset nchild i 0) in
   upto 0 n nchild (fun i nchild =>
     let? t := znth T i in
     let? c := znth nchild t in
     zset nchild t (c + 1))) = Some nchild /\ vec nchild (n + 1) c /\
  forall p, 0 <= p <= n -> counts (fun k => 0 <= k < n /\ t k = p) (c p + 1).
Proof.
  intros H0. pose proof (mk_n _ _ _ HA) as Hn.
  destruct (upto_fill nchild0 (n + 1) (fun _ => 0) (elem nchild0) (n + 1) (fun i nchild => zset nchild i 0) (vec_elem _ _ H0)) as (nchild1 & -> & H1); [lia|done|].
  destruct (upto_ok (fun i l => exists c, vec l (n + 1) c /\ forall p, 0 <= p <= n -> counts (fun k => 0 <= k < i /\ t k = p) (c p + 1)) 0 n nchild1
    (fun i nchild => let? t := znth T i in let? c := znth nchild t in zset nchild t (c + 1))) as (l & -> & c & Hl & Hc).
  - done.
  - eexists. split; [exact H1|]. intros p Hp. cbn. destruct (Z.ltb_spec p (n + 1)); [|lia]. apply counts_none. lia.
  - intros i l Hi (c & Hl & Hc). rewrite (proj2 HT) by lia.
    assert (0 <= t i <= n) as Ht.
    { destruct (decide (t i = n)) as [|Ne]; [lia|]. destruct (fo_parent _ _ _ _ _ _ _ HF i Hi Ne) as [[Hlt _] Hle]. lia. }
    rewrite (proj2 Hl) by lia. destruct (vec_set l (n + 1) c (t i) (c (t i) + 1) Hl ltac:(lia)) as (l1 & -> & Hl1). exists l1. split; [done|].
    eexists. split; [exact Hl1|]. intros p Hp. cbn. destruct (Z.eqb_spec p (t i)) as [->|Hne].
    + eapply counts_ext; [|apply (counts_more _ i _ (Hc (t i) Hp)); lia]. intros x. cbn. split; [intros [[]| ->]; (split; [lia|done])|]. intros [Hx E].
      destruct (decide (x = i)); [by right|left; split; [lia|done]].
    + eapply counts_ext; [|exact (Hc p Hp)]. intros x. cbn. split; intros [Hx E]; (split; [|done]); [lia|]. destruct (decide (x = i)) as [->|]; [congruence|lia].
  - exists l, c. done.
Qed.

(** Columns [a] to [b - 1] are a supernode. *)
Definition block (J : Z -> Prop) (f : Z -> Z) (a b : Z) : Prop :=
  f a = b - a /\ (forall j, a < j < b -> J j /\ f j = a - j) /\ (a = 0 \/ ~ J a).
Definition blocks (J : Z -> Prop) (f : Z -> Z) (e : Z) : Prop :=
  forall k, 0 <= k < e -> exists a b, 0 <= a <= k /\ k < b <= e /\ block J f a b.

Lemma blocks_ext J f g e : (forall k, 0 <= k < e -> f k = g k) -> blocks J f e -> blocks J g e.
Proof.
  intros H HB k Hk. destruct (HB k Hk) as (a & b & Ha & Hb & B1 & B2 & B3). exists a, b. split; [done|]. split; [done|]. split; [rewrite <- H; [done|lia]|].
  split; [|done]. intros j Hj. rewrite <- H by lia. by apply B2.
Qed.
(** The supernode that ends at [i] is written. *)
Lemma blocks_close (J : Z -> Prop) f a i : 0 <= a < i -> blocks J f a -> (forall j, a < j < i -> J j /\ f j = a - j) -> (a = 0 \/ ~ J a) ->
  blocks J (fun k => if k =? a then i - a else f k) i.
Proof.
  intros Ha HB Hr Hf k Hk. destruct (decide (k < a)) as [Hlt|Hge].
  - apply (blocks_ext _ f (fun k => if k =? a then i - a else f k)) in HB; [|intros x Hx; destruct (Z.eqb_spec x a); [lia|done]].
    destruct (HB k ltac:(lia)) as (a' & b & H1 & H2 & H3). exists a', b. split; [done|]. split; [lia|done].
  - exists a, i. split; [lia|]. split; [lia|]. split; [by rewrite Z.eqb_refl|]. split; [|done]. intros j Hj. destruct (Z.eqb_spec j a); [lia|]. by apply Hr.
Qed.

(** The run that is open at [i]. *)
Definition running (J : Z -> Prop) (i : Z) : list Z * Z * Z -> Prop :=
  fun '(node, current, size) => 0 <= current < i /\ size = i - current /\ (current = 0 \/ ~ J current) /\
    exists f, vec node (n + 1) f /\ blocks J f current /\ forall j, current < j < i -> J j /\ f j = current - j.

Lemma running_step c nchild i node current size : vec nchild (n + 1) c -> 1 <= i < n -> running (joined c) i (node, current, size) ->
  exists st, (let? z := znth nz i in
    let? z' := znth nz (i - 1) in
    let? t := znth T (i - 1) in
    let? c := znth nchild i in
    if (z =? z' - 1) && (t =? i) && (c =? 1) then
      let? node := zset node i (current - i) in
      Some (node, current, size + 1)
    else
      let? node := zset node current size in
      Some (node, i, 1)) = Some st /\ running (joined c) (i + 1) st.
Proof.
  intros Hc Hi (Hcur & -> & Hfirst & f & Hf & HB & Hrun). rewrite (proj2 Hz), (proj2 Hz), (proj2 HT), (proj2 Hc) by lia.
  assert (reflect (joined c i) ((z i =? z (i - 1) - 1) && (t (i - 1) =? i) && (c i =? 1))) as HJ.
  { apply iff_reflect. unfold joined. rewrite !andb_true_iff, !Z.eqb_eq. tauto. }
  destruct HJ as [HJ|HJ].
  - destruct (vec_set node (n + 1) f i (current - i) Hf ltac:(lia)) as (node1 & -> & Hf1). eexists. split; [done|]. split; [lia|]. split; [lia|]. split; [done|].
    eexists. split; [exact Hf1|]. split; [revert HB; apply blocks_ext; intros k Hk; cbn; destruct (Z.eqb_spec k i); [lia|done]|].
    intros j Hj. cbn. destruct (Z.eqb_spec j i) as [->|]; [done|]. apply Hrun. lia.
  - destruct (vec_set node (n + 1) f current (i - current) Hf ltac:(lia)) as (node1 & -> & Hf1). eexists. split; [done|]. split; [lia|]. split; [lia|]. split; [by right|].
    eexists. split; [exact Hf1|]. split; [by apply blocks_close|]. lia.
Qed.

Lemma supernodes_found node0 nchild0 : 0 < n -> zlen node0 = n + 1 -> zlen nchild0 = n + 1 ->
  exists node f, FindSupernodes A T nz node0 nchild0 = Some node /\ vec node (n + 1) f /\ f n = 0 /\ blocks (fun i => joins A P INVP (i - 1) i) f n.
Proof.
  intros Hn Hnode Hnc. destruct (nchild_ok nchild0 Hnc) as (nchild & c & E & Hc & Hcc). unfold FindSupernodes.
  destruct (upto 0 (n + 1) nchild0 _) as [nchild1|] in E |- *; [|done]. rewrite E. clear E nchild1.
  destruct (upto_ok (running (joined c)) 1 n (node0, 0, 1) (fun i '(node, current, size) =>
    let? z := znth nz i in
    let? z' := znth nz (i - 1) in
    let? t := znth T (i - 1) in
    let? c := znth nchild i in
    if (z =? z' - 1) && (t =? i) && (c =? 1) then
      let? node := zset node i (current - i) in
      Some (node, current, size + 1)
    else
      let? node := zset node current size in
      Some (node, i, 1))) as ([[node current] size] & -> & Hcur & -> & Hfirst & f & Hf & HB & Hrun).
  - lia.
  - split; [lia|]. split; [lia|]. split; [by left|]. exists (elem node0). split; [split; [done|]; intros k Hk; apply elem_at; lia|]. split; [intros k Hk; lia|lia].
  - intros i [[node current] size] Hi H. by apply running_step.
  - destruct (vec_set node (n + 1) f current (n - current) Hf ltac:(lia)) as (node1 & -> & Hf1).
    destruct (vec_set node1 (n + 1) _ n 0 Hf1 ltac:(lia)) as (node2 & -> & Hf2). eexists node2, _. split; [done|]. split; [exact Hf2|]. cbn. rewrite Z.eqb_refl. split; [done|].
    pose proof (blocks_close _ f current n Hcur HB Hrun Hfirst) as HB'. intros k Hk. destruct (HB' k Hk) as (a & b & Ha & Hb & B1 & B2 & B3). exists a, b.
    split; [done|]. split; [done|]. split; [destruct (Z.eqb_spec a n); [lia|done]|]. split.
    + intros j Hj. destruct (B2 j Hj) as [HJ Ej]. destruct (Z.eqb_spec j n) as [|Hjn]; [lia|]. split; [|done]. apply (joined_iff c j Hcc); [lia|done].
    + destruct (decide (a = 0)) as [|Hne]; [by left|right]. rewrite <- (joined_iff c a Hcc) by lia. destruct B3; [done|done].
Qed.
End Find.

(** C27. The supernodes, for every matrix: from the tree and the counts, the columns
    [0] to [n - 1] are split into runs [a], ..., [b - 1]. The first column of a
    run has its length, the others point to the first (as a negative offset); in
    a run every column is the only child of the next and has the same structure
    below it, and two runs that meet could not be one. *)
Theorem supernodes_correct A P INVP T0 subtree nz0 marker node0 nchild :
  matrix_ok A P INVP -> 0 < n A -> zlen T0 = n A + 1 -> zlen subtree = n A + 1 -> zlen nz0 = n A + 1 -> zlen marker = n A ->
  zlen node0 = n A + 1 -> zlen nchild = n A + 1 ->
  exists T nz node,
    EliminationTreeFromA A T0 P INVP subtree = Some T /\
    ComputeNZ A T nz0 P INVP marker = Some nz /\
    FindSupernodes A T nz node0 nchild = Some node /\ znth node (n A) = Some 0 /\
    forall k, 0 <= k < n A -> exists a b, 0 <= a <= k /\ k < b <= n A /\ znth node a = Some (b - a) /\
      (forall j, a < j < b -> joins A P INVP (j - 1) j /\ znth node j = Some (a - j)) /\
      (a = 0 \/ ~ joins A P INVP (a - 1) a).
Proof.
  intros HA Hn HT0 HS0 Hnz Hmk Hnode Hnc. destruct (tree_built A P INVP HA T0 subtree HT0 HS0) as (T & t & s & -> & HT & HF).
  destruct (nz_counted A P INVP HA T t s HT HF nz0 marker Hnz Hmk) as (nz & z & Enz & Hz & _ & Hcount).
  destruct (supernodes_found A P INVP HA T nz t s z HT HF Hz Hcount node0 nchild Hn Hnode Hnc) as (node & f & Enode & [_ Hf] & Hfn & HB).
  exists T, nz, node. split_and!; [done|done|done|rewrite Hf by lia; congruence|].
  intros k Hk. destruct (HB k Hk) as (a & b & Ha & Hb & B1 & B2 & B3). exists a, b. split_and!; [lia|lia|lia|lia|rewrite Hf by lia; congruence| |done].
  intros j Hj. destruct (B2 j Hj) as [HJ Ej]. split; [done|]. rewrite Hf by lia. congruence.
Qed.

(** In the ring, columns 1, 2 and 3 are dense; column 0 is 1 where the others are
    too, and column 1 is filled in row 2, where column 0 is not. *)
Lemma supernodes_correct_witness :
  FindSupernodes ring [1; 2; 3; 4; 4] [3; 3; 2; 1; 0] [9; 9; 9; 9; 9] [8; 8; 8; 8; 8] = Some [1; 3; -1; -2; 0] /\
  joins ring natural natural 1 2 /\ ~ joins ring natural natural 0 1.
Proof.
  split; [reflexivity|].
  destruct (supernodes_correct ring natural natural [9; 9; 9; 9; 9] [7; 7; 7; 7; 7] [6; 6; 6; 6; 6] [5; 5; 5; 5] [9; 9; 9; 9; 9] [8; 8; 8; 8; 8]
    ring_ok eq_refl eq_refl eq_refl eq_refl eq_refl eq_refl eq_refl) as (T & nz & node & ET & Enz & En & _ & H).
  vm_compute in ET; injection ET as <-. vm_compute in Enz; injection Enz as <-. vm_compute in En; injection En as <-.
  destruct (H 1 ltac:(cbn; lia)) as (a & b & Ha & Hb & E & Hin & Hfirst). assert (a = 0 \/ a = 1) as [-> | ->] by lia.
  - assert (Some 1 = Some (b - 0)) as E' by exact E. injection E'. lia.
  - assert (Some 3 = Some (b - 1)) as E' by exact E. injection E' as Eb. assert (b = 4) as -> by lia. split; [exact (proj1 (Hin 2 ltac:(lia)))|]. destruct Hfirst as [Hf|Hf]; [discriminate|exact Hf].
Defined.
End Supernodes.
