(* ===== verification/FullMatrix.v ===== *)
(** * FullMatrix: both triangles of a symmetric matrix

    The file of a matrix has its lower triangle; [LowerToFull] makes the full
    matrix in one pass.  The columns that have not ended are kept in lists, one
    for every row, by the row that comes next; the lists are threaded through one
    array ([link]), where the entry of a column that is not yet reached is the
    head of the list of its row. *)

From stdpp Require Import base list option list_numbers.
From S2P Require Import Prelude Cholesky Etree.
Local Open Scope Z_scope.

Module FullMatrix.
Import Cholesky Etree.

(** ** Lists threaded through an array *)

Definition upd (f : Z -> Z) (i x : Z) : Z -> Z := fun k => if k =? i then x else f k.
Fixpoint chain (link : Z -> Z) (k : Z) (l : list Z) : Prop :=
  match l with [] => k = -1 | x :: l => k = x /\ chain link (link x) l end.

Lemma chain_ext link link' k l : (forall x, x ∈ l -> link x = link' x) -> chain link k l -> chain link' k l.
Proof.
  revert k. induction l as [|x l IH]; intros k H; [done|]. intros [-> Hc]. split; [done|]. rewrite <- (H x) by (left; done). apply IH; [|done]. intros y Hy. apply H. by right.
Qed.
Lemma upd_same f i x : upd f i x i = x.
Proof. unfold upd. by rewrite Z.eqb_refl. Qed.
Lemma upd_other f i x k : k <> i -> upd f i x k = f k.
Proof. intros H. unfold upd. by destruct (Z.eqb_spec k i). Qed.

(** ** Sums *)

Fixpoint total (f : Z -> Z) (k : nat) : Z := match k with O => 0 | S k => total f k + f (Z.of_nat k) end.
Lemma total_ext f g k : (forall x, 0 <= x < Z.of_nat k -> f x = g x) -> total f k = total g k.
Proof. induction k as [|k IH]; intros H; [done|]. cbn [total]. rewrite IH, H by (intros; apply H || idtac; lia). done. Qed.
Lemma total_nonneg f k : (forall x, 0 <= x < Z.of_nat k -> 0 <= f x) -> 0 <= total f k.
Proof. induction k as [|k IH]; intros H; cbn [total]; [done|]. specialize (IH ltac:(intros; apply H; lia)). specialize (H (Z.of_nat k) ltac:(lia)). lia. Qed.
Lemma total_upd f g j k : 0 <= j < Z.of_nat k -> (forall x, 0 <= x < Z.of_nat k -> g x = if x =? j then f x - 1 else f x) -> total g k = total f k - 1.
Proof.
  induction k as [|k IH]; intros Hj H; [lia|]. cbn [total]. rewrite (H (Z.of_nat k)) by lia. destruct (Z.eqb_spec (Z.of_nat k) j) as [E|Hne].
  - rewrite (total_ext g f k); [lia|]. intros x Hx. rewrite H by lia. destruct (Z.eqb_spec x j); [lia|done].
  - rewrite IH; [lia|lia|]. intros x Hx. apply H. lia.
Qed.

Lemma mono_le (f : Z -> Z) k a b : (forall j, 0 <= j < k -> f j < f (j + 1)) -> 0 <= a <= b -> b <= k -> f a <= f b.
Proof.
  intros H Ha Hb. replace b with (a + Z.of_nat (Z.to_nat (b - a))) by lia. assert (a + Z.of_nat (Z.to_nat (b - a)) <= k) as Hk by lia. revert Hk.
  induction (Z.to_nat (b - a)) as [|d IH]; intros Hk; [by rewrite Z.add_0_r|]. specialize (IH ltac:(lia)). specialize (H (a + Z.of_nat d) ltac:(lia)).
  replace (a + Z.of_nat (S d)) with (a + Z.of_nat d + 1) by lia. lia.
Qed.

Section Full.
Context (L : SMatrix).
Local Abbreviation n := (Cholesky.n L).
Local Abbreviation m := (Cholesky.m L).
Local Abbreviation cl := (elem (col L)).
Local Abbreviation rw := (elem (row L)).

(** A lower triangle: every column has its diagonal first, and its rows in order. *)
Record lower_ok : Prop := {
  lo_n : 0 <= n;
  lo_len : n < zlen (col L) /\ cl 0 = 0 /\ cl n = m /\ m <= zlen (row L);
  lo_col j : 0 <= j < n -> cl j < cl (j + 1);
  lo_diag j : 0 <= j < n -> rw (cl j) = j;
  lo_rows j a b : 0 <= j < n -> cl j <= a < b -> b < cl (j + 1) -> rw a < rw b;
  lo_last j a : 0 <= j < n -> cl j <= a < cl (j + 1) -> rw a < n }.

(** Column [j] has row [r] in the file. *)
Definition stored (j r : Z) : Prop := 0 <= j < n /\ exists a, cl j <= a < cl (j + 1) /\ rw a = r.

Context (HL : lower_ok).

Lemma col_le j k : 0 <= j <= k -> k <= n -> cl j <= cl k.
Proof. apply mono_le, (lo_col HL). Qed.
Lemma col_bound j : 0 <= j <= n -> 0 <= cl j <= m.
Proof. intros Hj. destruct (lo_len HL) as (_ & H0 & Hm & _). rewrite <- Hm, <- H0. split; apply col_le; lia. Qed.
Lemma row_from j a : 0 <= j < n -> cl j <= a < cl (j + 1) -> j <= rw a < n.
Proof.
  intros Hj Ha. split; [|by apply (lo_last HL j)]. rewrite <- (lo_diag HL j Hj) at 1. destruct (decide (a = cl j)) as [->|]; [lia|].
  pose proof (lo_rows HL j (cl j) a Hj ltac:(lia) ltac:(lia)). lia.
Qed.
Lemma col_at j : 0 <= j <= n -> znth (col L) j = Some (cl j).
Proof. intros Hj. apply elem_at. destruct (lo_len HL). lia. Qed.
Lemma row_at a : 0 <= a < m -> znth (row L) a = Some (rw a).
Proof. intros Ha. apply elem_at. destruct (lo_len HL). lia. Qed.

(** ** The lists *)

(** The next row of column [j] is [r]. *)
Definition waits (fs : Z -> Z) (j r : Z) : Prop := fs j < cl (j + 1) /\ rw (fs j) = r.
Definition listed (K : Z -> Prop) (lk fs : Z -> Z) (r : Z) (l : list Z) : Prop :=
  chain lk (lk r) l /\ NoDup l /\ forall j, j ∈ l <-> K j /\ waits fs j r.
Definition lists (K : Z -> Prop) (hi : Z) (lk fs : Z -> Z) : Prop :=
  forall r, hi <= r < n -> exists l, listed K lk fs r l.

(** A column that is in no list goes into that of its next row. *)
Lemma lists_add (K : Z -> Prop) hi lk fs j : lists K hi lk fs -> (forall x, K x -> x < hi) -> ~ K j -> j < hi -> hi <= rw (fs j) -> fs j < cl (j + 1) ->
  lists (fun x => K x \/ x = j) hi (upd (upd lk j (lk (rw (fs j)))) (rw (fs j)) j) fs.
Proof.
  intros HK Hlt Hj Hjh Hr Hf r Hrr. set (q := rw (fs j)) in *. destruct (HK r Hrr) as (l & Hc & Hnd & Hl).
  assert (forall x, x ∈ l -> x <> j /\ x <> q) as Hx. { intros x Hx. apply Hl in Hx as [Hx _]. split; [congruence|]. specialize (Hlt x Hx). lia. }
  assert (chain (upd (upd lk j (lk q)) q j) (lk r) l) as Hc'.
  { revert Hc. apply chain_ext. intros x Hxl. destruct (Hx x Hxl). by rewrite !upd_other. }
  destruct (decide (r = q)) as [->|Hne].
  - exists (j :: l). split_and!.
    + rewrite upd_same. split; [done|]. rewrite upd_other by lia. by rewrite upd_same.
    + constructor; [|done]. intros Hin. by destruct (Hx j Hin).
    + intros x. rewrite elem_of_cons, Hl. split; [intros [->|[]]; [|tauto]; split; [tauto|done]|tauto].
  - exists l. split_and!; [|done|].
    + by rewrite !upd_other by lia.
    + intros x. rewrite Hl. split; [tauto|]. intros [[|]]; [tauto|]. subst x. by destruct H0 as [_ ?].
Qed.
Lemma lists_ended (K : Z -> Prop) hi lk fs j : lists K hi lk fs -> cl (j + 1) <= fs j -> lists (fun x => K x \/ x = j) hi lk fs.
Proof.
  intros HK Hj r Hr. destruct (HK r Hr) as (l & Hc & Hnd & Hl). exists l. split_and!; [done|done|]. intros x. rewrite Hl. split; [tauto|]. intros [[|]]; [tauto|]. subst x. destruct H0. lia.
Qed.
Lemma lists_ext (K K' : Z -> Prop) hi hi' lk fs fs' : lists K hi lk fs -> hi <= hi' -> (forall x, K x <-> K' x) -> (forall x, K x -> fs x = fs' x) -> lists K' hi' lk fs'.
Proof.
  intros HK Hhi HKK Hfs r Hr. destruct (HK r ltac:(lia)) as (l & Hc & Hnd & Hl). exists l. split_and!; [done|done|].
  intros x. rewrite Hl. rewrite <- HKK. split; (intros [Hx Hw]; split; [done|]); unfold waits in *; [rewrite <- Hfs|rewrite Hfs]; done.
Qed.

(** The columns before [k]: rows less than [hi] are done, the next is at least [lo]. *)
Definition placed (k lo hi : Z) (fs : Z -> Z) : Prop :=
  forall j, 0 <= j < k -> cl j < fs j <= cl (j + 1) /\ (forall a, cl j <= a < fs j -> rw a < hi) /\ (fs j < cl (j + 1) -> lo <= rw (fs j)).

(** What is still to come. *)
Definition left_over (fs : Z -> Z) (k : Z) : Z := total (fun j => cl (j + 1) - fs j) (Z.to_nat k).

Lemma left_nonneg k lo hi fs : placed k lo hi fs -> 0 <= left_over fs k.
Proof. intros H. apply total_nonneg. intros x Hx. destruct (H x ltac:(lia)). lia. Qed.
Lemma left_step fs j k : 0 <= j < k -> left_over (upd fs j (fs j + 1)) k = left_over fs k - 1.
Proof. intros Hj. unfold left_over. apply (total_upd _ _ j); [lia|]. intros x Hx. unfold upd. destruct (Z.eqb_spec x j) as [->|]; lia. Qed.
Lemma left_some fs j k lo hi : placed k lo hi fs -> 0 <= j < k -> fs j < cl (j + 1) -> 0 < left_over fs k.
Proof.
  intros HP Hj Hlt. enough (0 <= left_over (upd fs j (fs j + 1)) k) by (rewrite left_step in H by lia; lia).
  apply total_nonneg. intros x Hx. destruct (HP x ltac:(lia)) as [Hr _]. unfold upd. destruct (Z.eqb_spec x j) as [->|]; lia.
Qed.

(** ** The loops *)

Lemma vec_upd l k f i x : vec l k f -> 0 <= i < k -> exists l', zset l i x = Some l' /\ vec l' k (upd f i x).
Proof. apply vec_set. Qed.
Lemma AddMember_ok link lk s j : vec link n lk -> 0 <= s < n -> 0 <= j < n ->
  exists link', AddMember link s j = Some link' /\ vec link' n (upd (upd lk j (lk s)) s j).
Proof.
  intros Hl Hs Hj. unfold AddMember. rewrite (proj2 Hl) by done. destruct (vec_upd link n lk j (lk s) Hl Hj) as (l1 & -> & H1).
  destruct (vec_upd l1 n _ s j H1 Hs) as (l2 & -> & H2). by exists l2.
Qed.

(** Column [j], the first in the list of row [i], goes on to its next row. *)
Lemma drain_step i j l lk fs link : 0 <= i < n -> vec link n lk -> placed i i (i + 1) fs ->
  lists (fun x => 0 <= x < i /\ x ∉ j :: l) (i + 1) lk fs -> chain lk (lk j) l -> NoDup (j :: l) ->
  (forall x, x ∈ j :: l <-> 0 <= x < i /\ waits fs x i) ->
  exists link' lk', (if fs j + 1 <? cl (j + 1) then let? r := znth (row L) (fs j + 1) in AddMember link r j else Some link) = Some link' /\ vec link' n lk' /\
    placed i i (i + 1) (upd fs j (fs j + 1)) /\ lists (fun x => 0 <= x < i /\ x ∉ l) (i + 1) lk' (upd fs j (fs j + 1)) /\
    chain lk' (lk j) l /\ (forall x, x ∈ l <-> 0 <= x < i /\ waits (upd fs j (fs j + 1)) x i).
Proof.
  intros Hi Hlk HP HK Hc Hnd Hl. set (fs' := upd fs j (fs j + 1)). inversion Hnd as [|? ? Hjl Hndl]; subst.
  destruct (proj1 (Hl j) ltac:(left; done)) as [Hj [Hw Hwi]]. destruct (HP j Hj) as ([Hf1 Hf2] & Hpast & Hfut). pose proof (col_bound (j + 1) ltac:(lia)) as Hcb. pose proof (col_bound j ltac:(lia)) as Hcb'.
  assert (fs j + 1 < cl (j + 1) -> i < rw (fs j + 1) < n) as Hnext.
  { intros Hlt. pose proof (lo_rows HL j (fs j) (fs j + 1) ltac:(lia) ltac:(lia) Hlt). pose proof (row_from j (fs j + 1) ltac:(lia) ltac:(lia)). lia. }
  assert (placed i i (i + 1) fs') as HP'.
  { intros x Hx. destruct (decide (x = j)) as [->|Hne]; [|unfold fs'; rewrite upd_other by done; by apply HP]. unfold fs'. rewrite upd_same. split; [lia|]. split.
    - intros a Ha. destruct (decide (a = fs j)) as [->|]; [lia|]. apply Hpast. lia.
    - intros Hlt. specialize (Hnext Hlt). lia. }
  assert (forall x, x ∈ l <-> 0 <= x < i /\ waits fs' x i) as Hl'.
  { intros x. unfold waits, fs'. destruct (decide (x = j)) as [->|Hne].
    - rewrite upd_same. split; [done|]. intros (_ & Hlt & E). specialize (Hnext Hlt). lia.
    - rewrite upd_other by done. rewrite <- Hl. rewrite elem_of_cons. tauto. }
  assert (lists (fun x => 0 <= x < i /\ x ∉ j :: l) (i + 1) lk fs') as HK1.
  { apply (lists_ext _ _ _ _ _ _ _ HK); [lia|done|]. intros x [_ Hx]. unfold fs'. rewrite upd_other; [done|]. intros ->. apply Hx. left. }
  assert (forall lk', lists (fun x => (0 <= x < i /\ x ∉ j :: l) \/ x = j) (i + 1) lk' fs' -> lists (fun x => 0 <= x < i /\ x ∉ l) (i + 1) lk' fs') as Hset.
  { intros lk' H. apply (lists_ext _ _ _ _ _ _ _ H); [lia| |done]. intros x. rewrite elem_of_cons. destruct (decide (x = j)) as [->|]; tauto. }
  assert (fs' j = fs j + 1) as Efs by apply upd_same.
  destruct (Z.ltb_spec (fs j + 1) (cl (j + 1))) as [Hlt|Hge].
  - rewrite row_at by lia. specialize (Hnext Hlt). destruct (AddMember_ok link lk (rw (fs j + 1)) j Hlk ltac:(lia) ltac:(lia)) as (link' & -> & Hlk').
    eexists _, _. split; [done|]. split; [exact Hlk'|]. split; [done|]. split; [|split; [|done]].
    + apply Hset. rewrite <- Efs. apply lists_add; [exact HK1| | |lia|rewrite Efs; lia|by rewrite Efs]; [intros x []; lia|]. intros [_ H]. apply H. left.
    + revert Hc. apply chain_ext. intros x Hx. destruct (proj1 (Hl x) ltac:(right; done)). rewrite !upd_other; [done| |lia]. by intros ->.
  - exists link, lk. split; [done|]. split; [done|]. split; [done|]. split; [|done]. apply Hset, lists_ended; [done|lia].
Qed.

Lemma drain_ok fuel i j l lk fs link first out rest : 0 <= i < n -> vec link n lk -> vec first n fs -> placed i i (i + 1) fs ->
  lists (fun x => 0 <= x < i /\ x ∉ l) (i + 1) lk fs -> chain lk j l -> NoDup l -> (forall x, x ∈ l <-> 0 <= x < i /\ waits fs x i) ->
  left_over fs i <= zlen rest -> (length l < fuel)%nat ->
  exists link' first' lk' fs' rest', drain fuel L j (out ++ rest) (zlen out) link first = Some ((out ++ l) ++ rest', zlen (out ++ l), link', first') /\
    vec link' n lk' /\ vec first' n fs' /\ placed i (i + 1) (i + 1) fs' /\ lists (fun x => 0 <= x < i) (i + 1) lk' fs' /\
    left_over fs' i = left_over fs i - zlen l /\ zlen rest' = zlen rest - zlen l.
Proof.
  intros Hi. revert j l lk fs link first out rest. induction fuel as [|fuel IH]; intros j l lk fs link first out rest Hlk Hfs HP HK Hc Hnd Hl Hroom Hfuel; [lia|].
  destruct l as [|x l]; cbn [chain] in Hc; cbn [drain].
  - subst j. cbn. exists link, first, lk, fs, rest. rewrite app_nil_r. split_and!; [done|done|done| | |lia|lia].
    + intros j Hj. destruct (HP j Hj) as (H1 & H2 & H3). split; [done|]. split; [done|]. intros Hlt. specialize (H3 Hlt).
      destruct (decide (rw (fs j) = i)) as [E|]; [|lia]. pose proof (proj2 (Hl j) (conj Hj (conj Hlt E))) as Hin. by apply elem_of_nil in Hin.
    + apply (lists_ext _ _ _ _ _ _ _ HK); [lia| |done]. intros j. rewrite elem_of_nil. tauto.
  - destruct Hc as [-> Hc]. destruct (proj1 (Hl x) ltac:(left; done)) as [Hx [Hw Hwi]]. destruct (Z.eqb_spec x (-1)) as [|_]; [lia|]. cbn [negb].
    rewrite (proj2 Hlk) by lia. pose proof (left_some fs x i i (i + 1) HP Hx Hw) as Hsome. destruct rest as [|y rest]; [cbn [length] in Hroom; lia|].
    rewrite zset_middle. rewrite (proj2 Hfs) by lia. destruct (vec_upd first n fs x (fs x + 1) Hfs ltac:(lia)) as (first1 & -> & Hfs1). rewrite col_at by lia.
    destruct (drain_step i x l lk fs link Hi Hlk HP HK Hc Hnd Hl) as (link1 & lk1 & -> & Hlk1 & HP1 & HK1 & Hc1 & Hl1). apply NoDup_cons in Hnd as [_ Hnd].
    cbn [length] in Hroom, Hfuel. pose proof (left_step fs x i Hx) as Hstep.
    destruct (IH (lk x) l lk1 _ link1 first1 (out ++ [x]) rest Hlk1 Hfs1 HP1 HK1 Hc1 Hnd Hl1 ltac:(lia) ltac:(lia)) as (link' & first' & lk' & fs' & rest' & E & G).
    replace (zlen (out ++ [x])) with (zlen out + 1) in E by (rewrite length_app; cbn; lia). replace ((out ++ [x]) ++ rest) with (out ++ x :: rest) in E by (by rewrite <- app_assoc).
    rewrite E. replace ((out ++ [x]) ++ l) with (out ++ x :: l) by (by rewrite <- app_assoc). exists link', first', lk', fs', rest'.
    destruct G as (G1 & G2 & G3 & G4 & G5 & G6). split_and!; try done; cbn [length]; lia.
Qed.

(** The rows of column [i] in the file. *)
Definition seg (i : Z) : list Z := rw <$> seqZ (cl i) (cl (i + 1) - cl i).

Lemma seg_length i : 0 <= i < n -> zlen (seg i) = cl (i + 1) - cl i.
Proof. intros Hi. pose proof (lo_col HL i Hi). unfold seg. rewrite length_fmap, length_seqZ. lia. Qed.
Lemma seg_elem i r : 0 <= i < n -> r ∈ seg i <-> stored i r.
Proof.
  intros Hi. unfold seg, stored. rewrite list_elem_of_fmap. split.
  - intros (a & -> & Ha%elem_of_seqZ). split; [done|]. exists a. split; [lia|done].
  - intros (_ & a & Ha & <-). exists a. split; [done|]. apply elem_of_seqZ. lia.
Qed.
Lemma seg_NoDup i : 0 <= i < n -> NoDup (seg i).
Proof.
  intros Hi. apply NoDup_fmap_2_strong; [|apply NoDup_seqZ]. intros x y Hx%elem_of_seqZ Hy%elem_of_seqZ E.
  destruct (Z.lt_trichotomy x y) as [H|[H|H]]; [|done|]; [pose proof (lo_rows HL i x y Hi ltac:(lia) ltac:(lia))|pose proof (lo_rows HL i y x Hi ltac:(lia) ltac:(lia))]; lia.
Qed.

Lemma copy_ok i out rest : 0 <= i < n -> cl (i + 1) - cl i <= zlen rest ->
  exists rest', upto (cl i) (cl (i + 1)) (out ++ rest, zlen out) (fun j '(mrow, ind) =>
      let? r := znth (row L) j in
      if i <=? r then let? mrow := zset mrow ind r in Some (mrow, ind + 1) else Some (mrow, ind)) = Some ((out ++ seg i) ++ rest', zlen (out ++ seg i)) /\
    zlen rest' = zlen rest - (cl (i + 1) - cl i).
Proof.
  intros Hi Hroom. pose proof (lo_col HL i Hi) as Hlt. pose proof (col_bound i ltac:(lia)). pose proof (col_bound (i + 1) ltac:(lia)).
  destruct (upto_ok (fun a '(mrow, ind) => exists rest', mrow = (out ++ (rw <$> seqZ (cl i) (a - cl i))) ++ rest' /\
      ind = zlen (out ++ (rw <$> seqZ (cl i) (a - cl i))) /\ zlen rest' = zlen rest - (a - cl i)) (cl i) (cl (i + 1)) (out ++ rest, zlen out) (fun j '(mrow, ind) =>
      let? r := znth (row L) j in
      if i <=? r then let? mrow := zset mrow ind r in Some (mrow, ind + 1) else Some (mrow, ind))) as ([mrow ind] & -> & rest' & -> & -> & Hrest).
  - lia.
  - exists rest. rewrite Z.sub_diag, seqZ_nil by lia. cbn. rewrite !app_nil_r. split_and!; [done|done|lia].
  - intros a [mrow ind] Ha (rest' & -> & -> & Hrest). rewrite row_at by lia. pose proof (row_from i a Hi Ha). destruct (Z.leb_spec i (rw a)); [|lia].
    destruct rest' as [|y rest']; [cbn [length] in Hrest; lia|]. rewrite zset_middle. eexists. split; [done|]. exists rest'.
    replace (a + 1 - cl i) with (a - cl i + 1) by lia. rewrite seqZ_app by lia. replace (cl i + (a - cl i)) with a by lia. change (seqZ a 1) with [a].
    rewrite fmap_app. change (rw <$> [a]) with [rw a]. split_and!; [by rewrite <- !app_assoc| |cbn [length] in Hrest; lia]. rewrite !length_app. cbn [length]. lia.
  - exists rest'. split; [done|lia].
Qed.

(** A column of the full matrix. *)
Definition full_column (i : Z) (c : list Z) : Prop := NoDup c /\ forall r, r ∈ c <-> stored i r \/ stored r i.

Lemma waits_iff i fs j : placed i i i fs -> i < n -> 0 <= j < i -> waits fs j i <-> stored j i.
Proof.
  intros HP Hi Hj. destruct (HP j Hj) as (Hr & Hpast & Hfut). split.
  - intros [Hw E]. split; [lia|]. exists (fs j). split; [lia|done].
  - intros (_ & a & Ha & E). destruct (decide (a < fs j)) as [Hlt|Hge]; [specialize (Hpast a ltac:(lia)); lia|].
    assert (fs j < cl (j + 1)) as Hw by lia. split; [done|]. specialize (Hfut Hw). destruct (decide (a = fs j)) as [->|]; [done|].
    pose proof (lo_rows HL j (fs j) a ltac:(lia) ltac:(lia) ltac:(lia)). lia.
Qed.
Lemma full_column_ok i fs l : 0 <= i < n -> placed i i i fs -> NoDup l -> (forall x, x ∈ l <-> 0 <= x < i /\ waits fs x i) -> full_column i (seg i ++ l).
Proof.
  intros Hi HP Hnd Hl. split.
  - apply NoDup_app. split; [by apply seg_NoDup|]. split; [|done]. intros x (_ & a & Ha & E)%seg_elem Hx; [|done]. apply Hl in Hx as [Hx _]. pose proof (row_from i a Hi Ha). lia.
  - intros r. rewrite elem_of_app, seg_elem by done. rewrite Hl. split.
    + intros [|[Hr Hw]]; [by left|]. right. by apply (waits_iff i fs r HP); [lia|lia|].
    + intros [|Hs]; [by left|]. destruct (decide (r < i)) as [Hlt|Hge].
      * right. pose proof Hs as [Hr _]. split; [lia|]. by apply (waits_iff i fs r HP); [lia|lia|].
      * left. destruct Hs as (Hr & a & Ha & E). pose proof (row_from r a Hr Ha). assert (r = i) as -> by lia. split; [done|]. by exists a.
Qed.
Lemma bounded_length l i : 0 <= i -> NoDup l -> (forall x, x ∈ l -> 0 <= x < i) -> zlen l <= i.
Proof.
  intros Hi Hnd Hl. assert (length l <= length (seqZ 0 i))%nat as H; [|rewrite length_seqZ in H; lia].
  apply submseteq_length, NoDup_submseteq; [done|]. intros x Hx. apply elem_of_seqZ. specialize (Hl x Hx). lia.
Qed.

(** ** The whole pass *)

(** The first [i] columns [cs] are written. *)
Record written (i : Z) (mcol mrow : list Z) (ind : Z) (cs : list (list Z)) (rest : list Z) : Prop := {
  wr_len : zlen cs = i /\ zlen mcol = n + 1;
  wr_rows : mrow = concat cs ++ rest /\ ind = zlen (concat cs) /\ zlen mrow = 2 * m;
  wr_cols (k : nat) c : cs !! k = Some c -> full_column (Z.of_nat k) c /\ znth mcol (Z.of_nat k) = Some (zlen (concat (take k cs))) }.
Record threaded (i : Z) (link first : list Z) (lk fs : Z -> Z) : Prop := {
  th_link : vec link n lk;
  th_first : vec first n fs;
  th_placed : placed i i i fs;
  th_lists : lists (fun x => 0 <= x < i) i lk fs }.
Definition state_ok (i : Z) : list Z * list Z * list Z * list Z * Z * list Z -> Prop :=
  fun '(mcol, mrow, link, first, ind, missing) => missing = [] /\
    exists cs rest lk fs, written i mcol mrow ind cs rest /\ threaded i link first lk fs /\ zlen (concat cs) + left_over fs i = 2 * cl i - i.

Lemma left_new fs i : 0 <= i -> left_over (upd fs i (cl i + 1)) (i + 1) = left_over fs i + (cl (i + 1) - (cl i + 1)).
Proof.
  intros Hi. unfold left_over. replace (Z.to_nat (i + 1)) with (S (Z.to_nat i)) by lia. cbn [total]. rewrite Z2Nat.id, upd_same by lia. f_equal.
  apply total_ext. intros x Hx. by rewrite upd_other by lia.
Qed.
(** Column [i] itself waits for its second row. *)
Lemma enter_ok i link first lk fs : 0 <= i < n -> vec link n lk -> vec first n fs -> placed i (i + 1) (i + 1) fs -> lists (fun x => 0 <= x < i) (i + 1) lk fs ->
  exists link' first' lk', (let? first := zset first i (cl i) in
    let? d := znth (row L) (cl i) in
    let? (first, f, missing) :=
      if d =? i then let? first := zset first i (cl i + 1) in Some (first, cl i + 1, [])
      else Some (first, cl i, [] ++ [i]) in
    let? link := if f <? cl (i + 1) then let? r := znth (row L) f in AddMember link r i else Some link in
    Some (link, first, missing)) = Some (link', first', []) /\ threaded (i + 1) link' first' lk' (upd fs i (cl i + 1)).
Proof.
  intros Hi Hlk Hfs HP HK. pose proof (lo_col HL i Hi) as Hlt. pose proof (col_bound i ltac:(lia)). pose proof (col_bound (i + 1) ltac:(lia)).
  destruct (vec_upd first n fs i (cl i) Hfs Hi) as (first1 & -> & H1). rewrite row_at by lia. rewrite (lo_diag HL i Hi), Z.eqb_refl.
  destruct (vec_upd first1 n _ i (cl i + 1) H1 Hi) as (first2 & -> & H2).
  assert (vec first2 n (upd fs i (cl i + 1))) as H2' by (apply (vec_ext _ _ _ _ H2); intros k Hk; unfold upd; by destruct (Z.eqb_spec k i)).
  set (fs' := upd fs i (cl i + 1)) in *. assert (fs' i = cl i + 1) as Efs by apply upd_same.
  assert (cl i + 1 < cl (i + 1) -> i < rw (cl i + 1) < n) as Hnext.
  { intros Hb. pose proof (lo_rows HL i (cl i) (cl i + 1) Hi ltac:(lia) Hb). rewrite (lo_diag HL i Hi) in *. pose proof (row_from i (cl i + 1) Hi ltac:(lia)). lia. }
  assert (placed (i + 1) (i + 1) (i + 1) fs') as HP'.
  { intros j Hj. destruct (decide (j = i)) as [->|Hne]; [|unfold fs'; rewrite upd_other by done; apply HP; lia]. rewrite Efs. split; [lia|]. split; [|intros Hb; specialize (Hnext Hb); lia].
    intros a Ha. replace a with (cl i) by lia. rewrite (lo_diag HL i Hi). lia. }
  assert (lists (fun x => 0 <= x < i) (i + 1) lk fs') as HK1.
  { apply (lists_ext _ _ _ _ _ _ _ HK); [lia|done|]. intros x Hx. unfold fs'. by rewrite upd_other by lia. }
  assert (forall lk', lists (fun x => 0 <= x < i \/ x = i) (i + 1) lk' fs' -> lists (fun x => 0 <= x < i + 1) (i + 1) lk' fs') as Hset.
  { intros lk' H'. apply (lists_ext _ _ _ _ _ _ _ H'); [lia| |done]. intros x. lia. }
  destruct (Z.ltb_spec (cl i + 1) (cl (i + 1))) as [Hb|Hb].
  - rewrite row_at by lia. specialize (Hnext Hb). destruct (AddMember_ok link lk (rw (cl i + 1)) i Hlk ltac:(lia) Hi) as (link' & -> & Hlk').
    eexists _, _, _. split; [done|]. split; [exact Hlk'|done|done|]. apply Hset. rewrite <- Efs. apply lists_add; [exact HK1|lia|lia|lia|rewrite Efs; lia|by rewrite Efs].
  - exists link, first2, lk. split; [done|]. split; [done|done|done|]. apply Hset, lists_ended; [done|lia].
Qed.

Lemma written_more i mcol mcol' mrow ind cs rest c rest' : written i mcol mrow ind cs rest -> zset mcol i ind = Some mcol' -> full_column i c ->
  zlen ((concat cs ++ c) ++ rest') = zlen mrow -> written (i + 1) mcol' ((concat cs ++ c) ++ rest') (zlen (concat cs ++ c)) (cs ++ [c]) rest'.
Proof.
  intros [[W1 W2] (W3 & W4 & W5) W6] Hset Hc Hlen. assert (concat (cs ++ [c]) = concat cs ++ c) as Ecat by (rewrite concat_app; cbn; by rewrite app_nil_r). split.
  - rewrite length_app, (zset_length _ _ _ _ Hset). cbn [length]. lia.
  - rewrite Ecat. split; [done|]. split; [done|lia].
  - intros k c' [Hk|[Hk E]]%lookup_app_Some.
    + destruct (W6 k c' Hk) as [H1 H2]. split; [done|]. pose proof (lookup_lt_Some _ _ _ Hk). rewrite (znth_zset _ _ _ _ _ Hset).
      destruct (Z.eqb_spec (Z.of_nat k) i); [lia|]. rewrite take_app_le by lia. done.
    + apply list_lookup_singleton_Some in E as [E <-]. assert (k = length cs) as -> by lia. rewrite W1. split; [done|]. rewrite (znth_zset _ _ _ _ _ Hset), Z.eqb_refl, take_app_length. congruence.
Qed.

Lemma column_ok i st : 0 <= i < n -> state_ok i st -> exists st', (let '(mcol, mrow, link, first, ind, missing) := st in
    let? mcol := zset mcol i ind in
    let? a := znth (col L) i in
    let? b := znth (col L) (i + 1) in
    let? (mrow, ind) := upto a b (mrow, ind) (fun j '(mrow, ind) =>
      let? r := znth (row L) j in
      if i <=? r then let? mrow := zset mrow ind r in Some (mrow, ind + 1) else Some (mrow, ind)) in
    let? j := znth link i in
    let? (mrow, ind, link, first) := drain (S (Z.to_nat n)) L j mrow ind link first in
    let? first := zset first i a in
    let? d := znth (row L) a in
    let? (first, f, missing) :=
      if d =? i then let? first := zset first i (a + 1) in Some (first, a + 1, missing)
      else Some (first, a, missing ++ [i]) in
    let? link := if f <? b then let? r := znth (row L) f in AddMember link r i else Some link in
    Some (mcol, mrow, link, first, ind, missing)) = Some st' /\ state_ok (i + 1) st'.
Proof.
  intros Hi. destruct st as [[[[[mcol mrow] link] first] ind] missing]. intros (-> & cs & rest & lk & fs & HW & [T1 T2 T3 T4] & Hcount).
  pose proof HW as [[W1 W2] (W3 & W4 & W5) W6]. rewrite zset_Some by lia. set (mcol' := <[Z.to_nat i:=ind]> mcol).
  assert (zset mcol i ind = Some mcol') as Hset by (apply zset_Some; lia). rewrite !col_at by lia.
  pose proof (left_nonneg _ _ _ _ T3) as Hleft. pose proof (seg_length i Hi) as Hseg. pose proof (col_bound (i + 1) ltac:(lia)). pose proof (col_bound i ltac:(lia)). pose proof (lo_col HL i Hi).
  subst mrow ind. rewrite length_app in W5. destruct (copy_ok i (concat cs) rest Hi ltac:(lia)) as (rest1 & -> & Hrest1).
  rewrite (proj2 T1) by lia. destruct (T4 i ltac:(lia)) as (l & Hc & Hnd & Hl).
  pose proof (bounded_length l i ltac:(lia) Hnd ltac:(intros x Hx; by apply Hl in Hx as [])) as Hlen.
  destruct (drain_ok (S (Z.to_nat n)) i (lk i) l lk fs link first (concat cs ++ seg i) rest1 Hi T1 T2) as (link1 & first1 & lk1 & fs1 & rest2 & -> & G1 & G2 & G3 & G4 & G5 & G6);
    [| |done|done|done|lia|lia|].
  - intros j Hj. destruct (T3 j Hj) as (P1 & P2 & P3). split; [done|]. split; [|done]. intros a Ha. specialize (P2 a Ha). lia.
  - intros r Hr. destruct (T4 r ltac:(lia)) as (l' & L1 & L2 & L3). exists l'. split; [done|]. split; [done|]. intros x. rewrite L3. split; [|tauto]. intros [Hx Hw]. split; [|done].
    split; [done|]. rewrite Hl. intros [_ Hw']. destruct Hw, Hw'. lia.
  - destruct (enter_ok i link1 first1 lk1 fs1 Hi G1 G2 G3 G4) as (link2 & first2 & lk2 & E & HT).
    destruct (zset first1 i (cl i)) as [f1|]; [|done]. destruct (znth (row L) (cl i)) as [d|]; [|done].
    destruct (if d =? i then _ else _) as [[[f2 f] ms]|]; [|done]. destruct (if f <? cl (i + 1) then _ else _) as [link3|]; [|done]. injection E as -> -> ->.
    eexists. split; [done|]. split; [done|]. exists (cs ++ [seg i ++ l]), rest2, lk2, (upd fs1 i (cl i + 1)). split; [|split; [done|]].
    + replace ((concat cs ++ seg i) ++ l) with (concat cs ++ (seg i ++ l)) by apply app_assoc. apply (written_more i mcol mcol' _ _ cs rest (seg i ++ l) rest2 HW Hset).
      * by apply (full_column_ok i fs l Hi T3).
      * rewrite !length_app. lia.
    + rewrite left_new, concat_app by lia. cbn [concat]. rewrite !length_app. cbn [length]. lia.
Qed.

Lemma all_placed fs : placed n n n fs -> left_over fs n = 0.
Proof.
  intros HP. unfold left_over. rewrite (total_ext _ (fun _ => 0)).
  - induction (Z.to_nat n) as [|k IH]; cbn [total]; lia.
  - intros j Hj. destruct (HP j ltac:(lia)) as (Hr & _ & Hfut). destruct (decide (fs j < cl (j + 1))) as [Hlt|]; [|lia]. specialize (Hfut Hlt). pose proof (row_from j (fs j) ltac:(lia) ltac:(lia)). lia.
Qed.
Lemma start_ok link first mcol mrow : vec link n (fun _ => -1) -> vec first n (fun _ => -1) -> zlen mcol = n + 1 -> zlen mrow = 2 * m ->
  state_ok 0 (mcol, mrow, link, first, 0, []).
Proof.
  intros H1 H2 H3 H4. split; [done|]. exists [], mrow, (fun _ => -1), (fun _ => -1). split; [|split].
  - split; [done|done|]. intros k c Hk. by rewrite lookup_nil in Hk.
  - split; [done|done| |].
    + intros j Hj. lia.
    + intros r Hr. exists []. split; [done|]. split; [constructor|]. intros j. rewrite elem_of_nil. split; [done|]. intros [Hj _]. lia.
  - destruct (lo_len HL) as (_ & -> & _). done.
Qed.
Lemma copied (mcol mstart : list Z) : 0 <= n -> zlen mcol = n + 1 -> zlen mstart = n + 1 ->
  upto 0 (n + 1) mstart (fun i mstart => let? c := znth mcol i in zset mstart i c) = Some mcol.
Proof.
  intros Hn Hc Hs. destruct (upto_fill mstart (n + 1) (elem mcol) (elem mstart) (n + 1) (fun i mstart => let? c := znth mcol i in zset mstart i c) (vec_elem _ _ Hs)) as (st & -> & Hst).
  - lia.
  - intros i l Hi. by rewrite elem_at by lia.
  - f_equal. destruct Hst as [Hl Hst]. apply list_eq_same_length with (n := length st); [lia|done|]. intros k x y Hk Hx Hy. specialize (Hst (Z.of_nat k) ltac:(lia)).
    destruct (Z.ltb_spec (Z.of_nat k) (n + 1)); [|lia]. rewrite znth_nat in Hst. unfold elem in Hst. rewrite znth_nat, Hy in Hst. cbn in Hst. congruence.
Qed.
End Full.

(** The full matrix: for a lower triangle with its diagonal, whatever the memory
    holds, [LowerToFull] makes no access out of the arrays and reports nothing;
    the columns of the result follow each other, and column [k] has, once each,
    the rows that column [k] has in the file and the columns that have row [k]. *)
Theorem lower_to_full_correct L link first mcol mstart mrow :
  lower_ok L -> zlen link = n L -> zlen first = n L -> zlen mcol = n L + 1 -> zlen mstart = n L + 1 ->
  zlen mrow = (2 * (m L - n L) + n L) + n L ->
  exists M cs rest, LowerToFull L link first mcol mstart mrow = Some (M, [], false) /\
    n M = n L /\ m M = zlen (concat cs) /\ startrow M = col M /\ zlen (col M) = n L + 1 /\ row M = concat cs ++ rest /\ zlen cs = n L /\
    (forall k : nat, Z.of_nat k <= n L -> znth (col M) (Z.of_nat k) = Some (zlen (concat (take k cs)))) /\
    forall (k : nat) c, cs !! k = Some c -> NoDup c /\ forall r, r ∈ c <-> stored L (Z.of_nat k) r \/ stored L r (Z.of_nat k).
Proof.
  intros HL Hlink Hfirst Hmcol Hmstart Hmrow. pose proof (lo_n _ HL) as Hn. unfold LowerToFull.
  destruct (upto_fill2 link first (n L) (n L) (n L) (-1) (-1) Hlink Hfirst) as (link1 & first1 & -> & H1 & H2); [lia|lia|lia|].
  match goal with |- context [upto 0 (n L) ?st ?body] => destruct (upto_ok (state_ok L) 0 (n L) st body) as (st' & -> & Hst) end.
  { done. }
  { apply start_ok; [done|by eapply vec_filled|by eapply vec_filled|done|lia]. }
  { intros i st Hi H. pose proof (column_ok L HL i st Hi H) as H'. by destruct st as [[[[[? ?] ?] ?] ?] ?]. }
  destruct st' as [[[[[mcol1 mrow1] link2] first2] ind] missing]. destruct Hst as (-> & cs & rest & lk & fs & [[W1 W2] (W3 & W4 & W5) W6] & [_ _ T3 _] & Hcount).
  rewrite (all_placed L HL fs T3) in Hcount. destruct (lo_len _ HL) as (_ & _ & Hm & _). rewrite zset_Some by lia. set (mcol2 := <[Z.to_nat (n L):=ind]> mcol1).
  assert (zset mcol1 (n L) ind = Some mcol2) as Hset by (apply zset_Some; lia). assert (zlen mcol2 = n L + 1) as Hl2 by (rewrite (zset_length _ _ _ _ Hset); lia).
  rewrite (copied L mcol2 mstart) by lia. destruct (Z.eqb_spec ind (2 * (m L - n L) + n L)) as [_|]; [|lia].
  eexists _, cs, rest. split; [done|]. cbn. split_and!; [done|lia|done|lia|done|done| |intros k c Hc; exact (proj1 (W6 k c Hc))].
  intros k Hk. rewrite (znth_zset _ _ _ _ _ Hset). destruct (Z.eqb_spec (Z.of_nat k) (n L)) as [E|Hne]; [rewrite take_ge by lia; congruence|].
  destruct (lookup_lt_is_Some_2 cs k ltac:(lia)) as [c Hc]. by destruct (W6 k c Hc).
Qed.
End FullMatrix.
