(* ===== verification/RowSort.v ===== *)
(** * RowSort: the rows of a column, in order

    [ISort] sorts the rows of one column of a matrix by insertion; [ReadSparse]
    calls it for every column, and what comes out is a lower triangle as
    [LowerToFull] needs it, however the file had its rows. *)

From stdpp Require Import base list option list_numbers sorting.
From S2P Require Import Prelude Cholesky Etree FullMatrix.
Local Open Scope Z_scope.

Module RowSort.
Import Cholesky Etree FullMatrix.

Lemma znth_mid {A} (l1 l2 : list A) x : znth (l1 ++ x :: l2) (zlen l1) = Some x.
Proof. rewrite znth_nat. by apply list_lookup_middle. Qed.

Lemma shift_ok fuel before pre d y s tmp : StronglySorted Z.le d -> (length d < fuel)%nat ->
  exists d1 d2 y', d = d1 ++ d2 /\ Forall (fun z => z <= tmp) d1 /\ Forall (fun z => tmp < z) d2 /\
    shift fuel before (pre ++ d ++ y :: s) (zlen pre) tmp (zlen pre + zlen d) = Some (pre ++ d1 ++ y' :: d2 ++ s, zlen pre + zlen d1).
Proof.
  revert fuel y s. induction d as [|z d IH] using rev_ind; intros fuel y s Hs Hf; (destruct fuel as [|fuel]; [lia|]); cbn [shift].
  - exists [], [], y. split_and!; [done|constructor|constructor|]. cbn [length]. rewrite Z.add_0_r.
    assert (exists x, (if zlen pre =? 0 then Some before else znth (pre ++ [] ++ y :: s) (zlen pre - 1)) = Some x) as [x ->].
    { destruct (Z.eqb_spec (zlen pre) 0); [by eexists|]. apply znth_Some. rewrite length_app. lia. }
    by rewrite Z.ltb_irrefl, andb_false_r.
  - rewrite length_app in *. cbn [length] in *. destruct (Z.eqb_spec (zlen pre + Z.of_nat (length d + 1)) 0); [lia|].
    replace (zlen pre + Z.of_nat (length d + 1) - 1) with (zlen (pre ++ d)) by (rewrite length_app; lia).
    replace (pre ++ (d ++ [z]) ++ y :: s) with ((pre ++ d) ++ z :: y :: s) by (by rewrite <- !app_assoc). rewrite znth_mid.
    destruct (Z.ltb_spec tmp z) as [Hlt|Hge]; cbn [andb].
    + destruct (Z.ltb_spec (zlen pre) (zlen pre + Z.of_nat (length d + 1))); [|lia].
      replace ((pre ++ d) ++ z :: y :: s) with (((pre ++ d) ++ [z]) ++ y :: s) by (by rewrite <- !app_assoc).
      replace (zlen pre + Z.of_nat (length d + 1)) with (zlen ((pre ++ d) ++ [z])) by (rewrite !length_app; cbn [length]; lia). rewrite zset_middle.
      destruct (IH fuel z (z :: s)) as (d1 & d2 & y' & -> & H1 & H2 & E); [by apply StronglySorted_app_1_l in Hs|lia|].
      exists d1, (d2 ++ [z]), y'. split_and!; [by rewrite app_assoc|done|by apply Forall_app; split; [done|constructor]|].
      replace (zlen (pre ++ d1 ++ d2)) with (zlen pre + zlen (d1 ++ d2)) by (rewrite !length_app; lia).
      replace (((pre ++ d1 ++ d2) ++ [z]) ++ z :: s) with (pre ++ (d1 ++ d2) ++ z :: z :: s) by (by rewrite <- !app_assoc). rewrite E. do 4 f_equal. by rewrite <- !app_assoc.
    + exists (d ++ [z]), [], y. split_and!; [by rewrite app_nil_r| |constructor|].
      * apply Forall_app. split; [|by constructor]. apply Forall_forall. intros x Hx. pose proof (StronglySorted_app_1_elem_of _ _ _ x z Hs Hx ltac:(left; done)). lia.
      * rewrite length_app. cbn [length app]. by rewrite <- !app_assoc.
Qed.

(** One column: the rows are put in order, and nothing else changes. *)
Lemma ISort_lists before M k pre l post : row M = pre ++ l ++ post -> znth (col M) k = Some (zlen pre) -> znth (col M) (k + 1) = Some (zlen pre + zlen l) ->
  exists l', ISort before M k = Some (Matrix (n M) (m M) (col M) (startrow M) (pre ++ l' ++ post)) /\ l' ≡ₚ l /\ StronglySorted Z.le l'.
Proof.
  intros Hrow Hlo Hhi. unfold ISort. rewrite Hlo, Hhi.
  destruct (upto_ok (fun i row => exists d r, row = pre ++ d ++ r ++ post /\ zlen d = i - zlen pre /\ StronglySorted Z.le d /\ d ++ r ≡ₚ l)
    (zlen pre) (zlen pre + zlen l) (row M) (fun i row => let? tmp := znth row i in let? (row, j) := shift (S (Z.to_nat (i - zlen pre))) before row (zlen pre) tmp i in zset row j tmp))
    as (row' & -> & d & r & -> & Hd & Hs & Hp).
  - lia.
  - exists [], l. split_and!; [done|cbn; lia|constructor|done].
  - intros i row' Hi (d & r & -> & Hd & Hs & Hp). pose proof (Permutation_length Hp) as Hlen. rewrite length_app in Hlen. destruct r as [|x r]; [cbn [length] in Hlen; lia|].
    assert (i = zlen pre + zlen d) as -> by lia.
    replace (znth (pre ++ d ++ (x :: r) ++ post) (zlen pre + zlen d)) with (Some x).
    2:{ symmetry. replace (zlen pre + zlen d) with (zlen (pre ++ d)) by (rewrite length_app; lia). rewrite app_assoc. apply znth_mid. }
    destruct (shift_ok (S (Z.to_nat (zlen pre + zlen d - zlen pre))) before pre d x (r ++ post) x Hs ltac:(lia)) as (d1 & d2 & y & -> & H1 & H2 & E).
    cbn [app] in *. rewrite E. replace (zlen pre + zlen d1) with (zlen (pre ++ d1)) by (rewrite length_app; lia). rewrite app_assoc, zset_middle. eexists. split; [done|].
    exists (d1 ++ x :: d2), r. rewrite <- !app_assoc. split_and!; [done|rewrite !length_app in *; cbn [length] in *; lia| |].
    + apply StronglySorted_app in Hs as (S1 & S2 & S3). apply StronglySorted_app. rewrite Forall_forall in H1, H2. split_and!; [|done|].
      * intros a b Ha [->|Hb]%elem_of_cons; [by apply H1|by apply S1].
      * constructor; [done|]. apply Forall_forall. intros b Hb. specialize (H2 b Hb). lia.
    + rewrite <- Hp. rewrite <- !app_assoc. cbn [app]. apply Permutation_app_head. by rewrite Permutation_middle.
  - pose proof (Permutation_length Hp) as Hlen. rewrite length_app in Hlen. destruct r; [|cbn [length] in Hlen; lia]. rewrite app_nil_r in Hp. exists d. split_and!; done.
Qed.

(** ** All columns *)

Lemma znth_apart {A} (pre l l' post : list A) a : length l = length l' -> a < zlen pre \/ zlen pre + zlen l <= a ->
  znth (pre ++ l ++ post) a = znth (pre ++ l' ++ post) a.
Proof.
  intros Hlen Ha. unfold znth. destruct (Z.ltb_spec a 0); [done|]. destruct (decide (a < zlen pre)) as [Hlt|Hge]; [by rewrite !lookup_app_l by lia|].
  rewrite !(lookup_app_r pre) by lia. by rewrite !lookup_app_r by lia; rewrite Hlen.
Qed.
Lemma seg_is M k pre l post : row M = pre ++ l ++ post -> elem (col M) k = zlen pre -> elem (col M) (k + 1) = zlen pre + zlen l -> seg M k = l.
Proof.
  intros Hrow Hlo Hhi. unfold seg. rewrite Hlo, Hhi. apply list_eq_same_length with (n := length l); [done|rewrite length_fmap, length_seqZ; lia|].
  intros i x y Hi Hx Hy. rewrite list_lookup_fmap, lookup_seqZ_lt in Hx by lia. cbn in Hx. injection Hx as <-. unfold elem. rewrite Hrow, <- Nat2Z.inj_add, znth_nat, lookup_app_r by lia.
  rewrite Nat.add_comm, Nat.add_sub, lookup_app_l, Hy by lia. done.
Qed.
Lemma rows_split M k : 0 <= elem (col M) k <= elem (col M) (k + 1) -> elem (col M) (k + 1) <= zlen (row M) -> exists pre l post,
  row M = pre ++ l ++ post /\ elem (col M) k = zlen pre /\ elem (col M) (k + 1) = zlen pre + zlen l.
Proof.
  intros Hlo Hhi. set (a := Z.to_nat (elem (col M) k)). set (b := Z.to_nat (elem (col M) (k + 1) - elem (col M) k)).
  exists (take a (row M)), (take b (drop a (row M))), (drop b (drop a (row M))). rewrite !take_drop. split; [done|]. rewrite !length_take, length_drop. lia.
Qed.

(** [M'] is [M] but for its rows. *)
Definition same_shape (M M' : SMatrix) : Prop :=
  n M' = n M /\ m M' = m M /\ col M' = col M /\ startrow M' = startrow M /\ zlen (row M') = zlen (row M).

Lemma ISort_ok before M k : 0 <= k -> k + 1 < zlen (col M) -> 0 <= elem (col M) k <= elem (col M) (k + 1) -> elem (col M) (k + 1) <= zlen (row M) ->
  exists M', ISort before M k = Some M' /\ same_shape M M' /\ seg M' k ≡ₚ seg M k /\ StronglySorted Z.le (seg M' k) /\
    forall a, ~ elem (col M) k <= a < elem (col M) (k + 1) -> elem (row M') a = elem (row M) a.
Proof.
  intros Hk Hc Hlo Hhi. destruct (rows_split M k Hlo Hhi) as (pre & l & post & Hrow & E1 & E2).
  destruct (ISort_lists before M k pre l post Hrow) as (l' & -> & Hp & Hs); [rewrite elem_at by lia; congruence|rewrite elem_at by lia; congruence|].
  pose proof (Permutation_length Hp) as Hlen. eexists. split; [done|]. split; [unfold same_shape; cbn; rewrite Hrow, !length_app; split_and!; done || lia|].
  rewrite (seg_is M k pre l post Hrow E1 E2). rewrite (seg_is _ k pre l' post); [|done|done|cbn; lia]. split; [done|]. split; [done|].
  intros a Ha. unfold elem. cbn [row]. rewrite Hrow. by rewrite (znth_apart pre l l' post a) by lia.
Qed.

(** A triangle as it is in the file: the rows of a column in any order. *)
Record file_ok (F : SMatrix) : Prop := {
  fi_n : 0 <= n F;
  fi_len : n F < zlen (col F) /\ elem (col F) 0 = 0 /\ elem (col F) (n F) = m F /\ m F <= zlen (row F);
  fi_col j : 0 <= j < n F -> elem (col F) j < elem (col F) (j + 1);
  fi_distinct j : 0 <= j < n F -> NoDup (seg F j);
  fi_diag j : 0 <= j < n F -> j ∈ seg F j;
  fi_range j r : 0 <= j < n F -> r ∈ seg F j -> j <= r < n F }.

Section Columns.
Context (before : Z) (F : SMatrix) (HF : file_ok F).
Local Abbreviation cl := (elem (col F)).

Definition sorted_upto (i : Z) (M : SMatrix) : Prop := same_shape F M /\
  forall j, 0 <= j < n F -> seg M j ≡ₚ seg F j /\ (j < i -> StronglySorted Z.le (seg M j)).

Lemma cl_mono a b : 0 <= a <= b -> b <= n F -> cl a <= cl b.
Proof. apply mono_le, (fi_col _ HF). Qed.
Lemma seg_same M M' k j : col M = col F -> col M' = col F -> 0 <= j < n F -> 0 <= k < n F -> j <> k ->
  (forall a, ~ cl k <= a < cl (k + 1) -> elem (row M') a = elem (row M) a) -> seg M' j = seg M j.
Proof.
  intros E E' Hj Hk Hne H. unfold seg. rewrite E, E'. apply list_fmap_ext. intros i a Ha%list_elem_of_lookup_2%elem_of_seqZ. apply H.
  destruct (decide (j < k)); [pose proof (cl_mono (j + 1) k ltac:(lia) ltac:(lia))|pose proof (cl_mono (k + 1) j ltac:(lia) ltac:(lia))]; lia.
Qed.

Lemma columns_sorted : exists M, upto 0 (n F) F (fun i M => ISort before M i) = Some M /\ sorted_upto (n F) M.
Proof.
  pose proof (fi_n _ HF). destruct (fi_len _ HF) as (L1 & L2 & L3 & L4). apply (upto_ok sorted_upto).
  - done.
  - split; [done|]. intros j Hj. split; [done|lia].
  - intros i M Hi [(S1 & S2 & S3 & S4 & S5) Hseg]. pose proof (cl_mono 0 i ltac:(lia) ltac:(lia)). pose proof (cl_mono (i + 1) (n F) ltac:(lia) ltac:(lia)). pose proof (fi_col _ HF i Hi).
    destruct (ISort_ok before M i) as (M' & E & (T1 & T2 & T3 & T4 & T5) & Hp & Hs & Ha); [lia|rewrite S3; lia|rewrite S3; lia|rewrite S3; lia|].
    exists M'. split; [done|]. split; [by split_and!; congruence|]. intros j Hj. destruct (Hseg j Hj) as [Q1 Q2]. destruct (decide (j = i)) as [->|Hne].
    + split; [by rewrite Hp|done].
    + rewrite S3 in Ha. rewrite (seg_same M M' i j); [|done|congruence|done|done|done|done]. split; [done|]. intros Hlt. apply Q2. lia.
Qed.

Lemma sorted_lookup (l : list Z) (i j : nat) x y : StronglySorted Z.le l -> NoDup l -> (i < j)%nat -> l !! i = Some x -> l !! j = Some y -> x < y.
Proof.
  intros Hs Hnd Hij Hx Hy. assert (x <> y) as Hne by (intros ->; pose proof (NoDup_lookup l i j y Hnd Hx Hy); lia).
  rewrite <- (take_drop (S i) l) in Hs. assert (x <= y); [|lia]. apply (StronglySorted_app_1_elem_of _ _ _ x y Hs).
  - apply list_elem_of_lookup. exists i. rewrite lookup_take_lt by lia. done.
  - apply list_elem_of_lookup. exists (j - S i)%nat. rewrite lookup_drop. by replace (S i + (j - S i))%nat with j by lia.
Qed.
Lemma seg_lookup M j a : elem (col M) j <= a < elem (col M) (j + 1) -> seg M j !! Z.to_nat (a - elem (col M) j) = Some (elem (row M) a).
Proof. intros Ha. unfold seg. rewrite list_lookup_fmap, lookup_seqZ_lt by lia. cbn. f_equal. f_equal. lia. Qed.

Lemma sorted_lower M : sorted_upto (n F) M -> lower_ok M /\ forall j r, stored M j r <-> stored F j r.
Proof.
  intros [(S1 & S2 & S3 & S4 & S5) Hseg]. destruct (fi_len _ HF) as (L1 & L2 & L3 & L4).
  assert (forall j a, 0 <= j < n F -> elem (col M) j <= a < elem (col M) (j + 1) -> j <= elem (row M) a < n F) as Hrange.
  { intros j a Hj Ha. apply (fi_range _ HF j _ Hj). destruct (Hseg j Hj) as [<- _]. apply (list_elem_of_lookup_2 _ _ _ (seg_lookup M j a Ha)). }
  assert (forall j a b, 0 <= j < n F -> elem (col M) j <= a < b -> b < elem (col M) (j + 1) -> elem (row M) a < elem (row M) b) as Hrows.
  { intros j a b Hj Ha Hb. destruct (Hseg j Hj) as [Hp Hs]. apply (sorted_lookup (seg M j) (Z.to_nat (a - elem (col M) j)) (Z.to_nat (b - elem (col M) j))).
    - apply Hs. lia.
    - rewrite Hp. by apply (fi_distinct _ HF).
    - lia.
    - apply seg_lookup. lia.
    - apply seg_lookup. lia. }
  split; [split; rewrite ?S1, ?S2, ?S3 in *|].
  - apply (fi_n _ HF).
  - split_and!; try done; lia.
  - apply (fi_col _ HF).
  - intros j Hj. pose proof (fi_col _ HF j Hj) as Hlt. pose proof (Hrange j (cl j) Hj ltac:(lia)) as Hr. destruct (Hseg j Hj) as [Hp _].
    pose proof (fi_diag _ HF j Hj) as Hd. rewrite <- Hp in Hd. unfold seg in Hd. rewrite S3 in Hd. apply list_elem_of_fmap in Hd as (a & E & Ha%elem_of_seqZ).
    destruct (decide (a = cl j)) as [->|]; [done|]. pose proof (Hrows j (cl j) a Hj ltac:(lia) ltac:(lia)). lia.
  - done.
  - intros j a Hj Ha. apply (Hrange j a Hj Ha).
  - intros j r. unfold stored at 1. rewrite S1. destruct (decide (0 <= j < n F)) as [Hj|Hj]; [|split; [tauto|by intros [? _]]].
    rewrite <- (seg_elem F j r Hj), <- (proj1 (Hseg j Hj)), (seg_elem M j r) by (by rewrite S1). unfold stored. rewrite S1. done.
Qed.
End Columns.
End RowSort.
