(* ===== verification/ChildLists.v ===== *)
(** * ChildLists: the children of every node of the tree

    [ParentToChild] turns the parents into lists of children, first as lists
    threaded through an array ([next]) and then one behind the other in [child],
    with the place where the children of [i] start in [firstchild[i]]. *)

From stdpp Require Import base list option list_numbers.
From S2P Require Import Prelude Cholesky Etree FullMatrix.
Local Open Scope Z_scope.

Module ChildLists.
Import Cholesky Etree FullMatrix.

Lemma elem_of_concat {A} (ls : list (list A)) k : k ∈ concat ls <-> exists l, k ∈ l /\ l ∈ ls.
Proof.
  induction ls as [|l ls IH]; cbn [concat].
  - rewrite elem_of_nil. split; [done|]. intros (l & _ & Hl). by apply elem_of_nil in Hl.
  - rewrite elem_of_app, IH. split.
    + intros [Hk|(l' & Hk & Hl)]; [exists l; split; [done|left]|exists l'; split; [done|by right]].
    + intros (l' & Hk & [->|Hl]%elem_of_cons); [by left|right; by exists l'].
Qed.

Section Children.
Context (n : Z) (T : list Z) (t : Z -> Z) (Hn : 0 <= n) (HT : vec T (n + 1) t) (Ht : forall k, 0 <= k <= n -> 0 <= t k <= n).

(** The children of [p] from [a] on, in order. *)
Definition kids_from (a p : Z) : list Z := filter (fun k => t k = p /\ k <> p) (seqZ a (n + 1 - a)).
Definition kids (p : Z) : list Z := kids_from 0 p.
(** The children of the nodes before [i], one list behind the other. *)
Definition kids_before (i : Z) : list Z := concat (kids <$> seqZ 0 i).

Lemma kids_elem a p k : k ∈ kids_from a p <-> a <= k <= n /\ t k = p /\ k <> p.
Proof. unfold kids_from. rewrite list_elem_of_filter, elem_of_seqZ. lia. Qed.
Lemma kids_NoDup a p : NoDup (kids_from a p).
Proof. apply NoDup_filter, NoDup_seqZ. Qed.
Lemma kids_step a p : a <= n -> kids_from a p = (if decide (t a = p /\ a <> p) then [a] else []) ++ kids_from (a + 1) p.
Proof.
  intros Ha. unfold kids_from. replace (n + 1 - a) with (1 + (n + 1 - (a + 1))) by lia. rewrite seqZ_app by lia. change (seqZ a 1) with [a]. rewrite filter_app. f_equal.
Qed.
Lemma kids_before_S i : 0 <= i -> kids_before (i + 1) = kids_before i ++ kids i.
Proof.
  intros Hi. unfold kids_before. rewrite seqZ_app by lia. change (seqZ (0 + i) 1) with [0 + i]. rewrite fmap_app, concat_app. cbn. by rewrite app_nil_r.
Qed.
Lemma kids_before_elem i k : k ∈ kids_before i <-> 0 <= k <= n /\ 0 <= t k < i /\ k <> t k.
Proof.
  unfold kids_before. rewrite elem_of_concat. split.
  - intros (l & Hk & (p & -> & Hp%elem_of_seqZ)%list_elem_of_fmap). apply kids_elem in Hk. lia.
  - intros (Hk & Hp & Hne). exists (kids (t k)). split; [apply kids_elem; lia|]. apply list_elem_of_fmap. exists (t k). split; [done|]. apply elem_of_seqZ. lia.
Qed.
Lemma kids_before_NoDup i : 0 <= i -> NoDup (kids_before i).
Proof.
  intros Hi. replace i with (Z.of_nat (Z.to_nat i)) by lia. induction (Z.to_nat i) as [|k IH]; [constructor|].
  replace (Z.of_nat (S k)) with (Z.of_nat k + 1) by lia. rewrite kids_before_S by lia. apply NoDup_app. split; [done|]. split; [|apply kids_NoDup].
  intros x Hx%kids_before_elem Hx'%kids_elem. lia.
Qed.
Lemma kids_before_length i : 0 <= i -> zlen (kids_before i) <= n + 1.
Proof. intros Hi. apply bounded_length; [lia|by apply kids_before_NoDup|]. intros x Hx%kids_before_elem. lia. Qed.

(** ** The loops *)

Definition linked (a : Z) (fc nx : Z -> Z) : Prop := forall p, 0 <= p <= n -> chain nx (fc p) (kids_from a p).

Lemma linked_step a fc nx : 0 <= a <= n -> linked (a + 1) fc nx -> t a <> a -> linked a (upd fc (t a) a) (upd nx a (fc (t a))).
Proof.
  intros Ha H Hne p Hp. rewrite kids_step by lia.
  assert (chain (upd nx a (fc (t a))) (fc p) (kids_from (a + 1) p)) as Hc.
  { apply (chain_ext nx); [|by apply H]. intros x Hx%kids_elem. by rewrite upd_other by lia. }
  destruct (decide (t a = p /\ a <> p)) as [[<- _]|Hd]; cbn [app].
  - rewrite upd_same. cbn. rewrite upd_same. done.
  - rewrite upd_other; [done|]. intros ->. apply Hd. split; [done|congruence].
Qed.
Lemma linked_skip a fc nx : 0 <= a <= n -> linked (a + 1) fc nx -> t a = a -> linked a fc nx.
Proof. intros Ha H E p Hp. rewrite kids_step by lia. destruct (decide (t a = p /\ a <> p)); [lia|]. by apply H. Qed.

Lemma list_children_ok fuel next nx k l out rest : vec next (n + 1) nx -> (forall x, x ∈ l -> 0 <= x <= n) -> chain nx k l -> (length l < fuel)%nat -> zlen l <= zlen rest ->
  exists rest', list_children fuel next k (out ++ rest) (zlen out) = Some ((out ++ l) ++ rest', zlen (out ++ l)) /\ zlen rest' = zlen rest - zlen l.
Proof.
  intros Hnx. revert k l out rest. induction fuel as [|fuel IH]; intros k l out rest Hl Hc Hf Hroom; [lia|]. destruct l as [|x l]; cbn [chain] in Hc; cbn [list_children].
  - subst k. cbn. exists rest. rewrite app_nil_r. split; [done|lia].
  - destruct Hc as [-> Hc]. pose proof (Hl x ltac:(left; done)) as Hx. destruct (Z.eqb_spec x (-1)) as [|_]; [lia|]. cbn [negb]. destruct rest as [|y rest]; [cbn [length] in Hroom; lia|].
    rewrite zset_middle, (proj2 Hnx) by lia. cbn [length] in *.
    destruct (IH (nx x) l (out ++ [x]) rest) as (rest' & E & Hr); [intros z Hz; apply Hl; by right|done|lia|lia|].
    replace (zlen (out ++ [x])) with (zlen out + 1) in E by (rewrite length_app; cbn; lia). rewrite <- !app_assoc in E. cbn [app] in E. rewrite E. exists rest'. rewrite <- !app_assoc. cbn [app]. split; [done|lia].
Qed.

(** The lists of children: those of node [i] are [child[firstchild[i]]] to
    [child[firstchild[i + 1] - 1]], in order. *)
Lemma parent_to_child_ok firstchild child next : zlen firstchild = n + 2 -> zlen child = n + 1 -> zlen next = n + 1 ->
  exists fc ch rest, ParentToChild T n firstchild child next = Some (fc, ch) /\ ch = kids_before (n + 1) ++ rest /\
    vec fc (n + 2) (fun i => zlen (kids_before i)).
Proof.
  intros Hfc Hch Hnx. unfold ParentToChild.
  destruct (upto_fill2 firstchild next (n + 2) (n + 1) (n + 1) (-1) (-1) Hfc Hnx) as (fc1 & nx1 & -> & H1 & H2); [lia|lia|lia|].
  match goal with |- context [upto 0 (n + 1) (fc1, nx1) ?body] =>
    destruct (upto_ok (fun u '(fc, nx) => exists f x, vec fc (n + 2) f /\ vec nx (n + 1) x /\ linked (n + 1 - u) f x) 0 (n + 1) (fc1, nx1) body)
    as ([fc2 nx2] & -> & f & x & Hf & Hx & Hlink) end.
  { lia. }
  { eexists _, _. split; [exact H1|]. split; [exact H2|]. intros p Hp. unfold kids_from. rewrite seqZ_nil by lia. cbn. destruct (Z.ltb_spec p (n + 1)); [done|lia]. }
  { intros u [fc nx] Hu (f & x & Hf & Hx & Hlink). rewrite (proj2 HT) by lia. pose proof (Ht (n - u) ltac:(lia)) as Htu.
    replace (n + 1 - u) with (n - u + 1) in Hlink by lia. replace (n + 1 - (u + 1)) with (n - u) by lia.
    destruct (Z.eqb_spec (t (n - u)) (n - u)) as [E|Hne]; cbn [negb].
    - eexists. split; [done|]. exists f, x. split; [done|]. split; [done|]. by apply linked_skip; [lia| |].
    - rewrite (proj2 Hf) by lia. destruct (vec_upd nx (n + 1) x (n - u) (f (t (n - u))) Hx ltac:(lia)) as (nx' & -> & Hx').
      destruct (vec_upd fc (n + 2) f (t (n - u)) (n - u) Hf ltac:(lia)) as (fc' & -> & Hf'). eexists. split; [done|]. eexists _, _. split; [exact Hf'|]. split; [exact Hx'|].
      by apply linked_step; [lia| |]. }
  replace (n + 1 - (n + 1)) with 0 in Hlink by lia.
  match goal with |- context [upto 0 (n + 1) (fc2, child, 0) ?body] =>
    destruct (upto_ok (fun i '(fc, ch, count) => vec fc (n + 2) (fun k => if k <? i then zlen (kids_before k) else f k) /\ count = zlen (kids_before i) /\
      exists rest, ch = kids_before i ++ rest /\ zlen ch = n + 1) 0 (n + 1) (fc2, child, 0) body)
    as ([[fc3 ch3] count] & -> & Hf3 & -> & rest & -> & Hch3) end.
  { lia. }
  { split; [apply (vec_ext _ _ _ _ Hf); intros k Hk; destruct (Z.ltb_spec k 0); [lia|done]|]. split; [done|]. by exists child. }
  { intros i [[fc ch] count] Hi (Hfc' & -> & rest & -> & Hlen). rewrite (proj2 Hfc') by lia. rewrite Z.ltb_irrefl.
    destruct (vec_fill fc (n + 2) _ _ i Hfc' ltac:(lia)) as (fc' & -> & Hf').
    pose proof (kids_before_length (i + 1) ltac:(lia)) as Hroom. rewrite kids_before_S, length_app in Hroom by lia. rewrite length_app in Hlen.
    destruct (list_children_ok (S (S (Z.to_nat n))) nx2 x (f i) (kids i) (kids_before i) rest Hx) as (rest' & -> & Hr);
      [intros k Hk%kids_elem; lia|apply Hlink; lia|lia|lia|].
    eexists. split; [done|]. rewrite <- kids_before_S by lia. split_and!; [done|done|].
    exists rest'. split; [done|]. rewrite kids_before_S, !length_app in * by lia. lia. }
  destruct (vec_upd fc3 (n + 2) _ (n + 1) (zlen (kids_before (n + 1))) Hf3 ltac:(lia)) as (fc4 & -> & Hf4). eexists _, _, rest. split; [done|]. split; [done|].
  apply (vec_ext _ _ _ _ Hf4). intros k Hk. unfold upd. destruct (Z.eqb_spec k (n + 1)) as [->|]; [done|]. destruct (Z.ltb_spec k (n + 1)); [done|lia].
Qed.
End Children.
End ChildLists.
