(* ===== verification/Analysis.v ===== *)
(** * Analysis: from the file to the supernodes

    The steps of [main] before the factorisation, put together: the rows of the
    file are sorted and the full matrix is made, the columns get their order, and
    the tree, its children, the counts, the work and the supernodes follow. *)

From stdpp Require Import base list option list_numbers sorting.
From S2P Require Import Prelude Doubles Cholesky Etree Nonzeros Supernodes FullMatrix RowSort ChildLists.
Local Open Scope Z_scope.

Module Analysis.
Import Cholesky Etree Nonzeros Supernodes FullMatrix RowSort ChildLists.

(** ** Permutations *)

Lemma CreatePermutation_ok k PERM : 0 <= k -> zlen PERM = k + 1 -> exists PERM', CreatePermutation k PERM true = Some PERM' /\ vec PERM' (k + 1) (fun i => i).
Proof.
  intros Hk Hl. unfold CreatePermutation. assert (vec PERM (k + 1) (elem PERM)) as H0 by (split; [done|]; intros i Hi; apply elem_at; lia).
  destruct (vec_upd PERM (k + 1) _ k k H0 ltac:(lia)) as (P1 & -> & H1).
  destruct (upto_fill P1 (k + 1) (fun j => j) _ k (fun j P => zset P j j) H1) as (P2 & -> & H2); [lia|done|].
  exists P2. split; [done|]. apply (vec_ext _ _ _ _ H2). intros i Hi. cbn. destruct (Z.ltb_spec i k); [done|]. assert (i = k) as -> by lia. apply upd_same.
Qed.

(** An injection of 0, ..., k into itself reaches everything. *)
Lemma onto (p : Z -> Z) k : 0 <= k -> (forall i, 0 <= i <= k -> 0 <= p i <= k) -> (forall i j, 0 <= i <= k -> 0 <= j <= k -> p i = p j -> i = j) ->
  forall r, 0 <= r <= k -> exists i, 0 <= i <= k /\ p i = r.
Proof.
  intros Hk Hp Hinj r Hr. assert (r ∈ p <$> seqZ 0 (k + 1)) as H.
  { assert (p <$> seqZ 0 (k + 1) ≡ₚ seqZ 0 (k + 1)) as ->; [|apply elem_of_seqZ; lia]. apply submseteq_length_Permutation; [|by rewrite length_fmap].
    apply NoDup_submseteq.
    - apply NoDup_fmap_2_strong; [|apply NoDup_seqZ]. intros x y Hx%elem_of_seqZ Hy%elem_of_seqZ. apply Hinj; lia.
    - intros x (i & -> & Hi%elem_of_seqZ)%list_elem_of_fmap. apply elem_of_seqZ. specialize (Hp i ltac:(lia)). lia. }
  apply list_elem_of_fmap in H as (i & -> & Hi%elem_of_seqZ). exists i. split; [lia|done].
Qed.

(** [InvertPerm] of a permutation reports nothing, and its result goes back. *)
Lemma InvertPerm_ok k PERM INVP p : 0 <= k -> vec PERM (k + 1) p -> zlen INVP = k + 1 -> (forall i, 0 <= i <= k -> 0 <= p i <= k) ->
  (forall i j, 0 <= i <= k -> 0 <= j <= k -> p i = p j -> i = j) ->
  exists INVP' q, InvertPerm k PERM INVP = Some (INVP', false) /\ vec INVP' (k + 1) q /\ (forall i, 0 <= i <= k -> q (p i) = i) /\ forall i, 0 <= i <= k -> 0 <= q i <= k /\ p (q i) = i.
Proof.
  intros Hk HP Hl Hp Hinj. unfold InvertPerm.
  destruct (upto_fill INVP (k + 1) (fun _ => -1) _ (k + 1) (fun i INVP => zset INVP i (-1)) (vec_elem _ _ Hl)) as (I1 & -> & H1); [lia|done|].
  destruct (upto_ok (fun i P => exists q, vec P (k + 1) q /\ forall j, 0 <= j < i -> q (p j) = j) 0 (k + 1) I1 (fun i INVP => let? p := znth PERM i in zset INVP p i))
    as (I2 & -> & q & H2 & Hq).
  { lia. }
  { eexists. split; [exact H1|lia]. }
  { intros i P Hi (q & H & Hq). rewrite (proj2 HP) by lia. destruct (vec_upd P (k + 1) q (p i) i H ltac:(specialize (Hp i); lia)) as (P' & -> & H'). exists P'. split; [done|].
    eexists. split; [exact H'|]. intros j Hj. destruct (decide (j = i)) as [->|Hne]; [apply upd_same|]. rewrite upd_other; [apply Hq; lia|]. intros E. apply Hne, Hinj; [lia|lia|done]. }
  assert (forall i, 0 <= i <= k -> 0 <= q i <= k /\ p (q i) = i) as Hback.
  { intros i Hi. destruct (onto p k Hk Hp Hinj i Hi) as (j & Hj & <-). rewrite Hq by lia. done. }
  destruct (upto_ok (fun _ bad => bad = false) 0 (k + 1) false (fun i bad => let? p := znth I2 i in Some (bad || (p =? -1)))) as (bad & -> & ->).
  { lia. }
  { done. }
  { intros i bad Hi ->. rewrite (proj2 H2) by lia. destruct (Hback i ltac:(lia)). eexists. split; [done|]. cbn. destruct (Z.eqb_spec (q i) (-1)); [lia|done]. }
  exists I2, q. split_and!; [done|done| |done]. intros i Hi. apply Hq. lia.
Qed.

(** [ComposePerm]: first one permutation, then the other. *)
Lemma ComposePerm_ok k P1 P2 P3 p q : 0 <= k -> vec P1 (k + 1) p -> vec P2 (k + 1) q -> zlen P3 = k + 1 -> (forall i, 0 <= i < k -> 0 <= q i <= k) ->
  exists P1', ComposePerm P1 P2 k P3 = Some P1' /\ vec P1' (k + 1) (fun i => if i <? k then p (q i) else p i).
Proof.
  intros Hk H1 H2 H3 Hq. unfold ComposePerm.
  destruct (upto_fill P3 (k + 1) (fun j => p (q j)) _ k (fun i PERM3 => let? p := znth P2 i in let? q := znth P1 p in zset PERM3 i q) (vec_elem _ _ H3)) as (P3' & -> & H3').
  - lia.
  - intros i P Hi. rewrite (proj2 H2) by lia. by rewrite (proj2 H1) by (specialize (Hq i); lia).
  - apply (upto_fill P1 (k + 1) (fun j => p (q j)) p k _ H1); [lia|]. intros i P Hi. rewrite (proj2 H3') by lia. by destruct (Z.ltb_spec i k); [|lia].
Qed.

(** ** The matrix that is read *)

(** The columns [cs] follow each other. *)
Definition laid_out (M : SMatrix) (cs : list (list Z)) : Prop := zlen cs = n M /\ zlen (col M) = n M + 1 /\ (exists rest, row M = concat cs ++ rest) /\
  forall k : nat, Z.of_nat k <= n M -> znth (col M) (Z.of_nat k) = Some (zlen (concat (take k cs))).

Lemma laid_out_step M cs (k : nat) c : laid_out M cs -> cs !! k = Some c ->
  elem (col M) (Z.of_nat k) = zlen (concat (take k cs)) /\ elem (col M) (Z.of_nat k + 1) = zlen (concat (take k cs)) + zlen c /\
  exists post, row M = concat (take k cs) ++ c ++ post.
Proof.
  intros (H1 & H2 & (rest & H3) & H4) Hc. pose proof (lookup_lt_Some _ _ _ Hc). unfold elem. replace (Z.of_nat k + 1) with (Z.of_nat (S k)) by lia. rewrite !H4 by lia. cbn [default].
  rewrite (take_S_r _ _ _ Hc), concat_app, length_app. cbn [concat length app]. rewrite app_nil_r. split; [done|]. split; [cbn; lia|].
  exists (concat (drop (S k) cs) ++ rest). rewrite H3, <- (take_drop_middle cs k c Hc) at 1. rewrite concat_app. cbn [concat]. by rewrite <- !app_assoc.
Qed.
Lemma laid_out_seg M cs (k : nat) c : laid_out M cs -> cs !! k = Some c -> seg M (Z.of_nat k) = c.
Proof. intros HM Hc. destruct (laid_out_step M cs k c HM Hc) as (E1 & E2 & post & E3). apply (seg_is M (Z.of_nat k) _ c post E3 E1). done. Qed.

Lemma longest_ok M cs : laid_out M cs -> exists maxm, upto 0 (n M) 0 (fun i maxm =>
    let? b := znth (col M) (i + 1) in
    let? a := znth (col M) i in
    if maxm <? b - a then Some (b - a) else Some maxm) = Some maxm /\
  (forall c, c ∈ cs -> zlen c <= maxm) /\ (maxm = 0 \/ exists c, c ∈ cs /\ zlen c = maxm).
Proof.
  intros HM. pose proof HM as (H1 & H2 & _ & H4).
  match goal with |- context [upto 0 (n M) 0 ?body] => destruct (upto_ok (fun i maxm => 0 <= maxm /\ (forall (k : nat) c, Z.of_nat k < i -> cs !! k = Some c -> zlen c <= maxm) /\
    (maxm = 0 \/ exists c, c ∈ cs /\ zlen c = maxm)) 0 (n M) 0 body) as (maxm & -> & _ & G1 & G2) end.
  - lia.
  - split; [done|]. split; [lia|by left].
  - intros i maxm Hi (G0 & G1 & G2). destruct (lookup_lt_is_Some_2 cs (Z.to_nat i) ltac:(lia)) as [c Hc]. destruct (laid_out_step M cs _ c HM Hc) as (E1 & E2 & _).
    rewrite Z2Nat.id in E1, E2 by lia. rewrite !elem_at by lia. rewrite E1, E2. replace (_ + zlen c - _) with (zlen c) by lia.
    assert (forall x, maxm <= x -> zlen c <= x -> forall (k : nat) c', Z.of_nat k < i + 1 -> cs !! k = Some c' -> zlen c' <= x) as Hall.
    { intros x Hx Hcx k c' Hk Hc'. destruct (decide (Z.of_nat k < i)) as [Hlt|]; [specialize (G1 k c' Hlt Hc'); lia|]. replace (Z.to_nat i) with k in Hc by lia. congruence. }
    destruct (Z.ltb_spec maxm (zlen c)); eexists; (split; [done|]); (split; [lia|]); (split; [apply Hall; lia|]); [|done]. right. exists c. split; [by apply list_elem_of_lookup_2 in Hc|done].
  - exists maxm. split; [done|]. split; [|done]. intros c [k Hk]%list_elem_of_lookup. apply (G1 k c); [|done]. pose proof (lookup_lt_Some _ _ _ Hk). lia.
Qed.

(** The matrix that is read. The file has the rows of every column in any order,
    each once, with the diagonal and nothing above it; whatever the memory holds
    (and the word before the rows, which [ISort] looks at), no access is out of the
    arrays and nothing is reported; column [k] of the full matrix has, once each,
    the rows that column [k] has in the file and the columns that have row [k];
    [maxm] is the length of the longest column. *)
Theorem full_matrix_correct before F link first mcol mstart mrow :
  file_ok F -> zlen (startrow F) = n F + 1 -> zlen link = n F -> zlen first = n F -> zlen mcol = n F + 1 -> zlen mstart = n F + 1 ->
  zlen mrow = (2 * (m F - n F) + n F) + n F ->
  exists M cs maxm, arrange before F link first mcol mstart mrow = Some (M, [], false, maxm) /\
    n M = n F /\ m M = zlen (concat cs) /\ startrow M = col M /\ laid_out M cs /\
    (forall (k : nat) c, cs !! k = Some c -> NoDup c /\ forall r, r ∈ c <-> stored F (Z.of_nat k) r \/ stored F r (Z.of_nat k)) /\
    (forall c, c ∈ cs -> zlen c <= maxm) /\ (maxm = 0 \/ exists c, c ∈ cs /\ zlen c = maxm).
Proof.
  intros HF Hst Hlink Hfirst Hmcol Hmstart Hmrow. unfold arrange. destruct (columns_sorted before F HF) as (M1 & -> & Hsorted).
  destruct (sorted_lower F HF M1 Hsorted) as [HL Hstored]. destruct Hsorted as [(S1 & S2 & S3 & S4 & S5) _].
  pose proof (fi_n _ HF). destruct (fi_len _ HF) as (L1 & _).
  destruct (upto_fill (startrow M1) (n F + 1) (elem (col M1)) _ (n F + 1) (fun i st => let? c := znth (col M1) i in zset st i c) (vec_elem (startrow M1) (n F + 1) ltac:(congruence))) as (st & E & _).
  { lia. }
  { intros i l Hi. rewrite elem_at by (rewrite S3; lia). done. }
  rewrite S1, E, S2. set (L := Matrix (n F) (m F) (col M1) st (row M1)).
  assert (lower_ok L) as HL' by (destruct HL as [Q1 Q2 Q3 Q4 Q5 Q6]; rewrite S1, ?S2 in *; by split).
  destruct (lower_to_full_correct L link first mcol mstart mrow HL' Hlink Hfirst Hmcol Hmstart Hmrow) as (M & cs & rest & -> & T1 & T2 & T3 & T4 & T5 & T6 & T7 & T8).
  change (n L) with (n F) in *. assert (laid_out M cs) as HM by (rewrite <- T1 in *; split_and!; [done|done|by exists rest|done]).
  destruct (longest_ok M cs HM) as (maxm & E' & G1 & G2). rewrite T1 in E'. rewrite E'. exists M, cs, maxm. split_and!; try done.
  intros k c Hc. destruct (T8 k c Hc) as [U1 U2]. split; [done|]. intros r. rewrite U2, <- !Hstored. unfold stored. rewrite S1. done.
Qed.

(** ** The order of elimination is that of the file *)

Section Natural.
Context (F M : SMatrix) (cs : list (list Z)) (HM : laid_out M cs) (En : n M = n F) (P I : list Z).
Context (Hcs : forall (k : nat) c, cs !! k = Some c -> NoDup c /\ forall r, r ∈ c <-> stored F (Z.of_nat k) r \/ stored F r (Z.of_nat k)).
Context (HP : vec P (n M + 1) (fun i => i)) (HI : vec I (n M + 1) (fun i => i)) (Hrange : forall j r, stored F j r -> 0 <= r < n F).

Lemma elem_id l k i : vec l k (fun i => i) -> 0 <= i < k -> elem l i = i.
Proof. intros [_ H] Hi. unfold elem. by rewrite H. Qed.
Lemma column_of j : 0 <= j < n M -> exists c, cs !! Z.to_nat j = Some c /\ seg M j = c /\ forall r, r ∈ c <-> stored F j r \/ stored F r j.
Proof.
  intros Hj. destruct HM as (H1 & _). destruct (lookup_lt_is_Some_2 cs (Z.to_nat j) ltac:(lia)) as [c Hc]. exists c. split; [done|].
  pose proof (laid_out_seg M cs _ c HM Hc) as Hs. destruct (Hcs _ c Hc) as [_ Hr]. rewrite Z2Nat.id in Hs, Hr by lia. done.
Qed.
Lemma in_column j a : 0 <= j < n M -> elem (col M) j <= a < elem (col M) (j + 1) -> stored F j (elem (row M) a) \/ stored F (elem (row M) a) j.
Proof.
  intros Hj Ha. destruct (column_of j Hj) as (c & _ & Hs & <-). rewrite <- Hs. unfold seg. apply list_elem_of_fmap. exists a. split; [done|]. apply elem_of_seqZ. lia.
Qed.
Lemma matrix_natural : matrix_ok M P I.
Proof.
  pose proof HM as (H1 & H2 & _). split.
  - lia.
  - lia.
  - intros j Hj. destruct (column_of j Hj) as (c & Hc & _). destruct (laid_out_step M cs _ c HM Hc) as (E1 & E2 & post & E3). rewrite Z2Nat.id in E1, E2 by lia.
    rewrite E1, E2, E3, !length_app. lia.
  - intros j a Hj Ha. destruct (in_column j a Hj Ha) as [Hs|[Hs _]]; [rewrite En; by apply (Hrange j)|lia].
  - split; [destruct HP; lia|]. intros j Hj. rewrite (elem_id _ _ j HP) by lia. done.
  - split; [destruct HI; lia|]. intros j Hj. rewrite (elem_id _ _ j HI) by lia. done.
Qed.
Lemma nbr_natural j k : 0 <= j < n M -> nbr M P I j k <-> stored F j k \/ stored F k j.
Proof.
  intros Hj. unfold nbr, nbr_upto, starts, stops. rewrite (elem_id _ _ j HP) by lia. split.
  - intros (a & Ha & <-). pose proof (in_column j a Hj Ha) as Hin. rewrite (elem_id _ _ _ HI); [done|]. destruct Hin as [Hs|[Hs _]]; [pose proof (Hrange j _ Hs)|]; lia.
  - intros Hs. destruct (column_of j Hj) as (c & _ & Hc & Hr). apply Hr in Hs. rewrite <- Hc in Hs. unfold seg in Hs. apply list_elem_of_fmap in Hs as (a & -> & Ha%elem_of_seqZ).
    exists a. split; [lia|]. pose proof (in_column j a Hj ltac:(lia)) as Hin. apply (elem_id _ _ _ HI). destruct Hin as [Hs|[Hs _]]; [pose proof (Hrange j _ Hs)|]; lia.
Qed.
End Natural.

(** ** The work in the subtrees *)

Section Work.
Context {V : Type} (FA : arith V) (of_long : Z -> V) (M : SMatrix) (t : Z -> Z) (Hn : 0 <= n M).
Context (Hup : forall k, 0 <= k < n M -> k < t k <= n M) (Hroot : t (n M) = n M).
Local Abbreviation kids := (ChildLists.kids (n M) t).
Local Abbreviation before := (ChildLists.kids_before (n M) t).

(** The work of column [j] alone. *)
Definition own_work (z : Z -> Z) (j : Z) : V := if j =? n M then of_long 0 else of_long (z j + z j * (z j - 1)).

Lemma kid_lt j k : 0 <= j <= n M -> k ∈ kids j -> 0 <= k < j.
Proof. intros Hj (Hk & E & Hne)%kids_elem. destruct (decide (k = n M)) as [->|]; [lia|]. specialize (Hup k ltac:(lia)). lia. Qed.
Lemma child_at ch rest j i : ch = before (n M + 1) ++ rest -> 0 <= j <= n M -> 0 <= i < zlen (kids j) -> znth ch (zlen (before j) + i) = kids j !! Z.to_nat i.
Proof.
  intros -> Hj Hi. assert (exists post, before (n M + 1) = before j ++ kids j ++ post) as [post ->].
  { exists (concat (kids <$> seqZ (0 + (j + 1)) (n M - j))). rewrite app_assoc, <- kids_before_S by lia. unfold ChildLists.kids_before.
    replace (n M + 1) with (j + 1 + (n M - j)) at 1 by lia. by rewrite seqZ_app, fmap_app, concat_app by lia. }
  rewrite <- !app_assoc. replace (zlen (before j) + i) with (Z.of_nat (length (before j) + Z.to_nat i)) by lia. rewrite znth_nat, lookup_app_r by lia.
  replace (length (before j) + Z.to_nat i - length (before j))%nat with (Z.to_nat i) by lia. by rewrite lookup_app_l by lia.
Qed.

(** One node: the work of the children is added, in order. *)
Lemma add_children (ch : list Z) rest (wt : list V) w j b : ch = before (n M + 1) ++ rest -> 0 <= j <= n M -> zlen wt = n M + 1 ->
  (forall k, 0 <= k < j -> znth wt k = Some (w k)) -> znth wt j = Some b ->
  exists wt', upto (zlen (before j)) (zlen (before (j + 1))) wt (fun i wt =>
      let? x := znth wt j in
      let? c := znth ch i in
      let? wc := znth wt c in
      zset wt j (fadd FA x wc)) = Some wt' /\ zlen wt' = n M + 1 /\
    (forall k, 0 <= k < j -> znth wt' k = Some (w k)) /\ znth wt' j = Some (foldl (fadd FA) b (w <$> kids j)).
Proof.
  intros Hch Hj Hl Hw Hb. assert (zlen (before (j + 1)) = zlen (before j) + zlen (kids j)) as El by (rewrite kids_before_S, length_app by lia; lia).
  destruct (upto_ok (fun i wt => zlen wt = n M + 1 /\ (forall k, 0 <= k < j -> znth wt k = Some (w k)) /\
      znth wt j = Some (foldl (fadd FA) b (w <$> take (Z.to_nat (i - zlen (before j))) (kids j)))) (zlen (before j)) (zlen (before (j + 1))) wt
      (fun i wt => let? x := znth wt j in let? c := znth ch i in let? wc := znth wt c in zset wt j (fadd FA x wc))) as (wt' & -> & G1 & G2 & G3).
  - lia.
  - rewrite Z.sub_diag. done.
  - intros i wt1 Hi (G1 & G2 & G3). rewrite G3. set (d := i - zlen (before j)). replace i with (zlen (before j) + d) by lia. rewrite (child_at ch rest j d Hch Hj) by lia.
    destruct (lookup_lt_is_Some_2 (kids j) (Z.to_nat d) ltac:(lia)) as [c Hc]. rewrite Hc. pose proof (kid_lt j c Hj (list_elem_of_lookup_2 _ _ _ Hc)) as Hlt. rewrite G2 by lia.
    rewrite zset_Some by lia. eexists. split; [done|]. pose proof (zset_Some wt1 j (fadd FA (foldl (fadd FA) b (w <$> take (Z.to_nat d) (kids j))) (w c)) ltac:(lia)) as Hset.
    split; [rewrite (zset_length _ _ _ _ Hset); lia|]. split.
    + intros k Hk. rewrite (znth_zset _ _ _ _ _ Hset). destruct (Z.eqb_spec k j); [lia|by apply G2].
    + rewrite (znth_zset _ _ _ _ _ Hset), Z.eqb_refl. replace (Z.to_nat (zlen (before j) + d + 1 - zlen (before j))) with (S (Z.to_nat d)) by lia.
      rewrite (take_S_r _ _ _ Hc), fmap_app, foldl_app. done.
  - exists wt'. split_and!; try done. rewrite El in G3. replace (Z.to_nat (zlen (before j) + zlen (kids j) - zlen (before j))) with (length (kids j)) in G3 by lia.
    by rewrite take_ge in G3 by done.
Qed.

Lemma work_tree_ok nz z fc ch rest wt : vec nz (n M + 1) z -> vec fc (n M + 2) (fun i => zlen (before i)) -> ch = before (n M + 1) ++ rest -> zlen wt = n M + 1 ->
  exists wt' w, ComputeWorkTree FA of_long M nz fc ch wt = Some wt' /\
    forall j, 0 <= j <= n M -> znth wt' j = Some (w j) /\ w j = foldl (fadd FA) (own_work z j) (w <$> kids j).
Proof.
  intros Hz Hfc Hch Hl. unfold ComputeWorkTree.
  match goal with |- context [upto 0 (n M + 1) wt ?body] => destruct (upto_ok (fun j wt => zlen wt = n M + 1 /\ exists w,
    forall k, 0 <= k < j -> znth wt k = Some (w k) /\ w k = foldl (fadd FA) (own_work z k) (w <$> kids k)) 0 (n M + 1) wt body) as (wt' & -> & _ & w & Hw) end.
  - lia.
  - split; [done|]. exists (fun _ => of_long 0). lia.
  - intros j wt1 Hj (Hl1 & w & Hw).
    assert (exists wt2, (if negb (j =? n M) then let? nzj := znth nz j in zset wt1 j (of_long (nzj + nzj * (nzj - 1))) else zset wt1 j (of_long 0)) = Some wt2 /\
      zset wt1 j (own_work z j) = Some wt2) as (wt2 & -> & Hset).
    { unfold own_work. destruct (Z.eqb_spec j (n M)); cbn [negb]; [|rewrite (proj2 Hz) by lia]; (rewrite zset_Some by lia; by eexists). }
    rewrite !(proj2 Hfc) by lia. destruct (add_children ch rest wt2 w j (own_work z j) Hch ltac:(lia)) as (wt3 & -> & G1 & G2 & G3).
    { rewrite (zset_length _ _ _ _ Hset). lia. }
    { intros k Hk. rewrite (znth_zset _ _ _ _ _ Hset). destruct (Z.eqb_spec k j); [lia|]. by apply Hw. }
    { by rewrite (znth_zset _ _ _ _ _ Hset), Z.eqb_refl. }
    exists wt3. split; [done|]. split; [done|]. set (wj := foldl (fadd FA) (own_work z j) (w <$> kids j)) in *.
    assert (forall k, 0 <= k <= j -> (fun x => if x =? j then wj else w x) <$> kids k = w <$> kids k) as Hsame.
    { intros k Hk. apply list_fmap_ext. intros i x Hx%list_elem_of_lookup_2%kid_lt; [|lia]. destruct (Z.eqb_spec x j); [lia|done]. }
    exists (fun x => if x =? j then wj else w x). intros k Hk. rewrite Hsame by lia. destruct (Z.eqb_spec k j) as [->|]; [done|]. split; [apply G2; lia|]. apply Hw. lia.
  - exists wt', w. split; [done|]. intros j Hj. apply Hw. lia.
Qed.
End Work.

(** ** All of it *)

(** The sizes of the arrays, as they are allocated for [k] columns. *)
Record memory_ok {V} (k : Z) (w : memory V) : Prop := {
  mo_perm : zlen (PERM w) = k + 1 /\ zlen (INVP w) = k + 1;
  mo_tree : zlen (T w) = k + 1 /\ zlen (subtree w) = k + 1;
  mo_child : zlen (firstchild w) = k + 2 /\ zlen (child w) = k + 1 /\ zlen (next w) = k + 1;
  mo_nz : zlen (nz w) = k + 1 /\ zlen (marker w) = k /\ zlen (work_tree w) = k + 1;
  mo_node : zlen (node w) = k + 1 /\ zlen (nchild w) = k + 1 }.

(** What the arrays hold after the analysis of the triangle [F], with the full
    matrix [M]: [t k] is the parent of column [k], [z k] its count. *)
Record analysed {V} (FA : arith V) (of_long : Z -> V) (F M : SMatrix) (w : memory V) (t z : Z -> Z) : Prop := {
  an_symmetric j k : 0 <= j < n F -> nbr M (PERM w) (INVP w) j k <-> stored F j k \/ stored F k j;
  an_tree : vec (T w) (n F + 1) t /\ t (n F) = n F;
  an_parent k : 0 <= k < n F -> is_parent M (PERM w) (INVP w) k (t k) /\ t k < n F \/ t k = n F /\ forall i, ~ Filled M (PERM w) (INVP w) i k;
  an_children : vec (firstchild w) (n F + 2) (fun j => zlen (kids_before (n F) t j)) /\ exists rest, child w = kids_before (n F) t (n F + 1) ++ rest;
  an_nz : vec (nz w) (n F + 1) z /\ z (n F) = 0;
  an_counts k : 0 <= k < n F -> counts (fun i => Filled M (PERM w) (INVP w) i k) (z k);
  an_work : exists o, forall j, 0 <= j <= n F -> znth (work_tree w) j = Some (o j) /\ o j = foldl (fadd FA) (own_work of_long M z j) (o <$> kids (n F) t j);
  an_nodes : exists f, vec (node w) (n F + 1) f /\ f (n F) = 0 /\ blocks (fun i => joins M (PERM w) (INVP w) (i - 1) i) f (n F) }.

Lemma forest_up A P I t s : forest A P I (n A) (fun _ => False) t s -> forall k, 0 <= k < n A -> k < t k <= n A.
Proof. intros HF k Hk. destruct (decide (t k = n A)) as [->|Hne]; [lia|]. destruct (fo_parent _ _ _ _ _ _ _ HF k Hk Hne) as [[Hlt _] Hle]. lia. Qed.

Lemma analyse_ok {V} (FA : arith V) of_long F M cs (w : memory V) : laid_out M cs -> n M = n F -> 0 < n F -> memory_ok (n F) w ->
  (forall (k : nat) c, cs !! k = Some c -> NoDup c /\ forall r, r ∈ c <-> stored F (Z.of_nat k) r \/ stored F r (Z.of_nat k)) -> (forall j r, stored F j r -> 0 <= r < n F) ->
  exists w' t z, analyse FA of_long M w = Some w' /\ analysed FA of_long F M w' t z.
Proof.
  intros HM En Hn [[W1 W2] [W3 W4] (W5 & W6 & W7) (W8 & W9 & W10) [W11 W12]] Hcs Hrange. unfold analyse. rewrite <- En in *.
  destruct (CreatePermutation_ok (n M) (PERM w) ltac:(lia) W1) as (P & -> & HP).
  destruct (InvertPerm_ok (n M) P (INVP w) (fun i => i) ltac:(lia) HP W2) as (I & q & -> & HI & Hq & _); [done|done|].
  assert (vec I (n M + 1) (fun i => i)) as HI' by (apply (vec_ext _ _ _ _ HI); intros i Hi; apply Hq; lia).
  rewrite En in Hrange. pose proof (matrix_natural F M cs HM En P I Hcs HP HI' Hrange) as HA. pose proof (nbr_natural F M cs HM En P I Hcs HP HI' Hrange) as Hnbr.
  destruct (tree_built M P I HA (T w) (subtree w) W3 W4) as (T1 & t & s & -> & HT & HF). pose proof (forest_up M P I t s HF) as Hup. destruct (fo_end _ _ _ _ _ _ _ HF) as [Hend _].
  assert (forall k, 0 <= k <= n M -> 0 <= t k <= n M) as Ht by (intros k Hk; destruct (decide (k = n M)) as [->|]; [lia|]; specialize (Hup k); lia).
  destruct (parent_to_child_ok (n M) T1 t ltac:(lia) HT Ht (firstchild w) (child w) (next w) W5 W6 W7) as (fc & ch & rest & -> & Hch & Hfc).
  destruct (nz_counted M P I HA T1 t s HT HF (nz w) (marker w) W8 W9) as (nz1 & z & -> & Hz & Hz0 & Hcount).
  destruct (work_tree_ok FA of_long M t ltac:(lia) Hup Hend nz1 z fc ch rest (work_tree w) Hz Hfc Hch W10) as (wt & o & -> & Ho).
  destruct (supernodes_found M P I HA T1 nz1 t s z HT HF Hz Hcount (node w) (nchild w) Hn W11 W12) as (nd & f & -> & Hf & Hf0 & HB).
  eexists _, t, z. split; [done|]. split; cbn; rewrite <- ?En; [done|done| |split; [done|by exists rest]|done|done|by exists o|by exists f].
  intros k Hk. destruct (decide (t k = n M)) as [E|Hne].
  - right. split; [done|]. intros i Hi. pose proof (Filled_range _ _ _ _ _ Hi). by destruct (fo_root _ _ _ _ _ _ _ HF k i Hk E ltac:(lia)).
  - left. destruct (fo_parent _ _ _ _ _ _ _ HF k Hk Hne) as [Hpar _]. specialize (Hup k Hk). split; [done|lia].
Qed.

(** C25. The analysis, from the file on: for every lower triangle with its diagonal,
    the rows of a column in any order, and whatever the memory holds, all calls
    return and nothing is reported. What they leave is the analysis of the
    symmetric matrix: the parents are the first filled rows, the children of
    every node are listed in order, the counts are those of the factor, the work
    of a node is its own and that of its children, added in order, and the
    supernodes are the columns with the same structure. *)
Theorem analysis_correct {V} (FA : arith V) of_long before F link first mcol mstart mrow (w : memory V) :
  file_ok F -> 0 < n F -> zlen (startrow F) = n F + 1 -> zlen link = n F -> zlen first = n F -> zlen mcol = n F + 1 -> zlen mstart = n F + 1 ->
  zlen mrow = (2 * (m F - n F) + n F) + n F -> memory_ok (n F) w ->
  exists M maxm w' t z, arrange before F link first mcol mstart mrow = Some (M, [], false, maxm) /\
    analyse FA of_long M w = Some w' /\ analysed FA of_long F M w' t z.
Proof.
  intros HF Hn H1 H2 H3 H4 H5 H6 Hw. destruct (full_matrix_correct before F link first mcol mstart mrow HF H1 H2 H3 H4 H5 H6) as (M & cs & maxm & -> & En & _ & _ & HM & Hcs & _).
  destruct (analyse_ok FA of_long F M cs w HM En Hn Hw Hcs) as (w' & t & z & E & Han).
  - intros j r (Hj & a & Ha & <-). assert (elem (row F) a ∈ seg F j) as Hin by (apply seg_elem; [done|]; split; [done|]; by exists a). pose proof (fi_range _ HF j _ Hj Hin). lia.
  - by exists M, maxm, w', t, z.
Qed.

(** The lower triangle of the ring, with the rows of column 0 out of order. *)
Definition triangle : SMatrix := Matrix 4 8 [0; 3; 5; 7; 8] [6; 6; 6; 6; 6] [3; 0; 1; 1; 2; 3; 2; 3].
Lemma triangle_ok : file_ok triangle.
Proof.
  split; [done|done| | | |].
  - apply (cases4 (fun j => elem (col triangle) j < elem (col triangle) (j + 1))); by vm_compute.
  - apply (cases4 (fun j => NoDup (seg triangle j))); apply (bool_decide_unpack _); by vm_compute.
  - apply (cases4 (fun j => j ∈ seg triangle j)); apply (bool_decide_unpack _); by vm_compute.
  - intros j r Hj. revert j Hj r. apply (cases4 (fun j => forall r, r ∈ seg triangle j -> j <= r < 4)); intros r Hr;
      [change (r ∈ [3; 0; 1]) in Hr|change (r ∈ [1; 2]) in Hr|change (r ∈ [3; 2]) in Hr|change (r ∈ [3]) in Hr]; repeat (apply elem_of_cons in Hr as [->|Hr]; [lia|]); by apply elem_of_nil in Hr.
Qed.
Definition scratch : memory Z := Memory (replicate 5 9) (replicate 5 9) (replicate 5 9) (replicate 6 9) (replicate 5 9) (replicate 5 9) (replicate 5 9) (replicate 5 9)
  (replicate 5 9) (replicate 5 9) (replicate 4 9) (replicate 5 9).
Definition ints : arith Z := Arith Z Z.add Z.sub Z.mul Z.div Z.opp.

Lemma analysis_correct_witness : exists M maxm w' t z,
  arrange 77 triangle (replicate 4 9) (replicate 4 9) (replicate 5 9) (replicate 5 9) (replicate 16 9) = Some (M, [], false, maxm) /\ maxm = 3 /\
  analyse ints (fun x => x) M scratch = Some w' /\ node w' = [1; 3; -1; -2; 0] /\ nz w' = [3; 3; 2; 1; 0] /\ work_tree w' = [9; 18; 22; 23; 23] /\ analysed ints (fun x => x) triangle M w' t z.
Proof.
  destruct (analysis_correct ints (fun x => x) 77 triangle (replicate 4 9) (replicate 4 9) (replicate 5 9) (replicate 5 9) (replicate 16 9) scratch triangle_ok)
    as (M & maxm & w' & t & z & E1 & E2 & H); [reflexivity..|split; split_and!; reflexivity|]. exists M, maxm, w', t, z.
  vm_compute in E1. injection E1 as <- <-. vm_compute in E2. injection E2 as <-. split_and!; [reflexivity|reflexivity|reflexivity|reflexivity|reflexivity|reflexivity|exact H].
Defined.
End Analysis.
