(* ===== verification/Bfac.v ===== *)
(** * Bfac: the dense kernels of the Cholesky factorisation
      (papps/splash2/codes/kernels/cholesky/bfac.C)

    The factor is made of dense blocks, stored by columns.  [BFac] factors a block
    on the diagonal, [BDiv] divides a block below by it, [BMod] and [BLMod]
    subtract products; each works through its block in pieces of [BS] rows and
    columns, on a copy, with loops that are unrolled over columns.

    - The memory is a function from addresses (in doubles) to values; a pointer is
      an address.
    - [*p -= x] and the like are written out; what the code loads into registers
      before a loop is loaded before the loop here.
    - The unrolled statements [tmp0 = *b0++; t0 -= a_j0k0*tmp0; t1 -= a_j1k0*tmp0;]
      and so on are a fold over the list of the columns.
    - The numbers are a parameter, and so is the square root. *)

From stdpp Require Import base list option list_numbers.
From S2P Require Import Prelude Doubles.
Local Open Scope Z_scope.

(** [for (; i < b; i += st)]: the value of [i] at the end, and the state. *)
Fixpoint steps_loop {S} (fuel : nat) (st b i : Z) (s : S) (body : Z -> S -> S) : Z * S :=
  match fuel with
  | O => (i, s)
  | S fuel => if i <? b then steps_loop fuel st b (i + st) (body i s) body else (i, s)
  end.
Definition steps {S} (st b i : Z) (s : S) (body : Z -> S -> S) : Z * S := steps_loop (Z.to_nat (b - i)) st b i s body.
Definition for_to {S} (i b : Z) (s : S) (body : Z -> S -> S) : S := snd (steps 1 b i s body).

Module Bfac.
Section Kernels.
Context {V : Type} (F : arith V) (one : V) (sqrt : V -> V) (BS : Z).
Local Abbreviation mem := (Z -> V).
Implicit Types (σ : Z -> V).

Definition put σ (a : Z) (x : V) : mem := fun b => if b =? a then x else σ b.

(** ** Sweeps *)

(** [while (dest0 != last)]: two columns of the result at a time; [cs] are the
    factors of the two columns, [bs] the columns they are for. *)
Definition minus2 (t : V * V) (x : (V * V) * V) : V * V := (fsub F t.1 (fmul F x.1.1 x.2), fsub F t.2 (fmul F x.1.2 x.2)).
Fixpoint sweep2 (fuel : nat) σ (dest0 dest1 last : Z) (cs : list (V * V)) (bs : list Z) : mem :=
  match fuel with
  | O => σ
  | S fuel =>
      if negb (dest0 =? last) then
        let t := foldl minus2 (σ dest0, σ dest1) (zip cs (σ <$> bs)) in
        let σ := put σ dest0 t.1 in
        let σ := put σ dest1 t.2 in
        sweep2 fuel σ (dest0 + 1) (dest1 + 1) last cs (Z.succ <$> bs)
      else σ
  end.
Definition minus1 (t : V) (x : V * V) : V := fsub F t (fmul F x.1 x.2).
Fixpoint sweep1 (fuel : nat) σ (dest0 last : Z) (cs : list V) (bs : list Z) : mem :=
  match fuel with
  | O => σ
  | S fuel =>
      if negb (dest0 =? last) then
        let σ := put σ dest0 (foldl minus1 (σ dest0) (zip cs (σ <$> bs))) in
        sweep1 fuel σ (dest0 + 1) last cs (Z.succ <$> bs)
      else σ
  end.
(** [tmp], [tmp + st], ...: [k] of them. *)
Definition strided (tmp st : Z) (k : nat) : list Z := (fun q => tmp + st * Z.of_nat q) <$> seq 0 k.
(** [a_j0k0 = *tmp; a_j1k0 = *(tmp+1); tmp += st; ...] *)
Definition load2 σ (tmp st : Z) (k : nat) : list (V * V) := (fun p => (σ p, σ (p + 1))) <$> strided tmp st k.
Definition load1 σ (tmp st : Z) (k : nat) : list V := σ <$> strided tmp st k.

(** ** [OneFac] *)

Definition OneFac (A n1 n2 : Z) σ : mem :=
  for_to 0 n1 σ (fun j σ =>
    let '(k, σ) := steps 1 j 0 σ (fun k σ =>
      for_to j n1 σ (fun i σ => put σ (A + (i + n2 * j)) (fsub F (σ (A + (i + n2 * j))) (fmul F (σ (A + (j + n2 * k))) (σ (A + (i + n2 * k))))))) in
    let σ := put σ (A + (k + n2 * k)) (sqrt (σ (A + (k + n2 * k)))) in
    for_to (j + 1) n1 σ (fun i σ => put σ (A + (i + n2 * k)) (fdiv F (σ (A + (i + n2 * k))) (σ (A + (k + n2 * k)))))).

(** ** [OneDiv] *)

Definition OneDiv (A B n1 n3 n4 : Z) σ : mem :=
  let '(j, σ) := steps 2 (n1 - 1) 0 σ (fun j σ =>
    let '(k, σ) := steps 4 (j - 3) 0 σ (fun k σ =>
      sweep2 (Z.to_nat n3) σ (B + n3 * j) (B + n3 * j + n3) (B + n3 * j + n3) (load2 σ (A + (j + n4 * k)) n4 4) (strided (B + n3 * k) n3 4)) in
    let '(k, σ) := steps 1 j k σ (fun k σ =>
      let a_j0k0 := σ (A + (j + n4 * k)) in
      let a_j1k0 := σ (A + (j + 1 + n4 * k)) in
      for_to 0 n3 σ (fun i σ =>
        let σ := put σ (B + (i + n3 * (j + 0))) (fsub F (σ (B + (i + n3 * (j + 0)))) (fmul F a_j0k0 (σ (B + (i + n3 * k))))) in
        put σ (B + (i + n3 * (j + 1))) (fsub F (σ (B + (i + n3 * (j + 1)))) (fmul F a_j1k0 (σ (B + (i + n3 * k))))))) in
    let tmp0 := fdiv F one (σ (A + (j + n4 * j))) in
    let σ := for_to 0 n3 σ (fun i σ => put σ (B + (i + n3 * j)) (fmul F (σ (B + (i + n3 * j))) tmp0)) in
    let σ := for_to 0 n3 σ (fun i σ =>
      let a_j1k0 := σ (A + (j + 1 + n4 * k)) in
      put σ (B + (i + n3 * (j + 1))) (fsub F (σ (B + (i + n3 * (j + 1)))) (fmul F a_j1k0 (σ (B + (i + n3 * j)))))) in
    let tmp0 := fdiv F one (σ (A + (j + 1 + n4 * (j + 1)))) in
    for_to 0 n3 σ (fun i σ => put σ (B + (i + n3 * (j + 1))) (fmul F (σ (B + (i + n3 * (j + 1)))) tmp0))) in
  for_to j n1 σ (fun j σ =>
    let σ := for_to 0 j σ (fun k σ =>
      let a_j0k0 := σ (A + (j + n4 * k)) in
      for_to 0 n3 σ (fun i σ => put σ (B + (i + n3 * j)) (fsub F (σ (B + (i + n3 * j))) (fmul F a_j0k0 (σ (B + (i + n3 * k))))))) in
    for_to 0 n3 σ (fun i σ => put σ (B + (i + n3 * j)) (fdiv F (σ (B + (i + n3 * j))) (σ (A + (j + n4 * j)))))).

(** ** [OneMatmat] *)

Definition OneMatmat (B A C n1 n2 n3 n4 n5 : Z) σ : mem :=
  let unrolled (u : nat) (j k : Z) σ :=
    sweep2 (Z.to_nat n3) σ (C + n4 * j) (C + n4 * j + n4) (C + n4 * j + n3) (load2 σ (A + (j + n5 * k)) n5 u) (strided (B + n3 * k) n3 u) in
  let '(j, σ) := steps 2 (n1 - 1) 0 σ (fun j σ =>
    let '(k, σ) := steps 8 (n2 - 7) 0 σ (unrolled 8%nat j) in
    let '(k, σ) := steps 4 (n2 - 3) k σ (unrolled 4%nat j) in
    snd (steps 1 n2 k σ (fun k σ =>
      let a_j0k0 := σ (A + (j + n5 * k)) in
      let a_j1k0 := σ (A + (j + 1 + n5 * k)) in
      for_to 0 n3 σ (fun i σ =>
        let t0 := σ (B + (i + n3 * k)) in
        let σ := put σ (C + (i + n4 * j)) (fsub F (σ (C + (i + n4 * j))) (fmul F a_j0k0 t0)) in
        put σ (C + (i + n4 * (j + 1))) (fsub F (σ (C + (i + n4 * (j + 1)))) (fmul F a_j1k0 t0)))))) in
  for_to j n1 σ (fun j σ =>
    let '(k, σ) := steps 4 (n2 - 3) 0 σ (fun k σ =>
      sweep1 (Z.to_nat n3) σ (C + n4 * j) (C + n4 * j + n3) (load1 σ (A + (j + n5 * k)) n5 4) (strided (B + n3 * k) n3 4)) in
    snd (steps 1 n2 k σ (fun k σ =>
      let a_j0k0 := σ (A + (j + n5 * k)) in
      for_to 0 n3 σ (fun i σ => put σ (C + (i + n4 * j)) (fsub F (σ (C + (i + n4 * j))) (fmul F a_j0k0 (σ (B + (i + n3 * k))))))))).

(** ** [OneLower] *)

(** [a_j0k0**b0++ + a_j0k1**b1++ + ...] *)
Definition sum4 (cs : list (V * V)) (bs : list V) : V :=
  match zip cs bs with
  | (c, b) :: l => foldl (fun t x => fadd F t (fmul F x.1.1 x.2)) (fmul F c.1 b) l
  | [] => one
  end.
Definition OneLower (A C n1 n2 n3 : Z) σ : mem :=
  let '(j, σ) := steps 2 (n1 - 1) 0 σ (fun j σ =>
    let '(k, σ) := steps 4 (n2 - 3) 0 σ (fun k σ =>
      let cs := load2 σ (A + (j + n1 * k)) n1 4 in
      let bs := strided (A + (j + n1 * k)) n1 4 in
      let dest0 := C + (j + n3 * j) in
      let last := dest0 + n1 - j in
      let σ := put σ dest0 (fsub F (σ dest0) (sum4 cs (σ <$> bs))) in
      sweep2 (Z.to_nat (n1 - j - 1)) σ (dest0 + 1) (dest0 + 1 + n3) last cs (Z.succ <$> bs)) in
    snd (steps 1 n2 k σ (fun k σ =>
      let a_j0k0 := σ (A + (j + n1 * k)) in
      let a_j1k0 := σ (A + (j + 1 + n1 * k)) in
      let σ := put σ (C + (j + n3 * j)) (fsub F (σ (C + (j + n3 * j))) (fmul F a_j0k0 (σ (A + (j + n1 * k))))) in
      for_to (j + 1) n1 σ (fun i σ =>
        let σ := put σ (C + (i + n3 * j)) (fsub F (σ (C + (i + n3 * j))) (fmul F a_j0k0 (σ (A + (i + n1 * k))))) in
        put σ (C + (i + n3 * (j + 1))) (fsub F (σ (C + (i + n3 * (j + 1)))) (fmul F a_j1k0 (σ (A + (i + n1 * k))))))))) in
  for_to j n1 σ (fun j σ =>
    for_to 0 n2 σ (fun k σ =>
      let a_j0k0 := σ (A + (j + n1 * k)) in
      for_to j n1 σ (fun i σ => put σ (C + (i + n3 * j)) (fsub F (σ (C + (i + n3 * j))) (fmul F a_j0k0 (σ (A + (i + n1 * k)))))))).

(** ** Copies *)

Definition CopyBlock (B dest n3 is_ ks il kl : Z) σ : mem :=
  let bs := il - is_ in
  for_to ks kl σ (fun k σ => for_to is_ il σ (fun i σ => put σ (dest + ((i - is_) + (k - ks) * bs)) (σ (B + (i + k * n3))))).
Definition CopyBlockBack (B src n3 is_ ks il kl : Z) σ : mem :=
  let bs := il - is_ in
  for_to ks kl σ (fun k σ => for_to is_ il σ (fun i σ => put σ (B + (i + k * n3)) (σ (src + ((i - is_) + (k - ks) * bs))))).

(** ** The kernels on whole blocks *)

(** [jl = js+BS; if (jl > n) jl = n;] *)
Definition upper (js n : Z) : Z := if n <? js + BS then n else js + BS.

Definition BFac (blktmp A n : Z) σ : mem :=
  snd (steps BS n 0 σ (fun js σ =>
    let jl := upper js n in
    let σ := OneFac (A + (js + n * js)) (jl - js) n σ in
    snd (steps BS n jl σ (fun is_ σ =>
      let il := upper is_ n in
      let σ := CopyBlock A blktmp n is_ js il jl σ in
      let σ := OneDiv (A + (js + n * js)) blktmp (jl - js) (il - is_) n σ in
      let σ := CopyBlockBack A blktmp n is_ js il jl σ in
      let '(_, σ) := steps BS is_ jl σ (fun ks σ =>
        let kl := upper ks n in
        OneMatmat blktmp (A + (ks + n * js)) (A + (is_ + n * ks)) (kl - ks) (jl - js) (il - is_) n n σ) in
      OneLower blktmp (A + (is_ + n * is_)) (il - is_) (jl - js) n σ)))).

Definition BDiv (blktmp n1 n3 A B : Z) σ : mem :=
  if n1 * n3 <=? BS * BS then OneDiv A B n1 n3 n1 σ
  else
    snd (steps BS n1 0 σ (fun js σ =>
      let jl := upper js n1 in
      snd (steps BS n3 0 σ (fun is_ σ =>
        let il := upper is_ n3 in
        let σ := CopyBlock B blktmp n3 is_ js il jl σ in
        let σ := OneDiv (A + (js + js * n1)) blktmp (jl - js) (il - is_) n1 σ in
        let σ := CopyBlockBack B blktmp n3 is_ js il jl σ in
        snd (steps BS n1 jl σ (fun ks σ =>
          let kl := upper ks n1 in
          OneMatmat blktmp (A + (ks + js * n1)) (B + (is_ + ks * n3)) (kl - ks) (jl - js) (il - is_) n3 n1 σ)))))).

Definition FitsInCache : Z := 2048.
Definition BMod (blktmp n1 n2 n3 A B C : Z) σ : mem :=
  if n2 * n3 <=? BS * BS then OneMatmat B A C n1 n2 n3 n3 n1 σ
  else if n3 <? Z.quot FitsInCache 16 then
    let hbs := Z.quot FitsInCache n3 in
    snd (steps hbs n2 0 σ (fun ks σ =>
      let kl := if n2 <? ks + hbs then n2 else ks + hbs in
      OneMatmat (B + ks * n3) (A + ks * n1) C n1 (kl - ks) n3 n3 n1 σ))
  else
    snd (steps BS n3 0 σ (fun is_ σ =>
      let il := upper is_ n3 in
      snd (steps BS n2 0 σ (fun ks σ =>
        let kl := upper ks n2 in
        let σ := CopyBlock B blktmp n3 is_ ks il kl σ in
        OneMatmat blktmp (A + ks * n1) (C + is_) n1 (kl - ks) (il - is_) n3 n1 σ)))).

Definition BLMod (blktmp n1 n2 A C : Z) σ : mem :=
  if n1 * n2 <=? BS * BS then OneLower A C n1 n2 n1 σ
  else
    snd (steps BS n1 0 σ (fun is_ σ =>
      let il := upper is_ n1 in
      snd (steps BS n2 0 σ (fun ks σ =>
        let kl := upper ks n2 in
        let σ := CopyBlock A blktmp n1 is_ ks il kl σ in
        let σ := OneMatmat blktmp (A + ks * n1) (C + is_) is_ (kl - ks) (il - is_) n1 n1 σ in
        OneLower blktmp (C + (is_ + is_ * n1)) (il - is_) (kl - ks) n1 σ)))).
End Kernels.

(** ** [FindBlockUpdate] *)

(** The triangle of a domain is stored by columns, each from its diagonal on. [len]
    are the lengths of the blocks, [col] the first block of each column and domain,
    [storage] where the domains' triangles are; the answer is the address of the
    block's first element and the distance to the one right of it. *)
Definition FindBlockUpdate (len col storage : Z -> Z) (n domain bli blj : Z) : Z * Z :=
  let '(i, into_j) := steps 1 blj (col (n + domain)) 0 (fun i into_j => into_j + len i) in
  let '(i, into_i) := steps 1 bli i into_j (fun i into_i => into_i + len i) in
  let '(_, update_len) := steps 1 (col (n + domain + 1)) i into_i (fun i update_len => update_len + len i) in
  (storage domain + (into_j * update_len - Z.quot (into_j * (into_j + 1)) 2 + into_i), update_len - into_j - 1).
End Bfac.
