(* ===== verification/BfacLoops.v ===== *)
(** * BfacLoops: what loops over cells do

    Rules for the loops of [Bfac]: a loop that writes one cell (or two) in every
    turn, the unrolled sweeps, and the sums they take away ([less]). *)

From stdpp Require Import base list option list_numbers.
From S2P Require Import Prelude Doubles Bfac.
Local Open Scope Z_scope.

Lemma steps_ok {S} (Inv : Z -> S -> Prop) st b i s (body : Z -> S -> S) : 0 < st -> Inv i s ->
  (forall i s, i < b -> Inv i s -> Inv (i + st) (body i s)) -> Inv (steps st b i s body).1 (steps st b i s body).2 /\ b <= (steps st b i s body).1.
Proof.
  intros Hst H Hb. unfold steps. remember (Z.to_nat (b - i)) as k eqn:Hk. assert (b - i <= Z.of_nat k) as Hk' by lia. clear Hk.
  revert i s H Hk'. induction k as [|k IH]; intros i s H Hk; cbn [steps_loop]; [split; [done|cbn; lia]|].
  destruct (Z.ltb_spec i b); [|split; [done|cbn; lia]]. apply IH; [by apply Hb|lia].
Qed.
(** The loop goes by ones: it ends at the bound. *)
Lemma for_ok {S} (Inv : Z -> S -> Prop) i b s (body : Z -> S -> S) : i <= b -> Inv i s ->
  (forall i s, i < b -> Inv i s -> Inv (i + 1) (body i s)) -> (steps 1 b i s body).1 = b /\ Inv b (steps 1 b i s body).2.
Proof.
  intros Hib H Hb. destruct (steps_ok (fun i s => i <= b /\ Inv i s) 1 b i s body) as [[H1 H2] H3]; [lia|done| |].
  - intros j s' Hj [_ Hs]. split; [lia|by apply Hb].
  - assert ((steps 1 b i s body).1 = b) as E by lia. rewrite E in H2. done.
Qed.
Lemma for_to_ok {S} (Inv : Z -> S -> Prop) i b s (body : Z -> S -> S) : i <= b -> Inv i s ->
  (forall j s, i <= j < b -> Inv j s -> Inv (j + 1) (body j s)) -> Inv b (for_to i b s body).
Proof.
  intros Hib H Hb. unfold for_to. destruct (for_ok (fun j s => i <= j /\ Inv j s) i b s body) as (E & _ & H'); [done|done| |done].
  intros j s' Hj [Hij Hs]. split; [lia|]. apply Hb; [lia|done].
Qed.
Lemma for_to_ext {S} i b (s : S) body body' : (forall i s, body i s = body' i s) -> for_to i b s body = for_to i b s body'.
Proof.
  intros H. unfold for_to, steps. f_equal. generalize (Z.to_nat (b - i)). intros k. revert i s.
  induction k as [|k IH]; intros i s; cbn [steps_loop]; [done|]. rewrite H. destruct (i <? b); [apply IH|done].
Qed.

Module BfacLoops.
Import Bfac.

Section Cells.
Context {V : Type} (F : arith V).
Implicit Types (σ : Z -> V).

Lemma put_here σ a x : put σ a x a = x.
Proof. unfold put. by rewrite Z.eqb_refl. Qed.
Lemma put_other σ a x b : b <> a -> put σ a x b = σ b.
Proof. intros H. unfold put. by destruct (Z.eqb_spec b a). Qed.

(** One cell in every turn. The value depends on the cell itself and on cells
    that the loop does not write. *)
Lemma for_put lo hi σ (a : Z -> Z) (f : Z -> (Z -> V) -> V) : lo <= hi ->
  (forall i i', lo <= i < hi -> lo <= i' < hi -> a i = a i' -> i = i') ->
  (forall i σ', lo <= i < hi -> (forall b, b = a i \/ (forall i', lo <= i' < hi -> b <> a i') -> σ' b = σ b) -> f i σ' = f i σ) ->
  (forall i, lo <= i < hi -> for_to lo hi σ (fun i σ => put σ (a i) (f i σ)) (a i) = f i σ) /\
  (forall b, (forall i, lo <= i < hi -> b <> a i) -> for_to lo hi σ (fun i σ => put σ (a i) (f i σ)) b = σ b).
Proof.
  intros Hlh Hinj Hf.
  assert (forall j, lo <= j <= hi -> (fun j σ' => (forall i, lo <= i < j -> σ' (a i) = f i σ) /\ (forall b, (forall i, lo <= i < j -> b <> a i) -> σ' b = σ b)) j
    (for_to lo j σ (fun i σ => put σ (a i) (f i σ)))) as H; [|by apply (H hi); lia].
  intros j Hj. apply for_to_ok; [lia|split; [lia|done]|]. intros i σ' Hi [H1 H2]. split.
  - intros i' Hi'. destruct (decide (i' = i)) as [->|Hne].
    + rewrite put_here. apply Hf; [lia|]. intros b [->|Hb]; apply H2; intros x Hx; [|apply Hb; lia]. intros E. apply Hinj in E; lia.
    + rewrite put_other; [apply H1; lia|]. intros E. apply Hinj in E; lia.
  - intros b Hb. rewrite put_other by (apply Hb; lia). apply H2. intros x Hx. apply Hb. lia.
Qed.

(** Two cells in every turn; the second value may have been computed, in part,
    before the first was written. *)
Lemma for_put2 lo hi σ (a0 a1 : Z -> Z) (f0 : Z -> (Z -> V) -> V) (f1 : Z -> (Z -> V) -> (Z -> V) -> V) : lo <= hi ->
  (forall i i', lo <= i < hi -> lo <= i' < hi -> a0 i = a0 i' -> i = i') -> (forall i i', lo <= i < hi -> lo <= i' < hi -> a1 i = a1 i' -> i = i') ->
  (forall i i', lo <= i < hi -> lo <= i' < hi -> a0 i <> a1 i') ->
  (forall i σ', lo <= i < hi -> (forall b, b = a0 i \/ (forall i', lo <= i' < hi -> b <> a0 i' /\ b <> a1 i') -> σ' b = σ b) -> f0 i σ' = f0 i σ) ->
  (forall i σ' σ'', lo <= i < hi -> (forall b, b = a1 i \/ (forall i', lo <= i' < hi -> b <> a0 i' /\ b <> a1 i') -> σ' b = σ b /\ σ'' b = σ b) -> f1 i σ' σ'' = f1 i σ σ) ->
  let σ1 := for_to lo hi σ (fun i σ => put (put σ (a0 i) (f0 i σ)) (a1 i) (f1 i σ (put σ (a0 i) (f0 i σ)))) in
  (forall i, lo <= i < hi -> σ1 (a0 i) = f0 i σ /\ σ1 (a1 i) = f1 i σ σ) /\
  (forall b, (forall i, lo <= i < hi -> b <> a0 i /\ b <> a1 i) -> σ1 b = σ b).
Proof.
  intros Hlh Hinj0 Hinj1 Happ Hf0 Hf1. cbn zeta.
  assert (forall j, lo <= j <= hi -> (fun j σ' => (forall i, lo <= i < j -> σ' (a0 i) = f0 i σ /\ σ' (a1 i) = f1 i σ σ) /\
    (forall b, (forall i, lo <= i < j -> b <> a0 i /\ b <> a1 i) -> σ' b = σ b)) j
    (for_to lo j σ (fun i σ => put (put σ (a0 i) (f0 i σ)) (a1 i) (f1 i σ (put σ (a0 i) (f0 i σ)))))) as H; [|by apply (H hi); lia].
  intros j Hj. apply for_to_ok; [lia|split; [lia|done]|]. intros i σ' Hi [H1 H2].
  assert (f0 i σ' = f0 i σ) as E0.
  { apply Hf0; [lia|]. intros b [->|Hb]; apply H2; intros x Hx; [|apply Hb; lia]. split; [intros E; apply Hinj0 in E; lia|apply Happ; lia]. }
  assert (f1 i σ' (put σ' (a0 i) (f0 i σ')) = f1 i σ σ) as E1.
  { apply Hf1; [lia|]. intros b Hb. assert (b <> a0 i) as Hne by (destruct Hb as [->|Hb]; [intros E; by apply (Happ i i); [lia|lia|]|apply Hb; lia]). rewrite put_other by done.
    assert (σ' b = σ b) as Eb; [|done]. apply H2. intros x Hx. destruct Hb as [->|Hb]; [|apply Hb; lia].
    split; [intros E; symmetry in E; revert E; apply Happ; lia|intros E; apply Hinj1 in E; lia]. }
  rewrite E1, E0. split.
  - intros i' Hi'. destruct (decide (i' = i)) as [->|Hne].
    + rewrite put_here, put_other, put_here by (apply Happ; lia). done.
    + assert (a0 i' <> a1 i /\ a1 i' <> a0 i) as [D1 D2] by (split; [|intros E; symmetry in E; revert E]; apply Happ; lia).
      assert (a0 i' <> a0 i) by (intros E; apply Hne, Hinj0; [lia|lia|done]). assert (a1 i' <> a1 i) by (intros E; apply Hne, Hinj1; [lia|lia|done]).
      rewrite !put_other by done. apply H1. lia.
  - intros b Hb. destruct (Hb i ltac:(lia)). rewrite !put_other by done. apply H2. intros x Hx. apply Hb. lia.
Qed.

(** ** Sums that are taken away *)

(** [t - f a - ... - f (b - 1)] *)
Definition less (t : V) (f : Z -> V) (a b : Z) : V := foldl (fun t k => fsub F t (f k)) t (seqZ a (b - a)).

Lemma less_none t f a b : b <= a -> less t f a b = t.
Proof. intros H. unfold less. by rewrite seqZ_nil by lia. Qed.
Lemma less_app t f a b c : a <= b <= c -> less (less t f a b) f b c = less t f a c.
Proof.
  intros H. unfold less. rewrite <- foldl_app. f_equal. replace (c - a) with ((b - a) + (c - b)) by lia. rewrite seqZ_app by lia. by replace (a + (b - a)) with b by lia.
Qed.
Lemma less_one t f a : less t f a (a + 1) = fsub F t (f a).
Proof. unfold less. replace (a + 1 - a) with 1 by lia. done. Qed.
Lemma less_S t f a b : a <= b -> less t f a (b + 1) = fsub F (less t f a b) (f b).
Proof. intros H. rewrite <- (less_app t f a b (b + 1)) by lia. apply less_one. Qed.
Lemma less_ext t f g a b : (forall k, a <= k < b -> f k = g k) -> less t f a b = less t g a b.
Proof.
  intros H. destruct (decide (a <= b)) as [Hab|]; [|by rewrite !less_none by lia]. replace b with (a + Z.of_nat (Z.to_nat (b - a))) in * by lia.
  induction (Z.to_nat (b - a)) as [|d IH]; [by rewrite !less_none by lia|]. replace (a + Z.of_nat (S d)) with (a + Z.of_nat d + 1) in * by lia.
  rewrite !less_S by lia. rewrite IH, H; [done|lia|intros k Hk; apply H; lia|lia].
Qed.
Lemma less_shift t f a b d : less t f (a + d) (b + d) = less t (fun k => f (k + d)) a b.
Proof.
  destruct (decide (a <= b)) as [Hab|]; [|by rewrite !less_none by lia]. replace b with (a + Z.of_nat (Z.to_nat (b - a))) in * by lia.
  induction (Z.to_nat (b - a)) as [|e IH]; [by rewrite !less_none by lia|]. replace (a + Z.of_nat (S e)) with (a + Z.of_nat e + 1) in * by lia.
  replace (a + Z.of_nat e + 1 + d) with (a + Z.of_nat e + d + 1) by lia. rewrite !less_S by lia. rewrite IH by lia. done.
Qed.
Lemma less_from t f k u : less t f k (k + u) = less t (fun d => f (d + k)) 0 u.
Proof. rewrite <- less_shift. f_equal; lia. Qed.
Lemma less_rebase t f k j : less t f k j = less t (fun d => f (d + k)) 0 (j - k).
Proof. rewrite <- less_from. f_equal. lia. Qed.

(** ** Sweeps *)

Lemma strided_S p st k : strided p st (S k) = strided p st k ++ [p + st * Z.of_nat k].
Proof. unfold strided. rewrite seq_S, fmap_app. done. Qed.
Lemma strided_length p st k : length (strided p st k) = k.
Proof. unfold strided. by rewrite length_fmap, length_seq. Qed.

(** The unrolled statements take away one product after the other. *)
Lemma fold_minus2 σ τ t0 t1 p st q sq k :
  foldl (minus2 F) (t0, t1) (zip (load2 σ p st k) (τ <$> strided q sq k)) =
  (less t0 (fun d => fmul F (σ (p + st * d)) (τ (q + sq * d))) 0 (Z.of_nat k), less t1 (fun d => fmul F (σ (p + st * d + 1)) (τ (q + sq * d))) 0 (Z.of_nat k)).
Proof.
  unfold load2. induction k as [|k IH]; [done|]. rewrite !strided_S, !fmap_app, zip_with_app by (by rewrite !length_fmap, !strided_length).
  rewrite foldl_app, IH. replace (Z.of_nat (S k)) with (Z.of_nat k + 1) by lia. rewrite !less_S by lia. done.
Qed.
Lemma fold_minus1 σ τ t0 p st q sq k :
  foldl (minus1 F) t0 (zip (load1 σ p st k) (τ <$> strided q sq k)) = less t0 (fun d => fmul F (σ (p + st * d)) (τ (q + sq * d))) 0 (Z.of_nat k).
Proof.
  unfold load1. induction k as [|k IH]; [done|]. rewrite !strided_S, !fmap_app, zip_with_app by (by rewrite !length_fmap, !strided_length).
  rewrite foldl_app, IH. replace (Z.of_nat (S k)) with (Z.of_nat k + 1) by lia. rewrite !less_S by lia. done.
Qed.

Lemma sweep2_ok (len : nat) σ d0 d1 cs bs :
  (forall i i', 0 <= i < Z.of_nat len -> 0 <= i' < Z.of_nat len -> d0 + i <> d1 + i') ->
  (forall b i i', b ∈ bs -> 0 <= i < Z.of_nat len -> 0 <= i' < Z.of_nat len -> b + i <> d0 + i' /\ b + i <> d1 + i') ->
  let σ1 := sweep2 F len σ d0 d1 (d0 + Z.of_nat len) cs bs in
  (forall i, 0 <= i < Z.of_nat len -> (σ1 (d0 + i), σ1 (d1 + i)) = foldl (minus2 F) (σ (d0 + i), σ (d1 + i)) (zip cs ((fun b => σ (b + i)) <$> bs))) /\
  (forall b, (forall i, 0 <= i < Z.of_nat len -> b <> d0 + i /\ b <> d1 + i) -> σ1 b = σ b).
Proof.
  revert σ d0 d1 bs. induction len as [|len IH]; intros σ d0 d1 bs Hd Hb; cbn zeta; cbn [sweep2]; [split; [lia|done]|].
  destruct (Z.eqb_spec d0 (d0 + Z.of_nat (S len))) as [|_]; [lia|]. cbn [negb].
  set (t := foldl (minus2 F) (σ d0, σ d1) (zip cs (σ <$> bs))). set (σ' := put (put σ d0 t.1) d1 t.2).
  replace (d0 + Z.of_nat (S len)) with (d0 + 1 + Z.of_nat len) by lia.
  destruct (IH σ' (d0 + 1) (d1 + 1) (Z.succ <$> bs)) as [H1 H2].
  { intros i i' Hi Hi'. specialize (Hd (i + 1) (i' + 1) ltac:(lia) ltac:(lia)). lia. }
  { intros b i i' (b' & -> & Hb')%list_elem_of_fmap Hi Hi'. destruct (Hb b' (i + 1) (i' + 1) Hb' ltac:(lia) ltac:(lia)). lia. }
  assert (forall b, b <> d0 -> b <> d1 -> σ' b = σ b) as Ho by (intros b N0 N1; unfold σ'; by rewrite !put_other).
  pose proof (Hd 0 0 ltac:(lia) ltac:(lia)) as Hne. split.
  - intros i Hi. destruct (decide (i = 0)) as [->|Hi0].
    + rewrite !Z.add_0_r. rewrite !H2.
      * unfold σ'. rewrite (put_other _ d1 _ d0), !put_here by lia. rewrite <- surjective_pairing. unfold t. do 2 f_equal. apply list_fmap_ext. intros _ b _. by rewrite Z.add_0_r.
      * intros i' Hi'. specialize (Hd (i' + 1) 0 ltac:(lia) ltac:(lia)). lia.
      * intros i' Hi'. specialize (Hd 0 (i' + 1) ltac:(lia) ltac:(lia)). lia.
    + specialize (H1 (i - 1) ltac:(lia)). replace (d0 + 1 + (i - 1)) with (d0 + i) in H1 by lia. replace (d1 + 1 + (i - 1)) with (d1 + i) in H1 by lia. rewrite H1.
      rewrite !Ho; [|specialize (Hd 0 i); lia|lia|lia|specialize (Hd i 0); lia]. do 2 f_equal. rewrite <- list_fmap_compose. apply list_fmap_ext. intros x b Hx%list_elem_of_lookup_2. cbn.
      replace (Z.succ b + (i - 1)) with (b + i) by lia. destruct (Hb b i 0 Hx Hi ltac:(lia)). apply Ho; lia.
  - intros b Hbb. rewrite H2; [destruct (Hbb 0 ltac:(lia)); apply Ho; lia|]. intros i Hi. destruct (Hbb (i + 1) ltac:(lia)). lia.
Qed.
Lemma sweep1_ok (len : nat) σ d0 cs bs :
  (forall b i i', b ∈ bs -> 0 <= i < Z.of_nat len -> 0 <= i' < Z.of_nat len -> b + i <> d0 + i') ->
  let σ1 := sweep1 F len σ d0 (d0 + Z.of_nat len) cs bs in
  (forall i, 0 <= i < Z.of_nat len -> σ1 (d0 + i) = foldl (minus1 F) (σ (d0 + i)) (zip cs ((fun b => σ (b + i)) <$> bs))) /\
  (forall b, (forall i, 0 <= i < Z.of_nat len -> b <> d0 + i) -> σ1 b = σ b).
Proof.
  revert σ d0 bs. induction len as [|len IH]; intros σ d0 bs Hb; cbn zeta; cbn [sweep1]; [split; [lia|done]|].
  destruct (Z.eqb_spec d0 (d0 + Z.of_nat (S len))) as [|_]; [lia|]. cbn [negb].
  set (t := foldl (minus1 F) (σ d0) (zip cs (σ <$> bs))). set (σ' := put σ d0 t).
  replace (d0 + Z.of_nat (S len)) with (d0 + 1 + Z.of_nat len) by lia.
  destruct (IH σ' (d0 + 1) (Z.succ <$> bs)) as [H1 H2].
  { intros b i i' (b' & -> & Hb')%list_elem_of_fmap Hi Hi'. specialize (Hb b' (i + 1) (i' + 1) Hb' ltac:(lia) ltac:(lia)). lia. }
  assert (forall b, b <> d0 -> σ' b = σ b) as Ho by (intros b N0; unfold σ'; by rewrite !put_other). split.
  - intros i Hi. destruct (decide (i = 0)) as [->|Hi0].
    + rewrite !Z.add_0_r. rewrite !H2 by lia. unfold σ'. rewrite put_here. unfold t. do 2 f_equal. apply list_fmap_ext. intros _ b _. by rewrite Z.add_0_r.
    + specialize (H1 (i - 1) ltac:(lia)). replace (d0 + 1 + (i - 1)) with (d0 + i) in H1 by lia. rewrite H1, Ho by lia.
      do 2 f_equal. rewrite <- list_fmap_compose. apply list_fmap_ext. intros x b Hx%list_elem_of_lookup_2. cbn.
      replace (Z.succ b + (i - 1)) with (b + i) by lia. specialize (Hb b i 0 Hx Hi ltac:(lia)). apply Ho; lia.
  - intros b Hbb. rewrite H2; [specialize (Hbb 0 ltac:(lia)); apply Ho; lia|]. intros i Hi. specialize (Hbb (i + 1) ltac:(lia)). lia.
Qed.
End Cells.
End BfacLoops.
