(* ===== verification/BfacKernels.v ===== *)
(** * BfacKernels: the kernels on one piece

    What [OneMatmat], [OneLower], [OneDiv], [OneFac] and the copies leave in every
    cell.  The unrolled [OneMatmat] takes the products away one after the other, as
    the plain loops would. *)

From stdpp Require Import base list option list_numbers.
From S2P Require Import Prelude Doubles Bfac BfacLoops.
Local Open Scope Z_scope.

Module BfacKernels.
Import Bfac BfacLoops.

Lemma addr_inj s i j i' j' : 0 <= i < s -> 0 <= i' < s -> i + s * j = i' + s * j' -> i = i' /\ j = j'.
Proof. intros Hi Hi' E. assert (j = j') as -> by nia. split; [lia|done]. Qed.

Section Kernels.
Context {V : Type} (F : arith V) (one : V) (sqrt : V -> V).
Implicit Types (σ : Z -> V).
Local Abbreviation less := (BfacLoops.less F).

(** ** Cells from which products are taken away, column by column *)

Section Progress.
Context (c e : Z) (addr : Z -> Z -> Z) (R : Z -> Z -> Prop) (f : Z -> Z -> Z -> V) (σ0 : Z -> V).
Definition cell (i j : Z) : Prop := 0 <= j < c /\ R i j.
Context (Hinj : forall i j i' j', cell i j -> cell i' j' -> addr i j = addr i' j' -> i = i' /\ j = j').

(** In column [j] the first [p j] products are taken away. *)
Definition prog (p : Z -> Z) σ : Prop :=
  (forall i j, cell i j -> σ (addr i j) = less (σ0 (addr i j)) (f i j) 0 (p j)) /\
  forall b, (forall i j, cell i j -> b <> addr i j) -> σ b = σ0 b.
(** Columns before [j] are done, [w] columns are at [k]. *)
Definition stage (j w k : Z) : Z -> Z := fun j' => if j' <? j then e else if j' <? j + w then k else 0.

Lemma prog_ext p q σ : (forall j, 0 <= j < c -> p j = q j) -> prog p σ -> prog q σ.
Proof. intros H [H1 H2]. split; [|done]. intros i j Hc. rewrite <- H by apply Hc. by apply H1. Qed.
Lemma prog_start w : prog (stage 0 w 0) σ0.
Proof. split; [|done]. intros i j [Hj Hi]. unfold stage. destruct (Z.ltb_spec j 0); [lia|]. rewrite less_none; [done|]. destruct (j <? 0 + w); lia. Qed.
Lemma prog_next j w w' σ : prog (stage j w e) σ -> 0 <= w -> prog (stage (j + w) w' 0) σ.
Proof. intros H Hw. revert H. apply prog_ext. intros j' _. unfold stage. destruct (Z.ltb_spec j' j), (Z.ltb_spec j' (j + w)); try lia; destruct (j' <? j + w + w'); lia. Qed.
Lemma prog_end j w σ : prog (stage j w 0) σ -> c <= j -> prog (fun _ => e) σ.
Proof. intros H Hj. revert H. apply prog_ext. intros j' Hj'. unfold stage. destruct (Z.ltb_spec j' j); lia. Qed.
Lemma prog_step j w k k' σ σ' : prog (stage j w k) σ -> 0 <= k <= k' ->
  (forall i j', cell i j' -> j <= j' < j + w -> σ' (addr i j') = less (σ (addr i j')) (f i j') k k') ->
  (forall b, (forall i j', cell i j' -> j <= j' < j + w -> b <> addr i j') -> σ' b = σ b) -> prog (stage j w k') σ'.
Proof.
  intros [H1 H2] Hk Hin Hout. split.
  - intros i j' Hc. unfold stage. destruct (decide (j <= j' < j + w)) as [Hj|Hj].
    + destruct (Z.ltb_spec j' j); [lia|]. destruct (Z.ltb_spec j' (j + w)); [|lia]. rewrite (Hin i j' Hc Hj), (H1 i j' Hc). unfold stage.
      destruct (Z.ltb_spec j' j); [lia|]. destruct (Z.ltb_spec j' (j + w)); [|lia]. by apply less_app.
    + rewrite Hout; [rewrite (H1 i j' Hc); unfold stage; destruct (Z.ltb_spec j' j), (Z.ltb_spec j' (j + w)); done || lia|].
      intros i2 j2 Hc2 Hj2 E. destruct (Hinj _ _ _ _ Hc Hc2 E). lia.
  - intros b Hb. rewrite Hout by (intros i j' Hc _; by apply Hb). by apply H2.
Qed.
End Progress.

(** ** [OneMatmat] *)

Section Matmat.
Context (B A C n1 n2 n3 n4 n5 : Z) (σ0 : Z -> V) (Hn1 : 0 <= n1) (Hn2 : 0 <= n2) (Hn3 : 0 <= n3 <= n4).
Context (HB : forall i j i' k, 0 <= i < n3 -> 0 <= j < n1 -> 0 <= i' < n3 -> 0 <= k < n2 -> B + (i' + n3 * k) <> C + (i + n4 * j)).
Context (HA : forall i j j' k, 0 <= i < n3 -> 0 <= j < n1 -> 0 <= j' < n1 -> 0 <= k < n2 -> A + (j' + n5 * k) <> C + (i + n4 * j)).
Local Abbreviation addr := (fun i j => C + (i + n4 * j)).
Local Abbreviation rows := (fun i _ : Z => 0 <= i < n3).
Local Abbreviation mprod := (fun i j k => fmul F (σ0 (A + (j + n5 * k))) (σ0 (B + (i + n3 * k)))).
Local Abbreviation mprog := (prog n1 addr rows mprod σ0).
Local Abbreviation mstage := (stage n2).

Lemma mm_inj i j i' j' : cell n1 rows i j -> cell n1 rows i' j' -> addr i j = addr i' j' -> i = i' /\ j = j'.
Proof. intros [_ Hi] [_ Hi'] E. apply (addr_inj n4); lia. Qed.
Lemma mm_reads p σ i j k : mprog p σ -> 0 <= i < n3 -> 0 <= j < n1 -> 0 <= k < n2 -> σ (A + (j + n5 * k)) = σ0 (A + (j + n5 * k)) /\ σ (B + (i + n3 * k)) = σ0 (B + (i + n3 * k)).
Proof. intros [_ H] Hi Hj Hk. split; apply H; intros i' j' [Hj' Hi']; [by apply HA|by apply HB]. Qed.

Lemma mm_pair (u : nat) j k σ : mprog (mstage j 2 k) σ -> 0 <= j -> j + 1 < n1 -> 0 <= k -> k + Z.of_nat u <= n2 ->
  mprog (mstage j 2 (k + Z.of_nat u))
    (sweep2 F (Z.to_nat n3) σ (C + n4 * j) (C + n4 * j + n4) (C + n4 * j + n3) (load2 σ (A + (j + n5 * k)) n5 u) (strided (B + n3 * k) n3 u)).
Proof.
  intros HP Hj Hj1 Hk Hu. replace (C + n4 * j + n3) with (C + n4 * j + Z.of_nat (Z.to_nat n3)) by lia.
  destruct (sweep2_ok F (Z.to_nat n3) σ (C + n4 * j) (C + n4 * j + n4) (load2 σ (A + (j + n5 * k)) n5 u) (strided (B + n3 * k) n3 u)) as [H1 H2].
  - intros i i' Hi Hi'. lia.
  - intros b i i' (q & -> & Hq%elem_of_seq)%list_elem_of_fmap Hi Hi'. pose proof (HB i' j i (k + Z.of_nat q) ltac:(lia) ltac:(lia) ltac:(lia) ltac:(lia)).
    pose proof (HB i' (j + 1) i (k + Z.of_nat q) ltac:(lia) ltac:(lia) ltac:(lia) ltac:(lia)). lia.
  - apply (prog_step _ _ _ _ _ _ mm_inj j 2 k _ σ); [done|lia| |].
    + intros i j' [_ Hi] Hj'. specialize (H1 i ltac:(lia)). rewrite fold_minus2 in H1. injection H1 as E0 E1. rewrite less_from.
      assert (j' = j \/ j' = j + 1) as [-> | ->] by lia.
      * replace (C + (i + n4 * j)) with (C + n4 * j + i) by lia. rewrite E0. apply less_ext. intros d Hd. destruct (mm_reads _ σ i j (d + k) HP ltac:(lia) ltac:(lia) ltac:(lia)) as [<- <-].
        f_equal; f_equal; lia.
      * replace (C + (i + n4 * (j + 1))) with (C + n4 * j + n4 + i) by lia. rewrite E1. apply less_ext. intros d Hd. destruct (mm_reads _ σ i (j + 1) (d + k) HP ltac:(lia) ltac:(lia) ltac:(lia)) as [<- <-].
        f_equal; f_equal; lia.
    + intros b Hb. apply H2. intros i Hi. pose proof (Hb i j ltac:(split; lia) ltac:(lia)). pose proof (Hb i (j + 1) ltac:(split; lia) ltac:(lia)). lia.
Qed.
Lemma mm_single (u : nat) j k σ : mprog (mstage j 1 k) σ -> 0 <= j < n1 -> 0 <= k -> k + Z.of_nat u <= n2 ->
  mprog (mstage j 1 (k + Z.of_nat u))
    (sweep1 F (Z.to_nat n3) σ (C + n4 * j) (C + n4 * j + n3) (load1 σ (A + (j + n5 * k)) n5 u) (strided (B + n3 * k) n3 u)).
Proof.
  intros HP Hj Hk Hu. replace (C + n4 * j + n3) with (C + n4 * j + Z.of_nat (Z.to_nat n3)) by lia.
  destruct (sweep1_ok F (Z.to_nat n3) σ (C + n4 * j) (load1 σ (A + (j + n5 * k)) n5 u) (strided (B + n3 * k) n3 u)) as [H1 H2].
  - intros b i i' (q & -> & Hq%elem_of_seq)%list_elem_of_fmap Hi Hi'. pose proof (HB i' j i (k + Z.of_nat q) ltac:(lia) ltac:(lia) ltac:(lia) ltac:(lia)). lia.
  - apply (prog_step _ _ _ _ _ _ mm_inj j 1 k _ σ); [done|lia| |].
    + intros i j' [_ Hi] Hj'. specialize (H1 i ltac:(lia)). rewrite fold_minus1 in H1. rewrite less_from.
      assert (j' = j) as -> by lia.
      replace (C + (i + n4 * j)) with (C + n4 * j + i) by lia. rewrite H1. apply less_ext. intros d Hd. destruct (mm_reads _ σ i j (d + k) HP ltac:(lia) ltac:(lia) ltac:(lia)) as [<- <-].
      f_equal; f_equal; lia.
    + intros b Hb. apply H2. intros i Hi. pose proof (Hb i j ltac:(split; lia) ltac:(lia)). lia.
Qed.

Lemma mm_pair_one j k σ : mprog (mstage j 2 k) σ -> 0 <= j -> j + 1 < n1 -> 0 <= k < n2 ->
  mprog (mstage j 2 (k + 1)) (for_to 0 n3 σ (fun i τ =>
    let t0 := τ (B + (i + n3 * k)) in
    let τ := put τ (C + (i + n4 * j)) (fsub F (τ (C + (i + n4 * j))) (fmul F (σ (A + (j + n5 * k))) t0)) in
    put τ (C + (i + n4 * (j + 1))) (fsub F (τ (C + (i + n4 * (j + 1)))) (fmul F (σ (A + (j + 1 + n5 * k))) t0)))).
Proof.
  intros HP Hj Hj1 Hk.
  destruct (for_put2 0 n3 σ (fun i => C + (i + n4 * j)) (fun i => C + (i + n4 * (j + 1))) (fun i τ => fsub F (τ (C + (i + n4 * j))) (fmul F (σ (A + (j + n5 * k))) (τ (B + (i + n3 * k)))))
    (fun i τ τ' => fsub F (τ' (C + (i + n4 * (j + 1)))) (fmul F (σ (A + (j + 1 + n5 * k))) (τ (B + (i + n3 * k)))))) as [H1 H2]; [lia|lia|lia|lia| | |].
  - intros i τ Hi H. rewrite !H; [done|right; intros i' Hi'; split; apply HB; lia|by left].
  - intros i τ τ' Hi H. rewrite (proj2 (H _ (or_introl eq_refl))). rewrite (proj1 (H (B + (i + n3 * k)) ltac:(right; intros i' Hi'; split; apply HB; lia))). done.
  - apply (prog_step _ _ _ _ _ _ mm_inj j 2 k _ σ); [done|lia| |].
    + intros i j' [_ Hi] Hj'. rewrite less_one. destruct (H1 i Hi) as [E0 E1]. assert (j' = j \/ j' = j + 1) as [-> | ->] by lia.
      * etrans; [exact E0|]. destruct (mm_reads _ σ i j k HP ltac:(lia) ltac:(lia) ltac:(lia)) as [<- <-]. done.
      * etrans; [exact E1|]. destruct (mm_reads _ σ i (j + 1) k HP ltac:(lia) ltac:(lia) ltac:(lia)) as [<- <-]. done.
    + intros b Hb. apply H2. intros i Hi. split; (apply Hb; [split; lia|lia]).
Qed.
Lemma mm_single_one j k σ : mprog (mstage j 1 k) σ -> 0 <= j < n1 -> 0 <= k < n2 ->
  mprog (mstage j 1 (k + 1)) (for_to 0 n3 σ (fun i τ => put τ (C + (i + n4 * j)) (fsub F (τ (C + (i + n4 * j))) (fmul F (σ (A + (j + n5 * k))) (τ (B + (i + n3 * k))))))).
Proof.
  intros HP Hj Hk.
  destruct (for_put 0 n3 σ (fun i => C + (i + n4 * j)) (fun i τ => fsub F (τ (C + (i + n4 * j))) (fmul F (σ (A + (j + n5 * k))) (τ (B + (i + n3 * k)))))) as [H1 H2]; [lia|lia| |].
  - intros i τ Hi H. rewrite !H; [done|right; intros i' Hi'; apply HB; lia|by left].
  - apply (prog_step _ _ _ _ _ _ mm_inj j 1 k _ σ); [done|lia| |].
    + intros i j' [_ Hi] Hj'. rewrite less_one. assert (j' = j) as -> by lia. etrans; [exact (H1 i Hi)|]. destruct (mm_reads _ σ i j k HP ltac:(lia) ltac:(lia) ltac:(lia)) as [<- <-]. done.
    + intros b Hb. apply H2. intros i Hi. apply Hb; [split; lia|lia].
Qed.

(** The result, cell by cell: the products are taken away in the order of the
    columns. *)
Lemma OneMatmat_ok : mprog (fun _ => n2) (OneMatmat F B A C n1 n2 n3 n4 n5 σ0).
Proof.
  unfold OneMatmat.
  match goal with |- context [steps 2 (n1 - 1) 0 σ0 ?body] => destruct (steps_ok (fun j σ => 0 <= j <= n1 /\ mprog (mstage j 2 0) σ) 2 (n1 - 1) 0 σ0 body) as [[Hj HP] Hend];
    [lia|split; [lia|apply prog_start]| |destruct (steps 2 (n1 - 1) 0 σ0 body) as [j σ]; cbn [fst snd] in *] end.
  - intros j σ Hj [Hj0 HP].
    match goal with |- context [steps 8 (n2 - 7) 0 σ ?body] => destruct (steps_ok (fun k σ => 0 <= k <= n2 /\ mprog (mstage j 2 k) σ) 8 (n2 - 7) 0 σ body) as [[Hk HP1] _];
      [lia|done| |destruct (steps 8 (n2 - 7) 0 σ body) as [k σ1]; cbn [fst snd] in *] end.
    { intros k τ Hk [Hk0 Hτ]. split; [lia|]. apply (mm_pair 8); [done|lia|lia|lia|lia]. }
    match goal with |- context [steps 4 (n2 - 3) k σ1 ?body] => destruct (steps_ok (fun k σ => 0 <= k <= n2 /\ mprog (mstage j 2 k) σ) 4 (n2 - 3) k σ1 body) as [[Hk2 HP2] _];
      [lia|done| |destruct (steps 4 (n2 - 3) k σ1 body) as [k2 σ2]; cbn [fst snd] in *] end.
    { intros k' τ Hk' [Hk0 Hτ]. split; [lia|]. apply (mm_pair 4); [done|lia|lia|lia|lia]. }
    match goal with |- context [steps 1 n2 k2 σ2 ?body] => destruct (for_ok (fun k σ => 0 <= k <= n2 /\ mprog (mstage j 2 k) σ) k2 n2 σ2 body) as [_ [_ HP3]]; [lia|done| |] end.
    { intros k' τ Hk' [Hk0 Hτ]. split; [lia|]. apply mm_pair_one; [done|lia|lia|lia]. }
    split; [lia|]. by apply (prog_next _ _ _ _ _ _ j 2).
  - apply (prog_end _ _ _ _ _ _ n1 1); [|lia]. apply (for_to_ok (fun j σ => mprog (mstage j 1 0) σ)); [lia| |].
    + revert HP. apply prog_ext. intros j' _. unfold stage. destruct (Z.ltb_spec j' j); [done|]. destruct (j' <? j + 2), (j' <? j + 1); done.
    + intros j' τ Hj' Hτ.
      match goal with |- context [steps 4 (n2 - 3) 0 τ ?body] => destruct (steps_ok (fun k σ => 0 <= k <= n2 /\ mprog (mstage j' 1 k) σ) 4 (n2 - 3) 0 τ body) as [[Hk2 HP2] _];
        [lia|split; [lia|done]| |destruct (steps 4 (n2 - 3) 0 τ body) as [k2 σ2]; cbn [fst snd] in *] end.
      { intros k' τ' Hk' [Hk0 Hτ']. split; [lia|]. apply (mm_single 4); [done|lia|lia|lia]. }
      match goal with |- context [steps 1 n2 k2 σ2 ?body] => destruct (for_ok (fun k σ => 0 <= k <= n2 /\ mprog (mstage j' 1 k) σ) k2 n2 σ2 body) as [_ [_ HP3]]; [lia|done| |] end.
      { intros k' τ' Hk' [Hk0 Hτ']. split; [lia|]. apply mm_single_one; [done|lia|lia]. }
      by apply (prog_next _ _ _ _ _ _ j' 1).
Qed.
End Matmat.

(** ** [OneLower] *)

(** The law of exact arithmetic that it needs: four products are added before they
    are taken away from the diagonal. *)
Definition sub_add : Prop := forall t x y, fsub F t (fadd F x y) = fsub F (fsub F t x) y.

Section Lower.
Context (A C n1 n2 n3 : Z) (σ0 : Z -> V) (Hn1 : 0 <= n1 <= n3) (Hn2 : 0 <= n2) (Hlaw : sub_add).
Context (HA : forall i j i' k, 0 <= j <= i -> i < n1 -> 0 <= i' < n1 -> 0 <= k < n2 -> A + (i' + n1 * k) <> C + (i + n3 * j)).
Local Abbreviation addr := (fun i j => C + (i + n3 * j)).
Local Abbreviation rows := (fun i j : Z => j <= i < n1).
Local Abbreviation lprod := (fun i j k => fmul F (σ0 (A + (j + n1 * k))) (σ0 (A + (i + n1 * k)))).
Local Abbreviation lprog := (prog n1 addr rows lprod σ0).
Local Abbreviation lstage := (stage n2).

Lemma lw_inj i j i' j' : cell n1 rows i j -> cell n1 rows i' j' -> addr i j = addr i' j' -> i = i' /\ j = j'.
Proof. intros [H Hi] [H' Hi'] E. apply (addr_inj n3); lia. Qed.
Lemma lw_reads p σ i k : lprog p σ -> 0 <= i < n1 -> 0 <= k < n2 -> σ (A + (i + n1 * k)) = σ0 (A + (i + n1 * k)).
Proof. intros [_ H] Hi Hk. apply H. intros i' j' [Hj' Hi']. apply HA; lia. Qed.

Lemma sum4_ok σ p q t : fsub F t (sum4 F one (load2 σ p n1 4) (σ <$> strided q n1 4)) = less t (fun d => fmul F (σ (p + n1 * d)) (σ (q + n1 * d))) 0 4.
Proof. unfold less. cbn. by rewrite !Hlaw. Qed.

Lemma lw_pair j k σ : lprog (lstage j 2 k) σ -> 0 <= j -> j + 1 < n1 -> 0 <= k -> k + 4 <= n2 ->
  lprog (lstage j 2 (k + 4))
    (let cs := load2 σ (A + (j + n1 * k)) n1 4 in
     let bs := strided (A + (j + n1 * k)) n1 4 in
     let dest0 := C + (j + n3 * j) in
     let last := dest0 + n1 - j in
     let σ := put σ dest0 (fsub F (σ dest0) (sum4 F one cs (σ <$> bs))) in
     sweep2 F (Z.to_nat (n1 - j - 1)) σ (dest0 + 1) (dest0 + 1 + n3) last cs (Z.succ <$> bs)).
Proof.
  intros HP Hj Hj1 Hk Hu. cbn zeta. set (σ1 := put σ _ _). set (len := Z.to_nat (n1 - j - 1)). assert (Z.of_nat len = n1 - j - 1) as El by lia.
  replace (C + (j + n3 * j) + n1 - j) with (C + (j + n3 * j) + 1 + Z.of_nat len) by lia.
  assert (forall d, 0 <= d < 4 -> forall i, 0 <= i < n1 -> A + (i + n1 * (k + d)) <> C + (j + n3 * j)) as Hdiag by (intros d Hd i Hi; apply HA; lia).
  destruct (sweep2_ok F len σ1 (C + (j + n3 * j) + 1) (C + (j + n3 * j) + 1 + n3) (load2 σ (A + (j + n1 * k)) n1 4) (Z.succ <$> strided (A + (j + n1 * k)) n1 4)) as [H1 H2].
  - intros i i' Hi Hi'. lia.
  - intros b i i' (b' & -> & (q & -> & Hq%elem_of_seq)%list_elem_of_fmap)%list_elem_of_fmap Hi Hi'.
    pose proof (HA (j + 1 + i') j (j + 1 + i) (k + Z.of_nat q) ltac:(lia) ltac:(lia) ltac:(lia) ltac:(lia)).
    pose proof (HA (j + 1 + i') (j + 1) (j + 1 + i) (k + Z.of_nat q) ltac:(lia) ltac:(lia) ltac:(lia) ltac:(lia)). lia.
  - apply (prog_step _ _ _ _ _ _ lw_inj j 2 k _ σ); [done|lia| |].
    + intros i j' [_ Hi] Hj'. rewrite less_from. destruct (decide (i = j)) as [->|Hne].
      * assert (j' = j) as -> by lia. rewrite H2 by (intros i' Hi'; lia). unfold σ1. rewrite put_here, sum4_ok. apply less_ext. intros d Hd.
        rewrite <- !(lw_reads _ σ j (d + k) HP) by lia. f_equal; f_equal; lia.
      * specialize (H1 (i - j - 1) ltac:(lia)). rewrite <- list_fmap_compose, fold_minus2 in H1. apply pair_equal_spec in H1 as [E0 E1]. assert (j' = j \/ j' = j + 1) as [-> | ->] by lia.
        -- replace (C + (i + n3 * j)) with (C + (j + n3 * j) + 1 + (i - j - 1)) by lia. rewrite E0. unfold σ1 at 1. rewrite put_other by lia. apply less_ext. intros d Hd.
           rewrite <- (lw_reads _ σ j (d + k) HP), <- (lw_reads _ σ i (d + k) HP) by lia. cbn. unfold σ1. rewrite put_other by (specialize (Hdiag d ltac:(lia) i ltac:(lia)); lia). f_equal; f_equal; lia.
        -- replace (C + (i + n3 * (j + 1))) with (C + (j + n3 * j) + 1 + n3 + (i - j - 1)) by lia. rewrite E1. unfold σ1 at 1. rewrite put_other by lia. apply less_ext. intros d Hd.
           rewrite <- (lw_reads _ σ (j + 1) (d + k) HP), <- (lw_reads _ σ i (d + k) HP) by lia. cbn. unfold σ1. rewrite put_other by (specialize (Hdiag d ltac:(lia) i ltac:(lia)); lia). f_equal; f_equal; lia.
    + intros b Hb. pose proof (Hb j j ltac:(split; lia) ltac:(lia)). rewrite H2; [unfold σ1; by rewrite put_other|]. intros i Hi.
      pose proof (Hb (j + 1 + i) j ltac:(split; lia) ltac:(lia)). pose proof (Hb (j + 1 + i) (j + 1) ltac:(split; lia) ltac:(lia)). lia.
Qed.
Lemma lw_pair_one j k σ : lprog (lstage j 2 k) σ -> 0 <= j -> j + 1 < n1 -> 0 <= k < n2 ->
  lprog (lstage j 2 (k + 1))
    (let a_j0k0 := σ (A + (j + n1 * k)) in
     let a_j1k0 := σ (A + (j + 1 + n1 * k)) in
     let σ := put σ (C + (j + n3 * j)) (fsub F (σ (C + (j + n3 * j))) (fmul F a_j0k0 (σ (A + (j + n1 * k))))) in
     for_to (j + 1) n1 σ (fun i σ =>
       let σ := put σ (C + (i + n3 * j)) (fsub F (σ (C + (i + n3 * j))) (fmul F a_j0k0 (σ (A + (i + n1 * k))))) in
       put σ (C + (i + n3 * (j + 1))) (fsub F (σ (C + (i + n3 * (j + 1)))) (fmul F a_j1k0 (σ (A + (i + n1 * k))))))).
Proof.
  intros HP Hj Hj1 Hk. cbn zeta. set (σ1 := put σ _ _).
  destruct (for_put2 (j + 1) n1 σ1 (fun i => C + (i + n3 * j)) (fun i => C + (i + n3 * (j + 1)))
    (fun i τ => fsub F (τ (C + (i + n3 * j))) (fmul F (σ (A + (j + n1 * k))) (τ (A + (i + n1 * k)))))
    (fun i _ τ => fsub F (τ (C + (i + n3 * (j + 1)))) (fmul F (σ (A + (j + 1 + n1 * k))) (τ (A + (i + n1 * k)))))) as [H1 H2]; [lia|lia|lia|lia| | |].
  - intros i τ Hi H. rewrite !H; [done|right; intros i' Hi'; split; apply HA; lia|by left].
  - intros i τ τ' Hi H. rewrite (proj2 (H _ (or_introl eq_refl))). rewrite (proj2 (H (A + (i + n1 * k)) ltac:(right; intros i' Hi'; split; apply HA; lia))). done.
  - apply (prog_step _ _ _ _ _ _ lw_inj j 2 k _ σ); [done|lia| |].
    + intros i j' [_ Hi] Hj'. rewrite less_one. destruct (decide (i = j)) as [->|Hne].
      * assert (j' = j) as -> by lia. rewrite H2 by (intros i' Hi'; lia). unfold σ1. rewrite put_here. by rewrite !(lw_reads _ σ j k HP) by lia.
      * pose proof (HA j j i k ltac:(lia) ltac:(lia) ltac:(lia) ltac:(lia)). destruct (H1 i ltac:(lia)) as [E0 E1]. assert (j' = j \/ j' = j + 1) as [-> | ->] by lia.
        -- etrans; [exact E0|]. unfold σ1. rewrite !put_other by lia. by rewrite (lw_reads _ σ j k HP), (lw_reads _ σ i k HP) by lia.
        -- etrans; [exact E1|]. unfold σ1. rewrite !put_other by lia. by rewrite (lw_reads _ σ (j + 1) k HP), (lw_reads _ σ i k HP) by lia.
    + intros b Hb. rewrite H2; [unfold σ1; rewrite put_other; [done|apply Hb; [split; lia|lia]]|]. intros i Hi. split; (apply Hb; [split; lia|lia]).
Qed.
Lemma lw_single j k σ : lprog (lstage j 1 k) σ -> 0 <= j < n1 -> 0 <= k < n2 ->
  lprog (lstage j 1 (k + 1)) (for_to j n1 σ (fun i τ => put τ (C + (i + n3 * j)) (fsub F (τ (C + (i + n3 * j))) (fmul F (σ (A + (j + n1 * k))) (τ (A + (i + n1 * k))))))).
Proof.
  intros HP Hj Hk.
  destruct (for_put j n1 σ (fun i => C + (i + n3 * j)) (fun i τ => fsub F (τ (C + (i + n3 * j))) (fmul F (σ (A + (j + n1 * k))) (τ (A + (i + n1 * k)))))) as [H1 H2]; [lia|lia| |].
  - intros i τ Hi H. rewrite !H; [done|right; intros i' Hi'; apply HA; lia|by left].
  - apply (prog_step _ _ _ _ _ _ lw_inj j 1 k _ σ); [done|lia| |].
    + intros i j' [_ Hi] Hj'. rewrite less_one. assert (j' = j) as -> by lia. etrans; [exact (H1 i Hi)|]. by rewrite (lw_reads _ σ j k HP), (lw_reads _ σ i k HP) by lia.
    + intros b Hb. apply H2. intros i Hi. apply Hb; [split; lia|lia].
Qed.

Lemma OneLower_ok : lprog (fun _ => n2) (OneLower F one A C n1 n2 n3 σ0).
Proof.
  unfold OneLower.
  match goal with |- context [steps 2 (n1 - 1) 0 σ0 ?body] => destruct (steps_ok (fun j σ => 0 <= j <= n1 /\ lprog (lstage j 2 0) σ) 2 (n1 - 1) 0 σ0 body) as [[Hj HP] Hend];
    [lia|split; [lia|apply prog_start]| |destruct (steps 2 (n1 - 1) 0 σ0 body) as [j σ]; cbn [fst snd] in *] end.
  - intros j σ Hj [Hj0 HP].
    match goal with |- context [steps 4 (n2 - 3) 0 σ ?body] => destruct (steps_ok (fun k σ => 0 <= k <= n2 /\ lprog (lstage j 2 k) σ) 4 (n2 - 3) 0 σ body) as [[Hk2 HP2] _];
      [lia|split; [lia|done]| |destruct (steps 4 (n2 - 3) 0 σ body) as [k2 σ2]; cbn [fst snd] in *] end.
    { intros k' τ Hk' [Hk0 Hτ]. split; [lia|]. apply lw_pair; [done|lia|lia|lia|lia]. }
    match goal with |- context [steps 1 n2 k2 σ2 ?body] => destruct (for_ok (fun k σ => 0 <= k <= n2 /\ lprog (lstage j 2 k) σ) k2 n2 σ2 body) as [_ [_ HP3]]; [lia|done| |] end.
    { intros k' τ Hk' [Hk0 Hτ]. split; [lia|]. apply lw_pair_one; [done|lia|lia|lia]. }
    split; [lia|]. by apply (prog_next _ _ _ _ _ _ j 2).
  - apply (prog_end _ _ _ _ _ _ n1 1); [|lia]. apply (for_to_ok (fun j σ => lprog (lstage j 1 0) σ)); [lia| |].
    + revert HP. apply prog_ext. intros j' _. unfold stage. destruct (Z.ltb_spec j' j); [done|]. destruct (j' <? j + 2), (j' <? j + 1); done.
    + intros j' τ Hj' Hτ. apply (prog_next _ _ _ _ _ _ j' 1); [|lia]. apply (for_to_ok (fun k σ => lprog (lstage j' 1 k) σ)); [lia|done|].
      intros k τ' Hk Hτ'. apply lw_single; [done|lia|lia].
Qed.
End Lower.

(** ** [OneDiv] *)

(** The law of exact arithmetic that it needs: two columns at a time are multiplied
    by the reciprocal of the diagonal. *)
Definition mul_recip : Prop := forall x a, fmul F x (fdiv F one a) = fdiv F x a.

Section Div.
Context (A B n1 n3 n4 : Z) (σ0 : Z -> V) (Hn1 : 0 <= n1) (Hn3 : 0 <= n3) (Hlaw : mul_recip).
Context (HAB : forall i j j' k, 0 <= i < n3 -> 0 <= j < n1 -> 0 <= j' < n1 -> 0 <= k < n1 -> A + (j' + n4 * k) <> B + (i + n3 * j)).
Local Abbreviation b_ i j := (B + (i + n3 * j)).
Local Abbreviation a_ j k := (A + (j + n4 * k)).

(** Columns before [j] are solved, the others are as they were. *)
Record solved (j : Z) σ : Prop := {
  so_done i j' : 0 <= i < n3 -> 0 <= j' < j -> σ (b_ i j') = fdiv F (less (σ0 (b_ i j')) (fun k => fmul F (σ0 (a_ j' k)) (σ (b_ i k))) 0 j') (σ0 (a_ j' j'));
  so_rest i j' : 0 <= i < n3 -> j <= j' < n1 -> σ (b_ i j') = σ0 (b_ i j');
  so_out b : (forall i j', 0 <= i < n3 -> 0 <= j' < n1 -> b <> b_ i j') -> σ b = σ0 b }.

Lemma col_apart i i' j j' : 0 <= i < n3 -> 0 <= i' < n3 -> j <> j' -> b_ i j <> b_ i' j'.
Proof. intros Hi Hi' Hne E. destruct (addr_inj n3 i j i' j' Hi Hi'); [lia|lia]. Qed.
Lemma so_reads j σ j' k : solved j σ -> 0 <= j' < n1 -> 0 <= k < n1 -> σ (a_ j' k) = σ0 (a_ j' k).
Proof. intros H Hj Hk. apply (so_out _ _ H). intros i j2 Hi Hj2. by apply HAB. Qed.

(** [w] columns from [j] on, with the products of the solved ones taken away. *)
Definition reduced (j w : Z) σ τ : Prop :=
  (forall i j', 0 <= i < n3 -> j <= j' < j + w -> τ (b_ i j') = less (σ (b_ i j')) (fun k => fmul F (σ (a_ j' k)) (σ (b_ i k))) 0 j) /\
  forall b, (forall i j', 0 <= i < n3 -> j <= j' < j + w -> b <> b_ i j') -> τ b = σ b.

Lemma reduced_from j w σ τ : prog w (fun i c => B + n3 * j + (i + n3 * c)) (fun i _ => 0 <= i < n3) (fun i c k => fmul F (σ (A + j + (c + n4 * k))) (σ (B + (i + n3 * k)))) σ (stage j 0 w j) τ -> reduced j w σ τ.
Proof.
  intros [H1 H2]. split.
  - intros i j' Hi Hj'. specialize (H1 i (j' - j) ltac:(split; [lia|done])). replace (B + n3 * j + (i + n3 * (j' - j))) with (b_ i j') in H1 by lia. rewrite H1. unfold stage.
    destruct (Z.ltb_spec (j' - j) 0); [lia|]. destruct (Z.ltb_spec (j' - j) (0 + w)); [|lia]. apply less_ext. intros k Hk. f_equal. f_equal. lia.
  - intros b Hb. apply H2. intros i c [Hc Hi]. replace (B + n3 * j + (i + n3 * c)) with (b_ i (j + c)) by lia. apply Hb; [done|lia].
Qed.
Lemma below_apart j w i c i' k : 0 <= i < n3 -> 0 <= c < w -> 0 <= i' < n3 -> 0 <= k < j -> B + (i' + n3 * k) <> B + n3 * j + (i + n3 * c).
Proof. intros Hi Hc Hi' Hk. replace (B + n3 * j + (i + n3 * c)) with (b_ i (j + c)) by lia. apply col_apart; [done|done|lia]. Qed.
Lemma diag_apart j w i c c' k : 0 <= j -> j + w <= n1 -> 0 <= i < n3 -> 0 <= c < w -> 0 <= c' < w -> 0 <= k < j -> A + j + (c' + n4 * k) <> B + n3 * j + (i + n3 * c).
Proof. intros Hj Hw Hi Hc Hc' Hk. pose proof (HAB i (j + c) (j + c') k ltac:(lia) ltac:(lia) ltac:(lia) ltac:(lia)). lia. Qed.

Lemma pair_one j k σ τ : let P := prog 2 (fun i c => B + n3 * j + (i + n3 * c)) (fun i _ => 0 <= i < n3) (fun i c k => fmul F (σ (A + j + (c + n4 * k))) (σ (B + (i + n3 * k)))) σ in
  P (stage j 0 2 k) τ -> 0 <= k < j -> j + 1 < n1 ->
  P (stage j 0 2 (k + 1)) (for_to 0 n3 τ (fun i τ' =>
    let τ' := put τ' (B + (i + n3 * (j + 0))) (fsub F (τ' (B + (i + n3 * (j + 0)))) (fmul F (τ (A + (j + n4 * k))) (τ' (B + (i + n3 * k))))) in
    put τ' (B + (i + n3 * (j + 1))) (fsub F (τ' (B + (i + n3 * (j + 1)))) (fmul F (τ (A + (j + 1 + n4 * k))) (τ' (B + (i + n3 * k))))))).
Proof.
  intros P HP Hk Hj1.
  destruct (for_put2 0 n3 τ (fun i => b_ i (j + 0)) (fun i => b_ i (j + 1)) (fun i τ' => fsub F (τ' (b_ i (j + 0))) (fmul F (τ (a_ j k)) (τ' (b_ i k))))
    (fun i _ τ' => fsub F (τ' (b_ i (j + 1))) (fmul F (τ (a_ (j + 1) k)) (τ' (b_ i k))))) as [H1 H2]; [lia|lia|lia|intros; apply col_apart; lia| | |].
  - intros i τ' Hi H. rewrite !H; [done|right; intros i' Hi'; split; apply col_apart; lia|by left].
  - intros i τ' τ'' Hi H. rewrite (proj2 (H _ (or_introl eq_refl))). rewrite (proj2 (H (b_ i k) ltac:(right; intros i' Hi'; split; apply col_apart; lia))). done.
  - assert (forall i c, 0 <= i < n3 -> 0 <= c < 2 -> τ (a_ (j + c) k) = σ (A + j + (c + n4 * k)) /\ τ (b_ i k) = σ (b_ i k)) as Hread.
    { intros i c Hi Hc. destruct HP as [_ Hout]. split.
      - replace (a_ (j + c) k) with (A + j + (c + n4 * k)) by lia. apply Hout. intros i' c' [Hc' Hi']. apply (diag_apart j 2); lia.
      - apply Hout. intros i' c' [Hc' Hi']. apply (below_apart j 2); lia. }
    eapply (prog_step 2 j _ _ _ σ) with (σ := τ); [intros i c i' c' [Hc Hi] [Hc' Hi'] E; apply (addr_inj n3); lia|exact HP|lia| |].
    + intros i c [_ Hi] Hc. rewrite less_one. destruct (H1 i Hi) as [E0 E1]. destruct (Hread i c Hi ltac:(lia)) as [<- <-]. assert (c = 0 \/ c = 1) as [-> | ->] by lia.
      * replace (B + n3 * j + (i + n3 * 0)) with (b_ i (j + 0)) by lia. etrans; [exact E0|]. do 3 f_equal. lia.
      * replace (B + n3 * j + (i + n3 * 1)) with (b_ i (j + 1)) by lia. exact E1.
    + intros b Hb. apply H2. intros i Hi. pose proof (Hb i 0 ltac:(split; lia) ltac:(lia)). pose proof (Hb i 1 ltac:(split; lia) ltac:(lia)). lia.
Qed.
Lemma pair_reduced j σ : 0 <= j -> j + 1 < n1 ->
  exists τ, (let '(k, σ) := steps 4 (j - 3) 0 σ (fun k σ =>
      sweep2 F (Z.to_nat n3) σ (B + n3 * j) (B + n3 * j + n3) (B + n3 * j + n3) (load2 σ (A + (j + n4 * k)) n4 4) (strided (B + n3 * k) n3 4)) in
    steps 1 j k σ (fun k σ =>
      let a_j0k0 := σ (A + (j + n4 * k)) in
      let a_j1k0 := σ (A + (j + 1 + n4 * k)) in
      for_to 0 n3 σ (fun i σ =>
        let σ := put σ (B + (i + n3 * (j + 0))) (fsub F (σ (B + (i + n3 * (j + 0)))) (fmul F a_j0k0 (σ (B + (i + n3 * k))))) in
        put σ (B + (i + n3 * (j + 1))) (fsub F (σ (B + (i + n3 * (j + 1)))) (fmul F a_j1k0 (σ (B + (i + n3 * k)))))))) = (j, τ) /\ reduced j 2 σ τ.
Proof.
  intros Hj Hj1. set (P := prog 2 (fun i c => B + n3 * j + (i + n3 * c)) (fun i _ => 0 <= i < n3) (fun i c k => fmul F (σ (A + j + (c + n4 * k))) (σ (B + (i + n3 * k)))) σ).
  match goal with |- context [steps 4 (j - 3) 0 σ ?body] => destruct (steps_ok (fun k τ => 0 <= k <= j /\ P (stage j 0 2 k) τ) 4 (j - 3) 0 σ body) as [[Hk HP] _];
    [lia|split; [lia|apply prog_start]| |destruct (steps 4 (j - 3) 0 σ body) as [k σ1]; cbn [fst snd] in *] end.
  { intros k τ Hk [Hk0 Hτ]. split; [lia|].
    pose proof (mm_pair B (A + j) (B + n3 * j) 2 j n3 n3 n4 σ ltac:(lia) (fun i c i' k => below_apart j 2 i c i' k) (fun i c c' k => diag_apart j 2 i c c' k ltac:(lia) ltac:(lia)) 4 0 k τ Hτ ltac:(lia) ltac:(lia) ltac:(lia) ltac:(lia)) as H.
    replace (B + n3 * j + n3 * 0) with (B + n3 * j) in H by lia. replace (A + j + (0 + n4 * k)) with (A + (j + n4 * k)) in H by lia. exact H. }
  match goal with |- context [steps 1 j k σ1 ?body] => destruct (for_ok (fun k τ => 0 <= k <= j /\ P (stage j 0 2 k) τ) k j σ1 body) as [E [_ HP2]]; [lia|done| |] end.
  { intros k' τ Hk' [Hk0 Hτ]. split; [lia|].
    by apply pair_one; [|lia|]. }
  eexists. split; [by rewrite (surjective_pairing (steps 1 j k σ1 _)), E|]. by apply reduced_from.
Qed.
Lemma single_reduced j σ : 0 <= j < n1 -> reduced j 1 σ (for_to 0 j σ (fun k σ =>
    let a_j0k0 := σ (A + (j + n4 * k)) in
    for_to 0 n3 σ (fun i σ => put σ (B + (i + n3 * j)) (fsub F (σ (B + (i + n3 * j))) (fmul F a_j0k0 (σ (B + (i + n3 * k)))))))).
Proof.
  intros Hj. apply reduced_from.
  apply (for_to_ok (fun k τ => prog 1 (fun i c => B + n3 * j + (i + n3 * c)) (fun i _ => 0 <= i < n3) (fun i c k => fmul F (σ (A + j + (c + n4 * k))) (σ (B + (i + n3 * k)))) σ (stage j 0 1 k) τ)); [lia|apply prog_start|].
  intros k τ Hk Hτ. cbn zeta.
  pose proof (mm_single_one B (A + j) (B + n3 * j) 1 j n3 n3 n4 σ ltac:(lia) (fun i c i' k => below_apart j 1 i c i' k) (fun i c c' k => diag_apart j 1 i c c' k ltac:(lia) ltac:(lia)) 0 k τ Hτ ltac:(lia) ltac:(lia)) as H.
  erewrite for_to_ext; [exact H|]. intros i τ'. cbn beta. replace (B + n3 * j + (i + n3 * 0)) with (B + (i + n3 * j)) by lia. replace (A + j + (0 + n4 * k)) with (A + (j + n4 * k)) by lia. done.
Qed.

(** One column is multiplied, or divided, cell by cell. *)
Lemma scaled j σ (g : V -> V) (f : Z -> (Z -> V) -> V) : 0 <= j < n1 -> (forall i τ, 0 <= i < n3 -> (forall b, b = b_ i j \/ (forall i', 0 <= i' < n3 -> b <> b_ i' j) -> τ b = σ b) -> f i τ = g (σ (b_ i j))) ->
  (forall i, 0 <= i < n3 -> for_to 0 n3 σ (fun i σ => put σ (b_ i j) (f i σ)) (b_ i j) = g (σ (b_ i j))) /\
  (forall b, (forall i, 0 <= i < n3 -> b <> b_ i j) -> for_to 0 n3 σ (fun i σ => put σ (b_ i j) (f i σ)) b = σ b).
Proof.
  intros Hj Hf. destruct (for_put 0 n3 σ (fun i => b_ i j) f) as [H1 H2]; [lia|lia| |].
  - intros i τ Hi H. rewrite (Hf i τ Hi H). by rewrite (Hf i σ Hi (fun b _ => eq_refl)).
  - split; [|done]. intros i Hi. rewrite H1 by done. by apply Hf.
Qed.

Lemma solved_more w j σ τ : solved j σ -> 0 <= j -> 0 <= w -> j + w <= n1 ->
  (forall i j', 0 <= i < n3 -> j <= j' < j + w -> τ (b_ i j') = fdiv F (less (σ0 (b_ i j')) (fun k => fmul F (σ0 (a_ j' k)) (τ (b_ i k))) 0 j') (σ0 (a_ j' j'))) ->
  (forall b, (forall i j', 0 <= i < n3 -> j <= j' < j + w -> b <> b_ i j') -> τ b = σ b) -> solved (j + w) τ.
Proof.
  intros HS Hj Hw Hjw Hcol Hout.
  assert (forall i c, 0 <= i < n3 -> ~ j <= c < j + w -> τ (b_ i c) = σ (b_ i c)) as Ho by (intros i c Hi Hc; apply Hout; intros i' j' Hi' Hj'; apply col_apart; lia). split.
  - intros i j' Hi Hj'. destruct (decide (j' < j)) as [Hlt|Hge]; [|apply Hcol; lia]. rewrite Ho by lia. rewrite (so_done _ _ HS i j') by lia. f_equal. apply less_ext.
    intros k Hk. by rewrite Ho by lia.
  - intros i j' Hi Hj'. rewrite Ho by lia. apply (so_rest _ _ HS); lia.
  - intros b Hb. rewrite Hout by (intros i j' Hi Hj'; apply Hb; lia). by apply (so_out _ _ HS).
Qed.

(** The columns [j] and [j + 1]. *)
Lemma pair_solved j σ : solved j σ -> 0 <= j -> j + 1 < n1 ->
  solved (j + 2) (let '(k, σ) := steps 4 (j - 3) 0 σ (fun k σ =>
      sweep2 F (Z.to_nat n3) σ (B + n3 * j) (B + n3 * j + n3) (B + n3 * j + n3) (load2 σ (A + (j + n4 * k)) n4 4) (strided (B + n3 * k) n3 4)) in
    let '(k, σ) := steps 1 j k σ (fun k σ =>
      let a_j0k0 := σ (A + (j + n4 * k)) in
      let a_j1k0 := σ (A + (j + 1 + n4 * k)) in
      for_to 0 n3 σ (fun i σ =>
        let σ := put σ (B + (i + n3 * (j + 0))) (fsub F (σ (B + (i + n3 * (j + 0)))) (fmul F a_j0k0 (σ (B + (i + n3 * k))))) in
        put σ (B + (i + n3 * (j + 1))) (fsub F (σ (B + (i + n3 * (j + 1)))) (fmul F a_j1k0 (σ (B + (i + n3 * k))))))) in
    let tmp0 := fdiv F one (σ (A + (j + n4 * j))) in
    let σ := for_to 0 n3 σ (fun i σ => put σ (B + (i + n3 * j)) (fmul F (σ (B + (i + n3 * j))) tmp0)) in
    let σ := for_to 0 n3 σ (fun i σ =>
      let a_j1k0 := σ (A + (j + 1 + n4 * k)) in
      put σ (B + (i + n3 * (j + 1))) (fsub F (σ (B + (i + n3 * (j + 1)))) (fmul F a_j1k0 (σ (B + (i + n3 * j)))))) in
    let tmp0 := fdiv F one (σ (A + (j + 1 + n4 * (j + 1)))) in
    for_to 0 n3 σ (fun i σ => put σ (B + (i + n3 * (j + 1))) (fmul F (σ (B + (i + n3 * (j + 1)))) tmp0))).
Proof.
  intros HS Hj Hj1. destruct (pair_reduced j σ Hj Hj1) as (τ & E & HR & Hout).
  destruct (steps 4 (j - 3) 0 σ _) as [k σ1]. rewrite E. clear E k σ1. cbn zeta.
  assert (forall i c, 0 <= i < n3 -> 0 <= c < j -> τ (b_ i c) = σ (b_ i c)) as Hlow by (intros i c Hi Hc; apply Hout; intros i' j' Hi' Hj'; apply col_apart; lia).
  assert (forall c k, 0 <= c < n1 -> 0 <= k < n1 -> τ (a_ c k) = σ (a_ c k)) as HA by (intros c k Hc Hk; apply Hout; intros i' j' Hi' Hj'; apply HAB; lia).
  set (τ1 := for_to 0 n3 τ _).
  destruct (scaled j τ (fun x => fmul F x (fdiv F one (τ (a_ j j)))) (fun i σ => fmul F (σ (b_ i j)) (fdiv F one (τ (a_ j j)))) ltac:(lia)) as [A1 A2].
  { intros i υ Hi H. by rewrite (H _ (or_introl eq_refl)). }
  change (for_to 0 n3 τ _) with τ1 in A1, A2.
  set (τ2 := for_to 0 n3 τ1 _).
  destruct (for_put 0 n3 τ1 (fun i => b_ i (j + 1)) (fun i σ => fsub F (σ (b_ i (j + 1))) (fmul F (σ (a_ (j + 1) j)) (σ (b_ i j))))) as [B1 B2]; [lia|lia| |].
  { intros i υ Hi H. rewrite !H; [done|right; intros i' Hi'; apply col_apart; lia|right; intros i' Hi'; apply HAB; lia|by left]. }
  change (for_to 0 n3 τ1 _) with τ2 in B1, B2.
  destruct (scaled (j + 1) τ2 (fun x => fmul F x (fdiv F one (τ2 (a_ (j + 1) (j + 1))))) (fun i σ => fmul F (σ (b_ i (j + 1))) (fdiv F one (τ2 (a_ (j + 1) (j + 1))))) ltac:(lia)) as [C1 C2].
  { intros i υ Hi H. by rewrite (H _ (or_introl eq_refl)). }
  set (τ3 := for_to 0 n3 τ2 _) in *.
  assert (forall c k, 0 <= c < n1 -> 0 <= k < n1 -> τ1 (a_ c k) = σ (a_ c k)) as HA1 by (intros c k Hc Hk; rewrite A2 by (intros i Hi; apply HAB; lia); by apply HA).
  assert (forall c k, 0 <= c < n1 -> 0 <= k < n1 -> τ2 (a_ c k) = σ (a_ c k)) as HA2 by (intros c k Hc Hk; rewrite B2 by (intros i Hi; apply HAB; lia); by apply HA1).
  assert (forall i, 0 <= i < n3 -> τ1 (b_ i j) = fdiv F (less (σ (b_ i j)) (fun k => fmul F (σ (a_ j k)) (σ (b_ i k))) 0 j) (σ (a_ j j))) as Hcol.
  { intros i Hi. rewrite A1 by done. rewrite Hlaw, HA by lia. f_equal. apply HR; lia. }
  assert (forall i c, 0 <= i < n3 -> 0 <= c < n1 -> c <> j -> c <> j + 1 -> τ3 (b_ i c) = σ (b_ i c)) as Ho.
  { intros i c Hi Hc N0 N1. rewrite C2, B2, A2 by (intros i' Hi'; apply col_apart; lia). apply Hout. intros i' j' Hi' Hj'. apply col_apart; lia. }
  assert (forall i, 0 <= i < n3 -> τ3 (b_ i j) = τ1 (b_ i j)) as Hj3 by (intros i Hi; rewrite C2, B2 by (intros i' Hi'; apply col_apart; lia); done).
  apply (solved_more 2 j σ); [done|lia|lia|lia| |].
  - intros i j' Hi Hj'. assert (j' = j \/ j' = j + 1) as [-> | ->] by lia.
    + rewrite Hj3, Hcol by done. rewrite (so_reads _ _ j j HS), (so_rest _ _ HS i j) by lia. f_equal. apply less_ext. intros k Hk. rewrite (so_reads _ _ j k HS), Ho by lia. done.
    + rewrite C1, B1, Hlaw by done. rewrite !HA1, !HA2, (so_reads _ _ (j + 1) (j + 1) HS), (so_reads _ _ (j + 1) j HS) by lia. f_equal. rewrite less_S by lia. rewrite Hj3 by done. f_equal.
      rewrite A2 by (intros i' Hi'; apply col_apart; lia). rewrite (HR i (j + 1) Hi ltac:(lia)), (so_rest _ _ HS i (j + 1)) by lia. apply less_ext. intros k Hk. rewrite (so_reads _ _ (j + 1) k HS), Ho by lia. done.
  - intros b Hb. rewrite C2, B2, A2 by (intros i' Hi'; apply Hb; lia). apply Hout. intros i' j' Hi' Hj'. apply Hb; lia.
Qed.

(** The result, cell by cell: every column is what is left of it after the
    products of the columns before, divided by the diagonal. *)
Lemma OneDiv_ok : solved n1 (OneDiv F one A B n1 n3 n4 σ0).
Proof.
  unfold OneDiv.
  match goal with |- context [steps 2 (n1 - 1) 0 σ0 ?body] => destruct (steps_ok (fun j σ => 0 <= j <= n1 /\ solved j σ) 2 (n1 - 1) 0 σ0 body) as [[Hj HS] Hend];
    [lia| | |destruct (steps 2 (n1 - 1) 0 σ0 body) as [j σ]; cbn [fst snd] in *] end.
  - split; [lia|]. split; [lia|done|done].
  - intros j σ Hj [Hj0 HS]. split; [lia|]. apply pair_solved; [done|lia|lia].
  - apply (for_to_ok solved); [lia|done|]. intros j' τ Hj' Hτ. cbn zeta. destruct (single_reduced j' τ ltac:(lia)) as [HR Hout]. set (τ1 := for_to 0 j' τ _) in *.
    assert (τ1 (a_ j' j') = τ (a_ j' j')) as Ea by (apply Hout; intros i c Hi Hc; apply HAB; lia).
    destruct (scaled j' τ1 (fun x => fdiv F x (τ1 (a_ j' j'))) (fun i σ => fdiv F (σ (b_ i j')) (σ (a_ j' j'))) ltac:(lia)) as [C1 C2].
    { intros i υ Hi H. rewrite !H; [done|right; intros i' Hi'; apply HAB; lia|by left]. }
    set (τ2 := for_to 0 n3 τ1 _) in *. apply (solved_more 1 j' τ); [done|lia|lia|lia| |].
    + intros i c Hi Hc. assert (c = j') as -> by lia. rewrite C1, Ea by done. rewrite (HR i j' Hi ltac:(lia)). rewrite (so_reads _ _ j' j' Hτ), (so_rest _ _ Hτ i j') by lia. f_equal.
      apply less_ext. intros k Hk. rewrite (so_reads _ _ j' k Hτ) by lia. f_equal. symmetry. rewrite C2 by (intros i' Hi'; apply col_apart; lia). apply Hout. intros i' c Hi' Hc'. apply col_apart; lia.
    + intros b Hb. rewrite C2 by (intros i' Hi'; apply Hb; lia). apply Hout. intros i' c Hi' Hc. apply Hb; lia.
Qed.
End Div.

(** ** [OneFac] *)

(** The element [(i, j)] of the factor, from what is left of it. *)
Definition finish (i j : Z) (d t : V) : V := if i =? j then sqrt t else fdiv F t d.

Section Fac.
Context (A n1 n2 : Z) (σ0 : Z -> V) (Hn1 : 0 <= n1 <= n2).
Local Abbreviation a_ i j := (A + (i + n2 * j)).

(** Columns before [j] are factored, the others are as they were. *)
Record factored (j : Z) σ : Prop := {
  fa_done i j' : 0 <= j' < j -> j' <= i < n1 -> σ (a_ i j') = finish i j' (σ (a_ j' j')) (less (σ0 (a_ i j')) (fun k => fmul F (σ (a_ j' k)) (σ (a_ i k))) 0 j');
  fa_rest i j' : j <= j' < n1 -> j' <= i < n1 -> σ (a_ i j') = σ0 (a_ i j');
  fa_out b : (forall i j', 0 <= j' < n1 -> j' <= i < n1 -> b <> a_ i j') -> σ b = σ0 b }.

Lemma fac_apart i i' j j' : 0 <= i < n1 -> 0 <= i' < n1 -> i <> i' \/ j <> j' -> a_ i j <> a_ i' j'.
Proof. intros Hi Hi' Hne E. destruct (addr_inj n2 i j i' j'); lia. Qed.

Lemma fac_reduced j σ : 0 <= j < n1 -> exists τ,
  steps 1 j 0 σ (fun k σ => for_to j n1 σ (fun i σ => put σ (a_ i j) (fsub F (σ (a_ i j)) (fmul F (σ (a_ j k)) (σ (a_ i k)))))) = (j, τ) /\
  (forall i, j <= i < n1 -> τ (a_ i j) = less (σ (a_ i j)) (fun k => fmul F (σ (a_ j k)) (σ (a_ i k))) 0 j) /\
  forall b, (forall i, j <= i < n1 -> b <> a_ i j) -> τ b = σ b.
Proof.
  intros Hj. set (P := fun k τ => (forall i, j <= i < n1 -> τ (a_ i j) = less (σ (a_ i j)) (fun k => fmul F (σ (a_ j k)) (σ (a_ i k))) 0 k) /\
    forall b, (forall i, j <= i < n1 -> b <> a_ i j) -> τ b = σ b).
  match goal with |- context [steps 1 j 0 σ ?body] => destruct (for_ok (fun k τ => 0 <= k /\ P k τ) 0 j σ body) as [E [_ HP]]; [lia| | |exists (steps 1 j 0 σ body).2; split; [by rewrite (surjective_pairing (steps 1 j 0 σ body)) at 1; rewrite E|exact HP]] end.
  { split; [lia|]. split; [|done]. intros i Hi. by rewrite less_none. }
  intros k τ Hk [Hk0 [H1 H2]]. split; [lia|].
  destruct (for_put j n1 τ (fun i => a_ i j) (fun i τ => fsub F (τ (a_ i j)) (fmul F (τ (a_ j k)) (τ (a_ i k))))) as [G1 G2]; [lia|lia| |].
  - intros i υ Hi H. rewrite !H; [done|right; intros i' Hi'; apply fac_apart; lia|right; intros i' Hi'; apply fac_apart; lia|by left].
  - split.
    + intros i Hi. rewrite G1, less_S, H1 by lia. f_equal. rewrite !H2 by (intros i' Hi'; apply fac_apart; lia). done.
    + intros b Hb. rewrite G2 by done. by apply H2.
Qed.

Lemma column_factored j σ : factored j σ -> 0 <= j < n1 -> factored (j + 1)
  (let '(k, σ) := steps 1 j 0 σ (fun k σ => for_to j n1 σ (fun i σ => put σ (a_ i j) (fsub F (σ (a_ i j)) (fmul F (σ (a_ j k)) (σ (a_ i k)))))) in
   let σ := put σ (a_ k k) (sqrt (σ (a_ k k))) in
   for_to (j + 1) n1 σ (fun i σ => put σ (a_ i k) (fdiv F (σ (a_ i k)) (σ (a_ k k))))).
Proof.
  intros HS Hj. destruct (fac_reduced j σ Hj) as (τ & -> & HR & Hout). cbn zeta. set (τ1 := put τ (a_ j j) _).
  destruct (for_put (j + 1) n1 τ1 (fun i => a_ i j) (fun i σ => fdiv F (σ (a_ i j)) (σ (a_ j j)))) as [G1 G2]; [lia|lia| |].
  { intros i υ Hi H. rewrite !H; [done|right; intros i' Hi'; apply fac_apart; lia|by left]. }
  set (τ2 := for_to (j + 1) n1 τ1 _) in *.
  assert (τ2 (a_ j j) = sqrt (τ (a_ j j))) as Ed by (rewrite G2 by (intros i Hi; apply fac_apart; lia); unfold τ1; by rewrite put_here).
  assert (forall i j', 0 <= j' < n1 -> 0 <= i < n1 -> j' <> j -> τ2 (a_ i j') = σ (a_ i j')) as Ho.
  { intros i j' Hj' Hi Hne. rewrite G2 by (intros i' Hi'; apply fac_apart; lia). unfold τ1. rewrite put_other by (apply fac_apart; lia). apply Hout. intros i' Hi'. apply fac_apart; lia. }
  split.
  - intros i j' Hj' Hi. destruct (decide (j' = j)) as [->|Hne].
    + assert (less (σ0 (a_ i j)) (fun k => fmul F (τ2 (a_ j k)) (τ2 (a_ i k))) 0 j = τ (a_ i j)) as ->.
      { rewrite HR by lia. rewrite (fa_rest _ _ HS i j) by lia. apply less_ext. intros k Hk. by rewrite !Ho by lia. }
      unfold finish. destruct (Z.eqb_spec i j) as [->|Hij]; [done|]. rewrite G1 by lia. f_equal; [|rewrite Ed; unfold τ1; by rewrite put_here].
      unfold τ1. by rewrite put_other by (apply fac_apart; lia).
    + rewrite !Ho by lia. rewrite (fa_done _ _ HS i j') by lia. f_equal. apply less_ext. intros k Hk. by rewrite !Ho by lia.
  - intros i j' Hj' Hi. rewrite Ho by lia. apply (fa_rest _ _ HS); lia.
  - intros b Hb. rewrite G2 by (intros i Hi; apply Hb; lia). unfold τ1. rewrite put_other by (apply Hb; lia). rewrite Hout by (intros i Hi; apply Hb; lia). by apply (fa_out _ _ HS).
Qed.

Lemma OneFac_ok : factored n1 (OneFac F sqrt A n1 n2 σ0).
Proof.
  unfold OneFac. apply (for_to_ok factored); [lia|split; [lia|done|done]|]. intros j σ Hj HS. by apply column_factored.
Qed.
End Fac.

(** ** Copies *)

Section Copy.
Context (B D n3 r0 c0 r1 c1 : Z) (σ0 : Z -> V) (Hr : 0 <= r0 <= r1) (Hr1 : r1 <= n3) (Hc : 0 <= c0 <= c1).
Context (HD : forall i k i' k', r0 <= i < r1 -> c0 <= k < c1 -> r0 <= i' < r1 -> c0 <= k' < c1 -> D + ((i - r0) + (k - c0) * (r1 - r0)) <> B + (i' + k' * n3)).
Local Abbreviation d_ i k := (D + ((i - r0) + (k - c0) * (r1 - r0))).
Local Abbreviation b_ i k := (B + (i + k * n3)).

Lemma d_inj i k i' k' : r0 <= i < r1 -> r0 <= i' < r1 -> d_ i k = d_ i' k' -> i = i' /\ k = k'.
Proof. intros Hi Hi' E. destruct (addr_inj (r1 - r0) (i - r0) (k - c0) (i' - r0) (k' - c0)); lia. Qed.
Lemma b_inj i k i' k' : r0 <= i < r1 -> r0 <= i' < r1 -> b_ i k = b_ i' k' -> i = i' /\ k = k'.
Proof. intros Hi Hi' E. destruct (addr_inj n3 i k i' k'); lia. Qed.

(** Both copies are of this form. *)
Lemma copied_cells (to from : Z -> Z -> Z) : (forall i k i' k', r0 <= i < r1 -> r0 <= i' < r1 -> to i k = to i' k' -> i = i' /\ k = k') ->
  (forall i k i' k', r0 <= i < r1 -> c0 <= k < c1 -> r0 <= i' < r1 -> c0 <= k' < c1 -> from i k <> to i' k') ->
  let σ := for_to c0 c1 σ0 (fun k σ => for_to r0 r1 σ (fun i σ => put σ (to i k) (σ (from i k)))) in
  (forall i k, r0 <= i < r1 -> c0 <= k < c1 -> σ (to i k) = σ0 (from i k)) /\
  forall b, (forall i k, r0 <= i < r1 -> c0 <= k < c1 -> b <> to i k) -> σ b = σ0 b.
Proof.
  intros Hinj Happ. cbn zeta.
  apply (for_to_ok (fun k' σ => (forall i k, r0 <= i < r1 -> c0 <= k < k' -> σ (to i k) = σ0 (from i k)) /\ forall b, (forall i k, r0 <= i < r1 -> c0 <= k < k' -> b <> to i k) -> σ b = σ0 b)).
  - lia.
  - split; [lia|done].
  - intros k σ Hk [H1 H2]. destruct (for_put r0 r1 σ (fun i => to i k) (fun i σ => σ (from i k))) as [G1 G2]; [lia|intros i i' Hi Hi' E; by destruct (Hinj _ _ _ _ Hi Hi' E)| |].
    + intros i τ Hi H. apply H. right. intros i' Hi'. apply Happ; lia.
    + split.
      * intros i k' Hi Hk'. destruct (decide (k' = k)) as [->|Hne].
        -- rewrite G1 by lia. apply H2. intros i' k' Hi' Hk2. apply Happ; lia.
        -- rewrite G2; [apply H1; lia|]. intros i' Hi' E. destruct (Hinj _ _ _ _ Hi Hi' E). lia.
      * intros b Hb. rewrite G2 by (intros i Hi; apply Hb; lia). apply H2. intros i k' Hi Hk'. apply Hb; lia.
Qed.
Lemma CopyBlock_ok : let σ := CopyBlock B D n3 r0 c0 r1 c1 σ0 in
  (forall i k, r0 <= i < r1 -> c0 <= k < c1 -> σ (d_ i k) = σ0 (b_ i k)) /\ forall b, (forall i k, r0 <= i < r1 -> c0 <= k < c1 -> b <> d_ i k) -> σ b = σ0 b.
Proof. apply (copied_cells (fun i k => d_ i k) (fun i k => b_ i k)); [intros; by apply d_inj|]. intros i k i' k' Hi Hk Hi' Hk' E. by apply (HD i' k' i k). Qed.
Lemma CopyBlockBack_ok : let σ := CopyBlockBack B D n3 r0 c0 r1 c1 σ0 in
  (forall i k, r0 <= i < r1 -> c0 <= k < c1 -> σ (b_ i k) = σ0 (d_ i k)) /\ forall b, (forall i k, r0 <= i < r1 -> c0 <= k < c1 -> b <> b_ i k) -> σ b = σ0 b.
Proof. apply (copied_cells (fun i k => b_ i k) (fun i k => d_ i k)); [intros; by apply b_inj|]. apply HD. Qed.
End Copy.
End Kernels.
End BfacKernels.
