(* ===== verification/BfacMain.v ===== *)
(** * BfacMain: the blocked kernels

    [BFac] is the factorisation by columns, whatever the size of its pieces; in
    exact arithmetic that is Cholesky's. *)

From stdpp Require Import base list option list_numbers.
From S2P Require Import Prelude Doubles Bfac BfacLoops BfacKernels.
Local Open Scope Z_scope.

(** The side conditions on what a cell depends on are linear. *)
Ltac deps := intros; repeat match goal with |- context [?a <? ?b] => destruct (Z.ltb_spec a b) end; cbn [andb] in *; (split; [lia|intros; lia]).

Module BfacMain.
Import Bfac BfacLoops BfacKernels.

Section Blocked.
Context {V : Type} (F : arith V) (one : V) (sqrt : V -> V) (BS : Z) (HBS : 0 < BS) (Hsub : sub_add F) (Hmul : mul_recip F one).
Implicit Types (σ : Z -> V).
Local Abbreviation less := (BfacLoops.less F).
Local Abbreviation finish := (BfacKernels.finish F sqrt).

(** ** [BFac] *)

Section Factor.
Context (tmp A n : Z) (σ0 : Z -> V) (Hn : 0 <= n).
Context (Htmp : forall x y, 0 <= x < n * n -> 0 <= y < BS * BS -> tmp + y <> A + x).
Local Abbreviation a_ i j := (A + (i + n * j)).

(** What is left of the element [(i, j)] after [q] products. *)
Definition left_of (i j q : Z) σ : V := less (σ0 (a_ i j)) (fun k => fmul F (σ (a_ j k)) (σ (a_ i k))) 0 q.

(** The cells of the factor that are [fin] are final; from the others [q] products
    are taken away. Outside the block and the copy nothing has changed. *)
Record state (fin : Z -> Z -> Prop) (q : Z -> Z -> Z) σ : Prop := {
  st_fin i j : 0 <= j <= i -> i < n -> fin i j -> σ (a_ i j) = finish i j (σ (a_ j j)) (left_of i j j σ);
  st_part i j : 0 <= j <= i -> i < n -> ~ fin i j -> σ (a_ i j) = left_of i j (q i j) σ;
  st_out b : (forall i j, 0 <= j <= i -> i < n -> b <> a_ i j) -> (forall y, 0 <= y < BS * BS -> b <> tmp + y) -> σ b = σ0 b }.

Lemma left_stable i j q σ σ' : (forall k, 0 <= k < q -> σ' (a_ j k) = σ (a_ j k) /\ σ' (a_ i k) = σ (a_ i k)) -> left_of i j q σ' = left_of i j q σ.
Proof. intros H. apply less_ext. intros k Hk. by destruct (H k Hk) as [-> ->]. Qed.

Lemma state_step (fin fin' new : Z -> Z -> Prop) (q q' : Z -> Z -> Z) σ σ' : state fin q σ ->
  (forall i j, 0 <= j <= i -> i < n -> fin i j -> fin j j /\ forall k, 0 <= k < j -> fin j k /\ fin i k) ->
  (forall i j, 0 <= j <= i -> i < n -> ~ fin i j -> q i j <= j /\ forall k, 0 <= k < q i j -> fin j k /\ fin i k) ->
  (forall i j, 0 <= j <= i -> i < n -> new i j \/ σ' (a_ i j) = σ (a_ i j)) -> (forall i j, 0 <= j <= i -> i < n -> fin i j -> ~ new i j) ->
  (forall i j, 0 <= j <= i -> i < n -> fin' i j -> fin i j \/ σ' (a_ i j) = finish i j (σ' (a_ j j)) (left_of i j j σ')) ->
  (forall i j, 0 <= j <= i -> i < n -> ~ fin' i j -> (~ fin i j /\ ~ new i j /\ q' i j = q i j) \/ σ' (a_ i j) = left_of i j (q' i j) σ') ->
  (forall b, (forall i j, 0 <= j <= i -> i < n -> b <> a_ i j) -> (forall y, 0 <= y < BS * BS -> b <> tmp + y) -> σ' b = σ b) -> state fin' q' σ'.
Proof.
  intros [S1 S2 S3] D1 D2 Hun Hfn F1 F2 Ho.
  assert (forall i j, 0 <= j <= i -> i < n -> fin i j -> σ' (a_ i j) = σ (a_ i j)) as Hfin by (intros i j Hj Hi Hf; destruct (Hun i j Hj Hi) as [H|H]; [by destruct (Hfn i j Hj Hi Hf)|done]).
  split.
  - intros i j Hj Hi Hf. destruct (F1 i j Hj Hi Hf) as [Hold|]; [|done]. destruct (D1 i j Hj Hi Hold) as [Hd Hk]. rewrite !Hfin by (done || lia). rewrite (S1 i j Hj Hi Hold). f_equal. symmetry.
    apply left_stable. intros k Hk'. destruct (Hk k Hk'). split; apply Hfin; done || lia.
  - intros i j Hj Hi Hf. destruct (F2 i j Hj Hi Hf) as [(Hold & Hnew & ->)|]; [|done]. destruct (Hun i j Hj Hi) as [|E]; [done|]. rewrite E, (S2 i j Hj Hi Hold). symmetry. destruct (D2 i j Hj Hi Hold) as [Hq Hk].
    apply left_stable. intros k Hk'. destruct (Hk k Hk'). split; apply Hfin; done || lia.
  - intros b H1 H2. rewrite Ho by done. by apply S3.
Qed.

Lemma state_ext (fin fin' : Z -> Z -> Prop) (q q' : Z -> Z -> Z) σ : (forall i j, 0 <= j <= i -> i < n -> fin i j <-> fin' i j) ->
  (forall i j, 0 <= j <= i -> i < n -> ~ fin i j -> q i j = q' i j) -> state fin q σ -> state fin' q' σ.
Proof.
  intros Hf Hq [S1 S2 S3]. split; [|intros i j Hj Hi H; rewrite <- Hq by (done || (rewrite Hf by done; done)); apply S2; [done|done|by rewrite Hf]|done].
  intros i j Hj Hi H. apply S1; [done|done|by apply Hf].
Qed.
Lemma cell_bound i j : 0 <= i < n -> 0 <= j < n -> 0 <= i + n * j < n * n.
Proof. nia. Qed.
Lemma a_apart i j i' j' : 0 <= i < n -> 0 <= i' < n -> i <> i' \/ j <> j' -> a_ i j <> a_ i' j'.
Proof. intros Hi Hi' Hne E. destruct (addr_inj n i j i' j'); lia. Qed.
Lemma tmp_bound i k r c : 0 <= i < r -> 0 <= k < c -> r <= BS -> c <= BS -> 0 <= i + r * k < BS * BS.
Proof. nia. Qed.
Lemma tmp_apart i j y : 0 <= i < n -> 0 <= j < n -> 0 <= y < BS * BS -> tmp + y <> a_ i j.
Proof. intros Hi Hj Hy. apply Htmp; [by apply cell_bound|done]. Qed.

(** The piece on the diagonal. *)
Lemma diagonal_ok js jl σ : 0 <= js < jl -> jl <= n -> state (fun i j => j < js) (fun _ _ => js) σ ->
  state (fun i j => j < js \/ j < jl /\ i < jl) (fun _ _ => js) (OneFac F sqrt (A + (js + n * js)) (jl - js) n σ).
Proof.
  intros Hjs Hjl HS. destruct (OneFac_ok F sqrt (A + (js + n * js)) (jl - js) n σ ltac:(lia)) as [G1 G2 G3]. set (σ' := OneFac _ _ _ _ _ _) in *.
  assert (forall i j, A + (js + n * js) + (i + n * j) = a_ (js + i) (js + j)) as Ea by (intros; lia).
  assert (forall i j, 0 <= j <= i -> i < n -> (js <= j < jl /\ i < jl) \/ σ' (a_ i j) = σ (a_ i j)) as Hun.
  { intros i j Hj Hi. destruct (decide (js <= j < jl /\ i < jl)) as [|Hd]; [by left|]. right. apply G3. intros i' j' Hj' Hi'. rewrite Ea. apply a_apart; lia. }
  apply (state_step (fun i j => j < js) _ (fun i j => js <= j < jl /\ i < jl) (fun _ _ => js) _ σ); [done|deps|deps|done|lia| | |].
  - intros i j Hj Hi [|[Hjl' Hil]]; [by left|]. destruct (decide (j < js)) as [|Hge]; [by left|]. right.
    specialize (G1 (i - js) (j - js) ltac:(lia) ltac:(lia)). rewrite !Ea in G1. replace (js + (i - js)) with i in G1 by lia. replace (js + (j - js)) with j in G1 by lia.
    rewrite G1. unfold BfacKernels.finish. replace (i - js =? j - js) with (i =? j) by (destruct (Z.eqb_spec i j), (Z.eqb_spec (i - js) (j - js)); done || lia).
    assert (less (σ (a_ i j)) (fun k => fmul F (σ' (A + (js + n * js) + (j - js + n * k))) (σ' (A + (js + n * js) + (i - js + n * k)))) 0 (j - js) = left_of i j j σ') as ->; [|done].
    rewrite (st_part _ _ _ HS i j Hj Hi ltac:(cbn beta; lia)). rewrite <- (left_stable i j js σ σ').
    + unfold left_of. rewrite <- (less_app F _ _ 0 js j) by lia. rewrite (less_rebase F _ _ js j). apply less_ext. intros k Hk. f_equal; f_equal; lia.
    + intros k Hk. destruct (Hun j k ltac:(lia) ltac:(lia)); [lia|]. destruct (Hun i k ltac:(lia) ltac:(lia)); [lia|]. done.
  - intros i j Hj Hi Hf. left. lia.
  - intros b Hb _. apply G3. intros i' j' Hj' Hi'. rewrite Ea. apply Hb; lia.
Qed.

(** One piece of rows below the diagonal, [is <= i < il], in the columns [js <= j < jl]. *)
Section Piece.
Context (js jl rs rl : Z) (Hjs : 0 <= js < jl) (Hrs : jl <= rs < rl) (Hrl : rl <= n) (Hw : jl - js <= BS) (Hh : rl - rs <= BS).
Local Abbreviation t_ i k := (tmp + ((i - rs) + (rl - rs) * (k - js))).
Local Abbreviation before := (fun i _ : Z => if i <? rs then jl else js).

Definition copy_holds σ : Prop := forall i k, rs <= i < rl -> js <= k < jl -> σ (t_ i k) = σ (a_ i k).

Lemma t_bound i k : rs <= i < rl -> js <= k < jl -> 0 <= (i - rs) + (rl - rs) * (k - js) < BS * BS.
Proof. intros Hi Hk. apply (tmp_bound _ _ _ (jl - js)); lia. Qed.
Lemma t_apart i k i' j' : rs <= i < rl -> js <= k < jl -> 0 <= i' < n -> 0 <= j' < n -> t_ i k <> a_ i' j'.
Proof. intros Hi Hk Hi' Hj'. apply tmp_apart; [done|done|by apply t_bound]. Qed.

Lemma divide_ok σ : state (fun i j => j < js \/ j < jl /\ i < rs) before σ ->
  let σ' := CopyBlockBack A tmp n rs js rl jl (OneDiv F one (A + (js + n * js)) tmp (jl - js) (rl - rs) n (CopyBlock A tmp n rs js rl jl σ)) in
  state (fun i j => j < js \/ j < jl /\ i < rl) before σ' /\ copy_holds σ'.
Proof.
  intros HS. cbn zeta.
  assert (forall i k i' k', rs <= i < rl -> js <= k < jl -> rs <= i' < rl -> js <= k' < jl -> tmp + ((i - rs) + (k - js) * (rl - rs)) <> A + (i' + k' * n)) as HD.
  { intros i k i' k' Hi Hk Hi' Hk'. pose proof (t_apart i k i' k' Hi Hk ltac:(lia) ltac:(lia)). lia. }
  destruct (CopyBlock_ok A tmp n rs js rl jl σ ltac:(lia) ltac:(lia) HD) as [C1 C2]. set (σ1 := CopyBlock _ _ _ _ _ _ _ _) in *.
  destruct (OneDiv_ok F one (A + (js + n * js)) tmp (jl - js) (rl - rs) n σ1 ltac:(lia) ltac:(lia) Hmul) as [D1 _ D3].
  { intros i j j' k Hi Hj Hj' Hk. pose proof (t_apart (rs + i) (js + j) (js + j') (js + k) ltac:(lia) ltac:(lia) ltac:(lia) ltac:(lia)). lia. }
  set (σ2 := OneDiv _ _ _ _ _ _ _ _) in *.
  destruct (CopyBlockBack_ok A tmp n rs js rl jl σ2 ltac:(lia) ltac:(lia) ltac:(lia) HD) as [B1 B2]. set (σ3 := CopyBlockBack _ _ _ _ _ _ _ _) in *.
  assert (forall i j, 0 <= i < n -> 0 <= j < n -> σ1 (a_ i j) = σ (a_ i j)) as E1.
  { intros i j Hi Hj. apply C2. intros i' k' Hi' Hk' E. symmetry in E. revert E. pose proof (t_apart i' k' i j Hi' Hk' Hi Hj). lia. }
  assert (forall i j, 0 <= i < n -> 0 <= j < n -> σ2 (a_ i j) = σ (a_ i j)) as E2.
  { intros i j Hi Hj. rewrite D3; [by apply E1|]. intros i' k' Hi' Hk' E. symmetry in E. revert E. pose proof (t_apart (rs + i') (js + k') i j ltac:(lia) ltac:(lia) Hi Hj). lia. }
  assert (forall i j, 0 <= i < n -> 0 <= j < n -> (rs <= i < rl /\ js <= j < jl) \/ σ3 (a_ i j) = σ (a_ i j)) as E3.
  { intros i j Hi Hj. destruct (decide (rs <= i < rl /\ js <= j < jl)) as [|Hd]; [by left|]. right. rewrite B2; [by apply E2|]. intros i' k' Hi' Hk'. replace (i' + k' * n) with (i' + n * k') by lia. apply a_apart; lia. }
  assert (forall i k, rs <= i < rl -> js <= k < jl -> σ3 (a_ i k) = σ2 (t_ i k)) as E4.
  { intros i k Hi Hk. specialize (B1 i k Hi Hk). replace (A + (i + k * n)) with (a_ i k) in B1 by lia. rewrite B1. f_equal. lia. }
  assert (forall i k, rs <= i < rl -> js <= k < jl -> σ1 (t_ i k) = σ (a_ i k)) as E5.
  { intros i k Hi Hk. specialize (C1 i k Hi Hk). replace (A + (i + k * n)) with (a_ i k) in C1 by lia. rewrite <- C1. f_equal. lia. }
  split.
  - apply (state_step (fun i j => j < js \/ j < jl /\ i < rs) _ (fun i j => rs <= i < rl /\ js <= j < jl) before _ σ); [done|deps|deps|intros; apply E3; lia|lia| | |].
    + intros i j Hj Hi Hf. destruct (decide (j < js \/ j < jl /\ i < rs)) as [|Hnew]; [by left|]. right. unfold BfacKernels.finish. destruct (Z.eqb_spec i j); [lia|].
      rewrite E4 by lia. specialize (D1 (i - rs) (j - js) ltac:(lia) ltac:(lia)). rewrite D1. destruct (E3 j j ltac:(lia) ltac:(lia)) as [|Ejj]; [lia|]. rewrite Ejj.
      replace (A + (js + n * js) + (j - js + n * (j - js))) with (a_ j j) by lia. rewrite E1 by lia. f_equal. rewrite E5 by lia.
      rewrite (st_part _ _ _ HS i j Hj Hi Hnew). destruct (Z.ltb_spec i rs); [lia|]. rewrite <- (left_stable i j js σ σ3).
      * unfold left_of. rewrite <- (less_app F _ _ 0 js j) by lia. rewrite (less_rebase F _ _ js j). apply less_ext. intros k Hk.
        destruct (E3 j (k + js) ltac:(lia) ltac:(lia)) as [|Ej]; [lia|]. rewrite Ej, E4 by lia. f_equal; [rewrite <- E1 by lia; f_equal; lia|f_equal; lia].
      * intros k Hk. destruct (E3 j k ltac:(lia) ltac:(lia)); [lia|]. destruct (E3 i k ltac:(lia) ltac:(lia)); [lia|]. done.
    + intros i j Hj Hi Hf. left. lia.
    + intros b Hb Ht. rewrite B2 by (intros i' k' Hi' Hk'; replace (i' + k' * n) with (i' + n * k') by lia; apply Hb; lia).
      rewrite D3 by (intros i' k' Hi' Hk'; pose proof (t_bound (rs + i') (js + k') ltac:(lia) ltac:(lia)); replace (rs + i' - rs) with i' in * by lia; replace (js + k' - js) with k' in * by lia; by apply Ht).
      apply C2. intros i' k' Hi' Hk'. pose proof (t_bound i' k' Hi' Hk'). rewrite Z.mul_comm. by apply Ht.
  - intros i k Hi Hk. rewrite E4 by done. apply B2. intros i' k' Hi' Hk'. pose proof (t_apart i k i' k' Hi Hk ltac:(lia) ltac:(lia)). lia.
Qed.

Local Abbreviation fin1 := (fun i j => j < js \/ j < jl /\ i < rl).
(** In these rows, the columns before [ks] are up to date. *)
Local Abbreviation upto_ ks := (fun i j : Z => if i <? rs then jl else if (i <? rl) && (j <? ks) then jl else js).

(** The products of the columns [js] to [jl - 1] are taken away from a cell, with the factors of its row from the copy. *)
Lemma taken_away i j σ σ' f : copy_holds σ -> rs <= i < rl -> jl <= j <= i -> σ (a_ i j) = left_of i j js σ ->
  (forall k, 0 <= k < jl -> σ' (a_ j k) = σ (a_ j k) /\ σ' (a_ i k) = σ (a_ i k)) ->
  (forall k, 0 <= k < jl - js -> f k = fmul F (σ (a_ j (k + js))) (σ (t_ i (k + js)))) ->
  σ' (a_ i j) = less (σ (a_ i j)) f 0 (jl - js) -> σ' (a_ i j) = left_of i j jl σ'.
Proof.
  intros Hcopy Hi Hj Hold Hfin Hf ->. rewrite Hold, <- (left_stable i j js σ σ') by (intros k Hk; apply Hfin; lia). unfold left_of.
  rewrite <- (less_app F _ _ 0 js jl) by lia. rewrite (less_rebase F _ _ js jl). apply less_ext. intros k Hk. rewrite Hf, Hcopy by lia. destruct (Hfin (k + js) ltac:(lia)) as [-> ->]. done.
Qed.

Lemma matmat_ok ks kl σ : jl <= ks < kl -> kl <= rs -> state fin1 (upto_ ks) σ -> copy_holds σ ->
  let σ' := OneMatmat F tmp (A + (ks + n * js)) (A + (rs + n * ks)) (kl - ks) (jl - js) (rl - rs) n n σ in state fin1 (upto_ kl) σ' /\ copy_holds σ'.
Proof.
  intros Hks Hkl HS Hcopy. cbn zeta.
  destruct (OneMatmat_ok F tmp (A + (ks + n * js)) (A + (rs + n * ks)) (kl - ks) (jl - js) (rl - rs) n n σ ltac:(lia) ltac:(lia) ltac:(lia)) as [G1 G2].
  { intros i j i' k Hi Hj Hi' Hk. pose proof (t_apart (rs + i') (js + k) (rs + i) (ks + j) ltac:(lia) ltac:(lia) ltac:(lia) ltac:(lia)). lia. }
  { intros i j j' k Hi Hj Hj' Hk. pose proof (a_apart (ks + j') (js + k) (rs + i) (ks + j) ltac:(lia) ltac:(lia) ltac:(lia)). lia. }
  set (σ' := OneMatmat _ _ _ _ _ _ _ _ _ _) in *.
  assert (forall i j, A + (rs + n * ks) + (i + n * j) = a_ (rs + i) (ks + j)) as Ea by (intros; lia).
  assert (forall i j, 0 <= i < n -> 0 <= j < n -> (rs <= i < rl /\ ks <= j < kl) \/ σ' (a_ i j) = σ (a_ i j)) as Hun.
  { intros i j Hi Hj. destruct (decide (rs <= i < rl /\ ks <= j < kl)) as [|Hd]; [by left|]. right. apply G2. intros i' j' [Hj' Hi']. rewrite Ea. apply a_apart; lia. }
  split.
  - apply (state_step fin1 fin1 (fun i j => rs <= i < rl /\ ks <= j < kl) (upto_ ks) _ σ); [done|deps|deps|intros; apply Hun; lia|lia|intros; by left| |].
    + intros i j Hj Hi Hf. destruct (decide (rs <= i < rl /\ ks <= j < kl)) as [[Hin Hjn]|Hd].
      * right. destruct (Z.ltb_spec i rs); [lia|]. destruct (Z.ltb_spec i rl); [|lia]. destruct (Z.ltb_spec j kl); [|lia]. cbn [andb].
        specialize (G1 (i - rs) (j - ks) ltac:(split; lia)). rewrite Ea in G1. replace (rs + (i - rs)) with i in G1 by lia. replace (ks + (j - ks)) with j in G1 by lia.
        apply (fun H1 H2 H3 H4 H5 H6 => taken_away i j σ σ' _ H1 H2 H3 H4 H5 H6 G1); [done|lia|lia| | |intros k Hk; f_equal; f_equal; lia].
        -- rewrite (st_part _ _ _ HS i j Hj Hi Hf). destruct (Z.ltb_spec i rs); [lia|]. destruct (Z.ltb_spec j ks); [lia|]. by rewrite andb_false_r.
        -- intros k Hk. destruct (Hun j k ltac:(lia) ltac:(lia)); [lia|]. destruct (Hun i k ltac:(lia) ltac:(lia)); [lia|]. done.
      * left. split; [done|]. split; [done|]. destruct (Z.ltb_spec i rs), (Z.ltb_spec i rl), (Z.ltb_spec j ks), (Z.ltb_spec j kl); cbn [andb]; done || lia.
    + intros b Hb _. apply G2. intros i' j' [Hj' Hi']. rewrite Ea. apply Hb; lia.
  - intros i k Hi Hk. destruct (Hun i k ltac:(lia) ltac:(lia)) as [|E]; [lia|]. rewrite E, <- Hcopy by done. apply G2. intros i' j' [Hj' Hi']. rewrite Ea. apply t_apart; lia.
Qed.

Lemma lower_ok_ σ : state fin1 (upto_ rs) σ -> copy_holds σ ->
  state fin1 (fun i _ => if i <? rl then jl else js) (OneLower F one tmp (A + (rs + n * rs)) (rl - rs) (jl - js) n σ).
Proof.
  intros HS Hcopy. destruct (OneLower_ok F one tmp (A + (rs + n * rs)) (rl - rs) (jl - js) n σ ltac:(lia) ltac:(lia) Hsub) as [G1 G2].
  { intros i j i' k Hj Hi Hi' Hk. pose proof (t_apart (rs + i') (js + k) (rs + i) (rs + j) ltac:(lia) ltac:(lia) ltac:(lia) ltac:(lia)). lia. }
  set (σ' := OneLower _ _ _ _ _ _ _ _) in *.
  assert (forall i j, A + (rs + n * rs) + (i + n * j) = a_ (rs + i) (rs + j)) as Ea by (intros; lia).
  assert (forall i j, 0 <= i < n -> 0 <= j < n -> (rs <= j <= i /\ i < rl) \/ σ' (a_ i j) = σ (a_ i j)) as Hun.
  { intros i j Hi Hj. destruct (decide (rs <= j <= i /\ i < rl)) as [|Hd]; [by left|]. right. apply G2. intros i' j' [Hj' Hi']. rewrite Ea. apply a_apart; lia. }
  apply (state_step fin1 fin1 (fun i j => rs <= j <= i /\ i < rl) (upto_ rs) _ σ); [done|deps|deps|intros; apply Hun; lia|lia|intros; by left| |].
  - intros i j Hj Hi Hf. destruct (decide (rs <= j <= i /\ i < rl)) as [[Hin Hjn]|Hd].
    + right. destruct (Z.ltb_spec i rl); [|lia].
      specialize (G1 (i - rs) (j - rs) ltac:(split; lia)). rewrite Ea in G1. replace (rs + (i - rs)) with i in G1 by lia. replace (rs + (j - rs)) with j in G1 by lia.
      apply (fun H1 H2 H3 H4 H5 H6 => taken_away i j σ σ' _ H1 H2 H3 H4 H5 H6 G1); [done|lia|lia| | |].
      * rewrite (st_part _ _ _ HS i j Hj Hi Hf). destruct (Z.ltb_spec i rs); [lia|]. destruct (Z.ltb_spec j rs); [lia|]. by rewrite andb_false_r.
      * intros k Hk. destruct (Hun j k ltac:(lia) ltac:(lia)); [lia|]. destruct (Hun i k ltac:(lia) ltac:(lia)); [lia|]. done.
      * intros k Hk. cbn beta. replace (tmp + (j - rs + (rl - rs) * k)) with (t_ j (k + js)) by lia. rewrite (Hcopy j (k + js)) by lia. f_equal. f_equal. lia.
    + left. split; [done|]. split; [done|]. destruct (Z.ltb_spec i rs), (Z.ltb_spec i rl), (Z.ltb_spec j rs); cbn [andb]; done || lia.
  - intros b Hb _. apply G2. intros i' j' [Hj' Hi']. rewrite Ea. apply Hb; lia.
Qed.
End Piece.

Lemma upper_ok js : js < n -> js < upper BS js n <= n /\ upper BS js n - js <= BS /\ upper BS js n = Z.min (js + BS) n.
Proof. intros H. unfold upper. destruct (Z.ltb_spec n (js + BS)); lia. Qed.
Lemma upper_whole ks rs jl m m' : 0 <= m -> ks = jl + BS * m -> rs = jl + BS * m' -> ks < rs < n -> ks + BS <= rs /\ upper BS ks n = ks + BS.
Proof. intros Hm -> -> H. assert (m + 1 <= m') by nia. assert (jl + BS * m + BS <= jl + BS * m') by nia. split; [done|]. unfold upper. destruct (Z.ltb_spec n (jl + BS * m + BS)); lia. Qed.

(** One piece of rows: divided, and its products taken away from the rest of the rows. *)
Lemma piece_ok js jl rs m σ : 0 <= js < jl -> jl - js <= BS -> 0 <= m -> rs = jl + BS * m -> rs < n -> let rl := upper BS rs n in
  state (fun i j => j < js \/ j < jl /\ i < rs) (fun i _ => if i <? rs then jl else js) σ ->
  state (fun i j => j < js \/ j < jl /\ i < rl) (fun i _ => if i <? rl then jl else js)
    (let σ := CopyBlock A tmp n rs js rl jl σ in
     let σ := OneDiv F one (A + (js + n * js)) tmp (jl - js) (rl - rs) n σ in
     let σ := CopyBlockBack A tmp n rs js rl jl σ in
     let '(_, σ) := steps BS rs jl σ (fun ks σ =>
       let kl := upper BS ks n in
       OneMatmat F tmp (A + (ks + n * js)) (A + (rs + n * ks)) (kl - ks) (jl - js) (rl - rs) n n σ) in
     OneLower F one tmp (A + (rs + n * rs)) (rl - rs) (jl - js) n σ).
Proof.
  intros Hjs Hw Hm Ers Hrs rl HS. destruct (upper_ok rs Hrs) as (Hrl & Hh & _). fold rl in Hrl, Hh. assert (jl <= rs) as Hjr by nia.
  destruct (divide_ok js jl rs rl Hjs ltac:(lia) ltac:(lia) Hw Hh σ HS) as [HS1 Hc1]. cbn zeta in *. set (σ1 := CopyBlockBack _ _ _ _ _ _ _ _) in *.
  match goal with |- context [steps BS rs jl σ1 ?body] => destruct (steps_ok (fun ks σ => (exists m, 0 <= m /\ ks = jl + BS * m) /\ ks <= rs /\
      state (fun i j => j < js \/ j < jl /\ i < rl) (fun i j => if i <? rs then jl else if (i <? rl) && (j <? ks) then jl else js) σ /\ copy_holds js jl rs rl σ) BS rs jl σ1 body)
      as [(_ & Hk1 & HS2 & Hc2) Hk2]; [lia| | |destruct (steps BS rs jl σ1 body) as [ks σ2]; cbn [fst snd] in *] end.
  - split; [exists 0; lia|]. split; [done|]. split; [|done]. revert HS1. apply state_ext; [done|]. intros i j Hj Hi Hf.
    destruct (Z.ltb_spec i rs), (Z.ltb_spec i rl), (Z.ltb_spec j jl); cbn [andb]; done || lia.
  - intros ks σ2 Hks ((m' & Hm' & Eks) & Hle & HS2 & Hc2). destruct (upper_whole ks rs jl m' m Hm' Eks Ers ltac:(lia)) as [Hnext ->].
    destruct (matmat_ok js jl rs rl Hjs ltac:(lia) ltac:(lia) Hw Hh ks (ks + BS) σ2 ltac:(nia) Hnext HS2 Hc2) as [HS3 Hc3].
    split; [exists (m' + 1); lia|]. done.
  - assert (ks = rs) as -> by lia. apply (lower_ok_ js jl rs rl Hjs ltac:(lia) ltac:(lia) Hw Hh σ2 HS2 Hc2).
Qed.

(** The whole block is final. *)
Lemma BFac_ok : state (fun _ j => j < n) (fun _ _ => n) (BFac F one sqrt BS tmp A n σ0).
Proof.
  unfold BFac.
  match goal with |- context [steps BS n 0 σ0 ?body] => destruct (steps_ok (fun js σ => 0 <= js /\ state (fun _ j => j < Z.min js n) (fun _ _ => Z.min js n) σ) BS n 0 σ0 body) as [[H1 H2] H3];
    [lia| | |destruct (steps BS n 0 σ0 body) as [js σ]; cbn [fst snd] in *; by rewrite Z.min_r in H2 by lia] end.
  - split; [lia|]. rewrite Z.min_l by lia. split; [lia| |done]. intros i j Hj Hi _. unfold left_of. by rewrite less_none.
  - intros js σ Hjs [Hjs0 HS]. rewrite Z.min_l in HS by lia. split; [lia|]. destruct (upper_ok js Hjs) as (Hjl & Hw & <-). cbn zeta. set (jl := upper BS js n) in *.
    pose proof (diagonal_ok js jl σ ltac:(lia) ltac:(lia) HS) as HS1. set (σ1 := OneFac _ _ _ _ _ _) in *.
    match goal with |- context [steps BS n jl σ1 ?body] => destruct (steps_ok (fun rs σ => (exists m, 0 <= m /\ rs = jl + BS * m) /\
      state (fun i j => j < js \/ j < jl /\ i < Z.min rs n) (fun i _ => if i <? Z.min rs n then jl else js) σ) BS n jl σ1 body) as [[_ HS2] Hend];
      [lia| | |destruct (steps BS n jl σ1 body) as [rs σ2]; cbn [fst snd] in *] end.
    + split; [exists 0; lia|]. rewrite Z.min_l by lia. revert HS1. apply state_ext; [done|]. intros i j Hj Hi Hf. destruct (Z.ltb_spec i jl); [lia|done].
    + intros rs τ Hrs [(m & Hm & Ers) HSτ]. split; [exists (m + 1); lia|]. rewrite Z.min_l in HSτ by lia. destruct (upper_ok rs Hrs) as (_ & _ & Erl). rewrite <- Erl.
      apply (piece_ok js jl rs m τ); [lia|lia|lia|done|lia|done].
    + rewrite Z.min_r in HS2 by lia. revert HS2. apply state_ext; [lia|]. intros i j Hj Hi Hf. destruct (Z.ltb_spec i n); [done|lia].
Qed.
End Factor.
End Blocked.
End BfacMain.
