(* ===== verification/BfacBlocks.v ===== *)
(** * BfacBlocks: the kernels on whole blocks, below the diagonal

    [BMod] and [BLMod] take products away, [BDiv] divides; in which pieces they go
    through their blocks makes no difference. *)

From stdpp Require Import base list option list_numbers.
From S2P Require Import Prelude Doubles Bfac BfacLoops BfacKernels.
Local Open Scope Z_scope.

(** The side conditions on what a cell depends on are linear. *)
Ltac row_deps := cbn beta; intros; repeat match goal with |- context [?a <? ?b] => destruct (Z.ltb_spec a b) | H : context [?a <? ?b] |- _ => destruct (Z.ltb_spec a b) end; cbn [andb] in *; lia.

Module BfacBlocks.
Import Bfac BfacLoops BfacKernels.

Lemma upper_min BS k b : 0 < BS -> k < b -> k < upper BS k b <= b /\ upper BS k b - k <= BS /\ upper BS k b = Z.min (k + BS) b.
Proof. intros HBS H. unfold upper. destruct (Z.ltb_spec b (k + BS)); lia. Qed.

Section Blocks.
Context {V : Type} (F : arith V) (one : V) (BS : Z) (HBS : 0 < BS).
Implicit Types (σ : Z -> V).
Local Abbreviation less := (BfacLoops.less F).

(** ** Pieces of a block, copied or not *)

(** [p] holds rows [r0 <= i < r1] and columns [k0 <= k < k1] of [X], as it was. *)
Definition holds_copy (σ0 : Z -> V) (p X s r0 r1 k0 k1 : Z) σ : Prop :=
  forall i k, r0 <= i < r1 -> k0 <= k < k1 -> σ (p + ((i - r0) + (r1 - r0) * (k - k0))) = σ0 (X + (i + s * k)).

(** Cells from which products are taken away, row by row: in row [i], [q i] of them.
    Besides the cells, only the copy changes. *)
Section Rows.
Context (addr : Z -> Z -> Z) (R : Z -> Z -> Prop) (f : Z -> Z -> Z -> V) (σ0 : Z -> V) (tmp : Z).
Context (Hinj : forall i j i' j', R i j -> R i' j' -> addr i j = addr i' j' -> i = i' /\ j = j').
Definition rows (q : Z -> Z -> Z) σ : Prop :=
  (forall i j, R i j -> σ (addr i j) = less (σ0 (addr i j)) (f i j) 0 (q i j)) /\
  forall b, (forall i j, R i j -> b <> addr i j) -> (forall y, 0 <= y < BS * BS -> b <> tmp + y) -> σ b = σ0 b.

Lemma rows_start : rows (fun _ _ => 0) σ0.
Proof. split; [|done]. intros i j Hc. by rewrite less_none. Qed.
Lemma rows_ext q q' σ : (forall i j, R i j -> q i j = q' i j) -> rows q σ -> rows q' σ.
Proof. intros H [H1 H2]. split; [|done]. intros i j Hc. rewrite <- H by done. by apply H1. Qed.
(** Products [k0] to [k1 - 1] are taken away from the cells [N]. *)
Lemma rows_step (N : Z -> Z -> Prop) q q' k0 k1 σ σ' : rows q σ -> 0 <= k0 <= k1 ->
  (forall i j, R i j -> N i j -> q i j = k0 /\ q' i j = k1 /\ σ' (addr i j) = less (σ (addr i j)) (f i j) k0 k1) ->
  (forall i j, R i j -> N i j \/ q' i j = q i j /\ σ' (addr i j) = σ (addr i j)) ->
  (forall b, (forall i j, R i j -> b <> addr i j) -> (forall y, 0 <= y < BS * BS -> b <> tmp + y) -> σ' b = σ b) -> rows q' σ'.
Proof.
  intros [H1 H2] Hk Hin Hun Hout. split.
  - intros i j Hc. destruct (Hun i j Hc) as [HN|[-> ->]]; [|by apply H1]. destruct (Hin i j Hc HN) as (E & -> & ->). rewrite (H1 i j Hc), E. by apply less_app.
  - intros b Hb Ht. rewrite Hout by done. by apply H2.
Qed.
(** A piece of [X], which the cells are not part of, is copied. *)
Lemma rows_copy X s r0 r1 k0 k1 q σ : rows q σ -> 0 <= r0 <= r1 -> r1 <= s -> 0 <= k0 <= k1 -> r1 - r0 <= BS -> k1 - k0 <= BS ->
  (forall i k i' j', r0 <= i < r1 -> k0 <= k < k1 -> R i' j' -> X + (i + s * k) <> addr i' j') ->
  (forall y, 0 <= y < BS * BS -> (forall i j, R i j -> tmp + y <> addr i j) /\ forall i k, r0 <= i < r1 -> k0 <= k < k1 -> tmp + y <> X + (i + s * k)) ->
  rows q (CopyBlock X tmp s r0 k0 r1 k1 σ) /\ holds_copy σ0 tmp X s r0 r1 k0 k1 (CopyBlock X tmp s r0 k0 r1 k1 σ).
Proof.
  intros [H1 H2] Hr Hr1 Hk Hh Hw HX HT.
  assert (forall i k, r0 <= i < r1 -> k0 <= k < k1 -> 0 <= (i - r0) + (r1 - r0) * (k - k0) < BS * BS) as Hy by (intros i k Hi Hkk; nia).
  destruct (CopyBlock_ok X tmp s r0 k0 r1 k1 σ ltac:(lia) ltac:(lia)) as [C1 C2].
  { intros i k i' k' Hi Hkk Hi' Hk'. destruct (HT _ (Hy i k Hi Hkk)) as (_ & H). specialize (H i' k' ltac:(lia) ltac:(lia)). lia. }
  set (σ' := CopyBlock _ _ _ _ _ _ _ _) in *.
  assert (forall b, (forall y, 0 <= y < BS * BS -> b <> tmp + y) -> σ' b = σ b) as Ho.
  { intros b Hb. apply C2. intros i k Hi Hkk. rewrite (Z.mul_comm (k - k0)). by apply Hb, Hy. }
  split; [split|].
  - intros i j Hc. rewrite Ho; [by apply H1|]. intros y Hy' E. destruct (HT y Hy') as (H & _). by apply (H i j Hc).
  - intros b Hb Ht. rewrite Ho by done. by apply H2.
  - intros i k Hi Hkk. specialize (C1 i k Hi Hkk). rewrite (Z.mul_comm (k - k0)) in C1. rewrite C1. replace (X + (i + k * s)) with (X + (i + s * k)) by lia. apply H2.
    + intros i' j' Hc. by apply HX.
    + intros y Hy' E. destruct (HT y Hy') as (_ & H). by apply (H i k ltac:(lia) ltac:(lia)).
Qed.
End Rows.

(** ** [BMod] *)

Section Mod.
Context (tmp n1 n2 n3 A B C : Z) (σ0 : Z -> V) (Hn1 : 0 <= n1) (Hn2 : 0 <= n2) (Hn3 : 0 <= n3).
Local Abbreviation c_ i j := (C + (i + n3 * j)).
Local Abbreviation a_ j k := (A + (j + n1 * k)).
Local Abbreviation b_ i k := (B + (i + n3 * k)).
Context (HCA : forall i j j' k, 0 <= i < n3 -> 0 <= j < n1 -> 0 <= j' < n1 -> 0 <= k < n2 -> a_ j' k <> c_ i j).
Context (HCB : forall i j i' k, 0 <= i < n3 -> 0 <= j < n1 -> 0 <= i' < n3 -> 0 <= k < n2 -> b_ i' k <> c_ i j).
Context (HT : forall y, 0 <= y < BS * BS -> (forall i j, 0 <= i < n3 -> 0 <= j < n1 -> tmp + y <> c_ i j) /\ (forall j k, 0 <= j < n1 -> 0 <= k < n2 -> tmp + y <> a_ j k) /\
  forall i k, 0 <= i < n3 -> 0 <= k < n2 -> tmp + y <> b_ i k).
Local Abbreviation R := (fun i j => 0 <= i < n3 /\ 0 <= j < n1).
Local Abbreviation prod := (fun i j k => fmul F (σ0 (a_ j k)) (σ0 (b_ i k))).
Local Abbreviation mrows := (rows (fun i j => c_ i j) R prod σ0 tmp).

Lemma c_apart i j i' j' : 0 <= i < n3 -> 0 <= i' < n3 -> i <> i' \/ j <> j' -> c_ i j <> c_ i' j'.
Proof. intros Hi Hi' Hne E. destruct (addr_inj n3 i j i' j'); lia. Qed.

Lemma mod_piece p r0 r1 k0 k1 q σ : mrows q σ -> 0 <= r0 <= r1 -> r1 <= n3 -> 0 <= k0 <= k1 -> k1 <= n2 -> holds_copy σ0 p B n3 r0 r1 k0 k1 σ ->
  (forall i k i' j', r0 <= i < r1 -> k0 <= k < k1 -> 0 <= i' < n3 -> 0 <= j' < n1 -> p + ((i - r0) + (r1 - r0) * (k - k0)) <> c_ i' j') ->
  (forall i j, R i j -> r0 <= i < r1 -> q i j = k0) ->
  mrows (fun i j => if (r0 <=? i) && (i <? r1) then k1 else q i j) (OneMatmat F p (A + k0 * n1) (C + r0) n1 (k1 - k0) (r1 - r0) n3 n1 σ).
Proof.
  intros HR Hr Hr1 Hk Hk1 Hp Hpc Hq.
  destruct (OneMatmat_ok F p (A + k0 * n1) (C + r0) n1 (k1 - k0) (r1 - r0) n3 n1 σ Hn1 ltac:(lia) ltac:(lia)) as [G1 G2].
  { intros i j i' k Hi Hj Hi' Hkk. specialize (Hpc (r0 + i') (k0 + k) (r0 + i) j ltac:(lia) ltac:(lia) ltac:(lia) Hj). lia. }
  { intros i j j' k Hi Hj Hj' Hkk. pose proof (HCA (r0 + i) j j' (k0 + k) ltac:(lia) Hj Hj' ltac:(lia)). lia. }
  set (σ' := OneMatmat _ _ _ _ _ _ _ _ _ _) in *. assert (forall i j, C + r0 + (i + n3 * j) = c_ (r0 + i) j) as Ec by (intros; lia).
  apply (rows_step _ _ _ _ _ (fun i _ => r0 <= i < r1) q _ k0 k1 σ); [done|lia| | |].
  - intros i j [Hi Hj] HN. split; [by apply Hq|]. split; [destruct (Z.leb_spec r0 i), (Z.ltb_spec i r1); cbn [andb]; done || lia|].
    specialize (G1 (i - r0) j ltac:(split; lia)). rewrite Ec in G1. replace (r0 + (i - r0)) with i in G1 by lia. rewrite G1, (less_rebase F _ _ k0 k1). apply less_ext. intros k Hkk.
    f_equal; [|specialize (Hp i (k + k0) HN ltac:(lia)); rewrite <- Hp; f_equal; lia]. replace (A + k0 * n1 + (j + n1 * k)) with (a_ j (k + k0)) by lia. destruct HR as [_ Hout]. apply Hout.
    + intros i' j' [Hi' Hj']. apply HCA; lia.
    + intros y Hy E. destruct (HT y Hy) as (_ & H & _). by apply (H j (k + k0) ltac:(lia) ltac:(lia)).
  - intros i j [Hi Hj]. destruct (decide (r0 <= i < r1)) as [|Hd]; [by left|]. right. split; [destruct (Z.leb_spec r0 i), (Z.ltb_spec i r1); cbn [andb]; done || lia|].
    apply G2. intros i' j' [Hj' Hi']. rewrite Ec. apply c_apart; lia.
  - intros b Hb _. apply G2. intros i' j' [Hj' Hi']. rewrite Ec. apply Hb. lia.
Qed.

(** A piece of [B] is copied before. *)
Lemma copy_piece r0 r1 k0 k1 q σ : mrows q σ -> 0 <= r0 <= r1 -> r1 <= n3 -> 0 <= k0 <= k1 -> k1 <= n2 -> r1 - r0 <= BS -> k1 - k0 <= BS ->
  mrows q (CopyBlock B tmp n3 r0 k0 r1 k1 σ) /\ holds_copy σ0 tmp B n3 r0 r1 k0 k1 (CopyBlock B tmp n3 r0 k0 r1 k1 σ).
Proof.
  intros HR Hr Hr1 Hk Hk1 Hh Hw. apply rows_copy; [done|lia|lia|lia|lia|lia| |].
  - intros i k i' j' Hi Hkk [Hi' Hj']. apply HCB; lia.
  - intros y Hy. destruct (HT y Hy) as (H1 & _ & H3). split; [intros i j [Hi Hj]; by apply H1|]. intros i k Hi Hkk. apply H3; lia.
Qed.

Lemma whole_holds k0 k1 q σ : mrows q σ -> 0 <= k0 -> k1 <= n2 -> holds_copy σ0 (B + k0 * n3) B n3 0 n3 k0 k1 σ.
Proof.
  intros [_ H] Hk0 Hk1 i k Hi Hk. replace (B + k0 * n3 + (i - 0 + (n3 - 0) * (k - k0))) with (b_ i k) by lia. apply H.
  - intros i' j' [Hi' Hj']. apply HCB; lia.
  - intros y Hy E. destruct (HT y Hy) as (_ & _ & HB). by apply (HB i k ltac:(lia) ltac:(lia)).
Qed.
Lemma whole_piece k0 k1 q σ : mrows q σ -> 0 <= k0 <= k1 -> k1 <= n2 -> (forall i j, R i j -> q i j = k0) ->
  mrows (fun _ _ => k1) (OneMatmat F (B + k0 * n3) (A + k0 * n1) C n1 (k1 - k0) n3 n3 n1 σ).
Proof.
  intros HR Hk Hk1 Hq. pose proof (mod_piece (B + k0 * n3) 0 n3 k0 k1 q σ HR ltac:(lia) ltac:(lia) Hk Hk1 (whole_holds k0 k1 q σ HR ltac:(lia) Hk1)) as H.
  rewrite Z.sub_0_r, Z.add_0_r in H. eapply rows_ext; [|apply H].
  - intros i j [Hi Hj]. cbn beta. destruct (Z.leb_spec 0 i), (Z.ltb_spec i n3); cbn [andb]; done || lia.
  - intros i k i' j' Hi Hkk Hi' Hj'. pose proof (HCB i' j' i k ltac:(lia) ltac:(lia) ltac:(lia) ltac:(lia)). lia.
  - intros i j Hc _. by apply Hq.
Qed.

(** Whatever the pieces, every element of [C] has the products of its row of [B] and
    its row of [A] taken away one after the other, in the order of the columns. *)
Lemma BMod_ok : mrows (fun _ _ => n2) (BMod F BS tmp n1 n2 n3 A B C σ0).
Proof.
  unfold BMod. destruct (Z.leb_spec (n2 * n3) (BS * BS)) as [Hle|Hbig].
  { pose proof (whole_piece 0 n2 (fun _ _ => 0) σ0 (rows_start _ _ _ _ _) ltac:(lia) ltac:(lia) ltac:(done)) as H. rewrite !Z.mul_0_l, !Z.add_0_r, Z.sub_0_r in H. exact H. }
  assert (0 < n3) as Hn3' by nia. destruct (Z.ltb_spec n3 (Z.quot FitsInCache 16)) as [Hsmall|_].
  - set (hbs := Z.quot FitsInCache n3). assert (0 < hbs) as Hh.
    { change (Z.quot FitsInCache 16) with 128 in Hsmall. unfold hbs. rewrite Z.quot_div_nonneg by (unfold FitsInCache; lia). apply Z.div_str_pos. unfold FitsInCache. lia. }
    match goal with |- context [steps hbs n2 0 σ0 ?body] => destruct (steps_ok (fun ks σ => 0 <= ks /\ mrows (fun _ _ => Z.min ks n2) σ) hbs n2 0 σ0 body) as [[_ H] Hend];
      [lia| | |destruct (steps hbs n2 0 σ0 body) as [ks σ]; cbn [fst snd] in *; by rewrite Z.min_r in H by lia] end.
    + split; [lia|]. rewrite Z.min_l by lia. apply rows_start.
    + intros ks σ Hks [Hks0 HR]. split; [lia|]. rewrite Z.min_l in HR by lia. replace (if n2 <? ks + hbs then n2 else ks + hbs) with (Z.min (ks + hbs) n2) by (destruct (Z.ltb_spec n2 (ks + hbs)); lia).
      apply (whole_piece ks _ (fun _ _ => ks)); [done|lia|lia|done].
  - match goal with |- context [steps BS n3 0 σ0 ?body] => destruct (steps_ok (fun rs σ => 0 <= rs /\ mrows (fun i _ => if i <? Z.min rs n3 then n2 else 0) σ) BS n3 0 σ0 body) as [[_ H] Hend];
      [lia| | |destruct (steps BS n3 0 σ0 body) as [rs σ]; cbn [fst snd] in *] end.
    + split; [lia|]. rewrite Z.min_l by lia. eapply rows_ext; [|apply rows_start]. intros i j [Hi Hj]. cbn beta. destruct (Z.ltb_spec i 0); [lia|done].
    + intros rs σ Hrs [Hrs0 HR]. split; [lia|]. rewrite Z.min_l in HR by lia. destruct (upper_min BS rs n3 HBS Hrs) as (Hrl & Hh & <-). cbn zeta. set (rl := upper BS rs n3) in *.
      match goal with |- context [steps BS n2 0 σ ?body] => destruct (steps_ok (fun ks σ => 0 <= ks /\ mrows (fun i _ => if i <? rs then n2 else if i <? rl then Z.min ks n2 else 0) σ) BS n2 0 σ body)
        as [[_ H] Hend]; [lia| | |destruct (steps BS n2 0 σ body) as [ks τ]; cbn [fst snd] in *] end.
      * split; [lia|]. rewrite Z.min_l by lia. revert HR. apply rows_ext. intros i j [Hi Hj]. destruct (i <? rs), (i <? rl); done.
      * intros ks τ Hks [Hks0 HR1]. split; [lia|]. rewrite Z.min_l in HR1 by lia. destruct (upper_min BS ks n2 HBS Hks) as (Hkl & Hw & <-). set (kl := upper BS ks n2) in *.
        destruct (copy_piece rs rl ks kl _ τ HR1 ltac:(lia) ltac:(lia) ltac:(lia) ltac:(lia) Hh Hw) as [HR2 Hcopy]. eapply rows_ext; [|apply (mod_piece tmp rs rl ks kl _ _ HR2); [lia|lia|lia|lia|done| |]].
        -- intros i j [Hi Hj]. cbn beta. destruct (Z.leb_spec rs i), (Z.ltb_spec i rs), (Z.ltb_spec i rl); cbn [andb]; done || lia.
        -- intros i k i' j' Hi Hk Hi' Hj'. destruct (HT ((i - rs) + (rl - rs) * (k - ks)) ltac:(nia)) as (H & _). by apply H.
        -- intros i j [Hi Hj] Hin. destruct (Z.ltb_spec i rs), (Z.ltb_spec i rl); done || lia.
      * rewrite Z.min_r in H by lia. revert H. apply rows_ext. intros i j [Hi Hj]. destruct (Z.ltb_spec i rs), (Z.ltb_spec i rl); done || lia.
    + rewrite Z.min_r in H by lia. revert H. apply rows_ext. intros i j [Hi Hj]. destruct (Z.ltb_spec i n3); [done|lia].
Qed.
End Mod.

(** ** [BLMod] *)

Section LMod.
Context (Hsub : sub_add F) (tmp n1 n2 A C : Z) (σ0 : Z -> V) (Hn1 : 0 <= n1) (Hn2 : 0 <= n2).
Local Abbreviation c_ i j := (C + (i + n1 * j)).
Local Abbreviation a_ i k := (A + (i + n1 * k)).
Context (HCA : forall i j i' k, 0 <= j <= i -> i < n1 -> 0 <= i' < n1 -> 0 <= k < n2 -> a_ i' k <> c_ i j).
Context (HT : forall y, 0 <= y < BS * BS -> (forall i j, 0 <= j <= i -> i < n1 -> tmp + y <> c_ i j) /\ forall i k, 0 <= i < n1 -> 0 <= k < n2 -> tmp + y <> a_ i k).
Local Abbreviation R := (fun i j => 0 <= j <= i /\ i < n1).
Local Abbreviation prod := (fun i j k => fmul F (σ0 (a_ j k)) (σ0 (a_ i k))).
Local Abbreviation lrows := (rows (fun i j => c_ i j) R prod σ0 tmp).

Lemma l_apart i j i' j' : 0 <= i < n1 -> 0 <= i' < n1 -> i <> i' \/ j <> j' -> c_ i j <> c_ i' j'.
Proof. intros Hi Hi' Hne E. destruct (addr_inj n1 i j i' j'); lia. Qed.
Lemma l_reads q σ i k : lrows q σ -> 0 <= i < n1 -> 0 <= k < n2 -> σ (a_ i k) = σ0 (a_ i k).
Proof.
  intros [_ H] Hi Hk. apply H; [intros i' j' [Hj' Hi']; apply HCA; lia|]. intros y Hy E. destruct (HT y Hy) as (_ & Ha). by apply (Ha i k Hi Hk).
Qed.

(** Left of the square on the diagonal. *)
Lemma lmat_piece rs rl k0 k1 q σ : lrows q σ -> 0 <= rs < rl -> rl <= n1 -> 0 <= k0 <= k1 -> k1 <= n2 -> rl - rs <= BS -> k1 - k0 <= BS -> holds_copy σ0 tmp A n1 rs rl k0 k1 σ ->
  (forall i j, R i j -> rs <= i < rl -> q i j = k0) ->
  let σ' := OneMatmat F tmp (A + k0 * n1) (C + rs) rs (k1 - k0) (rl - rs) n1 n1 σ in
  lrows (fun i j => if (rs <=? i) && (i <? rl) && (j <? rs) then k1 else q i j) σ' /\ holds_copy σ0 tmp A n1 rs rl k0 k1 σ'.
Proof.
  intros HR Hr Hrl Hk Hk1 Hh Hw Hp Hq. cbn zeta.
  assert (forall i k, rs <= i < rl -> k0 <= k < k1 -> 0 <= (i - rs) + (rl - rs) * (k - k0) < BS * BS) as Hy by (intros i k Hi Hkk; nia).
  destruct (OneMatmat_ok F tmp (A + k0 * n1) (C + rs) rs (k1 - k0) (rl - rs) n1 n1 σ ltac:(lia) ltac:(lia) ltac:(lia)) as [G1 G2].
  { intros i j i' k Hi Hj Hi' Hkk. destruct (HT _ (Hy (rs + i') (k0 + k) ltac:(lia) ltac:(lia))) as [H _]. specialize (H (rs + i) j ltac:(lia) ltac:(lia)). lia. }
  { intros i j j' k Hi Hj Hj' Hkk. pose proof (HCA (rs + i) j j' (k0 + k) ltac:(lia) ltac:(lia) ltac:(lia) ltac:(lia)). lia. }
  set (σ' := OneMatmat _ _ _ _ _ _ _ _ _ _) in *. assert (forall i j, C + rs + (i + n1 * j) = c_ (rs + i) j) as Ec by (intros; lia). split.
  - apply (rows_step _ _ _ _ _ (fun i j => rs <= i < rl /\ j < rs) q _ k0 k1 σ); [done|lia| | |].
    + intros i j [Hj Hi] [HN Hjr]. split; [by apply Hq|]. split; [destruct (Z.leb_spec rs i), (Z.ltb_spec i rl), (Z.ltb_spec j rs); cbn [andb]; done || lia|].
      specialize (G1 (i - rs) j ltac:(split; lia)). rewrite Ec in G1. replace (rs + (i - rs)) with i in G1 by lia. rewrite G1, (less_rebase F _ _ k0 k1). apply less_ext. intros k Hkk.
      f_equal; [|specialize (Hp i (k + k0) HN ltac:(lia)); rewrite <- Hp; f_equal; lia]. replace (A + k0 * n1 + (j + n1 * k)) with (a_ j (k + k0)) by lia. apply (l_reads q); [done|lia|lia].
    + intros i j [Hj Hi]. destruct (decide (rs <= i < rl /\ j < rs)) as [|Hd]; [by left|]. right. split; [destruct (Z.leb_spec rs i), (Z.ltb_spec i rl), (Z.ltb_spec j rs); cbn [andb]; done || lia|].
      apply G2. intros i' j' [Hj' Hi']. rewrite Ec. apply l_apart; lia.
    + intros b Hb _. apply G2. intros i' j' [Hj' Hi']. rewrite Ec. apply Hb. lia.
  - intros i k Hi Hkk. rewrite <- (Hp i k Hi Hkk). apply G2. intros i' j' [Hj' Hi']. rewrite Ec. destruct (HT _ (Hy i k Hi Hkk)) as [H _]. apply H; lia.
Qed.
(** The square. *)
Lemma llow_piece p s rs rl k0 k1 q σ : lrows q σ -> 0 <= rs <= rl -> rl <= n1 -> 0 <= k0 <= k1 -> k1 <= n2 -> s = rl - rs -> holds_copy σ0 p A n1 rs rl k0 k1 σ ->
  (forall i k i' j', rs <= i < rl -> k0 <= k < k1 -> R i' j' -> p + ((i - rs) + (rl - rs) * (k - k0)) <> c_ i' j') ->
  (forall i j, R i j -> rs <= j -> i < rl -> q i j = k0) ->
  lrows (fun i j => if (rs <=? j) && (i <? rl) then k1 else q i j) (OneLower F one p (C + (rs + rs * n1)) s (k1 - k0) n1 σ).
Proof.
  intros HR Hr Hrl Hk Hk1 -> Hp Hpc Hq.
  destruct (OneLower_ok F one p (C + (rs + rs * n1)) (rl - rs) (k1 - k0) n1 σ ltac:(lia) ltac:(lia) Hsub) as [G1 G2].
  { intros i j i' k Hj Hi Hi' Hkk. specialize (Hpc (rs + i') (k0 + k) (rs + i) (rs + j) ltac:(lia) ltac:(lia) ltac:(lia)). lia. }
  set (σ' := OneLower _ _ _ _ _ _ _ _) in *. assert (forall i j, C + (rs + rs * n1) + (i + n1 * j) = c_ (rs + i) (rs + j)) as Ec by (intros; lia).
  apply (rows_step _ _ _ _ _ (fun i j => rs <= j /\ i < rl) q _ k0 k1 σ); [done|lia| | |].
  - intros i j [Hj Hi] [HN Hir]. split; [by apply Hq|]. split; [destruct (Z.leb_spec rs j), (Z.ltb_spec i rl); cbn [andb]; done || lia|].
    specialize (G1 (i - rs) (j - rs) ltac:(split; lia)). rewrite Ec in G1. replace (rs + (i - rs)) with i in G1 by lia. replace (rs + (j - rs)) with j in G1 by lia.
    rewrite G1, (less_rebase F _ _ k0 k1). apply less_ext. intros k Hkk.
    rewrite <- (Hp i (k + k0)), <- (Hp j (k + k0)) by lia. f_equal; f_equal; lia.
  - intros i j [Hj Hi]. destruct (decide (rs <= j /\ i < rl)) as [|Hd]; [by left|]. right. split; [destruct (Z.leb_spec rs j), (Z.ltb_spec i rl); cbn [andb]; done || lia|].
    apply G2. intros i' j' [Hj' Hi']. rewrite Ec. apply l_apart; lia.
  - intros b Hb _. apply G2. intros i' j' [Hj' Hi']. rewrite Ec. apply Hb. lia.
Qed.

Lemma BLMod_ok : lrows (fun _ _ => n2) (BLMod F one BS tmp n1 n2 A C σ0).
Proof.
  unfold BLMod. destruct (Z.leb_spec (n1 * n2) (BS * BS)) as [Hle|Hbig].
  { pose proof (llow_piece A n1 0 n1 0 n2 (fun _ _ => 0) σ0 (rows_start _ _ _ _ _) ltac:(lia) ltac:(lia) ltac:(lia) ltac:(lia) ltac:(lia)) as H.
    rewrite Z.mul_0_l, !Z.add_0_r in H. replace (n2 - 0) with n2 in H by lia. eapply rows_ext; [|apply H].
    - intros i j [Hj Hi]. cbn beta. destruct (Z.leb_spec 0 j), (Z.ltb_spec i n1); cbn [andb]; done || lia.
    - intros i k Hi Hk. f_equal. lia.
    - intros i k i' j' Hi Hk [Hj' Hi']. pose proof (HCA i' j' i k ltac:(lia) ltac:(lia) ltac:(lia) ltac:(lia)). lia.
    - done. }
  match goal with |- context [steps BS n1 0 σ0 ?body] => destruct (steps_ok (fun rs σ => 0 <= rs /\ lrows (fun i _ => if i <? Z.min rs n1 then n2 else 0) σ) BS n1 0 σ0 body) as [[_ H] Hend];
    [lia| | |destruct (steps BS n1 0 σ0 body) as [rs σ]; cbn [fst snd] in *] end.
  - split; [lia|]. rewrite Z.min_l by lia. eapply rows_ext; [|apply rows_start]. intros i j [Hj Hi]. cbn beta. destruct (Z.ltb_spec i 0); [lia|done].
  - intros rs σ Hrs [Hrs0 HR]. split; [lia|]. rewrite Z.min_l in HR by lia. destruct (upper_min BS rs n1 HBS Hrs) as (Hrl & Hh & <-). cbn zeta. set (rl := upper BS rs n1) in *.
    match goal with |- context [steps BS n2 0 σ ?body] => destruct (steps_ok (fun ks σ => 0 <= ks /\ lrows (fun i _ => if i <? rs then n2 else if i <? rl then Z.min ks n2 else 0) σ) BS n2 0 σ body)
      as [[_ H] Hend]; [lia| | |destruct (steps BS n2 0 σ body) as [ks τ]; cbn [fst snd] in *] end.
    + split; [lia|]. rewrite Z.min_l by lia. revert HR. apply rows_ext. intros i j _. destruct (i <? rs), (i <? rl); done.
    + intros ks τ Hks [Hks0 HR1]. split; [lia|]. rewrite Z.min_l in HR1 by lia. destruct (upper_min BS ks n2 HBS Hks) as (Hkl & Hw & <-). set (kl := upper BS ks n2) in *.
      destruct (rows_copy _ _ _ _ _ A n1 rs rl ks kl _ τ HR1 ltac:(lia) ltac:(lia) ltac:(lia) Hh Hw) as [HR2 Hcopy].
      { intros i k i' j' Hi Hk [Hj' Hi']. apply HCA; lia. }
      { intros y Hy. destruct (HT y Hy) as [H1 H2]. split; [intros i j [Hj Hi]; by apply H1|]. intros i k Hi Hk. apply H2; lia. }
      destruct (lmat_piece rs rl ks kl _ _ HR2 ltac:(lia) ltac:(lia) ltac:(lia) ltac:(lia) Hh Hw Hcopy) as [HR3 Hcopy3].
      { intros i j [Hj Hi] Hin. destruct (Z.ltb_spec i rs), (Z.ltb_spec i rl); done || lia. }
      eapply rows_ext; [|apply (llow_piece tmp (rl - rs) rs rl ks kl _ _ HR3); [lia|lia|lia|lia|done|done| |]].
      * intros i j [Hj Hi]. cbn beta. destruct (Z.leb_spec rs j), (Z.leb_spec rs i), (Z.ltb_spec i rs), (Z.ltb_spec i rl), (Z.ltb_spec j rs); cbn [andb]; done || lia.
      * intros i k i' j' Hi Hk [Hj' Hi']. destruct (HT ((i - rs) + (rl - rs) * (k - ks)) ltac:(nia)) as (H & _). by apply H.
      * intros i j [Hj Hi] Hjr Hir. destruct (Z.leb_spec rs i), (Z.ltb_spec i rs), (Z.ltb_spec i rl), (Z.ltb_spec j rs); cbn [andb]; done || lia.
    + rewrite Z.min_r in H by lia. revert H. apply rows_ext. intros i j _. destruct (Z.ltb_spec i rs), (Z.ltb_spec i rl); done || lia.
  - rewrite Z.min_r in H by lia. revert H. apply rows_ext. intros i j [Hj Hi]. destruct (Z.ltb_spec i n1); [done|lia].
Qed.
End LMod.

(** ** [BDiv] *)

Section Divide.
Context (Hmul : mul_recip F one) (tmp n1 n3 A B : Z) (σ0 : Z -> V) (Hn1 : 0 <= n1) (Hn3 : 0 <= n3).
Local Abbreviation b_ i j := (B + (i + n3 * j)).
Local Abbreviation a_ j k := (A + (j + n1 * k)).
Context (HAB : forall i j j' k, 0 <= i < n3 -> 0 <= j < n1 -> 0 <= j' < n1 -> 0 <= k < n1 -> a_ j' k <> b_ i j).
Context (HT : forall y, 0 <= y < BS * BS -> (forall i j, 0 <= i < n3 -> 0 <= j < n1 -> tmp + y <> b_ i j) /\ forall j k, 0 <= j < n1 -> 0 <= k < n1 -> tmp + y <> a_ j k).

(** What is left of an element after [q] products with the solved columns. *)
Definition div_left (i j q : Z) σ : V := less (σ0 (b_ i j)) (fun k => fmul F (σ0 (a_ j k)) (σ (b_ i k))) 0 q.
Record divided (fin : Z -> Z -> Prop) (q : Z -> Z -> Z) σ : Prop := {
  di_fin i j : 0 <= i < n3 -> 0 <= j < n1 -> fin i j -> σ (b_ i j) = fdiv F (div_left i j j σ) (σ0 (a_ j j));
  di_part i j : 0 <= i < n3 -> 0 <= j < n1 -> ~ fin i j -> σ (b_ i j) = div_left i j (q i j) σ;
  di_out b : (forall i j, 0 <= i < n3 -> 0 <= j < n1 -> b <> b_ i j) -> (forall y, 0 <= y < BS * BS -> b <> tmp + y) -> σ b = σ0 b }.

Lemma div_stable i j q σ σ' : (forall k, 0 <= k < q -> σ' (b_ i k) = σ (b_ i k)) -> div_left i j q σ' = div_left i j q σ.
Proof. intros H. apply less_ext. intros k Hk. by rewrite H. Qed.
Lemma divided_ext (fin fin' : Z -> Z -> Prop) (q q' : Z -> Z -> Z) σ : (forall i j, 0 <= i < n3 -> 0 <= j < n1 -> fin i j <-> fin' i j) ->
  (forall i j, 0 <= i < n3 -> 0 <= j < n1 -> ~ fin i j -> q i j = q' i j) -> divided fin q σ -> divided fin' q' σ.
Proof.
  intros Hf Hq [S1 S2 S3]. split; [|intros i j Hi Hj H; rewrite <- Hq by (done || (rewrite Hf by done; done)); apply S2; [done|done|by rewrite Hf]|done].
  intros i j Hi Hj H. apply S1; [done|done|by apply Hf].
Qed.
Lemma divided_step (fin fin' new : Z -> Z -> Prop) (q q' : Z -> Z -> Z) σ σ' : divided fin q σ ->
  (forall i j k, 0 <= i < n3 -> 0 <= j < n1 -> fin i j -> 0 <= k < j -> fin i k) ->
  (forall i j k, 0 <= i < n3 -> 0 <= j < n1 -> ~ fin i j -> 0 <= k < q i j -> k < n1 /\ fin i k) ->
  (forall i j, 0 <= i < n3 -> 0 <= j < n1 -> new i j \/ σ' (b_ i j) = σ (b_ i j)) -> (forall i j, 0 <= i < n3 -> 0 <= j < n1 -> fin i j -> ~ new i j) ->
  (forall i j, 0 <= i < n3 -> 0 <= j < n1 -> fin' i j -> fin i j \/ σ' (b_ i j) = fdiv F (div_left i j j σ') (σ0 (a_ j j))) ->
  (forall i j, 0 <= i < n3 -> 0 <= j < n1 -> ~ fin' i j -> (~ fin i j /\ ~ new i j /\ q' i j = q i j) \/ σ' (b_ i j) = div_left i j (q' i j) σ') ->
  (forall b, (forall i j, 0 <= i < n3 -> 0 <= j < n1 -> b <> b_ i j) -> (forall y, 0 <= y < BS * BS -> b <> tmp + y) -> σ' b = σ b) -> divided fin' q' σ'.
Proof.
  intros [S1 S2 S3] D1 D2 Hun Hfn F1 F2 Ho.
  assert (forall i j, 0 <= i < n3 -> 0 <= j < n1 -> fin i j -> σ' (b_ i j) = σ (b_ i j)) as Hfin by (intros i j Hi Hj Hf; destruct (Hun i j Hi Hj) as [H|H]; [by destruct (Hfn i j Hi Hj Hf)|done]).
  split.
  - intros i j Hi Hj Hf. destruct (F1 i j Hi Hj Hf) as [Hold|]; [|done]. rewrite Hfin, (S1 i j Hi Hj Hold) by done. f_equal. symmetry.
    apply div_stable. intros k Hk. apply Hfin; [done|lia|]. by apply (D1 i j k).
  - intros i j Hi Hj Hf. destruct (F2 i j Hi Hj Hf) as [(Hold & Hnew & ->)|]; [|done]. destruct (Hun i j Hi Hj) as [|E]; [done|]. rewrite E, (S2 i j Hi Hj Hold). symmetry.
    apply div_stable. intros k Hk. destruct (D2 i j k Hi Hj Hold Hk). apply Hfin; [done|lia|done].
  - intros b H1 H2. rewrite Ho by done. by apply S3.
Qed.
Lemma d_apart i j i' j' : 0 <= i < n3 -> 0 <= i' < n3 -> i <> i' \/ j <> j' -> b_ i j <> b_ i' j'.
Proof. intros Hi Hi' Hne E. destruct (addr_inj n3 i j i' j'); lia. Qed.
Lemma d_reads fin q σ j k : divided fin q σ -> 0 <= j < n1 -> 0 <= k < n1 -> σ (a_ j k) = σ0 (a_ j k).
Proof. intros H Hj Hk. apply (di_out _ _ _ H); [intros; apply HAB; lia|]. intros y Hy E. destruct (HT y Hy) as (_ & Ha). by apply (Ha j k Hj Hk). Qed.

(** Rows [rs <= i < rl], columns [js <= j < jl]. *)
Section Piece.
Context (js jl rs rl : Z) (Hjs : 0 <= js < jl) (Hjl : jl <= n1) (Hrs : 0 <= rs < rl) (Hrl : rl <= n3) (Hw : jl - js <= BS) (Hh : rl - rs <= BS).
Local Abbreviation t_ i k := (tmp + ((i - rs) + (rl - rs) * (k - js))).
Local Abbreviation fin0 := (fun i j => j < js \/ j < jl /\ i < rs).
Local Abbreviation fin1 := (fun i j => j < js \/ j < jl /\ i < rl).
Local Abbreviation before := (fun i _ : Z => if i <? rs then jl else js).
Local Abbreviation upto_ ks := (fun i j : Z => if i <? rs then jl else if (i <? rl) && (j <? ks) then jl else js).

Lemma d_bound i k : rs <= i < rl -> js <= k < jl -> 0 <= (i - rs) + (rl - rs) * (k - js) < BS * BS.
Proof. nia. Qed.
Lemma d_tmp i k i' j' : rs <= i < rl -> js <= k < jl -> 0 <= i' < n3 -> 0 <= j' < n1 -> t_ i k <> b_ i' j'.
Proof. intros Hi Hk Hi' Hj'. destruct (HT _ (d_bound i k Hi Hk)) as [H _]. by apply H. Qed.

Lemma div_piece σ : divided fin0 before σ ->
  let σ' := CopyBlockBack B tmp n3 rs js rl jl (OneDiv F one (A + (js + js * n1)) tmp (jl - js) (rl - rs) n1 (CopyBlock B tmp n3 rs js rl jl σ)) in
  divided fin1 before σ' /\ forall i k, rs <= i < rl -> js <= k < jl -> σ' (t_ i k) = σ' (b_ i k).
Proof.
  intros HS. cbn zeta.
  assert (forall i k i' k', rs <= i < rl -> js <= k < jl -> rs <= i' < rl -> js <= k' < jl -> tmp + ((i - rs) + (k - js) * (rl - rs)) <> B + (i' + k' * n3)) as HD.
  { intros i k i' k' Hi Hk Hi' Hk'. pose proof (d_tmp i k i' k' Hi Hk ltac:(lia) ltac:(lia)). lia. }
  destruct (CopyBlock_ok B tmp n3 rs js rl jl σ ltac:(lia) ltac:(lia) HD) as [C1 C2]. set (σ1 := CopyBlock _ _ _ _ _ _ _ _) in *.
  destruct (OneDiv_ok F one (A + (js + js * n1)) tmp (jl - js) (rl - rs) n1 σ1 ltac:(lia) ltac:(lia) Hmul) as [D1 _ D3].
  { intros i j j' k Hi Hj Hj' Hk. destruct (HT _ (d_bound (rs + i) (js + j) ltac:(lia) ltac:(lia))) as [_ H]. specialize (H (js + j') (js + k) ltac:(lia) ltac:(lia)). lia. }
  set (σ2 := OneDiv _ _ _ _ _ _ _ _) in *.
  destruct (CopyBlockBack_ok B tmp n3 rs js rl jl σ2 ltac:(lia) ltac:(lia) ltac:(lia) HD) as [B1 B2]. set (σ3 := CopyBlockBack _ _ _ _ _ _ _ _) in *.
  assert (forall b, (forall y, 0 <= y < BS * BS -> b <> tmp + y) -> σ1 b = σ b) as O1 by (intros b Hb; apply C2; intros i k Hi Hk; rewrite (Z.mul_comm (k - js)); by apply Hb, d_bound).
  assert (forall b, (forall y, 0 <= y < BS * BS -> b <> tmp + y) -> σ2 b = σ b) as O2.
  { intros b Hb. rewrite D3; [by apply O1|]. intros i k Hi Hk. pose proof (d_bound (rs + i) (js + k) ltac:(lia) ltac:(lia)) as H. replace (rs + i - rs) with i in H by lia. replace (js + k - js) with k in H by lia. by apply Hb. }
  assert (forall i j, 0 <= i < n3 -> 0 <= j < n1 -> forall y, 0 <= y < BS * BS -> b_ i j <> tmp + y) as Hbt.
  { intros i j Hi Hj y Hy E. destruct (HT y Hy) as [H _]. by apply (H i j Hi Hj). }
  assert (forall i j, 0 <= i < n3 -> 0 <= j < n1 -> (rs <= i < rl /\ js <= j < jl) \/ σ3 (b_ i j) = σ (b_ i j)) as E3.
  { intros i j Hi Hj. destruct (decide (rs <= i < rl /\ js <= j < jl)) as [|Hd]; [by left|]. right. rewrite B2; [by apply O2, Hbt|]. intros i' k' Hi' Hk'. replace (i' + k' * n3) with (i' + n3 * k') by lia. apply d_apart; lia. }
  assert (forall i k, rs <= i < rl -> js <= k < jl -> σ3 (b_ i k) = σ2 (t_ i k)) as E4.
  { intros i k Hi Hk. specialize (B1 i k Hi Hk). replace (B + (i + k * n3)) with (b_ i k) in B1 by lia. rewrite B1. f_equal. lia. }
  assert (forall i k, rs <= i < rl -> js <= k < jl -> σ1 (t_ i k) = σ (b_ i k)) as E5.
  { intros i k Hi Hk. specialize (C1 i k Hi Hk). replace (B + (i + k * n3)) with (b_ i k) in C1 by lia. rewrite <- C1. f_equal. lia. }
  assert (forall j k, 0 <= j < n1 -> 0 <= k < n1 -> σ1 (a_ j k) = σ0 (a_ j k)) as E6.
  { intros j k Hj Hk. rewrite O1; [by apply (d_reads _ _ _ _ _ HS)|]. intros y Hy E. destruct (HT y Hy) as [_ H]. by apply (H j k Hj Hk). }
  split.
  - apply (divided_step fin0 _ (fun i j => rs <= i < rl /\ js <= j < jl) before _ σ); [done|row_deps|row_deps|intros; apply E3; lia|lia| | |].
    + intros i j Hi Hj Hf. destruct (decide (j < js \/ j < jl /\ i < rs)) as [|Hnew]; [by left|]. right. rewrite E4 by lia. specialize (D1 (i - rs) (j - js) ltac:(lia) ltac:(lia)). rewrite D1.
      replace (A + (js + js * n1) + (j - js + n1 * (j - js))) with (a_ j j) by lia. rewrite E6 by lia. f_equal. rewrite E5 by lia.
      rewrite (di_part _ _ _ HS i j Hi Hj Hnew). destruct (Z.ltb_spec i rs); [lia|]. rewrite <- (div_stable i j js σ σ3).
      * unfold div_left. rewrite <- (less_app F _ _ 0 js j) by lia. rewrite (less_rebase F _ _ js j). apply less_ext. intros k Hk. rewrite E4 by lia.
        f_equal; [rewrite <- E6 by lia; f_equal; lia|f_equal; lia].
      * intros k Hk. destruct (E3 i k ltac:(lia) ltac:(lia)); [lia|done].
    + intros i j Hi Hj Hf. left. lia.
    + intros b Hb Ht. rewrite B2; [by apply O2|]. intros i' k' Hi' Hk'. replace (i' + k' * n3) with (i' + n3 * k') by lia. apply Hb; lia.
  - intros i k Hi Hk. rewrite E4 by done. apply B2. intros i' k' Hi' Hk'. pose proof (d_tmp i k i' k' Hi Hk ltac:(lia) ltac:(lia)). lia.
Qed.

Lemma div_matmat ks kl σ : jl <= ks < kl -> kl <= n1 -> divided fin1 (upto_ ks) σ -> (forall i k, rs <= i < rl -> js <= k < jl -> σ (t_ i k) = σ (b_ i k)) ->
  let σ' := OneMatmat F tmp (A + (ks + js * n1)) (B + (rs + ks * n3)) (kl - ks) (jl - js) (rl - rs) n3 n1 σ in
  divided fin1 (upto_ kl) σ' /\ forall i k, rs <= i < rl -> js <= k < jl -> σ' (t_ i k) = σ' (b_ i k).
Proof.
  intros Hks Hkl HS Hcopy. cbn zeta.
  destruct (OneMatmat_ok F tmp (A + (ks + js * n1)) (B + (rs + ks * n3)) (kl - ks) (jl - js) (rl - rs) n3 n1 σ ltac:(lia) ltac:(lia) ltac:(lia)) as [G1 G2].
  { intros i j i' k Hi Hj Hi' Hk. pose proof (d_tmp (rs + i') (js + k) (rs + i) (ks + j) ltac:(lia) ltac:(lia) ltac:(lia) ltac:(lia)). lia. }
  { intros i j j' k Hi Hj Hj' Hk. pose proof (HAB (rs + i) (ks + j) (ks + j') (js + k) ltac:(lia) ltac:(lia) ltac:(lia) ltac:(lia)). lia. }
  set (σ' := OneMatmat _ _ _ _ _ _ _ _ _ _) in *.
  assert (forall i j, B + (rs + ks * n3) + (i + n3 * j) = b_ (rs + i) (ks + j)) as Ea by (intros; lia).
  assert (forall i j, 0 <= i < n3 -> 0 <= j < n1 -> (rs <= i < rl /\ ks <= j < kl) \/ σ' (b_ i j) = σ (b_ i j)) as Hun.
  { intros i j Hi Hj. destruct (decide (rs <= i < rl /\ ks <= j < kl)) as [|Hd]; [by left|]. right. apply G2. intros i' j' [Hj' Hi']. rewrite Ea. apply d_apart; lia. }
  split.
  - apply (divided_step fin1 fin1 (fun i j => rs <= i < rl /\ ks <= j < kl) (upto_ ks) _ σ); [done|row_deps|row_deps|intros; apply Hun; lia|lia|intros; by left| |].
    + intros i j Hi Hj Hf. destruct (decide (rs <= i < rl /\ ks <= j < kl)) as [[Hin Hjn]|Hd].
      * right. destruct (Z.ltb_spec i rs); [lia|]. destruct (Z.ltb_spec i rl); [|lia]. destruct (Z.ltb_spec j kl); [|lia]. cbn [andb].
        specialize (G1 (i - rs) (j - ks) ltac:(split; lia)). rewrite Ea in G1. replace (rs + (i - rs)) with i in G1 by lia. replace (ks + (j - ks)) with j in G1 by lia. rewrite G1.
        rewrite (di_part _ _ _ HS i j Hi Hj Hf). destruct (Z.ltb_spec i rs); [lia|]. destruct (Z.ltb_spec j ks); [lia|]. rewrite andb_false_r. rewrite <- (div_stable i j js σ σ').
        -- unfold div_left. rewrite <- (less_app F _ _ 0 js jl) by lia. rewrite (less_rebase F _ _ js jl). apply less_ext. intros k Hk. destruct (Hun i (k + js) ltac:(lia) ltac:(lia)) as [ | -> ]; [lia|].
           rewrite <- Hcopy by lia. f_equal; [rewrite <- (d_reads _ _ _ j (k + js) HS) by lia; f_equal; lia|f_equal; lia].
        -- intros k Hk. destruct (Hun i k ltac:(lia) ltac:(lia)); [lia|done].
      * left. split; [done|]. split; [done|]. destruct (Z.ltb_spec i rs), (Z.ltb_spec i rl), (Z.ltb_spec j ks), (Z.ltb_spec j kl); cbn [andb]; done || lia.
    + intros b Hb _. apply G2. intros i' j' [Hj' Hi']. rewrite Ea. apply Hb; lia.
  - intros i k Hi Hk. destruct (Hun i k ltac:(lia) ltac:(lia)) as [ | -> ]; [lia|]. rewrite <- Hcopy by done. apply G2. intros i' j' [Hj' Hi']. rewrite Ea. apply d_tmp; lia.
Qed.
End Piece.

Lemma BDiv_ok : divided (fun _ j => j < n1) (fun _ _ => n1) (BDiv F one BS tmp n1 n3 A B σ0).
Proof.
  unfold BDiv. destruct (Z.leb_spec (n1 * n3) (BS * BS)) as [Hle|Hbig].
  { destruct (OneDiv_ok F one A B n1 n3 n1 σ0 Hn1 Hn3 Hmul HAB) as [D1 _ D3]. split; [|lia|intros b Hb _; by apply D3]. intros i j Hi Hj _. by apply D1. }
  match goal with |- context [steps BS n1 0 σ0 ?body] => destruct (steps_ok (fun js σ => 0 <= js /\ divided (fun _ j => j < Z.min js n1) (fun _ _ => Z.min js n1) σ) BS n1 0 σ0 body) as [[H1 H2] H3];
    [lia| | |destruct (steps BS n1 0 σ0 body) as [js σ]; cbn [fst snd] in *; by rewrite Z.min_r in H2 by lia] end.
  - split; [lia|]. rewrite Z.min_l by lia. split; [lia| |done]. intros i j Hi Hj _. unfold div_left. by rewrite less_none.
  - intros js σ Hjs [Hjs0 HS]. rewrite Z.min_l in HS by lia. split; [lia|]. destruct (upper_min BS js n1 HBS Hjs) as (Hjl & Hw & <-). cbn zeta. set (jl := upper BS js n1) in *.
    match goal with |- context [steps BS n3 0 σ ?body] => destruct (steps_ok (fun rs σ => 0 <= rs /\
      divided (fun i j => j < js \/ j < jl /\ i < Z.min rs n3) (fun i _ => if i <? Z.min rs n3 then jl else js) σ) BS n3 0 σ body) as [[_ HS2] Hend];
      [lia| | |destruct (steps BS n3 0 σ body) as [rs σ2]; cbn [fst snd] in *] end.
    + split; [lia|]. rewrite Z.min_l by lia. revert HS. apply divided_ext; [lia|]. intros i j Hi Hj Hf. destruct (Z.ltb_spec i 0); [lia|done].
    + intros rs τ Hrs [Hrs0 HSτ]. split; [lia|]. rewrite Z.min_l in HSτ by lia. destruct (upper_min BS rs n3 HBS Hrs) as (Hrl & Hh & <-). set (rl := upper BS rs n3) in *.
      destruct (div_piece js jl rs rl ltac:(lia) ltac:(lia) ltac:(lia) ltac:(lia) Hw Hh τ HSτ) as [HS3 Hc3]. cbn zeta in *. set (τ1 := CopyBlockBack _ _ _ _ _ _ _ _) in *.
      match goal with |- context [steps BS n1 jl τ1 ?body] => destruct (steps_ok (fun ks σ => jl <= ks /\
        divided (fun i j => j < js \/ j < jl /\ i < rl) (fun i j => if i <? rs then jl else if (i <? rl) && (j <? ks) then jl else js) σ /\
        forall i k, rs <= i < rl -> js <= k < jl -> σ (tmp + ((i - rs) + (rl - rs) * (k - js))) = σ (b_ i k)) BS n1 jl τ1 body) as [(_ & HS4 & _) Hk2];
        [lia| | |destruct (steps BS n1 jl τ1 body) as [ks σ2]; cbn [fst snd] in *] end.
      * split; [lia|]. split; [|done]. revert HS3. apply divided_ext; [done|]. intros i j Hi Hj Hf. destruct (Z.ltb_spec i rs), (Z.ltb_spec i rl), (Z.ltb_spec j jl); cbn [andb]; done || lia.
      * intros ks υ Hks (Hks0 & HS4 & Hc4). destruct (upper_min BS ks n1 HBS Hks) as (Hkl & _ & Ekl). set (kl := upper BS ks n1) in *.
        destruct (div_matmat js jl rs rl ltac:(lia) ltac:(lia) ltac:(lia) Hw Hh ks kl υ ltac:(lia) ltac:(lia) HS4 Hc4) as [HS5 Hc5]. split; [lia|]. split; [|done].
        revert HS5. apply divided_ext; [done|]. intros i j Hi Hj Hf. destruct (Z.ltb_spec i rs), (Z.ltb_spec i rl), (Z.ltb_spec j kl), (Z.ltb_spec j (ks + BS)); cbn [andb]; done || lia.
      * revert HS4. apply divided_ext; [done|]. intros i j Hi Hj Hf. destruct (Z.ltb_spec i rs), (Z.ltb_spec i rl), (Z.ltb_spec j ks); cbn [andb]; done || lia.
    + rewrite Z.min_r in HS2 by lia. revert HS2. apply divided_ext; [lia|]. intros i j Hi Hj Hf. destruct (Z.ltb_spec i n3); [done|lia].
Qed.
End Divide.
End Blocks.

(** ** [FindBlockUpdate] *)

(** Rows of the blocks [a] to [b - 1]. *)
Definition span (len : Z -> Z) (a b : Z) : Z := foldr (fun i s => len i + s) 0 (seqZ a (b - a)).
Lemma span_one len a b : a <= b -> span len a (b + 1) = span len a b + len b.
Proof.
  intros H. unfold span. replace (b + 1 - a) with ((b - a) + 1) by lia. rewrite seqZ_app, foldr_app by lia. replace (a + (b - a)) with b by lia.
  change (seqZ b 1) with [b]. cbn [foldr]. rewrite Z.add_0_r. generalize (len b). induction (seqZ a (b - a)) as [|x l IH]; intros y; cbn [foldr]; [lia|]. rewrite IH. lia.
Qed.
Lemma span_steps len a b s : a <= b -> steps 1 b a s (fun i s => s + len i) = (b, s + span len a b).
Proof.
  intros H. pose proof (steps_ok (fun i t => a <= i <= b /\ t = s + span len a i) 1 b a s (fun i s => s + len i)) as K.
  destruct (steps 1 b a s _) as [i t]. cbn [fst snd] in K. destruct K as [[Hi ->] Hend].
  - lia.
  - split; [lia|]. unfold span. rewrite seqZ_nil by lia. cbn [foldr]. lia.
  - intros k x Hk [Hak ->]. split; [lia|]. rewrite span_one by lia. lia.
  - by replace i with b by lia.
Qed.
(** Where the element in row [r] and column [c] of a triangle of [u] rows is. *)
Definition packed (u r c : Z) : Z := c * u - Z.quot (c * (c + 1)) 2 + r.
Lemma packed_next u r c : 0 <= c -> packed u r (c + 1) = packed u r c + (u - c - 1).
Proof.
  intros H. unfold packed. replace ((c + 1) * (c + 1 + 1)) with (c * (c + 1) + (c + 1) * 2) by lia. rewrite !Z.quot_div_nonneg, Z.div_add by nia. lia.
Qed.
Lemma FindBlockUpdate_ok len col storage n domain bli blj : col (n + domain) <= blj <= bli -> bli <= col (n + domain + 1) ->
  let first := col (n + domain) in let u := span len first blj + span len blj bli + span len bli (col (n + domain + 1)) in
  FindBlockUpdate len col storage n domain bli blj =
    (storage domain + packed u (span len first blj + span len blj bli) (span len first blj), u - span len first blj - 1).
Proof. intros H1 H2. unfold FindBlockUpdate. rewrite !span_steps by lia. done. Qed.
End BfacBlocks.
