(* ===== verification/BfacExact.v ===== *)
(** * BfacExact: what the dense kernels compute

    In exact arithmetic [BFac] turns a block into its Cholesky factor, [BDiv] solves
    for the block below, and [BLMod] leaves what the next block on the diagonal is
    factored from; [BMod] subtracts a product in the arithmetic of the machine. *)

From stdpp Require Import base list option list_numbers.
From Stdlib Require Import Field Field_theory QArith Qcanon.
From S2P Require Import Prelude Doubles Bfac BfacLoops BfacKernels BfacMain BfacBlocks.
Local Open Scope Z_scope.

Module BfacExact.
Import Bfac BfacLoops BfacKernels BfacMain BfacBlocks.

(** The [la] numbers from [a] on and the [lb] from [b] on. *)
Definition apart (a la b lb : Z) : Prop := forall x y, 0 <= x < la -> 0 <= y < lb -> a + x <> b + y.
Lemma cell_range r c i j : 0 <= i < r -> 0 <= j < c -> 0 <= i + r * j < r * c.
Proof. nia. Qed.
Lemma apart_cells a r c b r' c' i j i' j' : apart a (r * c) b (r' * c') -> 0 <= i < r -> 0 <= j < c -> 0 <= i' < r' -> 0 <= j' < c' -> a + (i + r * j) <> b + (i' + r' * j').
Proof. intros H Hi Hj Hi' Hj'. apply H; by apply cell_range. Qed.
Lemma apart_cell a l b r c y i j : apart a l b (r * c) -> 0 <= y < l -> 0 <= i < r -> 0 <= j < c -> a + y <> b + (i + r * j).
Proof. intros H Hy Hi Hj. apply H; [done|by apply cell_range]. Qed.

Section Exact.
Context {V : Type} (F : arith V) (zero one : V) (inv : V -> V) (sqrt : V -> V) (BS : Z).
Hypothesis HF : field_theory zero one (fadd F) (fmul F) (fsub F) (fneg F) (fdiv F) inv eq.
Hypothesis HBS : 0 < BS.
Add Field bfac_field : HF.
Implicit Types (σ : Z -> V) (L : Z -> Z -> V).

Definition total (f : Z -> V) (n : Z) : V := foldl (fun t k => fadd F t (f k)) zero (seqZ 0 n).
Lemma total_0 f : total f 0 = zero.
Proof. done. Qed.
Lemma total_S f n : 0 <= n -> total f (n + 1) = fadd F (total f n) (f n).
Proof. intros H. unfold total. rewrite seqZ_app, foldl_app by lia. by replace (0 + n) with n by lia. Qed.

Lemma exact_sub_add : sub_add F.
Proof. intros t x y. ring. Qed.
Lemma exact_mul_recip : mul_recip F one.
Proof. intros x a. rewrite !(Fdiv_def HF). ring. Qed.
Lemma less_total t f n : 0 <= n -> less F t f 0 n = fsub F t (total f n).
Proof.
  intros H. pattern n. revert n H. apply natlike_ind; [rewrite less_none, total_0 by lia; ring|].
  intros n Hn IH. rewrite <- Z.add_1_r, less_S, total_S, IH by lia. ring.
Qed.

(** [L] is a lower triangular factor whose diagonal the square root finds. *)
Definition rooted L (n : Z) : Prop := forall j, 0 <= j < n -> sqrt (fmul F (L j j) (L j j)) = L j j /\ L j j <> zero.
(** The element of the product of [L] and its transpose, [j <= i]. *)
Definition square L (i j : Z) : V := total (fun k => fmul F (L j k) (L i k)) (j + 1).

Lemma square_left L i j f : 0 <= j -> (forall k, 0 <= k < j -> f k = fmul F (L j k) (L i k)) -> less F (square L i j) f 0 j = fmul F (L j j) (L i j).
Proof.
  intros Hj Hf. unfold square. rewrite (less_ext F _ f (fun k => fmul F (L j k) (L i k))) by exact Hf. rewrite less_total, total_S by done. ring.
Qed.
Lemma quotient_left x y : y <> zero -> fdiv F (fmul F y x) y = x.
Proof. intros H. by field. Qed.

(** ** Each kernel *)

Lemma BFac_exact L tmp A n σ0 : 0 <= n -> apart tmp (BS * BS) A (n * n) -> rooted L n ->
  (forall i j, 0 <= j <= i -> i < n -> σ0 (A + (i + n * j)) = square L i j) ->
  let σ := BFac F one sqrt BS tmp A n σ0 in
  (forall i j, 0 <= j <= i -> i < n -> σ (A + (i + n * j)) = L i j) /\
  forall b, (forall i j, 0 <= j <= i -> i < n -> b <> A + (i + n * j)) -> (forall y, 0 <= y < BS * BS -> b <> tmp + y) -> σ b = σ0 b.
Proof.
  intros Hn HT HL HA σ.
  destruct (BFac_ok F one sqrt BS HBS exact_sub_add exact_mul_recip tmp A n σ0 Hn) as [S1 _ S3]; [intros x y Hx Hy; by apply HT|]. split; [|exact S3].
  assert (forall m, 0 <= m -> forall i j, 0 <= j <= i -> i < n -> j < m -> σ (A + (i + n * j)) = L i j) as H; [|intros i j Hj Hi; by apply (H (j + 1)); lia].
  apply (natlike_ind (fun m => forall i j, 0 <= j <= i -> i < n -> j < m -> σ (A + (i + n * j)) = L i j)); [lia|]. intros m Hm IH.
  assert (forall i j, 0 <= j <= i -> i < n -> j = m -> left_of F A n σ0 i j j σ = fmul F (L j j) (L i j)) as Hleft.
  { intros i j Hj Hi ->. unfold left_of. rewrite HA by done. apply square_left; [lia|]. intros k Hk. by rewrite !IH by lia. }
  assert (forall j, 0 <= j -> j < n -> j = m -> σ (A + (j + n * j)) = L j j) as Hdiag.
  { intros j Hj Hjn E. unfold σ at 1. rewrite S1 by lia. fold σ. unfold finish. rewrite Z.eqb_refl, Hleft by lia. by apply HL. }
  intros i j Hj Hi Hjm. destruct (decide (j < m)) as [|Hge]; [by apply IH|]. destruct (decide (i = j)) as [->|Hij]; [apply Hdiag; lia|].
  unfold σ at 1. rewrite S1 by lia. fold σ. unfold finish. destruct (Z.eqb_spec i j); [lia|]. rewrite Hleft, Hdiag by lia. apply quotient_left, HL. lia.
Qed.

Lemma BDiv_exact L X tmp n1 n3 A B σ0 : 0 <= n1 -> 0 <= n3 -> apart A (n1 * n1) B (n3 * n1) -> apart tmp (BS * BS) A (n1 * n1) -> apart tmp (BS * BS) B (n3 * n1) ->
  (forall j, 0 <= j < n1 -> L j j <> zero) -> (forall j k, 0 <= k <= j -> j < n1 -> σ0 (A + (j + n1 * k)) = L j k) ->
  (forall i j, 0 <= i < n3 -> 0 <= j < n1 -> σ0 (B + (i + n3 * j)) = total (fun k => fmul F (L j k) (X i k)) (j + 1)) ->
  let σ := BDiv F one BS tmp n1 n3 A B σ0 in
  (forall i j, 0 <= i < n3 -> 0 <= j < n1 -> σ (B + (i + n3 * j)) = X i j) /\
  forall b, (forall i j, 0 <= i < n3 -> 0 <= j < n1 -> b <> B + (i + n3 * j)) -> (forall y, 0 <= y < BS * BS -> b <> tmp + y) -> σ b = σ0 b.
Proof.
  intros Hn1 Hn3 HAB HTA HTB HL HA HB σ.
  destruct (BDiv_ok F one BS HBS exact_mul_recip tmp n1 n3 A B σ0 Hn1 Hn3) as [S1 _ S3].
  { intros i j j' k Hi Hj Hj' Hk. by apply (apart_cells _ _ _ _ _ _ _ _ _ _ HAB). }
  { intros y Hy. split; intros; [by apply (apart_cell _ _ _ _ _ _ _ _ HTB)|by apply (apart_cell _ _ _ _ _ _ _ _ HTA)]. }
  split; [|exact S3]. intros i j Hi Hj.
  assert (forall m, 0 <= m -> forall j, 0 <= j < n1 -> j < m -> σ (B + (i + n3 * j)) = X i j) as H; [|by apply (H (j + 1)); lia]. clear j Hj.
  apply (natlike_ind (fun m => forall j, 0 <= j < n1 -> j < m -> σ (B + (i + n3 * j)) = X i j)); [lia|]. intros m Hm IH j Hj Hjm.
  destruct (decide (j < m)) as [|Hge]; [by apply IH|]. unfold σ at 1. rewrite S1 by lia. fold σ. unfold div_left. rewrite HB, HA by lia.
  rewrite (less_ext F _ _ (fun k => fmul F (L j k) (X i k))) by (intros k Hk; rewrite HA, IH by lia; done).
  rewrite less_total, total_S by lia. transitivity (fdiv F (fmul F (L j j) (X i j)) (L j j)); [f_equal; ring|]. by apply quotient_left, HL.
Qed.

Lemma BLMod_exact X tmp n1 n2 A C σ0 : 0 <= n1 -> 0 <= n2 -> apart A (n1 * n2) C (n1 * n1) -> apart tmp (BS * BS) A (n1 * n2) -> apart tmp (BS * BS) C (n1 * n1) ->
  (forall i k, 0 <= i < n1 -> 0 <= k < n2 -> σ0 (A + (i + n1 * k)) = X i k) ->
  let σ := BLMod F one BS tmp n1 n2 A C σ0 in
  (forall i j, 0 <= j <= i -> i < n1 -> σ (C + (i + n1 * j)) = fsub F (σ0 (C + (i + n1 * j))) (total (fun k => fmul F (X j k) (X i k)) n2)) /\
  forall b, (forall i j, 0 <= j <= i -> i < n1 -> b <> C + (i + n1 * j)) -> (forall y, 0 <= y < BS * BS -> b <> tmp + y) -> σ b = σ0 b.
Proof.
  intros Hn1 Hn2 HAC HTA HTC HA σ.
  destruct (BLMod_ok F one BS HBS exact_sub_add tmp n1 n2 A C σ0 Hn1 Hn2) as [S1 S2].
  { intros i j i' k Hj Hi Hi' Hk. apply (apart_cells _ _ _ _ _ _ _ _ _ _ HAC); lia. }
  { intros y Hy. split; intros; [apply (apart_cell _ _ _ _ _ _ _ _ HTC); lia|by apply (apart_cell _ _ _ _ _ _ _ _ HTA)]. }
  split; [|intros b Hb Ht; apply S2; [intros i j []; by apply Hb|done]]. intros i j Hj Hi. unfold σ. rewrite S1 by lia. rewrite <- less_total by done.
  apply less_ext. intros k Hk. by rewrite !HA by lia.
Qed.

(** What is left of a square after its first [m] products is a square. *)
Lemma total_split f m n : 0 <= m -> 0 <= n -> total f (m + n) = fadd F (total f m) (total (fun k => f (m + k)) n).
Proof.
  intros Hm Hn. pattern n. revert n Hn. apply natlike_ind; [rewrite Z.add_0_r, total_0; ring|].
  intros n Hn IH. rewrite <- Z.add_1_r, Z.add_assoc, !total_S, IH by lia. ring.
Qed.
Lemma square_rest L m i j : 0 <= m -> 0 <= j ->
  fsub F (square L (m + i) (m + j)) (total (fun k => fmul F (L (m + j) k) (L (m + i) k)) m) = square (fun i k => L (m + i) (m + k)) i j.
Proof. intros Hm Hj. unfold square. rewrite <- Z.add_assoc, total_split by lia. ring. Qed.

(** ** Two block columns *)

Section Blocks.
Context (L : Z -> Z -> V) (tmp n1 n3 D B E : Z) (σ0 : Z -> V) (Hn1 : 0 <= n1) (Hn3 : 0 <= n3).
Context (HTD : apart tmp (BS * BS) D (n1 * n1)) (HTB : apart tmp (BS * BS) B (n3 * n1)) (HTE : apart tmp (BS * BS) E (n3 * n3)).
Context (HDB : apart D (n1 * n1) B (n3 * n1)) (HDE : apart D (n1 * n1) E (n3 * n3)) (HBE : apart B (n3 * n1) E (n3 * n3)).
Context (HL : rooted L (n1 + n3)).
Context (HD : forall i j, 0 <= j <= i -> i < n1 -> σ0 (D + (i + n1 * j)) = square L i j).
Context (HB : forall i j, 0 <= i < n3 -> 0 <= j < n1 -> σ0 (B + (i + n3 * j)) = square L (n1 + i) j).
Context (HE : forall i j, 0 <= j <= i -> i < n3 -> σ0 (E + (i + n3 * j)) = square L (n1 + i) (n1 + j)).

Let σ1 := BFac F one sqrt BS tmp D n1 σ0.
Let σ2 := BDiv F one BS tmp n1 n3 D B σ1.
Let σ3 := BLMod F one BS tmp n3 n1 B E σ2.
Let σ4 := BFac F one sqrt BS tmp E n3 σ3.

Lemma two_blocks :
  (forall i j, 0 <= j <= i -> i < n1 -> σ4 (D + (i + n1 * j)) = L i j) /\
  (forall i j, 0 <= i < n3 -> 0 <= j < n1 -> σ4 (B + (i + n3 * j)) = L (n1 + i) j) /\
  (forall i j, 0 <= j <= i -> i < n3 -> σ4 (E + (i + n3 * j)) = L (n1 + i) (n1 + j)) /\
  forall b, (forall y, 0 <= y < BS * BS -> b <> tmp + y) -> (forall i j, 0 <= j <= i -> i < n1 -> b <> D + (i + n1 * j)) ->
    (forall i j, 0 <= i < n3 -> 0 <= j < n1 -> b <> B + (i + n3 * j)) -> (forall i j, 0 <= j <= i -> i < n3 -> b <> E + (i + n3 * j)) -> σ4 b = σ0 b.
Proof.
  assert (forall a r c, apart tmp (BS * BS) a (r * c) -> forall i j, 0 <= i < r -> 0 <= j < c -> forall y, 0 <= y < BS * BS -> a + (i + r * j) <> tmp + y) as Ht.
  { intros a r c H i j Hi Hj y Hy X. symmetry in X. revert X. by apply (apart_cell _ _ _ _ _ _ _ _ H). }
  assert (forall i j i' j', 0 <= i < n3 -> 0 <= j < n1 -> 0 <= i' < n1 -> 0 <= j' < n1 -> B + (i + n3 * j) <> D + (i' + n1 * j')) as HBD.
  { intros i j i' j' Hi Hj Hi' Hj' X. symmetry in X. revert X. by apply (apart_cells _ _ _ _ _ _ _ _ _ _ HDB). }
  assert (forall i j i' j', 0 <= i < n3 -> 0 <= j < n3 -> 0 <= i' < n1 -> 0 <= j' < n1 -> E + (i + n3 * j) <> D + (i' + n1 * j')) as HED.
  { intros i j i' j' Hi Hj Hi' Hj' X. symmetry in X. revert X. by apply (apart_cells _ _ _ _ _ _ _ _ _ _ HDE). }
  assert (forall i j i' j', 0 <= i < n3 -> 0 <= j < n3 -> 0 <= i' < n3 -> 0 <= j' < n1 -> E + (i + n3 * j) <> B + (i' + n3 * j')) as HEB.
  { intros i j i' j' Hi Hj Hi' Hj' X. symmetry in X. revert X. by apply (apart_cells _ _ _ _ _ _ _ _ _ _ HBE). }
  destruct (BFac_exact L tmp D n1 σ0 Hn1 HTD) as [D1 O1]; [intros j Hj; apply HL; lia|exact HD|]. fold σ1 in D1, O1.
  destruct (BDiv_exact L (fun i k => L (n1 + i) k) tmp n1 n3 D B σ1 Hn1 Hn3 HDB HTD HTB) as [D2 O2]; [intros j Hj; apply HL; lia|exact D1| |].
  { intros i j Hi Hj. rewrite O1; [by apply HB|intros; apply HBD; lia|by apply (Ht _ _ _ HTB)]. }
  fold σ2 in D2, O2. destruct (BLMod_exact (fun i k => L (n1 + i) k) tmp n3 n1 B E σ2 Hn3 Hn1 HBE HTB HTE D2) as [D3 O3]. fold σ3 in D3, O3.
  destruct (BFac_exact (fun i k => L (n1 + i) (n1 + k)) tmp E n3 σ3 Hn3 HTE) as [D4 O4]; [intros j Hj; apply HL; lia| |].
  { intros i j Hj Hi. rewrite D3, <- (square_rest L n1) by lia. f_equal. rewrite O2, O1; [by apply HE|intros; apply HED; lia|apply (Ht _ _ _ HTE); lia|intros; apply HEB; lia|apply (Ht _ _ _ HTE); lia]. }
  fold σ4 in D4, O4. split; [|split; [|split; [exact D4|intros b Hbt HbD HbB HbE; by rewrite O4, O3, O2, O1]]].
  - intros i j Hj Hi. rewrite O4, O3, O2; [by apply D1| | | | | |]; try (apply (Ht _ _ _ HTD); lia); intros; apply not_eq_sym; (apply HBD || apply HED); lia.
  - intros i j Hi Hj. rewrite O4, O3; [by apply D2| | | |]; try (apply (Ht _ _ _ HTB); lia); intros; apply not_eq_sym, HEB; lia.
Qed.
End Blocks.
End Exact.

(** ** The theorems *)

(** Two block columns: [D] and [E] on the diagonal, [B] below [D], and the copy. *)
Record layout (BS tmp n1 n3 D B E : Z) : Prop := {
  ly_size : 0 <= n1 /\ 0 <= n3;
  ly_tmp : apart tmp (BS * BS) D (n1 * n1) /\ apart tmp (BS * BS) B (n3 * n1) /\ apart tmp (BS * BS) E (n3 * n3);
  ly_blocks : apart D (n1 * n1) B (n3 * n1) /\ apart D (n1 * n1) E (n3 * n3) /\ apart B (n3 * n1) E (n3 * n3) }.
(** They hold [f]: the lower half of [D] and [E], the whole of [B]. *)
Definition holds {V} (n1 n3 D B E : Z) (f : Z -> Z -> V) (σ : Z -> V) : Prop :=
  (forall i j, 0 <= j <= i -> i < n1 -> σ (D + (i + n1 * j)) = f i j) /\
  (forall i j, 0 <= i < n3 -> 0 <= j < n1 -> σ (B + (i + n3 * j)) = f (n1 + i) j) /\
  (forall i j, 0 <= j <= i -> i < n3 -> σ (E + (i + n3 * j)) = f (n1 + i) (n1 + j)).
Definition outside (BS tmp n1 n3 D B E b : Z) : Prop :=
  (forall y, 0 <= y < BS * BS -> b <> tmp + y) /\ (forall i j, 0 <= j <= i -> i < n1 -> b <> D + (i + n1 * j)) /\
  (forall i j, 0 <= i < n3 -> 0 <= j < n1 -> b <> B + (i + n3 * j)) /\ (forall i j, 0 <= j <= i -> i < n3 -> b <> E + (i + n3 * j)).

(** C28. In exact arithmetic: when two block columns hold the product of a lower
    triangular [L] with its transpose, then [BFac] on the first block, [BDiv] of the
    block below it, [BLMod] of the second block on the diagonal and [BFac] of that
    one leave [L] there, whatever the sizes of the blocks and of their pieces, and
    besides the blocks' lower halves and the copy no number has changed. *)
Theorem block_columns_factored {V} (F : arith V) (zero one : V) (inv sqrt : V -> V) (BS : Z) (L : Z -> Z -> V) (tmp n1 n3 D B E : Z) (σ : Z -> V) :
  field_theory zero one (fadd F) (fmul F) (fsub F) (fneg F) (fdiv F) inv eq -> 0 < BS -> layout BS tmp n1 n3 D B E ->
  rooted F zero sqrt L (n1 + n3) -> holds n1 n3 D B E (square F zero L) σ ->
  let σ' := BFac F one sqrt BS tmp E n3 (BLMod F one BS tmp n3 n1 B E (BDiv F one BS tmp n1 n3 D B (BFac F one sqrt BS tmp D n1 σ))) in
  holds n1 n3 D B E L σ' /\ forall b, outside BS tmp n1 n3 D B E b -> σ' b = σ b.
Proof.
  intros HF HBS [[Hn1 Hn3] (T1 & T2 & T3) (B1 & B2 & B3)] HL (HD & HB & HE).
  destruct (two_blocks F zero one inv sqrt BS HF HBS L tmp n1 n3 D B E σ Hn1 Hn3 T1 T2 T3 B1 B2 B3 HL HD HB HE) as (R1 & R2 & R3 & R4).
  split; [done|]. intros b (O1 & O2 & O3 & O4). by apply R4.
Qed.

Definition ex_L (i j : Z) : Qc := if j <? i then Q2Qc (inject_Z (i - 2 * j)) else if i =? j then Q2Qc (inject_Z (1 + i)) else 0%Qc.
Definition ex_sqrt (x : Qc) : Qc := if Qc_eq_dec x (Q2Qc 4) then Q2Qc 2 else if Qc_eq_dec x (Q2Qc 9) then Q2Qc 3 else x.
Definition ex_mem (a : Z) : Qc :=
  let f := square Qc_arith 0%Qc ex_L in
  if a <? 4 then f (a `mod` 2) (a `div` 2) else if a <? 6 then f 2 (a - 4) else f 2 2.
Lemma block_columns_factored_witness :
  holds 2 1 0 4 6 ex_L (BFac Qc_arith 1%Qc ex_sqrt 1 7 6 1 (BLMod Qc_arith 1%Qc 1 7 1 2 4 6 (BDiv Qc_arith 1%Qc 1 7 2 1 0 4 (BFac Qc_arith 1%Qc ex_sqrt 1 7 0 2 ex_mem)))).
Proof.
  apply (block_columns_factored Qc_arith 0%Qc 1%Qc Qcinv ex_sqrt 1 ex_L 7 2 1 0 4 6 ex_mem); [exact Qcft|done| | |].
  - split; [done| |]; split_and!; intros x y; lia.
  - intros j Hj. assert (j = 0 \/ j = 1 \/ j = 2) as [->|[->| ->]] by lia; (split; [apply Qc_is_canon; vm_compute; reflexivity|intros H; apply (f_equal this) in H; vm_compute in H; discriminate]).
  - split_and!.
    + intros i j Hj Hi. assert (i = 0 \/ i = 1) as [->| ->] by lia; assert (j = 0 \/ j = 1) as [->| ->] by lia; reflexivity || lia.
    + intros i j Hi Hj. assert (i = 0) as -> by lia; assert (j = 0 \/ j = 1) as [->| ->] by lia; reflexivity.
    + intros i j Hj Hi. assert (i = 0) as -> by lia; assert (j = 0) as -> by lia; reflexivity.
Defined.

(** C29. In the arithmetic of any machine: [BMod] takes the products of a row of [B] and
    a row of [A] away from the element of [C] one after the other, in the order of
    the columns, whichever of its three ways through the block it takes, and
    changes nothing but [C] and the copy. *)
Theorem BMod_subtracts {V} (F : arith V) (BS tmp n1 n2 n3 A B C : Z) (σ : Z -> V) :
  0 < BS -> 0 <= n1 -> 0 <= n2 -> 0 <= n3 -> apart A (n1 * n2) C (n3 * n1) -> apart B (n3 * n2) C (n3 * n1) ->
  apart tmp (BS * BS) A (n1 * n2) -> apart tmp (BS * BS) B (n3 * n2) -> apart tmp (BS * BS) C (n3 * n1) ->
  let σ' := BMod F BS tmp n1 n2 n3 A B C σ in
  (forall i j, 0 <= i < n3 -> 0 <= j < n1 ->
    σ' (C + (i + n3 * j)) = foldl (fun t k => fsub F t (fmul F (σ (A + (j + n1 * k))) (σ (B + (i + n3 * k))))) (σ (C + (i + n3 * j))) (seqZ 0 n2)) /\
  forall b, (forall i j, 0 <= i < n3 -> 0 <= j < n1 -> b <> C + (i + n3 * j)) -> (forall y, 0 <= y < BS * BS -> b <> tmp + y) -> σ' b = σ b.
Proof.
  intros HBS Hn1 Hn2 Hn3 HAC HBC HTA HTB HTC.
  destruct (BMod_ok F BS HBS tmp n1 n2 n3 A B C σ Hn1 Hn2 Hn3) as [S1 S2].
  - intros i j j' k Hi Hj Hj' Hk. by apply (apart_cells _ _ _ _ _ _ _ _ _ _ HAC).
  - intros i j i' k Hi Hj Hi' Hk. by apply (apart_cells _ _ _ _ _ _ _ _ _ _ HBC).
  - intros y Hy. split_and!; intros; [by apply (apart_cell _ _ _ _ _ _ _ _ HTC)|by apply (apart_cell _ _ _ _ _ _ _ _ HTA)|by apply (apart_cell _ _ _ _ _ _ _ _ HTB)].
  - split; [|intros b Hb Ht; apply S2; [intros i j []; by apply Hb|done]]. intros i j Hi Hj. rewrite S1 by done. unfold less. by rewrite Z.sub_0_r.
Qed.
Lemma BMod_subtracts_witness :
  let σ a := Q2Qc (inject_Z (a * a)) in BMod Qc_arith 2 40 3 3 3 0 9 18 σ 18 = foldl (fun t k => Qcminus t (Qcmult (σ (3 * k)) (σ (9 + 3 * k)))) (σ 18) (seqZ 0 3).
Proof. intros σ. apply (BMod_subtracts Qc_arith 2 40 3 3 3 0 9 18 σ) with (i := 0) (j := 0); lia || (intros x y; lia). Defined.
End BfacExact.
